(* ===== verification/_CoqProject ===== *)
-Q . S2P
Prelude.v
Moves.v
Bits.v
Simd.v
Strings.v
Encode.v
Latch.v
Control.v
Locks.v
Hash.v
HashBytes.v
HashProps.v
Pointer.v
Leaf.v
LeafSpec.v
Inner.v
InnerSpec.v
InnerOps.v
InnerProps.v
FBTree.v
Levels.v
Growth.v
Words.v
Cover.v
Shrink.v
InnerKind.v
LeafPart.v
Scan.v
FBTreeSpec.v
FBTreeOps.v
FBTreeScan.v
FBTreeRemove.v
FBTreeProps.v
SInner.v
SInnerSpec.v
SInnerOps.v
SInnerProps.v
Rank.v
SLeaf.v
SLeafSim.v
SLeafSpec.v
SLeafProps.v
SInnerKind.v
SFBTree.v
SFBTreeSpec.v
SFBTreeOps.v
SFBTreeScan.v
SFBTreeRemove.v
SFBTreeProps.v
Epoch.v
EpochSpec.v
EpochProps.v
BLinkNode.v
BLinkSpec.v
BLinkTree.v
BLinkTreeSpec.v
BLinkTreeOps.v
BLinkInsert.v
BLinkProps.v
