(* ===== verification/Prelude.v ===== *)
(** * IndexResearch: a verification library for FB+-tree and its companions

    ** The program

    The repository's own code is FB+-tree, an ordered index for many threads
    ([src/FBTree]), the utilities it is made of ([src/util]), and a B-link tree in plain
    C++ that it is compared with ([src/BLinkTree]). The other directories are indexes of
    other authors, drivers and benchmarks.

    FB+-tree ([fbtree.h]) is a B+-tree whose levels are linked lists. A leaf
    ([lnode.h]) keeps up to 64 pointers to key-value pairs, unordered, with a bitmap of
    the used slots and a one-byte tag per slot (the hash of its key): a search compares
    all the tags at once ([compare.h], [simd.h]), and the leaf is sorted only when a scan
    needs it. An inner node ([inode.h]) keeps its separators column-wise, as [features]:
    a search narrows down the set of candidates byte by byte, with SIMD comparisons of
    signed bytes, which is why keys are re-encoded ([constant.h]). Every node opens with
    a control word ([control.h]), a latch with a version that optimistic readers check.
    Removed nodes and pairs are given to an epoch-based reclaimer ([epoch.h]).

    ** The files

    - [Prelude]: undefined behaviour as [None], its notations, loops, arrays, lists,
      words, tactics and hint databases. [Moves]: what an insertion, a deletion, a split
      or a join does to an array with a sequence of separators and routes between them;
      both inner nodes use it.
    - [Bits] (util/common.h), [Simd] (util/simd.h, FBTree/compare.h), [Strings]
      (util/strutil.h, util/type.h), [Encode] (FBTree/constant.h).
    - [Latch]: the interface [VersionLatch] that all the latches of one word implement,
      and what it gives to threads that interleave at the accesses of the code's loops:
      mutual exclusion, and that a validated read overlapped no write but those that no
      version tells of (updates in place, of one pointer, are such). [Control] (FBTree/control.h) and [Locks]
      (util/lock.h, BLinkTree/latch.h) implement it; the reader-writer latch of the
      B-link tree has a transition system of its own.
    - [Hash], [HashBytes] (util/hash.h, util/internal/hash-internal.h), [HashProps]: the
      hash functions on memory, and what they read of it. [Pointer] (util/pointer.h).
    - [Leaf], [LeafSpec] (FBTree/lnode.h, integer keys): the class as a record, one
      definition per member function; a leaf stands for a finite map ([content]) and
      every operation is specified on that map under the invariant [leaf_wf]. What the
      class needs of its key type is a parameter, [kcode], with laws, [CodeOk].
    - [Inner], [InnerSpec], [InnerOps], [InnerProps] (FBTree/inode.h, integer keys): the
      same for the inner node, whose abstraction is the sequence of its separators and
      of the routes between them ([inode_wf], [route]).
    - [Levels]: what B+-trees with linked levels have in common: entries with upper
      bounds, the place of a key, chains of levels, paths, splits. [Growth]: how a split
      goes up through the levels to a new root, against an interface ([Propagation],
      [LeafLevel]) that both FB+-trees implement; [Words]: the control words of the nodes
      of a heap. [Cover]: inner nodes of any kind ([ikind], with laws, [IkindOk]) and the
      level below, through insertions and removals. [Shrink]: how a merge goes up, against
      an interface ([Contraction]). [LeafPart]: a leaf and its part of the map. [Scan]:
      how an iterator goes through the leaves, against an interface ([Scanning]).
    - [InnerKind], [SInnerKind]: the two inner nodes are kinds of inner nodes, and their
      searches find the place of a key.
    - [FBTree], [FBTreeSpec], [FBTreeOps], [FBTreeScan], [FBTreeRemove], [FBTreeProps]
      (FBTree/fbtree.h, integer keys): the operations over a heap of nodes, and the proof
      that they refine a finite map ([represents], [implements]); iteration in order, and
      removal with the merges it causes up to the root.
    - [SInner], [SInnerSpec], [SInnerOps], [SInnerProps] (FBTree/inode.h, string keys): the
      inner node with a common prefix, four columns of features, and a binary search of
      the separators where these do not decide.
    - [Rank]: the strings of at most [N] bytes, numbered in lexicographic order.
    - [SLeaf] (FBTree/lnode.h, string keys); [SLeafSim]: read through [Rank], it does what
      [Leaf] does over the code [string_code]; [SLeafSpec], [SLeafProps]: its invariant,
      and its operations on the finite map from strings to pairs.
    - [SFBTree] (FBTree/fbtree.h, string keys); [SFBTreeSpec], [SFBTreeOps], [SFBTreeScan],
      [SFBTreeRemove], [SFBTreeProps]: what a tree of strings stands for, by the numbers of
      its keys ([srepresents], [numbers]), that lookups, updates, upserts and removals
      refine a map of strings, and that scans meet its pairs in lexicographic order.
    - [Epoch], [EpochSpec], [EpochProps] (util/epoch.h): the limbo lists, the epochs and
      guards, with the threads interleaved at their accesses of the shared words.
    - [BLinkNode], [BLinkSpec], [BLinkTree], [BLinkTreeSpec], [BLinkTreeOps],
      [BLinkInsert], [BLinkProps] (BLinkTree/): the nodes, the tree with its latches, and
      the proof that it refines a finite map.

    ** What is shown

    The trees refine finite maps, for any sequence of operations from the empty tree,
    through every split up to a new root; the nodes do, operation by operation, and on
    every branch. Searches are shown equal to a search of the sorted sequence the node
    stands for; SIMD modes to one another; encodings keep the order and are injective.
    Latches exclude, and a validated read has missed no write of a session that updated
    the version. The reclaimer gives
    nothing back that a running operation may use, as long as no thread is stopped
    between the two accesses of [startop]; a run where one is shows that this is needed.
    Where the code has a flaw, the theorem states the exact condition, and a finding
    names the line.

    ** Conventions, bounds and fuel

    [None] is undefined behaviour: a failed assertion, an access outside an array or of
    an uninitialised cell, the use of a node as what it is not, a wait without end.
    Integers are [Z], with their wrap-around written out ([w64], [wrap]). What
    uninitialised memory holds, and the addresses that [malloc] returns, are parameters
    ([Allocator], [SAllocator], [NodeAllocator]) with laws of their own.

    Loops that follow pointers have the number of nodes in the heap, plus one, as fuel
    ([node_fuel]): in a tree that stands for a map they visit a node once, and the
    theorems say that the operations return, so the fuel is enough. Loops over the set
    bits of a word have 65 turns ([mask_fuel]), one more than it has bits; loops over
    bytes of a key, nine.

    A node that is accessed under its latch, or whose version is validated afterwards,
    is modelled as sequential code, which is what [Latch] justifies for one node, updates
    in place apart, which exchange one pointer. The operations of a tree run inside an
    [EpochGuard] ([enter]), as [guarded] asserts. The
    trees are run by one thread at a time; what their code does for threads that meet
    (moving right after a split) is part of the definitions, but no theorem is about
    several threads in one tree. Memory is sequentially consistent throughout. The hash
    functions read words of memory in little-endian order.

    ** What is not modelled

    - [node_parameter], [exhibit] and other printing; [standard_hash], which calls the
      C++ library; the copy constructor of [BLinkNode], which no program can use.
    - BTreeOLC, OptiQL, ART and the vendored indexes: other authors' code. Generators,
      timing, pinning and benchmarks: random numbers, floating point, system calls.
*)

From stdpp Require Export base tactics numbers list gmap sorting relations.
From Stdlib Require Export ZArith Lia.

#[global] Open Scope Z_scope.
#[global] Set Default Goal Selector "!".

(** ** Undefined behaviour as [None]

    Every operation that the C++ code can only run safely under a precondition
    (an [assert], a [DEBUG_COND_ERROR], an array access, a load of an
    indeterminate value) is a partial function: [None] is "no defined result". *)

(** the address of a node, [nullptr] as [None] *)
Abbreviation ptr := (option Z).

(** boolean tests in the hypotheses become arithmetic facts *)
Ltac bool_to_prop :=
  repeat match goal with
  | H : true = _ |- _ => symmetry in H
  | H : false = _ |- _ => symmetry in H
  | H : (_ && _) = true |- _ => apply andb_true_iff in H as [? ?]
  | H : (_ || _) = false |- _ => apply orb_false_iff in H as [? ?]
  | H : (_ && _) = false |- _ => apply andb_false_iff in H
  | H : (_ || _) = true |- _ => apply orb_true_iff in H
  | H : negb _ = true |- _ => apply negb_true_iff in H
  | H : negb _ = false |- _ => apply negb_false_iff in H
  | H : (_ <? _) = true |- _ => apply Z.ltb_lt in H
  | H : (_ <? _) = false |- _ => apply Z.ltb_ge in H
  | H : (_ <=? _) = true |- _ => apply Z.leb_le in H
  | H : (_ <=? _) = false |- _ => apply Z.leb_gt in H
  | H : (_ =? _) = true |- _ => apply Z.eqb_eq in H
  | H : (_ =? _) = false |- _ => apply Z.eqb_neq in H
  end.

(** [lia] over boolean tests, in the goal or the hypotheses *)
Ltac blia :=
  intros;
  first
    [ lia
    | bool_to_prop;
      repeat match goal with |- true = _ => symmetry | |- false = _ => symmetry end;
      rewrite ?andb_true_iff, ?andb_false_iff, ?orb_true_iff, ?orb_false_iff,
        ?Z.ltb_lt, ?Z.ltb_ge, ?Z.leb_le, ?Z.leb_gt, ?Z.eqb_eq, ?Z.eqb_neq; lia ].

(** replace a boolean test by its known value *)
Tactic Notation "btrue" uconstr(b) := replace b with true by blia.
Tactic Notation "bfalse" uconstr(b) := replace b with false by blia.

Declare Scope cpp_scope.
Delimit Scope cpp_scope with cpp.
#[global] Open Scope cpp_scope.

(** [assert(b); k] *)
Definition asserting {A} (b : bool) (k : option A) : option A :=
  if b then k else None.

Notation "'let*' x ':=' m 'in' k" := (mbind (fun x => k) m)
  (at level 10, x pattern, m at level 100, k at level 200) : cpp_scope.
Notation "'assert*' b 'in' k" := (asserting b k)
  (at level 10, b at level 100, k at level 200) : cpp_scope.

Lemma asserting_Some {A} (b : bool) (k : option A) x :
  asserting b k = Some x <-> b = true /\ k = Some x.
Proof. destruct b; cbn; naive_solver. Qed.

(** running the code one statement at a time (by rewriting: the terms may be large) *)
Lemma bind_Some {A B} (f : A -> option B) x : mbind f (Some x) = f x.
Proof. done. Qed.

Lemma asserting_true {A} (k : option A) : asserting true k = k.
Proof. done. Qed.

(** ** Machine integers *)

(** [wrap w z]: the value of [z] in an unsigned [w]-bit type. *)
Definition wrap (w z : Z) : Z := z mod 2 ^ w.
Abbreviation w64 := (wrap 64).
Abbreviation w32 := (wrap 32).
Abbreviation w8 := (wrap 8).

(** [swrap w z]: the value of [z] in a signed (two's complement) [w]-bit type. *)
Definition swrap (w z : Z) : Z :=
  let u := wrap w z in if u <? 2 ^ (w - 1) then u else u - 2 ^ w.

(** reading a byte of memory as the (signed) [char] of x86-64 *)
Definition schar (b : Z) : Z := if b <? 128 then b else b - 256.

Definition is_u64 (z : Z) : Prop := 0 <= z < 2 ^ 64.
Definition is_byte (b : Z) : Prop := 0 <= b < 256.

Lemma wrap_bounds w z : 0 <= w -> 0 <= wrap w z < 2 ^ w.
Proof. intros. unfold wrap. apply Z.mod_pos_bound. lia. Qed.

Lemma w64_is_u64 z : is_u64 (w64 z).
Proof. unfold is_u64. apply wrap_bounds. lia. Qed.

Lemma wrap_small w z : 0 <= z < 2 ^ w -> wrap w z = z.
Proof. intros. unfold wrap. by apply Z.mod_small. Qed.

Lemma wrap_testbit w z i :
  0 <= w -> Z.testbit (wrap w z) i = (i <? w) && Z.testbit z i.
Proof.
  intros Hw. unfold wrap. destruct (decide (0 <= i)).
  - destruct (i <? w) eqn:E; cbn.
    + apply Z.mod_pow2_bits_low. lia.
    + apply Z.mod_pow2_bits_high. lia.
  - rewrite !Z.testbit_neg_r by lia. by rewrite andb_false_r.
Qed.

Lemma wrap_wrap w z : 0 <= w -> wrap w (wrap w z) = wrap w z.
Proof. intros. unfold wrap. by rewrite Zmod_mod. Qed.

Lemma testbit_above n w i :
  0 <= w -> 0 <= n < 2 ^ w -> w <= i -> Z.testbit n i = false.
Proof.
  intros Hw Hn Hi. rewrite <- (wrap_small w n) by done.
  rewrite wrap_testbit by done. bfalse (i <? w). done.
Qed.

(** two words of the same width are equal when they agree bit by bit *)
Lemma word_ext w a b :
  0 <= w -> 0 <= a < 2 ^ w -> 0 <= b < 2 ^ w ->
  (forall i, 0 <= i < w -> Z.testbit a i = Z.testbit b i) -> a = b.
Proof.
  intros Hw Ha Hb H. apply Z.bits_inj'. intros i Hi.
  destruct (decide (i < w)); [apply H; lia|].
  rewrite !(testbit_above _ w); auto with lia.
Qed.

Lemma testbit_bound w n :
  0 <= w -> 0 <= n -> (forall i, w <= i -> Z.testbit n i = false) -> n < 2 ^ w.
Proof.
  intros Hw Hn H. destruct (decide (n < 2 ^ w)); [done|exfalso].
  assert (Hp : 0 < 2 ^ w) by lia.
  assert (Hl : w <= Z.log2 n) by (apply Z.log2_le_pow2; lia).
  pose proof (Z.bit_log2 n ltac:(lia)). rewrite H in * by lia. done.
Qed.

Lemma land_u64 a b : is_u64 a -> is_u64 (Z.land a b).
Proof.
  intros [H0 H1]. split; [apply Z.land_nonneg; lia|].
  apply testbit_bound; [lia|apply Z.land_nonneg; lia|]. intros i Hi.
  rewrite Z.land_spec, (testbit_above a 64); auto with lia.
Qed.

Lemma lor_u64 a b : is_u64 a -> is_u64 b -> is_u64 (Z.lor a b).
Proof.
  intros [H0 H1] [H2 H3]. split; [apply Z.lor_nonneg; lia|].
  apply testbit_bound; [lia|apply Z.lor_nonneg; lia|]. intros i Hi.
  rewrite Z.lor_spec, (testbit_above a 64), (testbit_above b 64); auto with lia.
Qed.

(** [mask & ~(1 << i)] and [mask | (1 << i)] on 64-bit words *)
Definition clear_bit (m i : Z) : Z := Z.ldiff m (Z.shiftl 1 i).
Definition set_bit (m i : Z) : Z := Z.lor m (Z.shiftl 1 i).

Lemma shiftl_1_testbit i j : 0 <= i -> Z.testbit (Z.shiftl 1 i) j = (i =? j).
Proof.
  intros. rewrite Z.shiftl_1_l, Z.pow2_bits_eqb by lia. done.
Qed.

Lemma clear_bit_testbit m i j :
  0 <= i -> Z.testbit (clear_bit m i) j = Z.testbit m j && negb (i =? j).
Proof. intros. unfold clear_bit. by rewrite Z.ldiff_spec, shiftl_1_testbit. Qed.

Lemma set_bit_testbit m i j :
  0 <= i -> Z.testbit (set_bit m i) j = Z.testbit m j || (i =? j).
Proof. intros. unfold set_bit. by rewrite Z.lor_spec, shiftl_1_testbit. Qed.

Lemma clear_bit_u64 m i : is_u64 m -> is_u64 (clear_bit m i).
Proof.
  intros [H0 H1]. unfold clear_bit. split; [apply Z.ldiff_nonneg; lia|].
  apply testbit_bound; [lia|apply Z.ldiff_nonneg; lia|]. intros j Hj.
  rewrite Z.ldiff_spec, (testbit_above m 64); auto with lia.
Qed.

Lemma set_bit_u64 m i : is_u64 m -> 0 <= i < 64 -> is_u64 (set_bit m i).
Proof.
  intros Hm Hi. unfold set_bit. apply lor_u64; [done|].
  rewrite Z.shiftl_1_l. split; [lia|]. apply Z.pow_lt_mono_r; lia.
Qed.

(** [(1ul << n) - 1] with the [n = 64] case written apart, as the code does *)
Definition ones64 (n : Z) : Z := Z.ones n.

Lemma ones_testbit n i : 0 <= n -> Z.testbit (Z.ones n) i = (0 <=? i) && (i <? n).
Proof.
  intros. destruct (decide (0 <= i)).
  - rewrite Z.testbit_ones by lia. done.
  - rewrite Z.testbit_neg_r by lia. by bfalse (0 <=? i).
Qed.

(** single bits and bit ranges of a word, arithmetically *)
Lemma land_bit c k : 0 <= k -> Z.land c (2 ^ k) = 2 ^ k * Z.b2z (Z.testbit c k).
Proof.
  intros Hk. apply Z.bits_inj'. intros i Hi.
  rewrite Z.land_spec, Z.pow2_bits_eqb by done.
  destruct (Z.eqb_spec k i) as [->|Hne].
  - rewrite andb_true_r, Z.mul_comm, Z.mul_pow2_bits by done.
    rewrite Z.sub_diag. by destruct (Z.testbit c i).
  - rewrite andb_false_r. destruct (Z.testbit c k); cbn [Z.b2z].
    + rewrite Z.mul_1_r, Z.pow2_bits_eqb by done. symmetry. by apply Z.eqb_neq.
    + by rewrite Z.mul_0_r, Z.bits_0.
Qed.

Lemma testbit_div c k : 0 <= k -> Z.b2z (Z.testbit c k) = c / 2 ^ k mod 2.
Proof. intros. rewrite <- Z.testbit_spec' by done. done. Qed.

(** a mask of the bits from [a] to [b - 1] *)
Lemma land_mask c a b :
  0 <= a <= b -> Z.land c (2 ^ b - 2 ^ a) = 2 ^ a * (c / 2 ^ a mod 2 ^ (b - a)).
Proof.
  intros Hab. rewrite <- Z.land_ones by lia.
  replace (2 ^ b - 2 ^ a) with (Z.shiftl (Z.ones (b - a)) a).
  2:{ rewrite Z.shiftl_mul_pow2, Z.ones_equiv by lia.
      replace b with ((b - a) + a) at 2 by lia. rewrite Z.pow_add_r by lia. lia. }
  rewrite Z.mul_comm, <- Z.shiftl_mul_pow2, <- Z.shiftr_div_pow2 by lia.
  apply Z.bits_inj'. intros i Hi. rewrite Z.land_spec, !Z.shiftl_spec, Z.land_spec by done.
  destruct (decide (a <= i)).
  - rewrite Z.shiftr_spec by lia. f_equal. f_equal. lia.
  - rewrite (Z.testbit_neg_r (Z.ones _)) by lia. by rewrite !andb_false_r.
Qed.

(** ** Arrays: lists accessed by a C [int] *)

Section arrays.
Context {A : Type}.
Implicit Types (l : list A) (i n : Z).

(** [l[i]], undefined out of range *)
Definition aget l i : option A := if i <? 0 then None else l !! Z.to_nat i.

(** [l[i] = x], undefined out of range *)
Definition aset l i (x : A) : option (list A) :=
  if (0 <=? i) && (i <? Z.of_nat (length l)) then Some (<[Z.to_nat i := x]> l) else None.

(** [memmove(dst, src, n)] of [n] elements between two arrays (or within one):
    [dst + d] receives the old contents of [src + s] *)
Definition amove (dst : list A) (d : Z) (src : list A) (s n : Z) : option (list A) :=
  if (0 <=? d) && (0 <=? s) && (0 <=? n)
     && (d + n <=? Z.of_nat (length dst)) && (s + n <=? Z.of_nat (length src))
  then Some (take (Z.to_nat d) dst
               ++ take (Z.to_nat n) (drop (Z.to_nat s) src)
               ++ drop (Z.to_nat (d + n)) dst)
  else None.

(** [memset(l, x, n)] *)
Definition aset_range l (x : A) n : option (list A) :=
  if (0 <=? n) && (n <=? Z.of_nat (length l))
  then Some (replicate (Z.to_nat n) x ++ drop (Z.to_nat n) l) else None.

Lemma aget_Some l i x :
  aget l i = Some x <-> 0 <= i /\ l !! Z.to_nat i = Some x.
Proof. unfold aget. destruct (i <? 0) eqn:E; naive_solver lia. Qed.

Lemma aget_nat l (i : nat) : aget l (Z.of_nat i) = l !! i.
Proof.
  unfold aget. bfalse (Z.of_nat i <? 0). by rewrite Nat2Z.id.
Qed.

Lemma aget_in_range l i :
  0 <= i < Z.of_nat (length l) -> is_Some (aget l i).
Proof.
  intros. unfold aget. bfalse (i <? 0).
  apply lookup_lt_is_Some. lia.
Qed.

Lemma aset_in_range l i x :
  0 <= i < Z.of_nat (length l) -> aset l i x = Some (<[Z.to_nat i := x]> l).
Proof.
  intros. unfold aset. btrue ((0 <=? i) && (i <? Z.of_nat (length l))). done.
Qed.

Lemma aget_insert l i j x :
  0 <= i < Z.of_nat (length l) ->
  aget (<[Z.to_nat i := x]> l) j = if i =? j then Some x else aget l j.
Proof.
  intros Hi. unfold aget. destruct (j <? 0) eqn:Ej; [by bfalse (i =? j)|].
  destruct (Z.eqb_spec i j) as [->|Hne].
  - apply list_lookup_insert_eq. lia.
  - apply list_lookup_insert_ne. lia.
Qed.

Lemma aget_range l i x : aget l i = Some x -> 0 <= i < Z.of_nat (length l).
Proof. intros [Hi H%lookup_lt_Some]%aget_Some. lia. Qed.

Lemma aset_Some l i x l' :
  aset l i x = Some l' ->
  0 <= i < Z.of_nat (length l) /\ l' = <[Z.to_nat i := x]> l.
Proof. unfold aset. destruct (_ && _) eqn:E; [intros [= <-]; split; [blia|done]|done]. Qed.

Lemma amove_Some dst d src s n :
  0 <= d -> 0 <= s -> 0 <= n ->
  d + n <= Z.of_nat (length dst) -> s + n <= Z.of_nat (length src) ->
  amove dst d src s n =
    Some (take (Z.to_nat d) dst ++ take (Z.to_nat n) (drop (Z.to_nat s) src)
            ++ drop (Z.to_nat (d + n)) dst).
Proof.
  intros. unfold amove.
  btrue (_ && _). done.
Qed.

Lemma amove_get dst d src s n :
  0 <= d -> 0 <= s -> 0 <= n ->
  d + n <= Z.of_nat (length dst) -> s + n <= Z.of_nat (length src) ->
  exists l, amove dst d src s n = Some l /\ length l = length dst
    /\ forall j, 0 <= j -> aget l j =
         if (d <=? j) && (j <? d + n) then aget src (s + (j - d)) else aget dst j.
Proof.
  intros. rewrite amove_Some by lia. eexists. split; [done|]. split.
  - rewrite !length_app, !length_take, !length_drop. lia.
  - intros j Hj. unfold aget. bfalse (j <? 0).
    assert (Z.to_nat d = length (take (Z.to_nat d) dst)) as Hd by (rewrite length_take; lia).
    assert (Z.to_nat n = length (take (Z.to_nat n) (drop (Z.to_nat s) src))) as Hn
      by (rewrite length_take, length_drop; lia).
    destruct (decide (j < d)) as [Hlt|Hge].
    + bfalse ((d <=? j) && (j <? d + n)).
      rewrite lookup_app_l by lia. by rewrite lookup_take_lt by lia.
    + rewrite lookup_app_r, <- Hd by lia.
      destruct (decide (j < d + n)) as [Hlt2|Hge2].
      * btrue ((d <=? j) && (j <? d + n)). bfalse (s + (j - d) <? 0).
        rewrite lookup_app_l by lia. rewrite lookup_take_lt, lookup_drop by lia. f_equal. lia.
      * bfalse ((d <=? j) && (j <? d + n)).
        rewrite lookup_app_r, <- Hn by lia. rewrite lookup_drop. f_equal. lia.
Qed.

Lemma amove_Forall (P : A -> Prop) dst d src s n l :
  amove dst d src s n = Some l -> Forall P dst -> Forall P src -> Forall P l.
Proof.
  unfold amove. destruct (_ && _); [|done]. intros [= <-] Hd Hs.
  apply Forall_app. split; [by apply Forall_take|].
  apply Forall_app. split; [by apply Forall_take, Forall_drop|by apply Forall_drop].
Qed.

Lemma aset_range_get l x n :
  0 <= n <= Z.of_nat (length l) ->
  exists l', aset_range l x n = Some l' /\ length l' = length l
    /\ forall j, 0 <= j -> aget l' j = if j <? n then Some x else aget l j.
Proof.
  intros. unfold aset_range. btrue ((0 <=? n) && (n <=? Z.of_nat (length l))).
  eexists. split; [done|]. split; [rewrite length_app, length_replicate, length_drop; lia|].
  intros j Hj. unfold aget. bfalse (j <? 0). destruct (j <? n) eqn:E.
  - rewrite lookup_app_l by (rewrite length_replicate; lia). apply lookup_replicate_2. lia.
  - rewrite lookup_app_r by (rewrite length_replicate; lia).
    rewrite length_replicate, lookup_drop. f_equal. lia.
Qed.

Lemma aset_range_Forall (P : A -> Prop) l x n l' :
  aset_range l x n = Some l' -> P x -> Forall P l -> Forall P l'.
Proof.
  unfold aset_range. destruct (_ && _); [|done]. intros [= <-] Hx Hl.
  apply Forall_app. split; [by apply Forall_replicate|by apply Forall_drop].
Qed.

Lemma Forall_aget (P : A -> Prop) l i x : Forall P l -> aget l i = Some x -> P x.
Proof. intros H [_ E]%aget_Some. rewrite Forall_lookup in H. eauto. Qed.

Lemma aset_range_Some l x n :
  0 <= n <= Z.of_nat (length l) ->
  aset_range l x n = Some (replicate (Z.to_nat n) x ++ drop (Z.to_nat n) l).
Proof. intros. unfold aset_range. btrue (_ && _). done. Qed.
End arrays.

(** ** Counting loops *)

(** [for(int i = lo; i < lo + n; i++) s = body(i, s)] *)
Definition for_range {St} (body : Z -> St -> option St) (lo n : Z) (s : St) : option St :=
  foldl (fun acc i => let* s := acc in body i s) (Some s) (seqZ lo n).

(** a loop invariant: the loop ends, in a state that satisfies it *)
Lemma for_range_inv {St} (P : Z -> St -> Prop) body lo n s :
  0 <= n -> P lo s ->
  (forall i s, lo <= i < lo + n -> P i s -> exists s', body i s = Some s' /\ P (i + 1) s') ->
  exists s', for_range body lo n s = Some s' /\ P (lo + n) s'.
Proof.
  intros Hn Hs Hstep. unfold for_range.
  assert (forall k : nat, Z.of_nat k <= n ->
    exists s', foldl (fun acc i => let* s := acc in body i s) (Some s) (seqZ lo (Z.of_nat k))
               = Some s' /\ P (lo + Z.of_nat k) s') as H.
  { induction k as [|k IH]; intros Hk.
    - exists s. rewrite Z.add_0_r. done.
    - destruct IH as (s1 & E1 & H1); [lia|].
      destruct (Hstep (lo + Z.of_nat k) s1) as (s2 & E2 & H2); [lia|done|].
      exists s2. rewrite seqZ_S, foldl_app, E1. cbn [foldl]. rewrite bind_Some, E2.
      split; [done|]. by replace (lo + Z.of_nat (S k)) with (lo + Z.of_nat k + 1) by lia. }
  destruct (H (Z.to_nat n)) as (s' & E & H'); [lia|]. rewrite Z2Nat.id in * by done. eauto.
Qed.

(** [for(; i < limit; i++) { body; if(...) break; }]: the final [i] and state; the
    body says whether it breaks *)
Fixpoint for_break {St} (fuel : nat) (body : Z -> St -> option (St * bool)) (i limit : Z) (s : St)
    : option (Z * St) :=
  match fuel with
  | O => None
  | S fuel =>
      if limit <=? i then Some (i, s)
      else
        let* (s, stop) := body i s in
        if (stop : bool) then Some (i, s) else for_break fuel body (i + 1) limit s
  end.

(** [P i s] holds at the head of the loop; it ends with [P], the limit reached, or
    with [Q], by a break *)
Lemma for_break_inv {St} (P Q : Z -> St -> Prop) fuel body i limit s :
  (Z.to_nat (limit - i) < fuel)%nat -> i <= limit -> P i s ->
  (forall j s, i <= j < limit -> P j s ->
     exists s' stop, body j s = Some (s', stop) /\ if (stop : bool) then Q j s' else P (j + 1) s') ->
  exists i' s', for_break fuel body i limit s = Some (i', s') /\ i <= i' <= limit
    /\ ((i' = limit /\ P i' s') \/ (i' < limit /\ Q i' s')).
Proof.
  revert i s. induction fuel as [|fuel IH]; intros i s Hf Hle HP Hstep; [lia|].
  cbn [for_break]. destruct (limit <=? i) eqn:E.
  - exists i, s. split; [done|]. split; [lia|]. left. split; [lia|done].
  - destruct (Hstep i s ltac:(lia) HP) as (s' & stop & Eb & Hs'). rewrite Eb, bind_Some.
    destruct stop.
    + exists i, s'. split; [done|]. split; [lia|]. right. split; [lia|done].
    + destruct (IH (i + 1) s') as (i' & s2 & E2 & Hi' & H2); [lia|lia|done| |].
      * intros j s3 Hj. apply Hstep. lia.
      * exists i', s2. split; [done|]. split; [lia|done].
Qed.

(** ** Memory images: the little-endian bytes of an integer *)

Fixpoint to_bytes (n : nat) (z : Z) : list Z :=
  match n with
  | O => []
  | S n => (z mod 256) :: to_bytes n (z / 256)
  end.

Fixpoint of_bytes (l : list Z) : Z :=
  match l with
  | [] => 0
  | b :: l => b + 256 * of_bytes l
  end.

Lemma length_to_bytes n z : length (to_bytes n z) = n.
Proof. revert z. induction n; intros; cbn; congruence. Qed.

Lemma to_bytes_are_bytes n z : Forall is_byte (to_bytes n z).
Proof.
  revert z. induction n; intros; cbn; constructor; auto.
  unfold is_byte. apply Z.mod_pos_bound. lia.
Qed.

Lemma of_to_bytes n z : of_bytes (to_bytes n z) = z mod 2 ^ (8 * Z.of_nat n).
Proof.
  revert z. induction n as [|n IH]; intros z; [by rewrite Z.mod_1_r|].
  cbn [to_bytes of_bytes]. rewrite IH.
  replace (2 ^ (8 * Z.of_nat (S n))) with (256 * 2 ^ (8 * Z.of_nat n)).
  - symmetry. apply Z.rem_mul_r; [lia|]. apply Z.pow_pos_nonneg; lia.
  - replace (8 * Z.of_nat (S n)) with (8 + 8 * Z.of_nat n) by lia.
    rewrite Z.pow_add_r by lia. done.
Qed.

Lemma of_bytes_bounds l :
  Forall is_byte l -> 0 <= of_bytes l < 2 ^ (8 * Z.of_nat (length l)).
Proof.
  induction 1 as [|b l Hb _ IH]; cbn [of_bytes length]; [lia|].
  replace (8 * Z.of_nat (S (length l))) with (8 + 8 * Z.of_nat (length l)) by lia.
  rewrite Z.pow_add_r by lia. unfold is_byte in Hb. lia.
Qed.

Lemma to_of_bytes l : Forall is_byte l -> to_bytes (length l) (of_bytes l) = l.
Proof.
  induction 1 as [|b l Hb _ IH]; cbn [to_bytes of_bytes length]; [done|].
  unfold is_byte in Hb. f_equal.
  - rewrite Z.mul_comm, Z_mod_plus_full. apply Z.mod_small. lia.
  - rewrite Z.mul_comm, Z_div_plus_full by lia. rewrite Z.div_small by lia. done.
Qed.

(** ** Automation *)

Create HintDb words.
#[export] Hint Resolve w64_is_u64 land_u64 lor_u64 clear_bit_u64 set_bit_u64 : words.
#[export] Hint Rewrite Z.land_spec Z.lor_spec Z.lxor_spec Z.ldiff_spec : testbit.

(** run the head of an option computation whose value is known to exist *)
Ltac bind_inv H :=
  repeat match type of H with
  | mbind _ ?m = Some _ =>
      let E := fresh "E" in destruct m eqn:E; cbn [mbind option_bind] in H; [|discriminate H]
  | asserting _ _ = Some _ =>
      let E := fresh "E" in apply asserting_Some in H; destruct H as [E H]
  end.
