(* ===== verification/Moves.v ===== *)
(** * Sequences as functions of the index, and moves of words

    The separators and the children of a node, integer or string keys: an element put in,
    taken out or replaced, two sequences joined, increasing sequences; and what the
    word-by-word copy of both kinds of inner nodes does. *)

From S2P Require Import Prelude.

(** ** Sequences *)

(** [mid] put in at [index] *)
Definition ins {A} (s : Z -> A) (index : Z) (mid : A) (j : Z) : A :=
  if j <? index then s j else if j =? index then mid else s (j - 1).

(** the one at [index] taken out *)
Definition del {A} (s : Z -> A) (index j : Z) : A := if j <? index then s j else s (j + 1).

(** [k] elements of [s], then [s'] *)
Definition join {A} (s : Z -> A) (k : Z) (s' : Z -> A) (j : Z) : A := if j <? k then s j else s' (j - k).

(** [c] in place of the one at [index] *)
Definition upd {A} (s : Z -> A) (index : Z) (c : A) (j : Z) : A := if j =? index then c else s j.

(** the separators of the left node after the split of a full node (of 64) by an insertion
    at [index]: all of the old ones when the new one goes past the last *)
Definition split_count (index : Z) : Z := if index =? 64 then 64 else if index <? 32 then 33 else 32.

Lemma split_count_range index : 0 <= index <= 64 -> 32 <= split_count index <= 64 /\ (index < 64 -> split_count index <= 33).
Proof. intros. unfold split_count. destruct (Z.eqb_spec index 64), (Z.ltb_spec index 32); lia. Qed.

Section increasing.
Context {A : Type} {R : A -> A -> Prop}.
Implicit Types (s : Z -> A) (k index : Z).

(** the first [k] separators increase *)
Definition increasing k s : Prop := forall i j, 0 <= i < j -> j < k -> R (s i) (s j).

Lemma increasing_ins k s index mid :
  increasing k s -> 0 <= index <= k ->
  (forall j, 0 <= j < index -> R (s j) mid) -> (forall j, index <= j < k -> R mid (s j)) ->
  increasing (k + 1) (ins s index mid).
Proof.
  intros Hs Hi Hlt Hgt i j Hij Hj. unfold ins.
  destruct (Z.ltb_spec i index), (Z.ltb_spec j index), (Z.eqb_spec i index), (Z.eqb_spec j index);
    try lia; first [apply Hs; lia|apply Hlt; lia|apply Hgt; lia].
Qed.

Lemma increasing_del k s index :
  increasing k s -> 0 <= index < k -> increasing (k - 1) (del s index).
Proof.
  intros Hs Hi i j Hij Hj. unfold del.
  destruct (Z.ltb_spec i index), (Z.ltb_spec j index); apply Hs; lia.
Qed.

Lemma increasing_join k s k' s' :
  increasing k s -> increasing k' s' ->
  (forall i j, 0 <= i < k -> 0 <= j < k' -> R (s i) (s' j)) -> 0 <= k ->
  increasing (k + k') (join s k s').
Proof.
  intros Hs Hs' Hlt Hk i j Hij Hj. unfold join.
  destruct (Z.ltb_spec i k), (Z.ltb_spec j k); try lia;
    first [apply Hs; lia|apply Hlt; lia|apply Hs'; lia].
Qed.

Lemma increasing_upd k s index c :
  increasing k s -> 0 <= index < k ->
  (forall j, 0 <= j < index -> R (s j) c) -> (forall j, index < j < k -> R c (s j)) ->
  increasing k (upd s index c).
Proof.
  intros Hs Hi Hlt Hgt i j Hij Hj. unfold upd.
  destruct (Z.eqb_spec i index), (Z.eqb_spec j index); try lia;
    first [apply Hs; lia|apply Hlt; lia|apply Hgt; lia].
Qed.

Lemma increasing_from k c s :
  increasing k s -> 0 <= c -> increasing (k - c) (fun j => s (c + j)).
Proof. intros Hs' Hc i j Hij Hj. apply Hs'; lia. Qed.

Lemma increasing_le k c s : increasing k s -> c <= k -> increasing c s.
Proof. intros Hs' Hc i j Hij Hj. apply Hs'; lia. Qed.
End increasing.
Arguments increasing {A} R k s.

(** ** Words, one by one *)

Section moves.
Context {A : Type} (size : Z).
Implicit Types l : list A.

(** [m] words of a node of [size] of them, within one array *)
Definition word_move_within l (src dst m : Z) (forward : bool) : option (list A) :=
  assert* (0 <=? m) && (m <=? size) in
  for_range (fun k l =>
    let idx := if forward then k else m - 1 - k in
    let* x := aget l (src + idx) in
    aset l (dst + idx) x) 0 m l.

(** from one array to another *)
Definition word_move (lsrc : list A) (src : Z) (ldst : list A) (dst m : Z) (forward : bool) : option (list A) :=
  assert* (0 <=? m) && (m <=? size) in
  for_range (fun k l =>
    let idx := if forward then k else m - 1 - k in
    let* x := aget lsrc (src + idx) in
    aset l (dst + idx) x) 0 m ldst.

Definition moved l (lsrc : list A) (src dst m j : Z) : option A :=
  if (dst <=? j) && (j <? dst + m) then aget lsrc (src + (j - dst)) else aget l j.

Lemma word_move_spec lsrc src ldst dst m fwd :
  0 <= src -> 0 <= dst -> 0 <= m <= size ->
  src + m <= Z.of_nat (length lsrc) -> dst + m <= Z.of_nat (length ldst) ->
  exists l, word_move lsrc src ldst dst m fwd = Some l /\ length l = length ldst
    /\ forall j, 0 <= j -> aget l j = moved ldst lsrc src dst m j.
Proof.
  intros Hs Hd Hm Hsm Hdm. unfold word_move.
  btrue ((0 <=? m) && (m <=? size)). cbn [asserting].
  pose (done_ := fun k j => dst <= j < dst + m /\ if fwd then j < dst + k else dst + m - k <= j).
  pose (P := fun k l => length l = length ldst /\ forall j, 0 <= j ->
    (done_ k j -> aget l j = aget lsrc (src + (j - dst))) /\ (~ done_ k j -> aget l j = aget ldst j)).
  match goal with |- context [for_range ?body ?lo ?k ?s0] =>
    destruct (for_range_inv P body lo k s0) as (l & E & Hl & Hg) end.
  - lia.
  - split; [done|]. intros j Hj. split; [|done]. intros [? ?]. destruct fwd; lia.
  - intros k l Hk [Hl Hg]. cbn zeta. set (idx := if fwd then k else m - 1 - k).
    assert (0 <= idx < m) as Hidx by (unfold idx; destruct fwd; lia).
    destruct (aget_in_range lsrc (src + idx)) as [x Ex]; [lia|].
    rewrite Ex, bind_Some, aset_in_range by lia. eexists. split; [done|].
    split; [by rewrite length_insert|]. intros j Hj. rewrite aget_insert by lia.
    destruct (Hg j Hj) as [H1 H2].
    destruct (Z.eqb_spec (dst + idx) j) as [<-|Hne]; (split; intros Hdn).
    + rewrite <- Ex. f_equal. lia.
    + exfalso. apply Hdn. split; [lia|]. unfold idx. destruct fwd; lia.
    + apply H1. destruct Hdn as [? Hdn]. split; [done|]. unfold idx in *. destruct fwd; lia.
    + apply H2. intros [? Hdn']. apply Hdn. split; [done|]. destruct fwd; lia.
  - rewrite E. exists l. split; [done|]. split; [done|]. intros j Hj. unfold moved.
    destruct (Hg j Hj) as [H1 H2].
    destruct (_ && _) eqn:Eb.
    + apply H1. split; [blia|]. destruct fwd; blia.
    + apply H2. intros [? _]. blia.
Qed.

(** within one array, the direction fits: forward to a lower index, backward to a
    higher one *)
Lemma word_move_within_spec l src dst m (fwd : bool) :
  0 <= src -> 0 <= dst -> 0 <= m <= size ->
  src + m <= Z.of_nat (length l) -> dst + m <= Z.of_nat (length l) ->
  (if fwd then dst <= src else src <= dst) ->
  exists l', word_move_within l src dst m fwd = Some l' /\ length l' = length l
    /\ forall j, 0 <= j -> aget l' j = moved l l src dst m j.
Proof.
  intros Hs Hd Hm Hsm Hdm Hdir. unfold word_move_within.
  btrue ((0 <=? m) && (m <=? size)). cbn [asserting].
  pose (done_ := fun k j => dst <= j < dst + m /\ if fwd then j < dst + k else dst + m - k <= j).
  pose (P := fun k l' => length l' = length l /\ forall j, 0 <= j ->
    (done_ k j -> aget l' j = aget l (src + (j - dst))) /\ (~ done_ k j -> aget l' j = aget l j)).
  match goal with |- context [for_range ?body ?lo ?k ?s0] =>
    destruct (for_range_inv P body lo k s0) as (l' & E & Hl & Hg) end.
  - lia.
  - split; [done|]. intros j Hj. split; [|done]. intros [? ?]. destruct fwd; lia.
  - intros k l' Hk [Hl Hg]. cbn zeta. set (idx := if fwd then k else m - 1 - k).
    assert (0 <= idx < m) as Hidx by (unfold idx; destruct fwd; lia).
    destruct (aget_in_range l (src + idx)) as [x Ex]; [lia|].
    assert (aget l' (src + idx) = Some x) as Ex'.
    { rewrite <- Ex. apply Hg; [lia|]. intros [? Hdn]. unfold idx in *. destruct fwd; lia. }
    rewrite Ex', bind_Some, aset_in_range by lia. eexists. split; [done|].
    split; [by rewrite length_insert|]. intros j Hj. rewrite aget_insert by lia.
    destruct (Hg j Hj) as [H1 H2].
    destruct (Z.eqb_spec (dst + idx) j) as [<-|Hne]; (split; intros Hdn).
    + rewrite <- Ex. f_equal. lia.
    + exfalso. apply Hdn. split; [lia|]. unfold idx. destruct fwd; lia.
    + apply H1. destruct Hdn as [? Hdn]. split; [done|]. unfold idx in *. destruct fwd; lia.
    + apply H2. intros [? Hdn']. apply Hdn. split; [done|]. destruct fwd; lia.
  - rewrite E. exists l'. split; [done|]. split; [done|]. intros j Hj. unfold moved.
    destruct (Hg j Hj) as [H1 H2].
    destruct (_ && _) eqn:Eb.
    + apply H1. split; [blia|]. destruct fwd; blia.
    + apply H2. intros [? _]. blia.
Qed.
End moves.

(** ** The place of an element in an increasing sequence *)

Section place.
Context {A : Type} (R : A -> A -> Prop).
Implicit Types (s : Z -> A) (k i j : Z) (x : A).

(** the first [i] of the [k] elements are below [x], the others not *)
Definition place k s x i : Prop :=
  0 <= i <= k /\ (forall j, 0 <= j < i -> R (s j) x) /\ (forall j, i <= j < k -> ~ R (s j) x).

Lemma place_unique k s x i j : place k s x i -> place k s x j -> i = j.
Proof.
  intros (Hi & Hil & Hig) (Hj & Hjl & Hjg). destruct (Z.lt_trichotomy i j) as [H|[H|H]]; [|done|].
  - destruct (Hig i); [lia|]. apply Hjl. lia.
  - destruct (Hjg j); [lia|]. apply Hil. lia.
Qed.
End place.

(** ** The first elements of an array *)

Section stores.
Context {A B : Type} (g : B -> A).
Implicit Types (l c : list A) (s : Z -> B) (k index : Z).

(** the array has the first [k] of the sequence, as [g] stores them *)
Definition stores k l s : Prop := forall j, 0 <= j < k -> aget l j = Some (g (s j)).

Lemma stores_le k m l s : stores k l s -> m <= k -> stores m l s.
Proof. intros H Hc j Hj. apply H. lia. Qed.

Lemma stores_ins k l s index x c :
  stores k l s -> 0 <= index <= k -> k < Z.of_nat (length c) ->
  (forall j, 0 <= j -> aget c j = moved l l index (index + 1) (k - index) j) ->
  stores (k + 1) (<[Z.to_nat index := g x]> c) (ins s index x).
Proof.
  intros H Hi Hc Hg j Hj. rewrite aget_insert, Hg by lia. unfold ins, moved. rewrite (Z.eqb_sym index).
  destruct (Z.eqb_spec j index) as [->|]; [by bfalse (index <? index)|]. destruct (Z.ltb_spec j index).
  - bfalse ((index + 1 <=? j) && (j <? index + 1 + (k - index))). apply H. lia.
  - btrue ((index + 1 <=? j) && (j <? index + 1 + (k - index))). replace (index + (j - (index + 1))) with (j - 1) by lia.
    apply H. lia.
Qed.

Lemma stores_upd k l s index x :
  stores k l s -> 0 <= index < k -> k <= Z.of_nat (length l) -> stores k (<[Z.to_nat index := g x]> l) (upd s index x).
Proof.
  intros H Hi Hc j Hj. rewrite aget_insert by lia. unfold upd. rewrite (Z.eqb_sym index).
  destruct (j =? index); [done|]. by apply H.
Qed.

Lemma stores_del k l s index c :
  stores k l s -> 0 <= index < k ->
  (forall j, 0 <= j -> aget c j = moved l l (index + 1) index (k - index - 1) j) ->
  stores (k - 1) c (del s index).
Proof.
  intros H Hi Hg j Hj. rewrite Hg by lia. unfold del, moved. destruct (Z.ltb_spec j index).
  - bfalse ((index <=? j) && (j <? index + (k - index - 1))). apply H. lia.
  - btrue ((index <=? j) && (j <? index + (k - index - 1))). replace (index + 1 + (j - index)) with (j + 1) by lia.
    apply H. lia.
Qed.

Lemma stores_join k l s k' l' s' c :
  stores k l s -> stores k' l' s' -> 0 <= k -> (forall j, 0 <= j -> aget c j = moved l l' 0 k k' j) ->
  stores (k + k') c (join s k s').
Proof.
  intros H H' Hk Hg j Hj. rewrite Hg by lia. unfold join, moved. destruct (Z.ltb_spec j k).
  - bfalse ((k <=? j) && (j <? k + k')). apply H. lia.
  - btrue ((k <=? j) && (j <? k + k')). rewrite Z.add_0_l. apply H'. lia.
Qed.

(** the elements from [d] on, copied to the start of another array *)
Lemma stores_from k l s d m l' c :
  stores k l s -> 0 <= d -> d + m <= k -> (forall j, 0 <= j -> aget c j = moved l' l d 0 m j) ->
  stores m c (fun j => s (d + j)).
Proof.
  intros H Hd Hm Hg j Hj. rewrite Hg by lia. unfold moved. btrue ((0 <=? j) && (j <? 0 + m)).
  rewrite Z.sub_0_r. apply H. lia.
Qed.

(** the same, with a new element in between, as the right half of a split copies them *)
Lemma stores_from_ins k l s d index x l' c1 c2 :
  stores k l s -> 0 <= d <= index -> index <= k -> index - d < Z.of_nat (length c1) ->
  (forall j, 0 <= j -> aget c1 j = moved l' l d 0 (index - d) j) ->
  (forall j, 0 <= j -> aget c2 j = moved c1 l index (index - d + 1) (k - index) j) ->
  index - d < Z.of_nat (length c2) ->
  stores (k + 1 - d) (<[Z.to_nat (index - d) := g x]> c2) (fun j => ins s index x (d + j)).
Proof.
  intros H Hd Hi Hl1 Hg1 Hg2 Hl2 j Hj. rewrite aget_insert, Hg2 by lia. unfold moved, ins.
  destruct (Z.eqb_spec (index - d) j).
  - bfalse (d + j <? index). by btrue (d + j =? index).
  - destruct (Z.ltb_spec (d + j) index).
    + bfalse ((index - d + 1 <=? j) && (j <? index - d + 1 + (k - index))). rewrite Hg1 by lia. unfold moved.
      btrue ((0 <=? j) && (j <? 0 + (index - d))). rewrite Z.sub_0_r. apply H. lia.
    + btrue ((index - d + 1 <=? j) && (j <? index - d + 1 + (k - index))). bfalse (d + j =? index).
      replace (index + (j - (index - d + 1))) with (d + j - 1) by lia. apply H. lia.
Qed.
End stores.

(** ** Routes: the children, and the next node after the last of them *)

Section routes.
Context {A : Type}.
Implicit Types (ch c : list A) (nx l r x : A) (k index j : Z).

Definition routes k ch nx j : option A := if j =? k then Some nx else aget ch j.

Lemma routes_child k ch nx j : j <> k -> routes k ch nx j = aget ch j.
Proof. intros. unfold routes. by bfalse (j =? k). Qed.

(** a new last child *)
Lemma routes_ins_last k ch nx l r j :
  0 <= k < Z.of_nat (length ch) -> 0 <= j <= k + 1 ->
  routes (k + 1) (<[Z.to_nat k := l]> ch) r j = ins (upd (routes k ch nx) k (Some l)) (k + 1) (Some r) j.
Proof.
  intros Hk Hj. unfold ins, upd, routes. destruct (Z.eqb_spec j (k + 1)) as [->|].
  - by bfalse (k + 1 <? k + 1).
  - btrue (j <? k + 1). rewrite aget_insert, (Z.eqb_sym k) by lia. by destruct (Z.eqb_spec j k).
Qed.

(** a new child behind the one at [index] *)
Lemma routes_ins k ch nx index l r c j :
  0 <= index < k -> k < Z.of_nat (length c) -> routes k ch nx index = Some l ->
  (forall j, 0 <= j -> aget c j = moved ch ch (index + 1) (index + 2) (k - index - 1) j) -> 0 <= j <= k + 1 ->
  routes (k + 1) (<[Z.to_nat (index + 1) := r]> c) nx j = ins (upd (routes k ch nx) index (Some l)) (index + 1) (Some r) j.
Proof.
  intros Hi Hc Hl Hg Hj. unfold ins, upd. rewrite <- Hl. unfold routes. destruct (Z.eqb_spec j (k + 1)) as [->|].
  - bfalse (k + 1 <? index + 1). bfalse (k + 1 =? index + 1). bfalse (k + 1 - 1 =? index). by btrue (k + 1 - 1 =? k).
  - rewrite aget_insert, Hg by lia. unfold moved. rewrite (Z.eqb_sym (index + 1)).
    destruct (Z.eqb_spec j (index + 1)) as [->|]; [by bfalse (index + 1 <? index + 1)|].
    destruct (Z.ltb_spec j (index + 1)).
    + bfalse ((index + 2 <=? j) && (j <? index + 2 + (k - index - 1))). bfalse (j =? k).
      destruct (Z.eqb_spec j index) as [->|]; [by bfalse (index =? k)|done].
    + btrue ((index + 2 <=? j) && (j <? index + 2 + (k - index - 1))).
      bfalse (j - 1 =? index). bfalse (j - 1 =? k). f_equal. lia.
Qed.

(** the child behind the one at [index] taken out *)
Lemma routes_del k ch nx index c j :
  0 <= index < k - 1 ->
  (forall j, 0 <= j -> aget c j = moved ch ch (index + 2) (index + 1) (k - index - 2) j) -> 0 <= j <= k - 1 ->
  routes (k - 1) c nx j = del (routes k ch nx) (index + 1) j.
Proof.
  intros Hi Hg Hj. unfold routes, del. destruct (Z.eqb_spec j (k - 1)) as [->|].
  - bfalse (k - 1 <? index + 1). by btrue (k - 1 + 1 =? k).
  - rewrite Hg by lia. unfold moved. destruct (Z.ltb_spec j (index + 1)).
    + bfalse ((index + 1 <=? j) && (j <? index + 1 + (k - index - 2))). by bfalse (j =? k).
    + btrue ((index + 1 <=? j) && (j <? index + 1 + (k - index - 2))). bfalse (j + 1 =? k). f_equal. lia.
Qed.

(** those of another node behind *)
Lemma routes_join k ch nx k' ch' nx' c j :
  0 <= k' -> (forall j, 0 <= j -> aget c j = moved ch ch' 0 k k' j) -> 0 <= j <= k + k' ->
  routes (k + k') c nx' j = join (routes k ch nx) k (routes k' ch' nx') j.
Proof.
  intros Hk' Hg Hj. unfold routes, join. destruct (Z.eqb_spec j (k + k')) as [->|].
  - bfalse (k + k' <? k). by btrue (k + k' - k =? k').
  - rewrite Hg by lia. unfold moved. destruct (Z.ltb_spec j k).
    + bfalse ((k <=? j) && (j <? k + k')). by bfalse (j =? k).
    + btrue ((k <=? j) && (j <? k + k')). bfalse (j - k =? k'). by rewrite Z.add_0_l.
Qed.

(** those of another node behind, without its first child and the old next node *)
Lemma routes_bound_join k ch nx k' ch' nx' c x j :
  1 <= k -> 0 <= k' -> aget ch (k - 1) = Some x ->
  (forall j, 0 <= j -> aget c j = moved ch ch' 1 k (if k' =? 0 then 0 else k' - 1) j) -> 0 <= j <= k - 1 + k' ->
  routes (k - 1 + k') c (if k' =? 0 then x else nx') j
  = join (routes k ch nx) (k - 1 + 1) (fun i => routes k' ch' nx' (i + 1)) j.
Proof.
  intros Hk Hk' Hx Hg Hj. unfold join. replace (k - 1 + 1) with k by lia. unfold routes at 1.
  destruct (Z.eqb_spec j (k - 1 + k')) as [->|].
  - destruct (Z.eqb_spec k' 0) as [->|].
    + rewrite Z.add_0_r. btrue (k - 1 <? k). rewrite routes_child by lia. by rewrite Hx.
    + bfalse (k - 1 + k' <? k). unfold routes. by btrue (k - 1 + k' - k + 1 =? k').
  - rewrite Hg by lia. unfold moved. destruct (Z.ltb_spec j k).
    + bfalse ((k <=? j) && (j <? k + (if k' =? 0 then 0 else k' - 1))). by rewrite routes_child by lia.
    + bfalse (k' =? 0). btrue ((k <=? j) && (j <? k + (k' - 1))). rewrite routes_child by lia. f_equal. lia.
Qed.

(** ** The routes of a full node and a new one, split *)

Section split.
Context (size half : Z) (ch : list A) (ro : Z -> option A) (index : Z) (r : A)
  (Hro : forall j, 0 <= j < size -> ro j = aget ch j) (Hi : 0 <= index <= size).

Definition split_routes : Z -> option A := ins ro (index + 1) (Some r).

Lemma split_routes_child j :
  0 <= j <= size -> j <> size \/ index < size ->
  split_routes j = if j <? index + 1 then aget ch j else if j =? index + 1 then Some r else aget ch (j - 1).
Proof.
  intros Hj Hor. unfold split_routes, ins. destruct (Z.ltb_spec j (index + 1)); [by rewrite Hro by lia|].
  destruct (Z.eqb_spec j (index + 1)); [done|]. by rewrite Hro by lia.
Qed.

(** the new child in the left half *)
Lemma split_routes_left c j :
  index < half -> half < size -> half < Z.of_nat (length c) ->
  (forall j, 0 <= j -> aget c j = moved ch ch index (index + 1) (half - index) j) -> 0 <= j < half + 1 ->
  aget (<[Z.to_nat (index + 1) := r]> c) j = split_routes j.
Proof.
  intros Hih Hhs Hl Hg Hj. rewrite split_routes_child, aget_insert, Hg by lia. unfold moved.
  rewrite (Z.eqb_sym (index + 1)). destruct (Z.eqb_spec j (index + 1)); [by bfalse (j <? index + 1)|].
  destruct (Z.ltb_spec j (index + 1)).
  - by bfalse ((index + 1 <=? j) && (j <? index + 1 + (half - index))).
  - btrue ((index + 1 <=? j) && (j <? index + 1 + (half - index))). f_equal. lia.
Qed.

Lemma split_routes_left_rest c c0 j :
  index < half -> 0 <= j < size - half -> (forall j, 0 <= j -> aget c j = moved c0 ch half 0 (size - half) j) ->
  aget c j = split_routes (half + 1 + j).
Proof.
  intros Hih Hj Hg. rewrite split_routes_child, Hg by lia. unfold moved.
  btrue ((0 <=? j) && (j <? 0 + (size - half))). bfalse (half + 1 + j <? index + 1). bfalse (half + 1 + j =? index + 1).
  f_equal. lia.
Qed.

(** the new child in the right half *)
Lemma split_routes_right c0 c1 c2 j :
  half <= index < size -> 0 <= j < size + 1 - half -> 0 <= half ->
  (forall j, 0 <= j -> aget c1 j = moved c0 ch half 0 (index - half + 1) j) ->
  (forall j, 0 <= j -> aget c2 j = if j =? index - half + 1 then Some r
     else moved c1 ch (index + 1) (index - half + 2) (size - index - 1) j) ->
  aget c2 j = split_routes (half + j).
Proof.
  intros Hih Hj Hh Hg1 Hg2. rewrite split_routes_child, Hg2 by lia.
  destruct (Z.eqb_spec j (index - half + 1)).
  - bfalse (half + j <? index + 1). by btrue (half + j =? index + 1).
  - unfold moved. destruct (Z.ltb_spec (half + j) (index + 1)).
    + bfalse ((index - half + 2 <=? j) && (j <? index - half + 2 + (size - index - 1))). rewrite Hg1 by lia. unfold moved.
      btrue ((0 <=? j) && (j <? 0 + (index - half + 1))). f_equal. lia.
    + bfalse (half + j =? index + 1).
      btrue ((index - half + 2 <=? j) && (j <? index - half + 2 + (size - index - 1))). f_equal. lia.
Qed.

Lemma split_routes_right_rest j :
  half <= index -> 0 <= j < half -> half <= size -> aget ch j = split_routes j.
Proof. intros Hih Hj Hh. rewrite split_routes_child by lia. by btrue (j <? index + 1). Qed.
End split.
End routes.
