(* ===== verification/Bits.v ===== *)
(** * Bit twiddling: [src/util/common.h]

    The population counts, leading/trailing-bit searches, byte swaps and
    rounding helpers, one definition for the overloads of a name (the signed
    overloads convert their argument to the unsigned type of the same width,
    which is [wrap w]), and the loop [while(mask) { i = index_least1(mask); ...;
    mask &= ~(1 << i); }] that the leaf code iterates bitmaps with. *)

From S2P Require Import Prelude.

(** ** The GCC builtins *)

Fixpoint pos_popcount (p : positive) : Z :=
  match p with
  | xH => 1
  | xO p => pos_popcount p
  | xI p => 1 + pos_popcount p
  end.

Fixpoint pos_ctz (p : positive) : Z :=
  match p with
  | xO p => 1 + pos_ctz p
  | _ => 0
  end.

Definition builtin_popcount (n : Z) : Z :=
  match n with Zpos p => pos_popcount p | _ => 0 end.

(** [__builtin_ctz], [__builtin_clz]: undefined on zero *)
Definition builtin_ctz (n : Z) : Z :=
  match n with Zpos p => pos_ctz p | _ => 0 end.

Definition builtin_clz (w n : Z) : Z := w - 1 - Z.log2 n.

(** [__builtin_ffs]: one plus the index of the least significant 1-bit, 0 for 0 *)
Definition builtin_ffs (n : Z) : Z :=
  match n with Zpos p => 1 + pos_ctz p | _ => 0 end.

(** [~n] at width [w] *)
Definition not_w (w n : Z) : Z := wrap w (Z.lnot n).

(** ** The functions of [common.h] *)

(** util/common.h:74-80 [popcount] *)
Definition popcount (w n : Z) : Z := builtin_popcount (wrap w n).

(** util/common.h:86-102 [countl_zero] *)
Definition countl_zero (w n : Z) : option Z :=
  assert* negb (wrap w n =? 0) in Some (builtin_clz w (wrap w n)).

(** util/common.h:108-114 [countl_one] *)
Definition countl_one (w n : Z) : option Z := countl_zero w (not_w w n).

(** util/common.h:120-136 [countr_zero] *)
Definition countr_zero (w n : Z) : option Z :=
  assert* negb (wrap w n =? 0) in Some (builtin_ctz (wrap w n)).

(** util/common.h:142-148 [countr_one] *)
Definition countr_one (w n : Z) : option Z := countr_zero w (not_w w n).

(** util/common.h:154-160 [index_least1] *)
Definition index_least1 (w n : Z) : Z := builtin_ffs (wrap w n) - 1.

(** util/common.h:166-172 [index_least0] *)
Definition index_least0 (w n : Z) : Z := index_least1 w (not_w w n).

(** util/common.h:178-184 [index_most1] *)
Definition index_most1 (w n : Z) : option Z :=
  if wrap w n =? 0 then Some (-1)
  else let* c := countl_zero w n in Some (w - 1 - c).

(** util/common.h:190-196 [index_most0] *)
Definition index_most0 (w n : Z) : option Z := index_most1 w (not_w w n).

(** util/common.h:201-211 [byte_swap] *)
Definition byte_swap (bytes : nat) (n : Z) : Z := of_bytes (rev (to_bytes bytes n)).

(** util/common.h:216-222 [parity] *)
Definition parity (w n : Z) : Z := builtin_popcount (wrap w n) mod 2.

(** util/common.h:238-238 [aligned] *)
Definition aligned (p align : Z) : bool := p mod align =? 0.

(** util/common.h:240-244 [roundup] *)
Definition roundup (size align : Z) : option Z :=
  assert* (0 <=? size) && (0 <? align) in
  Some (Z.quot (size + align - 1) align * align).

(** util/common.h:246-250 [rounddown] *)
Definition rounddown (size align : Z) : option Z :=
  assert* (0 <=? size) && (0 <? align) in
  Some (Z.quot size align * align).

(** ** Bitmap loops

    [while(mask) { idx = index_least1(mask); body; mask &= ~(0x01ul << idx); }]
    where [body] either goes on with a new state ([inl]) or returns ([inr]). *)
Fixpoint for_mask {St R : Type} (fuel : nat) (body : Z -> St -> option (St + R))
    (mask : Z) (s : St) : option (St + R) :=
  match fuel with
  | O => None
  | S fuel =>
      if mask =? 0 then Some (inl s)
      else
        let idx := index_least1 64 mask in
        let* r := body idx s in
        match r with
        | inl s' => for_mask fuel body (clear_bit mask idx) s'
        | inr x => Some (inr x)
        end
  end.

(** the fuel of every bitmap loop: a 64-bit mask has at most 64 set bits *)
Definition mask_fuel : nat := 65.

(** ** What they compute *)

(** the indices of the 1-bits of a 64-bit word, in increasing order *)
Definition set_bits (m : Z) : list Z := filter (fun i => Z.testbit m i = true) (seqZ 0 64).

Lemma pos_ctz_nonneg p : 0 <= pos_ctz p.
Proof. induction p; cbn [pos_ctz]; lia. Qed.

Lemma pos_ctz_testbit p : Z.testbit (Zpos p) (pos_ctz p) = true.
Proof.
  induction p as [p IH|p IH|]; cbn [pos_ctz]; [done| |done].
  pose proof (pos_ctz_nonneg p).
  rewrite Z.add_comm. replace (pos_ctz p + 1) with (Z.succ (pos_ctz p)) by lia.
  rewrite Pos2Z.pos_xO, Z.testbit_even_succ by lia. done.
Qed.

Lemma pos_ctz_below p i : i < pos_ctz p -> Z.testbit (Zpos p) i = false.
Proof.
  revert i. induction p as [p IH|p IH|]; cbn [pos_ctz]; intros i Hi;
    try (apply Z.testbit_neg_r; lia).
  destruct (decide (i <= 0)).
  - destruct (decide (i = 0)) as [->|]; [done|]. apply Z.testbit_neg_r; lia.
  - replace i with (Z.succ (i - 1)) by lia.
    rewrite Pos2Z.pos_xO, Z.testbit_even_succ by lia. apply IH. lia.
Qed.

Lemma index_least1_spec n :
  is_u64 n -> n <> 0 ->
  0 <= index_least1 64 n < 64 /\ Z.testbit n (index_least1 64 n) = true
  /\ (forall j, j < index_least1 64 n -> Z.testbit n j = false).
Proof.
  intros Hn Hnz. unfold index_least1. rewrite wrap_small by done.
  destruct n as [|p|p]; [done| |unfold is_u64 in Hn; lia]. cbn [builtin_ffs].
  replace (1 + pos_ctz p - 1) with (pos_ctz p) by lia.
  pose proof (pos_ctz_nonneg p). pose proof (pos_ctz_testbit p) as Ht.
  split; [split; [done|]|split; [done|apply pos_ctz_below]].
  destruct (decide (pos_ctz p < 64)); [done|].
  rewrite (testbit_above _ 64) in Ht by (unfold is_u64 in Hn; lia). done.
Qed.

Lemma index_least1_zero : index_least1 64 0 = -1.
Proof. done. Qed.

Lemma not_w_testbit w n i :
  0 <= w -> 0 <= i -> Z.testbit (not_w w n) i = (i <? w) && negb (Z.testbit n i).
Proof. intros. unfold not_w. rewrite wrap_testbit, Z.lnot_spec by lia. done. Qed.

Lemma not_w_u64 n : is_u64 (not_w 64 n).
Proof. apply w64_is_u64. Qed.

Lemma not_w_zero n : is_u64 n -> not_w 64 n = 0 -> n = Z.ones 64.
Proof.
  intros Hn H0. apply (word_ext 64); [lia|done|done|]. intros i Hi.
  rewrite ones_testbit by lia. pose proof (not_w_testbit 64 n i) as H.
  rewrite H0, Z.testbit_0_l in H. symmetry in H.
  assert ((i <? 64) = true) as E by lia. rewrite E in H by lia.
  cbn in H. specialize (H ltac:(lia) ltac:(lia)). apply negb_false_iff in H.
  rewrite H. blia.
Qed.

(** the least clear bit; [-1] exactly when the word is all ones *)
Lemma index_least0_spec n :
  is_u64 n ->
  (n = Z.ones 64 /\ index_least0 64 n = -1) \/
  (0 <= index_least0 64 n < 64 /\ Z.testbit n (index_least0 64 n) = false
   /\ (forall j, 0 <= j < index_least0 64 n -> Z.testbit n j = true)).
Proof.
  intros Hn. unfold index_least0. destruct (decide (not_w 64 n = 0)) as [E|E].
  - left. split; [by apply not_w_zero|]. by rewrite E.
  - right. destruct (index_least1_spec (not_w 64 n)) as (H1 & H2 & H3);
      [apply not_w_u64|done|]. split; [done|]. split.
    + rewrite not_w_testbit in H2 by lia. apply andb_true_iff in H2 as [_ H2].
      by apply negb_true_iff.
    + intros j Hj. specialize (H3 j). rewrite not_w_testbit in H3 by lia.
      assert ((j <? 64) = true) as E' by lia. rewrite E' in H3. cbn in H3.
      apply negb_false_iff, H3. lia.
Qed.

Lemma elem_of_set_bits m i : i ∈ set_bits m <-> 0 <= i < 64 /\ Z.testbit m i = true.
Proof.
  unfold set_bits. rewrite list_elem_of_filter, elem_of_seqZ. naive_solver lia.
Qed.

Lemma NoDup_set_bits m : NoDup (set_bits m).
Proof. apply NoDup_filter, NoDup_seqZ. Qed.

Lemma set_bits_0 : set_bits 0 = [].
Proof. reflexivity. Qed.

Lemma filter_none {A} (P : A -> Prop) `{!forall x, Decision (P x)} (l : list A) :
  (forall x, x ∈ l -> ~ P x) -> filter P l = [].
Proof.
  induction l as [|x l IH]; intros Hl; [done|].
  rewrite filter_cons_False by (apply Hl; by left). apply IH. intros y Hy. apply Hl. by right.
Qed.

Lemma filter_ext_in {A} (P Q : A -> Prop) `{!forall x, Decision (P x)} `{!forall x, Decision (Q x)}
    (l : list A) :
  (forall x, x ∈ l -> (P x <-> Q x)) -> filter P l = filter Q l.
Proof.
  induction l as [|x l IH]; intros Hl; [done|].
  assert (filter P l = filter Q l) as E by (apply IH; intros y Hy; apply Hl; by right).
  assert (P x <-> Q x) as HPQ by (apply Hl; by left).
  destruct (decide (P x)) as [HP|HP].
  - rewrite !filter_cons_True by naive_solver. by rewrite E.
  - rewrite !filter_cons_False by naive_solver. done.
Qed.

(** the loop visits the set bits in increasing order *)
Lemma set_bits_cons m :
  is_u64 m -> m <> 0 ->
  set_bits m = index_least1 64 m :: set_bits (clear_bit m (index_least1 64 m)).
Proof.
  intros Hm Hnz. destruct (index_least1_spec m Hm Hnz) as (Hr & Ht & Hlow).
  set (k := index_least1 64 m) in *. unfold set_bits.
  assert (seqZ 0 64 = seqZ 0 k ++ k :: seqZ (k + 1) (63 - k)) as ->.
  { replace 64 with (k + (64 - k)) by lia. rewrite seqZ_app by lia. f_equal.
    rewrite seqZ_cons by lia. repeat f_equal; lia. }
  rewrite !filter_app, filter_cons_True, filter_cons_False, !(filter_none _ (seqZ 0 k)).
  - cbn. f_equal. apply filter_ext_in.
    intros i Hi.
    apply elem_of_seqZ in Hi. rewrite clear_bit_testbit by lia.
    bfalse (k =? i). by rewrite andb_true_r.
  - intros i Hi. apply elem_of_seqZ in Hi. rewrite clear_bit_testbit by lia.
    rewrite Hlow by lia. done.
  - intros i Hi. apply elem_of_seqZ in Hi. rewrite Hlow by lia. done.
  - rewrite clear_bit_testbit by lia. btrue (k =? k). by rewrite andb_false_r.
  - done.
Qed.

Lemma set_bits_nil m : is_u64 m -> set_bits m = [] -> m = 0.
Proof.
  intros Hm H0. destruct (decide (m = 0)); [done|]. by rewrite set_bits_cons in H0.
Qed.

Lemma length_set_bits_le m : (length (set_bits m) <= 64)%nat.
Proof.
  unfold set_bits. etrans; [apply length_filter|]. by rewrite length_seqZ.
Qed.

(** iterating [body] over a list of indices, stopping at the first return *)
Fixpoint fold_until {St R : Type} (body : Z -> St -> option (St + R)) (l : list Z) (s : St) :
    option (St + R) :=
  match l with
  | [] => Some (inl s)
  | i :: l =>
      let* r := body i s in
      match r with
      | inl s' => fold_until body l s'
      | inr x => Some (inr x)
      end
  end.

Lemma for_mask_fuel {St R} (body : Z -> St -> option (St + R)) fuel m s :
  is_u64 m -> (length (set_bits m) < fuel)%nat ->
  for_mask fuel body m s = fold_until body (set_bits m) s.
Proof.
  revert m s. induction fuel as [|fuel IH]; intros m s Hm Hf; [lia|].
  cbn [for_mask]. destruct (m =? 0) eqn:E.
  - apply Z.eqb_eq in E as ->. by rewrite set_bits_0.
  - apply Z.eqb_neq in E. rewrite set_bits_cons in * by done.
    cbn [fold_until length] in *.
    destruct (body (index_least1 64 m) s) as [[s'|x]|]; cbn; [|done|done].
    apply IH; [auto with words|lia].
Qed.

(** ... so the loop always terminates within [mask_fuel] iterations *)
Lemma for_mask_spec {St R} (body : Z -> St -> option (St + R)) m s :
  is_u64 m -> for_mask mask_fuel body m s = fold_until body (set_bits m) s.
Proof.
  intros. apply for_mask_fuel; [done|].
  pose proof (length_set_bits_le m). unfold mask_fuel. lia.
Qed.

(** an invariant of a loop that never returns early: the indices done so far *)
Lemma for_mask_inv {St R} (P : list Z -> St -> Prop) (body : Z -> St -> option (St + R)) m s :
  is_u64 m -> P [] s ->
  (forall done i rest s, set_bits m = done ++ i :: rest -> P done s ->
     exists s', body i s = Some (inl s') /\ P (done ++ [i]) s') ->
  exists s', for_mask mask_fuel body m s = Some (inl s') /\ P (set_bits m) s'.
Proof.
  intros Hm Hs Hstep. rewrite for_mask_spec by done.
  assert (forall rest done s, set_bits m = done ++ rest -> P done s ->
    exists s', fold_until body rest s = Some (inl s') /\ P (set_bits m) s') as H.
  { induction rest as [|i rest IH]; intros dn s1 E H1.
    - rewrite app_nil_r in E. rewrite E. by exists s1.
    - destruct (Hstep dn i rest s1 E H1) as (s2 & E2 & H2). cbn [fold_until].
      rewrite E2, bind_Some. apply (IH (dn ++ [i])); [|done]. by rewrite <- app_assoc. }
  by apply (H (set_bits m) []).
Qed.

(** ** Population count *)

Lemma pos_popcount_nonneg p : 0 < pos_popcount p.
Proof. induction p; cbn [pos_popcount]; lia. Qed.

Lemma popcount_clear m :
  0 < m ->
  builtin_popcount m = 1 + builtin_popcount (clear_bit m (builtin_ffs m - 1)).
Proof.
  intros Hm. destruct m as [|p|p]; [lia| |lia]. cbn [builtin_ffs builtin_popcount].
  replace (1 + pos_ctz p - 1) with (pos_ctz p) by lia. clear Hm.
  induction p as [p IH|p IH|].
  - done.
  - cbn [pos_popcount pos_ctz]. rewrite IH. f_equal.
    pose proof (pos_ctz_nonneg p). unfold clear_bit.
    rewrite !Z.shiftl_1_l, Z.pow_add_r by lia.
    assert (Z.ldiff (Zpos p~0) (2 ^ 1 * 2 ^ pos_ctz p) = 2 * Z.ldiff (Zpos p) (2 ^ pos_ctz p)) as ->.
    { change (Zpos p~0) with (2 * Zpos p). change (2 ^ 1) with 2.
      apply Z.bits_inj'. intros i Hi. rewrite Z.ldiff_spec.
      destruct (decide (i = 0)) as [->|]; [by rewrite !Z.testbit_even_0|].
      replace i with (Z.succ (i - 1)) by lia.
      by rewrite !Z.testbit_even_succ, Z.ldiff_spec by lia. }
    destruct (Z.ldiff (Zpos p) (2 ^ pos_ctz p)); done.
  - done.
Qed.

Lemma popcount_set_bits m : is_u64 m -> popcount 64 m = Z.of_nat (length (set_bits m)).
Proof.
  remember (length (set_bits m)) as n eqn:Hn. revert m Hn.
  induction n as [|n IH]; intros m Hn Hm.
  - symmetry in Hn. apply nil_length_inv, set_bits_nil in Hn; [|done]. by subst.
  - assert (m <> 0) as Hnz by (intros ->; by rewrite set_bits_0 in Hn).
    rewrite set_bits_cons in Hn by done. cbn in Hn. injection Hn as Hn.
    apply IH in Hn; [|auto with words]. unfold popcount, index_least1 in *.
    rewrite (wrap_small 64 m) in * by done.
    rewrite popcount_clear by (unfold is_u64 in Hm; lia).
    rewrite wrap_small in Hn by (by apply clear_bit_u64). lia.
Qed.

Lemma popcount_bounds m : is_u64 m -> 0 <= popcount 64 m <= 64.
Proof. intros. rewrite popcount_set_bits by done. pose proof (length_set_bits_le m). lia. Qed.

Lemma popcount_perm m s :
  is_u64 m -> NoDup s -> (forall j, 0 <= j < 64 -> Z.testbit m j = true <-> j ∈ s) ->
  (forall j, j ∈ s -> 0 <= j < 64) -> popcount 64 m = Z.of_nat (length s).
Proof.
  intros Hm Hs H Hr. rewrite popcount_set_bits by done. f_equal.
  assert (set_bits m ≡ₚ s) as ->; [|done].
  apply NoDup_Permutation; [apply NoDup_set_bits|done|].
  intros j. rewrite elem_of_set_bits. naive_solver.
Qed.

Lemma popcount_set_bit m i :
  is_u64 m -> 0 <= i < 64 -> Z.testbit m i = false ->
  popcount 64 (set_bit m i) = popcount 64 m + 1.
Proof.
  intros Hm Hi Hb. rewrite (popcount_perm _ (i :: set_bits m)).
  - rewrite popcount_set_bits by done. cbn [length]. lia.
  - auto with words.
  - apply NoDup_cons. split; [|apply NoDup_set_bits]. rewrite elem_of_set_bits, Hb. naive_solver.
  - intros j Hj. rewrite set_bit_testbit, orb_true_iff, Z.eqb_eq, elem_of_cons, elem_of_set_bits by lia.
    split; [intros [?| ->]; auto|intros [->|[? ?]]; auto].
  - intros j. rewrite elem_of_cons, elem_of_set_bits. intros [->|[? _]]; lia.
Qed.

Lemma popcount_clear_bit m i :
  is_u64 m -> 0 <= i < 64 -> Z.testbit m i = true ->
  popcount 64 (clear_bit m i) = popcount 64 m - 1.
Proof.
  intros Hm Hi Hb. assert (set_bit (clear_bit m i) i = m) as E.
  { apply (word_ext 64); [done|by apply set_bit_u64; [apply clear_bit_u64|]|done|]. intros j Hj.
    rewrite set_bit_testbit, clear_bit_testbit by lia.
    destruct (Z.eqb_spec i j) as [->|]; [by rewrite Hb|]. by rewrite andb_true_r, orb_false_r. }
  rewrite <- E at 2. rewrite popcount_set_bit; [lia|auto with words|done|].
  rewrite clear_bit_testbit by lia. by rewrite Z.eqb_refl, andb_false_r.
Qed.

Lemma popcount_full m : is_u64 m -> popcount 64 m < 64 -> m <> Z.ones 64.
Proof. intros _ H ->. by vm_compute in H. Qed.

Lemma popcount_0_iff m : is_u64 m -> popcount 64 m = 0 <-> m = 0.
Proof.
  intros Hm. rewrite popcount_set_bits by done. split; [|by intros ->].
  intros H0. apply set_bits_nil; [done|]. apply nil_length_inv. lia.
Qed.

(** ** The most significant set bit, as the search code computes it *)
Lemma countl_zero_spec n :
  is_u64 n -> n <> 0 ->
  exists c, countl_zero 64 n = Some c /\ 0 <= 63 - c < 64
    /\ Z.testbit n (63 - c) = true /\ (forall j, 63 - c < j -> Z.testbit n j = false).
Proof.
  intros Hn Hnz. unfold countl_zero, builtin_clz. rewrite wrap_small by done.
  bfalse (n =? 0). cbn [negb asserting].
  assert (0 < n) by (unfold is_u64 in Hn; lia).
  exists (64 - 1 - Z.log2 n). split; [done|].
  replace (63 - (64 - 1 - Z.log2 n)) with (Z.log2 n) by lia.
  pose proof (Z.log2_nonneg n). split; [split; [done|]|split].
  - apply Z.log2_lt_pow2; unfold is_u64 in Hn; lia.
  - by apply Z.bit_log2.
  - intros j Hj. by apply Z.bits_above_log2; [lia|].
Qed.

(** ** Byte swap *)

Lemma length_byte_list n z : length (rev (to_bytes n z)) = n.
Proof. by rewrite length_rev, length_to_bytes. Qed.

Lemma rev_bytes l : Forall is_byte l -> Forall is_byte (rev l).
Proof. intros. by apply Forall_rev. Qed.

Lemma byte_swap_bytes n z : to_bytes n (byte_swap n z) = rev (to_bytes n z).
Proof.
  unfold byte_swap. rewrite <- (length_byte_list n z) at 1.
  apply to_of_bytes, rev_bytes, to_bytes_are_bytes.
Qed.

Lemma byte_swap_bounds n z : 0 <= byte_swap n z < 2 ^ (8 * Z.of_nat n).
Proof.
  unfold byte_swap. rewrite <- (length_byte_list n z) at 3.
  apply of_bytes_bounds, rev_bytes, to_bytes_are_bytes.
Qed.

Lemma byte_swap_involutive n z :
  0 <= z < 2 ^ (8 * Z.of_nat n) -> byte_swap n (byte_swap n z) = z.
Proof.
  intros Hz. unfold byte_swap at 1. rewrite byte_swap_bytes, rev_involutive, of_to_bytes.
  by apply Z.mod_small.
Qed.

(** ** Rounding *)

(** [roundup] returns the least multiple of [align] that is at least [size] *)
Lemma roundup_spec size align :
  0 <= size -> 0 < align ->
  exists r, roundup size align = Some r /\ size <= r < size + align /\ r mod align = 0.
Proof.
  intros. unfold roundup. btrue ((0 <=? size) && (0 <? align)). cbn [asserting].
  rewrite Z.quot_div_nonneg by lia. eexists; split; [done|]. split.
  - pose proof (Z.div_mod (size + align - 1) align). pose proof (Z.mod_pos_bound (size + align - 1) align).
    nia.
  - apply Z_mod_mult.
Qed.
