(* ===== verification/Simd.v ===== *)
(** * SIMD byte comparison: [src/util/simd.h] and [src/FBTree/compare.h]

    A pointer [p] is the list of bytes found from [p] on, each [0 <= b < 256]; a
    load of a vector wider than what is left is undefined ([None]). The AVX/SSE
    intrinsics are modelled by their instruction set semantics on byte vectors;
    the functions of [simd.h] are the source's sequences of intrinsics, and
    [compare.h] composes them for the three values of [Config::kCmpMode]. *)

From S2P Require Import Prelude Bits.

(** ** The intrinsics *)

(** [_mm_loadu_si128] and its wider forms, [w] bytes *)
Definition mm_loadu (w : nat) (p : list Z) : option (list Z) :=
  if decide (w <= length p)%nat then Some (take w p) else None.

Definition mm_set1_epi8 (w : nat) (c : Z) : list Z := replicate w (w8 c).

Definition byte_of_bool (b : bool) : Z := if b then 255 else 0.

(** [_mm_cmpeq_epi8], [_mm_cmplt_epi8], [_mm_cmpgt_epi8]: signed bytes *)
Definition mm_cmpeq_epi8 (v1 v2 : list Z) : list Z :=
  zip_with (fun a b => byte_of_bool (schar a =? schar b)) v1 v2.
Definition mm_cmplt_epi8 (v1 v2 : list Z) : list Z :=
  zip_with (fun a b => byte_of_bool (schar a <? schar b)) v1 v2.
Definition mm_cmpgt_epi8 (v1 v2 : list Z) : list Z :=
  zip_with (fun a b => byte_of_bool (schar a >? schar b)) v1 v2.

Definition mm_add_epi8 (v1 v2 : list Z) : list Z := zip_with (fun a b => w8 (a + b)) v1 v2.

(** [_mm_movemask_epi8]: bit [i] is the top bit of byte [i] *)
Fixpoint mm_movemask_epi8 (v : list Z) : Z :=
  match v with
  | [] => 0
  | b :: v => Z.b2z (128 <=? b) + 2 * mm_movemask_epi8 v
  end.

(** bit [i] is [f (l1[i]) (l2[i])] *)
Fixpoint bytemask (f : Z -> Z -> bool) (l1 l2 : list Z) : Z :=
  match l1, l2 with
  | a :: l1, b :: l2 => Z.b2z (f a b) + 2 * bytemask f l1 l2
  | _, _ => 0
  end.

(** the AVX-512 comparisons produce the mask directly *)
Definition mm_cmpeq_epi8_mask (v1 v2 : list Z) : Z := bytemask (fun a b => schar a =? schar b) v1 v2.
Definition mm_cmplt_epi8_mask (v1 v2 : list Z) : Z := bytemask (fun a b => schar a <? schar b) v1 v2.
Definition mm_cmpgt_epi8_mask (v1 v2 : list Z) : Z := bytemask (fun a b => schar a >? schar b) v1 v2.

(** ** [util/simd.h] *)

(** util/simd.h:26-32 [cmpeq_int8_simd128] *)
Definition cmpeq_int8_simd128 (p : list Z) (c : Z) : option Z :=
  let* v1 := mm_loadu 16 p in
  let v2 := mm_set1_epi8 16 c in
  let t := mm_cmpeq_epi8 v1 v2 in
  let mask := mm_movemask_epi8 t in
  Some mask.

(** util/simd.h:34-36 [cmpeq_uint8_simd128] *)
Definition cmpeq_uint8_simd128 (p : list Z) (c : Z) : option Z :=
  cmpeq_int8_simd128 p c.

(** util/simd.h:38-44 [cmpeq_int8_simd128] *)
Definition cmpeq_int8_simd128_pp (p1 p2 : list Z) : option Z :=
  let* v1 := mm_loadu 16 p1 in
  let* v2 := mm_loadu 16 p2 in
  let t := mm_cmpeq_epi8 v1 v2 in
  let mask := mm_movemask_epi8 t in
  Some mask.

(** util/simd.h:46-48 [cmpeq_uint8_simd128] *)
Definition cmpeq_uint8_simd128_pp (p1 p2 : list Z) : option Z :=
  cmpeq_int8_simd128_pp p1 p2.

(** util/simd.h:50-56 [cmplt_int8_simd128] *)
Definition cmplt_int8_simd128 (p : list Z) (c : Z) : option Z :=
  let* v1 := mm_loadu 16 p in
  let v2 := mm_set1_epi8 16 c in
  let t := mm_cmplt_epi8 v1 v2 in
  let mask := mm_movemask_epi8 t in
  Some mask.

(** util/simd.h:58-66 [cmplt_uint8_simd128] *)
Definition cmplt_uint8_simd128 (p : list Z) (c : Z) : option Z :=
  let* v1 := mm_loadu 16 p in
  let v2 := mm_set1_epi8 16 (c + 128) in
  let t := mm_set1_epi8 16 128 in
  let v1 := mm_add_epi8 v1 t in
  let t := mm_cmplt_epi8 v1 v2 in
  let mask := mm_movemask_epi8 t in
  Some mask.

(** util/simd.h:68-74 [cmplt_int8_simd128] *)
Definition cmplt_int8_simd128_pp (p1 p2 : list Z) : option Z :=
  let* v1 := mm_loadu 16 p1 in
  let* v2 := mm_loadu 16 p2 in
  let t := mm_cmplt_epi8 v1 v2 in
  let mask := mm_movemask_epi8 t in
  Some mask.

(** util/simd.h:76-84 [cmplt_uint8_simd128] *)
Definition cmplt_uint8_simd128_pp (p1 p2 : list Z) : option Z :=
  let* v1 := mm_loadu 16 p1 in
  let* v2 := mm_loadu 16 p2 in
  let t := mm_set1_epi8 16 128 in
  let v1 := mm_add_epi8 v1 t in let v2 := mm_add_epi8 v2 t in
  let t := mm_cmplt_epi8 v1 v2 in
  let mask := mm_movemask_epi8 t in
  Some mask.

(** util/simd.h:86-92 [cmpgt_int8_simd128] *)
Definition cmpgt_int8_simd128 (p : list Z) (c : Z) : option Z :=
  let* v1 := mm_loadu 16 p in
  let v2 := mm_set1_epi8 16 c in
  let t := mm_cmpgt_epi8 v1 v2 in
  let mask := mm_movemask_epi8 t in
  Some mask.

(** util/simd.h:94-102 [cmpgt_uint8_simd128] *)
Definition cmpgt_uint8_simd128 (p : list Z) (c : Z) : option Z :=
  let* v1 := mm_loadu 16 p in
  let v2 := mm_set1_epi8 16 (c + 128) in
  let t := mm_set1_epi8 16 128 in
  let v1 := mm_add_epi8 v1 t in
  let t := mm_cmpgt_epi8 v1 v2 in
  let mask := mm_movemask_epi8 t in
  Some mask.

(** util/simd.h:104-110 [cmpgt_int8_simd128] *)
Definition cmpgt_int8_simd128_pp (p1 p2 : list Z) : option Z :=
  let* v1 := mm_loadu 16 p1 in
  let* v2 := mm_loadu 16 p2 in
  let t := mm_cmpgt_epi8 v1 v2 in
  let mask := mm_movemask_epi8 t in
  Some mask.

(** util/simd.h:112-120 [cmpgt_uint8_simd128] *)
Definition cmpgt_uint8_simd128_pp (p1 p2 : list Z) : option Z :=
  let* v1 := mm_loadu 16 p1 in
  let* v2 := mm_loadu 16 p2 in
  let t := mm_set1_epi8 16 128 in
  let v1 := mm_add_epi8 v1 t in let v2 := mm_add_epi8 v2 t in
  let t := mm_cmpgt_epi8 v1 v2 in
  let mask := mm_movemask_epi8 t in
  Some mask.

(** util/simd.h:123-129 [cmpeq_int8_simd256] *)
Definition cmpeq_int8_simd256 (p : list Z) (c : Z) : option Z :=
  let* v1 := mm_loadu 32 p in
  let v2 := mm_set1_epi8 32 c in
  let t := mm_cmpeq_epi8 v1 v2 in
  let mask := mm_movemask_epi8 t in
  Some mask.

(** util/simd.h:131-133 [cmpeq_uint8_simd256] *)
Definition cmpeq_uint8_simd256 (p : list Z) (c : Z) : option Z :=
  cmpeq_int8_simd256 p c.

(** util/simd.h:135-141 [cmpeq_int8_simd256] *)
Definition cmpeq_int8_simd256_pp (p1 p2 : list Z) : option Z :=
  let* v1 := mm_loadu 32 p1 in
  let* v2 := mm_loadu 32 p2 in
  let t := mm_cmpeq_epi8 v1 v2 in
  let mask := mm_movemask_epi8 t in
  Some mask.

(** util/simd.h:143-145 [cmpeq_uint8_simd256] *)
Definition cmpeq_uint8_simd256_pp (p1 p2 : list Z) : option Z :=
  cmpeq_int8_simd256_pp p1 p2.

(** util/simd.h:147-153 [cmplt_int8_simd256] *)
Definition cmplt_int8_simd256 (p : list Z) (c : Z) : option Z :=
  let* v1 := mm_loadu 32 p in
  let v2 := mm_set1_epi8 32 c in
  let t := mm_cmpgt_epi8 v2 v1 in
  let mask := mm_movemask_epi8 t in
  Some mask.

(** util/simd.h:155-163 [cmplt_uint8_simd256] *)
Definition cmplt_uint8_simd256 (p : list Z) (c : Z) : option Z :=
  let* v1 := mm_loadu 32 p in
  let v2 := mm_set1_epi8 32 (c + 128) in
  let t := mm_set1_epi8 32 128 in
  let v1 := mm_add_epi8 v1 t in
  let t := mm_cmpgt_epi8 v2 v1 in
  let mask := mm_movemask_epi8 t in
  Some mask.

(** util/simd.h:165-171 [cmplt_int8_simd256] *)
Definition cmplt_int8_simd256_pp (p1 p2 : list Z) : option Z :=
  let* v1 := mm_loadu 32 p1 in
  let* v2 := mm_loadu 32 p2 in
  let t := mm_cmpgt_epi8 v2 v1 in
  let mask := mm_movemask_epi8 t in
  Some mask.

(** util/simd.h:173-181 [cmplt_uint8_simd256] *)
Definition cmplt_uint8_simd256_pp (p1 p2 : list Z) : option Z :=
  let* v1 := mm_loadu 32 p1 in
  let* v2 := mm_loadu 32 p2 in
  let t := mm_set1_epi8 32 128 in
  let v1 := mm_add_epi8 v1 t in let v2 := mm_add_epi8 v2 t in
  let t := mm_cmpgt_epi8 v2 v1 in
  let mask := mm_movemask_epi8 t in
  Some mask.

(** util/simd.h:183-189 [cmpgt_int8_simd256] *)
Definition cmpgt_int8_simd256 (p : list Z) (c : Z) : option Z :=
  let* v1 := mm_loadu 32 p in
  let v2 := mm_set1_epi8 32 c in
  let t := mm_cmpgt_epi8 v1 v2 in
  let mask := mm_movemask_epi8 t in
  Some mask.

(** util/simd.h:191-199 [cmpgt_uint8_simd256] *)
Definition cmpgt_uint8_simd256 (p : list Z) (c : Z) : option Z :=
  let* v1 := mm_loadu 32 p in
  let v2 := mm_set1_epi8 32 (c + 128) in
  let t := mm_set1_epi8 32 128 in
  let v1 := mm_add_epi8 v1 t in
  let t := mm_cmpgt_epi8 v1 v2 in
  let mask := mm_movemask_epi8 t in
  Some mask.

(** util/simd.h:201-207 [cmpgt_int8_simd256] *)
Definition cmpgt_int8_simd256_pp (p1 p2 : list Z) : option Z :=
  let* v1 := mm_loadu 32 p1 in
  let* v2 := mm_loadu 32 p2 in
  let t := mm_cmpgt_epi8 v1 v2 in
  let mask := mm_movemask_epi8 t in
  Some mask.

(** util/simd.h:209-217 [cmpgt_uint8_simd256] *)
Definition cmpgt_uint8_simd256_pp (p1 p2 : list Z) : option Z :=
  let* v1 := mm_loadu 32 p1 in
  let* v2 := mm_loadu 32 p2 in
  let t := mm_set1_epi8 32 128 in
  let v1 := mm_add_epi8 v1 t in let v2 := mm_add_epi8 v2 t in
  let t := mm_cmpgt_epi8 v1 v2 in
  let mask := mm_movemask_epi8 t in
  Some mask.

(** util/simd.h:220-224 [cmpeq_int8_simd512] *)
Definition cmpeq_int8_simd512 (p : list Z) (c : Z) : option Z :=
  let* v1 := mm_loadu 64 p in
  let v2 := mm_set1_epi8 64 c in
  Some (mm_cmpeq_epi8_mask v1 v2).

(** util/simd.h:226-228 [cmpeq_uint8_simd512] *)
Definition cmpeq_uint8_simd512 (p : list Z) (c : Z) : option Z :=
  cmpeq_int8_simd512 p c.

(** util/simd.h:230-234 [cmpeq_int8_simd512] *)
Definition cmpeq_int8_simd512_pp (p1 p2 : list Z) : option Z :=
  let* v1 := mm_loadu 64 p1 in
  let* v2 := mm_loadu 64 p2 in
  Some (mm_cmpeq_epi8_mask v1 v2).

(** util/simd.h:236-238 [cmpeq_uint8_simd512] *)
Definition cmpeq_uint8_simd512_pp (p1 p2 : list Z) : option Z :=
  cmpeq_int8_simd512_pp p1 p2.

(** util/simd.h:240-244 [cmplt_int8_simd512] *)
Definition cmplt_int8_simd512 (p : list Z) (c : Z) : option Z :=
  let* v1 := mm_loadu 64 p in
  let v2 := mm_set1_epi8 64 c in
  Some (mm_cmplt_epi8_mask v1 v2).

(** util/simd.h:246-252 [cmplt_uint8_simd512] *)
Definition cmplt_uint8_simd512 (p : list Z) (c : Z) : option Z :=
  let* v1 := mm_loadu 64 p in
  let v2 := mm_set1_epi8 64 (c + 128) in
  let t := mm_set1_epi8 64 128 in
  let v1 := mm_add_epi8 v1 t in
  Some (mm_cmplt_epi8_mask v1 v2).

(** util/simd.h:254-258 [cmplt_int8_simd512] *)
Definition cmplt_int8_simd512_pp (p1 p2 : list Z) : option Z :=
  let* v1 := mm_loadu 64 p1 in
  let* v2 := mm_loadu 64 p2 in
  Some (mm_cmplt_epi8_mask v1 v2).

(** util/simd.h:260-266 [cmplt_uint8_simd512] *)
Definition cmplt_uint8_simd512_pp (p1 p2 : list Z) : option Z :=
  let* v1 := mm_loadu 64 p1 in
  let* v2 := mm_loadu 64 p2 in
  let t := mm_set1_epi8 64 128 in
  let v1 := mm_add_epi8 v1 t in let v2 := mm_add_epi8 v2 t in
  Some (mm_cmplt_epi8_mask v1 v2).

(** util/simd.h:268-272 [cmpgt_int8_simd512] *)
Definition cmpgt_int8_simd512 (p : list Z) (c : Z) : option Z :=
  let* v1 := mm_loadu 64 p in
  let v2 := mm_set1_epi8 64 c in
  Some (mm_cmpgt_epi8_mask v1 v2).

(** util/simd.h:274-280 [cmpgt_uint8_simd512] *)
Definition cmpgt_uint8_simd512 (p : list Z) (c : Z) : option Z :=
  let* v1 := mm_loadu 64 p in
  let v2 := mm_set1_epi8 64 (c + 128) in
  let t := mm_set1_epi8 64 128 in
  let v1 := mm_add_epi8 v1 t in
  Some (mm_cmpgt_epi8_mask v1 v2).

(** util/simd.h:282-286 [cmpgt_int8_simd512] *)
Definition cmpgt_int8_simd512_pp (p1 p2 : list Z) : option Z :=
  let* v1 := mm_loadu 64 p1 in
  let* v2 := mm_loadu 64 p2 in
  Some (mm_cmpgt_epi8_mask v1 v2).

(** util/simd.h:288-294 [cmpgt_uint8_simd512] *)
Definition cmpgt_uint8_simd512_pp (p1 p2 : list Z) : option Z :=
  let* v1 := mm_loadu 64 p1 in
  let* v2 := mm_loadu 64 p2 in
  let t := mm_set1_epi8 64 128 in
  let v1 := mm_add_epi8 v1 t in let v2 := mm_add_epi8 v2 t in
  Some (mm_cmpgt_epi8_mask v1 v2).

(** ** [FBTree/compare.h] *)

(** FBTree/config.h:28-28 [CompareMode] *)
Inductive CompareMode := SIMD512 | SIMD256 | SIMD128.

(** FBTree/compare.h:23-25 [compare_equal_16] *)
Definition compare_equal_16 (p : list Z) (c : Z) : option Z :=
  cmpeq_int8_simd128 p c.

(** FBTree/compare.h:27-35 [compare_equal_32] *)
Definition compare_equal_32 (mode : CompareMode) (p : list Z) (c : Z) : option Z :=
  match mode with
  | SIMD256 => cmpeq_int8_simd256 p c
  | _ =>
      let* m1 := compare_equal_16 p c in
      let* m2 := compare_equal_16 (drop 16 p) c in
      Some (Z.lor (w64 (Z.shiftl m2 16)) m1)
  end.

(** FBTree/compare.h:37-45 [compare_equal_64] *)
Definition compare_equal_64 (mode : CompareMode) (p : list Z) (c : Z) : option Z :=
  match mode with
  | SIMD512 => cmpeq_int8_simd512 p c
  | _ =>
      let* m1 := compare_equal_32 mode p c in
      let* m2 := compare_equal_32 mode (drop 32 p) c in
      Some (Z.lor (w64 (Z.shiftl m2 32)) m1)
  end.

(** FBTree/compare.h:47-49 [compare_equal_16] *)
Definition compare_equal_16_pp (p1 p2 : list Z) : option Z :=
  cmpeq_int8_simd128_pp p1 p2.

(** FBTree/compare.h:51-59 [compare_equal_32] *)
Definition compare_equal_32_pp (mode : CompareMode) (p1 p2 : list Z) : option Z :=
  match mode with
  | SIMD256 => cmpeq_int8_simd256_pp p1 p2
  | _ =>
      let* m1 := compare_equal_16_pp p1 p2 in
      let* m2 := compare_equal_16_pp (drop 16 p1) (drop 16 p2) in
      Some (Z.lor (w64 (Z.shiftl m2 16)) m1)
  end.

(** FBTree/compare.h:61-69 [compare_equal_64] *)
Definition compare_equal_64_pp (mode : CompareMode) (p1 p2 : list Z) : option Z :=
  match mode with
  | SIMD512 => cmpeq_int8_simd512_pp p1 p2
  | _ =>
      let* m1 := compare_equal_32_pp mode p1 p2 in
      let* m2 := compare_equal_32_pp mode (drop 32 p1) (drop 32 p2) in
      Some (Z.lor (w64 (Z.shiftl m2 32)) m1)
  end.

(** FBTree/compare.h:71-73 [compare_less_16] *)
Definition compare_less_16 (p : list Z) (c : Z) : option Z :=
  cmplt_int8_simd128 p c.

(** FBTree/compare.h:75-83 [compare_less_32] *)
Definition compare_less_32 (mode : CompareMode) (p : list Z) (c : Z) : option Z :=
  match mode with
  | SIMD256 => cmplt_int8_simd256 p c
  | _ =>
      let* m1 := compare_less_16 p c in
      let* m2 := compare_less_16 (drop 16 p) c in
      Some (Z.lor (w64 (Z.shiftl m2 16)) m1)
  end.

(** FBTree/compare.h:85-93 [compare_less_64] *)
Definition compare_less_64 (mode : CompareMode) (p : list Z) (c : Z) : option Z :=
  match mode with
  | SIMD512 => cmplt_int8_simd512 p c
  | _ =>
      let* m1 := compare_less_32 mode p c in
      let* m2 := compare_less_32 mode (drop 32 p) c in
      Some (Z.lor (w64 (Z.shiftl m2 32)) m1)
  end.

(** FBTree/compare.h:95-97 [compare_less_16] *)
Definition compare_less_16_pp (p1 p2 : list Z) : option Z :=
  cmplt_int8_simd128_pp p1 p2.

(** FBTree/compare.h:99-107 [compare_less_32] *)
Definition compare_less_32_pp (mode : CompareMode) (p1 p2 : list Z) : option Z :=
  match mode with
  | SIMD256 => cmplt_int8_simd256_pp p1 p2
  | _ =>
      let* m1 := compare_less_16_pp p1 p2 in
      let* m2 := compare_less_16_pp (drop 16 p1) (drop 16 p2) in
      Some (Z.lor (w64 (Z.shiftl m2 16)) m1)
  end.

(** FBTree/compare.h:109-117 [compare_less_64] *)
Definition compare_less_64_pp (mode : CompareMode) (p1 p2 : list Z) : option Z :=
  match mode with
  | SIMD512 => cmplt_int8_simd512_pp p1 p2
  | _ =>
      let* m1 := compare_less_32_pp mode p1 p2 in
      let* m2 := compare_less_32_pp mode (drop 32 p1) (drop 32 p2) in
      Some (Z.lor (w64 (Z.shiftl m2 32)) m1)
  end.

(** ** What they compute *)

Lemma bytemask_nonneg f l1 l2 : 0 <= bytemask f l1 l2.
Proof.
  revert l2. induction l1 as [|a l1 IH]; intros [|b l2]; cbn [bytemask]; try lia.
  specialize (IH l2). destruct (f a b); cbn [Z.b2z]; lia.
Qed.

(** the [i]-th bit of a mask is the comparison of the [i]-th bytes *)
Lemma bytemask_testbit f l1 l2 (i : nat) :
  Z.testbit (bytemask f l1 l2) (Z.of_nat i) =
    match l1 !! i, l2 !! i with Some a, Some b => f a b | _, _ => false end.
Proof.
  revert l2 i. induction l1 as [|a l1 IH]; intros [|b l2] i; cbn [bytemask].
  - by rewrite Z.testbit_0_l.
  - by rewrite Z.testbit_0_l.
  - rewrite Z.testbit_0_l. rewrite lookup_nil. by destruct (_ !! i).
  - destruct i as [|i]; cbn [lookup list_lookup].
    + rewrite Z.add_comm. rewrite Z.testbit_0_r. done.
    + rewrite Nat2Z.inj_succ, Z.add_comm, Z.testbit_succ_r by lia. apply IH.
Qed.

Lemma bytemask_bound f l1 l2 : bytemask f l1 l2 < 2 ^ Z.of_nat (length l1).
Proof.
  apply testbit_bound; [lia|apply bytemask_nonneg|]. intros i Hi.
  replace i with (Z.of_nat (Z.to_nat i)) by lia. rewrite bytemask_testbit.
  by rewrite lookup_ge_None_2 by lia.
Qed.

Lemma bytemask_u64 f l1 l2 : (length l1 <= 64)%nat -> is_u64 (bytemask f l1 l2).
Proof.
  intros. split; [apply bytemask_nonneg|]. eapply Z.lt_le_trans; [apply bytemask_bound|].
  apply Z.pow_le_mono_r; lia.
Qed.

Lemma movemask_zip f v1 v2 :
  mm_movemask_epi8 (zip_with (fun a b => byte_of_bool (f a b)) v1 v2) = bytemask f v1 v2.
Proof.
  revert v2. induction v1 as [|a v1 IH]; intros [|b v2]; cbn; [done..|].
  rewrite IH. by destruct (f a b).
Qed.

Lemma bytemask_ext f g l1 l2 :
  (forall a b, a ∈ l1 -> b ∈ l2 -> f a b = g a b) -> bytemask f l1 l2 = bytemask g l1 l2.
Proof.
  revert l2. induction l1 as [|a l1 IH]; intros [|b l2] Hl; cbn [bytemask]; [done..|].
  rewrite Hl by left. rewrite (IH l2); [done|]. intros; apply Hl; by right.
Qed.

Lemma bytemask_map f g h l1 l2 :
  bytemask f (map g l1) (map h l2) = bytemask (fun a b => f (g a) (h b)) l1 l2.
Proof.
  revert l2. induction l1 as [|a l1 IH]; intros [|b l2]; cbn; [done..|]. by rewrite IH.
Qed.

(** the two halves of a mask, computed apart, as [compare.h] does *)
Lemma bytemask_app f l1 l1' l2 l2' :
  length l1 = length l2 ->
  bytemask f (l1 ++ l1') (l2 ++ l2')
  = bytemask f l1 l2 + 2 ^ Z.of_nat (length l1) * bytemask f l1' l2'.
Proof.
  revert l2. induction l1 as [|a l1 IH]; intros [|b l2] Hl; try done.
  - cbn [app bytemask length]. change (2 ^ Z.of_nat 0) with 1. lia.
  - cbn [app bytemask length] in *. rewrite IH by lia.
    rewrite Nat2Z.inj_succ, Z.pow_succ_r by lia. lia.
Qed.

Lemma lor_shiftl_disjoint n a b :
  0 <= n -> 0 <= a < 2 ^ n -> 0 <= b -> Z.lor (Z.shiftl b n) a = a + 2 ^ n * b.
Proof.
  intros Hn Ha Hb. rewrite Z.shiftl_mul_pow2 by done.
  assert (Z.land a (b * 2 ^ n) = 0) as Hd.
  { apply Z.bits_inj'. intros i Hi. rewrite Z.land_spec, Z.bits_0.
    destruct (decide (i < n)).
    - rewrite Z.mul_pow2_bits_low by done. by rewrite andb_false_r.
    - by rewrite (testbit_above a n) by lia. }
  rewrite Z.lor_comm, <- Z.lxor_lor, <- Z.add_nocarry_lxor by done. lia.
Qed.

(** ** The comparison functions are the masks of the scalar comparisons *)

(** the comparison of two bytes as signed [char]s *)
Definition on_schar (f : Z -> Z -> bool) (a b : Z) : bool := f (schar a) (schar b).

Lemma loadu_enough w p : (w <= length p)%nat -> mm_loadu w p = Some (take w p).
Proof. intros. unfold mm_loadu. by rewrite decide_True by done. Qed.

Lemma schar_flip b : is_byte b -> schar (w8 (b + 128)) = b - 128.
Proof.
  unfold is_byte, schar, wrap. intros Hb. change (2 ^ 8) with 256.
  destruct (decide (b < 128)).
  - rewrite Z.mod_small by lia. bfalse (b + 128 <? 128). lia.
  - replace (b + 128) with (b - 128 + 1 * 256) by lia.
    rewrite Z_mod_plus_full, Z.mod_small by lia. btrue (b - 128 <? 128). lia.
Qed.

Lemma schar_inj a b : is_byte a -> is_byte b -> schar a = schar b -> a = b.
Proof. unfold is_byte, schar. intros. destruct (a <? 128) eqn:?, (b <? 128) eqn:?; blia. Qed.

Lemma w8_byte b : is_byte b -> w8 b = b.
Proof. intros. apply wrap_small. done. Qed.

Lemma add_epi8_flip w v :
  (length v <= w)%nat ->
  mm_add_epi8 v (mm_set1_epi8 w 128) = map (fun b => w8 (b + 128)) v.
Proof.
  unfold mm_add_epi8, mm_set1_epi8. rewrite (w8_byte 128) by done.
  revert w. induction v as [|b v IH]; intros [|w] Hl; cbn in *; [done|done|lia|].
  rewrite IH by lia. done.
Qed.

(** flipping the sign bits of both sides makes the signed comparisons unsigned *)
Lemma bytemask_flip (f : Z -> Z -> bool) v1 v2 :
  Forall is_byte v1 -> Forall is_byte v2 ->
  (forall a b, f (a - 128) (b - 128) = f a b) ->
  bytemask (on_schar f)
    (map (fun b => w8 (b + 128)) v1) (map (fun b => w8 (b + 128)) v2)
  = bytemask f v1 v2.
Proof.
  intros H1 H2 Hf. rewrite bytemask_map. apply bytemask_ext. intros a b Ha Hb.
  rewrite Forall_forall in H1, H2.
  unfold on_schar. rewrite !schar_flip by auto. apply Hf.
Qed.

Lemma replicate_flip w c :
  mm_set1_epi8 w (c + 128) = map (fun b => w8 (b + 128)) (replicate w (w8 c)).
Proof.
  unfold mm_set1_epi8. induction w as [|w IH]; cbn; [done|]. rewrite IH. f_equal.
  unfold wrap. by rewrite Zplus_mod_idemp_l.
Qed.

Lemma take_bytes w p : Forall is_byte p -> Forall is_byte (take w p).
Proof. apply Forall_take. Qed.

Lemma replicate_bytes w c : is_byte c -> Forall is_byte (replicate w c).
Proof. intros. by apply Forall_replicate. Qed.

(** AVX2 has no [cmplt]: the code swaps the operands of [cmpgt] *)
Lemma bytemask_gt_swap v1 v2 :
  bytemask (on_schar Z.gtb) v2 v1 = bytemask (on_schar Z.ltb) v1 v2.
Proof.
  revert v2. induction v1 as [|a v1 IH]; intros [|b v2]; cbn; [done..|].
  rewrite IH. unfold on_schar. by rewrite Z.gtb_ltb.
Qed.

Lemma movemask_cmp f v1 v2 :
  mm_movemask_epi8 (zip_with (fun a b => byte_of_bool (f (schar a) (schar b))) v1 v2)
  = bytemask (on_schar f) v1 v2.
Proof. apply movemask_zip. Qed.

Create HintDb simd.
#[export] Hint Resolve take_bytes replicate_bytes : simd.

(** run a comparison function on readable memory: loads succeed, and the mask
    of the signed comparison appears *)
Ltac simd_run f :=
  unfold f; rewrite ?loadu_enough by done; cbn [mbind option_bind];
  unfold mm_cmpeq_epi8, mm_cmplt_epi8, mm_cmpgt_epi8,
    mm_cmpeq_epi8_mask, mm_cmplt_epi8_mask, mm_cmpgt_epi8_mask;
  rewrite ?(movemask_cmp Z.eqb), ?(movemask_cmp Z.ltb), ?(movemask_cmp Z.gtb);
  repeat change (fun a b => schar a <? schar b) with (on_schar Z.ltb);
  repeat change (fun a b => schar a >? schar b) with (on_schar Z.gtb);
  repeat change (fun a b => schar a =? schar b) with (on_schar Z.eqb).

(** discharge an unsigned comparison obtained by flipping both sides *)
Ltac simd_flip :=
  rewrite ?replicate_flip, ?add_epi8_flip by (rewrite ?length_take; lia);
  rewrite ?w8_byte by done; f_equal;
  first
    [ apply (bytemask_flip Z.ltb)
    | apply (bytemask_flip Z.gtb)
    | rewrite bytemask_gt_swap; apply (bytemask_flip Z.ltb) ];
  eauto with simd; intros; rewrite ?Z.gtb_ltb; apply eq_true_iff_eq; rewrite !Z.ltb_lt; lia.

(** The unsigned comparisons of a 16-, 32- or 64-byte vector against a byte, and
    of two vectors, are the masks of the unsigned scalar comparisons. *)
Theorem uint8_compare_spec p q c :
  Forall is_byte p -> Forall is_byte q -> is_byte c ->
  let m f w := Some (bytemask f (take w p) (replicate w c)) in
  let m2 f w := Some (bytemask f (take w p) (take w q)) in
  (16 <= length p -> 16 <= length q ->
     cmplt_uint8_simd128 p c = m Z.ltb 16 /\ cmpgt_uint8_simd128 p c = m Z.gtb 16
     /\ cmplt_uint8_simd128_pp p q = m2 Z.ltb 16 /\ cmpgt_uint8_simd128_pp p q = m2 Z.gtb 16)%nat
  /\ (32 <= length p -> 32 <= length q ->
     cmplt_uint8_simd256 p c = m Z.ltb 32 /\ cmpgt_uint8_simd256 p c = m Z.gtb 32
     /\ cmplt_uint8_simd256_pp p q = m2 Z.ltb 32 /\ cmpgt_uint8_simd256_pp p q = m2 Z.gtb 32)%nat
  /\ (64 <= length p -> 64 <= length q ->
     cmplt_uint8_simd512 p c = m Z.ltb 64 /\ cmpgt_uint8_simd512 p c = m Z.gtb 64
     /\ cmplt_uint8_simd512_pp p q = m2 Z.ltb 64 /\ cmpgt_uint8_simd512_pp p q = m2 Z.gtb 64)%nat.
Proof.
  intros Hp Hq Hc m m2. unfold m, m2; clear m m2.
  split; [|split]; intros Lp Lq.
  - split_and!; [simd_run cmplt_uint8_simd128 | simd_run cmpgt_uint8_simd128
      | simd_run cmplt_uint8_simd128_pp | simd_run cmpgt_uint8_simd128_pp]; simd_flip.
  - split_and!; [simd_run cmplt_uint8_simd256 | simd_run cmpgt_uint8_simd256
      | simd_run cmplt_uint8_simd256_pp | simd_run cmpgt_uint8_simd256_pp]; simd_flip.
  - split_and!; [simd_run cmplt_uint8_simd512 | simd_run cmpgt_uint8_simd512
      | simd_run cmplt_uint8_simd512_pp | simd_run cmpgt_uint8_simd512_pp]; simd_flip.
Qed.

(** The signed and equality comparisons against a byte and of two vectors are the
    masks of the scalar comparisons of signed [char]s, at every width. *)
Theorem int8_compare_spec p q c :
  let m f w := Some (bytemask (on_schar f) (take w p) (mm_set1_epi8 w c)) in
  let m2 f w := Some (bytemask (on_schar f) (take w p) (take w q)) in
  (16 <= length p -> 16 <= length q ->
     cmpeq_int8_simd128 p c = m Z.eqb 16 /\ cmplt_int8_simd128 p c = m Z.ltb 16
     /\ cmpgt_int8_simd128 p c = m Z.gtb 16 /\ cmpeq_int8_simd128_pp p q = m2 Z.eqb 16
     /\ cmplt_int8_simd128_pp p q = m2 Z.ltb 16 /\ cmpgt_int8_simd128_pp p q = m2 Z.gtb 16)%nat
  /\ (32 <= length p -> 32 <= length q ->
     cmpeq_int8_simd256 p c = m Z.eqb 32 /\ cmplt_int8_simd256 p c = m Z.ltb 32
     /\ cmpgt_int8_simd256 p c = m Z.gtb 32 /\ cmpeq_int8_simd256_pp p q = m2 Z.eqb 32
     /\ cmplt_int8_simd256_pp p q = m2 Z.ltb 32 /\ cmpgt_int8_simd256_pp p q = m2 Z.gtb 32)%nat
  /\ (64 <= length p -> 64 <= length q ->
     cmpeq_int8_simd512 p c = m Z.eqb 64 /\ cmplt_int8_simd512 p c = m Z.ltb 64
     /\ cmpgt_int8_simd512 p c = m Z.gtb 64 /\ cmpeq_int8_simd512_pp p q = m2 Z.eqb 64
     /\ cmplt_int8_simd512_pp p q = m2 Z.ltb 64 /\ cmpgt_int8_simd512_pp p q = m2 Z.gtb 64)%nat.
Proof.
  intros m m2. unfold m, m2; clear m m2.
  split; [|split]; intros Lp Lq.
  - split_and!; [simd_run cmpeq_int8_simd128 | simd_run cmplt_int8_simd128
      | simd_run cmpgt_int8_simd128 | simd_run cmpeq_int8_simd128_pp
      | simd_run cmplt_int8_simd128_pp | simd_run cmpgt_int8_simd128_pp]; done.
  - split_and!; [simd_run cmpeq_int8_simd256 | simd_run cmplt_int8_simd256
      | simd_run cmpgt_int8_simd256 | simd_run cmpeq_int8_simd256_pp
      | simd_run cmplt_int8_simd256_pp | simd_run cmpgt_int8_simd256_pp];
      by rewrite ?bytemask_gt_swap.
  - split_and!; [simd_run cmpeq_int8_simd512 | simd_run cmplt_int8_simd512
      | simd_run cmpgt_int8_simd512 | simd_run cmpeq_int8_simd512_pp
      | simd_run cmplt_int8_simd512_pp | simd_run cmpgt_int8_simd512_pp]; done.
Qed.

(** ** [compare.h]: the three compare modes agree *)

(** the mask of a vector from the masks of its two halves *)
Lemma halves f (h : nat) v1 v2 :
  (h <= 32)%nat -> length v1 = (h + h)%nat -> length v2 = (h + h)%nat ->
  Z.lor (w64 (Z.shiftl (bytemask f (drop h v1) (drop h v2)) (Z.of_nat h)))
    (bytemask f (take h v1) (take h v2))
  = bytemask f v1 v2.
Proof.
  intros Hh H1 H2.
  pose proof (bytemask_bound f (drop h v1) (drop h v2)) as Hb.
  pose proof (bytemask_nonneg f (drop h v1) (drop h v2)).
  pose proof (bytemask_bound f (take h v1) (take h v2)) as Hb1.
  pose proof (bytemask_nonneg f (take h v1) (take h v2)).
  rewrite length_drop in Hb. replace (length v1 - h)%nat with h in Hb by lia.
  rewrite length_take, Nat.min_l in Hb1 by lia.
  rewrite wrap_small.
  - rewrite lor_shiftl_disjoint by lia.
    rewrite <- (take_drop h v1) at 3. rewrite <- (take_drop h v2) at 3.
    rewrite bytemask_app by (rewrite !length_take; lia).
    by rewrite length_take, Nat.min_l by lia.
  - rewrite Z.shiftl_mul_pow2 by lia. split; [nia|].
    apply (Z.lt_le_trans _ (2 ^ Z.of_nat h * 2 ^ Z.of_nat h)); [nia|].
    rewrite <- Z.pow_add_r by lia. apply Z.pow_le_mono_r; lia.
Qed.

Lemma halves_take f (h : nat) p q :
  (h <= 32)%nat -> (h + h <= length p)%nat -> (h + h <= length q)%nat ->
  Z.lor (w64 (Z.shiftl (bytemask f (take h (drop h p)) (take h (drop h q))) (Z.of_nat h)))
    (bytemask f (take h p) (take h q))
  = bytemask f (take (h + h) p) (take (h + h) q).
Proof.
  intros Hh Hp Hq. rewrite <- (halves f h (take (h + h) p)); try done.
  - rewrite !take_take, !(Nat.min_l h (h + h)) by lia.
    by rewrite !skipn_firstn_comm, !Nat.add_sub.
  - rewrite length_take. lia.
  - rewrite length_take. lia.
Qed.

Lemma halves_set1 f (h : nat) p c :
  (h <= 32)%nat -> (h + h <= length p)%nat ->
  Z.lor (w64 (Z.shiftl (bytemask f (take h (drop h p)) (mm_set1_epi8 h c)) (Z.of_nat h)))
    (bytemask f (take h p) (mm_set1_epi8 h c))
  = bytemask f (take (h + h) p) (mm_set1_epi8 (h + h) c).
Proof.
  intros Hh Hp. rewrite <- (halves f h (take (h + h) p)); try done.
  - unfold mm_set1_epi8. rewrite take_replicate, drop_replicate, !take_take.
    rewrite !(Nat.min_l h (h + h)) by lia.
    by rewrite !skipn_firstn_comm, !Nat.add_sub.
  - rewrite length_take. lia.
  - unfold mm_set1_epi8. by rewrite length_replicate.
Qed.

(** the mask a comparison against one byte computes, and against a second vector *)
Definition mask1 (f : Z -> Z -> bool) (w : nat) (p : list Z) (c : Z) : Z :=
  bytemask (on_schar f) (take w p) (mm_set1_epi8 w c).
Definition mask2 (f : Z -> Z -> bool) (w : nat) (p q : list Z) : Z :=
  bytemask (on_schar f) (take w p) (take w q).

Lemma mask1_testbit f w p c i :
  (w <= length p)%nat -> is_byte c -> 0 <= i ->
  Z.testbit (mask1 f w p c) i
    = (i <? Z.of_nat w) && match aget p i with Some b => on_schar f b c | None => false end.
Proof.
  intros Hl Hc Hi. unfold mask1, mm_set1_epi8. rewrite (w8_byte c Hc).
  rewrite <- (Z2Nat.id i) at 1 2 by done. rewrite bytemask_testbit.
  unfold aget. bfalse (i <? 0).
  destruct (decide (Z.to_nat i < w)%nat).
  - rewrite lookup_take_lt, lookup_replicate_2 by done.
    btrue (Z.of_nat (Z.to_nat i) <? Z.of_nat w). cbn [andb]. by destruct (p !! Z.to_nat i).
  - rewrite lookup_take_ge by lia. by bfalse (Z.of_nat (Z.to_nat i) <? Z.of_nat w).
Qed.

Lemma mask1_u64 f w p c : (w <= 64)%nat -> is_u64 (mask1 f w p c).
Proof. intros. apply bytemask_u64. rewrite length_take. lia. Qed.

Lemma on_schar_eqb a b : is_byte a -> is_byte b -> on_schar Z.eqb a b = (a =? b).
Proof.
  intros Ha Hb. unfold on_schar. destruct (Z.eqb_spec a b) as [->|Hne]; [apply Z.eqb_refl|].
  apply Z.eqb_neq. by intros ?%schar_inj.
Qed.

Ltac by_int8 p q c :=
  let H := fresh in
  pose proof (int8_compare_spec p q c) as H; cbn zeta in H;
  destruct H as (? & ? & ?);
  repeat match goal with
  | H : (_ -> _ -> _)%nat |- _ =>
      first [ specialize (H ltac:(lia) ltac:(lia)); destruct_and! | clear H ]
  end; done.

Lemma compare_equal_16_spec p c :
  (16 <= length p)%nat -> compare_equal_16 p c = Some (mask1 Z.eqb 16 p c).
Proof. intros. unfold compare_equal_16. by_int8 p p c. Qed.
Lemma compare_less_16_spec p c :
  (16 <= length p)%nat -> compare_less_16 p c = Some (mask1 Z.ltb 16 p c).
Proof. intros. unfold compare_less_16. by_int8 p p c. Qed.
Lemma compare_equal_16_pp_spec p q :
  (16 <= length p)%nat -> (16 <= length q)%nat ->
  compare_equal_16_pp p q = Some (mask2 Z.eqb 16 p q).
Proof. intros. unfold compare_equal_16_pp. by_int8 p q 0. Qed.
Lemma compare_less_16_pp_spec p q :
  (16 <= length p)%nat -> (16 <= length q)%nat ->
  compare_less_16_pp p q = Some (mask2 Z.ltb 16 p q).
Proof. intros. unfold compare_less_16_pp. by_int8 p q 0. Qed.

(** run the two recursive halves and put the mask together *)
Ltac two_halves lem combine :=
  rewrite !lem by (rewrite ?length_drop; lia); cbn [mbind option_bind]; f_equal;
  unfold mask1, mask2; apply combine; lia.

Lemma compare_equal_32_spec mode p c :
  (32 <= length p)%nat -> compare_equal_32 mode p c = Some (mask1 Z.eqb 32 p c).
Proof.
  intros. unfold compare_equal_32. destruct mode;
    [two_halves compare_equal_16_spec (halves_set1 (on_schar Z.eqb) 16)
    |by_int8 p p c
    |two_halves compare_equal_16_spec (halves_set1 (on_schar Z.eqb) 16)].
Qed.

Lemma compare_less_32_spec mode p c :
  (32 <= length p)%nat -> compare_less_32 mode p c = Some (mask1 Z.ltb 32 p c).
Proof.
  intros. unfold compare_less_32. destruct mode;
    [two_halves compare_less_16_spec (halves_set1 (on_schar Z.ltb) 16)
    |by_int8 p p c
    |two_halves compare_less_16_spec (halves_set1 (on_schar Z.ltb) 16)].
Qed.

Lemma compare_equal_32_pp_spec mode p q :
  (32 <= length p)%nat -> (32 <= length q)%nat ->
  compare_equal_32_pp mode p q = Some (mask2 Z.eqb 32 p q).
Proof.
  intros. unfold compare_equal_32_pp. destruct mode;
    [two_halves compare_equal_16_pp_spec (halves_take (on_schar Z.eqb) 16)
    |by_int8 p q 0
    |two_halves compare_equal_16_pp_spec (halves_take (on_schar Z.eqb) 16)].
Qed.

Lemma compare_less_32_pp_spec mode p q :
  (32 <= length p)%nat -> (32 <= length q)%nat ->
  compare_less_32_pp mode p q = Some (mask2 Z.ltb 32 p q).
Proof.
  intros. unfold compare_less_32_pp. destruct mode;
    [two_halves compare_less_16_pp_spec (halves_take (on_schar Z.ltb) 16)
    |by_int8 p q 0
    |two_halves compare_less_16_pp_spec (halves_take (on_schar Z.ltb) 16)].
Qed.

Lemma compare_equal_64_spec mode p c :
  (64 <= length p)%nat -> compare_equal_64 mode p c = Some (mask1 Z.eqb 64 p c).
Proof.
  intros. unfold compare_equal_64. destruct mode;
    [by_int8 p p c
    |two_halves compare_equal_32_spec (halves_set1 (on_schar Z.eqb) 32)
    |two_halves compare_equal_32_spec (halves_set1 (on_schar Z.eqb) 32)].
Qed.

Lemma compare_less_64_spec mode p c :
  (64 <= length p)%nat -> compare_less_64 mode p c = Some (mask1 Z.ltb 64 p c).
Proof.
  intros. unfold compare_less_64. destruct mode;
    [by_int8 p p c
    |two_halves compare_less_32_spec (halves_set1 (on_schar Z.ltb) 32)
    |two_halves compare_less_32_spec (halves_set1 (on_schar Z.ltb) 32)].
Qed.

(** C39: Whatever [Config::kCmpMode] is, the 64-lane comparisons return the mask whose
    bit [i] is the scalar (signed) comparison of the [i]-th bytes. *)
Theorem compare_64_mode_independent mode p q c :
  (64 <= length p)%nat -> (64 <= length q)%nat ->
  compare_equal_64 mode p c = Some (mask1 Z.eqb 64 p c)
  /\ compare_less_64 mode p c = Some (mask1 Z.ltb 64 p c)
  /\ compare_equal_64_pp mode p q = Some (mask2 Z.eqb 64 p q)
  /\ compare_less_64_pp mode p q = Some (mask2 Z.ltb 64 p q).
Proof.
  intros. split_and!; [by apply compare_equal_64_spec|by apply compare_less_64_spec| |].
  - unfold compare_equal_64_pp. destruct mode;
      [by_int8 p q 0
      |two_halves compare_equal_32_pp_spec (halves_take (on_schar Z.eqb) 32)
      |two_halves compare_equal_32_pp_spec (halves_take (on_schar Z.eqb) 32)].
  - unfold compare_less_64_pp. destruct mode;
      [by_int8 p q 0
      |two_halves compare_less_32_pp_spec (halves_take (on_schar Z.ltb) 32)
      |two_halves compare_less_32_pp_spec (halves_take (on_schar Z.ltb) 32)].
Qed.

Lemma uint8_compare_spec_witness :
  cmplt_uint8_simd128 (replicate 64 200) 201 = Some (bytemask Z.ltb (replicate 16 200) (replicate 16 201)).
Proof.
  assert (forall k b, is_byte b -> Forall is_byte (replicate k b)) as Hb by (intros; by apply Forall_replicate).
  apply (uint8_compare_spec (replicate 64 200) (replicate 64 0) 201).
  - apply Hb. split; reflexivity || discriminate.
  - apply Hb. split; reflexivity || discriminate.
  - split; reflexivity || discriminate.
  - cbn. lia.
  - cbn. lia.
Defined.

Lemma compare_64_mode_independent_witness :
  compare_less_64 SIMD256 (replicate 64 200) 5 = Some (mask1 Z.ltb 64 (replicate 64 200) 5).
Proof.
  apply (compare_64_mode_independent SIMD256 (replicate 64 200) (replicate 64 0) 5); cbn; lia.
Defined.
