(* ===== verification/Strings.v ===== *)
(** * Byte strings: [src/util/strutil.h] and [src/util/type.h]

    Lexicographic comparison, common prefixes, splitting, the variable-length
    [String] and the [KVPair] layouts. A [char*] is the list of (unsigned) bytes
    found from the pointer on; reading past it is undefined. *)

From S2P Require Import Prelude.

(** ** Lexicographic order on lists of integers *)

Fixpoint lex_cmp (l1 l2 : list Z) : comparison :=
  match l1, l2 with
  | [], [] => Eq
  | [], _ :: _ => Lt
  | _ :: _, [] => Gt
  | a :: l1, b :: l2 =>
      match a ?= b with Eq => lex_cmp l1 l2 | c => c end
  end.

Definition lex_lt (l1 l2 : list Z) : Prop := lex_cmp l1 l2 = Lt.
Definition lex_le (l1 l2 : list Z) : Prop := lex_cmp l1 l2 <> Gt.

(** the [int] that [memcmp]-like functions return for a comparison *)
Definition int_of_cmp (c : comparison) : Z :=
  match c with Lt => -1 | Eq => 0 | Gt => 1 end.

Lemma lex_cmp_refl l : lex_cmp l l = Eq.
Proof. induction l as [|a l IH]; cbn; [done|]. by rewrite Z.compare_refl. Qed.

Lemma lex_cmp_eq l1 l2 : lex_cmp l1 l2 = Eq <-> l1 = l2.
Proof.
  split; [|intros ->; apply lex_cmp_refl].
  revert l2. induction l1 as [|a l1 IH]; intros [|b l2]; cbn; try done.
  destruct (Z.compare_spec a b); try done. intros. subst. f_equal. auto.
Qed.

Lemma lex_cmp_antisym l1 l2 : lex_cmp l2 l1 = CompOpp (lex_cmp l1 l2).
Proof.
  revert l2. induction l1 as [|a l1 IH]; intros [|b l2]; cbn; try done.
  rewrite (Z.compare_antisym a b). by destruct (a ?= b); cbn.
Qed.

Lemma lex_lt_trans l1 l2 l3 : lex_lt l1 l2 -> lex_lt l2 l3 -> lex_lt l1 l3.
Proof.
  unfold lex_lt. revert l2 l3. induction l1 as [|a l1 IH]; intros [|b l2] [|c l3]; cbn; try done.
  destruct (Z.compare_spec a b), (Z.compare_spec b c); try done; intros; subst.
  - rewrite Z.compare_refl. eauto.
  - by rewrite (proj2 (Z.compare_lt_iff _ _)).
  - by rewrite (proj2 (Z.compare_lt_iff _ _)).
  - by rewrite (proj2 (Z.compare_lt_iff a c)) by lia.
Qed.

Lemma lex_lt_irrefl l : ~ lex_lt l l.
Proof. unfold lex_lt. by rewrite lex_cmp_refl. Qed.

Lemma lex_trichotomy l1 l2 : lex_lt l1 l2 \/ l1 = l2 \/ lex_lt l2 l1.
Proof.
  unfold lex_lt. destruct (lex_cmp l1 l2) eqn:E; [right; left|by left|right; right].
  - by apply lex_cmp_eq.
  - by rewrite lex_cmp_antisym, E.
Qed.

#[export] Instance lex_lt_dec l1 l2 : Decision (lex_lt l1 l2).
Proof. unfold lex_lt. destruct (lex_cmp l1 l2); [right|left|right]; done. Defined.

#[export] Instance lex_lt_strict : StrictOrder lex_lt.
Proof. split; [intros l; apply lex_lt_irrefl|intros ???; apply lex_lt_trans]. Qed.

Lemma lex_le_lt_or_eq l1 l2 : lex_le l1 l2 <-> lex_lt l1 l2 \/ l1 = l2.
Proof.
  unfold lex_le, lex_lt. rewrite <- lex_cmp_eq. destruct (lex_cmp l1 l2); naive_solver.
Qed.

Lemma lex_not_lt l1 l2 : ~ lex_lt l1 l2 <-> lex_le l2 l1.
Proof.
  unfold lex_le, lex_lt. rewrite (lex_cmp_antisym l1 l2). destruct (lex_cmp l1 l2); naive_solver.
Qed.

(** a shared prefix does not influence the order *)
Lemma lex_cmp_app l l1 l2 : lex_cmp (l ++ l1) (l ++ l2) = lex_cmp l1 l2.
Proof. induction l as [|a l IH]; cbn; [done|]. by rewrite Z.compare_refl. Qed.

(** the first difference decides *)
Lemma lex_cmp_diff l a1 a2 l1 l2 :
  a1 <> a2 -> lex_cmp (l ++ a1 :: l1) (l ++ a2 :: l2) = (a1 ?= a2).
Proof.
  intros. rewrite lex_cmp_app. cbn. destruct (Z.compare_spec a1 a2); done.
Qed.

(** ** [strutil.h] *)

(** [std::memcmp(s1, s2, n)]: undefined if fewer than [n] bytes are readable *)
Definition memcmp (s1 s2 : list Z) (n : nat) : option Z :=
  if decide (n <= length s1 /\ n <= length s2)%nat
  then Some (int_of_cmp (lex_cmp (take n s1) (take n s2))) else None.

(** util/strutil.h:23-31 [compare] *)
Definition compare (s1 : list Z) (n1 : nat) (s2 : list Z) (n2 : nat) : option Z :=
  let len := (n1 `min` n2)%nat in
  let* r := memcmp s1 s2 len in
  if r =? 0 then
    if decide (n1 < n2)%nat then Some (-1)
    else if decide (n2 < n1)%nat then Some 1
    else Some r
  else Some r.

(** util/strutil.h:38-39 [common_prefix] *)
Fixpoint cp_loop (s1 s2 : list Z) (fuel idx : nat) : option nat :=
  match fuel with
  | O => Some idx
  | S fuel =>
      let* a := s1 !! idx in
      let* b := s2 !! idx in
      if negb (a =? b) then Some idx else cp_loop s1 s2 fuel (S idx)
  end.

(** util/strutil.h:36-41 [common_prefix] *)
Definition common_prefix (s1 : list Z) (n1 : nat) (s2 : list Z) (n2 : nat) : option nat :=
  cp_loop s1 s2 (n1 `min` n2) 0.

(** [std::getline(input, sub, delim)] until it fails, over the stream contents:
    the pieces between delimiters; a delimiter at the very end opens no piece *)
Fixpoint getlines (delim : Z) (cur str : list Z) : list (list Z) :=
  match str with
  | [] => match cur with [] => [] | _ => [rev cur] end
  | c :: str =>
      if c =? delim then rev cur :: getlines delim [] str
      else getlines delim (c :: cur) str
  end.

(** util/strutil.h:46-66 [string_split] *)
Definition string_split (str : list Z) (delim : Z) : list (list Z) := getlines delim [] str.

(** ** [type.h] *)

(** util/type.h:21-25 [String] *)
Record String := mkString { len : Z; str : list Z }.

(** util/type.h:27-37 [String::make_string] *)
Definition make_string (s : list Z) (n : Z) : option String :=
  assert* (0 <=? n) && (n <=? Z.of_nat (length s)) in
  Some (mkString n (take (Z.to_nat n) s)).

Definition String_compare (a b : String) : option Z :=
  compare (str a) (Z.to_nat (len a)) (str b) (Z.to_nat (len b)).

(** util/type.h:39-41 [String::operator<] *)
Definition String_lt (a k : String) : option bool :=
  let* r := String_compare a k in Some (r <? 0).

(** util/type.h:43-45 [String::operator>] *)
Definition String_gt (a k : String) : option bool :=
  let* r := String_compare a k in Some (0 <? r).

(** util/type.h:47-50 [String::operator==] *)
Definition String_eq (a k : String) : option bool :=
  if negb (len a =? len k) then Some false
  else let* r := String_compare a k in Some (r =? 0).

(** util/type.h:52-55 [String::operator!=] *)
Definition String_ne (a k : String) : option bool :=
  if negb (len a =? len k) then Some true
  else let* r := String_compare a k in Some (negb (r =? 0)).

(** util/type.h:58-62 [KVPair<K,V>] *)
Record KVPair (K V : Type) := mkKV { key : K; value : V }.
Arguments mkKV {K V}.
Arguments key {K V}.
Arguments value {K V}.

(** util/type.h:64-83 [KVPair<K,RowValue>::make_kv] *)
Record RowKV (K : Type) := mkRowKV { rkey : K; rvlen : Z; rvalue : list Z }.
Arguments mkRowKV {K}.
Arguments rkey {K}.
Arguments rvlen {K}.
Arguments rvalue {K}.

(** util/type.h:72-82 [KVPair<K,RowValue>::make_kv] *)
Definition make_row_kv {K} (k : K) (v : list Z) (vlen : Z) : option (RowKV K) :=
  assert* (0 <=? vlen) && (vlen <=? Z.of_nat (length v)) in
  Some (mkRowKV k vlen (take (Z.to_nat vlen) v)).

(** util/type.h:85-115 [KVPair<String,V>::make_kv] *)
Definition make_kv {V} (k : list Z) (klen : Z) (v : V) : option (KVPair String V) :=
  let* s := make_string k klen in Some (mkKV s v).

(** util/type.h:117-128 [KVPair<String,RowValue>] *)
Record StrRowKV := mkStrRowKV { svlen : Z; sklen : Z; skv : list Z }.

(** util/type.h:130-142 [KVPair<String,RowValue>::make_kv] *)
Definition make_str_row_kv (k : list Z) (klen : Z) (v : list Z) (vlen : Z) : option StrRowKV :=
  assert* (0 <=? klen) && (klen <=? Z.of_nat (length k)) in
  assert* (0 <=? vlen) && (vlen <=? Z.of_nat (length v)) in
  Some (mkStrRowKV vlen klen (take (Z.to_nat klen) k ++ take (Z.to_nat vlen) v)).

(** the [key] member of the union: the same bytes seen as a [String] *)
Definition str_row_key (kv : StrRowKV) : String :=
  mkString (sklen kv) (take (Z.to_nat (sklen kv)) (skv kv)).

(** ** Theorems *)

Definition str_ok (s : String) : Prop := len s = Z.of_nat (length (str s)).

Lemma lex_cmp_length_tie l1 l2 :
  lex_cmp l1 l2 =
    match lex_cmp (take (length l1 `min` length l2) l1) (take (length l1 `min` length l2) l2) with
    | Eq => (Z.of_nat (length l1) ?= Z.of_nat (length l2))
    | c => c
    end.
Proof.
  revert l2. induction l1 as [|a l1 IH]; intros [|b l2]; cbn [length Nat.min take lex_cmp]; try done.
  destruct (a ?= b); [|done..]. rewrite IH. destruct (lex_cmp (take _ l1) _); [|done..].
  rewrite !Nat2Z.inj_succ.
  destruct (Z.compare_spec (Z.succ (Z.of_nat (length l1))) (Z.succ (Z.of_nat (length l2)))),
    (Z.compare_spec (Z.of_nat (length l1)) (Z.of_nat (length l2))); first [done|lia].
Qed.

(** [compare] is the lexicographic order of the two byte ranges *)
Lemma compare_lexicographic s1 n1 s2 n2 :
  (n1 <= length s1)%nat -> (n2 <= length s2)%nat ->
  compare s1 n1 s2 n2 = Some (int_of_cmp (lex_cmp (take n1 s1) (take n2 s2))).
Proof.
  intros H1 H2. unfold compare, memcmp.
  rewrite decide_True by lia. cbn [mbind option_bind].
  rewrite (lex_cmp_length_tie (take n1 s1) (take n2 s2)).
  rewrite !length_take, (Nat.min_l n1 (length s1)), (Nat.min_l n2 (length s2)) by done.
  rewrite !take_take, (Nat.min_l (n1 `min` n2) n1), (Nat.min_l (n1 `min` n2) n2) by lia.
  destruct (lex_cmp (take _ s1) _); cbn; [|done..].
  destruct (Z.compare_spec (Z.of_nat n1) (Z.of_nat n2)); cbn; repeat case_decide; try lia; done.
Qed.

Lemma String_compare_ok a b :
  str_ok a -> str_ok b -> String_compare a b = Some (int_of_cmp (lex_cmp (str a) (str b))).
Proof.
  unfold str_ok, String_compare. intros -> ->. rewrite !Nat2Z.id.
  rewrite compare_lexicographic by done. by rewrite !take_ge by done.
Qed.

(** The four comparison operators of [String] decide the lexicographic order and
    equality of the contents. *)
Theorem String_operators a b :
  str_ok a -> str_ok b ->
  String_lt a b = Some (bool_decide (lex_lt (str a) (str b)))
  /\ String_gt a b = Some (bool_decide (lex_lt (str b) (str a)))
  /\ String_eq a b = Some (bool_decide (str a = str b))
  /\ String_ne a b = Some (bool_decide (str a <> str b)).
Proof.
  intros Ha Hb. unfold String_lt, String_gt, String_eq, String_ne.
  rewrite String_compare_ok by done. cbn [mbind option_bind].
  pose proof (lex_cmp_antisym (str a) (str b)) as Hs.
  destruct (lex_cmp_eq (str a) (str b)) as [Heq Hcmp].
  assert (str a = str b -> len a = len b) by (unfold str_ok in *; congruence).
  destruct (len a =? len b) eqn:El; bool_to_prop; cbn [negb];
    destruct (lex_cmp (str a) (str b)) eqn:E; cbn in *;
    split_and!; f_equal; try case_bool_decide; unfold lex_lt in *;
    first [done | congruence | exfalso; auto].
Qed.

Lemma cp_loop_spec s1 s2 fuel idx :
  (idx + fuel <= length s1)%nat -> (idx + fuel <= length s2)%nat ->
  take idx s1 = take idx s2 ->
  exists r, cp_loop s1 s2 fuel idx = Some r /\ (idx <= r <= idx + fuel)%nat
    /\ take r s1 = take r s2
    /\ ((r < idx + fuel)%nat -> s1 !! r <> s2 !! r).
Proof.
  revert idx. induction fuel as [|fuel IH]; intros idx H1 H2 Heq; cbn [cp_loop].
  - exists idx. split_and!; [done|lia|lia|done|lia].
  - destruct (lookup_lt_is_Some_2 s1 idx) as [a Ha]; [lia|].
    destruct (lookup_lt_is_Some_2 s2 idx) as [b Hb]; [lia|].
    rewrite Ha, Hb. cbn [mbind option_bind]. destruct (a =? b) eqn:E; cbn [negb].
    + apply Z.eqb_eq in E as ->. destruct (IH (S idx)) as (r & Hr & ? & ? & Hd); [lia|lia| |].
      { by rewrite !(take_S_r _ _ b), Heq by done. }
      exists r. split_and!; [done|lia|lia|done|]. intros. apply Hd. lia.
    + apply Z.eqb_neq in E. exists idx. split_and!; [done|lia|lia|done|].
      intros _ Hd. rewrite Ha, Hb in Hd. congruence.
Qed.

(** [common_prefix] returns the length of the longest common prefix of the two ranges. *)
Theorem common_prefix_longest s1 n1 s2 n2 :
  (n1 <= length s1)%nat -> (n2 <= length s2)%nat ->
  exists r, common_prefix s1 n1 s2 n2 = Some r /\ (r <= n1)%nat /\ (r <= n2)%nat
    /\ take r s1 = take r s2
    /\ (r < n1 -> r < n2 -> s1 !! r <> s2 !! r)%nat.
Proof.
  intros H1 H2. destruct (cp_loop_spec s1 s2 (n1 `min` n2) 0) as (r & Hr & ? & ? & Hd);
    [lia|lia|done|].
  exists r. split_and!; [exact Hr|lia|lia|done|]. intros. apply Hd. lia.
Qed.

(** the inverse of splitting: the pieces with a delimiter between them *)
Fixpoint join (delim : Z) (ps : list (list Z)) : list Z :=
  match ps with
  | [] => []
  | [p] => p
  | p :: ps => p ++ delim :: join delim ps
  end.

Lemma getlines_piece delim cur p s :
  delim ∉ p -> getlines delim cur (p ++ s) = getlines delim (rev p ++ cur) s.
Proof.
  revert cur. induction p as [|c p IH]; intros cur Hd; cbn; [done|].
  rewrite not_elem_of_cons in Hd. destruct Hd as [Hc Hd].
  bfalse (c =? delim). rewrite IH by done. by rewrite <- (assoc_L (++)).
Qed.

(** Splitting the pieces joined by a delimiter gives them back (when the last one
    is not empty: [getline] reports no piece after a final delimiter). *)
Theorem string_split_join delim ps :
  Forall (fun p => delim ∉ p) ps -> last ps <> Some [] ->
  string_split (join delim ps) delim = ps.
Proof.
  unfold string_split. induction ps as [|p ps IH]; intros Hd Hl; [done|].
  inversion Hd as [|? ? Hp Hps]; subst. destruct ps as [|q ps].
  - cbn [join]. rewrite <- (app_nil_r p) at 1. rewrite getlines_piece, app_nil_r by done.
    cbn. rewrite rev_involutive. destruct (rev p) eqn:E; [|done].
    apply (f_equal (@rev Z)) in E. rewrite rev_involutive in E. by subst.
  - change (join delim (p :: q :: ps)) with (p ++ delim :: join delim (q :: ps)).
    rewrite getlines_piece, app_nil_r by done. cbn [getlines]. btrue (delim =? delim).
    rewrite rev_involutive. f_equal. by apply IH.
Qed.

(** [make_string] keeps exactly the [n] first bytes; a [KVPair<String,V>] built by
    [make_kv] has that key and the given value; the union layout of
    [KVPair<String,RowValue>] reads its key back. *)
Theorem make_kv_roundtrip {V} k n (v : V) row vlen :
  0 <= n <= Z.of_nat (length k) -> 0 <= vlen <= Z.of_nat (length row) ->
  (exists kv, make_kv k n v = Some kv /\ str_ok (key kv) /\ str (key kv) = take (Z.to_nat n) k
     /\ value kv = v)
  /\ (exists kv, make_str_row_kv k n row vlen = Some kv /\ str_ok (str_row_key kv)
     /\ str (str_row_key kv) = take (Z.to_nat n) k
     /\ drop (Z.to_nat (sklen kv)) (skv kv) = take (Z.to_nat vlen) row).
Proof.
  intros Hn Hv. split.
  - unfold make_kv, make_string. btrue ((0 <=? n) && (n <=? _)). cbn. eexists; split; [done|].
    unfold str_ok. cbn. rewrite length_take. split_and!; [lia|done|done].
  - unfold make_str_row_kv. btrue ((0 <=? n) && (n <=? _)). btrue ((0 <=? vlen) && (vlen <=? _)).
    cbn [asserting]. eexists; split; [done|]. unfold str_ok, str_row_key. cbn.
    rewrite take_app_length', drop_app_length' by (rewrite length_take; lia).
    rewrite length_take. split_and!; [lia|done|done].
Qed.

(** ** The properties at concrete strings *)

Lemma String_operators_witness :
  String_lt (mkString 2 [97; 98]) (mkString 2 [97; 200]) = Some true
  /\ String_eq (mkString 2 [97; 98]) (mkString 2 [97; 200]) = Some false.
Proof.
  destruct (String_operators (mkString 2 [97; 98]) (mkString 2 [97; 200])) as (H1 & _ & H2 & _);
    [reflexivity|reflexivity|].
  split; [exact H1|exact H2].
Defined.

Lemma common_prefix_longest_witness :
  exists r, common_prefix [1; 2; 3; 4] 3 [1; 2; 9] 3 = Some r /\ (r <= 3)%nat.
Proof.
  destruct (common_prefix_longest [1; 2; 3; 4] 3 [1; 2; 9] 3) as (r & H & Hr & _); [cbn; lia|cbn; lia|].
  exists r. split; [exact H|exact Hr].
Defined.

Lemma string_split_join_witness : string_split [97; 44; 98; 99] 44 = [[97]; [98; 99]].
Proof.
  apply (string_split_join 44 [[97]; [98; 99]]); [|discriminate].
  repeat apply Forall_cons_2; try apply Forall_nil_2; rewrite ?not_elem_of_cons;
    repeat split; try discriminate; apply not_elem_of_nil.
Defined.

Lemma make_kv_roundtrip_witness :
  exists kv, make_kv [97; 98; 99] 2 7 = Some kv /\ str (key kv) = [97; 98] /\ value kv = 7.
Proof.
  destruct (make_kv_roundtrip [97; 98; 99] 2 7 [1; 2] 2) as [(kv & E & _ & H1 & H2) _];
    [cbn; lia|cbn; lia|].
  exists kv. split; [exact E|]. split; [exact H1|exact H2].
Defined.
