(* ===== verification/Encode.v ===== *)
(** * Key encoding: [src/FBTree/constant.h]

    Integer keys are re-encoded so that the inner nodes can compare them byte by
    byte with signed SIMD comparisons: shift a signed type to unsigned, swap to
    big-endian, add 128 to every byte. [ktype] ranges over the integer types
    [Constant<K>] is specialised for with a [convert]; [float] and [double] have
    none, so [encode_convert] does not exist for them. *)

From S2P Require Import Prelude Bits Simd Strings.

(** the key types [K] *)
Inductive ktype := KU64 | KI64 | KU32 | KI32.

Definition ksize (T : ktype) : nat :=
  match T with KU64 | KI64 => 8 | KU32 | KI32 => 4 end.

Definition kbits (T : ktype) : Z := 8 * Z.of_nat (ksize T).

Definition ksigned (T : ktype) : bool :=
  match T with KI64 | KI32 => true | _ => false end.

(** the values of a key type *)
Definition in_range (T : ktype) (k : Z) : Prop :=
  if ksigned T then - 2 ^ (kbits T - 1) <= k < 2 ^ (kbits T - 1) else 0 <= k < 2 ^ kbits T.

(** conversion of an integer to the type, and the memory image of a value *)
Definition to_type (T : ktype) (z : Z) : Z :=
  if ksigned T then swrap (kbits T) z else wrap (kbits T) z.
Definition key_bytes (T : ktype) (k : Z) : list Z := to_bytes (ksize T) (wrap (kbits T) k).

(** ** The parameters of the nodes *)

(** FBTree/constant.h:25-97 [Constant] *)
Record Constants := mkConstants {
  kInnerSize : Z; kLeafSize : Z; kInnerMergeSize : Z; kLeafMergeSize : Z; kFeatureSize : nat }.

(** FBTree/config.h:30-58 [Config] *)
Definition Config_kCmpMode : CompareMode := SIMD256.
Definition Config_kNodeSize : Z := 64.
Definition Config_kFeatureSize : nat := 4.

(** FBTree/constant.h:36-97 [Constant] *)
Definition Constant_of (T : ktype) : Constants :=
  {| kInnerSize := Config_kNodeSize; kLeafSize := Config_kNodeSize;
     kInnerMergeSize := Config_kNodeSize / 2; kLeafMergeSize := Config_kNodeSize / 2;
     kFeatureSize := ksize T |}.

(** FBTree/constant.h:25-34 [Constant<String>] *)
Definition Constant_String : Constants :=
  {| kInnerSize := Config_kNodeSize; kLeafSize := Config_kNodeSize;
     kInnerMergeSize := Config_kNodeSize / 2; kLeafMergeSize := Config_kNodeSize / 2;
     kFeatureSize := Config_kFeatureSize |}.

(** FBTree/constant.h:46-97 [Constant::convert]

    [numeric_limits<K>::max() + 1 + key] for a signed [K]: the addition overflows
    (undefined in C++; GCC wraps on x86-64, which is what is modelled). *)
Definition convert (T : ktype) (key : Z) : Z :=
  if ksigned T then to_type T ((2 ^ (kbits T - 1) - 1) + 1 + key) else key.

(** FBTree/constant.h:186-188 [encode_convert]

    the loop adding 128 to every byte of the key in memory *)
Definition flip_bytes (T : ktype) (key : Z) : Z :=
  to_type T (of_bytes (map (fun b => w8 (b + 128)) (key_bytes T key))).

(** FBTree/constant.h:179-191 [encode_convert] *)
Definition encode_convert (T : ktype) (key : Z) : Z :=
  let key := convert T key in
  let key := to_type T (byte_swap (ksize T) (wrap (kbits T) key)) in
  flip_bytes T key.

(** FBTree/constant.h:193-203 [encode_reconvert] *)
Definition encode_reconvert (T : ktype) (key : Z) : Z :=
  let key := flip_bytes T key in
  let key := to_type T (byte_swap (ksize T) (wrap (kbits T) key)) in
  convert T key.

(** ** Lemmas *)

Lemma kbits_pos T : 8 <= kbits T.
Proof. destruct T; cbv; done. Qed.

Lemma wrap_to_type T z : wrap (kbits T) (to_type T z) = wrap (kbits T) z.
Proof.
  pose proof (kbits_pos T). unfold to_type. destruct (ksigned T); [|apply wrap_wrap; lia].
  unfold swrap. destruct (_ <? _); [apply wrap_wrap; lia|].
  unfold wrap. replace (z mod 2 ^ kbits T - 2 ^ kbits T) with (z mod 2 ^ kbits T + (-1) * 2 ^ kbits T) by lia.
  by rewrite Z_mod_plus_full, Zmod_mod.
Qed.

Lemma half_range T : 2 ^ kbits T = 2 * 2 ^ (kbits T - 1).
Proof. pose proof (kbits_pos T). rewrite <- Z.pow_succ_r by lia. f_equal. lia. Qed.

Lemma to_type_id T k : in_range T k -> to_type T k = k.
Proof.
  pose proof (kbits_pos T). pose proof (half_range T). unfold in_range, to_type.
  destruct (ksigned T); intros; [|by apply wrap_small].
  unfold swrap, wrap. destruct (decide (0 <= k)).
  - rewrite Z.mod_small by lia. btrue (k <? _). done.
  - replace k with (k + 2 ^ kbits T + (-1) * 2 ^ kbits T) by lia.
    rewrite Z_mod_plus_full, Z.mod_small by lia. bfalse (k + _ <? _). lia.
Qed.

Lemma to_type_of_wrap T z : to_type T (wrap (kbits T) z) = to_type T z.
Proof.
  pose proof (kbits_pos T). unfold to_type, swrap. cbv zeta. by rewrite wrap_wrap by lia.
Qed.

Lemma to_type_wrap T k : in_range T k -> to_type T (wrap (kbits T) k) = k.
Proof.
  intros Hk. rewrite to_type_of_wrap. by apply to_type_id.
Qed.

Lemma length_key_bytes T k : length (key_bytes T k) = ksize T.
Proof. apply length_to_bytes. Qed.

Lemma key_bytes_bytes T k : Forall is_byte (key_bytes T k).
Proof. apply to_bytes_are_bytes. Qed.

Lemma key_bytes_to_type_of_bytes T l :
  length l = ksize T -> Forall is_byte l -> key_bytes T (to_type T (of_bytes l)) = l.
Proof.
  intros Hl Hb. unfold key_bytes. rewrite wrap_to_type, wrap_small.
  - rewrite <- Hl. by apply to_of_bytes.
  - unfold kbits. rewrite <- Hl. by apply of_bytes_bounds.
Qed.

Lemma to_type_of_key_bytes T k : in_range T k -> to_type T (of_bytes (key_bytes T k)) = k.
Proof.
  intros. unfold key_bytes. rewrite of_to_bytes.
  fold (kbits T). unfold wrap. rewrite Zmod_mod. by apply to_type_wrap.
Qed.

Definition flip (b : Z) : Z := w8 (b + 128).

Lemma flip_byte b : is_byte (flip b).
Proof. unfold is_byte. apply wrap_bounds. lia. Qed.

Lemma flip_flip b : is_byte b -> flip (flip b) = b.
Proof.
  intros Hb. unfold flip. rewrite <- (w8_byte b) at 2 by done. unfold wrap.
  rewrite Zplus_mod_idemp_l. replace (b + 128 + 128) with (b + 1 * 2 ^ 8) by lia.
  by rewrite Z_mod_plus_full.
Qed.

Lemma map_flip_bytes l : Forall is_byte (map flip l).
Proof. apply Forall_forall. intros b Hb. apply list_elem_of_fmap in Hb as (a & -> & _). apply flip_byte. Qed.

Lemma map_flip_flip l : Forall is_byte l -> map flip (map flip l) = l.
Proof. induction 1; cbn; [done|]. by rewrite flip_flip, IHForall. Qed.

Lemma key_bytes_flip T k : key_bytes T (flip_bytes T k) = map flip (key_bytes T k).
Proof.
  unfold flip_bytes. apply key_bytes_to_type_of_bytes; [|apply map_flip_bytes].
  by rewrite length_map, length_key_bytes.
Qed.

Lemma to_type_in_range T z : in_range T (to_type T z).
Proof.
  pose proof (kbits_pos T). pose proof (half_range T). unfold in_range, to_type.
  pose proof (wrap_bounds (kbits T) z).
  destruct (ksigned T); [|lia]. unfold swrap. destruct (_ <? _) eqn:E; blia.
Qed.

Lemma key_bytes_bswap T k :
  key_bytes T (to_type T (byte_swap (ksize T) (wrap (kbits T) k))) = rev (key_bytes T k).
Proof.
  unfold key_bytes at 1. rewrite wrap_to_type, wrap_small by apply byte_swap_bounds.
  apply byte_swap_bytes.
Qed.

(** the image of an encoded key: big-endian, every byte shifted by 128 *)
Lemma encode_convert_bytes T k :
  key_bytes T (encode_convert T k) = map flip (rev (key_bytes T (convert T k))).
Proof. unfold encode_convert. by rewrite key_bytes_flip, key_bytes_bswap. Qed.

Lemma encode_convert_in_range T k : in_range T (encode_convert T k).
Proof. apply to_type_in_range. Qed.

Lemma key_bytes_inj T k1 k2 :
  in_range T k1 -> in_range T k2 -> key_bytes T k1 = key_bytes T k2 -> k1 = k2.
Proof.
  intros H1 H2 Hb. rewrite <- (to_type_of_key_bytes T k1), <- (to_type_of_key_bytes T k2) by done.
  by rewrite Hb.
Qed.

(** the offset that makes the order of the type the order of unsigned integers *)
Definition koffset (T : ktype) : Z := if ksigned T then 2 ^ (kbits T - 1) else 0.

Lemma convert_bits T k :
  in_range T k ->
  wrap (kbits T) (convert T k) = k + koffset T /\ 0 <= k + koffset T < 2 ^ kbits T.
Proof.
  pose proof (kbits_pos T). pose proof (half_range T). unfold in_range, convert, koffset.
  destruct (ksigned T) eqn:E; intros Hk.
  - rewrite wrap_to_type. split; [|lia]. rewrite wrap_small by lia. lia.
  - rewrite wrap_small by lia. lia.
Qed.

Lemma convert_convert T k : in_range T k -> convert T (convert T k) = k.
Proof.
  intros Hk. pose proof (convert_bits T k Hk) as [Hb _]. pose proof (kbits_pos T).
  pose proof (half_range T) as Hh.
  unfold convert in *. destruct (ksigned T) eqn:E; [|done].
  rewrite <- (to_type_wrap T k) at 2 by done. unfold koffset in Hb. rewrite E in Hb.
  rewrite <- (to_type_of_wrap T (_ + to_type T _)). f_equal. unfold wrap in *.
  rewrite <- Zplus_mod_idemp_r, Hb.
  replace (2 ^ (kbits T - 1) - 1 + 1 + (k + 2 ^ (kbits T - 1))) with (k + 1 * 2 ^ kbits T) by lia.
  by rewrite Z_mod_plus_full.
Qed.

Lemma encode_reconvert_convert T k :
  in_range T k -> encode_reconvert T (encode_convert T k) = k.
Proof.
  intros Hk. unfold encode_reconvert.
  assert (convert T k = to_type T (byte_swap (ksize T)
            (wrap (kbits T) (flip_bytes T (encode_convert T k))))) as <-.
  { apply (key_bytes_inj T).
    - unfold convert. destruct (ksigned T); [apply to_type_in_range|done].
    - apply to_type_in_range.
    - rewrite key_bytes_bswap, key_bytes_flip, encode_convert_bytes.
      rewrite map_flip_flip, rev_involutive; [done|]. apply rev_bytes, key_bytes_bytes. }
  by apply convert_convert.
Qed.

(** ** The order of encoded keys *)

Lemma lex_cmp_snoc l1 l2 x y :
  length l1 = length l2 ->
  lex_cmp (l1 ++ [x]) (l2 ++ [y]) = match lex_cmp l1 l2 with Eq => x ?= y | c => c end.
Proof.
  revert l2. induction l1 as [|a l1 IH]; intros [|b l2] Hl; try done; cbn.
  - by destruct (x ?= y).
  - destruct (a ?= b); [|done..]. apply IH. cbn in Hl. lia.
Qed.

(** big-endian byte strings of the same length are ordered like the numbers *)
Lemma lex_cmp_big_endian n a b :
  0 <= a < 2 ^ (8 * Z.of_nat n) -> 0 <= b < 2 ^ (8 * Z.of_nat n) ->
  lex_cmp (rev (to_bytes n a)) (rev (to_bytes n b)) = (a ?= b).
Proof.
  revert a b. induction n as [|n IH]; intros a b Ha Hb.
  - cbn in *. replace a with b by lia. by rewrite Z.compare_refl.
  - replace (8 * Z.of_nat (S n)) with (8 * Z.of_nat n + 8) in * by lia.
    rewrite Z.pow_add_r in * by lia. change (2 ^ 8) with 256 in *.
    cbn [to_bytes rev]. rewrite lex_cmp_snoc by (by rewrite !length_rev, !length_to_bytes).
    rewrite IH by (split; [apply Z.div_pos; lia|apply Z.div_lt_upper_bound; lia]).
    pose proof (Z_div_mod_eq_full a 256). pose proof (Z_div_mod_eq_full b 256).
    pose proof (Z.mod_pos_bound a 256). pose proof (Z.mod_pos_bound b 256).
    destruct (Z.compare_spec (a / 256) (b / 256)), (Z.compare_spec (a mod 256) (b mod 256)),
      (Z.compare_spec a b); first [done|lia].
Qed.

Lemma schar_of_flip b : is_byte b -> schar (flip b) = b - 128.
Proof. apply schar_flip. Qed.

Lemma lex_cmp_flip l1 l2 :
  Forall is_byte l1 -> Forall is_byte l2 ->
  lex_cmp (map schar (map flip l1)) (map schar (map flip l2)) = lex_cmp l1 l2.
Proof.
  intros H1. revert l2. induction H1 as [|a l1 Ha _ IH]; intros l2 H2;
    destruct H2 as [|b l2 Hb H2]; cbn; try done.
  rewrite !schar_of_flip by done. rewrite (IH _ H2).
  assert ((a - 128 ?= b - 128) = (a ?= b)) as ->; [|done].
  destruct (Z.compare_spec (a - 128) (b - 128)), (Z.compare_spec a b); first [done|lia].
Qed.

(** the feature string of a key: its encoded bytes as the signed [char]s that the
    nodes compare *)
Definition features_of (T : ktype) (enc : Z) : list Z := map schar (key_bytes T enc).

Lemma encode_cmp T k1 k2 :
  in_range T k1 -> in_range T k2 ->
  lex_cmp (features_of T (encode_convert T k1)) (features_of T (encode_convert T k2)) = (k1 ?= k2).
Proof.
  intros H1 H2. unfold features_of. rewrite !encode_convert_bytes.
  rewrite lex_cmp_flip by (apply rev_bytes, key_bytes_bytes).
  unfold key_bytes. destruct (convert_bits T k1 H1) as [-> ?], (convert_bits T k2 H2) as [-> ?].
  rewrite lex_cmp_big_endian by done.
  destruct (Z.compare_spec k1 k2), (Z.compare_spec (k1 + koffset T) (k2 + koffset T)); first [done|lia].
Qed.

Lemma encode_length T enc : length (key_bytes T enc) = ksize T /\ Forall is_byte (key_bytes T enc).
Proof. split; [apply length_to_bytes|apply to_bytes_are_bytes]. Qed.

(** C38: The encoding of keys loses nothing and keeps their order: decoding an encoded
    key gives it back, and comparing the bytes of two encoded keys in memory order,
    as the signed [char]s that the nodes compare, is comparing the keys. *)
Theorem encode_correct T k1 k2 :
  in_range T k1 -> in_range T k2 ->
  encode_reconvert T (encode_convert T k1) = k1
  /\ lex_cmp (features_of T (encode_convert T k1)) (features_of T (encode_convert T k2)) = (k1 ?= k2).
Proof. intros. split; [by apply encode_reconvert_convert|by apply encode_cmp]. Qed.

Lemma encode_correct_witness :
  encode_reconvert KI32 (encode_convert KI32 (-5)) = -5
  /\ lex_cmp (features_of KI32 (encode_convert KI32 (-5))) (features_of KI32 (encode_convert KI32 7)) = Lt.
Proof. apply (encode_correct KI32 (-5) 7); vm_compute; intuition discriminate. Defined.
