(* ===== verification/Latch.v ===== *)
(** * Version latches: the protocol behind [Control], [VerLock] and [SpinLock]

    All these latches are one atomic 64-bit word: a writer sets a lock bit by
    compare-and-swap, bumps a version while (or when) it holds the latch, and a reader
    remembers the version of an unlocked word and later checks that the word is unlocked
    with the same version. [VersionLatch] has the loops of a latch as the code has them,
    on what their atomic accesses observe; the interleaving semantics runs these loops,
    one access at a time, and its two guarantees (mutual exclusion, and what a validated
    optimistic read may have missed) are proved once against the interface and
    instantiated by each latch. *)

From S2P Require Import Prelude.

(** The functions of a latch, and what they mean: [vl_rep w n l] says that [w] stands for
    [n] version bumps so far and lock state [l]. *)
Class VersionLatch := {
  vl_init : Z -> Prop;                  (** the words of a new latch *)
  vl_lock : list (Z * Z) -> option Z;   (** the locking loop: what each turn loads and what
                                            its compare-and-swap meets; the word it stores *)
  vl_bump : Z -> option Z;              (** [update_version], by the holder *)
  vl_release : bool -> Z -> option Z;   (** unlock; [true]: and advance the version *)
  vl_begin : list Z -> option Z;        (** the loop that begins a read: its loads *)
  vl_end : list Z -> Z -> option bool;  (** the loop that ends it *)
  vl_owner_op : Z -> Z -> Prop;         (** other accesses of the holder (flags) *)
  vl_any_op : Z -> Z -> Prop;           (** accesses allowed without the latch *)
  vl_locked : Z -> bool;                (** the lock bit *)
  vl_version : Z -> Z;                  (** the version of a word *)
  vl_modulus : Z;                       (** versions are counted modulo this *)
  vl_rep : Z -> Z -> bool -> Prop;
}.

(** A loop that has seen [l] and goes on ends, if it does, with what it sees next. *)
Class VersionLatchLaws (L : VersionLatch) := {
  vl_modulus_pos : 0 < vl_modulus;
  vl_rep_init w : vl_init w -> vl_rep w 0 false;
  vl_rep_locked w n l : vl_rep w n l -> vl_locked w = l;
  vl_lock_nil : vl_lock [] = None;
  vl_rep_lock turns e w w' n l :
    vl_lock turns = None -> vl_lock (turns ++ [(e, w)]) = Some w' -> vl_rep w n l ->
    l = false /\ vl_rep w' n true;
  vl_rep_bump w w' n : vl_rep w n true -> vl_bump w = Some w' -> vl_rep w' (n + 1) true;
  vl_rep_release b w w' n :
    vl_rep w n true -> vl_release b w = Some w' -> vl_rep w' (if b then n + 1 else n) false;
  vl_begin_nil : vl_begin [] = None;
  vl_rep_begin loads w v n l :
    vl_begin loads = None -> vl_begin (loads ++ [w]) = Some v -> vl_rep w n l ->
    l = false /\ v = vl_version w;
  vl_end_nil v : vl_end [] v = None;
  vl_rep_end loads w v b n l :
    vl_end loads v = None -> vl_end (loads ++ [w]) v = Some b -> vl_rep w n l ->
    l = false /\ (b = true <-> v = vl_version w);
  vl_rep_owner_op w w' n : vl_rep w n true -> vl_owner_op w w' -> vl_rep w' n true;
  vl_rep_any_op w w' n l : vl_rep w n l -> vl_any_op w w' -> vl_rep w' n l;
  vl_rep_version w w' n n' :
    vl_rep w n false -> vl_rep w' n' false -> vl_version w = vl_version w' ->
    n mod vl_modulus = n' mod vl_modulus;
}.

(** two counters less than a modulus apart are equal when they agree modulo it *)
Lemma mod_window m a b : 0 < m -> a mod m = b mod m -> b <= a -> a - b < m -> a = b.
Proof.
  intros Hm E Hle Hlt. enough (a - b = 0) by lia.
  rewrite <- (Z.mod_small (a - b) m) by lia. by rewrite Zminus_mod, E, Z.sub_diag.
Qed.

(** a loop that tries turn after turn until one succeeds, on one more turn *)
Lemma find_snoc {A} (P : A -> bool) l x :
  List.find P (l ++ [x]) = match List.find P l with Some y => Some y | None => if P x then Some x else None end.
Proof. induction l as [|y l IH]; cbn; [done|]. by destruct (P y). Qed.

Section protocol.
Context {L : VersionLatch} {HL : VersionLatchLaws L}.

(** where a thread is: in the locking loop (the turns so far; the word loaded in this
    one), in the critical section (how many writes? was the version bumped?), in the loop
    that begins a read, or in the read: the version it remembers, what the loop that ends
    it has seen, and, as ghosts, the state's counters when the read began *)
Inductive pc :=
  | PIdle
  | PLocking (turns : list (Z * Z))
  | PLoaded (turns : list (Z * Z)) (expected : Z)
  | POwner (writes : Z) (bumped : bool)
  | PBegin (loads : list Z)
  | PReading (ver : Z) (data loose count : Z) (loads : list Z).

(** the word; ghosts: [data] counts the writes of the content, [loose] those of them that
    no version tells of (without the latch, or by a holder that left the version alone),
    [count] the version bumps *)
Record lstate := mkL { word : Z; data : Z; loose : Z; count : Z; pcs : nat -> pc }.

Definition set_pc (s : lstate) (t : nat) (p : pc) : nat -> pc :=
  fun t' => if decide (t' = t) then p else pcs s t'.

(** thread [t] goes on to [p]; the rest stays *)
Definition goto (s : lstate) (t : nat) (p : pc) : lstate :=
  mkL (word s) (data s) (loose s) (count s) (set_pc s t p).

Inductive lstep : lstate -> lstate -> Prop :=
  (** the locking loop: its load, and a compare-and-swap, after which the loop of the code
      either goes on or ends. A thread may stop trying between two turns ([try_lock]) *)
  | step_lock s t :
      pcs s t = PIdle -> lstep s (goto s t (PLocking []))
  | step_load s t turns :
      pcs s t = PLocking turns -> lstep s (goto s t (PLoaded turns (word s)))
  | step_retry s t turns e :
      pcs s t = PLoaded turns e -> vl_lock (turns ++ [(e, word s)]) = None ->
      lstep s (goto s t (PLocking (turns ++ [(e, word s)])))
  | step_acquire s t turns e w' :
      pcs s t = PLoaded turns e -> vl_lock (turns ++ [(e, word s)]) = Some w' ->
      lstep s (mkL w' (data s) (loose s) (count s) (set_pc s t (POwner 0 false)))
  | step_give_up s t turns :
      pcs s t = PLocking turns -> lstep s (goto s t PIdle)
  (** the critical section *)
  | step_write s t k b :
      pcs s t = POwner k b ->
      lstep s (mkL (word s) (data s + 1) (loose s) (count s) (set_pc s t (POwner (k + 1) b)))
  | step_bump s t k b w' :
      pcs s t = POwner k b -> vl_bump (word s) = Some w' ->
      lstep s (mkL w' (data s) (loose s) (count s + 1) (set_pc s t (POwner k true)))
  | step_owner_op s t k b w' :
      pcs s t = POwner k b -> vl_owner_op (word s) w' ->
      lstep s (mkL w' (data s) (loose s) (count s) (pcs s))
  (** a holder that bumps no version makes its writes loose *)
  | step_release s t k b u w' :
      pcs s t = POwner k b -> vl_release u (word s) = Some w' ->
      lstep s (mkL w' (data s) (if b || u then loose s else loose s + k)
                 (if u then count s + 1 else count s) (set_pc s t PIdle))
  (** without the latch: writes to atomic cells, and accesses of the flags *)
  | step_store s :
      lstep s (mkL (word s) (data s + 1) (loose s + 1) (count s) (pcs s))
  | step_any_op s w' :
      vl_any_op (word s) w' ->
      lstep s (mkL w' (data s) (loose s) (count s) (pcs s))
  (** the optimistic read: the loop that begins it, and the one that ends it *)
  | step_read s t :
      pcs s t = PIdle -> lstep s (goto s t (PBegin []))
  | step_begin_wait s t loads :
      pcs s t = PBegin loads -> vl_begin (loads ++ [word s]) = None ->
      lstep s (goto s t (PBegin (loads ++ [word s])))
  | step_begin s t loads v :
      pcs s t = PBegin loads -> vl_begin (loads ++ [word s]) = Some v ->
      lstep s (goto s t (PReading v (data s) (loose s) (count s) []))
  | step_end_wait s t v d l g loads :
      pcs s t = PReading v d l g loads -> vl_end (loads ++ [word s]) v = None ->
      lstep s (goto s t (PReading v d l g (loads ++ [word s])))
  | step_end s t v d l g loads b :
      pcs s t = PReading v d l g loads -> vl_end (loads ++ [word s]) v = Some b ->
      lstep s (goto s t PIdle).

Definition linit (w : Z) : lstate := mkL w 0 0 0 (fun _ => PIdle).

Definition reachable (s : lstate) : Prop := exists w, vl_init w /\ rtc lstep (linit w) s.

Definition is_owner (p : pc) : Prop := match p with POwner _ _ => True | _ => False end.

(** ** The invariant *)

(** what the version that a reader remembers tells of the writes since *)
Definition reader_ok (s : lstate) (v d l g : Z) : Prop :=
  g <= count s /\ (exists w, vl_rep w g false /\ vl_version w = v)
  /\ (count s = g ->
        (forall t k b, pcs s t = POwner k b -> b = false /\ data s - d = loose s - l + k)
        /\ ((forall t, ~ is_owner (pcs s t)) -> data s - d = loose s - l)).

(** a loop that goes on has not ended *)
Definition loop_ok (p : pc) : Prop :=
  match p with
  | PLocking turns | PLoaded turns _ => vl_lock turns = None
  | PBegin loads => vl_begin loads = None
  | PReading v _ _ _ loads => vl_end loads v = None
  | _ => True
  end.

Record linv (s : lstate) : Prop := {
  inv_word : exists l, vl_rep (word s) (count s) l
    /\ (l = true <-> exists t, is_owner (pcs s t));
  inv_unique : forall t1 t2, is_owner (pcs s t1) -> is_owner (pcs s t2) -> t1 = t2;
  inv_reader : forall t v d l g loads, pcs s t = PReading v d l g loads -> reader_ok s v d l g;
  inv_loop : forall t, loop_ok (pcs s t);
}.

Lemma set_pc_eq s t p : set_pc s t p t = p.
Proof. unfold set_pc. by rewrite decide_True. Qed.

Lemma set_pc_ne s t t' p : t' <> t -> set_pc s t p t' = pcs s t'.
Proof. intros. unfold set_pc. by rewrite decide_False. Qed.

Lemma set_pc_cases s t p t' q :
  set_pc s t p t' = q -> (t' = t /\ p = q) \/ (t' <> t /\ pcs s t' = q).
Proof. unfold set_pc. destruct (decide (t' = t)); auto. Qed.

Lemma set_pc_loop s t p t' : linv s -> loop_ok p -> loop_ok (set_pc s t p t').
Proof. intros Hs Hp. unfold set_pc. destruct (decide (t' = t)); [done|apply Hs]. Qed.

(** who owns the latch, when the thread that moves did not and does not *)
Lemma set_pc_owner s t p t' :
  ~ is_owner (pcs s t) -> ~ is_owner p -> is_owner (set_pc s t p t') <-> is_owner (pcs s t').
Proof.
  intros Ht Hp. destruct (decide (t' = t)) as [->|]; [rewrite set_pc_eq; tauto|by rewrite set_pc_ne].
Qed.

Lemma linv_init w : vl_init w -> linv (linit w).
Proof.
  intros Hw. split; cbn; [|naive_solver..]. exists false.
  split; [by apply vl_rep_init|]. split; [done|]. by intros [t Ht].
Qed.

(** the lock bit is up exactly when a thread owns the latch *)
Lemma linv_locked s : linv s -> vl_locked (word s) = true <-> exists t, is_owner (pcs s t).
Proof. intros [[l [Hr Hl]] _ _ _]. by rewrite (vl_rep_locked _ _ _ Hr). Qed.

Lemma linv_free s n :
  linv s -> vl_rep (word s) n false -> vl_rep (word s) (count s) false /\ (forall t, ~ is_owner (pcs s t)).
Proof.
  intros Hs Hf%vl_rep_locked. pose proof (linv_locked s Hs) as Hl. destruct Hs as [[l [Hr _]] _ _ _].
  pose proof (vl_rep_locked _ _ _ Hr) as El. rewrite Hf in El, Hl. subst l. split; [done|].
  intros t Ht. assert (false = true) by (apply Hl; eauto). done.
Qed.

Lemma linv_owner s t : linv s -> is_owner (pcs s t) -> vl_rep (word s) (count s) true.
Proof.
  intros [[l [Hr Hl]] _ _ _] Ho. assert (l = true) as -> by (apply Hl; eauto). done.
Qed.

(** a step that moves thread [t] from a non-owner to a non-owner location and leaves the
    word alone *)
Lemma linv_local s t p :
  linv s -> ~ is_owner (pcs s t) -> ~ is_owner p -> loop_ok p ->
  (forall v d l g loads, p = PReading v d l g loads -> reader_ok s v d l g) ->
  linv (goto s t p).
Proof.
  intros Hs Ht Hp Hlo Hr. pose proof Hs as [[l [Hrep Hl]] Hu Hrd _].
  pose proof (fun t' => set_pc_owner s t p t' Ht Hp) as Ho. split; cbn.
  - exists l. split; [done|]. rewrite Hl. by setoid_rewrite Ho.
  - intros t1 t2. rewrite !Ho. apply Hu.
  - intros t' v d l0 g loads Hpc. assert (reader_ok s v d l0 g) as (? & ? & Hd).
    { apply set_pc_cases in Hpc as [[-> E]|[? E]]; [by eapply Hr|by eapply Hrd]. }
    split_and!; [done..|]. cbn. intros E. destruct (Hd E) as [H1 H2]. split.
    + intros t3 k b [[-> ->]|[? ?]]%set_pc_cases; [by destruct Hp|by eapply H1].
    + intros Hno. apply H2. intros t3. rewrite <- Ho. apply Hno.
  - intros t'. by apply set_pc_loop.
Qed.

(** a step of thread [t] after which [t] is the owner *)
Lemma linv_becomes_owner s t k b w' d' c' :
  linv s -> (forall t', is_owner (pcs s t') -> t' = t) -> vl_rep w' c' true ->
  count s <= c' ->
  (forall v d l g, reader_ok s v d l g -> c' = g -> b = false /\ d' - d = loose s - l + k) ->
  linv (mkL w' d' (loose s) c' (set_pc s t (POwner k b))).
Proof.
  intros Hs Hown Hrep Hc Hread. pose proof Hs as [_ _ Hrd _].
  assert (forall t', is_owner (set_pc s t (POwner k b) t') <-> t' = t) as Ho.
  { intros t'. destruct (decide (t' = t)) as [->|]; [rewrite set_pc_eq; by cbn|].
    rewrite set_pc_ne by done. split; [eauto|done]. }
  split; cbn.
  - exists true. split; [done|]. split; [|done]. intros _. exists t. by apply Ho.
  - intros t1 t2. rewrite !Ho. congruence.
  - intros t' v d l g loads [[-> E]|[Hne E]]%set_pc_cases; [done|].
    pose proof (Hrd _ _ _ _ _ _ E) as Hok. pose proof Hok as (Hg & Hv & _).
    split_and!; [cbn; lia|done|]. cbn. intros Ec. split.
    + intros t3 k3 b3 [[-> [= <- <-]]|[Hne3 E3]]%set_pc_cases; [by eapply Hread|].
      exfalso. apply Hne3, Hown. by rewrite E3.
    + intros Hno. destruct (Hno t). by apply Ho.
  - intros t'. by apply set_pc_loop.
Qed.

(** a step that leaves the threads where they are *)
Lemma linv_still s w' d' l' :
  linv s -> (forall n l, vl_rep (word s) n l -> (l = true <-> exists t, is_owner (pcs s t)) -> vl_rep w' n l) ->
  d' - data s = l' - loose s -> linv (mkL w' d' l' (count s) (pcs s)).
Proof.
  intros [[l [Hr Hl]] Hu Hrd Hlo] Hw Hd. split; cbn; [|done| |done].
  - exists l. split; [by apply Hw|done].
  - intros t v d l0 g loads E. destruct (Hrd _ _ _ _ _ _ E) as (Hg & Hv & H).
    split_and!; [done..|]. cbn. intros Ec. destruct (H Ec) as [H1 H2]. split.
    + intros t' k b E'. destruct (H1 t' k b E') as [? ?]. split; [done|lia].
    + intros Hno. specialize (H2 Hno). lia.
Qed.

(** the owner leaves *)
Lemma linv_release s t k b u w' :
  linv s -> pcs s t = POwner k b -> vl_release u (word s) = Some w' ->
  linv (mkL w' (data s) (if b || u then loose s else loose s + k) (if u then count s + 1 else count s)
          (set_pc s t PIdle)).
Proof.
  intros Hs Ht Hr. pose proof Hs as [_ Hu Hrd _]. assert (is_owner (pcs s t)) as Hot by by rewrite Ht.
  assert (forall t', ~ is_owner (set_pc s t PIdle t')) as Hno.
  { intros t'. destruct (decide (t' = t)) as [->|]; [rewrite set_pc_eq; intros []|].
    rewrite set_pc_ne by done. intros Ho'. by pose proof (Hu _ _ Ho' Hot). }
  split; cbn.
  - exists false. split.
    { pose proof (vl_rep_release u _ _ _ (linv_owner s t Hs Hot) Hr) as Hx. by destruct u. }
    split; [done|]. intros [t' Ho']. by apply Hno in Ho'.
  - intros t1 t2 Ho1. by apply Hno in Ho1.
  - intros t' v d l g loads [[-> E]|[Hne E]]%set_pc_cases; [done|].
    destruct (Hrd _ _ _ _ _ _ E) as (Hg & Hv & Hd).
    split_and!; [cbn; destruct u; lia|done|]. cbn. intros Ec.
    split; [intros t2 k2 b2 E2; exfalso; apply (Hno t2); by rewrite E2|]. intros _.
    destruct u; [lia|]. destruct (Hd Ec) as [H1 _]. destruct (H1 t k b Ht) as [-> ?]. cbn. lia.
  - intros t'. by apply set_pc_loop.
Qed.

Lemma linv_step s s' : linv s -> lstep s s' -> linv s'.
Proof.
  intros Hs Hstep. pose proof Hs as [[l0 [Hrep Hl0]] Hu Hrd Hlo].
  destruct Hstep as
    [s t Ht|s t turns Ht|s t turns e Ht He|s t turns e w' Ht Ha|s t turns Ht|s t k b Ht|s t k b w' Ht Hb
    |s t k b w' Ht Ho|s t k b u w' Ht Hr|s|s w' Ho|s t Ht|s t loads Ht Hv|s t loads v Ht Hv
    |s t v d l g loads Ht Hv|s t v d l g loads b Ht Hv];
    try (pose proof (Hlo t) as Hlt; rewrite Ht in Hlt; cbn in Hlt).
  1-3, 5, 12-13, 15-16: apply linv_local; [done|rewrite Ht; intros []|intros []| |];
    cbn; try done; try apply vl_lock_nil; try apply vl_begin_nil.
  - intros v' d' l' g' loads' [= <- <- <- <- <-]. by eapply Hrd.
  - destruct (vl_rep_lock _ _ _ _ _ _ Hlt Ha Hrep) as [-> Hrep'].
    destruct (linv_free s _ Hs Hrep) as [_ Hno].
    apply linv_becomes_owner; [done|intros t' Ho; by apply Hno in Ho|done|lia|].
    intros v d l g (_ & _ & Hd) E. split; [done|]. destruct (Hd E) as [_ Hd']. specialize (Hd' Hno). lia.
  - apply linv_becomes_owner; [done| |by apply (linv_owner s t); [|rewrite Ht]|lia|].
    + intros t' Ho. apply Hu; [done|by rewrite Ht].
    + intros v d l g (_ & _ & Hd) E. destruct (Hd E) as [Hb _]. destruct (Hb t k b Ht). split; [done|lia].
  - apply linv_becomes_owner; [done| | |lia|].
    + intros t' Ho. apply Hu; [done|by rewrite Ht].
    + eapply vl_rep_bump; [|done]. by apply (linv_owner s t); [|rewrite Ht].
    + intros v d l g (Hg & _) E. lia.
  - apply linv_still; [done| |lia]. intros n l Hn El. assert (l = true) as ->.
    { apply El. exists t. by rewrite Ht. }
    by eapply vl_rep_owner_op.
  - by apply linv_release.
  - apply linv_still; [done|done|lia].
  - apply linv_still; [done| |lia]. intros n l Hn _. by eapply vl_rep_any_op.
  - destruct (vl_rep_begin _ _ _ _ _ Hlt Hv Hrep) as [-> ->]. destruct (linv_free s _ Hs Hrep) as [_ Hno].
    apply linv_local; [done|rewrite Ht; intros []|intros []|apply vl_end_nil|]. intros v d l g loads' [= <- <- <- <- <-].
    split_and!; [lia|eauto|]. intros _. split; [|lia].
    intros t2 k b E. exfalso. apply (Hno t2). by rewrite E.
Qed.

Lemma linv_reachable s : reachable s -> linv s.
Proof.
  intros (w & Hw & Hr). apply linv_init in Hw. induction Hr; [done|].
  eauto using linv_step.
Qed.

(** ** The two guarantees *)

(** at most one thread is in the critical section, and the lock bit tells *)
Lemma mutual_exclusion s t1 t2 :
  reachable s -> is_owner (pcs s t1) -> is_owner (pcs s t2) ->
  t1 = t2 /\ vl_locked (word s) = true.
Proof.
  intros Hr H1 H2. apply linv_reachable in Hr. split; [by apply (inv_unique s Hr)|].
  apply linv_locked; eauto.
Qed.

(** when the loop that ends an optimistic read says that it is valid (and fewer than
    [vl_modulus] bumps happened), all that was written since it began is loose *)
Lemma validated_read s t v d l g loads :
  reachable s -> pcs s t = PReading v d l g loads ->
  vl_end (loads ++ [word s]) v = Some true -> count s - g < vl_modulus ->
  data s - d = loose s - l.
Proof.
  intros Hr Ht He Hc. apply linv_reachable in Hr. pose proof (inv_loop s Hr t) as Hlt. rewrite Ht in Hlt. cbn in Hlt.
  pose proof Hr as [[l0 [Hrep _]] _ Hrd _].
  destruct (vl_rep_end _ _ _ _ _ _ Hlt He Hrep) as [-> Hv]. destruct (linv_free s _ Hr Hrep) as [_ Hno].
  destruct (Hrd _ _ _ _ _ _ Ht) as (Hg & (w & Hw & Hwv) & Hd).
  apply Hd; [|done]. apply (mod_window vl_modulus); [apply vl_modulus_pos| |done|done].
  eapply vl_rep_version; [done|done|]. rewrite Hwv. symmetry. by apply Hv.
Qed.
End protocol.
