(* ===== verification/Control.v ===== *)
(** * The node latch: [src/FBTree/control.h]

    [Control] packs the node's flags, its splitting counter and its version into
    one atomic 64-bit word. Every function below is one of its atomic accesses,
    on the word; a function that loads the word repeatedly takes the sequence of
    values that its loads observe. [fields] is what the word means, [encode] the
    packing; the operations refine the obvious ones on [fields], and [Control]
    is a [VersionLatch]. *)

From S2P Require Import Prelude Latch.

Module Control.
(** FBTree/control.h:21-25 [kLockBit] *)
Definition kOrderBit : Z := 0x10.
Definition kLeafBit : Z := 0x8.
Definition kSiblingBit : Z := 0x4.
Definition kLockBit : Z := 0x2.
Definition kDelBit : Z := 0x1.

(** FBTree/control.h:27-31 [kVersionMask] *)
Definition kSplitMask : Z := 0x0000000000FFFF00.
Definition kVersionMask : Z := 0xFFFFFFFFFF000000.
Definition kSplitOne : Z := 0x100.
Definition kVersionOne : Z := 0x1000000.

(** conversion of an integer to [bool] *)
Definition nonzero (z : Z) : bool := negb (z =? 0).

(** [fetch_add] and [fetch_sub]: the word they leave *)
Definition fetch_add (control x : Z) : Z := w64 (control + x).
Definition fetch_sub (control x : Z) : Z := w64 (control - x).

(** FBTree/control.h:39-39 [Control] *)
Definition Control (is_leaf : bool) : Z := if is_leaf then kLeafBit else 0.

(** FBTree/control.h:41-41 [ordered] *)
Definition ordered (control : Z) : bool := nonzero (Z.land control kOrderBit).
(** FBTree/control.h:43-45 [is_leaf] *)
Definition is_leaf (control : Z) : bool := nonzero (Z.land control kLeafBit).
(** FBTree/control.h:47-49 [deleted] *)
Definition deleted (control : Z) : bool := nonzero (Z.land control kDelBit).
(** FBTree/control.h:51-52 [has_sibling] *)
Definition has_sibling (control : Z) : bool := nonzero (Z.land control kSiblingBit).
(** FBTree/control.h:54-58 [is_splitting] *)
Definition is_splitting (control : Z) : bool := nonzero (Z.land control kSplitMask).
(** FBTree/control.h:60-60 [load_version] *)
Definition load_version (control : Z) : Z := Z.land control kVersionMask.

(** FBTree/config.h:47-51 [kSpinInit] *)
Definition kSpinInit : Z := 3.
Definition kSpinInc : Z := 2.

(** the two ways of waiting *)
Inductive wait := Yield | Sleep.

(** FBTree/control.h:72-77 [begin_read]

    one turn of the backoff that the spinning functions share *)
Definition backoff (spin limit : Z) : Z * Z * list wait :=
  if limit <=? spin
  then (0, limit + kSpinInc, [if limit =? kSpinInit then Yield else Sleep])
  else (spin + 1, limit, []).

(** FBTree/control.h:62-79 [begin_read]

    [loads] are the words the loop reads; [None]: it is still spinning *)
Fixpoint begin_read_loop (loads : list Z) (spin limit : Z) (waits : list wait)
    : option (Z * list wait) :=
  match loads with
  | [] => None
  | control :: loads =>
      if Z.land control kLockBit =? 0 then Some (Z.land control kVersionMask, waits)
      else let '(spin, limit, ws) := backoff spin limit in
           begin_read_loop loads spin limit (waits ++ ws)
  end.
Definition begin_read (loads : list Z) : option (Z * list wait) :=
  begin_read_loop loads 0 kSpinInit [].

(** FBTree/control.h:81-104 [end_read] *)
Fixpoint end_read_loop (loads : list Z) (version spin limit : Z) (waits : list wait)
    : option (bool * list wait) :=
  match loads with
  | [] => None
  | control :: loads =>
      if nonzero (Z.land control kLockBit) then
        let '(spin, limit, ws) := backoff spin limit in
        end_read_loop loads version spin limit (waits ++ ws)
      else if negb (Z.land control kVersionMask =? version) then Some (false, waits)
      else Some (true, waits)
  end.
Definition end_read (loads : list Z) (version : Z) : option (bool * list wait) :=
  end_read_loop loads version 0 kSpinInit [].

(** FBTree/control.h:106-109 [begin_splitting] *)
Definition begin_splitting (old : Z) : option Z :=
  assert* negb (Z.land old kSplitMask =? kSplitMask) in Some (fetch_add old kSplitOne).
(** FBTree/control.h:111-114 [end_splitting] *)
Definition end_splitting (old : Z) : option Z :=
  assert* negb (Z.land old kSplitMask =? 0) in Some (fetch_sub old kSplitOne).
(** FBTree/control.h:116-119 [set_order] *)
Definition set_order (old : Z) : option Z :=
  assert* (Z.land old kOrderBit =? 0) in Some (fetch_add old kOrderBit).
(** FBTree/control.h:121-124 [clear_order] *)
Definition clear_order (old : Z) : option Z :=
  assert* negb (Z.land old kOrderBit =? 0) in Some (fetch_sub old kOrderBit).
(** FBTree/control.h:126-129 [set_delete] *)
Definition set_delete (old : Z) : option Z :=
  assert* (Z.land old kDelBit =? 0) in Some (fetch_add old kDelBit).
(** FBTree/control.h:131-134 [set_sibling] *)
Definition set_sibling (old : Z) : option Z :=
  assert* (Z.land old kSiblingBit =? 0) in Some (fetch_add old kSiblingBit).
(** FBTree/control.h:136-139 [clear_sibling] *)
Definition clear_sibling (old : Z) : option Z :=
  assert* negb (Z.land old kSiblingBit =? 0) in Some (fetch_sub old kSiblingBit).

(** FBTree/control.h:141-158 [latch_exclusive]

    each turn loads [expected] and, if it is unlocked, the compare-and-swap
    reads [seen]; the result is the word that the successful one stores *)
Fixpoint latch_exclusive_loop (turns : list (Z * Z)) (spin limit : Z) (waits : list wait)
    : option (Z * list wait) :=
  match turns with
  | [] => None
  | (expected, seen) :: turns =>
      let desired := Z.lor expected kLockBit in
      if (Z.land expected kLockBit =? 0) && (seen =? expected) then Some (desired, waits)
      else let '(spin, limit, ws) := backoff spin limit in
           latch_exclusive_loop turns spin limit (waits ++ ws)
  end.
Definition latch_exclusive (turns : list (Z * Z)) : option (Z * list wait) :=
  latch_exclusive_loop turns 0 kSpinInit [].

(** FBTree/control.h:160-162 [update_version] *)
Definition update_version (control : Z) : Z := fetch_add control kVersionOne.

(** FBTree/control.h:164-167 [unlatch_exclusive] *)
Definition unlatch_exclusive (control : Z) : option Z :=
  assert* negb (Z.land control kLockBit =? 0) in Some (fetch_sub control kLockBit).

(** ** What the word means *)

Record fields := mkFields {
  f_deleted : bool; f_locked : bool; f_sibling : bool; f_leaf : bool; f_ordered : bool;
  f_splitting : Z;   (** begun and not ended, 16 bits *)
  f_version : Z;     (** 40 bits *)
}.

(** a new inner node *)
Definition inner_fields (sibling : bool) : fields := mkFields false false sibling false false 0 0.

Definition valid (f : fields) : Prop :=
  0 <= f_splitting f < 2 ^ 16 /\ 0 <= f_version f < 2 ^ 40.

Definition encode (f : fields) : Z :=
  Z.b2z (f_deleted f) + 2 * Z.b2z (f_locked f) + 4 * Z.b2z (f_sibling f)
  + 8 * Z.b2z (f_leaf f) + 16 * Z.b2z (f_ordered f)
  + 2 ^ 8 * f_splitting f + 2 ^ 24 * f_version f.

(** the operations on the fields: [None] is an aborted [DEBUG_COND_ERROR] *)
Definition with_splitting (f : fields) (n : Z) : fields :=
  mkFields (f_deleted f) (f_locked f) (f_sibling f) (f_leaf f) (f_ordered f) n (f_version f).
Definition with_version (f : fields) (n : Z) : fields :=
  mkFields (f_deleted f) (f_locked f) (f_sibling f) (f_leaf f) (f_ordered f) (f_splitting f) n.
Definition with_locked (f : fields) (b : bool) : fields :=
  mkFields (f_deleted f) b (f_sibling f) (f_leaf f) (f_ordered f) (f_splitting f) (f_version f).
Definition with_sibling (f : fields) (b : bool) : fields :=
  mkFields (f_deleted f) (f_locked f) b (f_leaf f) (f_ordered f) (f_splitting f) (f_version f).
Definition with_ordered (f : fields) (b : bool) : fields :=
  mkFields (f_deleted f) (f_locked f) (f_sibling f) (f_leaf f) b (f_splitting f) (f_version f).
Definition with_deleted (f : fields) (b : bool) : fields :=
  mkFields b (f_locked f) (f_sibling f) (f_leaf f) (f_ordered f) (f_splitting f) (f_version f).

Definition when (b : bool) (f : fields) : option fields := if b then Some f else None.

(** the operations that modify a word, and those of [fields] they implement; [OpLatch] is
    the turn of [latch_exclusive] whose compare-and-swap meets the word it has loaded *)
Inductive op :=
  | OpLatch | OpBeginSplitting | OpEndSplitting | OpSetOrder | OpClearOrder | OpSetDelete
  | OpSetSibling | OpClearSibling | OpUpdateVersion | OpUnlatch.

#[export] Instance op_eq_dec : EqDecision op.
Proof. solve_decision. Defined.

Definition run (o : op) : Z -> option Z :=
  match o with
  | OpLatch => fun c => fst <$> latch_exclusive [(c, c)]
  | OpBeginSplitting => begin_splitting | OpEndSplitting => end_splitting
  | OpSetOrder => set_order | OpClearOrder => clear_order
  | OpSetDelete => set_delete
  | OpSetSibling => set_sibling | OpClearSibling => clear_sibling
  | OpUpdateVersion => fun c => Some (update_version c)
  | OpUnlatch => unlatch_exclusive
  end.

Definition run_fields (o : op) (f : fields) : option fields :=
  match o with
  | OpLatch => when (negb (f_locked f)) (with_locked f true)
  | OpBeginSplitting => when (f_splitting f <? 65535) (with_splitting f (f_splitting f + 1))
  | OpEndSplitting => when (0 <? f_splitting f) (with_splitting f (f_splitting f - 1))
  | OpSetOrder => when (negb (f_ordered f)) (with_ordered f true)
  | OpClearOrder => when (f_ordered f) (with_ordered f false)
  | OpSetDelete => when (negb (f_deleted f)) (with_deleted f true)
  | OpSetSibling => when (negb (f_sibling f)) (with_sibling f true)
  | OpClearSibling => when (f_sibling f) (with_sibling f false)
  | OpUpdateVersion => Some (with_version f ((f_version f + 1) mod 2 ^ 40))
  | OpUnlatch => when (f_locked f) (with_locked f false)
  end.

(** ** Reading the fields of a packed word *)

Ltac fields_arith :=
  unfold encode, valid in *; cbn [f_deleted f_locked f_sibling f_leaf f_ordered f_splitting f_version] in *;
  repeat match goal with b : bool |- _ => destruct b end; cbn [Z.b2z] in *;
  Z.to_euclidean_division_equations; lia.

Section reads.
Context (f : fields) (Hf : valid f).

Lemma encode_del : Z.land (encode f) kDelBit = Z.b2z (f_deleted f).
Proof.
  change kDelBit with (2 ^ 0). rewrite land_bit, testbit_div by done.
  destruct f as [d l s lf o sp v]. fields_arith.
Qed.

Lemma encode_lock : Z.land (encode f) kLockBit = 2 * Z.b2z (f_locked f).
Proof.
  change kLockBit with (2 ^ 1). rewrite land_bit, testbit_div by done.
  destruct f as [d l s lf o sp v]. fields_arith.
Qed.

Lemma encode_sibling : Z.land (encode f) kSiblingBit = 4 * Z.b2z (f_sibling f).
Proof.
  change kSiblingBit with (2 ^ 2). rewrite land_bit, testbit_div by done.
  destruct f as [d l s lf o sp v]. fields_arith.
Qed.

Lemma encode_leaf : Z.land (encode f) kLeafBit = 8 * Z.b2z (f_leaf f).
Proof.
  change kLeafBit with (2 ^ 3). rewrite land_bit, testbit_div by done.
  destruct f as [d l s lf o sp v]. fields_arith.
Qed.

Lemma encode_order : Z.land (encode f) kOrderBit = 16 * Z.b2z (f_ordered f).
Proof.
  change kOrderBit with (2 ^ 4). rewrite land_bit, testbit_div by done.
  destruct f as [d l s lf o sp v]. fields_arith.
Qed.

Lemma encode_split : Z.land (encode f) kSplitMask = 2 ^ 8 * f_splitting f.
Proof.
  change kSplitMask with (2 ^ 24 - 2 ^ 8). rewrite land_mask by done.
  destruct f as [d l s lf o sp v]. cbn [Z.sub Z.add Z.opp Z.pos_sub Pos.sub].
  fields_arith.
Qed.

Lemma encode_ver : Z.land (encode f) kVersionMask = 2 ^ 24 * f_version f.
Proof.
  change kVersionMask with (2 ^ 64 - 2 ^ 24). rewrite land_mask by done.
  destruct f as [d l s lf o sp v]. fields_arith.
Qed.
End reads.

Lemma encode_bounds f : valid f -> is_u64 (encode f).
Proof. unfold is_u64. destruct f as [d l s lf o sp v]. intros. fields_arith. Qed.

Lemma encode_inj f g : valid f -> valid g -> encode f = encode g -> f = g.
Proof.
  intros Hf Hg E.
  pose proof (f_equal (fun w => Z.land w kDelBit) E) as E1.
  pose proof (f_equal (fun w => Z.land w kLockBit) E) as E2.
  pose proof (f_equal (fun w => Z.land w kSiblingBit) E) as E3.
  pose proof (f_equal (fun w => Z.land w kLeafBit) E) as E4.
  pose proof (f_equal (fun w => Z.land w kOrderBit) E) as E5.
  pose proof (f_equal (fun w => Z.land w kSplitMask) E) as E6.
  pose proof (f_equal (fun w => Z.land w kVersionMask) E) as E7.
  cbn beta in *.
  rewrite !encode_del in E1 by done. rewrite !encode_lock in E2 by done.
  rewrite !encode_sibling in E3 by done. rewrite !encode_leaf in E4 by done.
  rewrite !encode_order in E5 by done. rewrite !encode_split in E6 by done.
  rewrite !encode_ver in E7 by done.
  destruct f, g; cbn in *. f_equal; try (apply Z.b2z_inj; lia); lia.
Qed.

Lemma encode_acquire f :
  valid f -> f_locked f = false -> Z.lor (encode f) kLockBit = encode (with_locked f true).
Proof.
  intros Hf Hl. rewrite <- (Z.lxor_lor (encode f)) by (rewrite encode_lock, Hl by done; done).
  rewrite <- Z.add_nocarry_lxor by (rewrite encode_lock, Hl by done; done).
  destruct f; cbn in *; subst. unfold encode, kLockBit; cbn. lia.
Qed.

(** the guards of the operations, on the fields *)
Lemma guard_bit z (b : bool) k : 0 < k -> z = k * Z.b2z b -> (z =? 0) = negb b.
Proof. intros ? ->. destruct b; cbn; blia. Qed.

Lemma fetch_add_encode f x f' :
  valid f' -> encode f + x = encode f' -> fetch_add (encode f) x = encode f'.
Proof. intros Hf' E. unfold fetch_add. rewrite E. by apply wrap_small, encode_bounds. Qed.

Lemma fetch_sub_encode f x f' :
  valid f' -> encode f - x = encode f' -> fetch_sub (encode f) x = encode f'.
Proof. intros Hf' E. unfold fetch_sub. rewrite E. by apply wrap_small, encode_bounds. Qed.

Lemma update_version_encode f :
  valid f -> update_version (encode f) = encode (with_version f ((f_version f + 1) mod 2 ^ 40)).
Proof.
  intros Hf. unfold update_version, fetch_add, wrap, kVersionOne, with_version.
  destruct f as [d l s lf o sp v].
  destruct (decide (v + 1 < 2 ^ 40)) as [Hv|Hv].
  - cbn [f_version]. rewrite (Z.mod_small (v + 1)) by (unfold valid in Hf; cbn in Hf; lia).
    rewrite Z.mod_small; fields_arith.
  - assert (v = 2 ^ 40 - 1) as -> by (unfold valid in Hf; cbn in Hf; lia).
    cbn [f_version]. replace ((2 ^ 40 - 1 + 1) mod 2 ^ 40) with 0 by done.
    fields_arith.
Qed.

(** one operation: the guard on the word is the guard on the fields *)
Lemma guarded_encode (g h : bool) w f' :
  g = h -> (h = true -> valid f' /\ w = encode f') ->
  (assert* g in Some w) = encode <$> when h f'
  /\ (forall f2, when h f' = Some f2 -> valid f2).
Proof.
  intros -> H. destruct h; cbn; [|done]. destruct (H eq_refl) as [Hv ->].
  split; [done|]. by intros ? [= <-].
Qed.

Lemma latch_encode f :
  valid f ->
  run OpLatch (encode f) = encode <$> run_fields OpLatch f
  /\ (forall f', run_fields OpLatch f = Some f' -> valid f').
Proof.
  intros Hf. cbn [run run_fields]. unfold latch_exclusive. cbn [latch_exclusive_loop]. rewrite encode_lock, Z.eqb_refl by done.
  destruct (f_locked f) eqn:El; [done|]. cbn. rewrite encode_acquire by done. split; [done|]. by intros ? [= <-].
Qed.

Lemma run_encode o f :
  valid f ->
  run o (encode f) = encode <$> run_fields o f
  /\ (forall f', run_fields o f = Some f' -> valid f').
Proof.
  intros Hf. destruct (decide (o = OpLatch)) as [->|Ho]; [by apply latch_encode|].
  pose proof (encode_split f Hf) as Es. pose proof (encode_order f Hf) as Eo.
  pose proof (encode_del f Hf) as Ed. pose proof (encode_sibling f Hf) as Ei.
  pose proof (encode_lock f Hf) as El. pose proof Hf as [Hs Hv].
  destruct o; [done|..]; cbn [run run_fields]; [apply guarded_encode..| |apply guarded_encode];
    rewrite ?Es, ?Eo, ?Ed, ?Ei, ?El, ?negb_involutive;
    try (unfold kSplitMask; clear - Hs; blia);
    try (destruct f as [[] [] [] ? [] ? ?]; reflexivity);
    try (intros Hb; split;
         [|first [apply fetch_add_encode|apply fetch_sub_encode]];
         destruct f as [d l s lf o sp v];
         unfold kSplitOne, kOrderBit, kDelBit, kSiblingBit, kLockBit; cbn in Hb; bool_to_prop;
         subst; unfold with_splitting, with_ordered, with_deleted, with_sibling, with_locked;
         fields_arith).
  split; [cbn; f_equal; by apply update_version_encode|].
  intros f' [= <-]. split; [done|]. cbn. apply Z.mod_pos_bound. lia.
Qed.

(** ** The spinning functions *)

(** the load at which a spinning function stops *)
Definition unlocked (w : Z) : bool := Z.land w kLockBit =? 0.

Lemma begin_read_loop_spec loads spin limit ws :
  match List.find unlocked loads with
  | Some w => exists ws', begin_read_loop loads spin limit ws = Some (Z.land w kVersionMask, ws')
  | None => begin_read_loop loads spin limit ws = None
  end.
Proof.
  revert spin limit ws. induction loads as [|w loads IH]; intros; cbn; [done|].
  unfold unlocked at 1. destruct (Z.land w kLockBit =? 0) eqn:E.
  - eauto.
  - destruct (backoff spin limit) as [[sp li] ws2].
    specialize (IH sp li (ws ++ ws2)). exact IH.
Qed.

Lemma end_read_loop_spec loads v spin limit ws :
  match List.find unlocked loads with
  | Some w => exists ws', end_read_loop loads v spin limit ws
                     = Some (Z.land w kVersionMask =? v, ws')
  | None => end_read_loop loads v spin limit ws = None
  end.
Proof.
  revert spin limit ws. induction loads as [|w loads IH]; intros; cbn; [done|].
  unfold unlocked at 1, nonzero. destruct (Z.land w kLockBit =? 0) eqn:E; cbn.
  - destruct (_ =? v); cbn; eauto.
  - destruct (backoff spin limit) as [[sp li] ws2].
    specialize (IH sp li (ws ++ ws2)). exact IH.
Qed.

Lemma latch_exclusive_loop_spec turns spin limit ws :
  match List.find (fun ec => unlocked ec.1 && (ec.2 =? ec.1)) turns with
  | Some ec => exists ws', latch_exclusive_loop turns spin limit ws
                     = Some (Z.lor ec.1 kLockBit, ws')
  | None => latch_exclusive_loop turns spin limit ws = None
  end.
Proof.
  revert spin limit ws. induction turns as [|[e c] turns IH]; intros; cbn; [done|].
  unfold unlocked at 1. destruct ((Z.land e kLockBit =? 0) && (c =? e)) eqn:E.
  - eauto.
  - destruct (backoff spin limit) as [[sp li] ws2].
    specialize (IH sp li (ws ++ ws2)). exact IH.
Qed.

(** what the three functions return *)
Lemma begin_read_find loads : fst <$> begin_read loads = load_version <$> List.find unlocked loads.
Proof.
  pose proof (begin_read_loop_spec loads 0 kSpinInit []) as H. unfold begin_read.
  destruct (List.find _ _) as [w|]; [destruct H as [ws ->]|rewrite H]; done.
Qed.

Lemma end_read_find loads version :
  fst <$> end_read loads version = (fun w => load_version w =? version) <$> List.find unlocked loads.
Proof.
  pose proof (end_read_loop_spec loads version 0 kSpinInit []) as H. unfold end_read.
  destruct (List.find _ _) as [w|]; [destruct H as [ws ->]|rewrite H]; done.
Qed.

Lemma latch_exclusive_find turns :
  fst <$> latch_exclusive turns
    = (fun w => Z.lor w.1 kLockBit) <$> List.find (fun ec => unlocked ec.1 && (ec.2 =? ec.1)) turns.
Proof.
  pose proof (latch_exclusive_loop_spec turns 0 kSpinInit []) as H. unfold latch_exclusive.
  destruct (List.find _ _) as [w|]; [destruct H as [ws ->]|rewrite H]; done.
Qed.

Lemma unlocked_encode f : valid f -> unlocked (encode f) = negb (f_locked f).
Proof. intros Hf. unfold unlocked. rewrite encode_lock by done. by destruct (f_locked f). Qed.

(** ** [Control] is a version latch *)

#[export] Instance Control_latch : VersionLatch := {
  vl_init w := exists is_leaf, w = Control is_leaf;
  vl_lock turns := fst <$> latch_exclusive turns;
  vl_bump w := Some (update_version w);
  vl_release u w := if u then None else unlatch_exclusive w;
  vl_begin loads := fst <$> begin_read loads;
  vl_end loads version := fst <$> end_read loads version;
  vl_owner_op _ _ := False;
  vl_any_op w w' := exists o, o <> OpLatch /\ o <> OpUpdateVersion /\ o <> OpUnlatch /\ run o w = Some w';
  vl_locked w := negb (unlocked w);
  vl_version := load_version;
  vl_modulus := 2 ^ 40;
  vl_rep w n l :=
    exists f, valid f /\ w = encode f /\ f_version f = n mod 2 ^ 40 /\ f_locked f = l;
}.

(** the fields after [update_version], and those of a node that was merged *)
Definition bump (f : fields) : fields := with_version f ((f_version f + 1) mod 2 ^ 40).
Definition merged_fields (f : fields) : fields := bump (with_deleted f true).

Lemma bump_valid f : valid f -> valid (bump f).
Proof. intros [? ?]. split; [done|]. cbn. apply Z.mod_pos_bound. lia. Qed.

(** the latch of a node nobody holds *)
Lemma latch_exclusive_encode f :
  valid f -> f_locked f = false ->
  latch_exclusive [(encode f, encode f)] = Some (encode (with_locked f true), []).
Proof.
  intros Hf Hl. unfold latch_exclusive. cbn [latch_exclusive_loop].
  rewrite encode_lock, Hl, !Z.eqb_refl, encode_acquire by done. done.
Qed.

(** an operation maps representations to representations *)
(** what the readers of a word see *)
Lemma reads_encode f :
  valid f -> has_sibling (encode f) = f_sibling f /\ deleted (encode f) = f_deleted f /\ is_leaf (encode f) = f_leaf f.
Proof.
  intros Hf. unfold has_sibling, deleted, is_leaf, nonzero. rewrite encode_sibling, encode_del, encode_leaf by done.
  by destruct f as [[] [] [] [] [] ? ?].
Qed.

Lemma begin_read_encode f :
  valid f -> f_locked f = false -> begin_read [encode f] = Some (load_version (encode f), []).
Proof. intros Hf Hl. unfold begin_read. cbn [begin_read_loop]. by rewrite encode_lock, Hl by done. Qed.

Lemma end_read_encode f :
  valid f -> f_locked f = false -> end_read [encode f] (load_version (encode f)) = Some (true, []).
Proof.
  intros Hf Hl. unfold end_read, load_version. cbn [end_read_loop]. unfold nonzero.
  rewrite encode_lock, Hl, !Z.eqb_refl by done. done.
Qed.

Lemma run_rep o f w' :
  valid f -> run o (encode f) = Some w' ->
  exists f', valid f' /\ w' = encode f' /\ run_fields o f = Some f'.
Proof.
  intros Hf Hr. destruct (run_encode o f Hf) as [E Hv]. rewrite Hr in E.
  destruct (run_fields o f) as [f'|]; [|done]. injection E as ->. exists f'. auto.
Qed.

#[global] Instance Control_latch_laws : VersionLatchLaws Control_latch.
Proof.
  split; cbn [vl_modulus vl_rep vl_init vl_lock vl_bump vl_release vl_begin vl_end vl_locked vl_version
              vl_owner_op vl_any_op Control_latch].
  - lia.
  - intros w [b ->]. exists (mkFields false false false b false 0 0).
    split; [by split; cbn|]. by destruct b.
  - intros w n l (f & Hf & -> & Hn & <-). by rewrite unlocked_encode, negb_involutive.
  - done.
  - intros turns e w w' n l H0 H1 (f & Hf & -> & Hn & Hl). rewrite latch_exclusive_find in H0, H1.
    rewrite find_snoc in H1. destruct (List.find _ turns); [done|]. cbn in H1.
    destruct (unlocked e && (encode f =? e)) eqn:E; [|done]. bool_to_prop. subst e.
    rewrite unlocked_encode in * by done. apply negb_true_iff in H. injection H1 as <-. split; [congruence|].
    exists (with_locked f true). split; [done|]. by rewrite encode_acquire.
  - intros w w' n (f & Hf & -> & Hn & Hl) [= <-].
    destruct (run_encode OpUpdateVersion f Hf) as [_ Hv].
    eexists. split; [by apply Hv|]. split; [by apply update_version_encode|]. cbn.
    rewrite Hn, Zplus_mod_idemp_l. done.
  - intros [] w w' n (f & Hf & -> & Hn & Hl); [done|]. intros Hr.
    apply (run_rep OpUnlatch) in Hr as (f' & Hf' & -> & Hr); [|done].
    exists f'. split; [done|]. split; [done|]. cbn in Hr. rewrite Hl in Hr. by injection Hr as <-.
  - done.
  - intros loads w v n l H0 H1 (f & Hf & -> & Hn & Hl). rewrite begin_read_find in H0, H1. rewrite find_snoc in H1.
    destruct (List.find _ loads); [done|]. cbn in H1. rewrite unlocked_encode in H1 by done.
    rewrite Hl in H1. destruct l; [done|]. by injection H1 as <-.
  - done.
  - intros loads w v b n l H0 H1 (f & Hf & -> & Hn & Hl). rewrite end_read_find in H0, H1. rewrite find_snoc in H1.
    destruct (List.find _ loads); [done|]. cbn in H1. rewrite unlocked_encode in H1 by done.
    rewrite Hl in H1. destruct l; [done|]. injection H1 as <-. split; [done|]. rewrite Z.eqb_eq. done.
  - done.
  - intros w w' n l (f & Hf & -> & Hn & Hl) (o & Ho0 & Ho1 & Ho2 & Hr).
    apply run_rep in Hr as (f' & Hf' & -> & Hr); [|done].
    exists f'. split; [done|]. split; [done|].
    destruct o; cbn in Hr; try done; unfold when in Hr;
      repeat case_match; try discriminate; injection Hr as <-; done.
  - intros w w' n n' (f & Hf & -> & Hn & _) (f' & Hf' & -> & Hn' & _). unfold load_version.
    rewrite !encode_ver by done. intros. rewrite <- Hn, <- Hn'. lia.
Qed.
End Control.

(** ** Properties *)

Import Control.

(** C34: Every access of the control word that modifies it is an operation on its fields, the
    compare-and-swap of [latch_exclusive] included: the guard (an assertion, or for the latch
    the test of the lock bit) is the guard on the field, only that field changes, no carry
    reaches a neighbour, and the version wraps at 40 bits. The loads return the fields: a new
    word has none but the leaf bit, the tests are the flags, [begin_read] and [end_read] go on
    while the word is locked and otherwise see its version. *)
Theorem Control_refines_fields (o : op) (f : fields) (leaf : bool) (version : Z) :
  valid f ->
  run o (encode f) = encode <$> run_fields o f
  /\ (forall f', run_fields o f = Some f' -> valid f' /\ is_u64 (encode f'))
  /\ Control leaf = encode (mkFields false false false leaf false 0 0)
  /\ [ordered (encode f); is_leaf (encode f); deleted (encode f); has_sibling (encode f);
      is_splitting (encode f)]
     = [f_ordered f; f_leaf f; f_deleted f; f_sibling f; negb (f_splitting f =? 0)]
  /\ load_version (encode f) = 2 ^ 24 * f_version f
  /\ fst <$> begin_read [encode f] = (if f_locked f then None else Some (2 ^ 24 * f_version f))
  /\ fst <$> end_read [encode f] version
     = (if f_locked f then None else Some (2 ^ 24 * f_version f =? version)).
Proof.
  intros Hf. destruct (run_encode o f Hf) as [E Hv]. split; [done|]. split.
  { intros f' Hr. split; [by apply Hv|]. by apply encode_bounds, Hv. }
  split; [by destruct leaf|]. split; [|split; [by apply encode_ver|]].
  - unfold ordered, is_leaf, deleted, has_sibling, is_splitting, nonzero.
    rewrite encode_order, encode_leaf, encode_del, encode_sibling, encode_split by done.
    replace (2 ^ 8 * f_splitting f =? 0) with (f_splitting f =? 0).
    + destruct f as [[] ? [] [] [] ? ?]; reflexivity.
    + clear. destruct (f_splitting f =? 0) eqn:Es; symmetry; blia.
  - rewrite begin_read_find, end_read_find. cbn [List.find]. rewrite unlocked_encode by done.
    destruct (f_locked f); [done|]. cbn. unfold load_version. by rewrite encode_ver.
Qed.

Lemma Control_refines_fields_witness :
  let f := mkFields false true true true false 65535 (2 ^ 40 - 1) in
  run OpBeginSplitting (encode f) = None
  /\ run OpUpdateVersion (encode f) = Some (encode (with_version f 0))
  /\ run OpLatch (encode f) = None.
Proof.
  assert (valid (mkFields false true true true false 65535 (2 ^ 40 - 1))) as Hf
    by (split; cbn; lia).
  split; [|split].
  - by rewrite (proj1 (Control_refines_fields OpBeginSplitting _ true 0 Hf)).
  - by rewrite (proj1 (Control_refines_fields OpUpdateVersion _ true 0 Hf)).
  - by rewrite (proj1 (Control_refines_fields OpLatch _ true 0 Hf)).
Defined.

(** C37: The waiting loops return exactly when some load (for the latch: some load and
    its compare-and-swap) finds the word unlocked, and what they return is read
    from the first such word. *)
Theorem Control_spins (loads : list Z) (turns : list (Z * Z)) (version : Z) :
  fst <$> begin_read loads
    = (fun w => load_version w) <$> List.find unlocked loads
  /\ fst <$> end_read loads version
    = (fun w => load_version w =? version) <$> List.find unlocked loads
  /\ fst <$> latch_exclusive turns
    = (fun w => Z.lor w.1 kLockBit) <$> List.find (fun ec => unlocked ec.1 && (ec.2 =? ec.1)) turns.
Proof. split; [apply begin_read_find|]. split; [apply end_read_find|apply latch_exclusive_find]. Qed.

(** C33: Threads run the loops of [latch_exclusive], [begin_read] and [end_read], one atomic
    access at a time, and [unlatch_exclusive], [update_version] and the flag operations, in any
    order; contents are written under the latch, with or without [update_version], and without
    it. In every state they reach, at most one thread is between [latch_exclusive] and
    [unlatch_exclusive]; and when the loop of [end_read] says that the version [begin_read]
    returned is unchanged (fewer than 2^40 version updates in between), every write since the
    read began is one that no version tells of: made without the latch, or by a holder that
    did not update the version, as an update in place does. *)
Theorem Control_latch_correct (s : lstate) :
  reachable (L := Control_latch) s ->
  (forall t1 t2, is_owner (pcs s t1) -> is_owner (pcs s t2) -> t1 = t2 /\ unlocked (word s) = false)
  /\ (forall t v d l g loads ws, pcs s t = PReading v d l g loads -> count s - g < 2 ^ 40 ->
        end_read (loads ++ [word s]) v = Some (true, ws) -> data s - d = loose s - l).
Proof.
  intros Hr. split.
  - intros t1 t2 H1 H2. destruct (mutual_exclusion s t1 t2 Hr H1 H2) as [-> Hl].
    split; [done|]. by apply negb_true_iff in Hl.
  - intros t v d l g loads ws Ht Hc Hend. apply (validated_read s t v d l g loads Hr Ht); [|done].
    cbn. by rewrite Hend.
Qed.

Lemma Control_latch_correct_witness :
  exists s, reachable (L := Control_latch) s
    /\ pcs s 1%nat = PReading (2 ^ 24) 1 0 1 [] /\ data s - 1 = loose s - 0 /\ data s = 2
    /\ end_read [word s] (2 ^ 24) = Some (true, []).
Proof.
  (* thread 0 latches, writes, updates the version, unlatches; thread 1 then begins a
     read, and an update in place happens *)
  pose (s0 := linit (Control true)).
  pose (s1 := goto s0 0%nat (PLocking [])).
  pose (s2 := goto s1 0%nat (PLoaded [] (word s1))).
  pose (s3 := mkL (Z.lor (word s2) kLockBit) (data s2) (loose s2) (count s2) (set_pc s2 0%nat (POwner 0 false))).
  pose (s4 := mkL (word s3) (data s3 + 1) (loose s3) (count s3) (set_pc s3 0%nat (POwner 1 false))).
  pose (s5 := mkL (update_version (word s4)) (data s4) (loose s4) (count s4 + 1) (set_pc s4 0%nat (POwner 1 true))).
  pose (s6 := mkL (fetch_sub (word s5) kLockBit) (data s5) (loose s5) (count s5) (set_pc s5 0%nat PIdle)).
  pose (s7 := goto s6 1%nat (PBegin [])).
  pose (s8 := goto s7 1%nat (PReading (load_version (word s7)) (data s7) (loose s7) (count s7) [])).
  pose (s9 := mkL (word s8) (data s8 + 1) (loose s8 + 1) (count s8) (pcs s8)).
  assert (Hs9 : reachable (L := Control_latch) s9).
  { exists (Control true). split; [by exists true|].
    eapply rtc_l; [by apply (step_lock (L := Control_latch) s0 0%nat)|].
    eapply rtc_l; [by apply (step_load (L := Control_latch) s1 0%nat [])|].
    eapply rtc_l; [by apply (step_acquire (L := Control_latch) s2 0%nat [] (Control true) (Z.lor (word s2) kLockBit))|].
    eapply rtc_l; [by apply (step_write (L := Control_latch) s3 0%nat 0 false)|].
    eapply rtc_l; [by apply (step_bump (L := Control_latch) s4 0%nat 1 false (update_version (word s4)))|].
    eapply rtc_l; [by apply (step_release (L := Control_latch) s5 0%nat 1 true false (fetch_sub (word s5) kLockBit))|].
    eapply rtc_l; [by apply (step_read (L := Control_latch) s6 1%nat)|].
    eapply rtc_l; [by apply (step_begin (L := Control_latch) s7 1%nat [] (load_version (word s7)))|].
    eapply rtc_l; [by apply (step_store (L := Control_latch) s8)|]. apply rtc_refl. }
  exists s9. split; [exact Hs9|]. split; [reflexivity|]. split; [|split; reflexivity].
  exact (proj2 (Control_latch_correct s9 Hs9) 1%nat (2 ^ 24) 1 0 1 [] [] eq_refl eq_refl eq_refl).
Defined.
