(* ===== verification/Locks.v ===== *)
(** * The other latches: [src/util/lock.h], [src/BLinkTree/latch.h]

    [SpinLock] and [VerLock] are version latches of one atomic word, so the
    guarantees of [Latch] hold of them. [RSpinSharedLatch], the reader-writer
    latch of the B-link tree, has its own interleaving semantics here. *)

From S2P Require Import Prelude Latch.

Module SpinLock.
(** util/lock.h:20-27 [SpinLock] *)
Definition kLockBit : Z := 0x01.
Definition kInitCode : Z := 0x00.

(** util/lock.h:35-44 [lock]

    the turns of the loop: what the load and the compare-and-swap read *)
Fixpoint lock (turns : list (Z * Z)) : option Z :=
  match turns with
  | [] => None
  | (expected, seen) :: turns =>
      let desired := Z.lor expected kLockBit in
      if (Z.land expected kLockBit =? 0) && (seen =? expected) then Some desired
      else lock turns
  end.

(** util/lock.h:46-51 [try_lock]

    whether it locked, and the word afterwards *)
Definition try_lock (expected seen : Z) : bool * Z :=
  if Z.land expected kLockBit =? kLockBit then (false, seen) else
  let desired := Z.lor expected kLockBit in
  if seen =? expected then (true, desired) else (false, seen).

(** util/lock.h:53-56 [unlock] *)
Definition unlock (control : Z) : option Z :=
  assert* (Z.land control kLockBit =? kLockBit) in Some (w64 (control - kLockBit)).

Lemma lock_find turns :
  lock turns = (fun w => Z.lor w.1 kLockBit)
    <$> List.find (fun ec => (Z.land ec.1 kLockBit =? 0) && (ec.2 =? ec.1)) turns.
Proof. induction turns as [|[e c] turns IH]; [done|]. cbn. by destruct (_ && _). Qed.

(** [try_lock] is one turn of the loop of [lock] *)
Lemma try_lock_turn expected seen :
  try_lock expected seen = match lock [(expected, seen)] with Some w => (true, w) | None => (false, seen) end.
Proof.
  unfold try_lock. cbn [lock].
  assert (Z.land expected kLockBit = 0 \/ Z.land expected kLockBit = 1) as [->| ->]; [|by destruct (seen =? expected)|done].
  change kLockBit with (Z.ones 1). rewrite Z.land_ones by done. pose proof (Z.mod_pos_bound expected (2 ^ 1)). lia.
Qed.

(** no version, no optimistic reads *)
#[export] Instance SpinLock_latch : VersionLatch := {
  vl_init w := w = kInitCode;
  vl_lock := lock;
  vl_bump w := None;
  vl_release u w := unlock w;
  vl_begin _ := None;
  vl_end _ _ := None;
  vl_owner_op _ _ := False;
  vl_any_op _ _ := False;
  vl_locked w := negb (Z.land w kLockBit =? 0);
  vl_version w := 0;
  vl_modulus := 1;
  vl_rep w n l := w = Z.b2z l;
}.

#[global] Instance SpinLock_latch_laws : VersionLatchLaws SpinLock_latch.
Proof.
  split; cbn [vl_modulus vl_rep vl_init vl_lock vl_bump vl_release vl_begin vl_end vl_locked vl_version
              vl_owner_op vl_any_op SpinLock_latch]; try done.
  - by intros w n [] ->.
  - intros turns e w w' _ l H0 H1 ->. rewrite lock_find in H0, H1. rewrite find_snoc in H1.
    destruct (List.find _ turns); [done|]. cbn in H1. destruct (_ && _) eqn:E in H1; [|done].
    bool_to_prop. subst e. injection H1 as <-. by destruct l.
  - intros b w w' _ ->. by intros [= <-].
  - intros. by rewrite !Z.mod_1_r.
Qed.
End SpinLock.

Module VerLock.
(** util/lock.h:106-110 [VerLock] *)
Definition kInitCode : Z := 0x00.
Definition kLockBit : Z := 0x10000.
Definition kVerAtom : Z := kLockBit * 2.
Definition kVerMask : Z := w64 (Z.lnot (kVerAtom - 1)).
Definition kRestMask : Z := kLockBit - 1.

(** util/lock.h:127-138 [lock_exclusive] *)
Fixpoint lock_exclusive (turns : list (Z * Z)) : option Z :=
  match turns with
  | [] => None
  | (expected, seen) :: turns =>
      let desired := Z.lor expected kLockBit in
      if (Z.land expected kLockBit =? 0) && (seen =? expected) then Some desired
      else lock_exclusive turns
  end.

(** util/lock.h:143-143 [update_version] *)
Definition update_version (code : Z) : Z := w64 (code + kVerAtom).

(** util/lock.h:149-154 [unlock_exclusive]

    adding the lock bit to a locked word carries into the version *)
Definition unlock_exclusive (update : bool) (code : Z) : option Z :=
  assert* negb (Z.land code kLockBit =? 0) in
  Some (if update then w64 (code + kLockBit) else w64 (code - kLockBit)).

(** util/lock.h:160-170 [lock_shared] *)
Fixpoint lock_shared (loads : list Z) : option Z :=
  match loads with
  | [] => None
  | code :: loads =>
      if Z.land code kLockBit =? 0 then Some (Z.land code kVerMask) else lock_shared loads
  end.

(** util/lock.h:177-192 [unlock_shared] *)
Fixpoint unlock_shared (loads : list Z) (version : Z) : option bool :=
  match loads with
  | [] => None
  | code :: loads =>
      if negb (Z.land code kLockBit =? 0) then unlock_shared loads version
      else if negb (Z.land code kVerMask =? version) then Some false
      else Some true
  end.

(** util/lock.h:197-199 [version_changed] *)
Definition version_changed (loads : list Z) (version : Z) : option bool :=
  negb <$> unlock_shared loads version.

(** util/lock.h:204-204 [locked] *)
Definition locked (code : Z) : bool := negb (Z.land code kLockBit =? 0).

(** the word: 47 bits of version, the lock, 16 reserved bits *)
Definition pack (rest ver : Z) (l : bool) : Z := rest + 2 ^ 16 * Z.b2z l + 2 ^ 17 * ver.

Definition ranges (rest ver : Z) : Prop := 0 <= rest < 2 ^ 16 /\ 0 <= ver < 2 ^ 47.

Lemma pack_lock rest ver l :
  ranges rest ver -> Z.land (pack rest ver l) kLockBit = 2 ^ 16 * Z.b2z l.
Proof.
  intros [Hr Hv]. change kLockBit with (2 ^ 16). rewrite land_bit, testbit_div by done.
  unfold pack. destruct l; cbn [Z.b2z]; Z.to_euclidean_division_equations; lia.
Qed.

Lemma pack_version rest ver l :
  ranges rest ver -> Z.land (pack rest ver l) kVerMask = 2 ^ 17 * ver.
Proof.
  intros [Hr Hv]. change kVerMask with (2 ^ 64 - 2 ^ 17). rewrite land_mask by done.
  unfold pack. destruct l; cbn [Z.b2z]; Z.to_euclidean_division_equations; lia.
Qed.

Lemma pack_acquire rest ver :
  ranges rest ver -> Z.lor (pack rest ver false) kLockBit = pack rest ver true.
Proof.
  intros Hr. rewrite <- Z.lxor_lor by (by rewrite pack_lock).
  rewrite <- Z.add_nocarry_lxor by (by rewrite pack_lock).
  unfold pack, kLockBit. cbn. lia.
Qed.

Lemma pack_advance rest ver l l' d :
  ranges rest ver -> 2 ^ 16 * Z.b2z l + d = 2 ^ 16 * Z.b2z l' + 2 ^ 17 ->
  w64 (pack rest ver l + d) = pack rest ((ver + 1) mod 2 ^ 47) l'.
Proof.
  intros [Hr Hv] E. unfold wrap, pack.
  replace (rest + 2 ^ 16 * Z.b2z l + 2 ^ 17 * ver + d)
    with (rest + 2 ^ 16 * Z.b2z l' + 2 ^ 17 * (ver + 1)) by lia. clear E.
  destruct (decide (ver + 1 < 2 ^ 47)) as [Hs|Hs].
  - rewrite (Z.mod_small (ver + 1)) by lia. apply Z.mod_small. destruct l'; cbn [Z.b2z]; lia.
  - assert (ver = 2 ^ 47 - 1) as -> by lia.
    destruct l'; cbn [Z.b2z]; Z.to_euclidean_division_equations; lia.
Qed.

(** the loops, as searches for the turn they end with *)
Definition free (code : Z) : bool := Z.land code kLockBit =? 0.

Lemma lock_exclusive_find turns :
  lock_exclusive turns = (fun w => Z.lor w.1 kLockBit) <$> List.find (fun ec => free ec.1 && (ec.2 =? ec.1)) turns.
Proof.
  induction turns as [|[e c] turns IH]; [done|]. unfold free in *. cbn [lock_exclusive List.find fst snd].
  by destruct ((Z.land e kLockBit =? 0) && (c =? e)).
Qed.

Lemma lock_shared_find loads : lock_shared loads = (fun w => Z.land w kVerMask) <$> List.find free loads.
Proof. induction loads as [|w loads IH]; [done|]. cbn. unfold free at 1. by destruct (_ =? 0). Qed.

Lemma unlock_shared_find loads v :
  unlock_shared loads v = (fun w => Z.land w kVerMask =? v) <$> List.find free loads.
Proof.
  induction loads as [|w loads IH]; [done|]. cbn. unfold free at 1. destruct (_ =? 0); [|done]. cbn. by destruct (_ =? v).
Qed.

Lemma pack_free rest ver l : ranges rest ver -> free (pack rest ver l) = negb l.
Proof. intros Hr. unfold free. rewrite pack_lock by done. by destruct l. Qed.

#[export] Instance VerLock_latch : VersionLatch := {
  vl_init w := w = kInitCode;
  vl_lock := lock_exclusive;
  vl_bump w := Some (update_version w);
  vl_release u w := unlock_exclusive u w;
  vl_begin := lock_shared;
  vl_end := unlock_shared;
  (* the holder may use the reserved bits *)
  vl_owner_op w w' := exists rest rest' ver l,
    ranges rest ver /\ 0 <= rest' < 2 ^ 16 /\ w = pack rest ver l /\ w' = pack rest' ver l;
  vl_any_op _ _ := False;
  vl_locked w := locked w;
  vl_version w := Z.land w kVerMask;
  vl_modulus := 2 ^ 47;
  vl_rep w n l := exists rest, ranges rest (n mod 2 ^ 47) /\ w = pack rest (n mod 2 ^ 47) l;
}.

Lemma next_ranges rest n : ranges rest (n mod 2 ^ 47) -> ranges rest ((n + 1) mod 2 ^ 47).
Proof. intros [? _]. split; [done|]. apply Z.mod_pos_bound. lia. Qed.

#[global] Instance VerLock_latch_laws : VersionLatchLaws VerLock_latch.
Proof.
  split; cbn [vl_modulus vl_rep vl_init vl_lock vl_bump vl_release vl_begin vl_end vl_locked vl_version
              vl_owner_op vl_any_op VerLock_latch].
  - lia.
  - intros w ->. exists 0. done.
  - intros w n l (rest & Hr & ->). unfold locked. rewrite pack_lock by done. by destruct l.
  - done.
  - intros turns e w w' n l H0 H1 (rest & Hr & ->). rewrite lock_exclusive_find in H0, H1. rewrite find_snoc in H1.
    destruct (List.find _ turns); [done|]. cbn [fst snd] in H1. destruct (_ && _) eqn:E in H1; [|done].
    bool_to_prop. subst e. rewrite pack_free in H by done. destruct l; [done|]. injection H1 as <-. split; [done|].
    exists rest. split; [done|]. cbn [fst]. by rewrite pack_acquire.
  - intros w w' n (rest & Hr & ->) [= <-]. exists rest. split; [by apply next_ranges|].
    unfold update_version. rewrite (pack_advance _ _ _ true) by done.
    by rewrite Zplus_mod_idemp_l.
  - intros b w w' n (rest & Hr & ->) [_ E]%asserting_Some. exists rest.
    destruct b; injection E as <-.
    + split; [by apply next_ranges|]. rewrite (pack_advance _ _ _ false) by done.
      by rewrite Zplus_mod_idemp_l.
    + split; [done|]. rewrite wrap_small; unfold ranges, pack, kLockBit in *; cbn; lia.
  - done.
  - intros loads w v n l H0 H1 (rest & Hr & ->). rewrite lock_shared_find in H0, H1. rewrite find_snoc in H1.
    destruct (List.find _ loads); [done|]. cbn in H1. rewrite pack_free in H1 by done. destruct l; [done|]. by injection H1 as <-.
  - done.
  - intros loads w v b n l H0 H1 (rest & Hr & ->). rewrite unlock_shared_find in H0, H1. rewrite find_snoc in H1.
    destruct (List.find _ loads); [done|]. cbn in H1. rewrite pack_free in H1 by done. destruct l; [done|].
    injection H1 as <-. split; [done|]. rewrite Z.eqb_eq. done.
  - intros w w' n (rest & Hr & ->) (r1 & r2 & v & l & H1 & H2 & E & ->).
    exists r2. split; [split; [done|by destruct Hr]|].
    pose proof (f_equal (fun w => Z.land w kLockBit) E) as El.
    pose proof (f_equal (fun w => Z.land w kVerMask) E) as Ev. cbn beta in *.
    rewrite !pack_lock in El by done. rewrite !pack_version in Ev by done.
    replace v with (n mod 2 ^ 47) by lia. destruct l; [done|cbn in El; lia].
  - done.
  - intros w w' n n' (r & Hr & ->) (r' & Hr' & ->). rewrite !pack_version by done. lia.
Qed.
End VerLock.

Module RSpinSharedLatch.
Definition w_latch : Z := 2 ^ 63.

(** BLinkTree/latch.h:50-52 [w_latched] *)
Definition w_latched (flag : Z) : bool := Z.shiftr flag 63 =? 1.
(** BLinkTree/latch.h:54-56 [reader_cnt] *)
Definition reader_cnt (flag : Z) : Z := Z.land flag (w64 (Z.lnot (2 ^ 63))).
(** BLinkTree/latch.h:58-60 [none_latched] *)
Definition none_latched (flag : Z) : bool := flag =? 0.

(** where a thread is; [Backing] is between the [fetch_add] of [latch_shared]
    that met a writer and the [fetch_sub] that takes it back *)
Inductive pc := Idle | Backing | Reader | Loaded (flag : Z) | Writer.

Record state := mkState { flag_ : Z; pcs : list pc }.

(** BLinkTree/latch.h:63-113 [RSpinSharedLatch]

    the atomic accesses of [latch_shared], [unlatch_shared], [latch_exclusive]
    and [unlatch_exclusive]; the sleeping changes no state *)
Inductive step : state -> state -> Prop :=
  | latch_shared s i :
      pcs s !! i = Some Idle ->
      step s (mkState (w64 (flag_ s + 1))
                (<[i := if w_latched (flag_ s) then Backing else Reader]> (pcs s)))
  | latch_shared_back s i :
      pcs s !! i = Some Backing ->
      step s (mkState (w64 (flag_ s - 1)) (<[i := Idle]> (pcs s)))
  | unlatch_shared s i :
      pcs s !! i = Some Reader ->
      step s (mkState (w64 (flag_ s - 1)) (<[i := Idle]> (pcs s)))
  | latch_exclusive_load s i :
      pcs s !! i = Some Idle ->
      step s (mkState (flag_ s) (<[i := Loaded (flag_ s)]> (pcs s)))
  | latch_exclusive_cas s i flag :
      pcs s !! i = Some (Loaded flag) -> none_latched flag = true -> flag_ s = flag ->
      step s (mkState w_latch (<[i := Writer]> (pcs s)))
  | latch_exclusive_retry s i flag :
      pcs s !! i = Some (Loaded flag) -> none_latched flag = false \/ flag_ s <> flag ->
      step s (mkState (flag_ s) (<[i := Idle]> (pcs s)))
  | unlatch_exclusive s i :
      pcs s !! i = Some Writer ->
      step s (mkState (w64 (flag_ s - w_latch)) (<[i := Idle]> (pcs s))).

Definition init (threads : nat) : state := mkState 0 (replicate threads Idle).

Definition reachable (threads : nat) (s : state) : Prop := rtc step (init threads) s.

(** the share of a thread in the flag *)
Definition ticket (p : pc) : Z := match p with Reader | Backing => 1 | _ => 0 end.
Definition writer (p : pc) : Z := match p with Writer => 1 | _ => 0 end.

Definition total (f : pc -> Z) (l : list pc) : Z := foldr (fun p n => f p + n) 0 l.

Lemma total_insert f l i p q :
  l !! i = Some p -> total f (<[i := q]> l) = total f l - f p + f q.
Proof.
  revert i. induction l as [|x l IH]; intros [|i] H; cbn in *; try done.
  - injection H as ->. lia.
  - unfold total in *. rewrite IH by done. lia.
Qed.

Lemma total_bounds f l : (forall p, 0 <= f p <= 1) -> 0 <= total f l <= Z.of_nat (length l).
Proof.
  intros Hf. induction l as [|x l IH]; cbn [total foldr length]; [lia|].
  specialize (Hf x). unfold total in IH. lia.
Qed.

Lemma total_elem f l i p : (forall p, 0 <= f p <= 1) -> l !! i = Some p -> f p <= total f l.
Proof.
  intros Hf. revert i. induction l as [|x l IH]; intros [|i] H; cbn in *; try done.
  - injection H as ->. pose proof (total_bounds f l Hf). unfold total in *. lia.
  - specialize (IH i H). specialize (Hf x). unfold total in *. lia.
Qed.

Lemma total_replicate f n p : f p = 0 -> total f (replicate n p) = 0.
Proof. intros E. induction n; cbn; [done|]. rewrite E. done. Qed.

Lemma total_two f l i j p q :
  (forall p, 0 <= f p <= 1) -> f Idle = 0 -> l !! i = Some p -> l !! j = Some q ->
  f p = 1 -> f q = 1 -> total f l <= 1 -> i = j.
Proof.
  intros Hf H0 Hi Hj Hp Hq Ht. destruct (decide (i = j)) as [|Hne]; [done|exfalso].
  pose proof (total_insert f l i p Idle Hi) as E.
  assert (f q <= total f (<[i := Idle]> l)); [|lia].
  apply (total_elem f _ j); [done|]. by rewrite list_lookup_insert_ne.
Qed.

Definition reader (p : pc) : Z := match p with Reader => 1 | _ => 0 end.

Lemma ticket_bound p : 0 <= ticket p <= 1. Proof. destruct p; cbn; lia. Qed.
Lemma writer_bound p : 0 <= writer p <= 1. Proof. destruct p; cbn; lia. Qed.
Lemma reader_bound p : 0 <= reader p <= 1. Proof. destruct p; cbn; lia. Qed.

(** the flag counts the readers, those backing out included, under the writer's bit *)
Record inv (threads : nat) (s : state) : Prop := {
  inv_threads : length (pcs s) = threads;
  inv_flag : flag_ s = 2 ^ 63 * total writer (pcs s) + total ticket (pcs s);
  inv_excl : total writer (pcs s) = 0 \/ (total writer (pcs s) = 1 /\ total reader (pcs s) = 0);
}.

Lemma total_reader l : total reader l <= total ticket l.
Proof. induction l as [|[] l IH]; cbn [total foldr reader ticket] in *; unfold total in *; lia. Qed.

Lemma w_latched_spec w t : 0 <= t < 2 ^ 63 -> w = 0 \/ w = 1 ->
  w_latched (2 ^ 63 * w + t) = (w =? 1).
Proof.
  intros Ht Hw. unfold w_latched. rewrite Z.shiftr_div_pow2 by done.
  rewrite Z.add_comm, Z.mul_comm, Z_div_plus_full, Z.div_small by lia. done.
Qed.

Lemma inv_step threads s s' :
  Z.of_nat threads < 2 ^ 62 -> inv threads s -> step s s' -> inv threads s'.
Proof.
  intros Hn [Hl Hf He] Hstep.
  pose proof (total_bounds ticket (pcs s) ticket_bound) as Ht.
  pose proof (total_bounds writer (pcs s) writer_bound) as Hw.
  pose proof (total_bounds reader (pcs s) reader_bound) as Hrd. rewrite Hl in *.
  assert (forall i p q f', pcs s !! i = Some p ->
    f' = flag_ s + 2 ^ 63 * (writer q - writer p) + (ticket q - ticket p) ->
    (total writer (pcs s) - writer p + writer q = 0
     \/ total writer (pcs s) - writer p + writer q = 1
        /\ total reader (pcs s) - reader p + reader q = 0) ->
    inv threads (mkState f' (<[i := q]> (pcs s)))) as Hgo.
  { intros i p q f' Hi Ef Ee. split; cbn [flag_ pcs]; [by rewrite length_insert| |];
      rewrite !(total_insert _ _ _ _ _ Hi); lia. }
  destruct Hstep as [s i Hi|s i Hi|s i Hi|s i Hi|s i fl Hi H1 H2|s i fl Hi _|s i Hi];
    pose proof (total_elem ticket _ _ _ ticket_bound Hi) as Hti;
    pose proof (total_elem writer _ _ _ writer_bound Hi) as Hwi;
    pose proof (total_elem reader _ _ _ reader_bound Hi) as Hri;
    cbn [ticket writer reader] in *; eapply Hgo; try exact Hi; cbn [ticket writer reader];
    unfold wrap, w_latch; try (rewrite Z.mod_small by lia); try lia.
  - destruct (w_latched _); cbn; lia.
  - rewrite Hf, w_latched_spec by lia.
    destruct (Z.eqb_spec (total writer (pcs s)) 1); cbn [writer reader]; lia.
  - unfold none_latched in H1. subst. blia.
  - unfold none_latched in H1. subst. pose proof (total_reader (pcs s)). bool_to_prop. lia.
Qed.

Lemma inv_reachable threads s :
  Z.of_nat threads < 2 ^ 62 -> reachable threads s -> inv threads s.
Proof.
  intros Hn Hr. unfold reachable in Hr.
  assert (inv threads (init threads)) as Hi.
  { split; cbn [flag_ pcs init]; [apply length_replicate|by rewrite !total_replicate|].
    left. by rewrite total_replicate. }
  revert Hi. induction Hr; [done|]. eauto using inv_step.
Qed.
Lemma total_pos f l :
  (forall p, 0 <= f p <= 1) -> 0 < total f l -> exists i p, l !! i = Some p /\ f p = 1.
Proof.
  intros Hf. induction l as [|x l IH]; cbn; [lia|]. intros Ht. destruct (decide (f x = 1)) as [Hx|Hx].
  - by exists 0%nat, x.
  - pose proof (Hf x). unfold total in IH. destruct IH as (i & p & Hi & Hp); [lia|]. by exists (S i), p.
Qed.

Lemma inv_exclusion threads s i j p :
  inv threads s -> pcs s !! i = Some Writer -> pcs s !! j = Some p -> p = Writer \/ p = Reader -> j = i.
Proof.
  intros [_ _ He] Hi Hj Hp. pose proof (total_elem _ _ _ _ writer_bound Hi) as Hw. cbn in Hw. destruct He as [He|[He Hz]]; [lia|].
  destruct Hp as [->| ->].
  - symmetry. eapply (total_two writer _ i j); [exact writer_bound|done|exact Hi|exact Hj|done|done|lia].
  - pose proof (total_elem _ _ _ _ reader_bound Hj) as Hx. cbn in Hx. lia.
Qed.

Lemma reader_cnt_spec w t : 0 <= t < 2 ^ 63 -> w = 0 \/ w = 1 -> reader_cnt (2 ^ 63 * w + t) = t.
Proof.
  intros Ht Hw. unfold reader_cnt. change (w64 (Z.lnot (2 ^ 63))) with (Z.ones 63). rewrite Z.land_ones by done.
  rewrite Z.add_comm, Z.mul_comm, Z_mod_plus_full. by apply Z.mod_small.
Qed.

(** the flag, read by the functions of the code *)
Lemma inv_counts threads s :
  Z.of_nat threads < 2 ^ 62 -> inv threads s ->
  reader_cnt (flag_ s) = total ticket (pcs s) /\ 0 <= total ticket (pcs s) <= Z.of_nat threads
  /\ w_latched (flag_ s) = bool_decide (0 < total writer (pcs s))
  /\ w_latched (flag_ s + 1) = bool_decide (0 < total writer (pcs s)).
Proof.
  intros Hn [Hl Hf He]. pose proof (total_bounds _ (pcs s) ticket_bound) as Ht. rewrite Hl in Ht.
  assert (total writer (pcs s) = 0 \/ total writer (pcs s) = 1) as Hw by lia.
  assert ((total writer (pcs s) =? 1) = bool_decide (0 < total writer (pcs s))) as Eb by (by destruct Hw as [->| ->]).
  rewrite Hf, reader_cnt_spec by lia. split; [done|]. split; [done|].
  split; [by rewrite w_latched_spec by lia|]. by rewrite <- Z.add_assoc, w_latched_spec by lia.
Qed.
End RSpinSharedLatch.

(** ** Properties *)

(** C35: [RSpinSharedLatch], in every state that fewer than 2^62 threads reach in any order of
    their accesses: a writer excludes every other writer and every reader (though not the
    threads that are backing out), and the writer's bit says that there is one, as the assertion
    of [unlatch_exclusive] has it; the other bits count the readers and the threads backing
    out. So no access overflows or underflows the flag, nor its reader count: one more reader
    does not reach the writer's bit, one that leaves was counted, and a writer that leaves
    finds its bit. *)
Theorem RSpinSharedLatch_exclusion (threads : nat) (s : RSpinSharedLatch.state) :
  Z.of_nat threads < 2 ^ 62 -> RSpinSharedLatch.reachable threads s ->
  (forall i j p, RSpinSharedLatch.pcs s !! i = Some RSpinSharedLatch.Writer -> RSpinSharedLatch.pcs s !! j = Some p ->
     p = RSpinSharedLatch.Writer \/ p = RSpinSharedLatch.Reader -> j = i)
  /\ (RSpinSharedLatch.w_latched (RSpinSharedLatch.flag_ s) = true
      <-> exists i, RSpinSharedLatch.pcs s !! i = Some RSpinSharedLatch.Writer)
  /\ RSpinSharedLatch.reader_cnt (RSpinSharedLatch.flag_ s)
     = RSpinSharedLatch.total RSpinSharedLatch.ticket (RSpinSharedLatch.pcs s)
  /\ 0 <= RSpinSharedLatch.reader_cnt (RSpinSharedLatch.flag_ s) <= Z.of_nat threads
  /\ RSpinSharedLatch.w_latched (RSpinSharedLatch.flag_ s + 1) = RSpinSharedLatch.w_latched (RSpinSharedLatch.flag_ s)
  /\ RSpinSharedLatch.flag_ s + 1 < 2 ^ 64
  /\ (forall i p, RSpinSharedLatch.pcs s !! i = Some p ->
        p = RSpinSharedLatch.Reader \/ p = RSpinSharedLatch.Backing ->
        1 <= RSpinSharedLatch.reader_cnt (RSpinSharedLatch.flag_ s))
  /\ (forall i, RSpinSharedLatch.pcs s !! i = Some RSpinSharedLatch.Writer -> 2 ^ 63 <= RSpinSharedLatch.flag_ s).
Proof.
  intros Hn Hr. apply RSpinSharedLatch.inv_reachable in Hr as Hinv; [|done].
  destruct (RSpinSharedLatch.inv_counts threads s Hn Hinv) as (Hcnt & Hb & Hw & Hw1). pose proof Hinv as [Hl Hf He].
  split; [intros i j p Hi Hj; by apply (RSpinSharedLatch.inv_exclusion threads s i j p)|].
  split; [|split; [done|split; [lia|split; [by rewrite Hw, Hw1|split; [lia|split]]]]].
  - rewrite Hw, bool_decide_eq_true. split; [|intros [i Hi]; pose proof (RSpinSharedLatch.total_elem _ _ _ _ RSpinSharedLatch.writer_bound Hi); cbn in *; lia].
    intros Ht. apply RSpinSharedLatch.total_pos in Ht as (i & p & Hi & Hp); [|apply RSpinSharedLatch.writer_bound].
    exists i. by destruct p.
  - intros i p Hi Hp. rewrite Hcnt. pose proof (RSpinSharedLatch.total_elem _ _ _ _ RSpinSharedLatch.ticket_bound Hi) as Ht.
    by destruct Hp as [->| ->].
  - intros i Hi. pose proof (RSpinSharedLatch.total_elem _ _ _ _ RSpinSharedLatch.writer_bound Hi) as Ht. cbn in Ht. lia.
Qed.

Lemma RSpinSharedLatch_exclusion_witness :
  exists s, RSpinSharedLatch.reachable 2 s
    /\ RSpinSharedLatch.pcs s !! 0%nat = Some RSpinSharedLatch.Writer
    /\ RSpinSharedLatch.pcs s !! 1%nat = Some RSpinSharedLatch.Backing
    /\ RSpinSharedLatch.w_latched (RSpinSharedLatch.flag_ s) = true.
Proof.
  pose (s0 := RSpinSharedLatch.init 2).
  pose (s3 := RSpinSharedLatch.mkState (2 ^ 63 + 1) [RSpinSharedLatch.Writer; RSpinSharedLatch.Backing]).
  assert (Hr : RSpinSharedLatch.reachable 2 s3).
  { eapply rtc_l; [by apply (RSpinSharedLatch.latch_exclusive_load s0 0)|].
    eapply rtc_l; [by eapply (RSpinSharedLatch.latch_exclusive_cas _ 0)|].
    eapply rtc_l; [by eapply (RSpinSharedLatch.latch_shared _ 1)|]. apply rtc_refl. }
  exists s3. split; [exact Hr|]. split; [reflexivity|]. split; [reflexivity|].
  destruct (RSpinSharedLatch_exclusion 2 s3 eq_refl Hr) as (_ & Hw & _).
  apply Hw. by exists 0%nat.
Defined.

(** C36: Threads run the loops of [lock_exclusive], [lock_shared] and [unlock_shared], one
    atomic access at a time, [update_version], and [unlock_exclusive] with either argument, in
    any order. In every state they reach, at most one thread holds the exclusive lock; and when
    [unlock_shared] succeeds for the version that [lock_shared] returned (fewer than 2^47
    version updates in between), or [version_changed] says no, every write since the read began
    was made without the lock, or by a holder that released it with [update] false and no
    [update_version]. *)
Theorem VerLock_correct (s : lstate) :
  reachable (L := VerLock.VerLock_latch) s ->
  (forall t1 t2, is_owner (pcs s t1) -> is_owner (pcs s t2) ->
     t1 = t2 /\ VerLock.locked (word s) = true)
  /\ (forall t v d l g loads, pcs s t = PReading v d l g loads -> count s - g < 2 ^ 47 ->
        VerLock.unlock_shared (loads ++ [word s]) v = Some true
        \/ VerLock.version_changed (loads ++ [word s]) v = Some false -> data s - d = loose s - l).
Proof.
  intros Hr. split; [intros; by apply (mutual_exclusion s t1 t2 Hr)|].
  intros t v d l g loads Ht Hc Hu. apply (validated_read s t v d l g loads Hr Ht); [|done]. cbn.
  destruct Hu as [Hu|Hu]; [done|]. unfold VerLock.version_changed in Hu.
  destruct (VerLock.unlock_shared _ v) as [[]|]; done.
Qed.

Lemma VerLock_correct_witness :
  exists s, reachable (L := VerLock.VerLock_latch) s
    /\ pcs s 1%nat = PReading (2 ^ 17) 1 0 1 [] /\ data s = 1 /\ data s - 1 = loose s - 0.
Proof.
  pose (s0 := linit 0).
  pose (s1 := goto s0 0%nat (PLocking [])).
  pose (s2 := goto s1 0%nat (PLoaded [] 0)).
  pose (s3 := mkL (2 ^ 16) 0 0 0 (set_pc s2 0%nat (POwner 0 false))).
  pose (s4 := mkL (2 ^ 16) 1 0 0 (set_pc s3 0%nat (POwner 1 false))).
  pose (s5 := mkL (2 ^ 17) 1 0 1 (set_pc s4 0%nat PIdle)).
  pose (s6 := goto s5 1%nat (PBegin [])).
  pose (s7 := goto s6 1%nat (PReading (2 ^ 17) 1 0 1 [])).
  assert (Hr : reachable (L := VerLock.VerLock_latch) s7).
  { exists 0. split; [done|].
    eapply rtc_l; [by apply (step_lock (L := VerLock.VerLock_latch) s0 0%nat)|].
    eapply rtc_l; [by apply (step_load (L := VerLock.VerLock_latch) s1 0%nat [])|].
    eapply rtc_l; [by apply (step_acquire (L := VerLock.VerLock_latch) s2 0%nat [] 0 (2 ^ 16))|].
    eapply rtc_l; [by apply (step_write (L := VerLock.VerLock_latch) s3 0%nat 0 false)|].
    eapply rtc_l; [by apply (step_release (L := VerLock.VerLock_latch) s4 0%nat 1 false true (2 ^ 17))|].
    eapply rtc_l; [by apply (step_read (L := VerLock.VerLock_latch) s5 1%nat)|].
    eapply rtc_l; [by apply (step_begin (L := VerLock.VerLock_latch) s6 1%nat [] (2 ^ 17))|]. apply rtc_refl. }
  exists s7. split; [exact Hr|]. split; [reflexivity|]. split; [reflexivity|].
  exact (proj2 (VerLock_correct s7 Hr) 1%nat (2 ^ 17) 1 0 1 [] eq_refl eq_refl (or_introl eq_refl)).
Defined.

(** [SpinLock], in every interleaving: at most one thread is between [lock] (or a
    successful [try_lock]) and [unlock], and meanwhile [try_lock] fails. *)
Theorem SpinLock_correct (s : lstate) (t1 t2 : nat) :
  reachable (L := SpinLock.SpinLock_latch) s ->
  is_owner (pcs s t1) -> is_owner (pcs s t2) ->
  t1 = t2 /\ SpinLock.try_lock (word s) (word s) = (false, word s).
Proof.
  intros Hr H1 H2. destruct (mutual_exclusion s t1 t2 Hr H1 H2) as [E _]. split; [done|].
  apply linv_reachable in Hr. pose proof (linv_owner s t1 Hr H1) as Hw. cbn in Hw. by rewrite Hw.
Qed.

Lemma SpinLock_correct_witness :
  exists s, reachable (L := SpinLock.SpinLock_latch) s /\ is_owner (pcs s 0%nat)
    /\ SpinLock.try_lock (word s) (word s) = (false, word s).
Proof.
  pose (s0 := linit 0).
  pose (s1 := goto s0 0%nat (PLocking [])).
  pose (s2 := goto s1 0%nat (PLoaded [] 0)).
  pose (s3 := mkL 1 0 0 0 (set_pc s2 0%nat (POwner 0 false))).
  assert (Hr : reachable (L := SpinLock.SpinLock_latch) s3).
  { exists 0. split; [done|].
    eapply rtc_l; [by apply (step_lock (L := SpinLock.SpinLock_latch) s0 0%nat)|].
    eapply rtc_l; [by apply (step_load (L := SpinLock.SpinLock_latch) s1 0%nat [])|].
    eapply rtc_l; [by apply (step_acquire (L := SpinLock.SpinLock_latch) s2 0%nat [] 0 1)|].
    apply rtc_refl. }
  exists s3. split; [exact Hr|]. split; [exact I|].
  exact (proj2 (SpinLock_correct s3 0%nat 0%nat Hr I I)).
Defined.
