(* ===== verification/Hash.v ===== *)
(** * Hashing: [src/util/hash.h], [src/util/internal/hash-internal.h]

    The hash functions as functions of the bytes of the key. A read past the end
    of the key is [None]. *)

From S2P Require Import Prelude Bits Encode.

(** ** FASTER's hash *)

(** util/internal/hash-internal.h:403-405 [Rotr64] *)
Definition Rotr64 (x n : Z) : Z := Z.lor (Z.shiftr x n) (w64 (Z.shiftl x (64 - n))).

Definition kMagicNum : Z := 40343.

(** util/internal/hash-internal.h:407-423 [faster_hash]

    [data] is the memory from the key on, read through a [char] pointer, so that a byte
    above 127 is added as a negative number *)
Definition faster_hash_bytes (data : list Z) (len : Z) : option Z :=
  let* hashState := for_range (fun idx hashState =>
    let* b := aget data idx in Some (w64 (kMagicNum * hashState + schar b))) 0 len len in
  Some (Rotr64 (w64 (kMagicNum * hashState)) 6).

(** util/internal/hash-internal.h:425-434 [faster_hash] *)
Definition faster_hash (key : Z) : Z :=
  let local_rand := key in
  let local_rand_hash := 8 in
  let local_rand_hash := w64 (40343 * local_rand_hash + Z.land local_rand 0xFFFF) in
  let local_rand_hash := w64 (40343 * local_rand_hash + Z.land (Z.shiftr local_rand 16) 0xFFFF) in
  let local_rand_hash := w64 (40343 * local_rand_hash + Z.land (Z.shiftr local_rand 32) 0xFFFF) in
  let local_rand_hash := w64 (40343 * local_rand_hash + Z.shiftr local_rand 48) in
  let local_rand_hash := w64 (40343 * local_rand_hash) in
  Rotr64 local_rand_hash 43.

(** util/hash.h:117-131 [hash]

    the integer overloads: a signed key is converted to the unsigned type *)
Definition hash (T : ktype) (key : Z) : Z := faster_hash (wrap (kbits T) key).

(** the fingerprint of a key: [char tag = hash(key)] *)
Definition tag_of (T : ktype) (key : Z) : Z := w8 (hash T key).

Lemma tag_of_byte T key : is_byte (tag_of T key).
Proof. unfold is_byte, tag_of. change 256 with (2 ^ 8). by apply wrap_bounds. Qed.
