(* ===== verification/HashBytes.v ===== *)
(** * Hashing of strings of bytes: [src/util/internal/hash-internal.h]

    The functions of Jenkins, Spooky, Murmur and City, on the memory from the key on:
    [s] is the list of its readable bytes, and [len] the length of the key. A read
    past the end of [s] is [None], so the definitions say what is read. Words are
    little-endian, as on the machines the code is for; an address is an offset in [s]. *)

From S2P Require Import Prelude Bits Hash.

Declare Scope word_scope.
Delimit Scope word_scope with word.

(** arithmetic of [uint64_t] *)
Notation "x +% y" := (w64 (x + y)) (at level 50, left associativity) : word_scope.
Notation "x *% y" := (w64 (x * y)) (at level 40, left associativity) : word_scope.
Notation "x >>% n" := (Z.shiftr x n) (at level 51, left associativity) : word_scope.
Notation "x <<% n" := (w64 (Z.shiftl x n)) (at level 51, left associativity) : word_scope.
Notation "x ^% y" := (Z.lxor x y) (at level 54, left associativity) : word_scope.
#[local] Open Scope word_scope.

(** ** Reading *)

(** [n] bytes from [off] on *)
Definition read_bytes (s : list Z) (off n : Z) : option (list Z) :=
  if (0 <=? off) && (0 <=? n) && (off + n <=? Z.of_nat (length s))
  then Some (take (Z.to_nat n) (drop (Z.to_nat off) s)) else None.

(** util/internal/hash-internal.h:468-472 [Fetch64]

    also [u.p64[i]], and [*data] of [murmur_hash64] *)
Definition Fetch64 (s : list Z) (off : Z) : option Z := let* l := read_bytes s off 8 in Some (of_bytes l).
(** util/internal/hash-internal.h:474-478 [Fetch32]

    also [u.p32[i]], and [k[i]] of [jenkins_hash] *)
Definition Fetch32 (s : list Z) (off : Z) : option Z := let* l := read_bytes s off 4 in Some (of_bytes l).

Module Jenkins.
(** util/internal/hash-internal.h:16-27 [jenkins_byte_hash]

    [char] is signed *)
Definition jenkins_byte_hash (s : list Z) (len : Z) : option Z :=
  let* hash := for_range (fun i hash =>
    let* b := aget s i in
    let hash := hash +% schar b in
    let hash := hash +% (hash <<% 10) in
    Some (hash ^% (hash >>% 6))) 0 len 0 in
  let hash := hash +% (hash <<% 3) in
  let hash := hash ^% (hash >>% 11) in
  Some (hash +% (hash <<% 15)).

(** util/internal/hash-internal.h:29-31 [rot] *)
Definition rot (x k : Z) : Z := Z.lor (w32 (Z.shiftl x k)) (Z.shiftr x (32 - k)).

(** util/internal/hash-internal.h:33-40 [mix] *)
Definition mix (a b c : Z) : Z * Z * Z :=
  let a := w32 (a - c) in let a := Z.lxor a (rot c 4) in let c := w32 (c + b) in let b := w32 (b - a) in
  let b := Z.lxor b (rot a 6) in let a := w32 (a + c) in let c := w32 (c - b) in let c := Z.lxor c (rot b 8) in
  let b := w32 (b + a) in let a := w32 (a - c) in let a := Z.lxor a (rot c 16) in let c := w32 (c + b) in
  let b := w32 (b - a) in let b := Z.lxor b (rot a 19) in let a := w32 (a + c) in let c := w32 (c - b) in
  let c := Z.lxor c (rot b 4) in let b := w32 (b + a) in
  (a, b, c).

(** util/internal/hash-internal.h:42-50 [final] *)
Definition final (a b c : Z) : Z * Z * Z :=
  let c := Z.lxor c b in let c := w32 (c - rot b 14) in let a := Z.lxor a c in let a := w32 (a - rot c 11) in
  let b := Z.lxor b a in let b := w32 (b - rot a 25) in let c := Z.lxor c b in let c := w32 (c - rot b 16) in
  let a := Z.lxor a c in let a := w32 (a - rot c 4) in let b := Z.lxor b a in let b := w32 (b - rot a 14) in
  let c := Z.lxor c b in let c := w32 (c - rot b 24) in
  (a, b, c).

(** util/internal/hash-internal.h:65-68 [jenkins_hash]

    [k] is the offset; every turn takes 12 bytes, so the length is enough fuel *)
Fixpoint mix_loop (fuel : nat) (s : list Z) (k len a b c : Z) : option (Z * Z * Z * Z * Z) :=
  match fuel with
  | O => None
  | S fuel =>
      if 12 <? len then
        let* k0 := Fetch32 s k in
        let* k1 := Fetch32 s (k + 4) in
        let* k2 := Fetch32 s (k + 8) in
        let '(a, b, c) := mix (w32 (a + k0)) (w32 (b + k1)) (w32 (c + k2)) in
        mix_loop fuel s (k + 12) (len - 12) a b c
      else Some (k, len, a, b, c)
  end.

(** util/internal/hash-internal.h:70-109 [jenkins_hash]

    the last 1 to 12 bytes: whole words are read, and masked *)
Definition tail (s : list Z) (k len a b c : Z) : option (Z * Z * Z) :=
  let word i n := let* x := Fetch32 s (k + 4 * i) in Some (if n <? 4 then Z.land x (Z.ones (8 * n)) else x) in
  let* c := if 8 <? len then let* x := word 2 (len - 8) in Some (w32 (c + x)) else Some c in
  let* b := if 4 <? len then let* x := word 1 (Z.min 4 (len - 4)) in Some (w32 (b + x)) else Some b in
  let* x := word 0 (Z.min 4 len) in
  Some (w32 (a + x), b, c).

(** util/internal/hash-internal.h:53-115 [jenkins_hash] *)
Definition jenkins_hash (s : list Z) (len : Z) : option Z :=
  let hash := 0xc6a4a7935bd1e995 in
  let first := w32 hash in
  let second := Z.shiftr hash 32 in
  let c := w32 (0xdeadbeef + len + first) in
  let a := c in
  let b := c in
  let c := w32 (c + second) in
  let* (k, len, a, b, c) := mix_loop (S (Z.to_nat len)) s 0 len a b c in
  let* (b, c) :=
    if len =? 0 then Some (b, c)
    else
      let* (a, b, c) := tail s k len a b c in
      let '(a, b, c) := final a b c in Some (b, c) in
  Some (Z.lor c (Z.shiftl b 32)).
End Jenkins.

Module Spooky.
(** util/internal/hash-internal.h:117-119 [Rot64] *)
Definition Rot64 (x k : Z) : Z := Z.lor (x <<% k) (x >>% (64 - k)).

(** util/internal/hash-internal.h:121-134 [ShortMix] *)
Definition ShortMix (st : Z * Z * Z * Z) : Z * Z * Z * Z :=
  let '(h0, h1, h2, h3) := st in
  let h2 := Rot64 h2 50 in let h2 := h2 +% h3 in let h0 := h0 ^% h2 in let h3 := Rot64 h3 52 in
  let h3 := h3 +% h0 in let h1 := h1 ^% h3 in let h0 := Rot64 h0 30 in let h0 := h0 +% h1 in
  let h2 := h2 ^% h0 in let h1 := Rot64 h1 41 in let h1 := h1 +% h2 in let h3 := h3 ^% h1 in
  let h2 := Rot64 h2 54 in let h2 := h2 +% h3 in let h0 := h0 ^% h2 in let h3 := Rot64 h3 48 in
  let h3 := h3 +% h0 in let h1 := h1 ^% h3 in let h0 := Rot64 h0 38 in let h0 := h0 +% h1 in
  let h2 := h2 ^% h0 in let h1 := Rot64 h1 37 in let h1 := h1 +% h2 in let h3 := h3 ^% h1 in
  let h2 := Rot64 h2 62 in let h2 := h2 +% h3 in let h0 := h0 ^% h2 in let h3 := Rot64 h3 34 in
  let h3 := h3 +% h0 in let h1 := h1 ^% h3 in let h0 := Rot64 h0 5 in let h0 := h0 +% h1 in
  let h2 := h2 ^% h0 in let h1 := Rot64 h1 36 in let h1 := h1 +% h2 in let h3 := h3 ^% h1 in
  (h0, h1, h2, h3).

(** util/internal/hash-internal.h:136-148 [ShortEnd] *)
Definition ShortEnd (st : Z * Z * Z * Z) : Z * Z * Z * Z :=
  let '(h0, h1, h2, h3) := st in
  let h3 := h3 ^% h2 in let h2 := Rot64 h2 15 in let h3 := h3 +% h2 in let h0 := h0 ^% h3 in
  let h3 := Rot64 h3 52 in let h0 := h0 +% h3 in let h1 := h1 ^% h0 in let h0 := Rot64 h0 26 in
  let h1 := h1 +% h0 in let h2 := h2 ^% h1 in let h1 := Rot64 h1 51 in let h2 := h2 +% h1 in
  let h3 := h3 ^% h2 in let h2 := Rot64 h2 28 in let h3 := h3 +% h2 in let h0 := h0 ^% h3 in
  let h3 := Rot64 h3 9 in let h0 := h0 +% h3 in let h1 := h1 ^% h0 in let h0 := Rot64 h0 47 in
  let h1 := h1 +% h0 in let h2 := h2 ^% h1 in let h1 := Rot64 h1 54 in let h2 := h2 +% h1 in
  let h3 := h3 ^% h2 in let h2 := Rot64 h2 32 in let h3 := h3 +% h2 in let h0 := h0 ^% h3 in
  let h3 := Rot64 h3 25 in let h0 := h0 +% h3 in let h1 := h1 ^% h0 in let h0 := Rot64 h0 63 in
  let h1 := h1 +% h0 in
  (h0, h1, h2, h3).

Definition sc_const : Z := 0xdeadbeefdeadbeef.

(** util/internal/hash-internal.h:161-165 [Short]

    the complete sets of 32 bytes *)
Fixpoint short_loop (n : nat) (s : list Z) (u : Z) (st : Z * Z * Z * Z) : option (Z * (Z * Z * Z * Z)) :=
  match n with
  | O => Some (u, st)
  | S n =>
      let '(a, b, c, d) := st in
      let* d0 := Fetch64 s u in
      let* d1 := Fetch64 s (u + 8) in
      let '(a, b, c, d) := ShortMix (a, b, c +% d0, d +% d1) in
      let* d2 := Fetch64 s (u + 16) in
      let* d3 := Fetch64 s (u + 24) in
      short_loop n s (u + 32) (a +% d2, b +% d3, c, d)
  end.

(** [case i + 1: x += ((uint64_t) u.p8[i]) << shift], for a [remainder] not below it *)
Definition add_byte (s : list Z) (u remainder i shift x : Z) : option Z :=
  if i <? remainder then let* b := aget s (u + i) in Some (x +% (b <<% shift)) else Some x.

(** util/internal/hash-internal.h:176-214 [Short]

    the last 0 to 15 bytes *)
Definition short_tail (s : list Z) (u remainder c d : Z) : option (Z * Z) :=
  if 12 <=? remainder then
    let* d := add_byte s u remainder 14 48 d in
    let* d := add_byte s u remainder 13 40 d in
    let* d := add_byte s u remainder 12 32 d in
    let* x := Fetch32 s (u + 8) in
    let* y := Fetch64 s u in
    Some (c +% y, d +% x)
  else if 8 <=? remainder then
    let* d := add_byte s u remainder 10 16 d in
    let* d := add_byte s u remainder 9 8 d in
    let* d := add_byte s u remainder 8 0 d in
    let* y := Fetch64 s u in
    Some (c +% y, d)
  else if 4 <=? remainder then
    let* c := add_byte s u remainder 6 48 c in
    let* c := add_byte s u remainder 5 40 c in
    let* c := add_byte s u remainder 4 32 c in
    let* x := Fetch32 s u in
    Some (c +% x, d)
  else if 1 <=? remainder then
    let* c := add_byte s u remainder 2 16 c in
    let* c := add_byte s u remainder 1 8 c in
    let* c := add_byte s u remainder 0 0 c in
    Some (c, d)
  else Some (c +% sc_const, d +% sc_const).

(** util/internal/hash-internal.h:150-218 [Short] *)
Definition Short (s : list Z) (len hash1 hash2 : Z) : option (Z * Z) :=
  let remainder := len mod 32 in
  let st := (hash1, hash2, sc_const, sc_const) in
  let* (u, st, remainder) :=
    if 15 <? len then
      let* (u, st) := short_loop (Z.to_nat (len / 32)) s 0 st in
      if 16 <=? remainder then
        let '(a, b, c, d) := st in
        let* d0 := Fetch64 s u in
        let* d1 := Fetch64 s (u + 8) in
        Some (u + 16, ShortMix (a, b, c +% d0, d +% d1), remainder - 16)
      else Some (u, st, remainder)
    else Some (0, st, remainder) in
  let '(a, b, c, d) := st in
  let d := d +% (len <<% 56) in
  let* (c, d) := short_tail s u remainder c d in
  let '(a, b, _, _) := ShortEnd (a, b, c, d) in
  Some (a, b).

(** the twelve words of the state, or of a block *)
Abbreviation words := (Z * Z * Z * Z * Z * Z * Z * Z * Z * Z * Z * Z)%type.

Definition block (s : list Z) (u : Z) : option words :=
  let* d0 := Fetch64 s u in
  let* d1 := Fetch64 s (u + 8) in
  let* d2 := Fetch64 s (u + 16) in
  let* d3 := Fetch64 s (u + 24) in
  let* d4 := Fetch64 s (u + 32) in
  let* d5 := Fetch64 s (u + 40) in
  let* d6 := Fetch64 s (u + 48) in
  let* d7 := Fetch64 s (u + 56) in
  let* d8 := Fetch64 s (u + 64) in
  let* d9 := Fetch64 s (u + 72) in
  let* d10 := Fetch64 s (u + 80) in
  let* d11 := Fetch64 s (u + 88) in
  Some (d0, d1, d2, d3, d4, d5, d6, d7, d8, d9, d10, d11).

(** util/internal/hash-internal.h:220-236 [Mix] *)
Definition Mix (data st : words) : words :=
  let '(d0, d1, d2, d3, d4, d5, d6, d7, d8, d9, d10, d11) := data in
  let '(s0, s1, s2, s3, s4, s5, s6, s7, s8, s9, s10, s11) := st in
  let s0 := s0 +% d0 in let s2 := s2 ^% s10 in let s11 := s11 ^% s0 in let s0 := Rot64 s0 11 in
  let s11 := s11 +% s1 in let s1 := s1 +% d1 in let s3 := s3 ^% s11 in let s0 := s0 ^% s1 in
  let s1 := Rot64 s1 32 in let s0 := s0 +% s2 in let s2 := s2 +% d2 in let s4 := s4 ^% s0 in
  let s1 := s1 ^% s2 in let s2 := Rot64 s2 43 in let s1 := s1 +% s3 in let s3 := s3 +% d3 in
  let s5 := s5 ^% s1 in let s2 := s2 ^% s3 in let s3 := Rot64 s3 31 in let s2 := s2 +% s4 in
  let s4 := s4 +% d4 in let s6 := s6 ^% s2 in let s3 := s3 ^% s4 in let s4 := Rot64 s4 17 in
  let s3 := s3 +% s5 in let s5 := s5 +% d5 in let s7 := s7 ^% s3 in let s4 := s4 ^% s5 in
  let s5 := Rot64 s5 28 in let s4 := s4 +% s6 in let s6 := s6 +% d6 in let s8 := s8 ^% s4 in
  let s5 := s5 ^% s6 in let s6 := Rot64 s6 39 in let s5 := s5 +% s7 in let s7 := s7 +% d7 in
  let s9 := s9 ^% s5 in let s6 := s6 ^% s7 in let s7 := Rot64 s7 57 in let s6 := s6 +% s8 in
  let s8 := s8 +% d8 in let s10 := s10 ^% s6 in let s7 := s7 ^% s8 in let s8 := Rot64 s8 55 in
  let s7 := s7 +% s9 in let s9 := s9 +% d9 in let s11 := s11 ^% s7 in let s8 := s8 ^% s9 in
  let s9 := Rot64 s9 54 in let s8 := s8 +% s10 in let s10 := s10 +% d10 in let s0 := s0 ^% s8 in
  let s9 := s9 ^% s10 in let s10 := Rot64 s10 22 in let s9 := s9 +% s11 in let s11 := s11 +% d11 in
  let s1 := s1 ^% s9 in let s10 := s10 ^% s11 in let s11 := Rot64 s11 46 in let s10 := s10 +% s0 in
  (s0, s1, s2, s3, s4, s5, s6, s7, s8, s9, s10, s11).

(** util/internal/hash-internal.h:238-253 [EndPartial] *)
Definition EndPartial (st : words) : words :=
  let '(h0, h1, h2, h3, h4, h5, h6, h7, h8, h9, h10, h11) := st in
  let h11 := h11 +% h1 in let h2 := h2 ^% h11 in let h1 := Rot64 h1 44 in let h0 := h0 +% h2 in
  let h3 := h3 ^% h0 in let h2 := Rot64 h2 15 in let h1 := h1 +% h3 in let h4 := h4 ^% h1 in
  let h3 := Rot64 h3 34 in let h2 := h2 +% h4 in let h5 := h5 ^% h2 in let h4 := Rot64 h4 21 in
  let h3 := h3 +% h5 in let h6 := h6 ^% h3 in let h5 := Rot64 h5 38 in let h4 := h4 +% h6 in
  let h7 := h7 ^% h4 in let h6 := Rot64 h6 33 in let h5 := h5 +% h7 in let h8 := h8 ^% h5 in
  let h7 := Rot64 h7 10 in let h6 := h6 +% h8 in let h9 := h9 ^% h6 in let h8 := Rot64 h8 13 in
  let h7 := h7 +% h9 in let h10 := h10 ^% h7 in let h9 := Rot64 h9 38 in let h8 := h8 +% h10 in
  let h11 := h11 ^% h8 in let h10 := Rot64 h10 53 in let h9 := h9 +% h11 in let h0 := h0 ^% h9 in
  let h11 := Rot64 h11 42 in let h10 := h10 +% h0 in let h1 := h1 ^% h10 in let h0 := Rot64 h0 54 in
  (h0, h1, h2, h3, h4, h5, h6, h7, h8, h9, h10, h11).

(** util/internal/hash-internal.h:255-265 [End] *)
Definition End_ (data st : words) : words :=
  let '(d0, d1, d2, d3, d4, d5, d6, d7, d8, d9, d10, d11) := data in
  let '(h0, h1, h2, h3, h4, h5, h6, h7, h8, h9, h10, h11) := st in
  let h0 := h0 +% d0 in let h1 := h1 +% d1 in let h2 := h2 +% d2 in let h3 := h3 +% d3 in let h4 := h4 +% d4 in
  let h5 := h5 +% d5 in let h6 := h6 +% d6 in let h7 := h7 +% d7 in let h8 := h8 +% d8 in let h9 := h9 +% d9 in
  let h10 := h10 +% d10 in let h11 := h11 +% d11 in
  EndPartial (EndPartial (EndPartial (h0, h1, h2, h3, h4, h5, h6, h7, h8, h9, h10, h11))).

Definition sc_blockSize : Z := 96.
Definition sc_bufSize : Z := 192.

(** util/internal/hash-internal.h:293-297 [spooky_hash]

    whole blocks *)
Fixpoint block_loop (n : nat) (s : list Z) (u : Z) (st : words) : option (Z * words) :=
  match n with
  | O => Some (u, st)
  | S n => let* data := block s u in block_loop n s (u + sc_blockSize) (Mix data st)
  end.

(** util/internal/hash-internal.h:268-310 [spooky_hash] *)
Definition spooky_hash (s : list Z) (len : Z) : option (Z * Z) :=
  let hash1 := 0xc3a5c85c97cb3127 in
  let hash2 := 0xb492b66fbe98f273 in
  if len <? sc_bufSize then Short s len hash1 hash2
  else
    let st := (hash1, hash2, sc_const, hash1, hash2, sc_const, hash1, hash2, sc_const, hash1, hash2, sc_const) in
    let* (end_, st) := block_loop (Z.to_nat (len / sc_blockSize)) s 0 st in
    let remainder := len - end_ in
    let* l := read_bytes s end_ remainder in
    let buf := l ++ replicate (Z.to_nat (sc_blockSize - remainder)) 0 in
    let* buf := aset buf (sc_blockSize - 1) (w8 remainder) in
    let* data := block buf 0 in
    let '(h0, h1, _, _, _, _, _, _, _, _, _, _) := End_ data st in
    Some (h0, h1).
End Spooky.

Module Murmur.
(** util/internal/hash-internal.h:323-332 [murmur_hash32] *)
Fixpoint loop32 (n : nat) (s : list Z) (data h : Z) : option (Z * Z) :=
  match n with
  | O => Some (data, h)
  | S n =>
      let m := 0x5bd1e995 in
      let* k := Fetch32 s data in
      let k := w32 (k * m) in
      let k := Z.lxor k (Z.shiftr k 24) in
      let k := w32 (k * m) in
      let h := w32 (h * m) in
      loop32 n s (data + 4) (Z.lxor h k)
  end.

(** [case i + 1: h ^= data[i] << shift], for a length not below it *)
Definition xor_byte (s : list Z) (data len i shift h : Z) : option Z :=
  if i <? len then let* b := aget s (data + i) in Some (h ^% Z.shiftl b shift) else Some h.

(** util/internal/hash-internal.h:316-348 [murmur_hash32] *)
Definition murmur_hash32 (s : list Z) (len : Z) : option Z :=
  let seed := 0xc70f6907 in
  let m := 0x5bd1e995 in
  let h := w32 (Z.lxor seed len) in
  let* (data, h) := loop32 (Z.to_nat (len / 4)) s 0 h in
  let len := len mod 4 in
  let* h := xor_byte s data len 2 16 h in
  let* h := xor_byte s data len 1 8 h in
  let* h := xor_byte s data len 0 0 h in
  let h := if 0 <? len then w32 (h * m) else h in
  let h := Z.lxor h (Z.shiftr h 13) in
  let h := w32 (h * m) in
  Some (Z.lxor h (Z.shiftr h 15)).

(** util/internal/hash-internal.h:360-369 [murmur_hash64] *)
Fixpoint loop64 (n : nat) (s : list Z) (data h : Z) : option (Z * Z) :=
  match n with
  | O => Some (data, h)
  | S n =>
      let m := 0xc6a4a7935bd1e995 in
      let* k := Fetch64 s data in
      let k := k *% m in
      let k := k ^% (k >>% 47) in
      let k := k *% m in
      let h := h ^% k in
      loop64 n s (data + 8) (h *% m)
  end.

(** util/internal/hash-internal.h:350-396 [murmur_hash64] *)
Definition murmur_hash64 (s : list Z) (len : Z) : option Z :=
  let m := 0xc6a4a7935bd1e995 in
  let seed := 7079 in
  let h := seed ^% (len *% m) in
  let* (data2, h) := loop64 (Z.to_nat (len / 8)) s 0 h in
  let rest := Z.land len 7 in
  let* h := xor_byte s data2 rest 6 48 h in
  let* h := xor_byte s data2 rest 5 40 h in
  let* h := xor_byte s data2 rest 4 32 h in
  let* h := xor_byte s data2 rest 3 24 h in
  let* h := xor_byte s data2 rest 2 16 h in
  let* h := xor_byte s data2 rest 1 8 h in
  let* h := xor_byte s data2 rest 0 0 h in
  let h := if 0 <? rest then h *% m else h in
  let h := h ^% (h >>% 47) in
  let h := h *% m in
  Some (h ^% (h >>% 47)).
End Murmur.

Module City.
(** util/internal/hash-internal.h:447-449 [k0] *)
Definition k0 : Z := 0xc3a5c85c97cb3127.
Definition k1 : Z := 0xb492b66fbe98f273.
Definition k2 : Z := 0x9ae16a3b2f90404f.

(** util/internal/hash-internal.h:457-466 [Hash128to64] *)
Definition Hash128to64 (x : Z * Z) : Z :=
  let kMul := 0x9ddfea08eb382d69 in
  let a := (x.1 ^% x.2) *% kMul in
  let a := a ^% (a >>% 47) in
  let b := (x.2 ^% a) *% kMul in
  let b := b ^% (b >>% 47) in
  b *% kMul.

(** util/internal/hash-internal.h:482-485 [Rotate] *)
Definition Rotate (val shift : Z) : Z :=
  if shift =? 0 then val else Z.lor (val >>% shift) (val <<% (64 - shift)).

(** util/internal/hash-internal.h:487-489 [ShiftMix] *)
Definition ShiftMix (val : Z) : Z := val ^% (val >>% 47).

(** util/internal/hash-internal.h:491-493 [HashLen16] *)
Definition HashLen16 (u v : Z) : Z := Hash128to64 (u, v).

(** util/internal/hash-internal.h:495-503 [HashLen16] *)
Definition HashLen16_mul (u v mul : Z) : Z :=
  let a := (u ^% v) *% mul in
  let a := a ^% (a >>% 47) in
  let b := (v ^% a) *% mul in
  let b := b ^% (b >>% 47) in
  b *% mul.

(** util/internal/hash-internal.h:505-528 [HashLen0to16]

    here and below, [p] is the offset of the pointer [s] of the code *)
Definition HashLen0to16 (s : list Z) (p len : Z) : option Z :=
  if 8 <=? len then
    let mul := k2 +% len *% 2 in
    let* x := Fetch64 s p in
    let a := x +% k2 in
    let* b := Fetch64 s (p + len - 8) in
    let c := Rotate b 37 *% mul +% a in
    let d := (Rotate a 25 +% b) *% mul in
    Some (HashLen16_mul c d mul)
  else if 4 <=? len then
    let mul := k2 +% len *% 2 in
    let* a := Fetch32 s p in
    let* b := Fetch32 s (p + len - 4) in
    Some (HashLen16_mul (len +% (a <<% 3)) b mul)
  else if 0 <? len then
    let* a := aget s p in
    let* b := aget s (p + Z.shiftr len 1) in
    let* c := aget s (p + len - 1) in
    let y := w32 (a + Z.shiftl b 8) in
    let z := w32 (len + Z.shiftl c 2) in
    Some (ShiftMix (y *% k2 ^% z *% k0) *% k2)
  else Some k2.

(** util/internal/hash-internal.h:532-540 [HashLen17to32] *)
Definition HashLen17to32 (s : list Z) (p len : Z) : option Z :=
  let mul := k2 +% len *% 2 in
  let* x := Fetch64 s p in
  let a := x *% k1 in
  let* b := Fetch64 s (p + 8) in
  let* x := Fetch64 s (p + len - 8) in
  let c := x *% mul in
  let* x := Fetch64 s (p + len - 16) in
  let d := x *% k2 in
  Some (HashLen16_mul (Rotate (a +% b) 43 +% Rotate c 30 +% d) (a +% Rotate (b +% k2) 18 +% c) mul).

(** util/internal/hash-internal.h:543-562 [HashLen33to64] *)
Definition HashLen33to64 (s : list Z) (p len : Z) : option Z :=
  let mul := k2 +% len *% 2 in
  let* x := Fetch64 s p in
  let a := x *% k2 in
  let* b := Fetch64 s (p + 8) in
  let* c := Fetch64 s (p + len - 24) in
  let* d := Fetch64 s (p + len - 32) in
  let* x := Fetch64 s (p + 16) in
  let e := x *% k2 in
  let* x := Fetch64 s (p + 24) in
  let f := x *% 9 in
  let* g := Fetch64 s (p + len - 8) in
  let* x := Fetch64 s (p + len - 16) in
  let h := x *% mul in
  let u := Rotate (a +% g) 43 +% (Rotate b 30 +% c) *% 9 in
  let v := ((a +% g) ^% d) +% f +% 1 in
  let w := byte_swap 8 ((u +% v) *% mul) +% h in
  let x := Rotate (e +% f) 42 +% c in
  let y := (byte_swap 8 ((v +% w) *% mul) +% g) *% mul in
  let z := e +% f +% c in
  let a := byte_swap 8 ((x +% z) *% mul +% y) +% b in
  let b := ShiftMix ((z +% a) *% mul +% d +% h) *% mul in
  Some (b +% x).

(** util/internal/hash-internal.h:566-575 [WeakHashLen32WithSeeds] *)
Definition WeakHash (w x y z a b : Z) : Z * Z :=
  let a := a +% w in
  let b := Rotate (b +% a +% z) 21 in
  let c := a in
  let a := a +% x in
  let a := a +% y in
  let b := b +% Rotate a 44 in
  (a +% z, b +% c).

(** util/internal/hash-internal.h:578-586 [WeakHashLen32WithSeeds] *)
Definition WeakHashLen32WithSeeds (s : list Z) (p a b : Z) : option (Z * Z) :=
  let* w := Fetch64 s p in
  let* x := Fetch64 s (p + 8) in
  let* y := Fetch64 s (p + 16) in
  let* z := Fetch64 s (p + 24) in
  Some (WeakHash w x y z a b).

(** util/internal/hash-internal.h:603-613 [CityMurmur]

    every turn takes 16 bytes *)
Fixpoint murmur_loop (fuel : nat) (s : list Z) (p len a b c d : Z) : option (Z * Z * Z * Z) :=
  match fuel with
  | O => None
  | S fuel =>
      let* x := Fetch64 s p in
      let a := a ^% ShiftMix (x *% k1) *% k1 in
      let a := a *% k1 in
      let b := b ^% a in
      let* x := Fetch64 s (p + 8) in
      let c := c ^% ShiftMix (x *% k1) *% k1 in
      let c := c *% k1 in
      let d := d ^% c in
      let p := p + 16 in
      let len := len - 16 in
      if 16 <? len then murmur_loop fuel s p len a b c d else Some (a, b, c, d)
  end.

(** util/internal/hash-internal.h:590-618 [CityMurmur] *)
Definition CityMurmur (s : list Z) (p len : Z) (seed : Z * Z) : option (Z * Z) :=
  let a := seed.1 in
  let b := seed.2 in
  let* (a, b, c, d) :=
    if len <=? 16 then
      let a := ShiftMix (a *% k1) *% k1 in
      let* x := HashLen0to16 s p len in
      let c := b *% k1 +% x in
      let* x := if 8 <=? len then Fetch64 s p else Some c in
      let d := ShiftMix (a +% x) in
      Some (a, b, c, d)
    else
      let* x := Fetch64 s (p + len - 8) in
      let c := HashLen16 (x +% k1) a in
      let* x := Fetch64 s (p + len - 16) in
      let d := HashLen16 (b +% len) (c +% x) in
      let a := a +% d in
      murmur_loop (Z.to_nat len) s p len a b c d in
  let a := HashLen16 a c in
  let b := HashLen16 d b in
  Some (a ^% b, HashLen16 b a).

(** [x], [y], [z], [v] and [w] *)
Abbreviation state := (Z * Z * Z * (Z * Z) * (Z * Z))%type.

(** util/internal/hash-internal.h:705-715 [city_hash64]

    64 bytes; twice in a turn of [CityHash128WithSeed], at 642-660 *)
Definition chunk (s : list Z) (p : Z) (st : state) : option state :=
  let '(x, y, z, v, w) := st in
  let* t := Fetch64 s (p + 8) in
  let x := Rotate (x +% y +% v.1 +% t) 37 *% k1 in
  let* t := Fetch64 s (p + 48) in
  let y := Rotate (y +% v.2 +% t) 42 *% k1 in
  let x := x ^% w.2 in
  let* t := Fetch64 s (p + 40) in
  let y := y +% (v.1 +% t) in
  let z := Rotate (z +% w.1) 33 *% k1 in
  let* v := WeakHashLen32WithSeeds s p (v.2 *% k1) (x +% w.1) in
  let* t := Fetch64 s (p + 16) in
  let* w := WeakHashLen32WithSeeds s (p + 32) (z +% w.2) (y +% t) in
  Some (z, y, x, v, w).

(** util/internal/hash-internal.h:641-662 [CityHash128WithSeed]

    every turn takes 128 bytes; [do] ... [while(len >= 128)] *)
Fixpoint chunks128 (fuel : nat) (s : list Z) (p len : Z) (st : state) : option (Z * Z * state) :=
  match fuel with
  | O => None
  | S fuel =>
      let* st := chunk s p st in
      let p := p + 64 in
      let* st := chunk s p st in
      let p := p + 64 in
      let len := len - 128 in
      if 128 <=? len then chunks128 fuel s p len st else Some (p, len, st)
  end.

(** util/internal/hash-internal.h:669-677 [CityHash128WithSeed]

    up to 4 chunks of 32 bytes, from the end *)
Fixpoint tail_loop (fuel : nat) (s : list Z) (p len tail_done : Z) (st : state) : option state :=
  match fuel with
  | O => None
  | S fuel =>
      if tail_done <? len then
        let '(x, y, z, v, w) := st in
        let tail_done := tail_done + 32 in
        let y := Rotate (x +% y) 42 *% k0 +% v.2 in
        let* t := Fetch64 s (p + len - tail_done + 16) in
        let w := (w.1 +% t, w.2) in
        let x := x *% k0 +% w.1 in
        let* t := Fetch64 s (p + len - tail_done) in
        let z := z +% (w.2 +% t) in
        let w := (w.1, w.2 +% v.1) in
        let* v := WeakHashLen32WithSeeds s (p + len - tail_done) (v.1 +% z) v.2 in
        let v := (v.1 *% k0, v.2) in
        tail_loop fuel s p len tail_done (x, y, z, v, w)
      else Some st
  end.

(** util/internal/hash-internal.h:622-683 [CityHash128WithSeed] *)
Definition CityHash128WithSeed (s : list Z) (p len : Z) (seed : Z * Z) : option (Z * Z) :=
  if len <? 128 then CityMurmur s p len seed
  else
    let x := seed.1 in
    let y := seed.2 in
    let z := len *% k1 in
    let* t := Fetch64 s p in
    let v1 := Rotate (y ^% k1) 49 *% k1 +% t in
    let* t := Fetch64 s (p + 8) in
    let v2 := Rotate v1 42 *% k1 +% t in
    let w1 := Rotate (y +% z) 35 *% k1 +% x in
    let* t := Fetch64 s (p + 88) in
    let w2 := Rotate (x +% t) 53 *% k1 in
    let* (p, len, st) := chunks128 (Z.to_nat len) s p len (x, y, z, (v1, v2), (w1, w2)) in
    let '(x, y, z, v, w) := st in
    let x := x +% Rotate (v.1 +% z) 49 *% k0 in
    let y := y *% k0 +% Rotate w.2 37 in
    let z := z *% k0 +% Rotate w.1 27 in
    let w := (w.1 *% 9, w.2) in
    let v := (v.1 *% k0, v.2) in
    let* st := tail_loop 5 s p len 0 (x, y, z, v, w) in
    let '(x, y, z, v, w) := st in
    let x := HashLen16 x v.1 in
    let y := HashLen16 (y +% z) w.1 in
    Some (HashLen16 (x +% v.2) w.2 +% y, HashLen16 (x +% w.2) (y +% v.2)).

(** util/internal/hash-internal.h:702-717 [city_hash64]

    every turn takes 64 bytes; [do] ... [while(len != 0)] *)
Fixpoint chunks64 (fuel : nat) (s : list Z) (p len : Z) (st : state) : option state :=
  match fuel with
  | O => None
  | S fuel =>
      let* st := chunk s p st in
      let p := p + 64 in
      let len := w64 (len - 64) in
      if negb (len =? 0) then chunks64 fuel s p len st else Some st
  end.

(** util/internal/hash-internal.h:685-721 [city_hash64] *)
Definition city_hash64 (s : list Z) (len : Z) : option Z :=
  if len <=? 32 then
    if len <=? 16 then HashLen0to16 s 0 len else HashLen17to32 s 0 len
  else if len <=? 64 then HashLen33to64 s 0 len
  else
    let* x := Fetch64 s (len - 40) in
    let* t := Fetch64 s (len - 16) in
    let* t' := Fetch64 s (len - 56) in
    let y := t +% t' in
    let* t := Fetch64 s (len - 48) in
    let* t' := Fetch64 s (len - 24) in
    let z := HashLen16 (t +% len) t' in
    let* v := WeakHashLen32WithSeeds s (len - 64) len z in
    let* w := WeakHashLen32WithSeeds s (len - 32) (y +% k1) x in
    let* t := Fetch64 s 0 in
    let x := x *% k1 +% t in
    let len := Z.land (len - 1) (w64 (Z.lnot 63)) in
    let* st := chunks64 (Z.to_nat len) s 0 len (x, y, z, v, w) in
    let '(x, y, z, v, w) := st in
    Some (HashLen16 (HashLen16 v.1 w.1 +% ShiftMix y *% k1 +% z) (HashLen16 v.2 w.2 +% x)).

(** util/internal/hash-internal.h:723-728 [city_hash128] *)
Definition city_hash128 (s : list Z) (len : Z) : option (Z * Z) :=
  if 16 <=? len then
    let* t := Fetch64 s 0 in
    let* t' := Fetch64 s 8 in
    CityHash128WithSeed s 16 (len - 16) (t, t' +% k0)
  else CityHash128WithSeed s 0 len (k0, k1).
End City.

(** ** The functions of [hash.h] *)

Module util_hash.
(** util/hash.h:43-49 [jenkins_hash]

    the overloads for a 64-bit and for a 32-bit key, which hash its bytes *)
Definition jenkins_hash_key (bytes : nat) (key : Z) : option Z :=
  Jenkins.jenkins_hash (to_bytes bytes key) (Z.of_nat bytes).
(** util/hash.h:55-65 [spooky_hash] *)
Definition spooky_hash (s : list Z) (len : Z) : option Z := let* h := Spooky.spooky_hash s len in Some h.1.
Definition spooky_hash_key (bytes : nat) (key : Z) : option Z := spooky_hash (to_bytes bytes key) (Z.of_nat bytes).
(** util/hash.h:73-79 [murmur_hash] *)
Definition murmur_hash_key (bytes : nat) (key : Z) : option Z :=
  Murmur.murmur_hash64 (to_bytes bytes key) (Z.of_nat bytes).
(** util/hash.h:103-109 [city_hash] *)
Definition city_hash_key (bytes : nat) (key : Z) : option Z :=
  City.city_hash64 (to_bytes bytes key) (Z.of_nat bytes).
End util_hash.

(** util/hash.h:113-115 [hash]

    of a string *)
Definition hash_string (s : list Z) (len : Z) : option Z := City.city_hash64 s len.
