(* ===== verification/HashProps.v ===== *)
(** * What the hash functions read

    [reads len P f]: on any memory of at least [len] bytes the computation [f] is
    defined, with a result that satisfies [P] and that only the first [len] bytes
    determine. The rules follow the code, statement by statement. *)

From S2P Require Import Prelude Bits Hash HashBytes.

Definition reads {A} (len : Z) (P : A -> Prop) (f : list Z -> option A) : Prop :=
  forall s, len <= Z.of_nat (length s) -> exists a, f s = Some a /\ f (take (Z.to_nat len) s) = Some a /\ P a.

(** ** Words *)

Lemma word_testbit_above x : 0 <= x -> (forall i, 64 <= i -> Z.testbit x i = false) -> is_u64 x.
Proof.
  intros Hx H. enough (x = w64 x) as -> by apply w64_is_u64. apply Z.bits_inj'. intros i Hi.
  rewrite wrap_testbit by lia. destruct (Z.ltb_spec i 64) as [|Hge]; [done|]. by rewrite H.
Qed.

Lemma u64_testbit x i : is_u64 x -> 64 <= i -> Z.testbit x i = false.
Proof. intros. by apply (testbit_above x 64). Qed.

Lemma u64_lxor x y : is_u64 x -> is_u64 y -> is_u64 (Z.lxor x y).
Proof.
  intros Hx Hy. apply word_testbit_above.
  - apply Z.lxor_nonneg. unfold is_u64 in *. lia.
  - intros i Hi. rewrite Z.lxor_spec, !u64_testbit by done. done.
Qed.

Lemma u64_lor x y : is_u64 x -> is_u64 y -> is_u64 (Z.lor x y).
Proof.
  intros Hx Hy. apply word_testbit_above.
  - apply Z.lor_nonneg. unfold is_u64 in *. lia.
  - intros i Hi. rewrite Z.lor_spec, !u64_testbit by done. done.
Qed.

Lemma u64_shiftr x n : 0 <= n -> is_u64 x -> is_u64 (Z.shiftr x n).
Proof.
  intros Hn Hx. apply word_testbit_above.
  - apply Z.shiftr_nonneg. unfold is_u64 in Hx. lia.
  - intros i Hi. rewrite Z.shiftr_spec by lia. apply u64_testbit; [done|lia].
Qed.

Definition is_u32 (x : Z) : Prop := 0 <= x < 2 ^ 32.

Lemma u32_xor_shift x n : 0 <= n -> is_u32 x -> is_u32 (Z.lxor x (Z.shiftr x n)).
Proof.
  intros Hn Hx. enough (Z.lxor x (Z.shiftr x n) = w32 (Z.lxor x (Z.shiftr x n))) as -> by (by apply wrap_bounds).
  apply Z.bits_inj'. intros i Hi. rewrite wrap_testbit by lia. destruct (Z.ltb_spec i 32); [done|].
  by rewrite Z.lxor_spec, Z.shiftr_spec, !(testbit_above x 32) by (done || lia).
Qed.

Lemma u64_rot x k : 0 <= k <= 64 -> is_u64 x -> is_u64 (Spooky.Rot64 x k).
Proof. intros. apply u64_lor; [apply w64_is_u64|]. apply u64_shiftr; [lia|done]. Qed.

Lemma u64_HashLen16 u v : is_u64 (City.HashLen16 u v).
Proof. apply w64_is_u64. Qed.

Lemma u64_HashLen16_mul u v m : is_u64 (City.HashLen16_mul u v m).
Proof. apply w64_is_u64. Qed.

Create HintDb hash_words discriminated.
#[export] Hint Resolve w64_is_u64 u64_lxor u64_lor u64_shiftr u64_rot u64_HashLen16 u64_HashLen16_mul conj : hash_words.
#[export] Hint Extern 4 (_ <= _) => lia : hash_words.
#[export] Hint Extern 4 (_ <= _ <= _) => lia : hash_words.

(** a local variable, of which only a property is kept *)
Lemma let_where {A B} (R : A -> Prop) (Q : B -> Prop) e b :
  R e -> (forall x, R x -> Q (b x)) -> Q (let x := e in b x).
Proof. intros He H. by apply H. Qed.

Ltac let_words :=
  repeat lazymatch goal with
  | |- ?Q (let x := ?e in @?b x) =>
      first [ apply (let_where is_u64 Q e b); [solve [auto 6 with hash_words nocore]|intros ? ?]
            | apply (let_where (fun _ => True) Q e b); [done|intros ? _] ]
  end.

(** two words *)
Definition two_words (r : Z * Z) : Prop := is_u64 r.1 /\ is_u64 r.2.

Lemma two_words_pair x y : is_u64 x -> is_u64 y -> two_words (x, y).
Proof. done. Qed.
#[export] Hint Resolve two_words_pair : hash_words.

(** ** The rules *)

Section rules.
Context (len : Z).

Lemma reads_ret {A} (P : A -> Prop) a : P a -> reads len P (fun _ => Some a).
Proof. intros Ha s _. by exists a. Qed.

Lemma reads_const {A} (P : A -> Prop) o a : o = Some a -> P a -> reads len P (fun _ => o).
Proof. intros -> Ha s _. by exists a. Qed.

Lemma reads_bind {A B} (P : A -> Prop) (Q : B -> Prop) f g :
  reads len P f -> (forall a, P a -> reads len Q (g a)) -> reads len Q (fun s => let* a := f s in g a s).
Proof.
  intros Hf Hg s Hs. destruct (Hf s Hs) as (a & E & E' & Ha). destruct (Hg a Ha s Hs) as (x & Ex & Ex' & Hx).
  exists x. by rewrite E, E', !bind_Some.
Qed.

Lemma reads_if {A} (P : A -> Prop) (b : bool) f g :
  (b = true -> reads len P f) -> (b = false -> reads len P g) -> reads len P (fun s => if b then f s else g s).
Proof. destruct b; auto. Qed.

Lemma reads_weaken {A} (P Q : A -> Prop) f : (forall a, P a -> Q a) -> reads len P f -> reads len Q f.
Proof. intros H Hf s Hs. destruct (Hf s Hs) as (a & ? & ? & ?). exists a. auto. Qed.

Lemma reads_aget i : 0 <= i < len -> reads len (fun _ => True) (fun s => aget s i).
Proof.
  intros Hi s Hs. destruct (aget_in_range s i) as [b Hb]; [lia|]. exists b. split; [done|]. split; [|done].
  apply aget_Some in Hb as [_ Hb]. apply aget_Some. split; [lia|]. by rewrite lookup_take_lt by lia.
Qed.

Lemma reads_read_bytes off n :
  0 <= off -> 0 <= n -> off + n <= len -> reads len (fun l => Z.of_nat (length l) = n) (fun s => read_bytes s off n).
Proof.
  intros Ho Hn Hl s Hs. unfold read_bytes. rewrite length_take. exists (take (Z.to_nat n) (drop (Z.to_nat off) s)).
  btrue ((0 <=? off) && (0 <=? n) && (off + n <=? Z.of_nat (length s))).
  btrue ((0 <=? off) && (0 <=? n) && (off + n <=? Z.of_nat (Z.to_nat len `min` length s))).
  split; [done|]. split; [|rewrite length_take, length_drop; lia].
  rewrite skipn_firstn_comm, take_take. by replace (Z.to_nat n `min` (Z.to_nat len - Z.to_nat off))%nat with (Z.to_nat n) by lia.
Qed.

Lemma reads_Fetch64 off : 0 <= off -> off + 8 <= len -> reads len (fun _ => True) (fun s => Fetch64 s off).
Proof. intros. unfold Fetch64. eapply reads_bind; [apply reads_read_bytes; lia|]. intros. by apply reads_ret. Qed.

Lemma reads_Fetch32 off : 0 <= off -> off + 4 <= len -> reads len (fun _ => True) (fun s => Fetch32 s off).
Proof. intros. unfold Fetch32. eapply reads_bind; [apply reads_read_bytes; lia|]. intros. by apply reads_ret. Qed.

Lemma reads_for_range {A} (body : list Z -> Z -> A -> option A) lo n x :
  (forall i x, lo <= i < lo + n -> reads len (fun _ => True) (fun s => body s i x)) ->
  reads len (fun _ => True) (fun s => for_range (body s) lo n x).
Proof.
  intros Hb s Hs. unfold for_range.
  assert (forall k : nat, Z.of_nat k <= n \/ k = O -> exists a,
    foldl (fun acc i => let* x := acc in body s i x) (Some x) (seqZ lo (Z.of_nat k)) = Some a
    /\ foldl (fun acc i => let* x := acc in body (take (Z.to_nat len) s) i x) (Some x) (seqZ lo (Z.of_nat k)) = Some a) as H.
  { induction k as [|k IH]; intros Hk; [by exists x|]. destruct IH as (a & E & E'); [lia|].
    destruct (Hb (lo + Z.of_nat k) a) with (s := s) as (a' & F & F' & _); [lia|done|]. exists a'.
    rewrite !seqZ_S, !foldl_app, E, E'. cbn [foldl]. by rewrite !bind_Some. }
  destruct (decide (n < 0)) as [Hn|Hn].
  - rewrite seqZ_nil by lia. by exists x.
  - destruct (H (Z.to_nat n)) as (a & E & E'); [lia|]. rewrite Z2Nat.id in E, E' by lia. by exists a.
Qed.
End rules.

Create HintDb hash_reads discriminated.
#[export] Hint Resolve reads_aget reads_Fetch64 reads_Fetch32 reads_read_bytes : hash_reads.
#[export] Hint Extern 4 (_ <= _) => lia : hash_reads.
#[export] Hint Extern 4 (_ <= _ < _) => lia : hash_reads.

(** one statement *)
Ltac reads_step :=
  lazymatch goal with
  | |- reads _ _ (fun _ => Some _) => apply reads_ret
  | |- reads _ _ (fun _ => mbind _ _) =>
      first [ eapply reads_bind; [solve [eauto 3 with hash_reads nocore]|] | eapply (reads_bind _ (fun _ => True)) ]
  | |- reads _ _ (fun _ => if _ then _ else _) => apply reads_if; intro
  | |- reads _ _ (fun _ => match ?x with (_, _) => _ end) => destruct x
  | |- forall _, _ => intro
  end.
Ltac reads_run :=
  repeat (reads_step || solve [eauto with hash_reads]); try done; try solve [auto 8 with hash_words nocore]; bool_to_prop.

(** ** FASTER's *)

Lemma reads_faster_hash len : reads len is_u64 (fun s => faster_hash_bytes s len).
Proof.
  unfold faster_hash_bytes. eapply reads_bind; [apply reads_for_range|]; reads_run.
  apply u64_lor; [|apply w64_is_u64]. apply u64_shiftr; [lia|apply w64_is_u64].
Qed.

(** ** Jenkins *)

Lemma reads_jenkins_byte_hash len : reads len is_u64 (fun s => Jenkins.jenkins_byte_hash s len).
Proof. unfold Jenkins.jenkins_byte_hash. eapply reads_bind; [apply reads_for_range|]; reads_run. Qed.

Lemma reads_mix_loop total fuel : forall k len a b c,
  0 <= k -> 0 <= len -> k + len <= total -> len < Z.of_nat fuel ->
  reads total (fun r => let '(k', len', _, b', c') := r in
      0 <= k' /\ k' + len' = k + len /\ 0 <= len' <= 12 /\ len' mod 4 = len mod 4 /\ (0 < len -> 0 < len') /\ (len <= 12 -> b' = b /\ c' = c))
    (fun s => Jenkins.mix_loop fuel s k len a b c).
Proof.
  induction fuel as [|fuel IH]; intros k len a b c Hk Hl Ht Hf; [lia|]. cbn [Jenkins.mix_loop].
  apply reads_if; intro Hb; [|apply reads_ret; repeat split; lia].
  do 3 (eapply reads_bind; [apply reads_Fetch32; lia|]; intros ? _). destruct (Jenkins.mix _ _ _) as [[a' b'] c'].
  eapply reads_weaken; [|apply IH; lia]. intros [[[[k' len'] ?] ?] ?] (H1 & H2 & H3 & H4 & H5 & H6).
  split; [done|]. split; [lia|]. split; [done|]. split; [|split; lia]. rewrite H4. Z.to_euclidean_division_equations. lia.
Qed.

(** whole words are read, up to three bytes past the key *)
Lemma reads_tail total k len a b c :
  0 <= k -> 0 < len <= 12 -> k + 4 * ((len + 3) / 4) <= total ->
  reads total (fun _ => True) (fun s => Jenkins.tail s k len a b c).
Proof.
  intros. unfold Jenkins.tail. reads_run; apply reads_Fetch32; Z.to_euclidean_division_equations; lia.
Qed.

Lemma jenkins_words x y : 0 <= x < 2 ^ 32 -> 0 <= y < 2 ^ 32 -> is_u64 (Z.lor x (Z.shiftl y 32)).
Proof.
  intros Hx Hy. rewrite <- (wrap_small 64 (Z.shiftl y 32)).
  - apply u64_lor; [unfold is_u64; lia|apply w64_is_u64].
  - rewrite Z.shiftl_mul_pow2 by lia. lia.
Qed.

Lemma reads_jenkins_hash len : 0 <= len -> reads (4 * ((len + 3) / 4)) is_u64 (fun s => Jenkins.jenkins_hash s len).
Proof.
  intros Hl. unfold Jenkins.jenkins_hash. cbv zeta. set (h := w32 (0xdeadbeef + len + _)). set (h2 := w32 (h + _)).
  eapply reads_bind; [apply reads_mix_loop; Z.to_euclidean_division_equations; lia|].
  intros [[[[k len'] a] b] c] (H1 & H2 & H3 & H4 & H5 & H6).
  eapply (reads_bind _ (fun r => 0 <= r.1 < 2 ^ 32 /\ 0 <= r.2 < 2 ^ 32)).
  - apply reads_if; intro Hz.
    + apply reads_ret. destruct H6 as [-> ->]; [lia|]. cbn. unfold h, h2. split; apply wrap_bounds; lia.
    + eapply reads_bind; [apply reads_tail; Z.to_euclidean_division_equations; lia|]. intros [[a' b'] c'] _.
      unfold Jenkins.final. apply reads_ret. cbn [fst snd]. split; apply wrap_bounds; lia.
  - intros [b' c'] [Hb' Hc']. apply reads_ret. by apply jenkins_words.
Qed.

(** a key whose length is not a multiple of 4, with nothing to read after it *)
Lemma tail_past s k len a b c :
  0 <= k -> 0 < len <= 12 -> k + len = Z.of_nat (length s) -> len mod 4 <> 0 -> Jenkins.tail s k len a b c = None.
Proof.
  intros Hk Hl Hs Hm.
  assert (forall i, k + 4 * i + 4 > Z.of_nat (length s) -> Fetch32 s (k + 4 * i) = None) as Hnone.
  { intros i Hi. unfold Fetch32, read_bytes. by bfalse ((0 <=? k + 4 * i) && (0 <=? 4) && (k + 4 * i + 4 <=? Z.of_nat (length s))). }
  unfold Jenkins.tail. destruct (Z.ltb_spec 8 len).
  { rewrite (Hnone 2); [done|]. Z.to_euclidean_division_equations; lia. }
  rewrite bind_Some. destruct (Z.ltb_spec 4 len).
  { rewrite (Hnone 1); [done|]. Z.to_euclidean_division_equations; lia. }
  rewrite bind_Some, (Hnone 0); [done|]. Z.to_euclidean_division_equations; lia.
Qed.

Lemma jenkins_past s len :
  0 <= len -> Z.of_nat (length s) = len -> len mod 4 <> 0 -> Jenkins.jenkins_hash s len = None.
Proof.
  intros Hl Hs Hm. unfold Jenkins.jenkins_hash. cbv zeta. set (h := w32 (0xdeadbeef + len + _)). set (h2 := w32 (h + _)).
  destruct (reads_mix_loop len (S (Z.to_nat len)) 0 len h h h2) with (s := s)
    as ([[[[k len'] a] b] c] & -> & _ & H1 & H2 & H3 & H4 & H5 & _); [lia..|].
  assert (0 < len) by (destruct (decide (len = 0)) as [->|]; [done|lia]).
  rewrite bind_Some. bfalse (len' =? 0). rewrite (tail_past s k len'); [done|done|lia|lia|congruence].
Qed.

(** ** Spooky *)

Lemma reads_short_loop len n : forall u st, 0 <= u -> u + 32 * Z.of_nat n <= len ->
  reads len (fun r => r.1 = u + 32 * Z.of_nat n) (fun s => Spooky.short_loop n s u st).
Proof.
  induction n as [|n IH]; intros u [[[a b] c] d] Hu Hl; cbn [Spooky.short_loop]; [apply reads_ret; cbn; lia|].
  reads_run.
  - eapply reads_weaken; [|apply IH; lia]. cbn. lia.
Qed.

Lemma reads_add_byte len u remainder i shift x :
  0 <= u -> 0 <= i -> u + remainder <= len -> reads len (fun _ => True) (fun s => Spooky.add_byte s u remainder i shift x).
Proof. intros. unfold Spooky.add_byte. reads_run. Qed.
#[export] Hint Resolve reads_add_byte reads_short_loop : hash_reads.

Lemma reads_short_tail len u remainder c d :
  0 <= u -> 0 <= remainder -> u + remainder <= len -> reads len (fun _ => True) (fun s => Spooky.short_tail s u remainder c d).
Proof. intros. unfold Spooky.short_tail. reads_run. Qed.
#[export] Hint Resolve reads_short_tail : hash_reads.

Definition first_two4 (st : Z * Z * Z * Z) : Prop := let '(a, b, _, _) := st in is_u64 a /\ is_u64 b.

Lemma ShortEnd_words st : first_two4 (Spooky.ShortEnd st).
Proof. destruct st as [[[h0 h1] h2] h3]. cbv beta iota delta [Spooky.ShortEnd]. let_words. by split. Qed.

Definition first_two (st : Spooky.words) : Prop := let '(a, b, _, _, _, _, _, _, _, _, _, _) := st in is_u64 a /\ is_u64 b.

Lemma EndPartial_words st : first_two (Spooky.EndPartial st).
Proof. destruct st as [[[[[[[[[[[? ?] ?] ?] ?] ?] ?] ?] ?] ?] ?] ?]. cbv beta iota delta [Spooky.EndPartial]. let_words. by split. Qed.

Lemma End_words data st : first_two (Spooky.End_ data st).
Proof.
  destruct st as [[[[[[[[[[[? ?] ?] ?] ?] ?] ?] ?] ?] ?] ?] ?], data as [[[[[[[[[[[? ?] ?] ?] ?] ?] ?] ?] ?] ?] ?] ?].
  apply EndPartial_words.
Qed.

Lemma reads_Short len h1 h2 : 0 <= len -> reads len two_words (fun s => Spooky.Short s len h1 h2).
Proof.
  intros Hl. unfold Spooky.Short. pose proof (Z.mod_pos_bound len 32 ltac:(lia)) as Hm. pose proof (Z.div_mod len 32 ltac:(lia)) as Hd.
  eapply (reads_bind _ (fun r => 0 <= r.1.1 /\ 0 <= r.2 /\ r.1.1 + r.2 <= len)).
  - apply reads_if; intro; [|apply reads_ret; cbn; rewrite Z.mod_small by lia; lia].
    eapply reads_bind; [apply reads_short_loop; lia|]. intros [u st] Hu. cbn in Hu. rewrite Z2Nat.id in Hu by lia.
    reads_run; cbn; lia.
  - intros [[u [[[a b] c] d]] r] Hu. cbn in Hu. cbv zeta. eapply reads_bind; [apply reads_short_tail; lia|].
    intros [c' d'] _. pose proof (ShortEnd_words (a, b, c', d')) as Hw.
    destruct (Spooky.ShortEnd _) as [[[a' b'] ?] ?]. by apply reads_ret.
Qed.
#[export] Hint Resolve reads_Short : hash_reads.

Lemma reads_block len u : 0 <= u -> u + 96 <= len -> reads len (fun _ => True) (fun s => Spooky.block s u).
Proof. intros. unfold Spooky.block. reads_run. Qed.
#[export] Hint Resolve reads_block : hash_reads.

Lemma reads_block_loop len n : forall u st, 0 <= u -> u + 96 * Z.of_nat n <= len ->
  reads len (fun r => r.1 = u + 96 * Z.of_nat n) (fun s => Spooky.block_loop n s u st).
Proof.
  induction n as [|n IH]; intros u st Hu Hl; cbn [Spooky.block_loop]; [apply reads_ret; cbn; lia|].
  eapply reads_bind; [apply reads_block; lia|]. intros data _. unfold Spooky.sc_blockSize.
  eapply reads_weaken; [|apply IH; lia]. cbn. lia.
Qed.

Lemma reads_spooky_hash len : 0 <= len -> reads len two_words (fun s => Spooky.spooky_hash s len).
Proof.
  intros Hl. unfold Spooky.spooky_hash, Spooky.sc_blockSize. cbv zeta. apply reads_if; intro; [by apply reads_Short|].
  pose proof (Z.mod_pos_bound len 96 ltac:(lia)) as Hm. pose proof (Z.div_mod len 96 ltac:(lia)) as Hd.
  eapply reads_bind; [apply reads_block_loop; lia|]. intros [e st] He. cbn in He. rewrite Z2Nat.id in He by lia.
  eapply reads_bind; [apply reads_read_bytes; lia|]. intros l Hlen. cbv beta in Hlen.
  set (buf := l ++ _). assert (Z.of_nat (length buf) = 96) as Hbuf by (unfold buf; rewrite length_app, length_replicate; lia).
  eapply (reads_bind _ (fun b => Z.of_nat (length b) = 96)).
  { rewrite aset_in_range by lia. apply reads_ret. by rewrite length_insert. }
  intros b Hb. destruct (reads_block 96 0 ltac:(lia) ltac:(lia) b ltac:(lia)) as (data & E & _).
  eapply (reads_bind _ (fun _ => True)); [by eapply reads_const|]. intros data' _.
  pose proof (End_words data' st) as Hw. destruct (Spooky.End_ data' st) as [[[[[[[[[[[? ?] ?] ?] ?] ?] ?] ?] ?] ?] ?] ?].
  by apply reads_ret.
Qed.

(** ** Murmur *)

Lemma reads_xor_byte len data n i shift h :
  0 <= data -> 0 <= i -> data + n <= len -> reads len (fun _ => True) (fun s => Murmur.xor_byte s data n i shift h).
Proof. intros. unfold Murmur.xor_byte. reads_run. Qed.
#[export] Hint Resolve reads_xor_byte : hash_reads.

Lemma reads_loop32 len n : forall u h, 0 <= u -> u + 4 * Z.of_nat n <= len ->
  reads len (fun r => r.1 = u + 4 * Z.of_nat n) (fun s => Murmur.loop32 n s u h).
Proof.
  induction n as [|n IH]; intros u h Hu Hl; cbn [Murmur.loop32]; [apply reads_ret; cbn; lia|].
  reads_run. eapply reads_weaken; [|apply IH; lia]. cbn. lia.
Qed.

Lemma reads_murmur_hash32 len : 0 <= len -> reads len is_u32 (fun s => Murmur.murmur_hash32 s len).
Proof.
  intros Hl. unfold Murmur.murmur_hash32. pose proof (Z.mod_pos_bound len 4 ltac:(lia)). pose proof (Z.div_mod len 4 ltac:(lia)).
  eapply reads_bind; [apply reads_loop32; lia|]. intros [u h] Hu. cbn in Hu. rewrite Z2Nat.id in Hu by lia. reads_run.
  apply u32_xor_shift; [lia|]. by apply wrap_bounds.
Qed.

Lemma reads_loop64 len n : forall u h, 0 <= u -> u + 8 * Z.of_nat n <= len ->
  reads len (fun r => r.1 = u + 8 * Z.of_nat n) (fun s => Murmur.loop64 n s u h).
Proof.
  induction n as [|n IH]; intros u h Hu Hl; cbn [Murmur.loop64]; [apply reads_ret; cbn; lia|].
  reads_run. eapply reads_weaken; [|apply IH; lia]. cbn. lia.
Qed.

Lemma reads_murmur_hash64 len : 0 <= len -> reads len is_u64 (fun s => Murmur.murmur_hash64 s len).
Proof.
  intros Hl. unfold Murmur.murmur_hash64. pose proof (Z.mod_pos_bound len 8 ltac:(lia)). pose proof (Z.div_mod len 8 ltac:(lia)).
  assert (Z.land len 7 = len mod 8) as E by apply (Z.land_ones len 3 ltac:(lia)).
  eapply reads_bind; [apply reads_loop64; lia|]. intros [u h] Hu. cbn in Hu. rewrite Z2Nat.id in Hu by lia.
  rewrite E. reads_run.
Qed.

(** ** City *)

Lemma reads_HashLen0to16 len p n : 0 <= p -> 0 <= n -> p + n <= len ->
  reads len is_u64 (fun s => City.HashLen0to16 s p n).
Proof.
  intros. unfold City.HashLen0to16. assert (Z.shiftr n 1 = n / 2) as E by (by rewrite Z.shiftr_div_pow2 by lia).
  rewrite E. reads_run; first [by apply w64_is_u64|apply reads_aget; Z.to_euclidean_division_equations; lia].
Qed.

Lemma reads_HashLen17to32 len p n : 0 <= p -> 16 <= n -> p + n <= len ->
  reads len is_u64 (fun s => City.HashLen17to32 s p n).
Proof. intros. unfold City.HashLen17to32. reads_run. Qed.

Lemma reads_HashLen33to64 len p n : 0 <= p -> 32 <= n -> p + n <= len ->
  reads len is_u64 (fun s => City.HashLen33to64 s p n).
Proof. intros. unfold City.HashLen33to64. reads_run. Qed.

Lemma reads_Weak len p a b : 0 <= p -> p + 32 <= len ->
  reads len (fun _ => True) (fun s => City.WeakHashLen32WithSeeds s p a b).
Proof. intros. unfold City.WeakHashLen32WithSeeds. reads_run. Qed.
#[export] Hint Resolve reads_HashLen0to16 reads_HashLen17to32 reads_HashLen33to64 reads_Weak : hash_reads.

Lemma reads_chunk len p st : 0 <= p -> p + 64 <= len -> reads len (fun _ => True) (fun s => City.chunk s p st).
Proof. intros. unfold City.chunk. reads_run. Qed.
#[export] Hint Resolve reads_chunk : hash_reads.

Lemma reads_murmur_loop len end_ fuel : forall p n a b c d,
  0 <= p -> 16 < n -> p + n = end_ -> end_ <= len -> n <= 16 * Z.of_nat fuel ->
  reads len (fun _ => True) (fun s => City.murmur_loop fuel s p n a b c d).
Proof.
  induction fuel as [|fuel IH]; intros p n a b c d Hp Hn He Hl Hf; [lia|]. cbn [City.murmur_loop].
  reads_run. apply IH; lia.
Qed.

Lemma reads_CityMurmur len p n seed : 0 <= p -> 0 <= n -> p + n <= len ->
  reads len two_words (fun s => City.CityMurmur s p n seed).
Proof.
  intros. unfold City.CityMurmur. reads_run. apply (reads_murmur_loop _ (p + n)); lia.
Qed.
#[export] Hint Resolve reads_CityMurmur : hash_reads.

Lemma reads_chunks128 len end_ fuel : forall p n st,
  0 <= p -> 128 <= n -> p + n = end_ -> end_ <= len -> n <= 128 * Z.of_nat fuel ->
  reads len (fun r => 128 <= r.1.1 /\ 0 <= r.1.2 < 128 /\ r.1.1 + r.1.2 = end_) (fun s => City.chunks128 fuel s p n st).
Proof.
  induction fuel as [|fuel IH]; intros p n st Hp Hn He Hl Hf; [lia|]. cbn [City.chunks128].
  reads_run; [apply IH; lia|cbn; lia].
Qed.

Lemma reads_all_chunks len p n st : 0 <= p -> 128 <= n -> p + n <= len ->
  reads len (fun r => 128 <= r.1.1 /\ 0 <= r.1.2 < 128 /\ r.1.1 + r.1.2 = p + n) (fun s => City.chunks128 (Z.to_nat n) s p n st).
Proof. intros. apply (reads_chunks128 _ (p + n)); lia. Qed.
#[export] Hint Resolve reads_all_chunks : hash_reads.

Lemma reads_tail_loop len p n fuel : forall done_ st,
  32 <= p -> 0 <= done_ -> p + n <= len -> n <= done_ + 32 * Z.of_nat fuel ->
  reads len (fun _ => True) (fun s => City.tail_loop (S fuel) s p n done_ st).
Proof.
  induction fuel as [|fuel IH]; intros done_ st Hp Hd Hl Hf.
  - cbn [City.tail_loop]. bfalse (done_ <? n). by apply reads_ret.
  - remember (S fuel) as fuel' eqn:E. cbn [City.tail_loop]. subst fuel'. reads_run.
Qed.

Lemma reads_CityHash128WithSeed len p n seed : 0 <= p -> 0 <= n -> p + n <= len ->
  reads len two_words (fun s => City.CityHash128WithSeed s p n seed).
Proof.
  intros. unfold City.CityHash128WithSeed. apply reads_if; intro; [by apply reads_CityMurmur|].
  reads_run. apply reads_tail_loop; cbn in *; lia.
Qed.

Lemma reads_chunks64 len end_ fuel : forall p n st,
  0 <= p -> 64 <= n -> p + n = end_ -> end_ <= len -> n mod 64 = 0 -> n < 2 ^ 64 -> n <= 64 * Z.of_nat fuel ->
  reads len (fun _ => True) (fun s => City.chunks64 fuel s p n st).
Proof.
  induction fuel as [|fuel IH]; intros p n st Hp Hn He Hl Hm Hn64 Hf; [lia|]. cbn [City.chunks64].
  eapply reads_bind; [apply reads_chunk; lia|]. intros st' _. cbv zeta. rewrite (wrap_small 64 (n - 64)) by lia.
  apply reads_if; intro Hb; [|by apply reads_ret]. bool_to_prop.
  apply IH; try lia; Z.to_euclidean_division_equations; lia.
Qed.

(** [len & ~63] *)
Lemma land_not_63 a : 0 <= a < 2 ^ 64 -> Z.land a (w64 (Z.lnot 63)) = 64 * (a / 64).
Proof.
  intros Ha. transitivity (Z.shiftl (Z.shiftr a 6) 6); [|rewrite Z.shiftl_mul_pow2, Z.shiftr_div_pow2 by lia; change (2 ^ 6) with 64; lia].
  apply Z.bits_inj'. intros i Hi. rewrite Z.land_spec, wrap_testbit by lia. change 63 with (Z.ones 6).
  rewrite Z.lnot_spec, Z.testbit_ones_nonneg, Z.shiftl_spec by lia. destruct (Z.ltb_spec i 6).
  - rewrite (Z.testbit_neg_r _ (i - 6)) by lia. cbn. by rewrite !andb_false_r.
  - rewrite Z.shiftr_spec by lia. replace (i - 6 + 6) with i by lia. cbn. rewrite andb_true_r.
    destruct (Z.ltb_spec i 64); [by rewrite andb_true_r|]. by rewrite (u64_testbit a) by done.
Qed.

Lemma reads_city_hash64 len : 0 <= len < 2 ^ 64 -> reads len is_u64 (fun s => City.city_hash64 s len).
Proof.
  intros Hl. unfold City.city_hash64. apply reads_if; intro.
  { apply reads_if; intro; [apply reads_HashLen0to16|apply reads_HashLen17to32]; lia. }
  apply reads_if; intro; [apply reads_HashLen33to64; lia|]. rewrite (land_not_63 (len - 1)) by lia. cbv zeta.
  reads_run. apply (reads_chunks64 _ (64 * ((len - 1) / 64))); Z.to_euclidean_division_equations; lia.
Qed.

Lemma reads_city_hash128 len : 0 <= len -> reads len two_words (fun s => City.city_hash128 s len).
Proof. intros. unfold City.city_hash128. reads_run; apply reads_CityHash128WithSeed; lia. Qed.

(** ** The property *)

(** C40: Every hash function is defined on a key of any length, whatever follows it in memory: City, Murmur, Spooky, FASTER's and the byte-wise Jenkins hash read the bytes of the key and no other, which alone determine the result, and return 64-bit words, the 32-bit Murmur hash a 32-bit one; jenkins_hash reads the key in whole 32-bit words, and so up to three bytes past a key whose length is not a multiple of 4: with nothing readable there it has no defined result. *)
Theorem hash_reads_in_bounds (len : Z) :
  0 <= len < 2 ^ 64 ->
  reads len is_u64 (fun s => City.city_hash64 s len) /\ reads len two_words (fun s => City.city_hash128 s len)
  /\ reads len is_u64 (fun s => Murmur.murmur_hash64 s len) /\ reads len is_u32 (fun s => Murmur.murmur_hash32 s len)
  /\ reads len two_words (fun s => Spooky.spooky_hash s len)
  /\ reads len is_u64 (fun s => Jenkins.jenkins_byte_hash s len)
  /\ reads len is_u64 (fun s => faster_hash_bytes s len)
  /\ reads (4 * ((len + 3) / 4)) is_u64 (fun s => Jenkins.jenkins_hash s len)
  /\ (len mod 4 <> 0 -> forall s, Z.of_nat (length s) = len -> Jenkins.jenkins_hash s len = None).
Proof.
  intros Hl. split; [by apply reads_city_hash64|]. split; [apply reads_city_hash128; lia|].
  split; [apply reads_murmur_hash64; lia|]. split; [apply reads_murmur_hash32; lia|].
  split; [apply reads_spooky_hash; lia|]. split; [apply reads_jenkins_byte_hash|]. split; [|split].
  - apply reads_faster_hash.
  - apply reads_jenkins_hash. lia.
  - intros Hm s Hs. apply jenkins_past; [lia|done|done].
Qed.

Lemma hash_reads_in_bounds_witness :
  0 <= 5 < 2 ^ 64 /\ Jenkins.jenkins_hash [104; 101; 108; 108; 111] 5 = None
  /\ exists h, City.city_hash64 [104; 101; 108; 108; 111; 33] 5 = Some h
       /\ City.city_hash64 [104; 101; 108; 108; 111] 5 = Some h /\ is_u64 h.
Proof.
  assert (0 <= 5 < 2 ^ 64) as H5 by lia. split; [exact H5|].
  destruct (hash_reads_in_bounds 5 H5) as (Hc & _ & _ & _ & _ & _ & _ & _ & Hj). split.
  - apply Hj; [discriminate|reflexivity].
  - destruct (Hc [104; 101; 108; 108; 111; 33]) as (h & E1 & E2 & Hh); [cbn; lia|]. exists h. split; [exact E1|].
    split; [exact E2|exact Hh].
Defined.
