(* ===== verification/Pointer.v ===== *)
(** * Tagged pointers: [src/util/pointer.h]

    A [DensePointer] is its 64-bit word, whose two bit fields are the address and the
    tag; an [AtomicDense] is the word in memory, and its operations take the word
    before and return the word after. One thread operates on it at a time, as the
    atomic operations guarantee. *)

From S2P Require Import Prelude.

Module DensePointer.
(** util/pointer.h:21-29 [DensePointer] *)
Record t := mk { code_ : Z }.
#[global] Instance eq_dec : EqDecision t.
Proof. solve_decision. Defined.

(** the bit fields of the union: the address in the low 48 bits, the tag above *)
Definition ptr_ (p : t) : Z := Z.land (code_ p) (Z.ones 48).
Definition res_ (p : t) : Z := Z.shiftr (code_ p) 48.

(** util/pointer.h:34-34 [DensePointer] *)
Definition null : t := mk 0.
(** util/pointer.h:36-36 [DensePointer] *)
Definition of_code (code : Z) : t := mk (w64 code).
(** util/pointer.h:38-38 [DensePointer]

    a bit field keeps the low bits of what it is given *)
Definition make (ptr res : Z) : t := mk (Z.lor (Z.land ptr (Z.ones 48)) (Z.shiftl (wrap 16 res) 48)).
(** util/pointer.h:49-51 [operator==] *)
Definition eqb (p q : t) : bool := code_ p =? code_ q.
(** util/pointer.h:53-55 [operator!=] *)
Definition neqb (p q : t) : bool := negb (code_ p =? code_ q).
(** util/pointer.h:57-57 [pointer] *)
Definition pointer (p : t) : Z := ptr_ p.
(** util/pointer.h:59-59 [remain] *)
Definition remain (p : t) : Z := wrap 16 (res_ p).
End DensePointer.

Module AtomicDense.
Import DensePointer.
(** util/pointer.h:68-74 [AtomicDense] *)
Definition atomic := Z.
Definition init (p : DensePointer.t) : atomic := code_ p.
(** util/pointer.h:80-82 [load] *)
Definition load (w : atomic) : DensePointer.t := of_code w.
(** util/pointer.h:84-86 [store] *)
Definition store (w : atomic) (desired : DensePointer.t) : atomic := code_ desired.
(** util/pointer.h:88-90 [exchange] *)
Definition exchange (w : atomic) (desired : DensePointer.t) : DensePointer.t * atomic := (of_code w, code_ desired).
(** util/pointer.h:92-100 [compare_exchange_strong]

    whether it stored, [expected] afterwards, and the word *)
Definition compare_exchange_strong (w : atomic) (expected desired : DensePointer.t) : bool * DensePointer.t * atomic :=
  if w =? code_ expected then (true, expected, code_ desired) else (false, mk w, w).
End AtomicDense.

(** ** Packing *)

Section pack.
Import DensePointer.

Lemma make_testbit ptr res i : 0 <= i ->
  Z.testbit (code_ (make ptr res)) i = if i <? 48 then Z.testbit ptr i else (i <? 64) && Z.testbit res (i - 48).
Proof.
  intros Hi. cbn [make code_]. rewrite Z.lor_spec, Z.land_spec, Z.testbit_ones_nonneg, Z.shiftl_spec by lia.
  destruct (Z.ltb_spec i 48).
  - rewrite (Z.testbit_neg_r _ (i - 48)) by lia. by rewrite andb_true_r, orb_false_r.
  - rewrite andb_false_r, wrap_testbit by lia. cbn. f_equal. blia.
Qed.

(** what the fields keep: the low 48 bits of the address, the tag at its width *)
Theorem dense_pointer_fields ptr res :
  pointer (make ptr res) = Z.land ptr (Z.ones 48) /\ remain (make ptr res) = wrap 16 res
  /\ of_code (code_ (make ptr res)) = make ptr res.
Proof.
  split; [|split].
  - unfold pointer, ptr_. apply Z.bits_inj'. intros i Hi. rewrite !Z.land_spec, make_testbit, Z.testbit_ones_nonneg by lia.
    destruct (i <? 48); [done|]. by rewrite !andb_false_r.
  - unfold remain, res_. apply Z.bits_inj'. intros i Hi. rewrite !wrap_testbit, Z.shiftr_spec, make_testbit by lia.
    bfalse (i + 48 <? 48). replace (i + 48 - 48) with i by lia. destruct (Z.ltb_spec i 16); [|done]. by btrue (i + 48 <? 64).
  - enough (w64 (code_ (make ptr res)) = code_ (make ptr res)) as E by (unfold of_code; rewrite E; done).
    apply Z.bits_inj'. intros i Hi. rewrite wrap_testbit by lia. destruct (Z.ltb_spec i 64); [done|].
    rewrite make_testbit by lia. bfalse (i <? 48). by bfalse (i <? 64).
Qed.

(** an address in the low 48 bits and a 16-bit tag come back *)
Lemma dense_pointer_roundtrip ptr res :
  0 <= ptr < 2 ^ 48 -> 0 <= res < 2 ^ 16 -> pointer (make ptr res) = ptr /\ remain (make ptr res) = res.
Proof.
  intros Hp Hr. destruct (dense_pointer_fields ptr res) as (-> & -> & _). rewrite Z.land_ones by lia.
  split; [by apply Z.mod_small|by apply wrap_small].
Qed.
End pack.
