(* ===== verification/Leaf.v ===== *)
(** * The leaf node: [LeafNode<K, V>] of [src/FBTree/lnode.h], integer keys

    The record [leaf] has the fields of the class; the operations are its member
    functions, on the node and, for [merge], on its sibling. They run under the
    node's latch or validate the version afterwards ([Latch] shows what that
    gives), so they are modelled as sequential code; [None] is undefined
    behaviour or an aborted check. *)

From S2P Require Import Prelude Bits Simd Encode Control Hash.

(** a [KVPair] in the memory: its address, and its immutable contents
    (FBTree/lnode.h:45, util/type.h:61-65) *)
Record kvpair {V : Type} := mkKV { kv_addr : Z; kv_key : Z; kv_value : V }.
Arguments kvpair V : clear implicits.
Arguments mkKV {V}.

(** what an atomic [KVPair*] holds: it is indeterminate until the first store *)
Inductive slot {V : Type} := Undef | Null | Ptr (kv : kvpair V).
Arguments slot V : clear implicits.
Arguments Undef {V}.
Arguments Null {V}.
Arguments Ptr {V}.

Record leaf {V : Type} := mkLeaf {
  control_ : Z;
  bitmap_ : Z;
  high_key_ : Z;
  sibling_ : ptr;
  tags_ : list Z;
  kvs_ : list (slot V);
}.
Arguments leaf V : clear implicits.
Arguments mkLeaf {V}.

(** What the leaf needs of its key type: the sizes of the node, the fingerprint of a key
    ([hash], cut to a byte), the form in which a separator is handed to the level above,
    and the keys there are. *)
Record kcode := KCode {
  kc_leaf_size : Z; kc_merge_size : Z;
  kc_tag : Z -> Z; kc_mid : Z -> Z; kc_range : Z -> Prop;
}.

Definition int_code (T : ktype) : kcode :=
  KCode (kLeafSize (Constant_of T)) (kLeafMergeSize (Constant_of T)) (tag_of T) (encode_convert T) (in_range T).
Coercion int_code : ktype >-> kcode.

(** the laws that the proofs about the leaf rely on *)
Class CodeOk (C : kcode) : Prop := {
  code_size : kc_leaf_size C = 64;
  code_merge : kc_merge_size C = 32;
  code_tag key : is_byte (kc_tag C key);
  code_zero : kc_range C 0;
}.

#[global] Instance int_code_ok T : CodeOk (int_code T).
Proof. split; [by destruct T|by destruct T|apply tag_of_byte|by destruct T]. Qed.

Module Leaf.
Section leaf.
Context {V : Type} (T : kcode).
Implicit Types (n rn : leaf V) (key : Z).

(** FBTree/lnode.h:41-42 [kNodeSize] *)
Definition kNodeSize : Z := kc_leaf_size T.
Definition kMergeSize : Z := kc_merge_size T.

Definition set_control n c := mkLeaf c (bitmap_ n) (high_key_ n) (sibling_ n) (tags_ n) (kvs_ n).
Definition set_bitmap n b := mkLeaf (control_ n) b (high_key_ n) (sibling_ n) (tags_ n) (kvs_ n).
Definition set_high n k := mkLeaf (control_ n) (bitmap_ n) k (sibling_ n) (tags_ n) (kvs_ n).
Definition set_sibling_ n s := mkLeaf (control_ n) (bitmap_ n) (high_key_ n) s (tags_ n) (kvs_ n).
Definition set_tags n t := mkLeaf (control_ n) (bitmap_ n) (high_key_ n) (sibling_ n) t (kvs_ n).
Definition set_kvs n (k : list (slot V)) := mkLeaf (control_ n) (bitmap_ n) (high_key_ n) (sibling_ n) (tags_ n) k.

(** [kvs_[i].load]: a null pointer is [Some None], an indeterminate value [None] *)
Definition load_kv n (i : Z) : option (option (kvpair V)) :=
  let* s := aget (kvs_ n) i in
  match s with Undef => None | Null => Some None | Ptr kv => Some (Some kv) end.

(** [kvs_[i].load()->]: a dereferenced slot must hold a valid pointer *)
Definition deref_kv n (i : Z) : option (kvpair V) := let* o := load_kv n i in o.

(** [kvs_[i].store(kv)] *)
Definition store_kv n (i : Z) (s : slot V) : option (leaf V) := set_kvs n <$> aset (kvs_ n) i s.

(** [kvs_[i].exchange(s)]: what it returns, and the node *)
Definition exchange_kv n (i : Z) (s : slot V) : option (option (kvpair V) * leaf V) :=
  let* old := load_kv n i in let* n := store_kv n i s in Some (old, n).

Definition slot_of (o : option (kvpair V)) : slot V :=
  match o with Some kv => Ptr kv | None => Null end.

(** an access of the control word that can abort *)
Definition on_control n (f : Z -> option Z) : option (leaf V) := set_control n <$> f (control_ n).
Definition update_version n : leaf V := set_control n (Control.update_version (control_ n)).
(** the latch taken by a thread that meets no other: [None] if it would spin for ever *)
Definition latch_exclusive n : option (leaf V) :=
  on_control n (fun c => fst <$> Control.latch_exclusive [(c, c)]).

(** [mask & ~(0x01ul << i)] is [clear_bit], [mask | (0x01ul << i)] is [set_bit] *)

(** FBTree/lnode.h:55-62 [compare_equal] *)
Definition compare_equal (p : list Z) (c : Z) : option Z :=
  if kNodeSize =? 64 then compare_equal_64 Config_kCmpMode p c
  else if kNodeSize =? 32 then compare_equal_32 Config_kCmpMode p c
  else if kNodeSize =? 16 then compare_equal_16 p c
  else None.

(** FBTree/lnode.h:64-71 [half_fill] *)
Definition half_fill : option Z :=
  if kNodeSize =? 64 then Some 0xFFFFFFFF
  else if kNodeSize =? 32 then Some 0xFFFF
  else if kNodeSize =? 16 then Some 0xFF
  else None.

(** FBTree/lnode.h:73-80 [full_idx] *)
Definition full_idx : option Z :=
  if kNodeSize =? 64 then Some (-1)
  else if kNodeSize =? 32 then Some 32
  else if kNodeSize =? 16 then Some 16
  else None.

(** FBTree/lnode.h:82-87 [bitmap]

    a shift by the width of the type is undefined *)
Definition bitmap (size : Z) : option Z :=
  if kNodeSize =? 64 then
    if size =? kNodeSize then Some (w64 (0 - 1))
    else assert* (0 <=? size) && (size <? 64) in Some (w64 (Z.shiftl 1 size - 1))
  else assert* (0 <=? size) && (size <? 64) in Some (w64 (Z.shiftl 1 size - 1)).

(** FBTree/lnode.h:145-145 [LeafNode]

    the tags are the bytes the allocation finds, the slots indeterminate *)
Definition LeafNode (raw_tags : list Z) : leaf V :=
  mkLeaf (Control.Control true) 0 0 None raw_tags (replicate (Z.to_nat kNodeSize) Undef).

(** FBTree/lnode.h:147-156 [~LeafNode]

    the key-value pairs destroyed and freed, in order *)
Definition destroy n : option (list (kvpair V)) :=
  let* r := for_mask (R := Empty_set) mask_fuel
    (fun idx freed => let* kv := deref_kv n idx in Some (inl (freed ++ [kv]))) (bitmap_ n) [] in
  match r with inl freed => Some freed | inr x => match x : Empty_set with end end.

(** FBTree/lnode.h:158-162 [sibling] *)
Definition sibling n : ptr :=
  if Control.has_sibling (control_ n) then sibling_ n
  else if Control.deleted (control_ n) then sibling_ n
  else None.

(** FBTree/lnode.h:189-203 [to_sibling]

    [Some None]: it returned false; [Some (Some next)]: true *)
Definition to_sibling n key : option ptr :=
  if Control.deleted (control_ n) then
    assert* bool_decide (is_Some (sibling_ n)) in Some (sibling_ n)
  else if Control.has_sibling (control_ n) && (high_key_ n <? key) then
    assert* bool_decide (is_Some (sibling_ n)) in Some (sibling_ n)
  else Some None.

(** the candidates: used slots with the fingerprint of the key *)
Definition candidates n key : option Z :=
  let* m := compare_equal (tags_ n) (kc_tag T key) in Some (Z.land (bitmap_ n) m).

(** FBTree/lnode.h:206-219 [lookup] *)
Definition lookup n key : option (option (kvpair V)) :=
  let* mask := candidates n key in
  let* r := for_mask mask_fuel
    (fun idx (_ : unit) =>
       let* kv := load_kv n idx in
       match kv with
       | Some kv => if key =? kv_key kv then Some (inr kv) else Some (inl tt)
       | None => Some (inl tt)
       end) mask tt in
  match r with inr kv => Some (Some kv) | inl _ => Some None end.

(** FBTree/lnode.h:222-251 [update]

    no other thread runs: the first compare-and-swap succeeds *)
Definition update n (kv : kvpair V) : option (option (kvpair V) * leaf V) :=
  let* mask := candidates n (kv_key kv) in
  let* r := for_mask mask_fuel
    (fun idx (_ : unit) =>
       let* old := load_kv n idx in
       match old with
       | Some old =>
           if kv_key kv =? kv_key old
           then let* n' := store_kv n idx (Ptr kv) in Some (inr (old, n'))
           else Some (inl tt)
       | None => Some (inl tt)
       end) mask tt in
  match r with inr (old, n') => Some (Some old, n') | inl _ => Some (None, n) end.

(** ** [upsert] *)

(** [std::sort] of pairs by their first component; [Leaf.upsert] and [kv_sort]
    sort distinct keys, so the order is the only one *)
Definition pair_le {A} (key_of : A -> Z) (a b : A) : Prop := key_of a <= key_of b.
#[global] Instance pair_le_dec {A} (key_of : A -> Z) a b : Decision (pair_le key_of a b).
Proof. unfold pair_le. apply _. Defined.
Definition std_sort {A} (key_of : A -> Z) (l : list A) : list A := merge_sort (pair_le key_of) l.

(** FBTree/lnode.h:287-299 [upsert] *)
Definition sorted_keys n : option (list (Z * Z)) :=
  let* keys := mapM (fun i => let* kv := deref_kv n i in Some (kv_key kv, i))
                 (seqZ 0 kNodeSize) in
  Some (std_sort fst keys).

(** FBTree/lnode.h:314-326 [upsert]

    one turn of the loop that moves the upper half: to slot [rid] of the new node;
    the last [lid] is the value of the variable after the loop *)
Definition move_one (keys : list (Z * Z)) (rid : Z) (st : leaf V * leaf V * Z * Z)
    : option (leaf V * leaf V * Z * Z) :=
  let '(n, rn, mask, _) := st in
  let* (_, lid) := aget keys (kNodeSize / 2 + rid) in
  let mask := set_bit mask lid in
  let* tag := aget (tags_ n) lid in
  let* rtags := aset (tags_ rn) rid tag in
  let rn := set_tags rn rtags in
  let* (moved, n) := exchange_kv n lid Null in
  let* rn := store_kv rn rid (slot_of moved) in
  Some (n, rn, mask, lid).

(** FBTree/lnode.h:314-326 [upsert] *)
Definition move_half (keys : list (Z * Z)) n rn : option (leaf V * leaf V * Z * Z) :=
  for_range (move_one keys) 0 (kNodeSize - kNodeSize / 2) (n, rn, 0, 0).

(** FBTree/lnode.h:313-346 [upsert]

    the normal split: the two nodes, whether the slot is in the new one, the slot *)
Definition split_half n rn (keys : list (Z * Z)) (kv : kvpair V) (rnode : Z)
    : option (leaf V * leaf V * bool * Z) :=
  let* (n, rn, mask, lid) := move_half keys n rn in
  let* half := half_fill in
  let rn := set_bitmap rn half in
  let rn := set_sibling_ rn (sibling_ n) in
  let rn := set_high rn (high_key_ n) in
  assert* (popcount 64 mask =? kNodeSize / 2) in
  let n := set_bitmap n (Z.ldiff (bitmap_ n) mask) in
  assert* (popcount 64 (bitmap_ n) =? kNodeSize / 2) in
  let n := set_sibling_ n (Some rnode) in
  let* (high, _) := aget keys (kNodeSize / 2 - 1) in
  let n := set_high n high in
  let* (n, rn) :=
    if negb (Control.has_sibling (control_ n))
    then let* n := on_control n Control.set_sibling in Some (n, rn)
    else let* rn := on_control rn Control.set_sibling in Some (n, rn) in
  if high_key_ n <? kv_key kv then Some (n, rn, true, kNodeSize / 2)
  else Some (n, rn, false, lid).

(** FBTree/lnode.h:286-349 [upsert]

    a full node: the two nodes, whether the slot is in the new one, the slot *)
Definition split n (kv : kvpair V) (rnode : Z) (raw_tags : list Z) : option (leaf V * leaf V * bool * Z) :=
  let* keys := sorted_keys n in
  let rn := LeafNode raw_tags in
  let* (back, _) := aget keys (kNodeSize - 1) in
  if negb (Control.has_sibling (control_ n)) && (back <? kv_key kv) then
    let n := set_sibling_ n (Some rnode) in
    let n := set_high n back in
    let* n := on_control n Control.set_sibling in
    Some (n, rn, true, 0)
  else split_half n rn keys kv rnode.

(** FBTree/lnode.h:351-355 [upsert] *)
Definition insert_slot n (idx : Z) (kv : kvpair V) : option (leaf V) :=
  assert* negb (Z.testbit (bitmap_ n) idx) in
  let* n := store_kv n idx (Ptr kv) in
  let* tags := aset (tags_ n) idx (kc_tag T (kv_key kv)) in
  let n := set_tags n tags in
  Some (set_bitmap n (set_bit (bitmap_ n) idx)).

(** what [upsert] returns and leaves: the old pair, this node, the new node (at
    the address [malloc] returned) with the separator in encoded form *)
Record upsert_result : Type := mkUpsert {
  u_old : option (kvpair V);
  u_this : leaf V;
  u_rnode : option (leaf V * Z);
}.

(** FBTree/lnode.h:263-272 [upsert]

    the key is in the node: its slot is exchanged *)
Definition exchange_existing n (kv : kvpair V)
    : option (option (option (kvpair V) * leaf V)) :=
  let* mask := candidates n (kv_key kv) in
  let* r := for_mask mask_fuel
    (fun idx (_ : unit) =>
       let* old := deref_kv n idx in
       if kv_key kv =? kv_key old
       then let* (latest, n') := exchange_kv n idx (Ptr kv) in Some (inr (latest, n'))
       else Some (inl tt)) mask tt in
  match r with inr x => Some (Some x) | inl _ => Some None end.

(** FBTree/lnode.h:254-358 [upsert] *)
Definition upsert n (kv : kvpair V) (rnode : Z) (raw_tags : list Z) : option upsert_result :=
  let* found := exchange_existing n kv in
  match found with
  | Some (old, n) => Some (mkUpsert old n None)
  | None =>
      let n := update_version n in
      let* n := if Control.ordered (control_ n) then on_control n Control.clear_order
                else Some n in
      let idx := index_least0 64 (bitmap_ n) in
      let* full := full_idx in
      if idx =? full then
        let* (n, rn, in_right, idx) := split n kv rnode raw_tags in
        let mid := kc_mid T (high_key_ n) in
        if (in_right : bool)
        then let* rn := insert_slot rn idx kv in Some (mkUpsert None n (Some (rn, mid)))
        else let* n := insert_slot n idx kv in Some (mkUpsert None n (Some (rn, mid)))
      else
        let* n := insert_slot n idx kv in Some (mkUpsert None n None)
  end.

(** ** [remove] and [merge] *)

(** FBTree/lnode.h:105-118 [merge] *)
Definition move_all n rn : option (leaf V * leaf V) :=
  let* r := for_mask (R := Empty_set) mask_fuel
    (fun ridx '((n, rn) : leaf V * leaf V) =>
       let lidx := index_least0 64 (bitmap_ n) in
       let* tag := aget (tags_ rn) ridx in
       let* tags := aset (tags_ n) lidx tag in
       let n := set_tags n tags in
       let* (kv, rn) := exchange_kv rn ridx Null in
       let* n := store_kv n lidx (slot_of kv) in
       let n := set_bitmap n (set_bit (bitmap_ n) lidx) in
       Some (inl (n, rn))) (bitmap_ rn) (n, rn) in
  match r with
  | inl (n, rn) => Some (n, set_bitmap rn 0)
  | inr x => match x : Empty_set with end
  end.

(** what [merge] leaves: this node, the sibling when it was latched, and the
    separator, in encoded form, when the sibling was merged into this node *)
Record merge_result : Type := mkMerge {
  m_this : leaf V;
  m_rnode : option (Z * leaf V);
  m_merged : option Z;
}.

Definition mergeable n rn : bool :=
  let lnkey := popcount 64 (bitmap_ n) in
  let rnkey := popcount 64 (bitmap_ rn) in
  (lnkey + rnkey <=? kMergeSize) || (lnkey =? 0).

(** FBTree/lnode.h:89-135 [merge]

    [mem] reads a node of the memory, [this] is the address of [n] *)
Definition merge (mem : Z -> option (leaf V)) (this : Z) n : option merge_result :=
  if Control.has_sibling (control_ n) then
    let* raddr := sibling_ n in
    let* rn := mem raddr in
    if mergeable n rn then
      let* rn := latch_exclusive rn in
      let* (n, rn, merged) :=
        if mergeable n rn then
          let mid := kc_mid T (high_key_ n) in
          let* (n, rn) := move_all n rn in
          let n := set_high n (high_key_ rn) in
          let n := set_sibling_ n (sibling_ rn) in
          let rn := set_sibling_ rn (Some this) in
          let* n := if negb (Control.has_sibling (control_ rn))
                    then on_control n Control.clear_sibling else Some n in
          let* rn := on_control rn Control.set_delete in
          Some (n, update_version rn, Some mid)
        else Some (n, rn, None) in
      let* rn := on_control rn Control.unlatch_exclusive in
      Some (mkMerge n (Some (raddr, rn)) merged)
    else Some (mkMerge n None None)
  else Some (mkMerge n None None).

(** FBTree/lnode.h:361-390 [remove] *)
Definition remove (mem : Z -> option (leaf V)) (this : Z) n key
    : option (option (kvpair V) * merge_result) :=
  let* mask := candidates n key in
  let* r := for_mask mask_fuel
    (fun idx (_ : unit) =>
       let* kv := deref_kv n idx in
       if kv_key kv =? key then
         let n := update_version n in
         let n := set_bitmap n (clear_bit (bitmap_ n) idx) in
         let* (kv, n) := exchange_kv n idx Null in
         let* m := merge mem this n in
         let* n := if Control.ordered (control_ (m_this m))
                   then on_control (m_this m) Control.clear_order else Some (m_this m) in
         Some (inr (kv, mkMerge n (m_rnode m) (m_merged m)))
       else Some (inl tt)) mask tt in
  match r with inr x => Some x | inl _ => Some (None, mkMerge n None None) end.

(** ** The ordered view *)

(** FBTree/lnode.h:401-409 [kv_sort] *)
Definition take_all n : option (list (kvpair V * Z) * leaf V) :=
  let* r := for_mask (R := Empty_set) mask_fuel
    (fun idx '((keys, n) : list (kvpair V * Z) * leaf V) =>
       let* (kv, n) := exchange_kv n idx Null in
       let* kv := kv in
       Some (inl (keys ++ [(kv, idx)], n))) (bitmap_ n) ([], n) in
  match r with inl x => Some x | inr x => match x : Empty_set with end end.

(** FBTree/lnode.h:417-421 [kv_sort]

    [tags] is the local array, [idx] the next slot *)
Fixpoint put_all (keys : list (kvpair V * Z)) (idx : Z) (tags : list Z) n
    : option (list Z * leaf V) :=
  match keys with
  | [] => Some (tags, n)
  | (kv, pos) :: keys =>
      let* tag := aget (tags_ n) pos in
      let* tags := aset tags idx tag in
      let* n := store_kv n idx (Ptr kv) in
      put_all keys (idx + 1) tags n
  end.

(** FBTree/lnode.h:395-428 [kv_sort]

    [raw_tags]: the uninitialised local array *)
Definition kv_sort n (raw_tags : list Z) : option (leaf V) :=
  if negb (Control.ordered (control_ n)) then
    let* (keys, n) := take_all n in
    let keys := std_sort (fun k => kv_key k.1) keys in
    let* (tags, n) := put_all keys 0 raw_tags n in
    let n := set_tags n tags in
    let* b := bitmap (Z.of_nat (length keys)) in
    let n := set_bitmap n b in
    let* n := on_control n Control.set_order in
    Some (update_version n)
  else Some n.

(** [std::upper_bound] of a sorted range: the index of the first greater key *)
Fixpoint upper_index (keys : list Z) key : Z :=
  match keys with
  | [] => 0
  | k :: keys => if key <? k then 0 else 1 + upper_index keys key
  end.

(** FBTree/lnode.h:454-461 [bound]

    the keys of the first [nkey] slots; [None] inside: a null pointer was met *)
Definition first_keys n (nkey : Z) : option (option (list Z)) :=
  foldr (fun kid (k : list Z -> option (option (list Z))) keys =>
    let* kv := load_kv n kid in
    match kv with
    | None => Some None
    | Some kv => k (keys ++ [kv_key kv])
    end) (fun keys => Some (Some keys)) (seqZ 0 nkey) [].

(** FBTree/lnode.h:430-471 [bound]

    line 444 builds the pair it means to return and drops it *)
Definition bound n key (upper : bool) : option (option (kvpair V) * Z) :=
  let nkey := popcount 64 (bitmap_ n) in
  let* mask := candidates n key in
  let* r := for_mask mask_fuel
    (fun idx (_ : unit) =>
       let* kv := load_kv n idx in
       match kv with
       | Some kv =>
           if key =? kv_key kv then
             if upper then let* kv := load_kv n (idx + 1) in Some (inr (kv, idx + 1))
             else Some (inr (Some kv, idx))
           else Some (inl tt)
       | None => Some (inl tt)
       end) mask tt in
  match r with
  | inr x => Some x
  | inl _ =>
      let* keys := first_keys n nkey in
      match keys with
      | None => Some (None, 0)
      | Some keys =>
          let kid := upper_index keys key in
          if nkey <=? kid then Some (None, 0)
          else let* kv := load_kv n kid in Some (kv, kid)
      end
  end.

(** FBTree/lnode.h:137-142 [access] *)
Definition access_pos n (pos : Z) : option (option (kvpair V)) :=
  if (pos <? 0) || (kNodeSize <=? pos) then Some None
  else
    let mask := Z.shiftl 1 pos in
    if Z.land mask (bitmap_ n) =? 0 then Some None
    else load_kv n pos.

(** FBTree/lnode.h:473-495 [access] *)
Definition access n (kv : option (kvpair V)) (pos version : Z) (raw_tags : list Z)
    : option (option (kvpair V) * Z * Z * leaf V) :=
  let slow :=
    let* n := latch_exclusive n in
    let* n := kv_sort n raw_tags in
    let* (next, pos) :=
      match kv with
      | Some kv => bound n (kv_key kv) true
      | None => let* next := access_pos n pos in Some (next, pos)
      end in
    let version := Control.load_version (control_ n) in
    let* n := on_control n Control.unlatch_exclusive in
    Some (next, pos, version, n) in
  if Control.ordered (control_ n) then
    let* next := access_pos n pos in
    let* (valid, _) := Control.end_read [control_ n] version in
    if (valid : bool) then Some (next, pos, version, n) else slow
  else slow.

(** FBTree/lnode.h:164-168 [statistic]

    the increments of [stat["index size"]], [stat["leaf num"]] and [stat["kv pair num"]] *)
Definition statistic (sizeof_LeafNode : Z) n (stat : Z * Z * Z) : Z * Z * Z :=
  let '(size, leaves, kvs) := stat in
  (size + sizeof_LeafNode, leaves + 1, kvs + popcount 64 (bitmap_ n)).
End leaf.
End Leaf.
