(* ===== verification/LeafSpec.v ===== *)
(** * What the leaf operations do

    The invariant of a leaf, the finite map it stands for, and the specification
    of every operation of [Leaf] in terms of that map. *)

From S2P Require Import Prelude Bits Simd Encode Control Hash Leaf.
Import Leaf.

#[local] Opaque for_mask mask_fuel.

Lemma and_iff_compat_l_iff (A B C : Prop) : (A -> (B <-> C)) -> (A /\ B <-> A /\ C).
Proof. tauto. Qed.

Lemma and_iff_compat_r_iff (A B C : Prop) : (C -> (A <-> B)) -> (A /\ C <-> B /\ C).
Proof. tauto. Qed.

Section spec.
Context {V : Type} (T : kcode) {HT : CodeOk T}.
Implicit Types (n rn : leaf V) (kv : kvpair V) (key i j : Z).

(** the slot [i] is in use, and holds [kv] *)
Definition used n i : Prop := Z.testbit (bitmap_ n) i = true.
Definition kv_at n i kv : Prop := aget (kvs_ n) i = Some (Ptr kv).
Definition has n kv : Prop := exists i, used n i /\ kv_at n i kv.

(** ** The invariant *)

(** the slots, the tags and the bitmap agree; a free slot holds no pair *)
Record body_wf n : Prop := {
  wf_bm : is_u64 (bitmap_ n);
  wf_tags : length (tags_ n) = 64%nat;
  wf_bytes : Forall is_byte (tags_ n);
  wf_kvs : length (kvs_ n) = 64%nat;
  wf_used i : used n i -> exists kv,
    kv_at n i kv /\ aget (tags_ n) i = Some (kc_tag T (kv_key kv)) /\ kc_range T (kv_key kv);
  wf_free i kv : ~ used n i -> ~ kv_at n i kv;
  wf_distinct i j kv kv' :
    used n i -> used n j -> kv_at n i kv -> kv_at n j kv' -> kv_key kv = kv_key kv' -> i = j;
}.

(** the pairs are in the first slots, in the order of their keys *)
Definition sorted_slots n : Prop :=
  (exists m, 0 <= m <= 64 /\ bitmap_ n = Z.ones m)
  /\ (forall i j kv kv', i < j -> used n i -> used n j -> kv_at n i kv -> kv_at n j kv' ->
        kv_key kv < kv_key kv').

(** [f] is what the control word says *)
Record leaf_wf n (f : Control.fields) : Prop := {
  wf_body : body_wf n;
  wf_word : control_ n = Control.encode f;
  wf_valid : Control.valid f;
  wf_leaf : Control.f_leaf f = true;
  wf_high : kc_range T (high_key_ n);
  wf_bounded kv : Control.f_sibling f = true -> has n kv -> kv_key kv <= high_key_ n;
  wf_ordered : Control.f_ordered f = true -> sorted_slots n;
}.

Lemma set_bits_used n i : i ∈ set_bits (bitmap_ n) -> used n i.
Proof. by intros [_ H]%elem_of_set_bits. Qed.

#[global] Instance used_dec n i : Decision (used n i).
Proof. unfold used. apply _. Defined.

Lemma used_range n i : is_u64 (bitmap_ n) -> used n i -> 0 <= i < 64.
Proof.
  intros Hb Hu. unfold used in Hu. split.
  - destruct (decide (0 <= i)); [done|]. by rewrite Z.testbit_neg_r in Hu by lia.
  - destruct (decide (i < 64)); [done|].
    rewrite (testbit_above _ 64) in Hu by (try done; unfold is_u64 in Hb; lia). done.
Qed.

Lemma kv_at_inj n i kv kv' : kv_at n i kv -> kv_at n i kv' -> kv = kv'.
Proof. unfold kv_at. congruence. Qed.

(** a key is in one slot only *)
Lemma has_unique n kv kv' :
  body_wf n -> has n kv -> has n kv' -> kv_key kv = kv_key kv' -> kv = kv'.
Proof.
  intros Hn (i & Hi & Hik) (j & Hj & Hjk) E.
  assert (i = j) as -> by eauto using wf_distinct. eauto using kv_at_inj.
Qed.

(** ** The finite map of a leaf *)

Definition entry_at n i : option (kvpair V) :=
  match aget (kvs_ n) i with Some (Ptr kv) => Some kv | _ => None end.

Definition entries n : list (kvpair V) := omap (entry_at n) (set_bits (bitmap_ n)).

Definition content n : gmap Z (kvpair V) :=
  list_to_map ((fun kv => (kv_key kv, kv)) <$> entries n).

Lemma entry_at_Some n i kv : entry_at n i = Some kv <-> kv_at n i kv.
Proof. unfold entry_at, kv_at. destruct (aget _ _) as [[]|]; naive_solver. Qed.

Lemma elem_entries n kv : is_u64 (bitmap_ n) -> kv ∈ entries n <-> has n kv.
Proof.
  intros Hb. unfold entries, has. rewrite list_elem_of_omap.
  setoid_rewrite elem_of_set_bits. setoid_rewrite entry_at_Some.
  split; [naive_solver|]. intros (i & Hu & Hk). exists i.
  split; [|done]. split; [by eapply used_range|done].
Qed.

Lemma content_lookup n k kv :
  body_wf n -> content n !! k = Some kv <-> kv_key kv = k /\ has n kv.
Proof.
  intros Hn. pose proof (wf_bm n Hn) as Hb. unfold content. split.
  - intros H. apply elem_of_list_to_map_2 in H.
    apply list_elem_of_fmap in H as (kv' & [= -> ->] & H). by rewrite <- elem_entries.
  - intros [<- Hh]. apply elem_of_list_to_map_1'.
    + intros kv' H. apply list_elem_of_fmap in H as (kv2 & [= E ->] & H).
      rewrite elem_entries in H by done. by eapply has_unique.
    + apply list_elem_of_fmap. exists kv. by rewrite elem_entries.
Qed.

Lemma content_None n k :
  body_wf n -> content n !! k = None <-> (forall kv, has n kv -> kv_key kv <> k).
Proof.
  intros Hn. rewrite eq_None_not_Some. unfold is_Some.
  setoid_rewrite (content_lookup n k) at 1; [|done]. naive_solver.
Qed.

(** two maps of pairs stored under their keys *)
Lemma content_ext n (m : gmap Z (kvpair V)) :
  body_wf n -> (forall k kv, m !! k = Some kv <-> kv_key kv = k /\ has n kv) -> content n = m.
Proof.
  intros Hn H. apply map_eq. intros k. apply option_eq. intros kv.
  by rewrite content_lookup, H.
Qed.

(** ** Searching by fingerprint *)

Lemma candidates_spec n key :
  body_wf n ->
  exists mask, candidates T n key = Some mask /\ is_u64 mask
    /\ forall i, Z.testbit mask i = true
         <-> used n i /\ aget (tags_ n) i = Some (kc_tag T key).
Proof.
  intros Hn. pose proof (wf_tags n Hn) as Hl. pose proof (wf_bm n Hn) as Hb.
  unfold candidates, compare_equal, kNodeSize.
  rewrite (code_size (C := T)). cbn [Z.eqb Pos.eqb].
  rewrite compare_equal_64_spec by lia. eexists. split; [done|].
  split; [by apply land_u64|]. intros i. rewrite Z.land_spec, andb_true_iff. fold (used n i).
  apply and_iff_compat_l_iff. intros Hu. pose proof (used_range n i Hb Hu) as Hi.
  rewrite mask1_testbit by (try apply code_tag; lia). btrue (i <? Z.of_nat 64). cbn [andb].
  destruct (aget (tags_ n) i) as [b|] eqn:Eb; [|done].
  rewrite on_schar_eqb, Z.eqb_eq; [naive_solver| |apply code_tag].
  apply aget_Some in Eb as [_ Eb].
  pose proof (wf_bytes n Hn) as Hby. rewrite Forall_lookup in Hby. eauto.
Qed.

(** a key in use is among its candidates *)
Lemma candidates_used n key mask i kv :
  body_wf n -> candidates T n key = Some mask -> used n i -> kv_at n i kv -> kv_key kv = key ->
  i ∈ set_bits mask.
Proof.
  intros Hn Hm Hu Hk <-. destruct (candidates_spec n (kv_key kv) Hn) as (mask' & E & _ & H).
  rewrite E in Hm. injection Hm as ->.
  apply elem_of_set_bits. split; [by eapply used_range; [apply wf_bm|]|]. apply H.
  split; [done|]. destruct (wf_used n Hn i Hu) as (kv' & Hk' & Ht & _).
  by rewrite (kv_at_inj _ _ _ _ Hk Hk').
Qed.

Lemma candidates_in_use n key mask i :
  body_wf n -> candidates T n key = Some mask -> i ∈ set_bits mask ->
  used n i /\ exists kv, kv_at n i kv.
Proof.
  intros Hn Hm Hi. destruct (candidates_spec n key Hn) as (mask' & E & _ & H).
  rewrite E in Hm. injection Hm as ->.
  apply elem_of_set_bits in Hi as [_ Hi]. apply H in Hi as [Hu _].
  split; [done|]. destruct (wf_used n Hn i Hu) as (kv & ? & _). eauto.
Qed.

Lemma fold_until_skip {R} (body : Z -> unit -> option (unit + R)) l :
  (forall i, i ∈ l -> body i tt = Some (inl tt)) -> fold_until body l tt = Some (inl tt).
Proof.
  induction l as [|i l IH]; intros H; cbn [fold_until]; [done|].
  rewrite H by (by left). cbn. apply IH. intros j Hj. apply H. by right.
Qed.

Lemma fold_until_stop {R} (body : Z -> unit -> option (unit + R)) l i :
  i ∈ l -> (forall j, j ∈ l -> j <> i -> body j tt = Some (inl tt)) ->
  body i tt <> Some (inl tt) -> fold_until body l tt = body i tt.
Proof.
  induction l as [|j l IH]; intros Hi H Hb; [by apply not_elem_of_nil in Hi|].
  cbn [fold_until]. destruct (decide (j = i)) as [->|Hne].
  - destruct (body i tt) as [[[]|x]|]; done.
  - rewrite H by (try left; done). cbn. apply IH; [set_solver| |done].
    intros j' Hj'. apply H. by right.
Qed.

(** the search loop reaches the slot of the key ... *)
Lemma search_hit {R} n key mask (body : Z -> unit -> option (unit + R)) i kv :
  body_wf n -> candidates T n key = Some mask -> used n i -> kv_at n i kv -> kv_key kv = key ->
  (forall j kv', used n j -> kv_at n j kv' -> kv_key kv' <> key -> body j tt = Some (inl tt)) ->
  body i tt <> Some (inl tt) -> for_mask mask_fuel body mask tt = body i tt.
Proof.
  intros Hn Hm Hu Hk E H Hb. pose proof (candidates_spec n key Hn) as (mask' & E' & Hm64 & _).
  rewrite E' in Hm. injection Hm as ->. rewrite for_mask_spec by done.
  apply fold_until_stop; [by eapply candidates_used| |done].
  intros j Hj Hne. destruct (candidates_in_use n key mask j Hn E' Hj) as [Huj [kvj Hkj]].
  apply (H j kvj Huj Hkj). intros Ej. apply Hne. subst key. by eauto using wf_distinct.
Qed.

(** ... and runs through when there is none *)
Lemma search_miss {R} n key mask (body : Z -> unit -> option (unit + R)) :
  body_wf n -> candidates T n key = Some mask -> content n !! key = None ->
  (forall j kv', used n j -> kv_at n j kv' -> kv_key kv' <> key -> body j tt = Some (inl tt)) ->
  for_mask mask_fuel body mask tt = Some (inl tt).
Proof.
  intros Hn Hm Hc H. pose proof (candidates_spec n key Hn) as (mask' & E' & Hm64 & _).
  rewrite E' in Hm. injection Hm as ->. rewrite for_mask_spec by done.
  apply fold_until_skip. intros j Hj.
  destruct (candidates_in_use n key mask j Hn E' Hj) as [Huj [kvj Hkj]].
  apply (H j kvj Huj Hkj). apply (proj1 (content_None n key Hn) Hc). by exists j.
Qed.

Lemma load_kv_at n i kv : kv_at n i kv -> load_kv n i = Some (Some kv).
Proof. unfold kv_at, load_kv. by intros ->. Qed.

Lemma deref_kv_at n i kv : kv_at n i kv -> deref_kv n i = Some kv.
Proof. intros H. unfold deref_kv. by rewrite (load_kv_at _ _ _ H). Qed.

(** ** [lookup] *)

Lemma lookup_content n key : body_wf n -> lookup T n key = Some (content n !! key).
Proof.
  intros Hn. unfold lookup. pose proof (candidates_spec n key Hn) as (mask & Hm & _ & _).
  rewrite Hm, bind_Some.
  assert (forall j kv', used n j -> kv_at n j kv' -> kv_key kv' <> key ->
    (let* o := load_kv n j in
     match o with
     | Some x => if key =? kv_key x then Some (inr x) else Some (inl tt)
     | None => Some (inl tt)
     end) = Some (inl tt)) as Hskip.
  { intros j kv' _ Hk Hne. rewrite (load_kv_at _ _ _ Hk). cbn.
    by bfalse (key =? kv_key kv'). }
  destruct (content n !! key) as [kv|] eqn:Ec.
  - apply content_lookup in Ec as [E (i & Hu & Hk)]; [|done].
    erewrite (search_hit n key mask _ i kv) by (try done; rewrite (load_kv_at _ _ _ Hk);
      cbn; btrue (key =? kv_key kv); done).
    rewrite (load_kv_at _ _ _ Hk), bind_Some. btrue (key =? kv_key kv). by rewrite bind_Some.
  - by rewrite (search_miss n key mask).
Qed.

(** ** Changing one slot *)

(** [n'] has the body of [n], but for slot [i] *)
Record replaces n i n' : Prop := {
  rep_bm : is_u64 (bitmap_ n');
  rep_lens : length (tags_ n') = 64%nat /\ length (kvs_ n') = 64%nat;
  rep_bytes : Forall is_byte (tags_ n');
  rep_used j : j <> i -> used n' j <-> used n j;
  rep_tags j : j <> i -> aget (tags_ n') j = aget (tags_ n) j;
  rep_kvs j kv : j <> i -> kv_at n' j kv <-> kv_at n j kv;
}.

(** what slot [i] is to hold, and why that is allowed *)
Definition slot_ok n i n' (o : option (kvpair V)) : Prop :=
  match o with
  | Some kv =>
      used n' i /\ kv_at n' i kv /\ aget (tags_ n') i = Some (kc_tag T (kv_key kv))
      /\ kc_range T (kv_key kv)
      /\ (forall j kv', j <> i -> used n j -> kv_at n j kv' -> kv_key kv' <> kv_key kv)
  | None => ~ used n' i /\ (forall kv, ~ kv_at n' i kv)
  end.

Lemma replace_slot n i n' o :
  body_wf n -> replaces n i n' -> slot_ok n i n' o ->
  body_wf n'
  /\ (forall kv, has n' kv <-> o = Some kv \/ exists j, j <> i /\ used n j /\ kv_at n j kv).
Proof.
  intros Hn [Hbm [Hlt Hlk] Hby Hru Hrt Hrk] Ho.
  assert (forall j kv, used n' j -> kv_at n' j kv ->
    (j = i /\ o = Some kv) \/ (j <> i /\ used n j /\ kv_at n j kv)) as Hinv.
  { intros j kv Hu Hk. destruct (decide (j = i)) as [->|Hne].
    - left. split; [done|]. destruct o as [kv'|]; [|by destruct Ho].
      destruct Ho as (_ & Hk' & _). f_equal. by eapply kv_at_inj.
    - right. by rewrite <- Hru, <- Hrk. }
  split.
  - split; try done.
    + intros j Hu. destruct (decide (j = i)) as [->|Hne].
      * destruct o as [kv|]; [|by destruct Ho].
        destruct Ho as (_ & ? & ? & ? & _). by exists kv.
      * rewrite Hru in Hu by done. destruct (wf_used n Hn j Hu) as (kv & ? & ? & ?).
        exists kv. by rewrite Hrk, Hrt.
    + intros j kv Hu Hk. destruct (decide (j = i)) as [->|Hne].
      * destruct o as [kv'|]; [by destruct Ho|]. by destruct Ho as [_ Ho]; apply Ho in Hk.
      * rewrite Hru in Hu by done. rewrite Hrk in Hk by done. by apply (wf_free n Hn j kv).
    + intros j1 j2 kv1 kv2 Hu1 Hu2 Hk1 Hk2 E.
      destruct (Hinv _ _ Hu1 Hk1) as [[-> ->]|(Hne1 & Hu1' & Hk1')],
        (Hinv _ _ Hu2 Hk2) as [[-> E2]|(Hne2 & Hu2' & Hk2')]; [done|..].
      * destruct Ho as (_ & _ & _ & _ & Hd). by destruct (Hd j2 kv2).
      * rewrite E2 in Ho. destruct Ho as (_ & _ & _ & _ & Hd). by destruct (Hd j1 kv1).
      * by eapply (wf_distinct n Hn).
  - intros kv. split.
    + intros (j & Hu & Hk). destruct (Hinv _ _ Hu Hk) as [[-> ->]|?]; [by left|right; eauto].
    + intros [->|(j & Hne & Hu & Hk)].
      * exists i. by destruct Ho as (? & ? & _).
      * exists j. by rewrite Hru, Hrk.
Qed.

(** the pairs in the other slots have other keys *)
Lemma has_other n i kv :
  body_wf n -> used n i -> kv_at n i kv -> forall kv',
  (exists j, j <> i /\ used n j /\ kv_at n j kv') <-> has n kv' /\ kv_key kv' <> kv_key kv.
Proof.
  intros Hn Hu Hk kv'. split.
  - intros (j & Hne & Huj & Hkj). split; [by exists j|]. intros E. apply Hne. eauto using wf_distinct.
  - intros [(j & Huj & Hkj) E]. exists j. split; [|done].
    intros ->. apply E. by rewrite (kv_at_inj _ _ _ _ Hk Hkj).
Qed.

Lemma content_insert n n' kv :
  body_wf n -> body_wf n' ->
  (forall kv', has n' kv' <-> kv' = kv \/ (has n kv' /\ kv_key kv' <> kv_key kv)) ->
  content n' = <[kv_key kv := kv]> (content n).
Proof.
  intros Hn Hn' H. apply content_ext; [done|]. intros k kv'.
  rewrite lookup_insert_Some, content_lookup by done. rewrite H. naive_solver.
Qed.

Lemma content_delete n n' key :
  body_wf n -> body_wf n' ->
  (forall kv', has n' kv' <-> has n kv' /\ kv_key kv' <> key) ->
  content n' = delete key (content n).
Proof.
  intros Hn Hn' H. apply content_ext; [done|]. intros k kv'.
  rewrite lookup_delete_Some, content_lookup by done. rewrite H. naive_solver.
Qed.

Lemma set_kvs_at n i s j kv :
  0 <= i < 64 -> length (kvs_ n) = 64%nat ->
  kv_at (set_kvs n (<[Z.to_nat i := s]> (kvs_ n))) j kv
  <-> (i = j /\ s = Ptr kv) \/ (i <> j /\ kv_at n j kv).
Proof.
  intros Hi Hl. unfold kv_at. cbn [kvs_ set_kvs]. rewrite aget_insert by lia.
  destruct (Z.eqb_spec i j); naive_solver.
Qed.

Lemma insert_at n n' i s j kv :
  kvs_ n' = <[Z.to_nat i := s]> (kvs_ n) -> 0 <= i < 64 -> length (kvs_ n) = 64%nat ->
  kv_at n' j kv <-> (i = j /\ s = Ptr kv) \/ (i <> j /\ kv_at n j kv).
Proof. intros E Hi Hl. rewrite <- (set_kvs_at n i s) by done. unfold kv_at. by rewrite E. Qed.

Lemma store_kv_eq n i s :
  0 <= i < 64 -> length (kvs_ n) = 64%nat ->
  store_kv n i s = Some (set_kvs n (<[Z.to_nat i := s]> (kvs_ n))).
Proof. intros. unfold store_kv. rewrite aset_in_range by lia. done. Qed.

Lemma exchange_kv_eq n i s kv :
  0 <= i < 64 -> length (kvs_ n) = 64%nat -> kv_at n i kv ->
  exchange_kv n i s = Some (Some kv, set_kvs n (<[Z.to_nat i := s]> (kvs_ n))).
Proof.
  intros Hi Hl Hk. unfold exchange_kv.
  by rewrite (load_kv_at _ _ _ Hk), bind_Some, store_kv_eq.
Qed.

(** the pair of a used slot is exchanged for one with the same key *)
Lemma exchange_used n i old kv :
  body_wf n -> used n i -> kv_at n i old -> kv_key old = kv_key kv ->
  let n' := set_kvs n (<[Z.to_nat i := Ptr kv]> (kvs_ n)) in
  body_wf n' /\ content n' = <[kv_key kv := kv]> (content n)
  /\ (forall kv', has n' kv' <-> kv' = kv \/ (has n kv' /\ kv_key kv' <> kv_key kv))
  /\ (forall j kv', kv_at n' j kv' -> exists kv2, kv_at n j kv2 /\ kv_key kv2 = kv_key kv').
Proof.
  intros Hn Hu Hk E n'. pose proof (used_range n i (wf_bm n Hn) Hu) as Hi.
  pose proof (wf_kvs n Hn) as Hl.
  assert (forall j kv', kv_at n' j kv' <-> (i = j /\ Ptr kv = Ptr kv') \/ (i <> j /\ kv_at n j kv'))
    as Hat by (intros; by apply set_kvs_at).
  destruct (wf_used n Hn i Hu) as (kv2 & Hk2 & Ht & Hin).
  rewrite <- (kv_at_inj _ _ _ _ Hk Hk2) in *.
  destruct (replace_slot n i n' (Some kv)) as [Hn' Hh].
  - done.
  - split; try apply Hn; try done.
    + split; [apply Hn|]. cbn. by rewrite length_insert.
    + intros j kv' Hne. rewrite Hat. naive_solver.
  - split; [done|]. split; [rewrite Hat; by left|]. rewrite <- E. split; [done|]. split; [done|].
    intros j kv' Hne Huj Hkj E'. apply Hne. eauto using wf_distinct.
  - assert (forall kv', has n' kv' <-> kv' = kv \/ (has n kv' /\ kv_key kv' <> kv_key kv)) as Hh'.
    { intros kv'. rewrite Hh, (has_other n i old), E by done. naive_solver. }
    split; [done|]. split; [by apply content_insert|]. split; [done|].
    intros j kv'. rewrite Hat. intros [[<- [= <-]]|[_ ?]]; eauto.
Qed.

(** ** [update] *)

Lemma update_spec n kv :
  body_wf n ->
  match content n !! kv_key kv with
  | Some old => exists i, used n i /\ kv_at n i old /\ kv_key old = kv_key kv
      /\ update T n kv = Some (Some old, set_kvs n (<[Z.to_nat i := Ptr kv]> (kvs_ n)))
  | None => update T n kv = Some (None, n)
  end.
Proof.
  intros Hn. unfold update.
  pose proof (candidates_spec n (kv_key kv) Hn) as (mask & Hm & _ & _).
  rewrite Hm, bind_Some.
  set (body := fun (idx : Z) (_ : unit) => _).
  assert (forall j kv', used n j -> kv_at n j kv' -> kv_key kv' <> kv_key kv ->
    body j tt = Some (inl tt)) as Hskip.
  { intros j kv' _ Hk Hne. unfold body. rewrite (load_kv_at _ _ _ Hk), bind_Some.
    by bfalse (kv_key kv =? kv_key kv'). }
  destruct (content n !! kv_key kv) as [old|] eqn:Ec.
  - apply content_lookup in Ec as [E (i & Hu & Hk)]; [|done].
    pose proof (used_range n i (wf_bm n Hn) Hu) as Hi.
    exists i. do 3 (split; [done|]). set (n' := set_kvs n _).
    assert (body i tt = Some (inr (old, n'))) as Hbody.
    { unfold body. rewrite (load_kv_at _ _ _ Hk), bind_Some. btrue (kv_key kv =? kv_key old).
      by rewrite store_kv_eq, bind_Some by (done || apply Hn). }
    by rewrite (search_hit n (kv_key kv) mask body i old), Hbody, bind_Some
      by (done || by rewrite Hbody).
  - by rewrite (search_miss n (kv_key kv) mask), bind_Some by done.
Qed.

(** ** The control word *)

Lemma update_version_eq n f :
  Control.valid f -> control_ n = Control.encode f ->
  update_version n = set_control n (Control.encode (Control.bump f)).
Proof.
  intros Hf E. unfold update_version. f_equal. rewrite E. by apply Control.update_version_encode.
Qed.

Lemma run_control n f o f' :
  Control.valid f -> control_ n = Control.encode f -> Control.run_fields o f = Some f' ->
  on_control n (Control.run o) = Some (set_control n (Control.encode f')) /\ Control.valid f'.
Proof.
  intros Hf E Hr. destruct (Control.run_encode o f Hf) as [E' Hv]. rewrite Hr in E'.
  unfold on_control. rewrite E, E'. split; [done|]. by apply Hv.
Qed.

Lemma reads n f :
  Control.valid f -> control_ n = Control.encode f ->
  Control.ordered (control_ n) = Control.f_ordered f
  /\ Control.has_sibling (control_ n) = Control.f_sibling f
  /\ Control.deleted (control_ n) = Control.f_deleted f
  /\ Control.is_leaf (control_ n) = Control.f_leaf f.
Proof.
  intros Hf ->. unfold Control.ordered, Control.has_sibling, Control.deleted, Control.is_leaf,
    Control.nonzero.
  rewrite Control.encode_order, Control.encode_sibling, Control.encode_del,
    Control.encode_leaf by done.
  by destruct f as [[] [] [] [] [] ? ?].
Qed.

Lemma clear_order_eq n f :
  Control.valid f -> control_ n = Control.encode f ->
  (if Control.ordered (control_ n) then on_control n Control.clear_order else Some n)
  = Some (set_control n (Control.encode (Control.with_ordered f false))).
Proof.
  intros Hf E. destruct (reads n f Hf E) as (-> & _).
  destruct (Control.f_ordered f) eqn:Eo.
  - apply (run_control n f Control.OpClearOrder); [done|done|]. cbn. by rewrite Eo.
  - f_equal. destruct n as [c ? ? ? ? ?], f as [? ? ? ? o ? ?]. cbn in *. by subst.
Qed.

Lemma set_sibling_eq n f :
  Control.valid f -> control_ n = Control.encode f -> Control.f_sibling f = false ->
  on_control n Control.set_sibling
    = Some (set_control n (Control.encode (Control.with_sibling f true))).
Proof.
  intros Hf E Hs. apply (run_control n f Control.OpSetSibling); [done|done|]. cbn. by rewrite Hs.
Qed.

(** ** Filling a free slot *)

Lemma insert_slot_spec n i kv :
  body_wf n -> 0 <= i < 64 -> ~ used n i -> kc_range T (kv_key kv) ->
  (forall kv', has n kv' -> kv_key kv' <> kv_key kv) ->
  exists n', insert_slot T n i kv = Some n'
    /\ body_wf n' /\ (forall kv', has n' kv' <-> kv' = kv \/ has n kv')
    /\ content n' = <[kv_key kv := kv]> (content n)
    /\ control_ n' = control_ n /\ high_key_ n' = high_key_ n /\ sibling_ n' = sibling_ n
    /\ bitmap_ n' = set_bit (bitmap_ n) i
    /\ n' = set_bitmap (set_tags (set_kvs n (<[Z.to_nat i := Ptr kv]> (kvs_ n)))
              (<[Z.to_nat i := kc_tag T (kv_key kv)]> (tags_ n))) (set_bit (bitmap_ n) i).
Proof.
  intros Hn Hi Hu Hin Hnew. pose proof (wf_kvs n Hn) as Hlk. pose proof (wf_tags n Hn) as Hlt.
  unfold insert_slot. unfold used in Hu. apply not_true_iff_false in Hu. rewrite Hu.
  cbn [negb asserting]. rewrite store_kv_eq, bind_Some by done. cbn [tags_ set_kvs].
  rewrite aset_in_range, bind_Some by lia.
  set (n' := set_bitmap _ _). exists n'. split; [done|].
  assert (forall j, used n' j <-> j = i \/ used n j) as Hused.
  { intros j. unfold used. cbn [bitmap_ n' set_bitmap set_tags set_kvs].
    rewrite set_bit_testbit, orb_true_iff, Z.eqb_eq by lia. naive_solver. }
  assert (forall j kv', kv_at n' j kv' <-> (i = j /\ Ptr kv = Ptr kv') \/ (i <> j /\ kv_at n j kv'))
    as Hat by (intros; by apply set_kvs_at).
  assert (forall j, aget (tags_ n') j
    = if i =? j then Some (kc_tag T (kv_key kv)) else aget (tags_ n) j) as Htag.
  { intros j. cbn [tags_ n' set_bitmap set_tags]. apply aget_insert. lia. }
  destruct (replace_slot n i n' (Some kv)) as [Hn' Hh]; [done| | |].
  - split.
    + apply set_bit_u64; [apply Hn|done].
    + cbn. by rewrite !length_insert.
    + cbn. apply Forall_insert; [apply Hn|apply code_tag].
    + intros j Hne. rewrite Hused. naive_solver.
    + intros j Hne. rewrite Htag. by bfalse (i =? j).
    + intros j kv' Hne. rewrite Hat. naive_solver.
  - split; [apply Hused; by left|]. split; [apply Hat; by left|].
    split; [rewrite Htag; by btrue (i =? i)|]. split; [done|].
    intros j kv' _ Huj Hkj. apply Hnew. by exists j.
  - assert (forall kv', has n' kv' <-> kv' = kv \/ has n kv') as Hh'.
    { intros kv'. rewrite Hh. split.
      - intros [[= ->]|(j & _ & ? & ?)]; [by left|right; by exists j].
      - intros [->|(j & Huj & Hkj)]; [by left|]. right. exists j. split; [|done].
        intros ->. unfold used in Huj. congruence. }
    split; [done|]. split; [done|]. split; [|done].
    apply content_insert; [done|done|]. intros kv'. rewrite Hh'. naive_solver.
Qed.

(** ** [upsert] of a key that is present *)

Lemma exchange_existing_spec n kv :
  body_wf n ->
  match content n !! kv_key kv with
  | Some old => exists i, used n i /\ kv_at n i old
      /\ exchange_existing T n kv
         = Some (Some (Some old, set_kvs n (<[Z.to_nat i := Ptr kv]> (kvs_ n))))
  | None => exchange_existing T n kv = Some None
  end.
Proof.
  intros Hn. unfold exchange_existing.
  pose proof (candidates_spec n (kv_key kv) Hn) as (mask & Hm & _ & _).
  rewrite Hm, bind_Some.
  set (body := fun (idx : Z) (_ : unit) => _).
  assert (forall j kv', used n j -> kv_at n j kv' -> kv_key kv' <> kv_key kv ->
    body j tt = Some (inl tt)) as Hskip.
  { intros j kv' _ Hk Hne. unfold body. rewrite (deref_kv_at _ _ _ Hk), bind_Some.
    by bfalse (kv_key kv =? kv_key kv'). }
  destruct (content n !! kv_key kv) as [old|] eqn:Ec.
  - apply content_lookup in Ec as [E (i & Hu & Hk)]; [|done].
    pose proof (used_range n i (wf_bm n Hn) Hu) as Hi. exists i. split; [done|]. split; [done|].
    assert (body i tt = Some (inr (Some old, set_kvs n (<[Z.to_nat i := Ptr kv]> (kvs_ n)))))
      as Hbody.
    { unfold body. rewrite (deref_kv_at _ _ _ Hk), bind_Some. btrue (kv_key kv =? kv_key old).
      by rewrite (exchange_kv_eq _ _ _ old), bind_Some by (done || apply Hn). }
    by rewrite (search_hit n (kv_key kv) mask body i old), Hbody, bind_Some
      by (done || by rewrite Hbody).
  - by rewrite (search_miss n (kv_key kv) mask), bind_Some by done.
Qed.

(** exchanging a pair for one with the same key keeps the whole invariant *)
Lemma exchange_leaf_wf n f i old kv :
  leaf_wf n f -> used n i -> kv_at n i old -> kv_key old = kv_key kv ->
  leaf_wf (set_kvs n (<[Z.to_nat i := Ptr kv]> (kvs_ n))) f.
Proof.
  intros [Hn Hw Hv Hl Hhi Hb Ho] Hu Hk E.
  destruct (exchange_used n i old kv Hn Hu Hk E) as (Hn' & _ & Hh & Hsame).
  split; try done.
  - intros kv' Hs [->|[Hh' _]]%Hh; [|by apply Hb]. rewrite <- E. apply Hb; [done|]. by exists i.
  - intros Hs. destruct (Ho Hs) as [Hm Hord]. split; [done|].
    intros j1 j2 kv1 kv2 Hlt Hu1 Hu2 Hk1 Hk2.
    destruct (Hsame _ _ Hk1) as (kv1' & Hk1' & <-), (Hsame _ _ Hk2) as (kv2' & Hk2' & <-).
    by apply (Hord j1 j2).
Qed.

(** ** Sorting *)

Lemma std_sort_perm {A} (key_of : A -> Z) l : std_sort key_of l ≡ₚ l.
Proof. apply merge_sort_Permutation. Qed.

#[local] Instance pair_le_total {A} (key_of : A -> Z) : Total (pair_le key_of).
Proof. intros x y. unfold pair_le. lia. Qed.
#[local] Instance pair_le_trans {A} (key_of : A -> Z) : Transitive (pair_le key_of).
Proof. intros x y z. unfold pair_le. lia. Qed.

(** distinct keys come out strictly increasing *)
Lemma std_sort_increasing {A} (key_of : A -> Z) l a b x y :
  NoDup (key_of <$> l) -> (a < b)%nat ->
  std_sort key_of l !! a = Some x -> std_sort key_of l !! b = Some y -> key_of x < key_of y.
Proof.
  intros Hd. assert (StronglySorted (pair_le key_of) (std_sort key_of l)) as Hs
    by (apply StronglySorted_merge_sort; apply _).
  rewrite <- (std_sort_perm key_of l) in Hd. revert a b Hd.
  induction Hs as [|z l' Hs IH Hz]; intros a b Hd Hab Ha Hb; [done|].
  rewrite fmap_cons, NoDup_cons in Hd. destruct Hd as [Hnz Hd].
  destruct b as [|b]; [lia|]. cbn in Hb.
  destruct a as [|a]; [|apply (IH a b); [done|lia|done|done]].
  cbn in Ha. injection Ha as ->. apply list_elem_of_lookup_2 in Hb.
  rewrite Forall_forall in Hz. specialize (Hz y Hb). unfold pair_le in Hz.
  assert (key_of x <> key_of y); [|lia]. intros E. apply Hnz. rewrite E. by apply list_elem_of_fmap_2.
Qed.

Lemma kNodeSize_64 : kNodeSize T = 64.
Proof. apply HT. Qed.

(** what the sorted array of [upsert] holds *)
Record sorted_view n (l : list (Z * Z)) : Prop := {
  sv_length : length l = 64%nat;
  sv_slots : NoDup l.*2;
  sv_all i : 0 <= i < 64 -> i ∈ l.*2;
  sv_kv a k i : l !! a = Some (k, i) -> 0 <= i < 64 /\ exists kv, kv_at n i kv /\ kv_key kv = k;
  sv_increasing a b x y : (a < b)%nat -> l !! a = Some x -> l !! b = Some y -> x.1 < y.1;
}.

Lemma full_used n i : bitmap_ n = Z.ones 64 -> 0 <= i < 64 -> used n i.
Proof. intros E Hi. unfold used. rewrite E, ones_testbit by lia. blia. Qed.

Lemma sorted_keys_spec n :
  body_wf n -> bitmap_ n = Z.ones 64 ->
  exists l, sorted_keys T n = Some l /\ sorted_view n l.
Proof.
  intros Hn Hfull. unfold sorted_keys. rewrite kNodeSize_64.
  set (f := fun i : Z => _).
  assert (forall i, 0 <= i < 64 -> exists kv, kv_at n i kv /\ f i = Some (kv_key kv, i)) as Hf.
  { intros i Hi. destruct (wf_used n Hn i (full_used n i Hfull Hi)) as (kv & Hk & _).
    exists kv. split; [done|]. unfold f. by rewrite (deref_kv_at _ _ _ Hk). }
  assert (is_Some (mapM f (seqZ 0 64))) as [ks Hks].
  { apply mapM_is_Some_2, Forall_forall. intros i Hi%elem_of_seqZ.
    destruct (Hf i ltac:(lia)) as (kv & _ & E). cbn. rewrite E. eauto. }
  rewrite Hks, bind_Some. eexists. split; [done|].
  apply mapM_Some_1 in Hks. set (l := std_sort fst ks).
  assert (l ≡ₚ ks) as Hp by apply std_sort_perm.
  assert (ks.*2 = seqZ 0 64) as E2.
  { clear l Hp. assert (Forall (fun i => 0 <= i < 64) (seqZ 0 64)) as Hr.
    { apply Forall_forall. intros i Hi%elem_of_seqZ. lia. }
    revert Hr. induction Hks as [|i p ixs ps Hip _ IH]; intros Hr; [done|].
    apply Forall_cons in Hr as [Hi Hr]. rewrite fmap_cons, IH by done.
    destruct (Hf i Hi) as (kv & _ & E). cbn beta in Hip. rewrite E in Hip. by injection Hip as <-. }
  assert (forall k i, (k, i) ∈ ks -> 0 <= i < 64 /\ exists kv, kv_at n i kv /\ kv_key kv = k) as Hel.
  { intros k i Hki. assert (0 <= i < 64) as Hi.
    { apply (list_elem_of_fmap_2 snd) in Hki. rewrite E2 in Hki. apply elem_of_seqZ in Hki. cbn in Hki. lia. }
    split; [done|]. destruct (Hf i Hi) as (kv & Hk & E). exists kv. split; [done|].
    apply list_elem_of_lookup in Hki as [a Ha].
    destruct (Forall2_lookup_r _ _ _ _ _ Hks Ha) as (i' & Hi' & E').
    assert (i' = i) as ->.
    { apply lookup_seqZ in Hi' as [Ei' _]. assert (ks.*2 !! a = Some i) as E2a
        by (by rewrite list_lookup_fmap, Ha). rewrite E2 in E2a. apply lookup_seqZ in E2a as [? _]. lia. }
    cbn beta in E'. rewrite E in E'. by injection E' as ->. }
  assert (NoDup ks.*1) as Hd1.
  { apply NoDup_fmap_2_strong; [|apply (NoDup_fmap_1 snd); rewrite E2; apply NoDup_seqZ].
    intros [k1 i1] [k2 i2] H1 H2 E. cbn in E. subst k2.
    destruct (Hel _ _ H1) as (Hi1 & kv1 & Hk1 & E1), (Hel _ _ H2) as (Hi2 & kv2 & Hk2 & E2').
    f_equal. apply (wf_distinct n Hn i1 i2 kv1 kv2);
      [by apply full_used|by apply full_used|done|done|congruence]. }
  split.
  - rewrite Hp. rewrite <- (length_fmap snd ks), E2. by rewrite length_seqZ.
  - rewrite Hp, E2. apply NoDup_seqZ.
  - intros i Hi. rewrite Hp, E2. apply elem_of_seqZ. lia.
  - intros a k i Ha. apply Hel. rewrite <- Hp. by eapply list_elem_of_lookup_2.
  - intros a b x y Hab Ha Hb. by apply (std_sort_increasing fst ks a b).
Qed.

(** ** Splitting *)

Section halves.
Context n (l : list (Z * Z)) (Hn : body_wf n) (Hfull : bitmap_ n = Z.ones 64)
  (Hl : sorted_view n l).

(** the slots of the first [r] pairs of the upper half *)
Definition moved (r : Z) : list Z := (take (Z.to_nat r) (drop 32 l)).*2.

Record half_moved (rn0 : leaf V) (r : Z) (st : leaf V * leaf V * Z * Z) : Prop := {
  hm_n : exists kvs, st.1.1.1 = set_kvs n kvs /\ length kvs = 64%nat;
  hm_n_at j kv : kv_at st.1.1.1 j kv <-> kv_at n j kv /\ j ∉ moved r;
  hm_rn : exists tags kvs, st.1.1.2 = set_kvs (set_tags rn0 tags) kvs
    /\ length tags = 64%nat /\ length kvs = 64%nat /\ Forall is_byte tags;
  hm_rn_at a kv : kv_at st.1.1.2 a kv <->
    0 <= a < r /\ exists k i, l !! Z.to_nat (32 + a) = Some (k, i) /\ kv_at n i kv;
  hm_rn_tag a kv : kv_at st.1.1.2 a kv -> aget (tags_ st.1.1.2) a = Some (kc_tag T (kv_key kv));
  hm_mask : is_u64 st.1.2 /\ forall j, 0 <= j -> Z.testbit st.1.2 j = true <-> j ∈ moved r;
  hm_lid : 0 < r -> exists k, l !! Z.to_nat (31 + r) = Some (k, st.2);
}.

Lemma moved_S r k i :
  0 <= r -> l !! Z.to_nat (32 + r) = Some (k, i) -> moved (r + 1) = moved r ++ [i].
Proof.
  intros Hr Ha. unfold moved. rewrite Z2Nat.inj_add, Nat.add_1_r by lia.
  rewrite (take_S_r _ _ (k, i)); [by rewrite fmap_app|].
  rewrite lookup_drop. rewrite <- Ha. f_equal. lia.
Qed.

Lemma moved_fresh r k i :
  0 <= r -> l !! Z.to_nat (32 + r) = Some (k, i) -> i ∉ moved r.
Proof.
  intros Hr Ha Hi. unfold moved in Hi. rewrite fmap_take, fmap_drop in Hi.
  apply list_elem_of_lookup in Hi as [b Hb].
  pose proof (lookup_lt_Some _ _ _ Hb) as Hlt. rewrite length_take in Hlt.
  rewrite lookup_take_lt in Hb by lia. rewrite lookup_drop in Hb.
  pose proof (sv_slots n l Hl) as Hnd. rewrite NoDup_alt in Hnd.
  assert (l.*2 !! Z.to_nat (32 + r) = Some i) as Ha2 by (by rewrite list_lookup_fmap, Ha).
  specialize (Hnd _ _ _ Hb Ha2). lia.
Qed.

Lemma move_one_spec rn0 r st :
  0 <= r < 32 -> half_moved rn0 r st ->
  exists st', move_one T l r st = Some st' /\ half_moved rn0 (r + 1) st'.
Proof.
  destruct st as [[[n1 rn1] mask] lid0].
  intros Hr [Hn1 Hna Hrn1 Hrna Hrt [Hm64 Hm] _]. cbn [fst snd] in *.
  destruct Hn1 as (kvs1 & -> & Hl1), Hrn1 as (tags2 & kvs2 & -> & Hlt2 & Hl2 & Hb2).
  destruct (lookup_lt_is_Some_2 l (Z.to_nat (32 + r))) as [[k i] Hki].
  { rewrite (sv_length n l Hl). lia. }
  destruct (sv_kv n l Hl _ _ _ Hki) as (Hi & kv & Hkv & Ek).
  pose proof (moved_fresh r k i ltac:(lia) Hki) as Hfresh.
  destruct (wf_used n Hn i (full_used n i Hfull Hi)) as (kv' & Hkv' & Htag & _).
  rewrite <- (kv_at_inj _ _ _ _ Hkv Hkv') in Htag. clear kv' Hkv'.
  assert (kv_at (set_kvs n kvs1) i kv) as Hkv1 by (by apply Hna).
  unfold move_one. rewrite kNodeSize_64. change (64 / 2) with 32.
  assert (aget l (32 + r) = Some (k, i)) as -> by (unfold aget; bfalse (32 + r <? 0); done).
  rewrite bind_Some. cbn [tags_ set_kvs set_tags]. rewrite Htag, bind_Some.
  rewrite aset_in_range, bind_Some by lia.
  rewrite (exchange_kv_eq _ _ _ kv), bind_Some by done.
  rewrite store_kv_eq, bind_Some by (cbn; lia). eexists. split; [done|].
  cbn [kvs_ set_kvs set_tags slot_of].
  split; cbn [fst snd].
  - exists (<[Z.to_nat i := Null]> kvs1). split; [reflexivity|]. by rewrite length_insert.
  - intros j kv'. rewrite (moved_S r k i), not_elem_of_app, list_elem_of_singleton by (done || lia).
    rewrite (insert_at (set_kvs n kvs1) _ i Null), Hna by done. naive_solver.
  - exists (<[Z.to_nat r := kc_tag T (kv_key kv)]> tags2), (<[Z.to_nat r := Ptr kv]> kvs2).
    split; [reflexivity|]. rewrite !length_insert.
    split; [done|]. split; [done|]. apply Forall_insert; [done|apply code_tag].
  - intros a kv'. rewrite (insert_at (set_kvs (set_tags rn0 tags2) kvs2) _ r (Ptr kv)), Hrna
      by (done || lia).
    split.
    + intros [[<- [= <-]]|(Hne & Ha & Hex)]; [|split; [lia|done]].
      split; [lia|]. by exists k, i.
    + intros (Ha & k' & i' & Hk' & Hkv'). destruct (decide (r = a)) as [->|Hne].
      * left. rewrite Hki in Hk'. injection Hk' as <- <-. split; [done|].
        by rewrite (kv_at_inj _ _ _ _ Hkv Hkv').
      * right. split; [done|]. split; [lia|]. by exists k', i'.
  - intros a kv'. rewrite (insert_at (set_kvs (set_tags rn0 tags2) kvs2) _ r (Ptr kv)) by (done || lia).
    cbn [tags_ set_kvs set_tags]. rewrite aget_insert by lia.
    intros [[<- [= <-]]|(Hne & Hk')]; [by btrue (r =? r)|].
    bfalse (r =? a). by apply Hrt.
  - split; [by apply set_bit_u64|]. intros j Hj.
    rewrite (moved_S r k i), set_bit_testbit, orb_true_iff, Hm, elem_of_app,
      list_elem_of_singleton, Z.eqb_eq by (done || lia). naive_solver.
  - intros _. exists k. by replace (31 + (r + 1)) with (32 + r) by lia.
Qed.

Lemma move_half_spec rn0 :
  length (tags_ rn0) = 64%nat -> Forall is_byte (tags_ rn0) ->
  kvs_ rn0 = replicate 64 Undef ->
  exists st, move_half T l n rn0 = Some st /\ half_moved rn0 32 st.
Proof.
  intros Hlt Hb Hk. unfold move_half. rewrite kNodeSize_64. change (64 - 64 / 2) with 32.
  apply (for_range_inv (half_moved rn0)); [done| |].
  - split; cbn [fst snd].
    + exists (kvs_ n). split; [by destruct n|apply Hn].
    + intros j kv. split; [|naive_solver]. intros. split; [done|]. apply not_elem_of_nil.
    + exists (tags_ rn0), (kvs_ rn0). rewrite Hk. split; [rewrite <- Hk; by destruct rn0|].
      by rewrite length_replicate.
    + intros a kv. unfold kv_at. rewrite Hk. split; [|lia].
      intros [_ H%lookup_replicate_1]%aget_Some. by destruct H.
    + intros a kv. unfold kv_at. rewrite Hk.
      intros [_ H%lookup_replicate_1]%aget_Some. by destruct H.
    + split; [done|]. intros j Hj. rewrite Z.testbit_0_l. split; [done|]. intros H.
      by apply not_elem_of_nil in H.
    + lia.
  - intros r st Hr Hst. apply move_one_spec; [lia|done].
Qed.

Lemma moved_all : moved 32 = (drop 32 l).*2.
Proof.
  unfold moved. rewrite take_ge; [done|]. rewrite length_drop, (sv_length n l Hl). done.
Qed.

Lemma halves_app : l.*2 = (take 32 l).*2 ++ moved 32.
Proof. by rewrite moved_all, <- fmap_app, take_drop. Qed.

Lemma length_moved : length (moved 32) = 32%nat.
Proof. rewrite moved_all, length_fmap, length_drop, (sv_length n l Hl). done. Qed.

Lemma not_moved j : 0 <= j < 64 -> j ∉ moved 32 <-> j ∈ (take 32 l).*2.
Proof.
  intros Hj. pose proof (sv_slots n l Hl) as Hnd. pose proof (sv_all n l Hl j Hj) as Hin.
  rewrite halves_app in Hnd, Hin. apply NoDup_app in Hnd as (_ & Hd & _).
  apply elem_of_app in Hin. naive_solver.
Qed.

Lemma moved_range j : j ∈ moved 32 -> 0 <= j < 64.
Proof.
  rewrite moved_all. intros Hj.
  apply list_elem_of_fmap in Hj as ([k i] & -> & Hki). apply list_elem_of_lookup in Hki as [a Ha].
  rewrite lookup_drop in Ha. by destruct (sv_kv n l Hl _ _ _ Ha).
Qed.

Lemma popcount_mask mask :
  is_u64 mask -> (forall j, 0 <= j -> Z.testbit mask j = true <-> j ∈ moved 32) ->
  popcount 64 mask = 32.
Proof.
  intros Hm H. rewrite (popcount_perm mask (moved 32)), length_moved; [done|done| | |apply moved_range].
  - pose proof (sv_slots n l Hl) as Hnd. rewrite halves_app in Hnd.
    by apply NoDup_app in Hnd as (_ & _ & ?).
  - intros j Hj. apply H. lia.
Qed.

Lemma rest_used mask j :
  (forall j, 0 <= j -> Z.testbit mask j = true <-> j ∈ moved 32) ->
  0 <= j < 64 -> Z.testbit (Z.ldiff (bitmap_ n) mask) j = true <-> j ∈ (take 32 l).*2.
Proof.
  intros H Hj. rewrite Z.ldiff_spec, Hfull, ones_testbit by lia.
  rewrite <- not_moved, <- H by lia. btrue ((0 <=? j) && (j <? 64)).
  destruct (Z.testbit mask j); cbn; naive_solver.
Qed.

Lemma popcount_rest mask :
  is_u64 mask -> (forall j, 0 <= j -> Z.testbit mask j = true <-> j ∈ moved 32) ->
  is_u64 (Z.ldiff (bitmap_ n) mask) /\ popcount 64 (Z.ldiff (bitmap_ n) mask) = 32.
Proof.
  intros Hm H.
  assert (is_u64 (Z.ldiff (bitmap_ n) mask)) as Hu.
  { split; [apply Z.ldiff_nonneg; left; rewrite Hfull; done|].
    apply testbit_bound; [done|apply Z.ldiff_nonneg; left; rewrite Hfull; done|]. intros i Hi.
    rewrite Z.ldiff_spec, Hfull, ones_testbit by lia. bfalse ((0 <=? i) && (i <? 64)). done. }
  split; [done|]. rewrite (popcount_perm _ (take 32 l).*2); [|done| | |].
  - rewrite length_fmap, length_take, (sv_length n l Hl). done.
  - pose proof (sv_slots n l Hl) as Hnd. rewrite halves_app in Hnd. by apply NoDup_app in Hnd as [? _].
  - intros j Hj. by apply rest_used.
  - intros j Hj. apply list_elem_of_fmap in Hj as ([k i] & -> & Hki).
    apply list_elem_of_lookup in Hki as [a Ha]. pose proof (lookup_lt_Some _ _ _ Ha) as Hlt.
    rewrite length_take in Hlt. rewrite lookup_take_lt in Ha by lia.
    by destruct (sv_kv n l Hl _ _ _ Ha).
Qed.

(** a pair of the node is in the sorted array *)
Lemma sorted_find i kv :
  kv_at n i kv -> 0 <= i < 64 -> exists a, l !! a = Some (kv_key kv, i) /\ (a < 64)%nat.
Proof.
  intros Hk Hi. pose proof (sv_all n l Hl i Hi) as Hin.
  apply list_elem_of_fmap in Hin as ([k i'] & -> & Hki). apply list_elem_of_lookup in Hki as [a Ha].
  exists a. destruct (sv_kv n l Hl _ _ _ Ha) as (_ & kv' & Hk' & <-).
  rewrite (kv_at_inj _ _ _ _ Hk Hk'). split; [done|].
  apply lookup_lt_Some in Ha. by rewrite (sv_length n l Hl) in Ha.
Qed.

(** the separator: keys up to it stay, greater ones move *)
Lemma separator mid i0 a k i :
  l !! 31%nat = Some (mid, i0) -> l !! a = Some (k, i) -> (a < 32)%nat <-> k <= mid.
Proof.
  intros Hm Ha. split.
  - intros Hlt. destruct (decide (a = 31%nat)) as [->|]; [rewrite Hm in Ha; injection Ha as ->; lia|].
    pose proof (sv_increasing n l Hl a 31 _ _ ltac:(lia) Ha Hm). cbn in *. lia.
  - intros Hle. destruct (decide (a < 32)%nat); [done|exfalso].
    pose proof (sv_increasing n l Hl 31 a _ _ ltac:(lia) Hm Ha). cbn in *. lia.
Qed.

Section after.
Context (rn0 n1 rn1 : leaf V) (mask lid mid i0 : Z)
  (Hst : half_moved rn0 32 (n1, rn1, mask, lid)) (Hmid : l !! 31%nat = Some (mid, i0)).

Lemma left_half n2 :
  bitmap_ n2 = Z.ldiff (bitmap_ n) mask -> tags_ n2 = tags_ n1 -> kvs_ n2 = kvs_ n1 ->
  body_wf n2 /\ (forall kv, has n2 kv <-> has n kv /\ kv_key kv <= mid)
  /\ ~ used n2 lid /\ 0 <= lid < 64.
Proof.
  intros Eb Et Ek. destruct Hst as [Hn1 Hna _ _ _ [Hm64 Hm] Hlid]. cbn [fst snd] in *.
  destruct Hn1 as (kvs1 & -> & Hl1). cbn [tags_ kvs_ set_kvs] in *.
  destruct (popcount_rest mask Hm64 Hm) as [Hu64 _].
  assert (forall j, used n2 j -> 0 <= j < 64) as Hr.
  { intros j. apply used_range. by rewrite Eb. }
  assert (forall j, 0 <= j < 64 -> used n2 j <-> j ∉ moved 32) as Hu.
  { intros j Hj. unfold used. rewrite Eb, rest_used, not_moved by done. done. }
  assert (forall j kv, kv_at n2 j kv <-> kv_at n j kv /\ j ∉ moved 32) as Hat.
  { intros j kv. rewrite <- Hna. unfold kv_at. by rewrite Ek. }
  split; [|split].
  - split.
    + by rewrite Eb.
    + by rewrite Et; apply Hn.
    + by rewrite Et; apply Hn.
    + by rewrite Ek.
    + intros j Huj. pose proof (Hr j Huj) as Hj.
      destruct (wf_used n Hn j (full_used n j Hfull Hj)) as (kv & ? & ? & ?).
      exists kv. rewrite Hat, Et. apply Hu in Huj; done.
    + intros j kv Huj [Hk Hnm]%Hat. apply Huj, Hu; [|done].
      apply aget_range in Hk. rewrite (wf_kvs n Hn) in Hk. lia.
    + intros j1 j2 kv1 kv2 H1 H2 [Hk1 _]%Hat [Hk2 _]%Hat.
      apply (wf_distinct n Hn); try done; apply full_used; auto.
  - intros kv. split.
    + intros (j & Huj & [Hk Hnm]%Hat). pose proof (Hr j Huj) as Hj.
      split; [exists j; split; [by apply full_used|done]|].
      destruct (sorted_find j kv Hk Hj) as (a & Ha & Hlt).
      apply (separator mid i0 a (kv_key kv) j); [done|done|].
      rewrite not_moved in Hnm by done. destruct (decide (a < 32)%nat); [done|exfalso].
      apply (not_moved j Hj) in Hnm. apply Hnm. rewrite moved_all.
      apply list_elem_of_fmap. exists (kv_key kv, j). split; [done|].
      apply list_elem_of_lookup. exists (a - 32)%nat. rewrite lookup_drop, <- Ha. f_equal. lia.
    + intros [(j & Huj & Hk) Hle]. pose proof (used_range n j (wf_bm n Hn) Huj) as Hj.
      destruct (sorted_find j kv Hk Hj) as (a & Ha & Hlt).
      apply (separator mid i0 a (kv_key kv) j) in Hle; [|done|done].
      assert (j ∉ moved 32) as Hnm.
      { apply not_moved; [done|]. apply list_elem_of_fmap. exists (kv_key kv, j). split; [done|].
        apply list_elem_of_lookup. exists a. by rewrite lookup_take_lt. }
      exists j. rewrite Hu, Hat by done. done.
  - destruct Hlid as [k Hk]; [done|]. destruct (sv_kv n l Hl _ _ _ Hk) as [Hj _].
    split; [|done]. rewrite Hu by done. intros Hnm. apply Hnm. rewrite moved_all.
    apply list_elem_of_fmap. exists (k, lid). split; [done|].
    apply list_elem_of_lookup. exists 31%nat. by rewrite lookup_drop.
Qed.

Lemma right_half r2 :
  bitmap_ r2 = 0xFFFFFFFF -> tags_ r2 = tags_ rn1 -> kvs_ r2 = kvs_ rn1 ->
  body_wf r2 /\ (forall kv, has r2 kv <-> has n kv /\ mid < kv_key kv) /\ ~ used r2 32.
Proof.
  intros Eb Et Ek. destruct Hst as [_ _ Hrn1 Hrna Hrt _ _]. cbn [fst snd] in *.
  destruct Hrn1 as (tags & kvs & -> & Htl & Hlk & Hby). cbn [tags_ kvs_ set_kvs set_tags] in *.
  assert (forall j, used r2 j <-> 0 <= j < 32) as Hu.
  { intros j. unfold used. rewrite Eb. change 0xFFFFFFFF with (Z.ones 32).
    rewrite ones_testbit by done. blia. }
  assert (forall j kv, kv_at r2 j kv <-> 0 <= j < 32 /\
    exists k i, l !! Z.to_nat (32 + j) = Some (k, i) /\ kv_at n i kv) as Hat.
  { intros j kv. rewrite <- Hrna. unfold kv_at. by rewrite Ek. }
  assert (forall j, 0 <= j < 32 -> exists k i kv, l !! Z.to_nat (32 + j) = Some (k, i)
    /\ 0 <= i < 64 /\ kv_at n i kv /\ kv_key kv = k) as Hex.
  { intros j Hj. destruct (lookup_lt_is_Some_2 l (Z.to_nat (32 + j))) as [[k i] Hki].
    { rewrite (sv_length n l Hl). lia. }
    destruct (sv_kv n l Hl _ _ _ Hki) as (? & kv & ? & ?). by exists k, i, kv. }
  split; [|split].
  - split.
    + by rewrite Eb.
    + by rewrite Et.
    + by rewrite Et.
    + by rewrite Ek.
    + intros j Hj%Hu. destruct (Hex j Hj) as (k & i & kv & Hki & Hi & Hk & <-).
      assert (kv_at r2 j kv) as Hkj by (apply Hat; split; [done|]; by exists (kv_key kv), i).
      exists kv. split; [done|]. rewrite Et. split.
      { apply Hrt. apply Hrna. by apply Hat. }
      destruct (wf_used n Hn i (full_used n i Hfull Hi)) as (kv' & Hk' & _ & Hin).
      by rewrite (kv_at_inj _ _ _ _ Hk Hk').
    + intros j kv Huj [Hj _]%Hat. by apply Huj, Hu.
    + intros j1 j2 kv1 kv2 _ _ (H1 & k1 & i1 & E1 & Hk1)%Hat (H2 & k2 & i2 & E2 & Hk2)%Hat E.
      assert (k1 = k2) as Ekk.
      { destruct (sv_kv n l Hl _ _ _ E1) as (_ & kv1' & Hk1' & <-),
          (sv_kv n l Hl _ _ _ E2) as (_ & kv2' & Hk2' & <-).
        by rewrite <- (kv_at_inj _ _ _ _ Hk1 Hk1'), <- (kv_at_inj _ _ _ _ Hk2 Hk2'). }
      destruct (Z.lt_trichotomy j1 j2) as [Hlt2|[->|Hlt2]]; [exfalso|done|exfalso].
      * pose proof (sv_increasing n l Hl (Z.to_nat (32 + j1)) (Z.to_nat (32 + j2)) _ _ ltac:(lia) E1 E2). cbn in *. lia.
      * pose proof (sv_increasing n l Hl (Z.to_nat (32 + j2)) (Z.to_nat (32 + j1)) _ _ ltac:(lia) E2 E1). cbn in *. lia.
  - intros kv. split.
    + intros (j & _ & (Hj & k & i & Hki & Hk)%Hat).
      destruct (sv_kv n l Hl _ _ _ Hki) as (Hi & kv' & Hk' & <-).
      rewrite <- (kv_at_inj _ _ _ _ Hk Hk') in Hki.
      split; [exists i; split; [by apply full_used|done]|].
      destruct (decide (mid < kv_key kv)); [done|].
      assert (Z.to_nat (32 + j) < 32)%nat; [|lia].
      apply (separator mid i0 _ (kv_key kv) i); [done|done|lia].
    + intros [(i & Hui & Hk) Hlt]. pose proof (used_range n i (wf_bm n Hn) Hui) as Hi.
      destruct (sorted_find i kv Hk Hi) as (a & Ha & Ha64).
      assert (32 <= a)%nat as Hge.
      { destruct (decide (a < 32)%nat) as [Hc|]; [|lia].
        apply (separator mid i0 a (kv_key kv) i) in Hc; [lia|done|done]. }
      exists (Z.of_nat a - 32). split; [apply Hu; lia|]. apply Hat. split; [lia|].
      exists (kv_key kv), i. split; [|done]. rewrite <- Ha. f_equal. lia.
  - rewrite Hu. lia.
Qed.
End after.
End halves.

(** the fields of the control word of a node made by a split *)
Definition new_fields (sibling : bool) : Control.fields :=
  Control.mkFields false false sibling true false 0 0.

Lemma new_valid b : Control.valid (new_fields b).
Proof. by destruct b. Qed.

Lemma new_control b : Control.encode (new_fields b) = if b then 12 else 8.
Proof. by destruct b. Qed.

(** the two nodes of a split, before the pair is inserted *)
Record split_ok n f kv (rnode : Z) (n' rn' : leaf V) (right : bool) (idx : Z) : Prop := {
  so_n : body_wf n';
  so_rn : body_wf rn';
  so_has_n x : has n' x <-> has n x /\ kv_key x <= high_key_ n';
  so_has_rn x : has rn' x <-> has n x /\ high_key_ n' < kv_key x;
  so_high : exists x, has n x /\ kv_key x = high_key_ n';
  so_ctl_n : control_ n' = Control.encode (Control.with_sibling f true);
  so_ctl_rn : control_ rn' = Control.encode (new_fields (Control.f_sibling f));
  so_sib_n : sibling_ n' = Some rnode;
  so_sib_rn : Control.f_sibling f = true ->
    sibling_ rn' = sibling_ n /\ high_key_ rn' = high_key_ n;
  so_high_rn : kc_range T (high_key_ rn');
  so_right : right = (high_key_ n' <? kv_key kv);
  so_idx : 0 <= idx < 64 /\ ~ used (if right then rn' else n') idx;
  so_above : exists x, (x = kv \/ has n x) /\ high_key_ n' < kv_key x;
}.

Lemma LeafNode_wf raw_tags :
  length raw_tags = 64%nat -> Forall is_byte raw_tags ->
  let rn := @LeafNode V T raw_tags in
  body_wf rn /\ (forall kv, ~ has rn kv) /\ control_ rn = Control.encode (new_fields false).
Proof.
  intros Hl Hb rn.
  assert (forall i, ~ used rn i) as Hu by (intros i; unfold used; cbn; by rewrite Z.testbit_0_l).
  split; [|split; [by intros kv (i & Hi & _); apply Hu in Hi|done]].
  split; try done.
  - cbn [kvs_ rn LeafNode]. by rewrite length_replicate, kNodeSize_64.
  - intros i Hi. by apply Hu in Hi.
  - intros i kv _. unfold kv_at. cbn [kvs_ rn LeafNode]. rewrite aget_Some.
    intros [_ H%lookup_replicate_1]. by destruct H.
  - intros i j kv kv' Hi. by apply Hu in Hi.
Qed.

Lemma zero_in_range : kc_range T 0.
Proof. apply HT. Qed.

(** the rightmost node gets an empty right sibling *)
Lemma split_append n f kv rnode raw_tags l back i0 :
  body_wf n -> bitmap_ n = Z.ones 64 -> control_ n = Control.encode f -> Control.valid f ->
  length raw_tags = 64%nat -> Forall is_byte raw_tags ->
  sorted_view n l -> l !! 63%nat = Some (back, i0) ->
  Control.f_sibling f = false -> back < kv_key kv ->
  exists n', on_control (set_high (set_sibling_ n (Some rnode)) back) Control.set_sibling = Some n'
    /\ split_ok n f kv rnode n' (LeafNode T raw_tags) true 0.
Proof.
  intros Hn Hfull Hc Hv Hlr Hbr Hl Hback Hs Hlt.
  rewrite (set_sibling_eq _ f) by done.
  eexists. split; [done|].
  destruct (LeafNode_wf raw_tags Hlr Hbr) as (Hrn & Hnone & Hctl).
  destruct (sv_kv n l Hl _ _ _ Hback) as (Hi0 & kv0 & Hk0 & Ek0).
  assert (forall x, has n x -> kv_key x <= back) as Hmax.
  { intros x (i & Hu & Hk). destruct (sorted_find n l Hl i x Hk) as (a & Ha & Ha64);
      [by apply (used_range n); [apply Hn|]|].
    destruct (decide (a = 63%nat)) as [->|]; [rewrite Hback in Ha; injection Ha as ->; lia|].
    pose proof (sv_increasing n l Hl a 63 _ _ ltac:(lia) Ha Hback). cbn in *. lia. }
  split; try done.
  - destruct Hn. by split.
  - intros x. cbn [high_key_ set_control set_high set_sibling_]. split; [|by intros [? _]].
    intros Hx. split; [done|]. by apply Hmax.
  - intros x. cbn [high_key_ set_control set_high set_sibling_].
    split; [by intros ?%Hnone|]. intros [Hx ?]. apply Hmax in Hx. lia.
  - exists kv0. split; [|done]. exists i0. split; [by apply full_used|done].
  - by rewrite Hctl, Hs.
  - by rewrite Hs.
  - apply zero_in_range.
  - cbn [high_key_ set_control set_high set_sibling_]. by btrue (back <? kv_key kv).
  - exists kv. by split; [left|].
Qed.

(** the normal split *)
Lemma split_half_spec n f kv rnode raw_tags l :
  body_wf n -> bitmap_ n = Z.ones 64 -> control_ n = Control.encode f -> Control.valid f ->
  kc_range T (high_key_ n) -> length raw_tags = 64%nat -> Forall is_byte raw_tags ->
  sorted_view n l ->
  exists n' rn' right idx,
    split_half T n (LeafNode T raw_tags) l kv rnode = Some (n', rn', right, idx)
    /\ split_ok n f kv rnode n' rn' right idx.
Proof.
  intros Hn Hfull Hc Hv Hhi Hlr Hbr Hl.
  destruct (LeafNode_wf raw_tags Hlr Hbr) as (_ & _ & Hctl).
  set (rn0 := LeafNode T raw_tags) in *.
  destruct (move_half_spec n l Hn Hfull Hl rn0) as (st & Est & Hst);
    [done|done|cbn [rn0 kvs_ LeafNode]; by rewrite kNodeSize_64|].
  destruct st as [[[n1 rn1] mask] lid].
  unfold split_half. rewrite Est, bind_Some. clear Est.
  unfold half_fill. rewrite kNodeSize_64. cbn [Z.eqb Pos.eqb]. rewrite bind_Some.
  change (64 / 2) with 32. change (32 - 1) with 31.
  pose proof Hst as [Hn1 _ Hrn1 _ _ [Hm64 Hm] _]. cbn [fst snd] in *.
  destruct Hn1 as (kvs1 & E1 & Hl1), Hrn1 as (tags2 & kvs2 & E2 & _).
  destruct (popcount_rest n l Hfull Hl mask Hm64 Hm) as [Hrest64 Hrest].
  rewrite (popcount_mask n l Hl mask) by done. cbn [Z.eqb Pos.eqb asserting].
  destruct (lookup_lt_is_Some_2 l 31) as [[mid i0] Hmid]; [by rewrite (sv_length n l Hl); lia|].
  assert (bitmap_ n1 = bitmap_ n) as -> by (by rewrite E1).
  cbn [bitmap_ set_bitmap]. rewrite Hrest. cbn [Z.eqb Pos.eqb asserting].
  change (aget l 31) with (l !! 31%nat). rewrite Hmid, bind_Some.
  cbn [control_ set_high set_sibling_ set_bitmap high_key_ sibling_].
  assert (control_ n1 = control_ n) as Hc1 by (by rewrite E1).
  assert (control_ rn1 = control_ rn0) as Hc2 by (by rewrite E2).
  assert (sibling_ n1 = sibling_ n) as Hs1 by (by rewrite E1).
  assert (high_key_ n1 = high_key_ n) as Hh1 by (by rewrite E1).
  rewrite Hc1. destruct (reads n f Hv Hc) as (_ & Hsib & _). rewrite Hsib.
  destruct (sv_kv n l Hl _ _ _ Hmid) as (Hi0 & kv0 & Hk0 & Ek0).
  assert (exists x, has n x /\ mid < kv_key x) as (x & Hx & Hxm).
  { destruct (lookup_lt_is_Some_2 l 32) as [[k i1] Hk]; [by rewrite (sv_length n l Hl); lia|].
    destruct (sv_kv n l Hl _ _ _ Hk) as (Hi1 & kv1 & Hk1 & Ek1). exists kv1.
    split; [exists i1; split; [by apply full_used|done]|].
    pose proof (sv_increasing n l Hl 31 32 _ _ ltac:(lia) Hmid Hk). cbn in *. lia. }
  assert (forall n2 r2 : leaf V,
    bitmap_ n2 = Z.ldiff (bitmap_ n) mask -> tags_ n2 = tags_ n1 -> kvs_ n2 = kvs_ n1 ->
    bitmap_ r2 = 0xFFFFFFFF -> tags_ r2 = tags_ rn1 -> kvs_ r2 = kvs_ rn1 ->
    high_key_ n2 = mid -> control_ n2 = Control.encode (Control.with_sibling f true) ->
    control_ r2 = Control.encode (new_fields (Control.f_sibling f)) ->
    sibling_ n2 = Some rnode -> sibling_ r2 = sibling_ n -> high_key_ r2 = high_key_ n ->
    exists n' rn' right idx,
      (if mid <? kv_key kv then Some (n2, r2, true, 32) else Some (n2, r2, false, lid))
      = Some (n', rn', right, idx) /\ split_ok n f kv rnode n' rn' right idx) as Hfin.
  { intros n2 r2 Hb1 Ht1 Hk1 Hb2 Ht2 Hk2 Hhm Hcn Hcr Hsn Hsr Hhr.
    destruct (left_half n l Hn Hfull Hl rn0 n1 rn1 mask lid mid i0 Hst Hmid n2)
      as (Hn2 & Hh2 & Hlid & Hlr2); [done..|].
    destruct (right_half n l Hn Hfull Hl rn0 n1 rn1 mask lid mid i0 Hst Hmid r2)
      as (Hr2 & Hhr2 & Hu32); [done..|].
    exists n2, r2, (mid <? kv_key kv), (if mid <? kv_key kv then 32 else lid).
    split; [by destruct (mid <? kv_key kv)|].
    split; rewrite ?Hhm, ?Hhr; try done.
    - exists kv0. split; [|done]. exists i0. split; [by apply full_used|done].
    - by destruct (mid <? kv_key kv).
    - exists x. by split; [right|]. }
  destruct (Control.f_sibling f) eqn:Ef; cbn [negb].
  - rewrite (set_sibling_eq _ (new_fields false)) by (done || by cbn; rewrite Hc2).
    rewrite bind_Some, bind_Some. cbn [high_key_ set_high set_sibling_ set_bitmap].
    apply Hfin; try done. cbn. rewrite Hc1, Hc. f_equal.
    destruct f; cbn in *; by subst.
  - rewrite (set_sibling_eq _ f) by (done || by cbn; rewrite Hc1).
    rewrite bind_Some, bind_Some. cbn [high_key_ set_control set_high set_sibling_ set_bitmap].
    by apply Hfin.
Qed.

Lemma split_spec n f kv rnode raw_tags :
  body_wf n -> bitmap_ n = Z.ones 64 -> control_ n = Control.encode f -> Control.valid f ->
  kc_range T (high_key_ n) -> length raw_tags = 64%nat -> Forall is_byte raw_tags ->
  exists n' rn' right idx,
    split T n kv rnode raw_tags = Some (n', rn', right, idx)
    /\ split_ok n f kv rnode n' rn' right idx.
Proof.
  intros Hn Hfull Hc Hv Hhi Hlr Hbr.
  destruct (sorted_keys_spec n Hn Hfull) as (l & El & Hl).
  unfold split. rewrite El, bind_Some, kNodeSize_64. change (64 - 1) with 63.
  destruct (lookup_lt_is_Some_2 l 63) as [[back i0] Hback]; [by rewrite (sv_length n l Hl); lia|].
  change (aget l 63) with (l !! 63%nat). rewrite Hback, bind_Some.
  destruct (reads n f Hv Hc) as (_ & -> & _).
  destruct (negb (Control.f_sibling f) && (back <? kv_key kv)) eqn:Eb.
  - bool_to_prop. destruct (split_append n f kv rnode raw_tags l back i0) as (n' & -> & Hok); [done..|].
    rewrite bind_Some. by exists n', (LeafNode T raw_tags), true, 0.
  - by apply split_half_spec.
Qed.

(** ** [upsert] of a new key *)

(** the control word after the version is advanced and the order flag cleared *)
Definition touched (f : Control.fields) : Control.fields := Control.with_ordered (Control.bump f) false.

Lemma touched_valid f : Control.valid f -> Control.valid (touched f).
Proof. intros. by apply (Control.bump_valid f). Qed.

Lemma set_control_body n c : body_wf n -> body_wf (set_control n c).
Proof. intros Hn. destruct Hn. by split. Qed.

(** the arguments the caller passes *)
Record upsert_args n f kv (raw_tags : list Z) : Prop := {
  ua_key : kc_range T (kv_key kv);
  ua_high : Control.f_sibling f = true -> kv_key kv <= high_key_ n;
  ua_raw : length raw_tags = 64%nat /\ Forall is_byte raw_tags;
}.

(** the state after the guard of [upsert] (lines 274-281) *)
Lemma upsert_start n f kv rnode raw_tags :
  leaf_wf n f -> content n !! kv_key kv = None ->
  upsert T n kv rnode raw_tags =
    (let n1 := set_control n (Control.encode (touched f)) in
     let idx := index_least0 64 (bitmap_ n) in
     if idx =? -1 then
       let* (n, rn, in_right, idx) := split T n1 kv rnode raw_tags in
       let mid := kc_mid T (high_key_ n) in
       if (in_right : bool)
       then let* rn := insert_slot T rn idx kv in Some (mkUpsert None n (Some (rn, mid)))
       else let* n := insert_slot T n idx kv in Some (mkUpsert None n (Some (rn, mid)))
     else let* n := insert_slot T n1 idx kv in Some (mkUpsert None n None)).
Proof.
  intros [Hn Hw Hv _ _ _ _] Hnone. unfold upsert.
  pose proof (exchange_existing_spec n kv Hn) as He. rewrite Hnone in He.
  rewrite He, bind_Some, (update_version_eq n f) by done.
  rewrite (clear_order_eq _ (Control.bump f)), bind_Some by (done || by apply Control.bump_valid).
  unfold full_idx. rewrite kNodeSize_64. cbn [Z.eqb Pos.eqb]. by rewrite bind_Some.
Qed.

Lemma upsert_simple n f kv rnode raw_tags :
  leaf_wf n f -> content n !! kv_key kv = None -> upsert_args n f kv raw_tags ->
  bitmap_ n <> Z.ones 64 ->
  exists n', upsert T n kv rnode raw_tags = Some (mkUpsert None n' None)
    /\ leaf_wf n' (touched f) /\ (forall x, has n' x <-> x = kv \/ has n x)
    /\ high_key_ n' = high_key_ n /\ sibling_ n' = sibling_ n.
Proof.
  intros Hwf Hnone [Hkey Hhigh _] Hnf. rewrite (upsert_start n f) by done.
  destruct Hwf as [Hn Hw Hv Hl Hhi Hb Ho].
  destruct (index_least0_spec (bitmap_ n) (wf_bm n Hn)) as [[E _]|(Hi & Hfree & _)]; [done|].
  cbn zeta. bfalse (index_least0 64 (bitmap_ n) =? -1).
  set (n1 := set_control n (Control.encode (touched f))).
  destruct (insert_slot_spec n1 (index_least0 64 (bitmap_ n)) kv) as
    (n' & E & Hn' & Hh & _ & Hc' & Hhigh' & Hs' & _).
  - by apply set_control_body.
  - done.
  - unfold used. change (bitmap_ n1) with (bitmap_ n). by rewrite Hfree.
  - done.
  - by apply (content_None n).
  - rewrite E, bind_Some. exists n'. split; [done|].
    split; [|done]. split; [done|by rewrite Hc'|by apply touched_valid|done|by rewrite Hhigh'| |done].
    + intros x Hs [->|Hx]%Hh; rewrite Hhigh'; [by apply Hhigh|by apply Hb].
Qed.

(** the pair goes to the side of the split that the separator gives it *)
Lemma split_insert n f kv rnode n2 rn2 right idx :
  body_wf n -> Control.valid f -> Control.f_leaf f = true -> Control.f_ordered f = false ->
  kc_range T (kv_key kv) -> content n !! kv_key kv = None ->
  (forall x, Control.f_sibling f = true -> x = kv \/ has n x -> kv_key x <= high_key_ n) ->
  split_ok n f kv rnode n2 rn2 right idx ->
  exists n' rn',
    (let mid := kc_mid T (high_key_ n2) in
     if right
     then let* rn := insert_slot T rn2 idx kv in Some (mkUpsert None n2 (Some (rn, mid)))
     else let* n := insert_slot T n2 idx kv in Some (mkUpsert None n (Some (rn2, mid))))
      = Some (mkUpsert None n' (Some (rn', kc_mid T (high_key_ n'))))
    /\ leaf_wf n' (Control.with_sibling f true)
    /\ leaf_wf rn' (new_fields (Control.f_sibling f))
    /\ (forall x, has n' x <-> (x = kv \/ has n x) /\ kv_key x <= high_key_ n')
    /\ (forall x, has rn' x <-> (x = kv \/ has n x) /\ high_key_ n' < kv_key x)
    /\ sibling_ n' = Some rnode
    /\ (Control.f_sibling f = true -> sibling_ rn' = sibling_ n /\ high_key_ rn' = high_key_ n)
    /\ (exists x, has n x /\ kv_key x = high_key_ n') /\ (exists x, has rn' x).
Proof.
  intros Hn Hv Hl Hof Hkey Hnone Hmax
    [Hn2 Hr2 Hhn Hhr (x0 & Hx0 & Ex0) Hcn Hcr Hsn Hsr Hinr Hright [Hidx Hfree] (x1 & Hx1 & Hx1m)].
  assert (kc_range T (high_key_ n2)) as Hin2.
  { destruct Hx0 as (i & Hu & Hk). destruct (wf_used n Hn i Hu) as (kv' & Hk' & _ & Hin).
    rewrite <- Ex0. by rewrite (kv_at_inj _ _ _ _ Hk Hk'). }
  pose proof (proj1 (content_None n (kv_key kv) Hn) Hnone) as Hnew. cbn zeta.
  assert (Control.f_ordered (Control.with_sibling f true) = true -> False) as Hno by (cbn; congruence).
  destruct right; symmetry in Hright; [apply Z.ltb_lt in Hright|apply Z.ltb_ge in Hright].
  - destruct (insert_slot_spec rn2 idx kv) as (rn' & -> & Hr' & Hh & _ & Hc' & Hh' & Hs' & _);
      [done|done|done|done|intros x [? _]%Hhr; by apply Hnew|].
    rewrite bind_Some. exists n2, rn'. split; [done|].
    assert (forall x, has n2 x <-> (x = kv \/ has n x) /\ kv_key x <= high_key_ n2) as H1.
    { intros x. rewrite Hhn. split; [naive_solver|]. intros [[->|?] ?]; [lia|done]. }
    assert (forall x, has rn' x <-> (x = kv \/ has n x) /\ high_key_ n2 < kv_key x) as H2.
    { intros x. rewrite Hh, Hhr. naive_solver. }
    split; [split; [done|done|done|done|done|by intros x _ [_ ?]%H1|by intros ?%Hno]|].
    split; [split; [done|by rewrite Hc'|apply new_valid|done|by rewrite Hh'| |done]|].
    { intros x Hs [Hx _]%H2. rewrite Hh'. destruct (Hsr Hs) as [_ ->]. by apply Hmax. }
    split; [done|]. split; [done|]. split; [done|]. split; [by rewrite Hs', Hh'|].
    split; [by exists x0|exists x1; by apply H2].
  - destruct (insert_slot_spec n2 idx kv) as (n' & -> & Hn' & Hh & _ & Hc' & Hh' & Hs' & _);
      [done|done|done|done|intros x [? _]%Hhn; by apply Hnew|].
    rewrite bind_Some. exists n', rn2. rewrite Hh', Hs'. split; [done|].
    assert (forall x, has n' x <-> (x = kv \/ has n x) /\ kv_key x <= high_key_ n2) as H1.
    { intros x. rewrite Hh, Hhn. naive_solver. }
    assert (forall x, has rn2 x <-> (x = kv \/ has n x) /\ high_key_ n2 < kv_key x) as H2.
    { intros x. rewrite Hhr. split; [naive_solver|]. intros [[->|?] ?]; [lia|done]. }
    split.
    { split; [done|by rewrite Hc'|done|done|by rewrite Hh'| |by intros ?%Hno].
      intros x _ [_ ?]%H1. by rewrite Hh'. }
    split; [split; [done|done|apply new_valid|done|done| |done]|].
    { intros x Hs [Hx _]%H2. destruct (Hsr Hs) as [_ ->]. by apply Hmax. }
    split; [done|]. split; [done|]. split; [done|]. split; [done|].
    split; [by exists x0|exists x1; by apply H2].
Qed.

Lemma upsert_split n f kv rnode raw_tags :
  leaf_wf n f -> content n !! kv_key kv = None -> upsert_args n f kv raw_tags ->
  bitmap_ n = Z.ones 64 ->
  exists n' rn', upsert T n kv rnode raw_tags
      = Some (mkUpsert None n' (Some (rn', kc_mid T (high_key_ n'))))
    /\ leaf_wf n' (Control.with_sibling (touched f) true)
    /\ leaf_wf rn' (new_fields (Control.f_sibling f))
    /\ (forall x, has n' x <-> (x = kv \/ has n x) /\ kv_key x <= high_key_ n')
    /\ (forall x, has rn' x <-> (x = kv \/ has n x) /\ high_key_ n' < kv_key x)
    /\ sibling_ n' = Some rnode
    /\ (Control.f_sibling f = true -> sibling_ rn' = sibling_ n /\ high_key_ rn' = high_key_ n)
    /\ (exists x, has n x /\ kv_key x = high_key_ n') /\ (exists x, has rn' x).
Proof.
  intros Hwf Hnone [Hkey Hhigh [Hlr Hbr]] Hfull. rewrite (upsert_start n f) by done.
  destruct Hwf as [Hn Hw Hv Hl Hhi Hb Ho].
  assert (index_least0 64 (bitmap_ n) = -1) as -> by (by rewrite Hfull).
  cbn zeta. cbn [Z.eqb Pos.eqb].
  set (n1 := set_control n (Control.encode (touched f))).
  destruct (split_spec n1 (touched f) kv rnode raw_tags) as (n2 & rn2 & right & idx & E & Hok);
    [by apply set_control_body|done|done|by apply touched_valid|done..|].
  rewrite E, bind_Some. clear E.
  destruct (split_insert n1 (touched f) kv rnode n2 rn2 right idx) as (n' & rn' & E & H);
    [by apply set_control_body|by apply touched_valid|done|done|done|done| |done|].
  - intros x Hs [->|Hx]; [by apply Hhigh|by apply Hb].
  - exists n', rn'. split; [exact E|exact H].
Qed.

Lemma upsert_present n f kv old rnode raw_tags :
  leaf_wf n f -> content n !! kv_key kv = Some old ->
  exists n', upsert T n kv rnode raw_tags = Some (mkUpsert (Some old) n' None)
    /\ leaf_wf n' f /\ content n' = <[kv_key kv := kv]> (content n)
    /\ (forall x, has n' x <-> x = kv \/ (has n x /\ kv_key x <> kv_key kv))
    /\ high_key_ n' = high_key_ n /\ sibling_ n' = sibling_ n.
Proof.
  intros Hwf Hc. pose proof (wf_body n f Hwf) as Hn.
  pose proof (exchange_existing_spec n kv Hn) as He. rewrite Hc in He.
  destruct He as (i & Hu & Hk & He). unfold upsert. rewrite He, bind_Some.
  apply content_lookup in Hc as [E _]; [|done].
  eexists. split; [done|]. split; [by eapply exchange_leaf_wf|].
  by destruct (exchange_used n i old kv Hn Hu Hk E) as (_ & ? & ? & _).
Qed.

(** ** [merge] *)

Lemma set_kvs_self n : set_kvs n (kvs_ n) = n.
Proof. by destruct n. Qed.

(** the loop moves every pair of the sibling *)
Lemma move_all_spec n rn :
  body_wf n -> body_wf rn -> popcount 64 (bitmap_ n) + popcount 64 (bitmap_ rn) <= 64 ->
  (forall x y, has n x -> has rn y -> kv_key x <> kv_key y) ->
  exists n' kvs', move_all n rn = Some (n', set_bitmap (set_kvs rn kvs') 0)
    /\ body_wf n' /\ (forall x, has n' x <-> has n x \/ has rn x)
    /\ control_ n' = control_ n /\ high_key_ n' = high_key_ n /\ sibling_ n' = sibling_ n
    /\ length kvs' = 64%nat
    /\ (forall j x, ~ kv_at (set_kvs rn kvs') j x).
Proof.
  intros Hn Hr Hpop Hdisj. unfold move_all. set (body := fun (ridx : Z) (st : leaf V * leaf V) => _).
  pose (P := fun (dn : list Z) (st : leaf V * leaf V) =>
    body_wf st.1 /\ (forall x, has st.1 x <-> has n x \/ exists i, i ∈ dn /\ kv_at rn i x)
    /\ control_ st.1 = control_ n /\ high_key_ st.1 = high_key_ n /\ sibling_ st.1 = sibling_ n
    /\ popcount 64 (bitmap_ st.1) = popcount 64 (bitmap_ n) + Z.of_nat (length dn)
    /\ exists kvs', st.2 = set_kvs rn kvs' /\ length kvs' = 64%nat
       /\ (forall j x, kv_at (set_kvs rn kvs') j x <-> kv_at rn j x /\ j ∉ dn)).
  destruct (for_mask_inv P body (bitmap_ rn) (n, rn)) as ([n' rn'] & E & Hfin).
  - apply Hr.
  - split; [done|]. split; [intros x; split; [by left|intros [?|(i & []%not_elem_of_nil & _)]; done]|].
    do 3 (split; [done|]). split; [cbn; lia|]. exists (kvs_ rn).
    rewrite set_kvs_self. split; [done|]. split; [apply Hr|].
    intros j x. split; [|by intros [? _]]. intros. split; [done|]. apply not_elem_of_nil.
  - intros dn i rest [n1 rn1] Ebits (Hn1 & Hh1 & Hc1 & Hhi1 & Hs1 & Hpc & kvs1 & E1 & Hl1 & Hat1).
    cbn [fst snd] in *. subst rn1.
    assert (i ∈ set_bits (bitmap_ rn)) as Hi by (rewrite Ebits; set_solver).
    pose proof (NoDup_set_bits (bitmap_ rn)) as Hnd. rewrite Ebits in Hnd.
    apply NoDup_app in Hnd as (_ & Hnd & _).
    assert (i ∉ dn) as Hfresh by (intros ?; by apply (Hnd i); [|left]).
    apply elem_of_set_bits in Hi as [Hi Hui]. fold (used rn i) in Hui.
    destruct (wf_used rn Hr i Hui) as (kv & Hk & Htag & Hin).
    assert (kv_at (set_kvs rn kvs1) i kv) as Hk1 by (by apply Hat1).
    assert (Z.of_nat (length dn) < popcount 64 (bitmap_ rn)) as Hlt.
    { rewrite popcount_set_bits, Ebits, length_app by apply Hr. cbn [length]. lia. }
    destruct (index_least0_spec (bitmap_ n1) (wf_bm n1 Hn1)) as [[Ef _]|(Hl & Hfree & _)].
    { exfalso. revert Ef. apply popcount_full; [apply Hn1|lia]. }
    set (lidx := index_least0 64 (bitmap_ n1)) in *.
    destruct (insert_slot_spec n1 lidx kv) as (n2 & _ & Hn2 & Hh2 & _ & Hc2 & Hhi2 & Hs2 & Hb2 & E2);
      [done|done|unfold used; by rewrite Hfree|done| |].
    { intros x [Hx|(j & Hj & Hkj)]%Hh1; [apply Hdisj; [done|by exists i]|].
      intros E. apply Hfresh. assert (used rn j) as Huj.
      { unfold used. apply elem_of_set_bits. rewrite Ebits. set_solver. }
      by rewrite <- (wf_distinct rn Hr j i x kv). }
    exists (n2, set_kvs rn (<[Z.to_nat i := Null]> kvs1)). split.
    { unfold body. cbn [tags_ set_kvs]. rewrite Htag, bind_Some.
      rewrite aset_in_range, bind_Some by (rewrite (wf_tags n1 Hn1); lia).
      rewrite (exchange_kv_eq _ _ _ kv), bind_Some by done.
      rewrite store_kv_eq, bind_Some by (done || cbn; apply Hn1). by rewrite E2. }
    split; [done|]. cbn [fst snd]. split.
    { intros x. rewrite Hh2, Hh1. setoid_rewrite elem_of_app. setoid_rewrite list_elem_of_singleton.
      split.
      - intros [->|[?|(j & ? & ?)]]; [right; exists i; auto|by left|right; exists j; auto].
      - intros [?|(j & [?| ->] & Hkj)]; [auto|right; right; exists j; auto|].
        left. by eapply kv_at_inj. }
    rewrite Hc2, Hhi2, Hs2, Hb2. do 3 (split; [done|]). split.
    { rewrite popcount_set_bit by (done || apply Hn1). rewrite length_app. cbn [length]. lia. }
    eexists. split; [done|]. rewrite length_insert. split; [done|].
    intros j x. rewrite (insert_at (set_kvs rn kvs1) _ i Null), Hat1 by done.
    rewrite not_elem_of_app, list_elem_of_singleton. naive_solver.
  - destruct Hfin as (Hn' & Hh' & Hc' & Hhi' & Hs' & _ & kvs' & E' & Hl' & Hat').
    cbn [fst snd] in *. subst rn'. rewrite E, bind_Some. exists n', kvs'. split; [done|].
    split; [done|]. split.
    { intros x. rewrite Hh'. apply or_iff_compat_l. unfold has, used.
      setoid_rewrite elem_of_set_bits. split; [naive_solver|].
      intros (i & Hu & Hk). exists i. split; [|done]. split; [|done].
      by apply (used_range rn); [apply Hr|]. }
    do 4 (split; [done|]). intros j x [Hk Hnm]%Hat'.
    destruct (decide (used rn j)) as [Hu|Hu]; [|by apply (wf_free rn Hr j x)].
    apply Hnm, elem_of_set_bits. split; [|done]. by apply (used_range rn); [apply Hr|].
Qed.

Lemma latch_exclusive_eq n f :
  Control.valid f -> control_ n = Control.encode f -> Control.f_locked f = false ->
  latch_exclusive n = Some (set_control n (Control.encode (Control.with_locked f true))).
Proof.
  intros Hf E Hl. unfold latch_exclusive, on_control.
  by rewrite E, Control.latch_exclusive_encode by done.
Qed.

Lemma unlatch_eq n f :
  Control.valid f -> control_ n = Control.encode f -> Control.f_locked f = true ->
  on_control n Control.unlatch_exclusive
    = Some (set_control n (Control.encode (Control.with_locked f false))).
Proof.
  intros Hf E Hl. apply (run_control n f Control.OpUnlatch); [done|done|]. cbn. by rewrite Hl.
Qed.

Lemma set_delete_eq n f :
  Control.valid f -> control_ n = Control.encode f -> Control.f_deleted f = false ->
  on_control n Control.set_delete
    = Some (set_control n (Control.encode (Control.with_deleted f true))).
Proof.
  intros Hf E Hl. apply (run_control n f Control.OpSetDelete); [done|done|]. cbn. by rewrite Hl.
Qed.

Lemma clear_sibling_eq n f b :
  Control.valid f -> control_ n = Control.encode f -> Control.f_sibling f = true ->
  (if negb b then on_control n Control.clear_sibling else Some n)
    = Some (set_control n (Control.encode (Control.with_sibling f b))).
Proof.
  intros Hf E Hs. destruct b; cbn [negb].
  - f_equal. destruct n, f. cbn in *. by subst.
  - apply (run_control n f Control.OpClearSibling); [done|done|]. cbn. by rewrite Hs.
Qed.

Lemma merge_alone mem this n f :
  Control.valid f -> control_ n = Control.encode f -> Control.f_sibling f = false ->
  merge T mem this n = Some (mkMerge n None None).
Proof.
  intros Hf E Hs. unfold merge. destruct (reads n f Hf E) as (_ & -> & _). by rewrite Hs.
Qed.

Lemma merge_not mem this n f ra rn :
  Control.valid f -> control_ n = Control.encode f -> Control.f_sibling f = true ->
  sibling_ n = Some ra -> mem ra = Some rn -> mergeable T n rn = false ->
  merge T mem this n = Some (mkMerge n None None).
Proof.
  intros Hf E Hs Hra Hrn Hm. unfold merge. destruct (reads n f Hf E) as (_ & -> & _).
  by rewrite Hs, Hra, bind_Some, Hrn, bind_Some, Hm.
Qed.

Lemma mergeable_fits n rn :
  body_wf rn -> mergeable T n rn = true ->
  popcount 64 (bitmap_ n) + popcount 64 (bitmap_ rn) <= 64.
Proof.
  intros Hr. unfold mergeable. replace (kMergeSize T) with 32 by (symmetry; apply HT).
  pose proof (popcount_bounds (bitmap_ rn) (wf_bm rn Hr)).
  rewrite orb_true_iff, Z.leb_le, Z.eqb_eq. lia.
Qed.

Lemma merge_yes mem this n f ra rn g :
  body_wf n -> Control.valid f -> control_ n = Control.encode f -> Control.f_sibling f = true ->
  sibling_ n = Some ra -> mem ra = Some rn -> mergeable T n rn = true ->
  leaf_wf rn g -> Control.f_locked g = false -> Control.f_deleted g = false ->
  (forall x y, has n x -> has rn y -> kv_key x <> kv_key y) ->
  exists n' rn',
    merge T mem this n = Some (mkMerge n' (Some (ra, rn')) (Some (kc_mid T (high_key_ n))))
    /\ body_wf n' /\ (forall x, has n' x <-> has n x \/ has rn x)
    /\ control_ n' = Control.encode (Control.with_sibling f (Control.f_sibling g))
    /\ high_key_ n' = high_key_ rn /\ sibling_ n' = sibling_ rn
    /\ leaf_wf rn' (Control.merged_fields g) /\ sibling_ rn' = Some this /\ (forall x, ~ has rn' x).
Proof.
  intros Hn Hf E Hs Hra Hrn Hm Hwf Hlk Hdel Hdisj. pose proof (wf_body rn g Hwf) as Hr.
  pose proof (wf_word rn g Hwf) as Ew. pose proof (wf_valid rn g Hwf) as Hg.
  set (rn1 := set_control rn (Control.encode (Control.with_locked g true))).
  destruct (move_all_spec n rn1 Hn (set_control_body rn _ Hr) (mergeable_fits n rn Hr Hm) Hdisj)
    as (n1 & kvs' & Em & Hn1 & Hh1 & Hc1 & Hhi1 & Hs1 & Hl' & Hnone).
  unfold merge. destruct (reads n f Hf E) as (_ & -> & _).
  rewrite Hs, Hra, bind_Some, Hrn, bind_Some, Hm.
  rewrite (latch_exclusive_eq rn g), bind_Some by done. fold rn1.
  change (mergeable T n rn1) with (mergeable T n rn). rewrite Hm, Em, bind_Some.
  cbn [high_key_ sibling_ control_ set_bitmap set_kvs set_sibling_ set_high rn1 set_control].
  set (gl := Control.with_locked g true) in *.
  assert (Control.valid gl) as Hgl by done.
  destruct (reads rn1 gl Hgl eq_refl) as (_ & Hsg & _). cbn [control_ rn1 set_control] in Hsg.
  rewrite Hsg. change (Control.f_sibling gl) with (Control.f_sibling g).
  rewrite (clear_sibling_eq _ f), bind_Some by (done || by cbn; rewrite Hc1).
  rewrite (set_delete_eq _ gl), bind_Some, bind_Some by done.
  rewrite (update_version_eq _ (Control.with_deleted gl true)) by done.
  rewrite (unlatch_eq _ (Control.bump (Control.with_deleted gl true))), bind_Some
    by (try done; by apply Control.bump_valid).
  eexists _, _. split; [done|].
  split; [destruct Hn1; by split|]. split; [exact Hh1|].
  cbn [high_key_ sibling_ control_ set_bitmap set_kvs set_sibling_ set_high rn1 set_control].
  split; [done|]. split; [done|]. split; [done|].
  set (rn' := set_control _ _).
  assert (forall j, ~ used rn' j) as Hu by (intros j; unfold used; cbn; by rewrite Z.testbit_0_l).
  assert (forall x, ~ has rn' x) as Hno by (intros x (j & Hj & _); by apply Hu in Hj).
  split; [|done]. split.
  - destruct Hr. split; try done.
    + intros j Hj. by apply Hu in Hj.
    + intros j x _. apply Hnone.
    + intros j1 j2 x1 x2 Hj. by apply Hu in Hj.
  - cbn. f_equal. unfold Control.merged_fields, gl. clear - Hlk Hdel. destruct g; cbn in *; by subst.
  - by apply Control.bump_valid.
  - apply Hwf.
  - apply Hwf.
  - intros x _ Hx. by apply Hno in Hx.
  - intros _. split; [by exists 0|]. intros i j x y _ Hi. by apply Hu in Hi.
Qed.

(** ** [remove] *)

Definition cleared n i : leaf V :=
  set_kvs (set_bitmap n (clear_bit (bitmap_ n) i)) (<[Z.to_nat i := Null]> (kvs_ n)).

Lemma cleared_spec n i kv :
  body_wf n -> used n i -> kv_at n i kv ->
  body_wf (cleared n i)
  /\ (forall x, has (cleared n i) x <-> has n x /\ kv_key x <> kv_key kv).
Proof.
  intros Hn Hu Hk. pose proof (used_range n i (wf_bm n Hn) Hu) as Hi.
  assert (forall j, used (cleared n i) j <-> used n j /\ i <> j) as Hused.
  { intros j. unfold used. cbn [cleared bitmap_ set_kvs set_bitmap].
    rewrite clear_bit_testbit, andb_true_iff, negb_true_iff, Z.eqb_neq by lia. done. }
  assert (forall j x, kv_at (cleared n i) j x <-> i <> j /\ kv_at n j x) as Hat.
  { intros j x. rewrite (insert_at n _ i Null) by (done || apply Hn). naive_solver. }
  destruct (replace_slot n i (cleared n i) None) as [Hn' Hh]; [done| | |].
  - split; cbn [cleared bitmap_ tags_ kvs_ set_kvs set_bitmap].
    + apply clear_bit_u64, Hn.
    + rewrite length_insert. split; apply Hn.
    + apply Hn.
    + intros j Hne. rewrite Hused. naive_solver.
    + done.
    + intros j x Hne. rewrite Hat. naive_solver.
  - split; [rewrite Hused; naive_solver|]. intros x. rewrite Hat. naive_solver.
  - split; [done|]. intros x. rewrite Hh, (has_other n i kv) by done. naive_solver.
Qed.

Lemma remove_absent mem this n key :
  body_wf n -> content n !! key = None ->
  remove T mem this n key = Some (None, mkMerge n None None).
Proof.
  intros Hn Hc. unfold remove. pose proof (candidates_spec n key Hn) as (mask & Hm & _ & _).
  rewrite Hm, bind_Some, (search_miss n key mask), bind_Some; try done.
  intros j kv' _ Hk Hne. rewrite (deref_kv_at _ _ _ Hk), bind_Some.
  by bfalse (kv_key kv' =? key).
Qed.

(** the pair is found: what is left to do *)
Lemma remove_present mem this n f key kv :
  leaf_wf n f -> content n !! key = Some kv ->
  exists n1, body_wf n1 /\ (forall x, has n1 x <-> has n x /\ kv_key x <> key)
    /\ control_ n1 = Control.encode (Control.bump f)
    /\ high_key_ n1 = high_key_ n /\ sibling_ n1 = sibling_ n
    /\ popcount 64 (bitmap_ n1) = popcount 64 (bitmap_ n) - 1
    /\ (forall m, merge T mem this n1 = Some m ->
         remove T mem this n key =
           (let* n := if Control.ordered (control_ (m_this m))
                      then on_control (m_this m) Control.clear_order else Some (m_this m) in
            Some (Some kv, mkMerge n (m_rnode m) (m_merged m)))).
Proof.
  intros Hwf Hc. pose proof (wf_body n f Hwf) as Hn.
  apply content_lookup in Hc as [E (i & Hu & Hk)]; [|done].
  pose proof (used_range n i (wf_bm n Hn) Hu) as Hi.
  destruct (cleared_spec n i kv Hn Hu Hk) as [Hcl Hh].
  set (n1 := set_control (cleared n i) (Control.encode (Control.bump f))). exists n1.
  split; [by apply set_control_body|]. split; [intros x; rewrite <- E; apply Hh|].
  split; [done|]. split; [done|]. split; [done|].
  split; [by apply popcount_clear_bit; [apply Hn| |]|].
  intros m Hmerge. unfold remove. pose proof (candidates_spec n key Hn) as (mask & Hm & _ & _).
  rewrite Hm, bind_Some. set (body := fun (idx : Z) (_ : unit) => _).
  assert (body i tt =
    (let* n := if Control.ordered (control_ (m_this m))
               then on_control (m_this m) Control.clear_order else Some (m_this m) in
     Some (inr (Some kv, mkMerge n (m_rnode m) (m_merged m))))) as Hbody.
  { unfold body. rewrite (deref_kv_at _ _ _ Hk), bind_Some. btrue (kv_key kv =? key).
    rewrite (update_version_eq n f) by apply Hwf.
    rewrite (exchange_kv_eq _ _ _ kv), bind_Some by (done || apply Hn).
    change (set_kvs _ _) with n1. by rewrite Hmerge, bind_Some. }
  rewrite (search_hit n key mask body i kv); [|done..| |].
  - rewrite Hbody. destruct (if Control.ordered _ then _ else _); [|done]. by rewrite !bind_Some.
  - intros j kv' _ Hk' Hne. unfold body. rewrite (deref_kv_at _ _ _ Hk'), bind_Some.
    by bfalse (kv_key kv' =? key).
  - rewrite Hbody. destruct (if Control.ordered _ then _ else _); [|done]. by rewrite !bind_Some.
Qed.

(** the node after [remove] without a merge *)
Lemma remove_simple mem this n f key kv :
  leaf_wf n f -> content n !! key = Some kv ->
  (forall n1, control_ n1 = Control.encode (Control.bump f) -> sibling_ n1 = sibling_ n ->
     popcount 64 (bitmap_ n1) = popcount 64 (bitmap_ n) - 1 ->
     merge T mem this n1 = Some (mkMerge n1 None None)) ->
  exists n', remove T mem this n key = Some (Some kv, mkMerge n' None None)
    /\ leaf_wf n' (touched f) /\ (forall x, has n' x <-> has n x /\ kv_key x <> key)
    /\ high_key_ n' = high_key_ n /\ sibling_ n' = sibling_ n.
Proof.
  intros Hwf Hc Hmerge. pose proof (wf_valid n f Hwf) as Hv.
  destruct (remove_present mem this n f key kv Hwf Hc) as (n1 & Hn1 & Hh1 & Hc1 & Hhi1 & Hs1 & Hp1 & Hrem).
  rewrite (Hrem _ (Hmerge n1 Hc1 Hs1 Hp1)). cbn [m_this m_rnode m_merged].
  rewrite (clear_order_eq n1 (Control.bump f)), bind_Some by (done || by apply Control.bump_valid).
  eexists. split; [done|]. split; [|by split; [exact Hh1|]].
  split; [by apply set_control_body|done|by apply touched_valid|apply Hwf| | |done].
  - cbn. rewrite Hhi1. apply Hwf.
  - intros x Hs [Hx _]%Hh1. cbn. rewrite Hhi1. by apply (wf_bounded n f Hwf).
Qed.

(** what the memory holds for the right sibling of a leaf *)
Record sibling_ok (mem : Z -> option (leaf V)) n (ra : Z) (rn : leaf V) (g : Control.fields) : Prop := {
  sib_addr : sibling_ n = Some ra;
  sib_mem : mem ra = Some rn;
  sib_wf : leaf_wf rn g;
  sib_unlocked : Control.f_locked g = false;
  sib_live : Control.f_deleted g = false;
  sib_above x : has rn x -> high_key_ n < kv_key x;
  sib_high : high_key_ n <= high_key_ rn \/ Control.f_sibling g = false;
}.

Lemma remove_merge mem this n f key kv ra rn g :
  leaf_wf n f -> content n !! key = Some kv -> Control.f_sibling f = true ->
  sibling_ok mem n ra rn g ->
  (popcount 64 (bitmap_ n) - 1 + popcount 64 (bitmap_ rn) <= 32 \/ popcount 64 (bitmap_ n) = 1) ->
  exists n' rn', remove T mem this n key
      = Some (Some kv, mkMerge n' (Some (ra, rn')) (Some (kc_mid T (high_key_ n))))
    /\ leaf_wf n' (Control.with_sibling (touched f) (Control.f_sibling g))
    /\ (forall x, has n' x <-> (has n x /\ kv_key x <> key) \/ has rn x)
    /\ high_key_ n' = high_key_ rn /\ sibling_ n' = sibling_ rn
    /\ leaf_wf rn' (Control.merged_fields g) /\ sibling_ rn' = Some this /\ (forall x, ~ has rn' x).
Proof.
  intros Hwf Hc Hs [Hra Hmem Hg Hlk Hdel Habove Hhigh] Hp.
  pose proof (wf_valid n f Hwf) as Hv.
  destruct (remove_present mem this n f key kv Hwf Hc) as (n1 & Hn1 & Hh1 & Hc1 & Hhi1 & Hs1 & Hp1 & Hrem).
  destruct (merge_yes mem this n1 (Control.bump f) ra rn g) as
    (n2 & rn' & Em & Hn2 & Hh2 & Hc2 & Hhi2 & Hs2 & Hr' & Hsr' & Hno); try done.
  - by apply Control.bump_valid.
  - by rewrite Hs1.
  - unfold mergeable. replace (kMergeSize T) with 32 by (symmetry; apply HT). rewrite Hp1.
    rewrite orb_true_iff, Z.leb_le, Z.eqb_eq. lia.
  - intros x y [Hx _]%Hh1 Hy%Habove. apply (wf_bounded n f Hwf) in Hx; [lia|done].
  - rewrite (Hrem _ Em). cbn [m_this m_rnode m_merged].
    rewrite (clear_order_eq n2 (Control.with_sibling (Control.bump f) (Control.f_sibling g))), bind_Some
      by (done || by apply (Control.bump_valid f)).
    rewrite Hhi1. eexists _, rn'. split; [done|].
    assert (forall x, has n2 x <-> (has n x /\ kv_key x <> key) \/ has rn x) as Hh.
    { intros x. by rewrite Hh2, Hh1. }
    split; [|by split; [exact Hh|]].
    split; [by apply set_control_body|done|by apply touched_valid|apply Hwf| | |done].
    + cbn. rewrite Hhi2. apply Hg.
    + cbn. intros x Hsg [[Hx _]|Hx]%Hh; rewrite Hhi2.
      * apply (wf_bounded n f Hwf) in Hx; [|done]. destruct Hhigh as [?|?]; [lia|congruence].
      * by apply (wf_bounded rn g Hg).
Qed.

(** ** [kv_sort] *)

Lemma take_all_spec n :
  body_wf n ->
  exists keys kvs', take_all n = Some (keys, set_kvs n kvs')
    /\ length kvs' = 64%nat /\ (forall j x, ~ kv_at (set_kvs n kvs') j x)
    /\ keys.*2 = set_bits (bitmap_ n) /\ (forall x i, (x, i) ∈ keys -> kv_at n i x).
Proof.
  intros Hn. unfold take_all. set (body := fun (idx : Z) (st : list (kvpair V * Z) * leaf V) => _).
  pose (P := fun (dn : list Z) (st : list (kvpair V * Z) * leaf V) =>
    st.1.*2 = dn /\ (forall x i, (x, i) ∈ st.1 -> kv_at n i x)
    /\ exists kvs', st.2 = set_kvs n kvs' /\ length kvs' = 64%nat
       /\ (forall j x, kv_at (set_kvs n kvs') j x <-> kv_at n j x /\ j ∉ dn)).
  destruct (for_mask_inv P body (bitmap_ n) ([], n)) as ([keys n'] & E & Hfin).
  - apply Hn.
  - split; [done|]. split; [by intros x i ?%not_elem_of_nil|]. exists (kvs_ n).
    rewrite set_kvs_self. split; [done|]. split; [apply Hn|].
    intros j x. split; [|by intros [? _]]. intros. split; [done|]. apply not_elem_of_nil.
  - intros dn i rest [keys n1] Ebits (Hk1 & Hk2 & kvs1 & E1 & Hl1 & Hat1).
    cbn [fst snd] in *. subst n1.
    assert (i ∈ set_bits (bitmap_ n)) as Hi by (rewrite Ebits; set_solver).
    pose proof (NoDup_set_bits (bitmap_ n)) as Hnd. rewrite Ebits in Hnd.
    apply NoDup_app in Hnd as (_ & Hnd & _).
    assert (i ∉ dn) as Hfresh by (intros ?; by apply (Hnd i); [|left]).
    apply elem_of_set_bits in Hi as [Hi Hui].
    destruct (wf_used n Hn i Hui) as (kv & Hk & _).
    assert (kv_at (set_kvs n kvs1) i kv) as Hki by (by apply Hat1).
    exists (keys ++ [(kv, i)], set_kvs n (<[Z.to_nat i := Null]> kvs1)). split.
    { unfold body. by rewrite (exchange_kv_eq _ _ _ kv), bind_Some by done. }
    unfold P. cbn [fst snd]. split; [by rewrite fmap_app, Hk1|]. split.
    { intros x j [?|[= -> ->]%list_elem_of_singleton]%elem_of_app; auto. }
    eexists. split; [done|]. rewrite length_insert. split; [done|].
    intros j x. rewrite (insert_at (set_kvs n kvs1) _ i Null), Hat1 by done.
    rewrite not_elem_of_app, list_elem_of_singleton. naive_solver.
  - destruct Hfin as (Hk1 & Hk2 & kvs' & E1 & Hl' & Hat'). cbn [fst snd] in *. subst n'.
    rewrite E, bind_Some. exists keys, kvs'. split; [done|]. split; [done|].
    split; [|done]. intros j x [Hk Hnm]%Hat'.
    destruct (decide (used n j)) as [Hu|Hu]; [|by apply (wf_free n Hn j x)].
    apply Hnm, elem_of_set_bits. split; [|done]. by apply (used_range n); [apply Hn|].
Qed.

(** the slots [a ..] filled with the pairs of [l] *)
Lemma put_all_spec n (l : list (kvpair V * Z)) a t :
  length t = 64%nat -> Forall is_byte t -> length (kvs_ n) = 64%nat ->
  0 <= a -> a + Z.of_nat (length l) <= 64 ->
  (forall x i, (x, i) ∈ l -> aget (tags_ n) i = Some (kc_tag T (kv_key x))) ->
  exists t' kvs', put_all l a t n = Some (t', set_kvs n kvs')
    /\ length t' = 64%nat /\ Forall is_byte t' /\ length kvs' = 64%nat
    /\ (forall j, (j < a \/ a + Z.of_nat (length l) <= j) ->
          aget t' j = aget t j /\ aget kvs' j = aget (kvs_ n) j)
    /\ (forall k x i, l !! k = Some (x, i) ->
          aget t' (a + Z.of_nat k) = Some (kc_tag T (kv_key x))
          /\ aget kvs' (a + Z.of_nat k) = Some (Ptr x)).
Proof.
  revert a t n. induction l as [|[x i] l IH]; intros a t n Hlt Hbt Hlk Ha Hal Htag.
  - exists t, (kvs_ n). cbn [put_all]. rewrite set_kvs_self. done.
  - cbn [put_all length] in *. rewrite (Htag x i), bind_Some by (by left).
    rewrite aset_in_range, bind_Some by lia. rewrite store_kv_eq, bind_Some by (done || lia).
    edestruct (IH (a + 1) (<[Z.to_nat a := kc_tag T (kv_key x)]> t)
      (set_kvs n (<[Z.to_nat a := Ptr x]> (kvs_ n)))) as (t' & kvs' & E & Hlt' & Hbt' & Hlk' & Hout & Hin).
    + by rewrite length_insert.
    + apply Forall_insert; [done|apply code_tag].
    + cbn. by rewrite length_insert.
    + lia.
    + lia.
    + intros y j Hy. apply Htag. by right.
    + exists t', kvs'. split; [by rewrite E|]. do 3 (split; [done|]). cbn [kvs_ set_kvs] in Hout. split.
      * intros j Hj. destruct (Hout j) as [-> ->]; [lia|].
        rewrite !aget_insert by lia. by bfalse (a =? j).
      * intros [|k] y j Hy; cbn in Hy.
        { injection Hy as -> ->. rewrite Z.add_0_r. destruct (Hout a) as [-> ->]; [lia|].
          rewrite !aget_insert by lia. by btrue (a =? a). }
        { apply Hin in Hy. by replace (a + Z.of_nat (S k)) with (a + 1 + Z.of_nat k) by lia. }
Qed.

Lemma bitmap_ones m : 0 <= m <= 64 -> Leaf.bitmap T m = Some (Z.ones m).
Proof.
  intros Hm. unfold Leaf.bitmap. rewrite kNodeSize_64. cbn [Z.eqb Pos.eqb].
  destruct (Z.eqb_spec m 64) as [->|]; [done|]. btrue ((0 <=? m) && (m <? 64)). cbn [asserting].
  f_equal. rewrite Z.ones_equiv, Z.shiftl_1_l, wrap_small; [lia|].
  pose proof (Z.pow_lt_mono_r 2 m 64). lia.
Qed.

(** the ordered view of a leaf: its pairs by increasing key *)
Definition sorted_fields (f : Control.fields) : Control.fields :=
  if Control.f_ordered f then f else Control.bump (Control.with_ordered f true).

Lemma set_order_eq n f :
  Control.valid f -> control_ n = Control.encode f -> Control.f_ordered f = false ->
  on_control n Control.set_order
    = Some (set_control n (Control.encode (Control.with_ordered f true))).
Proof.
  intros Hf E Hs. apply (run_control n f Control.OpSetOrder); [done|done|]. cbn. by rewrite Hs.
Qed.

Lemma NoDup_keys n (keys : list (kvpair V * Z)) :
  body_wf n -> keys.*2 = set_bits (bitmap_ n) -> (forall x i, (x, i) ∈ keys -> kv_at n i x) ->
  NoDup ((fun k : kvpair V * Z => kv_key k.1) <$> keys).
Proof.
  intros Hn H2 Hk. assert (NoDup keys.*2) as Hd by (rewrite H2; apply NoDup_set_bits).
  assert (forall x i, (x, i) ∈ keys -> used n i) as Hu.
  { intros x i Hi. apply (list_elem_of_fmap_2 snd) in Hi. rewrite H2 in Hi.
    by apply set_bits_used. }
  clear H2. induction keys as [|[x i] keys IH]; [constructor|].
  rewrite fmap_cons in *. apply NoDup_cons in Hd as [Hni Hd]. apply NoDup_cons. split.
  - intros Hin. apply list_elem_of_fmap in Hin as ([y j] & E & Hy). cbn in E. apply Hni.
    assert (i = j) as ->.
    { apply (wf_distinct n Hn i j x y); [by apply (Hu x); left|by apply (Hu y); right
        |by apply Hk; left|by apply Hk; right|done]. }
    by apply (list_elem_of_fmap_2 snd) in Hy.
  - apply IH; [intros y j Hy; apply Hk; by right|done|intros y j Hy; apply (Hu y); by right].
Qed.

Lemma kv_sort_spec n f raw :
  leaf_wf n f -> length raw = 64%nat -> Forall is_byte raw ->
  exists n', kv_sort T n raw = Some n' /\ leaf_wf n' (sorted_fields f)
    /\ (forall x, has n' x <-> has n x)
    /\ high_key_ n' = high_key_ n /\ sibling_ n' = sibling_ n.
Proof.
  intros Hwf Hlr Hbr. unfold kv_sort. pose proof (wf_valid n f Hwf) as Hv.
  destruct (reads n f Hv (wf_word n f Hwf)) as (-> & _). unfold sorted_fields.
  destruct (Control.f_ordered f) eqn:Ef; cbn [negb]; [by exists n|].
  destruct Hwf as [Hn Hw _ Hl Hhi Hb Ho].
  destruct (take_all_spec n Hn) as (keys & kvs1 & E1 & Hl1 & Hno1 & Hk2 & Hk).
  rewrite E1, bind_Some. set (l := std_sort (fun k : kvpair V * Z => kv_key k.1) keys).
  assert (l ≡ₚ keys) as Hp by apply std_sort_perm.
  assert (length l = length (set_bits (bitmap_ n))) as Hlen
    by (rewrite Hp, <- Hk2; by rewrite length_fmap).
  pose proof (length_set_bits_le (bitmap_ n)) as Hle.
  destruct (put_all_spec (set_kvs n kvs1) l 0 raw) as
    (t' & kvs2 & E2 & Hlt & Hbt & Hlk & Hout & Hin); [done|done|done|lia|lia| |].
  { intros x i Hi. rewrite Hp in Hi. cbn [tags_ set_kvs].
    assert (used n i) as Hu.
    { pose proof (list_elem_of_fmap_2 snd _ _ Hi) as Hi2. rewrite Hk2 in Hi2.
      by apply set_bits_used. }
    destruct (wf_used n Hn i Hu) as (kv & Hkv & Ht & _).
    by rewrite (kv_at_inj _ _ _ _ (Hk x i Hi) Hkv). }
  rewrite E2, bind_Some, bitmap_ones, bind_Some by lia.
  rewrite (set_order_eq _ f), bind_Some by done.
  rewrite (update_version_eq _ (Control.with_ordered f true)) by done.
  eexists. split; [done|]. set (n' := set_control _ _).
  set (m := Z.of_nat (length l)) in *.
  assert (forall j, used n' j <-> 0 <= j < m) as Hu.
  { intros j. unfold used. cbn [n' bitmap_ set_control set_bitmap]. rewrite ones_testbit by lia. blia. }
  assert (forall j x, kv_at n' j x <-> 0 <= j < m /\ exists i, l !! Z.to_nat j = Some (x, i)) as Hat.
  { intros j x. unfold kv_at. cbn [n' kvs_ set_control set_bitmap set_tags set_kvs].
    destruct (decide (0 <= j < m)) as [Hj|Hj].
    - destruct (lookup_lt_is_Some_2 l (Z.to_nat j)) as [[y i] Hy]; [lia|].
      destruct (Hin _ _ _ Hy) as [_ Hat]. rewrite Z2Nat.id, Z.add_0_l in Hat by lia.
      rewrite Hat, Hy. naive_solver.
    - split; [|naive_solver]. intros Hx. exfalso. destruct (Hout j) as [_ E]; [lia|].
      apply (Hno1 j x). unfold kv_at. cbn [kvs_ set_kvs] in *. by rewrite <- E. }
  assert (forall x, has n' x <-> has n x) as Hh.
  { intros x. split.
    - intros (j & _ & (_ & i & Hi)%Hat). apply list_elem_of_lookup_2 in Hi. rewrite Hp in Hi.
      exists i. split; [|by apply Hk]. apply (list_elem_of_fmap_2 snd) in Hi. rewrite Hk2 in Hi.
      by apply set_bits_used.
    - intros (i & Hui & Hki). pose proof (used_range n i (wf_bm n Hn) Hui) as Hi.
      assert (i ∈ keys.*2) as Hi2 by (rewrite Hk2; by apply elem_of_set_bits).
      apply list_elem_of_fmap in Hi2 as ([y i'] & -> & Hy). pose proof (Hk y _ Hy) as Hky.
      cbn [snd] in *. rewrite (kv_at_inj _ _ _ _ Hki Hky). rewrite <- Hp in Hy.
      apply list_elem_of_lookup in Hy as [a Hy]. pose proof (lookup_lt_Some _ _ _ Hy).
      exists (Z.of_nat a). rewrite Hu, Hat, Nat2Z.id. split; [lia|]. split; [lia|]. by exists i'. }
  assert (forall i j x y, i < j -> kv_at n' i x -> kv_at n' j y -> kv_key x < kv_key y) as Hinc.
  { intros i j x y Hij (Hi & i1 & Ei)%Hat (Hj & j1 & Ej)%Hat.
    apply (std_sort_increasing (fun k : kvpair V * Z => kv_key k.1) keys (Z.to_nat i) (Z.to_nat j)
             (x, i1) (y, j1)); [by apply (NoDup_keys n)|lia|done|done]. }
  split; [|done]. split; try done.
  - split; try done.
    + cbn [n' bitmap_ set_control set_bitmap]. rewrite Z.ones_equiv.
      pose proof (Z.pow_le_mono_r 2 m 64). unfold is_u64. pose proof (Z.pow_pos_nonneg 2 m). lia.
    + intros j Hj%Hu. destruct (lookup_lt_is_Some_2 l (Z.to_nat j)) as [[y i] Hy]; [lia|].
      exists y. split; [apply Hat; eauto|]. destruct (Hin _ _ _ Hy) as [Ht _].
      rewrite Z2Nat.id, Z.add_0_l in Ht by lia. split; [done|].
      assert (has n' y) as (j' & Hu' & Hk')%Hh by (exists j; split; [by apply Hu|apply Hat; eauto]).
      destruct (wf_used n Hn j' Hu') as (kv & Hkv & _ & ?). by rewrite (kv_at_inj _ _ _ _ Hk' Hkv).
    + intros j x Hj Hx. apply Hj, Hu. by apply Hat in Hx as [? _].
    + intros i j x y _ _ Hx Hy E. destruct (Z.lt_trichotomy i j) as [Hlt'|[->|Hlt']]; [|done|].
      * pose proof (Hinc _ _ _ _ Hlt' Hx Hy). lia.
      * pose proof (Hinc _ _ _ _ Hlt' Hy Hx). lia.
  - by apply Control.bump_valid.
  - intros x Hs Hx%Hh. by apply Hb.
  - intros _. split; [by exists m; split; [lia|]|]. intros i j x y Hij _ _. by apply Hinc.
Qed.

(** ** [bound] *)

(** the pairs at or above a key (above it, for an upper bound) *)
Definition above (upper : bool) key k : Prop := if upper then key < k else key <= k.

(** the least such pair, if there is one *)
Definition is_bound n key (upper : bool) (o : option (kvpair V)) : Prop :=
  match o with
  | Some kv => has n kv /\ above upper key (kv_key kv)
      /\ (forall x, has n x -> above upper key (kv_key x) -> kv_key kv <= kv_key x)
  | None => forall x, has n x -> ~ above upper key (kv_key x)
  end.

Lemma first_keys_spec n (idx : list Z) (acc : list Z) :
  (forall j, j ∈ idx -> exists kv, kv_at n j kv) ->
  exists ks, foldr (fun kid (k : list Z -> option (option (list Z))) keys =>
      let* o := load_kv n kid in
      match o with
      | None => Some None
      | Some x => k (keys ++ [kv_key x])
      end) (fun keys => Some (Some keys)) idx acc = Some (Some (acc ++ ks))
    /\ Forall2 (fun j k => exists kv, kv_at n j kv /\ kv_key kv = k) idx ks.
Proof.
  revert acc. induction idx as [|j idx IH]; intros acc H; cbn [foldr].
  - exists []. by rewrite app_nil_r.
  - destruct (H j) as [kv Hk]; [by left|]. rewrite (load_kv_at _ _ _ Hk), bind_Some.
    destruct (IH (acc ++ [kv_key kv])) as (ks & E & HF); [intros; apply H; by right|].
    exists (kv_key kv :: ks). rewrite E, <- app_assoc. split; [done|]. constructor; eauto.
Qed.

Lemma upper_index_spec ks key :
  0 <= upper_index ks key <= Z.of_nat (length ks)
  /\ (forall (a : nat) k, ks !! a = Some k -> Z.of_nat a < upper_index ks key -> k <= key)
  /\ (forall k, ks !! Z.to_nat (upper_index ks key) = Some k -> key < k).
Proof.
  induction ks as [|k ks (Hr & Hlo & Hhi)]; cbn [upper_index length]; [done|].
  destruct (key <? k) eqn:E.
  - split; [lia|]. split; [lia|]. intros k' [= <-]. lia.
  - split; [lia|]. split.
    + intros [|j] k' Hj Hlt; cbn in Hj; [injection Hj as <-; lia|]. apply (Hlo j); [done|lia].
    + intros k'. replace (Z.to_nat (1 + upper_index ks key)) with (S (Z.to_nat (upper_index ks key))) by lia.
      apply Hhi.
Qed.

Section ordered.
Context n (m : Z) (Hn : body_wf n) (Hm : 0 <= m <= 64) (Hones : bitmap_ n = Z.ones m)
  (Hinc : forall i j kv kv', i < j -> used n i -> used n j -> kv_at n i kv -> kv_at n j kv' ->
     kv_key kv < kv_key kv').

Lemma ordered_used j : used n j <-> 0 <= j < m.
Proof. unfold used. rewrite Hones, ones_testbit by lia. blia. Qed.

Lemma ordered_popcount : popcount 64 (bitmap_ n) = m.
Proof.
  rewrite (popcount_perm _ (seqZ 0 m)); [|apply Hn|apply NoDup_seqZ| |].
  - rewrite length_seqZ. lia.
  - intros j Hj. fold (used n j). rewrite ordered_used, elem_of_seqZ. lia.
  - intros j Hj%elem_of_seqZ. lia.
Qed.

Lemma ordered_at j : 0 <= j < m -> exists kv, kv_at n j kv.
Proof.
  intros Hj. destruct (wf_used n Hn j) as (kv & ? & _); [by apply ordered_used|eauto].
Qed.

(** slots and keys are in the same order *)
Lemma ordered_le i j x y : used n i -> used n j -> kv_at n i x -> kv_at n j y ->
  i <= j <-> kv_key x <= kv_key y.
Proof.
  intros Hi Hj Hx Hy. destruct (Z.lt_trichotomy i j) as [Hlt|[->|Hlt]].
  - pose proof (Hinc _ _ _ _ Hlt Hi Hj Hx Hy). lia.
  - rewrite (kv_at_inj _ _ _ _ Hx Hy). lia.
  - pose proof (Hinc _ _ _ _ Hlt Hj Hi Hy Hx). lia.
Qed.

(** the slot [p] is the first whose key is at or above (above) [key] *)
Lemma is_bound_slot key upper p :
  0 <= p <= m ->
  (forall j x, 0 <= j < p -> kv_at n j x -> ~ above upper key (kv_key x)) ->
  (forall x, 0 <= p < m -> kv_at n p x -> above upper key (kv_key x)) ->
  (p = m -> is_bound n key upper None)
  /\ (p < m -> exists kv, kv_at n p kv /\ is_bound n key upper (Some kv)).
Proof.
  intros Hp Hlo Hhi. split.
  - intros -> x (j & Hu & Hk). apply (Hlo j); [by apply ordered_used|done].
  - intros Hlt. destruct (ordered_at p) as [kv Hk]; [lia|]. exists kv. split; [done|].
    assert (used n p) as Hup by (apply ordered_used; lia).
    split; [by exists p|]. split; [apply Hhi; [lia|done]|].
    intros x (j & Hu & Hx) Ha. apply (ordered_le p j); [done..|].
    destruct (decide (p <= j)); [done|exfalso]. apply (Hlo j x); [|done..].
    apply ordered_used in Hu. lia.
Qed.

(** where the search of [bound] ends when the key is in the leaf *)
Lemma bound_hit i kv upper :
  used n i -> kv_at n i kv ->
  bound T n (kv_key kv) upper =
    if upper then (let* next := load_kv n (i + 1) in Some (next, i + 1)) else Some (Some kv, i).
Proof.
  intros Hu Hk. unfold bound.
  pose proof (candidates_spec n (kv_key kv) Hn) as (mask & Hmask & _ & _).
  rewrite Hmask, bind_Some. set (body := fun (idx : Z) (_ : unit) => _).
  assert (body i tt = if upper then (let* next := load_kv n (i + 1) in Some (inr (next, i + 1)))
                      else Some (inr (Some kv, i))) as Hbody.
  { unfold body. rewrite (load_kv_at _ _ _ Hk), bind_Some. by btrue (kv_key kv =? kv_key kv). }
  rewrite (search_hit n (kv_key kv) mask body i kv); [|done..| |].
  - rewrite Hbody. destruct upper; [|by rewrite bind_Some].
    destruct (load_kv n (i + 1)); [by rewrite !bind_Some|done].
  - intros j kv' _ Hk' Hne. unfold body. rewrite (load_kv_at _ _ _ Hk'), bind_Some.
    by bfalse (kv_key kv =? kv_key kv').
  - rewrite Hbody. destruct upper; [|done]. by destruct (load_kv n (i + 1)).
Qed.

Lemma bound_miss key upper :
  content n !! key = None ->
  exists o pos, bound T n key upper = Some (o, pos) /\ is_bound n key upper o
    /\ (forall kv, o = Some kv -> kv_at n pos kv).
Proof.
  intros Hc. unfold bound. rewrite ordered_popcount.
  pose proof (candidates_spec n key Hn) as (mask & Hmask & _ & _).
  rewrite Hmask, bind_Some, (search_miss n key mask), bind_Some; [|done..|].
  2:{ intros j kv' _ Hk' Hne. rewrite (load_kv_at _ _ _ Hk'), bind_Some. by bfalse (key =? kv_key kv'). }
  unfold first_keys.
  destruct (first_keys_spec n (seqZ 0 m) []) as (ks & -> & HF).
  { intros j Hj%elem_of_seqZ. apply ordered_at. lia. }
  rewrite bind_Some. cbn [app].
  assert (length ks = Z.to_nat m) as Hlen by (rewrite <- (Forall2_length _ _ _ HF); by rewrite length_seqZ).
  assert (forall (a : nat) k, ks !! a = Some k -> exists kv, kv_at n (Z.of_nat a) kv /\ kv_key kv = k) as Hks.
  { intros a k Hj. destruct (Forall2_lookup_r _ _ _ _ _ HF Hj) as (i & [Hi _]%lookup_seqZ & Hex).
    by rewrite Z.add_0_l in Hi; subst i. }
  destruct (upper_index_spec ks key) as (Hr & Hlo & Hhi). set (p := upper_index ks key) in *.
  pose proof (proj1 (content_None n key Hn) Hc) as Habs.
  destruct (is_bound_slot key upper p) as [Hend Hin].
  - lia.
  - intros j x Hj Hx. destruct (lookup_lt_is_Some_2 ks (Z.to_nat j)) as [k Hk]; [lia|].
    destruct (Hks _ _ Hk) as (kv & Hkv & <-). rewrite Z2Nat.id in Hkv by lia.
    rewrite (kv_at_inj _ _ _ _ Hx Hkv). pose proof (Hlo _ _ Hk ltac:(lia)) as Hle.
    assert (kv_key kv <> key) by (apply Habs; exists j; split; [apply ordered_used; lia|done]).
    destruct upper; cbn; lia.
  - intros x Hp Hx. destruct (lookup_lt_is_Some_2 ks (Z.to_nat p)) as [k Hk]; [lia|].
    destruct (Hks _ _ Hk) as (kv & Hkv & <-). rewrite Z2Nat.id in Hkv by lia.
    rewrite (kv_at_inj _ _ _ _ Hx Hkv). pose proof (Hhi _ Hk). destruct upper; cbn; lia.
  - destruct (m <=? p) eqn:E.
    + exists None, 0. split; [done|]. split; [apply Hend; lia|done].
    + destruct Hin as (kv & Hk & Hb); [lia|]. rewrite (load_kv_at _ _ _ Hk), bind_Some.
      exists (Some kv), p. split; [done|]. split; [done|]. by intros ? [= <-].
Qed.

Lemma bound_lower key :
  exists o pos, bound T n key false = Some (o, pos) /\ is_bound n key false o
    /\ (forall kv, o = Some kv -> kv_at n pos kv).
Proof.
  destruct (content n !! key) as [kv|] eqn:Hc; [|by apply bound_miss].
  apply content_lookup in Hc as [<- (i & Hu & Hk)]; [|done].
  rewrite (bound_hit i) by done. exists (Some kv), i. split; [done|].
  split; [|by intros ? [= <-]]. split; [by exists i|]. cbn. split; [lia|done].
Qed.

(** the next slot of the key's, when it is not the last one *)
Lemma bound_upper_next i kv :
  used n i -> kv_at n i kv -> i + 1 < m ->
  exists x, bound T n (kv_key kv) true = Some (Some x, i + 1) /\ kv_at n (i + 1) x
    /\ is_bound n (kv_key kv) true (Some x).
Proof.
  intros Hu Hk Hi. pose proof (proj1 (ordered_used i) Hu). rewrite (bound_hit i) by done.
  destruct (is_bound_slot (kv_key kv) true (i + 1)) as [_ (x & Hx & Hb)].
  - lia.
  - intros j x Hj Hx. cbn. pose proof (ordered_le j i x kv) as Hle.
    rewrite !ordered_used in Hle. specialize (Hle ltac:(lia) ltac:(lia) Hx Hk). lia.
  - intros x Hj Hx. cbn. apply (Hinc i (i + 1)); [lia|done|by apply ordered_used|done|done].
  - lia.
  - exists x. by rewrite (load_kv_at _ _ _ Hx), bind_Some.
Qed.

(** the last key: what is in the slot after it *)
Lemma bound_upper_last kv :
  used n (m - 1) -> kv_at n (m - 1) kv ->
  bound T n (kv_key kv) true = (let* next := load_kv n m in Some (next, m))
  /\ is_bound n (kv_key kv) true None.
Proof.
  intros Hu Hk. rewrite (bound_hit (m - 1)) by done.
  replace (m - 1 + 1) with m by lia. split; [done|].
  intros x (j & Huj & Hx). cbn. pose proof (ordered_le j (m - 1) x kv Huj Hu Hx Hk) as Hle.
  apply ordered_used in Huj. lia.
Qed.
End ordered.

(** ** The maps after an operation *)

Lemma content_same n n' : body_wf n -> body_wf n' -> (forall x, has n' x <-> has n x) ->
  content n' = content n.
Proof.
  intros Hn Hn' H. apply content_ext; [done|]. intros k kv. by rewrite content_lookup, H.
Qed.

Lemma content_empty n : body_wf n -> (forall x, ~ has n x) -> content n = ∅.
Proof.
  intros Hn H. apply content_ext; [done|]. intros k kv. rewrite lookup_empty. naive_solver.
Qed.

Lemma content_add n n' kv :
  body_wf n -> body_wf n' -> content n !! kv_key kv = None ->
  (forall x, has n' x <-> x = kv \/ has n x) -> content n' = <[kv_key kv := kv]> (content n).
Proof.
  intros Hn Hn' Hnone Hh. apply content_insert; [done|done|]. intros x. rewrite Hh.
  pose proof (proj1 (content_None n (kv_key kv) Hn) Hnone x). naive_solver.
Qed.

(** two leaves whose pairs are those of a map, below and above a separator *)
Lemma content_split n1 n2 (m : gmap Z (kvpair V)) (P : kvpair V -> Prop) h :
  body_wf n1 -> body_wf n2 ->
  (forall k x, m !! k = Some x <-> kv_key x = k /\ P x) ->
  (forall x, has n1 x <-> P x /\ kv_key x <= h) ->
  (forall x, has n2 x <-> P x /\ h < kv_key x) ->
  content n1 ∪ content n2 = m.
Proof.
  intros H1 H2 Hm Hh1 Hh2. apply map_eq. intros k. apply option_eq. intros x.
  rewrite lookup_union_Some_raw, Hm, !content_lookup, content_None, Hh1, Hh2 by done.
  split; [naive_solver|]. intros [<- HP]. destruct (decide (kv_key x <= h)); [naive_solver|].
  right. split; [|split; [done|split; [done|lia]]].
  intros y [_ ?]%Hh1. lia.
Qed.

Lemma content_join n n1 n2 key :
  body_wf n -> body_wf n1 -> body_wf n2 ->
  (forall x, has n x <-> (has n1 x /\ kv_key x <> key) \/ has n2 x) ->
  (forall x y, has n1 x -> has n2 y -> kv_key x <> kv_key y) ->
  content n = delete key (content n1) ∪ content n2.
Proof.
  intros H H1 H2 Hh Hd. apply content_ext; [done|]. intros k x.
  rewrite lookup_union_Some_raw, lookup_delete_Some, lookup_delete_None, !content_lookup,
    content_None, Hh by done.
  split; [|naive_solver]. intros [(Hk & <- & ?)|[_ [<- ?]]]; naive_solver.
Qed.
End spec.

(** ** The operations on the map of the leaf *)

(** [update] on the map of the leaf *)
Lemma update_content {V} (T : kcode) `{!CodeOk T} (n : leaf V) (f : Control.fields) (kv : kvpair V) :
  leaf_wf T n f ->
  exists n', update T n kv = Some (content n !! kv_key kv, n') /\ leaf_wf T n' f
    /\ content n' = match content n !! kv_key kv with
                    | Some _ => <[kv_key kv := kv]> (content n)
                    | None => content n
                    end
    /\ high_key_ n' = high_key_ n /\ sibling_ n' = sibling_ n.
Proof.
  intros Hwf. pose proof (wf_body T n f Hwf) as Hn. pose proof (update_spec T n kv Hn) as H.
  destruct (content n !! kv_key kv) as [old|].
  - destruct H as (i & Hu & Hk & E & ->). eexists. split; [done|].
    split; [by eapply exchange_leaf_wf|]. split; [by apply (exchange_used T n i old kv)|done].
  - rewrite H. by exists n.
Qed.

(** [upsert] *)
(** the control fields of a leaf that a pair was stored in, without a split *)
Definition stored_fields {A} (old : option A) (f : Control.fields) : Control.fields :=
  match old with Some _ => f | None => touched f end.

Lemma stored_fields_same {A} (old : option A) f :
  let f' := stored_fields old f in
  Control.f_sibling f' = Control.f_sibling f /\ Control.f_deleted f' = Control.f_deleted f
  /\ Control.f_locked f' = Control.f_locked f /\ Control.f_splitting f' = Control.f_splitting f.
Proof. by destruct old. Qed.

Lemma upsert_content {V} (T : kcode) `{!CodeOk T} (n : leaf V) (f : Control.fields) (kv : kvpair V)
    (rnode : Z) (raw_tags : list Z) :
  leaf_wf T n f -> upsert_args T n f kv raw_tags ->
  exists r, upsert T n kv rnode raw_tags = Some r /\ u_old r = content n !! kv_key kv
    /\ match u_rnode r with
       | None =>
           leaf_wf T (u_this r) (stored_fields (content n !! kv_key kv) f)
           /\ content (u_this r) = <[kv_key kv := kv]> (content n)
           /\ high_key_ (u_this r) = high_key_ n /\ sibling_ (u_this r) = sibling_ n
       | Some (rn, mid) =>
           bitmap_ n = Z.ones 64 /\ content n !! kv_key kv = None
           /\ leaf_wf T (u_this r) (Control.with_sibling (touched f) true)
           /\ leaf_wf T rn (new_fields (Control.f_sibling f))
           /\ content (u_this r) ∪ content rn = <[kv_key kv := kv]> (content n)
           /\ (forall x, has (u_this r) x -> kv_key x <= high_key_ (u_this r))
           /\ (forall x, has rn x -> high_key_ (u_this r) < kv_key x)
           /\ mid = kc_mid T (high_key_ (u_this r))
           /\ sibling_ (u_this r) = Some rnode
           /\ (Control.f_sibling f = true -> sibling_ rn = sibling_ n /\ high_key_ rn = high_key_ n)
       end.
Proof.
  intros Hwf Hargs. pose proof (wf_body T n f Hwf) as Hn.
  destruct (content n !! kv_key kv) as [old|] eqn:Hc.
  { destruct (upsert_present T n f kv old rnode raw_tags Hwf Hc) as (n' & E & Hwf' & Hc' & _ & ? & ?).
    eexists. do 2 (split; [done|]). by cbn [u_rnode u_this]. }
  destruct (decide (bitmap_ n = Z.ones 64)) as [Hfull|Hfull].
  - destruct (upsert_split T n f kv rnode raw_tags Hwf Hc Hargs Hfull)
      as (n' & rn' & E & H1 & H2 & Hh1 & Hh2 & Hs & Hsr & _).
    eexists. do 2 (split; [done|]). cbn [u_rnode u_this].
    do 4 (split; [done|]). split.
    { apply (content_split T n' rn' _ (fun x => x = kv \/ has n x) (high_key_ n'));
        [apply H1|apply H2| |done|done].
      intros k x. rewrite lookup_insert_Some, (content_lookup T) by done.
      pose proof (proj1 (content_None T n (kv_key kv) Hn) Hc x). naive_solver. }
    split; [by intros x [_ ?]%Hh1|]. by split; [intros x [_ ?]%Hh2|].
  - destruct (upsert_simple T n f kv rnode raw_tags Hwf Hc Hargs Hfull) as (n' & E & H1 & Hh & ? & ?).
    eexists. do 2 (split; [done|]). cbn [u_rnode u_this]. split; [done|].
    split; [|done]. apply (content_add T); [done|apply H1|done|done].
Qed.

(** the flags of a leaf after a removal: those it had, but for the sibling, which is the
    sibling's after a merge *)
Definition removed_flags (f g : Control.fields) (merged : bool) (f' : Control.fields) : Prop :=
  Control.f_deleted f' = Control.f_deleted f /\ Control.f_locked f' = Control.f_locked f
  /\ Control.f_splitting f' = Control.f_splitting f
  /\ Control.f_sibling f' = if merged then Control.f_sibling g else Control.f_sibling f.

(** [remove] *)
Lemma remove_content {V} (T : kcode) `{!CodeOk T} (mem : Z -> option (leaf V)) (this : Z) (n : leaf V)
    (f : Control.fields) (key ra : Z) (rn : leaf V) (g : Control.fields) :
  leaf_wf T n f -> (Control.f_sibling f = true -> sibling_ok T mem n ra rn g) ->
  exists n' mr merged,
    remove T mem this n key = Some (content n !! key, mkMerge n' mr merged)
    /\ (exists f', leaf_wf T n' f' /\ removed_flags f g (bool_decide (is_Some merged)) f')
    /\ if bool_decide (is_Some (content n !! key)) && Control.f_sibling f
          && ((popcount 64 (bitmap_ n) - 1 + popcount 64 (bitmap_ rn) <=? 32)
              || (popcount 64 (bitmap_ n) =? 1))
       then content n' = delete key (content n) ∪ content rn
         /\ high_key_ n' = high_key_ rn /\ sibling_ n' = sibling_ rn
         /\ merged = Some (kc_mid T (high_key_ n))
         /\ exists rn', mr = Some (ra, rn') /\ leaf_wf T rn' (Control.merged_fields g)
              /\ content rn' = ∅ /\ sibling_ rn' = Some this
       else content n' = delete key (content n)
         /\ high_key_ n' = high_key_ n /\ sibling_ n' = sibling_ n
         /\ merged = None /\ mr = None.
Proof.
  intros Hwf Hsib. pose proof (wf_body T n f Hwf) as Hn. pose proof (wf_valid T n f Hwf) as Hv.
  destruct (content n !! key) as [kv|] eqn:Hc.
  2:{ rewrite remove_absent by done. eexists n, None, None. split; [done|]. split; [by exists f|].
      rewrite bool_decide_false by (by intros []). cbn [andb]. by rewrite delete_id. }
  rewrite bool_decide_true by eauto. cbn [andb].
  destruct (Control.f_sibling f && _) eqn:Hcond.
  - apply andb_true_iff in Hcond as [Hs Hp]. specialize (Hsib Hs).
    destruct (remove_merge T mem this n f key kv ra rn g Hwf Hc Hs Hsib) as
      (n' & rn' & E & H1 & Hh & ? & ? & H2 & ? & Hno).
    { apply orb_true_iff in Hp as [?|?]; blia. }
    eexists _, _, _. split; [done|]. split; [by eexists|]. split; [|split; [done|split; [done|split; [done|]]]].
    + apply (content_join T); [apply H1|done|apply Hsib|done|].
      intros x y Hx Hy%(sib_above T _ _ _ _ _ Hsib). apply (wf_bounded T n f Hwf) in Hx; [lia|done].
    + exists rn'. split; [done|]. split; [done|]. split; [|done].
      apply (content_empty T); [apply H2|done].
  - destruct (remove_simple T mem this n f key kv Hwf Hc) as (n' & E & H1 & Hh & ? & ?).
    { intros n1 Hc1 Hs1 Hp1. destruct (Control.f_sibling f) eqn:Hs.
      - specialize (Hsib eq_refl). destruct Hsib as [Hra Hmem _ _ _ _ _].
        apply (merge_not T mem this n1 (Control.bump f) ra rn); [by apply Control.bump_valid|done|done|congruence|done|].
        unfold mergeable. replace (kMergeSize T) with 32 by (symmetry; apply code_merge). rewrite Hp1.
        cbn [andb] in Hcond. apply orb_false_iff in Hcond as [? ?]. blia.
      - by apply (merge_alone T mem this n1 (Control.bump f)); [apply Control.bump_valid| |]. }
    eexists n', None, None. split; [done|]. split; [by exists (touched f)|]. split; [|done].
    apply (content_delete T); [done|apply H1|done].
Qed.

(** [kv_sort] *)
Lemma kv_sort_content {V} (T : kcode) `{!CodeOk T} (n : leaf V) (f : Control.fields) (raw_tags : list Z) :
  leaf_wf T n f -> length raw_tags = 64%nat -> Forall is_byte raw_tags ->
  exists n' f', kv_sort T n raw_tags = Some n' /\ leaf_wf T n' f'
    /\ Control.f_ordered f' = true /\ sorted_slots n' /\ content n' = content n
    /\ high_key_ n' = high_key_ n /\ sibling_ n' = sibling_ n.
Proof.
  intros Hwf Hl Hb. destruct (kv_sort_spec T n f raw_tags Hwf Hl Hb) as (n' & E & H1 & Hh & ? & ?).
  assert (Control.f_ordered (sorted_fields f) = true) as Ho
    by (unfold sorted_fields; by destruct (Control.f_ordered f) eqn:?).
  exists n', (sorted_fields f). do 3 (split; [done|]). split; [by apply H1|].
  split; [|done]. apply (content_same T); [apply Hwf|apply H1|done].
Qed.

(** [bound] *)
Lemma bound_content {V} (T : kcode) `{!CodeOk T} (n : leaf V) (f : Control.fields) (key : Z) (upper : bool) :
  leaf_wf T n f -> Control.f_ordered f = true ->
  let last := popcount 64 (bitmap_ n) in
  if upper && bool_decide (kv_key <$> entry_at n (last - 1) = Some key) then
    bound T n key upper = (let* next := load_kv n last in Some (next, last))
    /\ is_bound n key upper None
  else
    exists o pos, bound T n key upper = Some (o, pos) /\ is_bound n key upper o
      /\ (forall kv, o = Some kv -> kv_at n pos kv).
Proof.
  intros Hwf Ho last. pose proof (wf_body T n f Hwf) as Hn.
  destruct (wf_ordered T n f Hwf Ho) as [(m & Hm & Hones) Hinc].
  assert (last = m) as -> by (by apply (ordered_popcount T)).
  destruct upper; cbn [andb].
  2:{ by apply (bound_lower T n m). }
  case_bool_decide as Hlast.
  - apply fmap_Some in Hlast as (kv & Hk%entry_at_Some & ->).
    assert (used n (m - 1)) as Hu by (destruct (decide (used n (m - 1))); [done|]; by destruct (wf_free T n Hn (m - 1) kv)).
    by apply (bound_upper_last T n m).
  - destruct (content n !! key) as [kv|] eqn:Hc; [|by apply (bound_miss T n m)].
    apply (content_lookup T) in Hc as [<- (i & Hu & Hk)]; [|done].
    assert (i + 1 < m) as Hlt.
    { pose proof (proj1 (ordered_used n m Hm Hones i) Hu). assert (i <> m - 1); [|lia].
      intros ->. apply Hlast. apply entry_at_Some in Hk. by rewrite Hk. }
    destruct (bound_upper_next T n m Hn Hm Hones Hinc i kv Hu Hk Hlt) as (x & E & Hx & Hb).
    exists (Some x), (i + 1). split; [done|]. split; [done|]. by intros ? [= <-].
Qed.

(** ** Properties *)

(** C12: The fingerprint search of a leaf never misses and never errs: [lookup] returns the pair stored under the key, whatever the other fingerprints are. [update] replaces the pair of a present key, returns the old one, and leaves the invariant, the control word and every other pair alone; of an absent key it changes nothing and returns null. *)
Theorem leaf_lookup_correct {V} (T : ktype) (n : leaf V) (f : Control.fields) (key : Z) (kv : kvpair V) :
  leaf_wf T n f ->
  lookup T n key = Some (content n !! key)
  /\ exists n', update T n kv = Some (content n !! kv_key kv, n') /\ leaf_wf T n' f
       /\ content n' = match content n !! kv_key kv with
                       | Some _ => <[kv_key kv := kv]> (content n)
                       | None => content n
                       end
       /\ high_key_ n' = high_key_ n /\ sibling_ n' = sibling_ n.
Proof. intros Hn. split; [apply (lookup_content T), Hn|exact (update_content T n f kv Hn)]. Qed.

(** C13: [upsert] returns the old pair and stores the new one: in place when the key is
    present, in a free slot otherwise. A full leaf is split into two well-formed
    leaves with at most 64 pairs, linked to each other, whose maps together are the
    old one with the pair added, and which the separator (the high key of the left
    leaf, returned in encoded form) divides. *)
Theorem leaf_upsert_correct {V} (T : ktype) (n : leaf V) (f : Control.fields) (kv : kvpair V)
    (rnode : Z) (raw_tags : list Z) :
  leaf_wf T n f -> upsert_args T n f kv raw_tags ->
  exists r, upsert T n kv rnode raw_tags = Some r /\ u_old r = content n !! kv_key kv
    /\ match u_rnode r with
       | None =>
           leaf_wf T (u_this r) (stored_fields (content n !! kv_key kv) f)
           /\ content (u_this r) = <[kv_key kv := kv]> (content n)
           /\ high_key_ (u_this r) = high_key_ n /\ sibling_ (u_this r) = sibling_ n
       | Some (rn, mid) =>
           bitmap_ n = Z.ones 64 /\ content n !! kv_key kv = None
           /\ leaf_wf T (u_this r) (Control.with_sibling (touched f) true)
           /\ leaf_wf T rn (new_fields (Control.f_sibling f))
           /\ content (u_this r) ∪ content rn = <[kv_key kv := kv]> (content n)
           /\ (forall x, has (u_this r) x -> kv_key x <= high_key_ (u_this r))
           /\ (forall x, has rn x -> high_key_ (u_this r) < kv_key x)
           /\ mid = encode_convert T (high_key_ (u_this r))
           /\ sibling_ (u_this r) = Some rnode
           /\ (Control.f_sibling f = true -> sibling_ rn = sibling_ n /\ high_key_ rn = high_key_ n)
       end.
Proof. exact (upsert_content T n f kv rnode raw_tags). Qed.

(** C15: [remove] deletes the pair of the key and returns it (null if there is none).
    It merges the right sibling into the leaf exactly when the leaf becomes empty
    or the two hold at most 32 pairs together; then the leaf has the pairs, the
    high key and the link of both, and the sibling is left empty, marked deleted,
    pointing back to the leaf. *)
Theorem leaf_remove_correct {V} (T : ktype) (mem : Z -> option (leaf V)) (this : Z) (n : leaf V)
    (f : Control.fields) (key ra : Z) (rn : leaf V) (g : Control.fields) :
  leaf_wf T n f -> (Control.f_sibling f = true -> sibling_ok T mem n ra rn g) ->
  exists n' mr merged,
    remove T mem this n key = Some (content n !! key, mkMerge n' mr merged)
    /\ (exists f', leaf_wf T n' f' /\ removed_flags f g (bool_decide (is_Some merged)) f')
    /\ if bool_decide (is_Some (content n !! key)) && Control.f_sibling f
          && ((popcount 64 (bitmap_ n) - 1 + popcount 64 (bitmap_ rn) <=? 32)
              || (popcount 64 (bitmap_ n) =? 1))
       then content n' = delete key (content n) ∪ content rn
         /\ high_key_ n' = high_key_ rn /\ sibling_ n' = sibling_ rn
         /\ merged = Some (encode_convert T (high_key_ n))
         /\ exists rn', mr = Some (ra, rn') /\ leaf_wf T rn' (Control.merged_fields g)
              /\ content rn' = ∅ /\ sibling_ rn' = Some this
       else content n' = delete key (content n)
         /\ high_key_ n' = high_key_ n /\ sibling_ n' = sibling_ n
         /\ merged = None /\ mr = None.
Proof. exact (remove_content T mem this n f key ra rn g). Qed.

(** C26: [kv_sort] makes the leaf ordered without changing its pairs: the slots are filled from 0 by increasing key. [bound] of the ordered leaf: a lower bound is always the least pair whose key is not below the key; an upper bound is the least pair above it, unless the key is the greatest of the leaf. Then the pair the code builds at line 444 is dropped, and what it reads is the slot after the last one: past the array in a full leaf, an indeterminate pointer if the slot was never written, and the right answer (null) only if the slot happens to hold null. *)
Theorem leaf_order_correct {V} (T : ktype) (n : leaf V) (f : Control.fields) (raw_tags : list Z) :
  leaf_wf T n f -> length raw_tags = 64%nat -> Forall is_byte raw_tags ->
  exists n' f', kv_sort T n raw_tags = Some n' /\ leaf_wf T n' f'
    /\ Control.f_ordered f' = true /\ sorted_slots n' /\ content n' = content n
    /\ high_key_ n' = high_key_ n /\ sibling_ n' = sibling_ n
    /\ forall key upper,
         let last := popcount 64 (bitmap_ n') in
         if upper && bool_decide (kv_key <$> entry_at n' (last - 1) = Some key) then
           bound T n' key upper = (let* next := load_kv n' last in Some (next, last))
           /\ is_bound n' key upper None
         else
           exists o pos, bound T n' key upper = Some (o, pos) /\ is_bound n' key upper o
             /\ (forall kv, o = Some kv -> kv_at n' pos kv).
Proof.
  intros Hn Hl Hb. destruct (kv_sort_content T n f raw_tags Hn Hl Hb) as (n' & f' & E & H1 & H2 & H3 & H4 & H5 & H6).
  exists n', f'. do 7 (split; [done|]). intros key upper. by apply (bound_content T n' f').
Qed.

(** ** The properties at concrete leaves *)

Lemma LeafNode_leaf_wf {V} (T : kcode) `{!CodeOk T} raw_tags :
  length raw_tags = 64%nat -> Forall is_byte raw_tags ->
  leaf_wf T (@LeafNode V T raw_tags) (new_fields false).
Proof.
  intros Hl Hb. destruct (LeafNode_wf (V := V) T raw_tags Hl Hb) as (H1 & H2 & H3).
  split; try done. by apply (zero_in_range T).
Qed.

(** a leaf with a sibling at [s] and high key [h] *)
Definition link_leaf {V} (n : leaf V) (f : Control.fields) (h s : Z) : leaf V :=
  set_sibling_ (set_high (set_control n (Control.encode (Control.with_sibling f true))) h) (Some s).

Lemma link_leaf_wf {V} (T : kcode) (n : leaf V) f h s :
  leaf_wf T n f -> kc_range T h -> (forall x, has n x -> kv_key x <= h) ->
  leaf_wf T (link_leaf n f h s) (Control.with_sibling f true).
Proof.
  intros [Hn Hw Hv Hl Hh Hb Ho] Hin Hle. split; [by destruct Hn|done|done|done|done|intros x _; apply Hle|done].
Qed.

(** the leaf that [upsert] of two keys builds *)
Definition ex_kv (k : Z) : kvpair unit := mkKV (4096 + k) k tt.
Definition ex_raw : list Z := replicate 64 7.
Definition ex_upsert (n : leaf unit) (k : Z) : leaf unit :=
  match upsert KU64 n (ex_kv k) 0 ex_raw with Some r => u_this r | None => n end.
Definition ex_leaf (a b : Z) : leaf unit := ex_upsert (ex_upsert (LeafNode KU64 ex_raw) a) b.
Definition ex_fields : Control.fields := touched (touched (new_fields false)).
Definition ex_mem (a : Z) : option (leaf unit) := if a =? 2 then Some (ex_leaf 20 30) else None.

Lemma ex_raw_ok : length ex_raw = 64%nat /\ Forall is_byte ex_raw.
Proof. split; [done|]. apply Forall_forall. intros x [-> _]%elem_of_replicate. done. Qed.

Lemma ex_upsert_ok n f k :
  leaf_wf KU64 n f -> Control.f_sibling f = false -> content n !! k = None -> in_range KU64 k ->
  bitmap_ n <> Z.ones 64 ->
  leaf_wf KU64 (ex_upsert n k) (touched f) /\ (forall x, has (ex_upsert n k) x <-> x = ex_kv k \/ has n x).
Proof.
  intros Hwf Hs Hc Hk Hb. destruct (upsert_simple KU64 n f (ex_kv k) 0 ex_raw) as (n' & E & H1 & H2 & _);
    [done|done| |done|].
  - split; [done|by rewrite Hs|apply ex_raw_ok].
  - unfold ex_upsert. by rewrite E.
Qed.

Lemma ex_leaf_ok a b :
  in_range KU64 a -> in_range KU64 b -> a <> b ->
  leaf_wf KU64 (ex_leaf a b) ex_fields
  /\ (forall x, has (ex_leaf a b) x <-> x = ex_kv b \/ x = ex_kv a).
Proof.
  intros Ha Hb Hne. pose proof ex_raw_ok as [Hl Hr].
  pose proof (LeafNode_leaf_wf (V := unit) KU64 ex_raw Hl Hr) as H0.
  destruct (@LeafNode_wf unit KU64 _ ex_raw Hl Hr) as (_ & Hno & _).
  destruct (ex_upsert_ok (LeafNode KU64 ex_raw) (new_fields false) a) as [H1 Hh1]; [done|done| |done|done|].
  { apply (content_None KU64); [apply H0|]. by intros kv ?%Hno. }
  set (n1 := ex_upsert (LeafNode KU64 ex_raw) a) in *.
  assert (forall x, has n1 x <-> x = ex_kv a) as Hh1' by (intros x; rewrite Hh1; naive_solver).
  destruct (ex_upsert_ok n1 (touched (new_fields false)) b) as [H2 Hh2]; [done|done| |done| |].
  - apply (content_None KU64); [apply H1|]. intros x ->%Hh1'. done.
  - intros E. pose proof (full_used n1 1 E ltac:(lia)) as Hu1.
    pose proof (full_used n1 2 E ltac:(lia)) as Hu2.
    destruct (wf_used KU64 n1 (wf_body _ _ _ H1) 1 Hu1) as (x & Hx & _).
    destruct (wf_used KU64 n1 (wf_body _ _ _ H1) 2 Hu2) as (y & Hy & _).
    assert (x = ex_kv a) as -> by (apply Hh1'; by exists 1).
    assert (y = ex_kv a) as -> by (apply Hh1'; by exists 2).
    pose proof (wf_distinct KU64 n1 (wf_body _ _ _ H1) 1 2 _ _ Hu1 Hu2 Hx Hy eq_refl). done.
  - split; [exact H2|]. intros x. change (ex_leaf a b) with (ex_upsert n1 b). by rewrite Hh2, Hh1'.
Qed.

Lemma ex_keys a b x : 0 <= a < 2 ^ 64 -> 0 <= b < 2 ^ 64 -> a <> b ->
  has (ex_leaf a b) x -> kv_key x = a \/ kv_key x = b.
Proof. intros Ha Hb Hne H. apply ex_leaf_ok in H as [-> | ->]; cbn; auto. Qed.

Definition ex_left : leaf unit := link_leaf (ex_leaf 9 5) ex_fields 10 2.

Lemma ex_left_ok : leaf_wf KU64 ex_left (Control.with_sibling ex_fields true)
  /\ (forall x, has ex_left x <-> x = ex_kv 5 \/ x = ex_kv 9).
Proof.
  destruct (ex_leaf_ok 9 5) as [H Hh]; [done..|]. split; [|done].
  apply link_leaf_wf; [done|done|]. intros x [-> | ->]%Hh; cbn; lia.
Qed.

Lemma ex_sibling_ok : sibling_ok KU64 ex_mem ex_left 2 (ex_leaf 20 30) ex_fields.
Proof.
  destruct (ex_leaf_ok 20 30) as [H Hh]; [done..|]. split; try done.
  - intros x [-> | ->]%Hh; done.
  - by right.
Qed.

Lemma leaf_lookup_correct_witness :
  lookup KU64 ex_left 9 = Some (Some (ex_kv 9))
  /\ exists n', update KU64 ex_left (mkKV 77 9 tt) = Some (Some (ex_kv 9), n')
       /\ content n' !! 9 = Some (mkKV 77 9 tt).
Proof.
  destruct (leaf_lookup_correct KU64 ex_left _ 9 (mkKV 77 9 tt) (proj1 ex_left_ok)) as (E1 & n' & E & _ & Hc & _).
  split; [rewrite E1; by vm_compute|]. exists n'. split; [rewrite E; by vm_compute|]. rewrite Hc. by vm_compute.
Defined.

Lemma leaf_upsert_correct_witness :
  exists r, upsert KU64 ex_left (mkKV 77 6 tt) 3 ex_raw = Some r /\ u_old r = None.
Proof.
  destruct (leaf_upsert_correct KU64 ex_left _ (mkKV 77 6 tt) 3 ex_raw (proj1 ex_left_ok)) as (r & E & Ho & _).
  - split; [done|done|exact ex_raw_ok].
  - exists r. split; [exact E|]. rewrite Ho. by vm_compute.
Defined.

Lemma leaf_remove_correct_witness :
  exists n' rn', remove KU64 ex_mem 1 ex_left 5
    = Some (Some (ex_kv 5), mkMerge n' (Some (2, rn')) (Some (encode_convert KU64 10)))
    /\ content n' !! 30 = Some (ex_kv 30) /\ content rn' = ∅.
Proof.
  destruct (leaf_remove_correct KU64 ex_mem 1 ex_left _ 5 2 (ex_leaf 20 30) ex_fields (proj1 ex_left_ok))
    as (n' & mr & merged & E & _ & H).
  - intros _. exact ex_sibling_ok.
  - assert (content ex_left !! 5 = Some (ex_kv 5)) as Hc by (by vm_compute).
    assert (bool_decide (is_Some (content ex_left !! 5)) && Control.f_sibling (Control.with_sibling ex_fields true)
      && ((popcount 64 (bitmap_ ex_left) - 1 + popcount 64 (bitmap_ (ex_leaf 20 30)) <=? 32)
          || (popcount 64 (bitmap_ ex_left) =? 1)) = true) as Hb by (by vm_compute).
    rewrite Hb in H. rewrite Hc in E.
    destruct H as (H1 & _ & _ & -> & rn' & -> & _ & H2 & _).
    exists n', rn'. split; [exact E|]. split; [|exact H2].
    rewrite H1, lookup_union_r; [by vm_compute|]. rewrite lookup_delete_ne by done. by vm_compute.
Defined.

(** the upper bound of 5 is 9, the one of 9 (the last key) is indeterminate *)
Lemma leaf_order_correct_witness :
  exists n', kv_sort KU64 ex_left ex_raw = Some n' /\ sorted_slots n'
    /\ (exists o pos, bound KU64 n' 5 true = Some (o, pos) /\ is_bound n' 5 true o)
    /\ bound KU64 n' 9 true = None /\ is_bound n' 9 true None.
Proof.
  destruct (leaf_order_correct KU64 ex_left _ ex_raw (proj1 ex_left_ok) (proj1 ex_raw_ok) (proj2 ex_raw_ok))
    as (n' & f' & E & _ & _ & H1 & _ & _ & _ & H2).
  exists n'. split; [exact E|]. split; [exact H1|].
  assert (Some n' = kv_sort KU64 ex_left ex_raw) as En by (symmetry; exact E). vm_compute in En. injection En as ->.
  split.
  - specialize (H2 5 true). cbn zeta in H2.
    match type of H2 with (if ?b then _ else _) => assert (b = false) as Hb by (by vm_compute) end.
    rewrite Hb in H2. destruct H2 as (o & pos & Eb & H & _). exists o, pos. split; [exact Eb|exact H].
  - specialize (H2 9 true). cbn zeta in H2.
    match type of H2 with (if ?b then _ else _) => assert (b = true) as Hb by (by vm_compute) end.
    rewrite Hb in H2. destruct H2 as [Eb H]. split; [rewrite Eb; by vm_compute|exact H].
Defined.
