(* ===== verification/Inner.v ===== *)
(** * The inner node: [InnerNode<K>] of [src/FBTree/inode.h], integer keys

    A key in encoded form is the list of its bytes in memory. The separators are
    stored column-wise: [features[r][j]] is byte [plen + r] of the [j]-th one, whose
    first [plen] bytes are the common prefix. As in [Leaf], an operation is
    sequential code on the node and, for a merge, its sibling. *)

From S2P Require Import Prelude Bits Simd Encode Control Leaf.

(** [children_] cells: [None] is a null or indeterminate pointer *)
Record inode := mkInode {
  icontrol : Z;
  knum : Z;
  plen : Z;
  prefix : list Z;
  next_ : ptr;
  features : list (list Z);
  children : list ptr;
}.

Module Inner.
Section inner.
Context (T : ktype).
Implicit Types (n rn : inode).

(** FBTree/inode.h:100-111 [InnerNode] *)
Definition kNodeSize : Z := kInnerSize (Constant_of T).
Definition kMergeSize : Z := kInnerMergeSize (Constant_of T).
Definition kFeatureSize : Z := Z.of_nat (Encode.kFeatureSize (Constant_of T)).
Definition kBitCnt : Z := 64.

Definition set_control n c := mkInode c (knum n) (plen n) (prefix n) (next_ n) (features n) (children n).
Definition set_knum n k := mkInode (icontrol n) k (plen n) (prefix n) (next_ n) (features n) (children n).
Definition set_plen n p := mkInode (icontrol n) (knum n) p (prefix n) (next_ n) (features n) (children n).
Definition set_prefix n p := mkInode (icontrol n) (knum n) (plen n) p (next_ n) (features n) (children n).
Definition set_next n p := mkInode (icontrol n) (knum n) (plen n) (prefix n) p (features n) (children n).
Definition set_features n f := mkInode (icontrol n) (knum n) (plen n) (prefix n) (next_ n) f (children n).
Definition set_children n c := mkInode (icontrol n) (knum n) (plen n) (prefix n) (next_ n) (features n) c.

Definition on_control n (f : Z -> option Z) : option inode := set_control n <$> f (icontrol n).
Definition update_version n : inode := set_control n (Control.update_version (icontrol n)).
Definition latch_exclusive n : option inode :=
  on_control n (fun c => fst <$> Control.latch_exclusive [(c, c)]).

(** [features_[r][j]], and its assignment *)
Definition feat n (r j : Z) : option Z := let* row := aget (features n) r in aget row j.
Definition set_feat n (r j c : Z) : option inode :=
  let* row := aget (features n) r in
  let* row := aset row j c in
  set_features n <$> aset (features n) r row.

(** storing a key at [prefix_] *)
Definition store_prefix n (mid : list Z) : inode :=
  set_prefix n (mid ++ drop (length mid) (prefix n)).

(** FBTree/inode.h:114-121 [compare_equal] *)
Definition compare_equal (p : list Z) (c : Z) : option Z :=
  if kNodeSize =? 64 then compare_equal_64 Config_kCmpMode p c
  else if kNodeSize =? 32 then compare_equal_32 Config_kCmpMode p c
  else if kNodeSize =? 16 then compare_equal_16 p c
  else None.

(** FBTree/inode.h:123-130 [compare_less] *)
Definition compare_less (p : list Z) (c : Z) : option Z :=
  if kNodeSize =? 64 then compare_less_64 Config_kCmpMode p c
  else if kNodeSize =? 32 then compare_less_32 Config_kCmpMode p c
  else if kNodeSize =? 16 then compare_less_16 p c
  else None.

(** FBTree/inode.h:132-138 [bitmap] *)
Definition bitmap n : option Z :=
  assert* (0 <=? knum n) && (knum n <=? kNodeSize) in
  if kNodeSize =? 64 then
    if knum n =? kNodeSize then Some (w64 (0 - 1))
    else assert* (knum n <? 64) in Some (w64 (Z.shiftl 1 (knum n) - 1))
  else assert* (knum n <? 64) in Some (w64 (Z.shiftl 1 (knum n) - 1)).

(** the fuel of the loops over the bytes of a key *)
Definition byte_fuel : nat := 9.

(** FBTree/inode.h:142-146 [to_next_phase1]

    the first byte where the key leaves the prefix *)
Definition prefix_scan n (key : list Z) : option Z :=
  assert* (0 <=? plen n) && (plen n <=? kFeatureSize) in
  let* (pid, _) :=
    for_break byte_fuel (fun pid (_ : unit) =>
      let* k := aget key pid in
      let* p := aget (prefix n) pid in
      Some (tt, negb (k =? p))) 0 (plen n) tt in
  Some pid.

(** byte [pid] of the key less than [prefix_[pid]]: [char] is signed *)
Definition char_less (key p : list Z) (pid : Z) : option bool :=
  let* k := aget key pid in let* p := aget p pid in Some (schar k <? schar p).

(** FBTree/inode.h:140-163 [to_next_phase1]

    the code it returns, [next] and [to_sibling] *)
Definition to_next_phase1 n (key : list Z) : option (Z * ptr * bool) :=
  let* pid := prefix_scan n key in
  if pid =? plen n then Some (0, None, false)
  else
    let* less := char_less key (prefix n) pid in
    if (less : bool) then
      let* next := aget (children n) 0 in
      assert* bool_decide (is_Some next) in Some (-1, next, false)
    else
      assert* bool_decide (is_Some (next_ n)) in
      Some (1, next_ n, Control.has_sibling (icontrol n)).

(** FBTree/inode.h:165-187 [index_phase1]

    the code, [index], [next] and [to_sibling] *)
Definition index_phase1 n (key : list Z) : option (Z * Z * ptr * bool) :=
  let* pid := prefix_scan n key in
  if pid =? plen n then Some (0, 0, None, false)
  else
    let* less := char_less key (prefix n) pid in
    if (less : bool) then Some (-1, 0, None, false)
    else if negb (Control.has_sibling (icontrol n)) then Some (1, knum n, None, false)
    else Some (1, 0, next_ n, true).

(** FBTree/inode.h:524-533 [to_next]

    the rows compared for equality: the row it stops at, and the candidates *)
Definition equal_rows n (key : list Z) : option (Z * Z) :=
  let* eqmask := bitmap n in
  for_break byte_fuel (fun rid eqmask =>
    let* row := aget (features n) rid in
    let* c := aget key (rid + plen n) in
    let* mask := compare_equal row c in
    let mask := Z.land mask eqmask in
    if mask =? 0 then Some (eqmask, true) else Some (mask, false))
    0 (kFeatureSize - plen n) eqmask.

(** FBTree/inode.h:524-548 [to_next]

    the index of the first separator that is not less than the key *)
Definition search n (key : list Z) : option Z :=
  let* (rid, eqmask) := equal_rows n key in
  if rid + plen n <? kFeatureSize then
    let* row := aget (features n) rid in
    let* c := aget key (rid + plen n) in
    let* mask := compare_less row c in
    let mask := Z.land mask eqmask in
    if mask =? 0 then
      if eqmask =? 0 then Some 0 else Some (index_least1 64 eqmask)
    else
      let* lz := countl_zero 64 mask in Some (kBitCnt - lz)
  else
    assert* (popcount 64 eqmask =? 1) in Some (index_least1 64 eqmask).

(** FBTree/inode.h:507-561 [to_next]

    whether it moves to a sibling, and where *)
Definition to_next n (key : list Z) : option (bool * ptr) :=
  let* (init_version, _) := Control.begin_read [icontrol n] in
  if Control.deleted (icontrol n) then
    assert* bool_decide (is_Some (next_ n)) in Some (true, next_ n)
  else
    let* (pcmp, next, to_sibling) := to_next_phase1 n key in
    let* (next, to_sibling) :=
      if pcmp =? 0 then
        let* idx := search n key in
        if idx =? knum n then Some (next_ n, Control.has_sibling (icontrol n))
        else let* next := aget (children n) idx in Some (next, to_sibling)
      else Some (next, to_sibling) in
    assert* bool_decide (is_Some next) in
    let* (unchanged, _) := Control.end_read [icontrol n] init_version in
    if (unchanged : bool) then Some (to_sibling, next) else None.

(** FBTree/inode.h:563-609 [index_or_sibling]

    [inr next]: it returned true; [inl index]: false *)
Definition index_or_sibling n (key : list Z) : option (Z + Z) :=
  if Control.deleted (icontrol n) then let* next := next_ n in Some (inr next)
  else
    let* (pcmp, index, next, to_sibling) := index_phase1 n key in
    if pcmp =? 0 then
      let* index := search n key in
      (* only the branch that found a lesser separator can be past the last one *)
      if (index =? knum n) && negb (knum n =? 0) && Control.has_sibling (icontrol n)
      then let* next := next_ n in Some (inr next)
      else Some (inl index)
    else if (to_sibling : bool) then let* next := next in Some (inr next)
    else Some (inl index).

(** ** Moving rows, bytes and children *)

(** FBTree/inode.h:242-252 [memmove64]

    word by word, within one array *)
Definition memmove64_within (l : list ptr) (src dst m : Z) (forward : bool) : option (list ptr) :=
  assert* (0 <=? m) && (m <=? kNodeSize) in
  for_range (fun k l =>
    let idx := if forward then k else m - 1 - k in
    let* x := aget l (src + idx) in
    aset l (dst + idx) x) 0 m l.

(** FBTree/inode.h:242-252 [memmove64]

    from one array to another *)
Definition memmove64 (lsrc : list ptr) (src : Z) (ldst : list ptr) (dst m : Z) (forward : bool)
    : option (list ptr) :=
  assert* (0 <=? m) && (m <=? kNodeSize) in
  for_range (fun k l =>
    let idx := if forward then k else m - 1 - k in
    let* x := aget lsrc (src + idx) in
    aset l (dst + idx) x) 0 m ldst.

(** [memmove] of whole rows within [features_] *)
Definition move_rows n (d s m : Z) : option inode :=
  set_features n <$> amove (features n) d (features n) s m.

(** [memmove] of bytes within row [rid] *)
Definition move_in_row n (rid d s m : Z) : option inode :=
  let* row := aget (features n) rid in
  let* row := amove row d row s m in
  set_features n <$> aset (features n) rid row.

(** [memcpy] of bytes of row [rid] of [n] to row [rid] of [rn] *)
Definition copy_row n rn (rid d s m : Z) : option inode :=
  let* src := aget (features n) rid in
  let* dst := aget (features rn) rid in
  let* row := amove dst d src s m in
  set_features rn <$> aset (features rn) rid row.

(** [memset] of the first [m] bytes of row [rid] *)
Definition fill_row n (rid c m : Z) : option inode :=
  let* row := aget (features n) rid in
  let* row := aset_range row c m in
  set_features n <$> aset (features n) rid row.

(** FBTree/inode.h:189-218 [key_insert] *)
Definition key_insert n (mid : list Z) (index : Z) : option inode :=
  if knum n =? 0 then Some (set_plen (store_prefix n mid) kFeatureSize)
  else
    assert* (0 <=? knum n - index) in
    let* n := for_range (fun rid n =>
      let* n := move_in_row n rid (index + 1) index (knum n - index) in
      let* c := aget mid (rid + plen n) in
      set_feat n rid index c) 0 (kFeatureSize - plen n) n in
    assert* (0 <=? plen n) && (plen n <=? kFeatureSize) in
    if (index =? 0) || (index =? knum n) then
      let* (pid, _) := for_break byte_fuel (fun pid (_ : unit) =>
        let* p := aget (prefix n) pid in
        let* c := aget mid pid in
        Some (tt, negb (p =? c))) 0 (plen n) tt in
      if pid <? plen n then
        let* n := move_rows n (plen n - pid) 0 (kFeatureSize - plen n) in
        assert* (knum n + 1 <=? kNodeSize) in
        let* n := for_range (fun rid n =>
          let* p := aget (prefix n) (pid + rid) in
          let* n := fill_row n rid p (knum n + 1) in
          let* c := aget mid (rid + pid) in
          set_feat n rid index c) 0 (plen n - pid) n in
        Some (set_plen n pid)
      else Some n
    else Some n.

(** FBTree/inode.h:228-232 [key_remove]

    the loop that extends the prefix while the bytes of separators 0 and [last]
    agree *)
Definition extend_scan n (last : Z) : option (Z * inode) :=
  for_break byte_fuel (fun pid n =>
    let* a := feat n pid 0 in
    let* b := feat n pid last in
    if negb (a =? b) then Some (n, true)
    else let* p := aset (prefix n) (plen n + pid) a in Some (set_prefix n p, false))
    0 (kFeatureSize - plen n) n.

(** FBTree/inode.h:228-238 [key_remove] *)
Definition extend_prefix n (last : Z) : option inode :=
  let* (pid, n) := extend_scan n last in
  if 0 <? pid then
    assert* (0 <=? kFeatureSize - plen n - pid) in
    let* n := move_rows n 0 pid (kFeatureSize - plen n - pid) in
    Some (set_plen n (plen n + pid))
  else Some n.

(** FBTree/inode.h:220-240 [key_remove] *)
Definition key_remove n (index : Z) : option inode :=
  assert* (2 <=? knum n) && (index <? knum n - 1) in
  let* n := for_range (fun rid n =>
    move_in_row n rid index (index + 1) (knum n - index - 1)) 0 (kFeatureSize - plen n) n in
  if index =? 0 then extend_prefix n (knum n - 2) else Some n.

(** FBTree/inode.h:254-260 [memory_expand]

    the prefix is written out into rows; [plen_] is left for [memory_shrink] *)
Definition memory_expand n : option inode :=
  let* n := move_rows n (plen n) 0 (kFeatureSize - plen n) in
  for_range (fun rid n =>
    let* p := aget (prefix n) rid in
    fill_row n rid p kNodeSize) 0 (plen n) n.

(** FBTree/inode.h:262-270 [memory_shrink] *)
Definition memory_shrink n : option inode :=
  let* (pid, n) := for_break byte_fuel (fun pid n =>
    let* a := feat n pid 0 in
    let* p := aset (prefix n) pid a in
    let n := set_prefix n p in
    let* b := feat n pid (knum n - 1) in
    Some (n, negb (a =? b))) 0 kFeatureSize n in
  let n := set_plen n pid in
  move_rows n 0 pid (kFeatureSize - pid).

(** FBTree/inode.h:478-478 [InnerNode]

    what the allocation finds in the arrays *)
Record raw := mkRaw { raw_prefix : list Z; raw_features : list (list Z); raw_children : list ptr }.
Definition InnerNode (r : raw) : inode :=
  mkInode (Control.Control false) 0 0 (raw_prefix r) None (raw_features r) (raw_children r).

(** FBTree/inode.h:347-350 [split]

    the bytes of separator [j], out of the prefix and the rows *)
Definition read_key n (j : Z) : option (list Z) :=
  mapM (fun rid => if rid <? plen n then aget (prefix n) rid else feat n (rid - plen n) j)
    (seqZ 0 kFeatureSize).

(** ** [insert] *)

(** FBTree/inode.h:282-290 [split]

    the new node gets the new key alone *)
Definition split_append n rn (lchild rchild : ptr) (mid : list Z) : option (inode * inode * Z) :=
  let rn := store_prefix rn mid in
  let rn := set_plen rn kFeatureSize in
  let* c := aset (children rn) 0 lchild in
  let rn := set_children rn c in
  let rn := set_next rn rchild in
  let rn := set_knum rn 1 in
  Some (n, rn, kNodeSize - 1).

(** FBTree/inode.h:291-319 [split]

    the new key goes to the left half *)
Definition split_left n rn (rchild : ptr) (mid : list Z) (index : Z) : option (inode * inode * Z) :=
  let half := kNodeSize / 2 in
  let* n := memory_expand n in
  let* rn := for_range (fun rid rn => copy_row n rn rid 0 half half) 0 kFeatureSize rn in
  let* c := memmove64 (children n) half (children rn) 0 half true in
  let rn := set_children rn c in
  let* n := for_range (fun rid n =>
    let* n := move_in_row n rid (index + 1) index (half - index) in
    let* c := aget mid rid in
    set_feat n rid index c) 0 kFeatureSize n in
  let* c := memmove64_within (children n) index (index + 1) (half - index) false in
  let* c := aset c (index + 1) rchild in
  let n := set_children n c in
  let n := set_knum n (half + 1) in
  let rn := set_knum rn half in
  let* n := memory_shrink n in
  let* rn := memory_shrink rn in
  Some (n, rn, half).

(** FBTree/inode.h:320-345 [split]

    the new key goes to the right half *)
Definition split_right n rn (rchild : ptr) (mid : list Z) (index : Z) : option (inode * inode * Z) :=
  let half := kNodeSize / 2 in
  let* n := memory_expand n in
  let* rn := for_range (fun rid rn =>
    let* rn := copy_row n rn rid 0 half (index - half) in
    let* c := aget mid rid in
    let* rn := set_feat rn rid (index - half) c in
    copy_row n rn rid (index - half + 1) index (kNodeSize - index)) 0 kFeatureSize rn in
  let* c := memmove64 (children n) half (children rn) 0 (index - half + 1) true in
  let* c := aset c (index - half + 1) rchild in
  let* c := memmove64 (children n) (index + 1) c (index - half + 2) (kNodeSize - index - 1) true in
  let rn := set_children rn c in
  let n := set_knum n half in
  let rn := set_knum rn (half + 1) in
  let* n := memory_shrink n in
  let* rn := memory_shrink rn in
  Some (n, rn, half - 1).

(** FBTree/inode.h:272-353 [split]

    the two nodes and the separator between them *)
Definition split n (rnode : Z) (r : raw) (lchild rchild : ptr) (mid : list Z) (index : Z)
    : option (inode * inode * list Z) :=
  let rn := InnerNode r in
  let rn := set_next rn (next_ n) in
  let n := set_next n (Some rnode) in
  let* (n, rn) :=
    if negb (Control.has_sibling (icontrol n))
    then let* n := on_control n Control.set_sibling in Some (n, rn)
    else let* rn := on_control rn Control.set_sibling in Some (n, rn) in
  let* (n, rn, midx) :=
    if index =? kNodeSize then split_append n rn lchild rchild mid
    else if index <? kNodeSize / 2 then split_left n rn rchild mid index
    else split_right n rn rchild mid index in
  let* mid := read_key n midx in
  Some (n, rn, mid).

(** what [insert] leaves: this node, and the new one with the separator *)
Record insert_result : Type := mkInsert {
  i_this : inode;
  i_rnode : option (inode * list Z);
}.

(** FBTree/inode.h:611-631 [insert] *)
Definition insert n (lchild rchild : ptr) (mid : list Z) (index : Z) (rnode : Z) (r : raw)
    : option insert_result :=
  let n := update_version n in
  assert* bool_decide (is_Some lchild) && bool_decide (is_Some rchild)
          && (0 <=? index) && (index <=? knum n) in
  if knum n <? kNodeSize then
    let* n := key_insert n mid index in
    let* n :=
      if negb (index =? knum n) then
        assert* (0 <=? knum n - index - 1) in
        let* c := memmove64_within (children n) (index + 1) (index + 2) (knum n - index - 1) false in
        let* c := aset c (index + 1) rchild in
        Some (set_children n c)
      else
        let* c := aset (children n) index lchild in
        Some (set_next (set_children n c) rchild) in
    Some (mkInsert (set_knum n (knum n + 1)) None)
  else
    let* (n, rn, mid) := split n rnode r lchild rchild mid index in
    Some (mkInsert n (Some (rn, mid))).

(** ** [remove] *)

(** what a removal leaves: this node, the sibling when it was latched, whether it
    was merged, whether the separator above is to be updated, and the separator *)
Record remove_result : Type := mkRemove {
  d_this : inode;
  d_rnode : option (Z * inode);
  d_merged : bool;
  d_up : bool;
  d_mid : list Z;
}.

(** FBTree/inode.h:355-400 [merge] *)
Definition merge (mem : Z -> option inode) (this : Z) n (mid : list Z) : option remove_result :=
  if Control.has_sibling (icontrol n) then
    let* raddr := next_ n in
    let* rn := mem raddr in
    assert* (1 <=? knum n) in
    if (knum n + knum rn <=? kMergeSize) || (knum rn =? 0) then
      let* rn := latch_exclusive rn in
      let rnkey := knum rn in
      let* (n, rn, merged, mid) :=
        if (knum n + rnkey <=? kMergeSize) || (rnkey =? 0) then
          let* mid := read_key n (knum n - 1) in
          let* n := memory_expand n in
          let* rn := memory_expand rn in
          let* n := for_range (fun rid n => copy_row rn n rid (knum n) 0 rnkey) 0 kFeatureSize n in
          let* c := memmove64 (children rn) 0 (children n) (knum n) rnkey true in
          let n := set_children n c in
          let n := set_knum n (knum n + rnkey) in
          let rn := set_knum rn 0 in
          let* n := memory_shrink n in
          let n := set_next n (next_ rn) in
          let rn := set_next rn (Some this) in
          let* n := if negb (Control.has_sibling (icontrol rn))
                    then on_control n Control.clear_sibling else Some n in
          let* rn := on_control rn Control.set_delete in
          Some (n, update_version rn, true, mid)
        else Some (n, rn, false, mid) in
      let* rn := on_control rn Control.unlatch_exclusive in
      Some (mkRemove n (Some (raddr, rn)) merged false mid)
    else Some (mkRemove n None false false mid)
  else Some (mkRemove n None false false mid).

(** FBTree/inode.h:402-415 [bound_extension] *)
Definition bound_extension n : option inode :=
  assert* (1 <=? knum n) in extend_prefix n (knum n - 1).

(** FBTree/inode.h:417-475 [bound_remove] *)
Definition bound_remove (mem : Z -> option inode) (this : Z) n (mid : list Z) (index : Z)
    : option remove_result :=
  if negb (Control.has_sibling (icontrol n)) then
    let* c := aget (children n) index in
    let n := set_next n c in
    let n := set_knum n (knum n - 1) in
    let* n := if knum n =? 0 then Some (set_plen n 0) else bound_extension n in
    Some (mkRemove n None false false mid)
  else
    let* raddr := next_ n in
    let* rn := mem raddr in
    let* rn := latch_exclusive rn in
    let rn := update_version rn in
    let rnkey := knum rn in
    let* (n, rn, merged, up, mid) :=
      if (index + rnkey <=? kMergeSize) || (index =? 0) || (rnkey =? 0) || (rnkey =? 1) then
        let* n := memory_expand n in
        let* rn := memory_expand rn in
        let* n := for_range (fun rid n => copy_row rn n rid index 0 rnkey) 0 kFeatureSize n in
        let* c := memmove64 (children rn) 1 (children n) (knum n)
                    (if rnkey =? 0 then 0 else rnkey - 1) true in
        let n := set_children n c in
        let n := set_knum n (knum n + (rnkey - 1)) in
        let rn := set_knum rn 0 in
        let* n := memory_shrink n in
        let* n := if negb (rnkey =? 0) then Some (set_next n (next_ rn))
                  else let* c := aget (children n) index in Some (set_next n c) in
        let rn := set_next rn (Some this) in
        let* n := if negb (Control.has_sibling (icontrol rn))
                  then on_control n Control.clear_sibling else Some n in
        let* rn := on_control rn Control.set_delete in
        Some (n, rn, true, false, mid)
      else
        let* mid := read_key n (index - 1) in
        let* x := aget (children n) index in
        let* c := aset (children rn) 0 x in
        let rn := set_children rn c in
        let n := set_knum n (knum n - 1) in
        let* n := bound_extension n in
        Some (n, rn, false, true, mid) in
    let* rn := on_control rn Control.unlatch_exclusive in
    Some (mkRemove n (Some (raddr, rn)) merged up mid).

(** FBTree/inode.h:633-653 [remove] *)
Definition remove (mem : Z -> option inode) (this : Z) n (mid : list Z) (index : Z)
    : option remove_result :=
  let n := update_version n in
  assert* (0 <=? index) && (index <? knum n) in
  if index <? knum n - 1 then
    let* n := key_remove n index in
    assert* (0 <=? knum n - index - 2) in
    let* c := memmove64_within (children n) (index + 2) (index + 1) (knum n - index - 2) true in
    let n := set_children n c in
    let n := set_knum n (knum n - 1) in
    assert* (1 <=? knum n) in
    merge mem this n mid
  else
    assert* (index =? knum n - 1) in
    bound_remove mem this n mid index.

(** FBTree/inode.h:655-664 [anchor_update]

    the node, and whether the separator above is to be updated too *)
Definition anchor_update n (mid : list Z) (index : Z) : option (inode * bool) :=
  assert* (0 <=? index) && (index <? knum n) in
  let n := update_version n in
  let* n := memory_expand n in
  let* n := for_range (fun rid n =>
    let* c := aget mid rid in set_feat n rid index c) 0 kFeatureSize n in
  let* n := memory_shrink n in
  Some (n, Control.has_sibling (icontrol n) && (knum n - 1 =? index)).

(** FBTree/inode.h:666-672 [root_remove] *)
Definition root_remove n : option (inode * ptr) :=
  if knum n =? 0 then
    let* n := on_control n Control.set_delete in Some (n, next_ n)
  else Some (n, None).

(** FBTree/inode.h:482-485 [sibling] *)
Definition sibling n : ptr := if Control.has_sibling (icontrol n) then next_ n else None.

(** FBTree/inode.h:487-490 [statistic]

    the increment of [stat["inner num"]] *)
Definition statistic (stat : Z) : Z := stat + 1.

(** FBTree/inode.h:492-505 [exhibit]

    the keys that the debugging output prints *)
Definition exhibit n : option (list Z) :=
  mapM (fun kid =>
    let* key := mapM (fun rid => if rid <? plen n then aget (prefix n) rid
                                 else feat n (rid - plen n) kid) (seqZ 0 kFeatureSize) in
    Some (encode_reconvert T (to_type T (of_bytes key)))) (seqZ 0 (knum n)).
End inner.
End Inner.
