(* ===== verification/InnerSpec.v ===== *)
(** * What the inner node operations do

    The separators a node stands for, the invariant, and the specification of the
    search and of the structural operations of [Inner]. *)

From S2P Require Import Prelude Bits Simd Strings Encode Control Leaf Inner.
Import Inner.

#[local] Opaque for_mask mask_fuel.

(** ** The order of the encoded keys: byte by byte, as signed [char]s *)

Definition key_cmp (a b : list Z) : comparison := lex_cmp (map schar a) (map schar b).
Definition key_lt (a b : list Z) : Prop := key_cmp a b = Lt.

Lemma key_lt_trans a b c : key_lt a b -> key_lt b c -> key_lt a c.
Proof. apply lex_lt_trans. Qed.

Lemma key_lt_irrefl a : ~ key_lt a a.
Proof. apply lex_lt_irrefl. Qed.

Lemma key_cmp_antisym a b : key_cmp b a = CompOpp (key_cmp a b).
Proof. apply lex_cmp_antisym. Qed.

Lemma key_lt_asym a b : key_lt a b -> ~ key_lt b a.
Proof. intros H1 H2. by apply (key_lt_irrefl a), (key_lt_trans a b). Qed.

(** strings of the same length that differ in the first [p] bytes are ordered by them *)
Lemma lex_cmp_take p l1 l2 :
  length l1 = length l2 -> take p l1 <> take p l2 ->
  lex_cmp l1 l2 = lex_cmp (take p l1) (take p l2).
Proof.
  revert p l2. induction l1 as [|a l1 IH]; intros p [|b l2] Hl Hne; try done.
  - destruct p as [|p]; [done|]. cbn in *. destruct (Z.compare_spec a b) as [->|?|?]; [|done|done].
    apply IH; [congruence|]. intros E. apply Hne. by rewrite E.
Qed.

Lemma map_schar_inj a b :
  Forall is_byte a -> Forall is_byte b -> map schar a = map schar b -> a = b.
Proof.
  intros Ha. revert b. induction Ha as [|x a Hx Ha IH]; intros [|y b] Hb E; try done.
  apply Forall_cons in Hb as [Hy Hb]. cbn in E. injection E as E1 E2.
  f_equal; [by apply schar_inj|auto].
Qed.

Lemma key_cmp_take p a b :
  Forall is_byte a -> Forall is_byte b -> length a = length b -> take p a <> take p b ->
  key_cmp a b = key_cmp (take p a) (take p b).
Proof.
  intros Ha Hb Hl Hne. unfold key_cmp. rewrite (lex_cmp_take p).
  - by rewrite !firstn_map.
  - by rewrite !length_map.
  - rewrite !firstn_map. intros E. apply Hne, map_schar_inj; [by apply Forall_take..|done].
Qed.

(** ... and by byte [p], when they agree on the first [p] *)
Lemma key_cmp_at p a b x y :
  take p a = take p b -> a !! p = Some x -> b !! p = Some y -> schar x <> schar y ->
  key_cmp a b = (schar x ?= schar y).
Proof.
  intros E Ha Hb Hne. rewrite <- (take_drop_middle a p x Ha), <- (take_drop_middle b p y Hb), E.
  unfold key_cmp. rewrite !map_app. cbn [map]. by rewrite lex_cmp_diff.
Qed.

(** between two keys that have a prefix, every key has it: a key without it is on
    the same side of all keys with it *)
Lemma key_lt_prefix_l p a b c :
  Forall is_byte a -> Forall is_byte b -> Forall is_byte c ->
  length a = length b -> length a = length c ->
  key_lt a b -> take p b = take p c -> take p a <> take p c -> key_lt a c.
Proof.
  intros Ha Hb Hc L1 L2 Hlt E Hne. unfold key_lt in *.
  rewrite (key_cmp_take p a c) by done. rewrite <- E, <- (key_cmp_take p a b); congruence.
Qed.

Lemma key_lt_prefix_r p a b c :
  Forall is_byte a -> Forall is_byte b -> Forall is_byte c ->
  length a = length b -> length a = length c ->
  key_lt b a -> take p b = take p c -> take p a <> take p c -> key_lt c a.
Proof.
  intros Ha Hb Hc L1 L2 Hlt E Hne. unfold key_lt in *.
  rewrite (key_cmp_take p c a) by (done || congruence).
  rewrite <- E, <- (key_cmp_take p b a); congruence.
Qed.

Section spec.
Context (T : ktype).
Implicit Types (n rn : inode) (r j : Z).

Abbreviation F := (kFeatureSize T).

Lemma F_bounds : 1 <= F <= 8.
Proof. by destruct T. Qed.

Lemma inode_kNodeSize_64 : kNodeSize T = 64.
Proof. by destruct T. Qed.

(** ** The separators of a node *)

Definition row_ok (row : list Z) : Prop := length row = 64%nat /\ Forall is_byte row.

(** the arrays of the node and the ranges of its counters *)
Record shape n : Prop := {
  sh_prefix : length (prefix n) = 8%nat /\ Forall is_byte (prefix n);
  sh_rows : Z.of_nat (length (features n)) = F /\ Forall row_ok (features n);
  sh_children : length (children n) = 64%nat;
  sh_knum : 0 <= knum n <= 64;
  sh_plen : 0 <= plen n <= F;
}.

(** byte [r] of the separator in column [j] *)
Definition byte n r j : option Z :=
  if r <? plen n then aget (prefix n) r else feat n (r - plen n) j.

(** [key] is in column [j] *)
Definition sep_is n j (key : list Z) : Prop :=
  Z.of_nat (length key) = F /\ forall r, 0 <= r < F -> byte n r j = aget key r.

(** the separators: [seps j] is in column [j], and they increase *)
Record seps_ok n (seps : Z -> list Z) : Prop := {
  so_is j : 0 <= j < knum n -> sep_is n j (seps j);
  so_lt i j : 0 <= i < j -> j < knum n -> key_lt (seps i) (seps j);
}.

Lemma row_get n r : shape n -> 0 <= r < F -> exists row, aget (features n) r = Some row /\ row_ok row.
Proof.
  intros [_ [Hl Hr] _ _ _] Hi. destruct (aget_in_range (features n) r) as [row E]; [lia|].
  exists row. split; [done|]. apply aget_Some in E as [_ E]. rewrite Forall_lookup in Hr. eauto.
Qed.

Lemma feat_get n r j :
  shape n -> 0 <= r < F -> 0 <= j < 64 -> exists b, feat n r j = Some b /\ is_byte b.
Proof.
  intros Hs Hr Hj. destruct (row_get n r Hs Hr) as (row & E & Hl & Hb).
  destruct (aget_in_range row j) as [b Eb]; [lia|]. exists b. unfold feat.
  rewrite E, bind_Some. split; [done|]. apply aget_Some in Eb as [_ Eb].
  rewrite Forall_lookup in Hb. eauto.
Qed.

Lemma prefix_get n r : shape n -> 0 <= r < 8 -> exists b, aget (prefix n) r = Some b /\ is_byte b.
Proof.
  intros [[Hl Hb] _ _ _ _] Hr. destruct (aget_in_range (prefix n) r) as [b E]; [lia|].
  exists b. split; [done|]. apply aget_Some in E as [_ E]. rewrite Forall_lookup in Hb. eauto.
Qed.

Lemma byte_get n r j :
  shape n -> 0 <= r < F -> 0 <= j < 64 -> exists b, byte n r j = Some b /\ is_byte b.
Proof.
  intros Hs Hr Hj. pose proof (sh_plen n Hs). pose proof F_bounds. unfold byte.
  destruct (r <? plen n) eqn:E; [apply prefix_get|apply feat_get]; auto with lia.
Qed.

Lemma sep_bytes n j key : shape n -> 0 <= j < 64 -> sep_is n j key -> Forall is_byte key.
Proof.
  intros Hs Hj [Hl Hk]. apply Forall_lookup. intros i x Hi.
  pose proof (lookup_lt_Some _ _ _ Hi). destruct (byte_get n (Z.of_nat i) j) as (b & E & Hb); [done|lia|done|].
  rewrite Hk, aget_nat, Hi in E by lia. by injection E as ->.
Qed.

(** keys of the full length agree when their bytes do *)
Lemma take_eq_iff (p : Z) (a b : list Z) :
  0 <= p -> (Z.to_nat p <= length a)%nat -> length a = length b ->
  take (Z.to_nat p) a = take (Z.to_nat p) b <-> (forall r, 0 <= r < p -> aget a r = aget b r).
Proof.
  intros Hp Hl E. split.
  - intros H r Hr. unfold aget. bfalse (r <? 0).
    rewrite <- (lookup_take_lt a (Z.to_nat p)), H, lookup_take_lt by lia. done.
  - intros H. apply list_eq. intros i. destruct (decide (i < Z.to_nat p)%nat).
    + rewrite !lookup_take_lt by done. specialize (H (Z.of_nat i) ltac:(lia)). by rewrite !aget_nat in H.
    + by rewrite !lookup_take_ge by lia.
Qed.

Lemma full_key_eq (a b : list Z) :
  Z.of_nat (length a) = F -> Z.of_nat (length b) = F ->
  (forall r, 0 <= r < F -> aget a r = aget b r) -> a = b.
Proof.
  intros Ha Hb H. apply take_eq_iff in H; [|lia|lia|lia].
  by rewrite !firstn_all2 in H by lia.
Qed.

Lemma bitmap_spec n : shape n -> bitmap T n = Some (Z.ones (knum n)).
Proof.
  intros Hs. pose proof (sh_knum n Hs) as Hk. unfold bitmap. rewrite inode_kNodeSize_64.
  btrue ((0 <=? knum n) && (knum n <=? 64)). cbn [asserting Z.eqb Pos.eqb].
  destruct (Z.eqb_spec (knum n) 64) as [->|]; [done|]. btrue (knum n <? 64). cbn [asserting].
  f_equal. rewrite Z.ones_equiv, Z.shiftl_1_l, wrap_small; [lia|].
  pose proof (Z.pow_lt_mono_r 2 (knum n) 64). lia.
Qed.

Lemma compare_equal_row row c :
  row_ok row -> is_byte c ->
  exists m, compare_equal T row c = Some m /\ is_u64 m
    /\ forall j, 0 <= j < 64 -> Z.testbit m j = true <-> aget row j = Some c.
Proof.
  intros [Hl Hb] Hc. unfold compare_equal. rewrite inode_kNodeSize_64. cbn [Z.eqb Pos.eqb].
  rewrite compare_equal_64_spec by lia. eexists. split; [done|]. split; [by apply mask1_u64|].
  intros j Hj. rewrite mask1_testbit by (done || lia). btrue (j <? Z.of_nat 64). cbn [andb].
  destruct (aget row j) as [b|] eqn:E; [|done].
  apply aget_Some in E as [_ E]. rewrite Forall_lookup in Hb.
  rewrite on_schar_eqb, Z.eqb_eq by eauto. naive_solver.
Qed.

Lemma compare_less_row row c :
  row_ok row -> is_byte c ->
  exists m, compare_less T row c = Some m /\ is_u64 m
    /\ forall j b, 0 <= j < 64 -> aget row j = Some b -> Z.testbit m j = true <-> schar b < schar c.
Proof.
  intros [Hl Hb] Hc. unfold compare_less. rewrite inode_kNodeSize_64. cbn [Z.eqb Pos.eqb].
  rewrite compare_less_64_spec by lia. eexists. split; [done|]. split; [by apply mask1_u64|].
  intros j b Hj E. rewrite mask1_testbit by (done || lia). btrue (j <? Z.of_nat 64). cbn [andb].
  rewrite E. unfold on_schar. apply Z.ltb_lt.
Qed.

(** ** The search *)

(** [idx] separators are less than the key, and they come first *)
Definition lower_bound n (seps : Z -> list Z) (key : list Z) (idx : Z) : Prop :=
  0 <= idx <= knum n
  /\ (forall j, 0 <= j < idx -> key_lt (seps j) key)
  /\ (forall j, idx <= j < knum n -> ~ key_lt (seps j) key).

Lemma lower_bound_unique n seps key i j :
  lower_bound n seps key i -> lower_bound n seps key j -> i = j.
Proof.
  intros (Hi & Hil & Hig) (Hj & Hjl & Hjg). destruct (Z.lt_trichotomy i j) as [H|[H|H]]; [|done|].
  - destruct (Hig i); [lia|]. apply Hjl. lia.
  - destruct (Hjg j); [lia|]. apply Hil. lia.
Qed.

Section search.
Context n (seps : Z -> list Z) (key : list Z) (Hs : shape n) (Hseps : seps_ok n seps)
  (Hkey : Forall is_byte key) (Hlen : Z.of_nat (length key) = F).

Lemma sep_ok j : 0 <= j < knum n ->
  Forall is_byte (seps j) /\ length (seps j) = length key
  /\ forall r, 0 <= r < F -> byte n r j = aget (seps j) r.
Proof.
  intros Hj. pose proof (sh_knum n Hs) as Hk. pose proof (so_is n seps Hseps j Hj) as [Hl Hb].
  split; [apply (sep_bytes n j); [done|lia|done]|]. split; [lia|done].
Qed.

(** the separator in column [j] agrees with the key on the first [p] bytes *)
Definition agrees (p j : Z) : Prop := 0 <= j < knum n /\ take (Z.to_nat p) (seps j) = take (Z.to_nat p) key.

Lemma agrees_S p j c :
  0 <= p < F -> aget key p = Some c ->
  agrees (p + 1) j <-> agrees p j /\ byte n p j = Some c.
Proof.
  intros Hp Hc. unfold agrees. split.
  - intros [Hj E]. destruct (sep_ok j Hj) as (Hb & Hl & Hby).
    rewrite take_eq_iff in E by lia. rewrite Hby, E, Hc by lia. split; [split; [done|]|done].
    apply take_eq_iff; [lia..|]. intros r Hr. apply E. lia.
  - intros [[Hj E] Hcj]. split; [done|]. destruct (sep_ok j Hj) as (Hb & Hl & Hby).
    rewrite take_eq_iff in E by lia. apply take_eq_iff; [lia..|].
    intros r Hr. destruct (decide (r = p)) as [->|]; [by rewrite <- Hby, Hcj, Hc by lia|apply E; lia].
Qed.

Lemma agrees_all j : agrees F j -> seps j = key.
Proof.
  intros [Hj E]. destruct (sep_ok j Hj) as (_ & Hl & _). by rewrite !firstn_all2 in E by lia.
Qed.

(** the separators that agree are neighbours: one before (after) them that does
    not agree is less (greater) than the key *)
Lemma before_agreeing p i j :
  0 <= p -> 0 <= i < j -> agrees p j -> ~ agrees p i -> key_lt (seps i) key.
Proof.
  intros Hp Hij [Hj E] Hni.
  destruct (sep_ok j Hj) as (Hbj & Hlj & _), (sep_ok i ltac:(lia)) as (Hbi & Hli & _).
  apply (key_lt_prefix_l (Z.to_nat p) _ (seps j)); try done; [congruence| |].
  - apply (so_lt n seps Hseps); lia.
  - intros E'. apply Hni. split; [lia|done].
Qed.

Lemma after_agreeing p i j :
  0 <= p -> 0 <= j < i -> i < knum n -> agrees p j -> ~ agrees p i -> key_lt key (seps i).
Proof.
  intros Hp Hij Hi [Hj E] Hni.
  destruct (sep_ok j Hj) as (Hbj & Hlj & _), (sep_ok i ltac:(lia)) as (Hbi & Hli & _).
  apply (key_lt_prefix_r (Z.to_nat p) _ (seps j)); try done; [congruence| |].
  - apply (so_lt n seps Hseps); lia.
  - intros E'. apply Hni. split; [lia|done].
Qed.

(** at the byte where no candidate is equal, each is on the side of its byte *)
Lemma agreeing_cmp p j b c :
  0 <= p < F -> agrees p j -> byte n p j = Some b -> aget key p = Some c -> b <> c ->
  key_cmp (seps j) key = (schar b ?= schar c).
Proof.
  intros Hp [Hj E] Hb Hc Hne. destruct (sep_ok j Hj) as (Hbj & Hlj & Hby).
  rewrite Hby in Hb by lia. pose proof Hb as Hb2. pose proof Hc as Hc2.
  apply aget_Some in Hb2 as [_ Hb2], Hc2 as [_ Hc2].
  apply (key_cmp_at (Z.to_nat p)); [done|done|done|]. intros Es. apply Hne.
  rewrite Forall_lookup in Hbj. pose proof (proj1 (Forall_lookup _ _) Hkey) as Hk.
  apply schar_inj; eauto.
Qed.

Lemma agreeing_greater p j c :
  0 <= p < F -> aget key p = Some c -> (forall j, ~ agrees (p + 1) j) -> agrees p j ->
  (forall b, byte n p j = Some b -> ~ schar b < schar c) -> key_lt key (seps j).
Proof.
  intros Hp Hc Hno Haj Hge. pose proof Haj as [Hj _]. pose proof (sh_knum n Hs) as Hk.
  destruct (byte_get n p j Hs Hp ltac:(lia)) as (x & Hx & Hxb).
  assert (x <> c) as Hne by (intros ->; by apply (Hno j), (agrees_S p j c)).
  assert (is_byte c) as Hcb.
  { apply aget_Some in Hc as [_ Hc]. rewrite Forall_lookup in Hkey. eauto. }
  unfold key_lt. rewrite key_cmp_antisym, (agreeing_cmp p j x c) by done.
  assert (schar x <> schar c) by (intros E; by apply Hne, schar_inj).
  destruct (Z.compare_spec (schar x) (schar c)); [done| |done]. by destruct (Hge x Hx).
Qed.

(** the mask of the candidates after the rows up to [rid] *)
Definition mask_is (p mask : Z) : Prop :=
  is_u64 mask /\ forall j, 0 <= j < 64 -> Z.testbit mask j = true <-> agrees p j.

Lemma mask_agrees p mask j : mask_is p mask -> Z.testbit mask j = true -> agrees p j.
Proof.
  intros [Hm H] Ht. apply H; [|done]. destruct (decide (0 <= j < 64)); [done|exfalso].
  destruct (decide (0 <= j)); [|by rewrite Z.testbit_neg_r in Ht by lia].
  rewrite (testbit_above _ 64) in Ht; [done|lia|done|lia].
Qed.

Lemma mask_nonempty p mask : mask_is p mask -> mask <> 0 -> exists j, agrees p j.
Proof.
  intros Hm Hnz. destruct (index_least1_spec mask (proj1 Hm) Hnz) as (_ & Ht & _).
  eexists. by eapply mask_agrees.
Qed.

Lemma mask_empty p j : mask_is p 0 -> ~ agrees p j.
Proof.
  intros [_ H] Ha. pose proof (sh_knum n Hs). destruct Ha as [Hj Ha].
  assert (Z.testbit 0 j = true) as Ht by (apply H; [lia|done]). by rewrite Z.testbit_0_l in Ht.
Qed.

Lemma equal_rows_spec :
  (forall r, 0 <= r < plen n -> aget (prefix n) r = aget key r) ->
  exists rid eqmask, equal_rows T n key = Some (rid, eqmask) /\ 0 <= rid <= F - plen n
    /\ mask_is (rid + plen n) eqmask /\ (eqmask = 0 -> rid = 0 /\ knum n = 0)
    /\ (rid + plen n < F -> forall j, ~ agrees (rid + plen n + 1) j).
Proof.
  intros Hpre. pose proof (sh_plen n Hs) as Hp. pose proof (sh_knum n Hs) as Hk. pose proof F_bounds.
  unfold equal_rows. rewrite bitmap_spec, bind_Some by done.
  pose (P := fun rid eqmask => mask_is (rid + plen n) eqmask /\ (eqmask = 0 -> rid = 0 /\ knum n = 0)).
  pose (Q := fun rid eqmask => P rid eqmask /\ forall j, ~ agrees (rid + plen n + 1) j).
  match goal with |- context [for_break ?fuel ?body ?i ?l ?s] =>
    destruct (for_break_inv P Q fuel body i l s) as (rid & eqmask & E & Hr & Hfin) end.
  - unfold byte_fuel. lia.
  - lia.
  - split.
    + split.
      { rewrite Z.ones_equiv. pose proof (Z.pow_le_mono_r 2 (knum n) 64).
        pose proof (Z.pow_pos_nonneg 2 (knum n)). unfold is_u64. lia. }
      intros j Hj. rewrite ones_testbit by lia. unfold agrees. rewrite Z.add_0_l. split.
      * intros Hjk. assert (0 <= j < knum n) as Hj2 by blia. split; [done|].
        destruct (sep_ok j Hj2) as (_ & Hl & Hby). apply take_eq_iff; [lia..|].
        intros r Hr. rewrite <- Hby, <- Hpre by lia. unfold byte. by btrue (r <? plen n).
      * intros [Hj2 _]. blia.
    + intros E. split; [done|]. destruct (decide (knum n = 0)); [done|].
      rewrite Z.ones_equiv in E. pose proof (Z.pow_gt_1 2 (knum n)). lia.
  - intros rid eqmask Hrid [[Hm64 Hm] Hz].
    destruct (row_get n rid Hs ltac:(lia)) as (row & Erow & Hrow). rewrite Erow, bind_Some.
    destruct (aget_in_range key (rid + plen n)) as [c Ec]; [lia|]. rewrite Ec, bind_Some.
    assert (is_byte c) as Hc.
    { apply aget_Some in Ec as [_ Ec]. rewrite Forall_lookup in Hkey. eauto. }
    destruct (compare_equal_row row c Hrow Hc) as (m & -> & Hm2 & Hmt). rewrite bind_Some.
    assert (mask_is (rid + 1 + plen n) (Z.land m eqmask)) as Hnew.
    { split; [by apply land_u64|]. intros j Hj.
      replace (rid + 1 + plen n) with (rid + plen n + 1) by lia.
      rewrite (agrees_S _ _ c) by (done || lia). rewrite Z.land_spec, andb_true_iff, Hm, Hmt by lia.
      unfold byte. bfalse (rid + plen n <? plen n). unfold feat.
      replace (rid + plen n - plen n) with rid by lia. rewrite Erow, bind_Some. tauto. }
    cbn zeta. destruct (Z.land m eqmask =? 0) eqn:E0.
    + apply Z.eqb_eq in E0. eexists _, true. split; [done|]. split; [done|].
      intros j Hj. rewrite E0 in Hnew. replace (rid + plen n + 1) with (rid + 1 + plen n) in Hj by lia.
      by apply (mask_empty _ _ Hnew) in Hj.
    + apply Z.eqb_neq in E0. eexists _, false. split; [done|]. by split.
  - rewrite E. exists rid, eqmask. split; [done|]. split; [done|].
    destruct Hfin as [[-> [H1 H2]]|[Hlt [[H1 H2] H3]]]; (split; [done|split; [done|]]).
    + lia.
    + done.
Qed.

(** the greatest candidate that is less than the key *)
Lemma search_some_less p c eqmask lessmask h :
  0 <= p < F -> aget key p = Some c -> mask_is p eqmask ->
  (forall j, ~ agrees (p + 1) j) ->
  (forall j, 0 <= j < 64 -> Z.testbit lessmask j = true
     <-> agrees p j /\ exists b, byte n p j = Some b /\ schar b < schar c) ->
  0 <= h < 64 -> Z.testbit lessmask h = true ->
  (forall j, h < j -> Z.testbit lessmask j = false) ->
  lower_bound n seps key (h + 1).
Proof.
  intros Hp Hc Hm Hno Hless Hh Ht Hmax. pose proof (sh_knum n Hs) as Hk.
  apply Hless in Ht as [Ha (b & Hb & Hlt)]; [|done].
  assert (key_lt (seps h) key) as Hhk.
  { unfold key_lt. rewrite (agreeing_cmp p h b c); [|done..|intros ->; lia]. done. }
  pose proof Ha as [Hh2 _]. split; [lia|]. split.
  - intros j Hj. destruct (decide (j = h)) as [->|]; [done|].
    apply (key_lt_trans _ (seps h)); [apply (so_lt n seps Hseps); lia|done].
  - intros j Hj. apply key_lt_asym. destruct (decide (Z.testbit eqmask j = true)) as [He|He].
    + pose proof (mask_agrees p eqmask j Hm He) as Haj.
      apply (agreeing_greater p j c); [done..|]. intros b' Hb' Hlt'.
      assert (Z.testbit lessmask j = true) as Hj2 by (apply Hless; [lia|eauto]).
      rewrite Hmax in Hj2 by lia. done.
    + apply (after_agreeing p j h); [lia|lia|lia|done|].
      intros Haj. apply He, Hm; [lia|done].
Qed.

(** no candidate is less than the key *)
Lemma search_none_less p c eqmask lessmask :
  0 <= p < F -> aget key p = Some c -> mask_is p eqmask -> eqmask <> 0 ->
  (forall j, ~ agrees (p + 1) j) ->
  (forall j, 0 <= j < 64 -> Z.testbit lessmask j = true
     <-> agrees p j /\ exists b, byte n p j = Some b /\ schar b < schar c) ->
  lessmask = 0 ->
  lower_bound n seps key (index_least1 64 eqmask).
Proof.
  intros Hp Hc Hm Hnz Hno Hless ->. pose proof (sh_knum n Hs) as Hk.
  destruct (index_least1_spec eqmask (proj1 Hm) Hnz) as (Hr & Ht & Hmin).
  set (i := index_least1 64 eqmask) in *.
  pose proof (mask_agrees p eqmask i Hm Ht) as Ha. pose proof Ha as [Hi _].
  split; [lia|]. split.
  - intros j Hj. apply (before_agreeing p j i); [lia|lia|done|].
    intros Haj. apply (proj2 Hm j ltac:(lia)) in Haj. rewrite Hmin in Haj by lia. done.
  - intros j Hj. apply key_lt_asym. destruct (decide (Z.testbit eqmask j = true)) as [He|He].
    + pose proof (mask_agrees p eqmask j Hm He) as Haj.
      apply (agreeing_greater p j c); [done..|]. intros b Hb Hlt.
      assert (Z.testbit 0 j = true) as Hj2 by (apply Hless; [lia|eauto]).
      by rewrite Z.testbit_0_l in Hj2.
    + apply (after_agreeing p j i); [lia|split; [lia|]|lia|done|].
      * destruct (decide (i = j)) as [E|]; [|lia]. by rewrite <- E in He.
      * intros Haj. apply He, Hm; [lia|done].
Qed.

(** every row agrees: the key is the one candidate *)
Lemma search_equal eqmask :
  mask_is F eqmask -> eqmask <> 0 ->
  popcount 64 eqmask = 1 /\ lower_bound n seps key (index_least1 64 eqmask)
  /\ seps (index_least1 64 eqmask) = key /\ index_least1 64 eqmask < knum n.
Proof.
  intros Hm Hnz. pose proof (sh_knum n Hs) as Hk.
  destruct (index_least1_spec eqmask (proj1 Hm) Hnz) as (Hr & Ht & Hmin).
  set (i := index_least1 64 eqmask) in *.
  pose proof (mask_agrees F eqmask i Hm Ht) as Ha. pose proof Ha as [Hi _].
  pose proof (agrees_all i Ha) as Ei. split; [|split; [split; [lia|split]|split; [done|lia]]].
  - rewrite (popcount_perm eqmask [i]); [done|apply Hm|apply NoDup_singleton| |].
    + intros j Hj. rewrite list_elem_of_singleton. split; [|by intros ->].
      intros Htj. pose proof (mask_agrees F eqmask j Hm Htj) as Haj. pose proof Haj as [Hj2 _].
      pose proof (agrees_all j Haj) as Ej.
      destruct (Z.lt_trichotomy i j) as [Hlt|[->|Hlt]]; [exfalso|done|exfalso].
      * apply (key_lt_irrefl key). rewrite <- Ei at 1. rewrite <- Ej. apply (so_lt n seps Hseps); lia.
      * apply (key_lt_irrefl key). rewrite <- Ej at 1. rewrite <- Ei. apply (so_lt n seps Hseps); lia.
    + intros j ->%list_elem_of_singleton. lia.
  - intros j Hj. rewrite <- Ei. apply (so_lt n seps Hseps); lia.
  - intros j Hj. rewrite <- Ei. destruct (decide (i = j)) as [->|]; [apply key_lt_irrefl|].
    apply key_lt_asym, (so_lt n seps Hseps); lia.
Qed.

Lemma search_spec :
  (forall r, 0 <= r < plen n -> aget (prefix n) r = aget key r) ->
  (knum n = 0 -> plen n < F) ->
  exists idx, search T n key = Some idx /\ lower_bound n seps key idx.
Proof.
  intros Hpre Hempty. pose proof (sh_plen n Hs) as Hp. pose proof (sh_knum n Hs) as Hk.
  destruct (equal_rows_spec Hpre) as (rid & eqmask & E & Hrid & Hm & Hz & Hno).
  unfold search. rewrite E, bind_Some.
  destruct (rid + plen n <? F) eqn:Elt.
  - destruct (row_get n rid Hs ltac:(lia)) as (row & Erow & Hrow). rewrite Erow, bind_Some.
    destruct (aget_in_range key (rid + plen n)) as [c Ec]; [lia|]. rewrite Ec, bind_Some.
    assert (is_byte c) as Hc.
    { apply aget_Some in Ec as [_ Ec]. rewrite Forall_lookup in Hkey. eauto. }
    destruct (compare_less_row row c Hrow Hc) as (m & -> & Hm2 & Hmt). rewrite bind_Some.
    assert (forall j, 0 <= j < 64 -> Z.testbit (Z.land m eqmask) j = true
      <-> agrees (rid + plen n) j /\ exists b, byte n (rid + plen n) j = Some b /\ schar b < schar c) as Hless.
    { intros j Hj. rewrite Z.land_spec, andb_true_iff, (proj2 Hm) by lia.
      destruct (aget_in_range row j) as [b Eb]; [destruct Hrow; lia|]. rewrite (Hmt j b) by done.
      unfold byte. bfalse (rid + plen n <? plen n). unfold feat.
      replace (rid + plen n - plen n) with rid by lia. rewrite Erow, bind_Some. naive_solver. }
    assert (rid + plen n < F) as Hlt by lia. specialize (Hno Hlt).
    cbn zeta. destruct (Z.land m eqmask =? 0) eqn:E0.
    + apply Z.eqb_eq in E0. destruct (eqmask =? 0) eqn:E1.
      * apply Z.eqb_eq in E1. destruct (Hz E1) as [_ Hk0]. exists 0. split; [done|].
        split; [lia|]. split; lia.
      * apply Z.eqb_neq in E1. eexists. split; [done|].
        apply (search_none_less (rid + plen n) c eqmask (Z.land m eqmask)); done || lia.
    + apply Z.eqb_neq in E0.
      destruct (countl_zero_spec (Z.land m eqmask)) as (lz & -> & Hlz & Ht & Hmax); [by apply land_u64|done|].
      rewrite bind_Some. eexists. split; [done|]. unfold kBitCnt.
      replace (64 - lz) with (63 - lz + 1) by lia.
      apply (search_some_less (rid + plen n) c eqmask (Z.land m eqmask)); done || lia.
  - assert (rid + plen n = F) as EF by lia. rewrite EF in Hm.
    assert (eqmask <> 0) as Hnz.
    { intros Ez. destruct (Hz Ez) as [-> Hk0]. specialize (Hempty Hk0). lia. }
    destruct (search_equal eqmask Hm Hnz) as (-> & Hlb & _).
    cbn [Z.eqb Pos.eqb asserting]. eexists. by split.
Qed.

(** ** The prefix *)

Lemma prefix_scan_spec :
  exists pid, prefix_scan T n key = Some pid /\ 0 <= pid <= plen n
    /\ (forall r, 0 <= r < pid -> aget (prefix n) r = aget key r)
    /\ (pid < plen n -> exists k p, aget key pid = Some k /\ aget (prefix n) pid = Some p
          /\ is_byte k /\ is_byte p /\ k <> p).
Proof.
  pose proof (sh_plen n Hs) as Hp. pose proof F_bounds. unfold prefix_scan.
  btrue ((0 <=? plen n) && (plen n <=? F)). cbn [asserting].
  pose (P := fun pid (_ : unit) => forall r, 0 <= r < pid -> aget (prefix n) r = aget key r).
  pose (Q := fun pid (u : unit) => P pid u /\ exists k p, aget key pid = Some k
    /\ aget (prefix n) pid = Some p /\ is_byte k /\ is_byte p /\ k <> p).
  match goal with |- context [for_break ?fuel ?body ?i ?l ?s] =>
    destruct (for_break_inv P Q fuel body i l s) as (pid & u & E & Hr & Hfin) end.
  - unfold byte_fuel. lia.
  - lia.
  - intros r Hr. lia.
  - intros pid u Hpid HP.
    destruct (aget_in_range key pid) as [k Ek]; [lia|]. rewrite Ek, bind_Some.
    destruct (prefix_get n pid Hs ltac:(lia)) as (q & Eq & Hq). rewrite Eq, bind_Some.
    eexists _, _. split; [done|]. destruct (Z.eqb_spec k q) as [->|Hne]; cbn [negb].
    + intros r Hr. destruct (decide (r = pid)) as [->|]; [congruence|apply HP; lia].
    + split; [done|]. exists k, q. do 2 (split; [done|]). split; [|done].
      apply aget_Some in Ek as [_ Ek]. rewrite Forall_lookup in Hkey. eauto.
  - rewrite E, bind_Some. exists pid. split; [done|]. split; [done|].
    destruct Hfin as [[-> HP]|[Hlt [HP HQ]]]; (split; [done|]); [lia|done].
Qed.

(** a key that leaves the prefix is on one side of every separator *)
Lemma prefix_side pid k p :
  0 <= pid < plen n -> (forall r, 0 <= r < pid -> aget (prefix n) r = aget key r) ->
  aget key pid = Some k -> aget (prefix n) pid = Some p -> is_byte k -> is_byte p -> k <> p ->
  (schar k < schar p -> lower_bound n seps key 0)
  /\ (schar p < schar k -> lower_bound n seps key (knum n)).
Proof.
  intros Hpid Hpre Hk Hp Hbk Hbp Hne. pose proof (sh_plen n Hs). pose proof (sh_knum n Hs) as Hkn.
  assert (forall j, 0 <= j < knum n -> key_cmp (seps j) key = (schar p ?= schar k)) as Hcmp.
  { intros j Hj. destruct (sep_ok j Hj) as (Hb & Hl & Hby).
    assert (aget (seps j) pid = Some p) as Hsp.
    { rewrite <- Hby by lia. unfold byte. by btrue (pid <? plen n). }
    pose proof Hsp as Hsp2. pose proof Hk as Hk2.
    apply aget_Some in Hsp2 as [_ Hsp2], Hk2 as [_ Hk2].
    apply (key_cmp_at (Z.to_nat pid)); [|done|done|intros E; by apply Hne; symmetry; apply schar_inj].
    apply take_eq_iff; [lia..|]. intros r Hr. rewrite <- Hby, <- Hpre by lia.
    unfold byte. by btrue (r <? plen n). }
  split; intros Hlt; (split; [lia|split]).
  - lia.
  - intros j Hj. unfold key_lt. rewrite Hcmp by done.
    destruct (Z.compare_spec (schar p) (schar k)); lia || done.
  - intros j Hj. unfold key_lt. rewrite Hcmp by done.
    destruct (Z.compare_spec (schar p) (schar k)); lia || done.
  - lia.
Qed.
End search.

(** ** The invariant of a node, and its links *)

Record inode_wf n (f : Control.fields) (seps : Z -> list Z) : Prop := {
  iw_shape : shape n;
  iw_seps : seps_ok n seps;
  iw_word : icontrol n = Control.encode f;
  iw_valid : Control.valid f;
  iw_inner : Control.f_leaf f = false;
  iw_empty : knum n = 0 -> plen n = 0;
}.

Record linked n : Prop := {
  li_children j : 0 <= j < knum n -> exists a, aget (children n) j = Some (Some a);
  li_next : exists a, next_ n = Some a;
}.

(** where the key goes: a child, or past the last separator *)
Definition route n (idx : Z) : option ptr :=
  if idx =? knum n then Some (next_ n) else aget (children n) idx.

Lemma inode_reads n f :
  Control.valid f -> icontrol n = Control.encode f ->
  Control.has_sibling (icontrol n) = Control.f_sibling f
  /\ Control.deleted (icontrol n) = Control.f_deleted f
  /\ Control.is_leaf (icontrol n) = Control.f_leaf f.
Proof. intros Hf ->. by apply Control.reads_encode. Qed.

Lemma begin_read_eq n f :
  Control.valid f -> icontrol n = Control.encode f -> Control.f_locked f = false ->
  Control.begin_read [icontrol n] = Some (Control.load_version (icontrol n), []).
Proof. intros Hf -> Hl. by apply Control.begin_read_encode. Qed.

Lemma end_read_eq n f :
  Control.valid f -> icontrol n = Control.encode f -> Control.f_locked f = false ->
  Control.end_read [icontrol n] (Control.load_version (icontrol n)) = Some (true, []).
Proof. intros Hf -> Hl. by apply Control.end_read_encode. Qed.

Lemma to_next_spec n f seps key :
  inode_wf n f seps -> Control.f_locked f = false -> Control.f_deleted f = false -> linked n ->
  Forall is_byte key -> Z.of_nat (length key) = F ->
  exists idx next, lower_bound n seps key idx /\ route n idx = Some (Some next)
    /\ to_next T n key = Some ((idx =? knum n) && Control.f_sibling f, Some next).
Proof.
  intros [Hs Hseps Hw Hv _ Hempty] Hlk Hdel [Hch [nx Hnx]] Hkey Hlen.
  pose proof (sh_knum n Hs) as Hk. pose proof (sh_plen n Hs) as Hp. pose proof F_bounds.
  unfold to_next. rewrite (begin_read_eq n f), bind_Some by done.
  destruct (inode_reads n f Hv Hw) as (Hsib & Hd & _). rewrite Hd, Hdel.
  unfold to_next_phase1.
  destruct (prefix_scan_spec n key Hs Hkey Hlen) as (pid & -> & Hpid & Hpre & Hbreak).
  rewrite bind_Some.
  destruct (Z.eqb_spec pid (plen n)) as [->|Hne].
  - rewrite bind_Some. cbn [Z.eqb].
    destruct (search_spec n seps key Hs Hseps Hkey Hlen Hpre) as (idx & -> & Hlb);
      [intros E; rewrite (Hempty E); lia|].
    rewrite bind_Some. pose proof Hlb as [Hidx _].
    destruct (Z.eqb_spec idx (knum n)) as [->|Hne].
    + rewrite bind_Some, Hnx, bool_decide_true by eauto. cbn [asserting].
      rewrite (end_read_eq n f), bind_Some, Hsib by done.
      exists (knum n), nx. unfold route. by rewrite !Z.eqb_refl, Hnx.
    + destruct (Hch idx ltac:(lia)) as [a Ha]. rewrite Ha, !bind_Some, bool_decide_true by eauto.
      cbn [asserting]. rewrite (end_read_eq n f), bind_Some by done.
      exists idx, a. unfold route. by bfalse (idx =? knum n).
  - destruct (Hbreak ltac:(lia)) as (k & p & Ek & Ep & Hbk & Hbp & Hkp).
    unfold char_less. rewrite Ek, bind_Some, Ep, !bind_Some.
    destruct (prefix_side n seps key Hs Hseps Hlen pid k p) as [Hl Hr]; [lia|done..|].
    assert (knum n <> 0) as Hk0 by (intros E; rewrite (Hempty E) in Hne; lia).
    destruct (Z.ltb_spec (schar k) (schar p)) as [Hlt|Hge].
    + destruct (Hch 0 ltac:(lia)) as [a Ha]. rewrite Ha, bind_Some, bool_decide_true by eauto.
      cbn [asserting]. rewrite !bind_Some. cbn [Z.eqb].
      rewrite bind_Some, bool_decide_true by eauto. cbn [asserting].
      rewrite (end_read_eq n f), bind_Some by done.
      exists 0, a. split; [by apply Hl|]. unfold route. by bfalse (0 =? knum n).
    + rewrite Hnx, bool_decide_true by eauto. cbn [asserting].
      rewrite !bind_Some. cbn [Z.eqb]. rewrite bind_Some, bool_decide_true by eauto. cbn [asserting].
      rewrite (end_read_eq n f), bind_Some, Hsib by done.
      exists (knum n), nx. split; [|unfold route; by rewrite !Z.eqb_refl, Hnx].
      apply Hr. assert (schar k <> schar p) by (intros E; by apply Hkp, schar_inj). lia.
Qed.

Lemma index_or_sibling_spec n f seps key :
  inode_wf n f seps -> Control.f_deleted f = false ->
  (Control.f_sibling f = true -> exists a, next_ n = Some a) ->
  Forall is_byte key -> Z.of_nat (length key) = F ->
  exists idx, lower_bound n seps key idx
    /\ index_or_sibling T n key =
         (if (idx =? knum n) && negb (knum n =? 0) && Control.f_sibling f
          then inr <$> next_ n else Some (inl idx)).
Proof.
  intros [Hs Hseps Hw Hv _ Hempty] Hdel Hnx Hkey Hlen.
  pose proof (sh_knum n Hs) as Hk. pose proof (sh_plen n Hs) as Hp. pose proof F_bounds.
  unfold index_or_sibling. destruct (inode_reads n f Hv Hw) as (Hsib & Hd & _). rewrite Hd, Hdel.
  unfold index_phase1.
  destruct (prefix_scan_spec n key Hs Hkey Hlen) as (pid & -> & Hpid & Hpre & Hbreak).
  rewrite bind_Some. rewrite !Hsib.
  destruct (Z.eqb_spec pid (plen n)) as [->|Hne].
  - rewrite bind_Some. cbn [Z.eqb].
    destruct (search_spec n seps key Hs Hseps Hkey Hlen Hpre) as (idx & -> & Hlb);
      [intros E; rewrite (Hempty E); lia|].
    rewrite bind_Some. exists idx. split; [done|].
    destruct (_ && _ && _); [|done]. by destruct (next_ n).
  - destruct (Hbreak ltac:(lia)) as (k & p & Ek & Ep & Hbk & Hbp & Hkp).
    unfold char_less. rewrite Ek, bind_Some, Ep, !bind_Some.
    destruct (prefix_side n seps key Hs Hseps Hlen pid k p) as [Hl Hr]; [lia|done..|].
    assert (knum n <> 0) as Hk0 by (intros E; rewrite (Hempty E) in Hne; lia).
    destruct (Z.ltb_spec (schar k) (schar p)) as [Hlt|Hge].
    + rewrite bind_Some. cbn [Z.eqb]. exists 0. split; [by apply Hl|]. by bfalse (0 =? knum n).
    + exists (knum n). split.
      { apply Hr. assert (schar k <> schar p) by (intros E; by apply Hkp, schar_inj). lia. }
      rewrite Z.eqb_refl. bfalse (knum n =? 0). cbn [andb negb].
      destruct (Control.f_sibling f); cbn [negb]; rewrite bind_Some; cbn [Z.eqb]; [|done].
      destruct (Hnx eq_refl) as [a ->]. done.
Qed.

(** ** Moving columns *)

(** the rows of a node, and a byte of them *)
Definition rows_ok (fs : list (list Z)) : Prop := Z.of_nat (length fs) = F /\ Forall row_ok fs.
Definition cell (fs : list (list Z)) r j : option Z := let* row := aget fs r in aget row j.

(** [fs] holds [g], byte by byte *)
Definition holds (fs : list (list Z)) (g : Z -> Z -> option Z) : Prop :=
  rows_ok fs /\ forall r j, 0 <= r < F -> 0 <= j < 64 -> cell fs r j = g r j.

Lemma rows_get fs r : rows_ok fs -> 0 <= r < F -> exists row, aget fs r = Some row /\ row_ok row.
Proof.
  intros [Hl Hr] Hi. destruct (aget_in_range fs r) as [row E]; [lia|].
  exists row. split; [done|]. by eapply Forall_aget.
Qed.

(** replacing one row *)
Lemma set_row fs r row g :
  rows_ok fs -> 0 <= r < F -> row_ok row ->
  (forall j, 0 <= j < 64 -> aget row j = g r j) ->
  (forall r' j, r' <> r -> 0 <= r' < F -> 0 <= j < 64 -> cell fs r' j = g r' j) ->
  exists fs', aset fs r row = Some fs' /\ holds fs' g.
Proof.
  intros [Hl Hf] Hr Hrow Hg Hg'. rewrite aset_in_range by lia. eexists. split; [done|]. split.
  - split; [by rewrite length_insert|by apply Forall_insert].
  - intros r' j Hr' Hj. unfold cell. rewrite aget_insert by lia.
    destruct (Z.eqb_spec r r') as [<-|Hne]; [rewrite bind_Some; auto|].
    fold (cell fs r' j). apply Hg'; auto.
Qed.

Lemma set_feat_spec n r j c :
  rows_ok (features n) -> 0 <= r < F -> 0 <= j < 64 -> is_byte c ->
  exists fs, set_feat n r j c = Some (set_features n fs)
    /\ holds fs (fun r' j' => if (r' =? r) && (j' =? j) then Some c else cell (features n) r' j').
Proof.
  intros Hf Hr Hj Hc. destruct (rows_get _ r Hf Hr) as (row & E & Hl & Hb).
  unfold set_feat. rewrite E, bind_Some, aset_in_range, bind_Some by lia.
  edestruct (set_row (features n) r (<[Z.to_nat j := c]> row)) as (fs & -> & H); [done|done| | | |].
  - split; [by rewrite length_insert|by apply Forall_insert].
  - intros j' Hj'. rewrite aget_insert by lia.
    instantiate (1 := fun r' j' => if (r' =? r) && (j' =? j) then Some c else cell (features n) r' j').
    cbn beta. rewrite Z.eqb_refl, Z.eqb_sym. cbn [andb].
    destruct (j' =? j); [done|]. unfold cell. by rewrite E.
  - intros r' j' Hne _ _. cbn beta. by bfalse (r' =? r).
  - by exists fs.
Qed.

Lemma move_in_row_spec n rid d s m :
  rows_ok (features n) -> 0 <= rid < F -> 0 <= d -> 0 <= s -> 0 <= m -> d + m <= 64 -> s + m <= 64 ->
  exists fs, move_in_row n rid d s m = Some (set_features n fs)
    /\ holds fs (fun r j => if (r =? rid) && (d <=? j) && (j <? d + m)
                           then cell (features n) r (s + (j - d)) else cell (features n) r j).
Proof.
  intros Hf Hr Hd Hs Hm Hdm Hsm. destruct (rows_get _ rid Hf Hr) as (row & E & Hl & Hb).
  unfold move_in_row. rewrite E, bind_Some.
  destruct (amove_get row d row s m) as (row' & E' & Hl' & Hg'); [lia..|]. rewrite E', bind_Some.
  edestruct (set_row (features n) rid row') as (fs & -> & H); [done|done| | | |].
  - split; [congruence|by eapply amove_Forall].
  - intros j Hj. rewrite Hg' by lia.
    instantiate (1 := fun r j => if (r =? rid) && (d <=? j) && (j <? d + m)
                           then cell (features n) r (s + (j - d)) else cell (features n) r j).
    cbn beta. rewrite Z.eqb_refl. cbn [andb]. unfold cell. rewrite E, !bind_Some. done.
  - intros r j Hne _ _. cbn beta. by bfalse (r =? rid).
  - by exists fs.
Qed.

Lemma copy_row_spec n rn rid d s m :
  rows_ok (features n) -> rows_ok (features rn) ->
  0 <= rid < F -> 0 <= d -> 0 <= s -> 0 <= m -> d + m <= 64 -> s + m <= 64 ->
  exists fs, copy_row n rn rid d s m = Some (set_features rn fs)
    /\ holds fs (fun r j => if (r =? rid) && (d <=? j) && (j <? d + m)
                           then cell (features n) r (s + (j - d)) else cell (features rn) r j).
Proof.
  intros Hf Hf' Hr Hd Hs Hm Hdm Hsm. destruct (rows_get _ rid Hf Hr) as (row & E & Hl & Hb).
  destruct (rows_get _ rid Hf' Hr) as (row2 & E2 & Hl2 & Hb2).
  unfold copy_row. rewrite E, bind_Some, E2, bind_Some.
  destruct (amove_get row2 d row s m) as (row' & E' & Hl' & Hg'); [lia..|]. rewrite E', bind_Some.
  edestruct (set_row (features rn) rid row') as (fs & -> & H); [done|done| | | |].
  - split; [congruence|by eapply amove_Forall].
  - intros j Hj. rewrite Hg' by lia.
    instantiate (1 := fun r j => if (r =? rid) && (d <=? j) && (j <? d + m)
                           then cell (features n) r (s + (j - d)) else cell (features rn) r j).
    cbn beta. rewrite Z.eqb_refl. cbn [andb]. unfold cell. rewrite E, E2, !bind_Some. done.
  - intros r j Hne _ _. cbn beta. by bfalse (r =? rid).
  - by exists fs.
Qed.

Lemma fill_row_spec n rid c m :
  rows_ok (features n) -> 0 <= rid < F -> 0 <= m <= 64 -> is_byte c ->
  exists fs, fill_row n rid c m = Some (set_features n fs)
    /\ holds fs (fun r j => if (r =? rid) && (j <? m) then Some c else cell (features n) r j).
Proof.
  intros Hf Hr Hm Hc. destruct (rows_get _ rid Hf Hr) as (row & E & Hl & Hb).
  unfold fill_row. rewrite E, bind_Some.
  destruct (aset_range_get row c m) as (row' & E' & Hl' & Hg'); [lia|]. rewrite E', bind_Some.
  edestruct (set_row (features n) rid row') as (fs & -> & H); [done|done| | | |].
  - split; [congruence|by eapply aset_range_Forall].
  - intros j Hj. rewrite Hg' by lia.
    instantiate (1 := fun r j => if (r =? rid) && (j <? m) then Some c else cell (features n) r j).
    cbn beta. rewrite Z.eqb_refl. cbn [andb]. unfold cell. by rewrite E, bind_Some.
  - intros r j Hne _ _. cbn beta. by bfalse (r =? rid).
  - by exists fs.
Qed.

Lemma move_rows_spec n d s m :
  rows_ok (features n) -> 0 <= d -> 0 <= s -> 0 <= m -> d + m <= F -> s + m <= F ->
  exists fs, move_rows n d s m = Some (set_features n fs)
    /\ holds fs (fun r j => if (d <=? r) && (r <? d + m)
                           then cell (features n) (s + (r - d)) j else cell (features n) r j).
Proof.
  intros Hf Hd Hs Hm Hdm Hsm. pose proof Hf as [Hl Hr]. unfold move_rows.
  destruct (amove_get (features n) d (features n) s m) as (fs & E & Hl' & Hg); [lia..|].
  rewrite E. exists fs. split; [done|]. split.
  - split; [congruence|by eapply amove_Forall].
  - intros r j Hr' Hj. unfold cell at 1. rewrite Hg by lia. by destruct (_ && _).
Qed.

Lemma shape_rows n : shape n -> rows_ok (features n).
Proof. by intros [_ ? _ _ _]. Qed.

Lemma set_features_twice n a b : set_features (set_features n a) b = set_features n b.
Proof. done. Qed.

Lemma set_features_self n : set_features n (features n) = n.
Proof. by destruct n. Qed.

(** ** [memory_expand]: the separators in full columns *)

Lemma memory_expand_spec n :
  shape n -> exists fs, memory_expand T n = Some (set_features n fs) /\ holds fs (byte n).
Proof.
  intros Hs. pose proof (sh_plen n Hs) as Hp. pose proof F_bounds. unfold memory_expand.
  destruct (move_rows_spec n (plen n) 0 (F - plen n)) as (fs0 & E0 & Hf0 & Hc0);
    [by apply shape_rows|lia..|].
  rewrite E0, bind_Some. cbn [plen prefix set_features].
  pose (P := fun rid n' => exists fs, n' = set_features n fs /\ rows_ok fs
    /\ forall r j, 0 <= r < F -> 0 <= j < 64 ->
         (r < rid -> cell fs r j = aget (prefix n) r) /\
         (plen n <= r -> cell fs r j = cell (features n) (r - plen n) j)).
  match goal with |- context [for_range ?body ?lo ?k ?s0] =>
    destruct (for_range_inv P body lo k s0) as (n' & E & fs & -> & Hfs & Hc) end.
  - lia.
  - exists fs0. split; [done|]. split; [done|]. intros r j Hr Hj. split; [lia|].
    intros Hpr. rewrite Hc0 by done. btrue ((plen n <=? r) && (r <? plen n + (F - plen n))).
    done.
  - intros rid n1 Hrid (fs1 & -> & Hf1 & Hc1).
    destruct (prefix_get n rid Hs ltac:(lia)) as (p & Ep & Hpb). cbn [prefix set_features]. rewrite Ep, bind_Some, inode_kNodeSize_64.
    destruct (fill_row_spec (set_features n fs1) rid p 64) as (fs2 & -> & Hf2 & Hc2);
      [done|lia|lia|done|].
    eexists. split; [done|]. exists fs2. split; [done|]. split; [done|].
    intros r j Hr Hj. rewrite Hc2 by done. cbn [features set_features].
    destruct (Z.eqb_spec r rid) as [->|Hne]; cbn [andb].
    + btrue (j <? 64). split; [done|]. lia.
    + destruct (Hc1 r j Hr Hj) as [H1 H2]. split; [intros; apply H1; lia|done].
  - rewrite E. exists fs. split; [done|]. split; [done|]. intros r j Hr Hj.
    destruct (Hc r j Hr Hj) as [H1 H2]. unfold byte. destruct (r <? plen n) eqn:El.
    + apply H1. lia.
    + apply H2. lia.
Qed.

(** ** [memory_shrink]: the common prefix taken out again *)

(** the columns of the rows hold the keys [seps], in increasing order *)
Record columns n (seps : Z -> list Z) : Prop := {
  co_knum : 1 <= knum n <= 64;
  co_rows : rows_ok (features n);
  co_prefix : length (prefix n) = 8%nat /\ Forall is_byte (prefix n);
  co_children : length (children n) = 64%nat;
  co_is j : 0 <= j < knum n -> Z.of_nat (length (seps j)) = F
    /\ forall r, 0 <= r < F -> cell (features n) r j = aget (seps j) r;
  co_lt i j : 0 <= i < j -> j < knum n -> key_lt (seps i) (seps j);
}.

Lemma cell_byte fs r j b : rows_ok fs -> 0 <= r < F -> cell fs r j = Some b -> is_byte b.
Proof.
  intros Hf Hr. destruct (rows_get fs r Hf Hr) as (row & E & _ & Hb). unfold cell.
  rewrite E, bind_Some. by apply Forall_aget.
Qed.

Lemma columns_bytes n seps j : columns n seps -> 0 <= j < knum n -> Forall is_byte (seps j).
Proof.
  intros Hc Hj. destruct (co_is n seps Hc j Hj) as [Hl H]. apply Forall_lookup. intros i x Hi.
  pose proof (lookup_lt_Some _ _ _ Hi). specialize (H (Z.of_nat i) ltac:(lia)).
  rewrite aget_nat, Hi in H. by apply cell_byte in H; [|apply Hc|lia].
Qed.

(** keys between two that share a prefix share it *)
Lemma prefix_between p a b c :
  Forall is_byte a -> Forall is_byte b -> Forall is_byte c ->
  length a = length b -> length b = length c ->
  key_lt a b -> key_lt b c -> take p a = take p c -> take p b = take p a.
Proof.
  intros Ha Hb Hc L1 L2 Hab Hbc E. destruct (decide (take p b = take p a)) as [|Hne]; [done|exfalso].
  apply (key_lt_asym b c); [done|]. apply (key_lt_prefix_r p b a c); try done; congruence.
Qed.

(** in an increasing sequence, if the first and the last key agree on [p] bytes, all do *)
Lemma share_prefix k (seps : Z -> list Z) p j :
  (forall j, 0 <= j < k -> Forall is_byte (seps j) /\ Z.of_nat (length (seps j)) = F) ->
  (forall i j, 0 <= i < j -> j < k -> key_lt (seps i) (seps j)) ->
  0 <= p <= F -> 0 <= j < k ->
  (forall r, 0 <= r < p -> aget (seps 0) r = aget (seps (k - 1)) r) ->
  forall r, 0 <= r < p -> aget (seps j) r = aget (seps 0) r.
Proof.
  intros Hb Hlt Hp Hj H.
  destruct (Hb 0 ltac:(lia)) as [B0 L0], (Hb j Hj) as [Bj Lj], (Hb (k - 1) ltac:(lia)) as [Bl Ll].
  assert (take (Z.to_nat p) (seps j) = take (Z.to_nat p) (seps 0)) as E.
  { apply take_eq_iff in H; [|lia..].
    destruct (decide (j = 0)) as [->|]; [done|]. destruct (decide (j = k - 1)) as [->|]; [done|].
    apply (prefix_between _ (seps 0) (seps j) (seps (k - 1))); try done; try lia; apply Hlt; lia. }
  apply take_eq_iff; [lia..|done].
Qed.

Lemma memory_shrink_spec n seps :
  columns n seps ->
  exists n', memory_shrink T n = Some n' /\ shape n' /\ seps_ok n' seps
    /\ icontrol n' = icontrol n /\ knum n' = knum n /\ next_ n' = next_ n
    /\ children n' = children n.
Proof.
  intros Hc. pose proof F_bounds. pose proof (co_knum n seps Hc) as Hk.
  pose proof (co_prefix n seps Hc) as [Hpl Hpb]. unfold memory_shrink.
  pose (P := fun pid n' => exists pr, n' = set_prefix n pr /\ length pr = 8%nat /\ Forall is_byte pr
    /\ (forall r, 0 <= r < pid -> aget pr r = aget (seps 0) r)
    /\ (forall r, 0 <= r < pid -> aget (seps 0) r = aget (seps (knum n - 1)) r)).
  match goal with |- context [for_break ?fuel ?body ?i ?l ?s0] =>
    destruct (for_break_inv P P fuel body i l s0) as (pid & n1 & E & Hr & Hfin) end.
  - unfold byte_fuel. lia.
  - lia.
  - exists (prefix n). split; [by destruct n|]. do 2 (split; [done|]). split; intros; lia.
  - intros pid n1 Hpid (pr & -> & Hl & Hb & H1 & H2). unfold feat. cbn [features set_prefix].
    fold (cell (features n) pid 0). fold (cell (features n) pid (knum n - 1)).
    destruct (co_is n seps Hc 0 ltac:(lia)) as [L0 Hc0].
    destruct (co_is n seps Hc (knum n - 1) ltac:(lia)) as [Ll Hcl].
    destruct (aget_in_range (seps 0) pid) as [a Ea]; [lia|].
    destruct (aget_in_range (seps (knum n - 1)) pid) as [b Eb]; [lia|].
    rewrite Hc0, Ea, bind_Some by lia. cbn [prefix set_prefix]. rewrite aset_in_range, bind_Some by lia.
    cbn [features set_prefix knum]. fold (cell (features n) pid (knum n - 1)).
    rewrite Hcl, Eb, bind_Some by lia. eexists _, _. split; [done|].
    assert (is_byte a) as Hab.
    { eapply Forall_aget; [|exact Ea]. apply (columns_bytes n seps); [done|lia]. }
    destruct (Z.eqb_spec a b) as [->|Hne]; cbn [negb];
      (eexists; split; [done|]; rewrite length_insert; split; [done|];
       split; [by apply Forall_insert|]; split; [|]).
    + intros r Hr. rewrite aget_insert by lia.
      destruct (Z.eqb_spec pid r) as [<-|]; [done|]. apply H1. lia.
    + intros r Hr. destruct (decide (r = pid)) as [->|]; [congruence|]. apply H2. lia.
    + intros r Hr. rewrite aget_insert by lia. bfalse (pid =? r). apply H1. lia.
    + done.
  - rewrite E, bind_Some. clear E.
    assert (P pid n1) as (pr & -> & Hl & Hb & H1 & H2) by (by destruct Hfin as [[_ ?]|[_ ?]]).
    destruct (move_rows_spec (set_plen (set_prefix n pr) pid) 0 pid (F - pid)) as (fs & -> & Hfs & Hcells);
      [apply Hc|lia..|].
    eexists. split; [done|]. split.
    { split; cbn; [done|apply Hfs|apply Hc|lia|lia]. }
    split; [|done]. split; [|apply Hc]. cbn [knum set_features set_plen set_prefix].
    intros j Hj. destruct (co_is n seps Hc j Hj) as [Lj Hcj]. split; [done|]. intros r Hr'.
    unfold byte. cbn [plen set_features set_plen prefix set_prefix].
    destruct (r <? pid) eqn:El.
    + rewrite H1 by lia. symmetry. apply (share_prefix (knum n) seps pid); try done; try lia.
      * intros i Hi. split; [by apply (columns_bytes n seps)|]. by apply (co_is n seps Hc).
      * apply (co_lt n seps Hc).
    + unfold feat. cbn [features set_features]. fold (cell fs (r - pid) j).
      rewrite Hcells by lia. btrue ((0 <=? r - pid) && (r - pid <? 0 + (F - pid))).
      cbn [features set_plen set_prefix]. rewrite <- Hcj by lia. f_equal. lia.
Qed.
End spec.
