(* ===== verification/InnerOps.v ===== *)
(** * The structural operations of the inner node

    Insertion, split, removal and merge of [Inner], as operations on the sequence of
    separators of a node and on the routes (children) between them. *)

From S2P Require Import Prelude Bits Simd Strings Moves Encode Control Leaf Inner InnerSpec.
Import Inner.

#[local] Opaque for_mask mask_fuel.

(** the first [k] separators increase *)
Abbreviation increasing := (increasing key_lt).

(** ** [memmove64] *)

Section moves.
Context (T : ktype).

Lemma memmove64_spec lsrc src ldst dst m fwd :
  0 <= src -> 0 <= dst -> 0 <= m <= 64 ->
  src + m <= Z.of_nat (length lsrc) -> dst + m <= Z.of_nat (length ldst) ->
  exists l, memmove64 T lsrc src ldst dst m fwd = Some l /\ length l = length ldst
    /\ forall j, 0 <= j -> aget l j = moved ldst lsrc src dst m j.
Proof. rewrite <- (inode_kNodeSize_64 T). apply word_move_spec. Qed.

Lemma memmove64_within_spec l src dst m (fwd : bool) :
  0 <= src -> 0 <= dst -> 0 <= m <= 64 ->
  src + m <= Z.of_nat (length l) -> dst + m <= Z.of_nat (length l) ->
  (if fwd then dst <= src else src <= dst) ->
  exists l', memmove64_within T l src dst m fwd = Some l' /\ length l' = length l
    /\ forall j, 0 <= j -> aget l' j = moved l l src dst m j.
Proof. rewrite <- (inode_kNodeSize_64 T). apply word_move_within_spec. Qed.
End moves.

Section ops.
Context (T : ktype).
Implicit Types (n rn : inode) (r j : Z) (fs : list (list Z)) (seps : Z -> list Z).

Abbreviation F := (kFeatureSize T).
Abbreviation rows_ok := (rows_ok T).
Abbreviation holds := (holds T).
Abbreviation shape := (shape T).

(** a loop that rewrites rows [0] to [m - 1], one at a time *)
Lemma rows_loop n body m (g : Z -> Z -> option Z) :
  rows_ok (features n) -> 0 <= m <= F ->
  (forall rid fs, 0 <= rid < m -> rows_ok fs ->
     (forall j, 0 <= j < 64 -> cell fs rid j = cell (features n) rid j) ->
     exists fs', body rid (set_features n fs) = Some (set_features n fs')
       /\ holds fs' (fun r j => if r =? rid then g r j else cell fs r j)) ->
  exists fs, for_range body 0 m n = Some (set_features n fs)
    /\ holds fs (fun r j => if r <? m then g r j else cell (features n) r j).
Proof.
  intros Hf Hm Hbody.
  pose (P := fun rid n' => exists fs, n' = set_features n fs
    /\ holds fs (fun r j => if r <? rid then g r j else cell (features n) r j)).
  destruct (for_range_inv P body 0 m n) as (n' & E & fs & -> & Hh).
  - lia.
  - exists (features n). split; [by destruct n|]. split; [done|].
    intros r j Hr Hj. by bfalse (r <? 0).
  - intros rid n1 Hrid (fs1 & -> & Hf1 & Hc1).
    destruct (Hbody rid fs1) as (fs2 & E & Hf2 & Hc2); [lia|done| |].
    { intros j Hj. rewrite Hc1 by lia. by bfalse (rid <? rid). }
    eexists. split; [done|]. exists fs2. split; [done|]. split; [done|].
    intros r j Hr Hj. rewrite Hc2 by done. destruct (Z.eqb_spec r rid) as [->|Hne].
    + by btrue (rid <? rid + 1).
    + rewrite Hc1 by done. by replace (r <? rid + 1) with (r <? rid) by (apply eq_true_iff_eq; blia).
  - exists fs. split; [exact E|]. destruct Hh as [H1 H2]. split; [done|].
    intros r j Hr Hj. rewrite H2 by done. done.
Qed.

Lemma set_feat_at n fs r j c :
  rows_ok fs -> 0 <= r < F -> 0 <= j < 64 -> is_byte c ->
  exists fs', set_feat (set_features n fs) r j c = Some (set_features n fs')
    /\ holds fs' (fun r' j' => if (r' =? r) && (j' =? j) then Some c else cell fs r' j').
Proof. intros Hf Hr Hj Hc. apply (set_feat_spec T (set_features n fs)); done. Qed.

Lemma key_byte (mid : list Z) r :
  Forall is_byte mid -> Z.of_nat (length mid) = F -> 0 <= r < F ->
  exists c, aget mid r = Some c /\ is_byte c.
Proof.
  intros Hb Hl Hr. destruct (aget_in_range mid r) as [c E]; [lia|].
  exists c. split; [done|]. by eapply Forall_aget.
Qed.

(** the bytes of one row moved up from [index] on, and the new one put there *)
Lemma open_row n (mid : list Z) rid k index cnt fs :
  rows_ok fs -> 0 <= rid < F -> 0 <= k < F -> 0 <= index -> 0 <= cnt -> index + cnt < 64 ->
  Forall is_byte mid -> Z.of_nat (length mid) = F ->
  exists fs', (let* n := move_in_row (set_features n fs) rid (index + 1) index cnt in
               let* c := aget mid k in set_feat n rid index c) = Some (set_features n fs')
    /\ holds fs' (fun r j => if r =? rid
         then (if j =? index then aget mid k
               else if (index <? j) && (j <=? index + cnt) then cell fs rid (j - 1) else cell fs rid j)
         else cell fs r j).
Proof.
  intros Hf Hr Hk Hi Hc Hic Hb Hl.
  destruct (move_in_row_spec T (set_features n fs) rid (index + 1) index cnt) as (fs1 & E1 & Hf1 & Hc1);
    [done|lia..|].
  rewrite E1, bind_Some. destruct (key_byte mid k Hb Hl Hk) as (c & Ec & Hcb). rewrite Ec, bind_Some.
  destruct (set_feat_at n fs1 rid index c) as (fs2 & E2 & Hf2 & Hc2); [done|lia|lia|done|].
  change (set_features (set_features n fs) fs1) with (set_features n fs1). rewrite E2.
  exists fs2. split; [done|]. split; [done|]. intros r j Hr' Hj. rewrite Hc2, Hc1 by done.
  cbn [features set_features].
  destruct (Z.eqb_spec r rid) as [->|]; cbn [andb]; [|done].
  destruct (Z.eqb_spec j index) as [->|Hne]; [done|].
  replace ((index + 1 <=? j) && (j <? index + 1 + cnt)) with ((index <? j) && (j <=? index + cnt))
    by (apply eq_true_iff_eq; blia).
  destruct ((index <? j) && (j <=? index + cnt)); [f_equal; lia|done].
Qed.

(** ** [key_insert] *)

Section key_insert.
Context n seps (mid : list Z) (index : Z) (Hs : shape n) (Hseps : seps_ok T n seps)
  (Hidx : 0 <= index <= knum n) (Hroom : knum n < 64)
  (Hmid : Forall is_byte mid) (Hlen : Z.of_nat (length mid) = F)
  (Hlt : forall j, 0 <= j < index -> key_lt (seps j) mid)
  (Hgt : forall j, index <= j < knum n -> key_lt mid (seps j)).

Lemma seps_increasing : increasing (knum n) seps.
Proof. intros i j. apply (so_lt T n seps Hseps). Qed.

(** a node with the arrays of the result *)
Lemma inserted_ok n' :
  shape n' -> knum n' = knum n ->
  (forall r j, 0 <= r < F -> 0 <= j <= knum n -> byte n' r j = aget (ins seps index mid j) r) ->
  shape (set_knum n' (knum n + 1)) /\ seps_ok T (set_knum n' (knum n + 1)) (ins seps index mid).
Proof.
  intros Hs' Hk Hby. split; [destruct Hs'; split; cbn; try done; lia|]. split; cbn [knum set_knum].
  - intros j Hj. split; [|intros r Hr; apply Hby; lia]. unfold ins.
    destruct (Z.ltb_spec j index); [apply (so_is T n seps Hseps); lia|].
    destruct (Z.eqb_spec j index); [done|apply (so_is T n seps Hseps); lia].
  - by apply increasing_ins; [apply seps_increasing|..].
Qed.

Lemma sep_bytes_at j : 0 <= j < knum n ->
  Forall is_byte (seps j) /\ Z.of_nat (length (seps j)) = F
  /\ forall r, 0 <= r < F -> byte n r j = aget (seps j) r.
Proof.
  intros Hj. pose proof (sh_knum T n Hs) as Hk.
  destruct (sep_ok T n seps mid Hs Hseps Hlen j Hj) as (H1 & H2 & H3). split; [done|]. split; [lia|done].
Qed.

(** a key put between two separators has the prefix *)
Lemma middle_prefix r :
  0 < index < knum n -> 0 <= r < plen n -> aget (prefix n) r = aget mid r.
Proof.
  intros Hi Hr. pose proof (sh_plen T n Hs).
  destruct (sep_bytes_at (index - 1) ltac:(lia)) as (Hb1 & Hl1 & H1).
  destruct (sep_bytes_at index ltac:(lia)) as (Hb2 & Hl2 & H2).
  assert (forall r, 0 <= r < plen n -> aget (seps (index - 1)) r = aget (seps index) r) as Hsame.
  { intros r' Hr'. rewrite <- H1, <- H2 by lia. unfold byte. by btrue (r' <? plen n). }
  assert (take (Z.to_nat (plen n)) mid = take (Z.to_nat (plen n)) (seps (index - 1))) as E.
  { apply (prefix_between _ (seps (index - 1)) mid (seps index)); try done; try lia.
    - apply Hlt. lia.
    - apply Hgt. lia.
    - apply take_eq_iff; [lia..|done]. }
  rewrite take_eq_iff in E by lia. rewrite E, <- H1 by lia. unfold byte. by btrue (r <? plen n).
Qed.

(** the rows after the first loop *)
Lemma key_insert_rows :
  exists fs, for_range (fun rid n =>
      let* n := move_in_row n rid (index + 1) index (knum n - index) in
      let* c := aget mid (rid + plen n) in set_feat n rid index c) 0 (F - plen n) n
    = Some (set_features n fs) /\ rows_ok fs
  /\ forall r j, plen n <= r < F -> 0 <= j <= knum n ->
       cell fs (r - plen n) j = aget (ins seps index mid j) r.
Proof.
  pose proof (sh_plen T n Hs) as Hp. pose proof (sh_knum T n Hs) as Hk. pose proof (F_bounds T).
  match goal with |- context [for_range ?body _ _ _] =>
    destruct (rows_loop n body (F - plen n) (fun r j =>
      if j =? index then aget mid (r + plen n)
      else if (index <? j) && (j <=? index + (knum n - index)) then cell (features n) r (j - 1)
           else cell (features n) r j)) as (fs & E & Hf & Hc) end.
  - by apply shape_rows.
  - lia.
  - intros rid fs Hrid Hf Hrow. cbn [knum plen set_features].
    destruct (open_row n mid rid (rid + plen n) index (knum n - index) fs) as (fs' & E & Hf' & Hc');
      [done|lia..|done|done|].
    change (knum (set_features n fs)) with (knum n).
    exists fs'. split.
    + rewrite <- E. destruct (move_in_row_spec T (set_features n fs) rid (index + 1) index (knum n - index))
        as (fs1 & E1 & _); [done|lia..|]. by rewrite E1.
    + split; [done|]. intros r j Hr Hj. rewrite Hc' by done.
      destruct (Z.eqb_spec r rid) as [->|]; [|done].
      destruct (Z.eqb_spec j index); [done|].
      destruct (_ && _) eqn:Eb; (rewrite Hrow; [done|blia]).
  - exists fs. split; [exact E|]. split; [done|]. intros r j Hr Hj. rewrite Hc by lia.
    btrue (r - plen n <? F - plen n). unfold ins.
    replace (r - plen n + plen n) with r by lia.
    assert (forall i, 0 <= i < knum n -> cell (features n) (r - plen n) i = aget (seps i) r) as Hcell.
    { intros i Hi. destruct (sep_bytes_at i Hi) as (_ & _ & <-); [|lia]. unfold byte.
      by bfalse (r <? plen n). }
    destruct (Z.eqb_spec j index) as [->|Hne]; [by bfalse (index <? index)|].
    destruct (Z.ltb_spec j index) as [Hj2|Hj2].
    + bfalse ((index <? j) && (j <=? index + (knum n - index))). apply Hcell. lia.
    + btrue ((index <? j) && (j <=? index + (knum n - index))). apply Hcell. lia.
Qed.

(** how far the prefix and the key agree *)
Lemma insert_scan n1 :
  prefix n1 = prefix n -> plen n1 = plen n ->
  exists pid, for_break byte_fuel (fun pid (_ : unit) =>
      let* p := aget (prefix n1) pid in
      let* c := aget mid pid in
      Some (tt, negb (p =? c))) 0 (plen n1) tt = Some (pid, tt)
  /\ 0 <= pid <= plen n /\ forall r, 0 <= r < pid -> aget (prefix n) r = aget mid r.
Proof.
  intros -> ->. pose proof (sh_plen T n Hs) as Hp. pose proof (F_bounds T).
  pose (P := fun pid (_ : unit) => forall r, 0 <= r < pid -> aget (prefix n) r = aget mid r).
  match goal with |- context [for_break ?fuel ?body ?i ?l ?s] =>
    destruct (for_break_inv P P fuel body i l s) as (pid & [] & E & Hr & Hfin) end.
  - unfold byte_fuel. lia.
  - lia.
  - intros r Hr. lia.
  - intros pid u Hpid HP.
    destruct (prefix_get T n pid Hs ltac:(lia)) as (q & Eq & Hq). rewrite Eq, bind_Some.
    destruct (key_byte mid pid Hmid Hlen ltac:(lia)) as (c & Ec & Hc). rewrite Ec, bind_Some.
    eexists _, _. split; [done|]. destruct (Z.eqb_spec q c) as [->|]; cbn [negb]; [|done].
    intros r Hr. destruct (decide (r = pid)) as [->|]; [congruence|apply HP; lia].
  - exists pid. split; [exact E|]. split; [done|]. by destruct Hfin as [[_ ?]|[_ ?]].
Qed.

(** the rows written out for a shorter prefix *)
Lemma shorten_prefix fs pid :
  rows_ok fs -> 0 <= pid < plen n -> 0 < knum n ->
  exists fs', (let* n := move_rows (set_features n fs) (plen n - pid) 0 (F - plen n) in
      assert* (knum n + 1 <=? kNodeSize T) in
      for_range (fun rid n =>
        let* p := aget (prefix n) (pid + rid) in
        let* n := fill_row n rid p (knum n + 1) in
        let* c := aget mid (rid + pid) in
        set_feat n rid index c) 0 (plen n - pid) n) = Some (set_features n fs')
  /\ rows_ok fs'
  /\ forall r j, pid <= r < F -> 0 <= j <= knum n ->
       cell fs' (r - pid) j = if r <? plen n
         then (if j =? index then aget mid r else aget (prefix n) r) else cell fs (r - plen n) j.
Proof.
  intros Hf Hpid Hk0. pose proof (sh_plen T n Hs) as Hp. pose proof (sh_knum T n Hs) as Hk.
  pose proof (F_bounds T).
  destruct (move_rows_spec T (set_features n fs) (plen n - pid) 0 (F - plen n)) as (fs1 & E1 & Hf1 & Hc1);
    [done|lia..|].
  rewrite E1, bind_Some. cbn [knum plen features set_features] in *. rewrite inode_kNodeSize_64.
  btrue (knum n + 1 <=? 64). cbn [asserting].
  change (set_features (set_features n fs) fs1) with (set_features n fs1).
  match goal with |- context [for_range ?body _ _ _] =>
    destruct (rows_loop (set_features n fs1) body (plen n - pid) (fun r j =>
      if j =? index then aget mid (r + pid)
      else if j <? knum n + 1 then aget (prefix n) (r + pid) else cell fs1 r j)) as (fs2 & E2 & Hf2 & Hc2) end.
  - done.
  - lia.
  - intros rid fs3 Hrid Hf3 Hrow. cbn [prefix knum set_features features] in *.
    destruct (prefix_get T n (pid + rid) Hs ltac:(lia)) as (q & Eq & Hq). rewrite Eq, bind_Some.
    destruct (fill_row_spec T (set_features n fs3) rid q (knum n + 1)) as (fs4 & E4 & Hf4 & Hc4);
      [done|lia|lia|done|].
    change (set_features (set_features n fs1) fs3) with (set_features n fs3).
    rewrite E4, bind_Some. cbn [features set_features] in Hc4.
    destruct (key_byte mid (rid + pid) Hmid Hlen ltac:(lia)) as (c & Ec & Hcb). rewrite Ec, bind_Some.
    destruct (set_feat_at n fs4 rid index c) as (fs5 & E5 & Hf5 & Hc5); [done|lia|lia|done|].
    change (set_features (set_features n fs3) fs4) with (set_features n fs4). rewrite E5.
    exists fs5. split; [done|]. split; [done|]. intros r j Hr Hj. rewrite Hc5, Hc4 by done.
    destruct (Z.eqb_spec r rid) as [->|]; cbn [andb]; [|done].
    destruct (Z.eqb_spec j index); [done|]. destruct (j <? knum n + 1) eqn:Ej; [|by rewrite Hrow].
    rewrite <- Eq. f_equal. lia.
  - exists fs2. split; [exact E2|]. split; [done|]. intros r j Hr Hj. rewrite Hc2 by lia.
    destruct (Z.ltb_spec r (plen n)) as [Hrp|Hrp].
    + btrue (r - pid <? plen n - pid). replace (r - pid + pid) with r by lia.
      btrue (j <? knum n + 1). done.
    + bfalse (r - pid <? plen n - pid). cbn [features set_features]. rewrite Hc1 by lia.
      btrue ((plen n - pid <=? r - pid) && (r - pid <? plen n - pid + (F - plen n))). f_equal. lia.
Qed.

Definition key_inserted (o : option inode) : Prop :=
  exists n', o = Some n'
    /\ shape (set_knum n' (knum n + 1)) /\ seps_ok T (set_knum n' (knum n + 1)) (ins seps index mid)
    /\ knum n' = knum n /\ icontrol n' = icontrol n /\ next_ n' = next_ n /\ children n' = children n.

Lemma key_inserted_Some n' :
  shape n' -> knum n' = knum n -> icontrol n' = icontrol n -> next_ n' = next_ n ->
  children n' = children n ->
  (forall r j, 0 <= r < F -> 0 <= j <= knum n -> byte n' r j = aget (ins seps index mid j) r) ->
  key_inserted (Some n').
Proof.
  intros Hs' Hk Hc Hn Hch Hby. destruct (inserted_ok n' Hs' Hk Hby) as [? ?].
  exists n'. by split.
Qed.

(** the prefix stays *)
Lemma key_insert_same_prefix fs :
  rows_ok fs -> 0 < knum n ->
  (forall r j, plen n <= r < F -> 0 <= j <= knum n ->
     cell fs (r - plen n) j = aget (ins seps index mid j) r) ->
  (forall r, 0 <= r < plen n -> aget (prefix n) r = aget mid r) ->
  key_inserted (Some (set_features n fs)).
Proof.
  intros Hf Hk0 Hcell Hpre. apply key_inserted_Some; try done.
  - destruct Hs. by split.
  - intros r j Hr Hj. unfold byte. cbn [plen prefix set_features]. destruct (r <? plen n) eqn:Er.
    + rewrite Hpre by lia. unfold ins.
      assert (forall i, 0 <= i < knum n -> aget (seps i) r = aget mid r) as Hsame.
      { intros i Hi. destruct (sep_bytes_at i Hi) as (_ & _ & <-); [|lia]. unfold byte. rewrite Er.
        apply Hpre. lia. }
      destruct (Z.ltb_spec j index); [by rewrite Hsame by lia|].
      destruct (Z.eqb_spec j index); [done|]. by rewrite Hsame by lia.
    + apply Hcell; lia.
Qed.

Lemma key_insert_spec : key_inserted (key_insert T n mid index).
Proof.
  pose proof (sh_plen T n Hs) as Hp. pose proof (sh_knum T n Hs) as Hk. pose proof (F_bounds T).
  pose proof (sh_prefix T n Hs) as [Hpl Hpb]. unfold key_insert.
  destruct (Z.eqb_spec (knum n) 0) as [E0|E0].
  { apply key_inserted_Some; try done.
    - destruct Hs. split; cbn; try done; [|lia]. split.
      + rewrite length_app, length_drop. lia.
      + apply Forall_app. split; [done|by apply Forall_drop].
    - intros r j Hr Hj. cbn in Hj. unfold byte. cbn. btrue (r <? F).
      unfold ins. bfalse (j <? index). btrue (j =? index).
      unfold aget. bfalse (r <? 0). by rewrite lookup_app_l by lia. }
  btrue (0 <=? knum n - index). cbn [asserting].
  destruct key_insert_rows as (fs & E & Hf & Hcell). rewrite E, bind_Some. clear E.
  change (plen (set_features n fs)) with (plen n). change (knum (set_features n fs)) with (knum n).
  btrue ((0 <=? plen n) && (plen n <=? F)). cbn [asserting].
  destruct ((index =? 0) || (index =? knum n)) eqn:Eedge.
  2:{ apply key_insert_same_prefix; [done|lia|done|].
      intros r Hr. apply middle_prefix; [blia|done]. }
  destruct (insert_scan (set_features n fs)) as (pid & E & Hpid & Hpre); [done|done|].
  change (plen (set_features n fs)) with (plen n) in E. rewrite E, bind_Some. clear E.
  destruct (Z.ltb_spec pid (plen n)) as [Hlt'|Hge'].
  2:{ apply key_insert_same_prefix; [done|lia|done|]. intros r Hr. apply Hpre. lia. }
  destruct (shorten_prefix fs pid) as (fs' & E & Hf' & Hcell'); [done|lia|lia|].
  destruct (move_rows (set_features n fs) (plen n - pid) 0 (F - plen n)) as [n1|] eqn:E1; [|done].
  rewrite bind_Some in E |- *.
  assert (n1 = set_features n (features n1)) as En1.
  { revert E1. unfold move_rows. destruct (amove _ _ _ _ _); [|done]. by intros [= <-]. }
  rewrite En1 in E |- *. cbn [knum plen set_features] in E |- *.
  destruct (knum n + 1 <=? kNodeSize T); [|done]. cbn [asserting] in E |- *.
  rewrite E, bind_Some. clear E E1 En1.
  apply key_inserted_Some; try done.
  - destruct Hs. split; cbn; try done. lia.
  - intros r j Hr Hj. unfold byte. cbn [plen prefix set_features set_plen].
    assert (forall i, r < plen n -> 0 <= i < knum n -> aget (seps i) r = aget (prefix n) r) as Hsame.
    { intros i Hr' Hi. destruct (sep_bytes_at i Hi) as (_ & _ & <-); [|lia]. unfold byte.
      by btrue (r <? plen n). }
    assert (r < plen n -> aget (ins seps index mid j) r
      = if j =? index then aget mid r else aget (prefix n) r) as Hins.
    { intros Hr'. unfold ins. destruct (Z.ltb_spec j index).
      - bfalse (j =? index). apply Hsame; lia.
      - destruct (Z.eqb_spec j index); [done|]. apply Hsame; lia. }
    destruct (r <? pid) eqn:Er.
    + rewrite Hins by lia. destruct (j =? index); [apply Hpre; lia|done].
    + unfold feat. cbn [features set_features set_plen]. fold (cell fs' (r - pid) j).
      rewrite Hcell' by lia. destruct (Z.ltb_spec r (plen n)) as [Hr'|Hr'].
      * by rewrite Hins by lia.
      * apply Hcell; lia.
Qed.
End key_insert.

(** ** [insert] with room *)

Lemma inode_update_version_eq n f :
  Control.valid f -> icontrol n = Control.encode f ->
  update_version n = set_control n (Control.encode (Control.bump f)).
Proof.
  intros Hf E. unfold update_version. f_equal. rewrite E. by apply Control.update_version_encode.
Qed.

(** only the control word differs *)
Lemma set_control_shape n c : shape n -> shape (set_control n c).
Proof. by intros []. Qed.

Lemma set_control_seps n seps c : seps_ok T n seps -> seps_ok T (set_control n c) seps.
Proof. by intros []. Qed.

(** where a new separator [mid] goes *)
Record insert_at n seps (mid : list Z) (index : Z) : Prop := {
  ia_range : 0 <= index <= knum n;
  ia_bytes : Forall is_byte mid;
  ia_length : Z.of_nat (length mid) = F;
  ia_lt j : 0 <= j < index -> key_lt (seps j) mid;
  ia_gt j : index <= j < knum n -> key_lt mid (seps j);
}.

Definition next_node (p : ptr) : Prop := exists a, p = Some a.

(** the routes with [lchild] and [rchild] around the new separator; [lchild] is
    stored only when it is the last one *)
Definition ins_routes n index lchild rchild : Z -> option ptr :=
  ins (upd (route n) index (Some lchild)) (index + 1) (Some rchild).

Definition left_child n index lchild : Prop := index <> knum n -> route n index = Some lchild.

Lemma insert_room n f seps lchild rchild mid index rnode rw :
  inode_wf T n f seps -> knum n < 64 -> insert_at n seps mid index ->
  next_node lchild -> next_node rchild -> left_child n index lchild ->
  exists n', insert T n lchild rchild mid index rnode rw = Some (mkInsert n' None)
    /\ inode_wf T n' (Control.bump f) (ins seps index mid) /\ knum n' = knum n + 1
    /\ forall j, 0 <= j <= knum n + 1 -> route n' j = ins_routes n index lchild rchild j.
Proof.
  intros [Hs Hseps Hw Hv Hin Hemp] Hroom [Hidx Hb Hl Hlt Hgt] [la ->] [ra ->] Hroute. unfold insert.
  rewrite (inode_update_version_eq n f), !bool_decide_true by eauto.
  set (n0 := set_control n _). cbn [andb]. change (knum n0) with (knum n).
  btrue ((0 <=? index) && (index <=? knum n)). cbn [asserting]. rewrite inode_kNodeSize_64. btrue (knum n <? 64).
  destruct (key_insert_spec n0 seps mid index (set_control_shape n _ Hs)
    (set_control_seps n seps _ Hseps) Hidx Hroom Hb Hl Hlt Hgt)
    as (n1 & E1 & Hs1 & Hseps1 & Hk1 & Hc1 & Hn1 & Hch1).
  cbn [knum icontrol next_ children n0 set_control] in *.
  rewrite E1, bind_Some, Hk1. pose proof (sh_children T n Hs) as Hcl.
  assert (forall n2, shape n2 -> seps_ok T (set_knum n2 (knum n + 1)) (ins seps index mid) ->
    icontrol n2 = icontrol n1 ->
    inode_wf T (set_knum n2 (knum n + 1)) (Control.bump f) (ins seps index mid)) as Hwf.
  { intros n2 [] Hseps2 Hc2. split; [|done|by cbn; rewrite Hc2, Hc1|by apply Control.bump_valid|done|].
    - split; cbn; try done. lia.
    - cbn. lia. }
  assert (shape n1) as Hs1' by (destruct Hs1; split; cbn in *; try done; rewrite Hk1; lia).
  destruct (Z.eqb_spec index (knum n)) as [->|Hne]; cbn [negb].
  - rewrite Hch1, aset_in_range, !bind_Some by lia.
    cbn [knum set_next set_children]. rewrite Hk1. eexists. split; [done|]. split; [|split; [done|]].
    + apply Hwf; [|by destruct Hseps1|done]. destruct Hs1'. split; cbn; try done. by rewrite length_insert.
    + intros j Hj. apply (routes_ins_last (knum n) (children n) (next_ n)); lia.
  - btrue (0 <=? knum n - index - 1). cbn [asserting]. rewrite Hch1.
    destruct (memmove64_within_spec T (children n) (index + 1) (index + 2) (knum n - index - 1) false)
      as (l & -> & Hll & Hg); [lia..|].
    rewrite bind_Some, aset_in_range, !bind_Some by lia.
    cbn [knum set_children]. rewrite Hk1. eexists. split; [done|]. split; [|split; [done|]].
    + apply Hwf; [|by destruct Hseps1|done]. destruct Hs1'. split; cbn; try done.
      rewrite length_insert. lia.
    + intros j Hj. etrans; [|apply (routes_ins (knum n) (children n) (next_ n) index (Some la) (Some ra) l j);
        [lia|lia|by apply Hroute|done|done]].
      unfold route, routes. cbn [knum children next_ set_knum set_children]. by rewrite Hn1.
Qed.

(** ** [split] *)

Lemma read_key_spec n seps j :
  seps_ok T n seps -> 0 <= j < knum n -> read_key T n j = Some (seps j).
Proof.
  intros Hseps Hj. destruct (so_is T n seps Hseps j Hj) as [Hl Hb]. unfold read_key.
  apply mapM_Some_2, Forall2_same_length_lookup. rewrite length_seqZ. split; [lia|].
  intros i x y [Hx Hi]%lookup_seqZ Hy. subst x. specialize (Hb (Z.of_nat i)).
  rewrite aget_nat in Hb. unfold byte in Hb. by rewrite Z.add_0_l, Hb by lia.
Qed.

(** what the allocator left in the arrays of a new node *)
Record raw_ok (rw : raw) : Prop := {
  ra_prefix : length (raw_prefix rw) = 8%nat /\ Forall is_byte (raw_prefix rw);
  ra_rows : rows_ok (raw_features rw);
  ra_children : length (raw_children rw) = 64%nat;
}.

(** a new node has no separator *)
Definition no_seps (j : Z) : list Z := [].

Lemma InnerNode_wf rw : raw_ok rw -> inode_wf T (InnerNode rw) (Control.inner_fields false) no_seps.
Proof.
  intros [Hp Hr Hc]. pose proof (F_bounds T). split; try done.
  - split; try done; cbn; lia.
  - split; cbn; intros; lia.
Qed.

(** the separators [s] in full columns, [k] of them *)
Definition full_columns fs (k : Z) (s : Z -> list Z) : Prop :=
  rows_ok fs /\ forall r j, 0 <= r < F -> 0 <= j < k -> cell fs r j = aget (s j) r.

Lemma shrink_full n k s :
  full_columns (features n) k s -> knum n = k -> 1 <= k <= 64 -> increasing k s ->
  (forall j, 0 <= j < k -> Z.of_nat (length (s j)) = F) ->
  length (prefix n) = 8%nat /\ Forall is_byte (prefix n) -> length (children n) = 64%nat ->
  exists n', memory_shrink T n = Some n' /\ shape n' /\ seps_ok T n' s
    /\ icontrol n' = icontrol n /\ knum n' = k /\ next_ n' = next_ n /\ children n' = children n.
Proof.
  intros [Hf Hc] <- Hk Hinc Hl Hp Hch. apply memory_shrink_spec. split; try done.
  intros j Hj. split; [by apply Hl|]. intros r Hr. by apply Hc.
Qed.

Lemma memory_expand_full n seps :
  shape n -> seps_ok T n seps ->
  exists fs, memory_expand T n = Some (set_features n fs) /\ full_columns fs (knum n) seps.
Proof.
  intros Hs Hseps. pose proof (sh_knum T n Hs).
  destruct (memory_expand_spec T n Hs) as (fs & E & Hf & Hc).
  exists fs. split; [done|]. split; [done|]. intros r j Hr Hj. rewrite Hc by lia.
  by apply (so_is T n seps Hseps).
Qed.

(** copying columns [s .. s+m-1] of a node over columns [d ..] of another *)
Lemma copy_columns n rn (at_ : inode -> Z) d s m :
  (forall fs, at_ (set_features rn fs) = d) -> rows_ok (features n) -> rows_ok (features rn) ->
  0 <= d -> 0 <= s -> 0 <= m -> d + m <= 64 -> s + m <= 64 ->
  exists fs, for_range (fun rid rn => copy_row n rn rid (at_ rn) s m) 0 F rn
      = Some (set_features rn fs)
    /\ holds fs (fun r j => if (d <=? j) && (j <? d + m)
                           then cell (features n) r (s + (j - d)) else cell (features rn) r j).
Proof.
  intros Hat Hf Hf' Hd Hs Hm Hdm Hsm. pose proof (F_bounds T).
  match goal with |- context [for_range ?body _ _ _] =>
    destruct (rows_loop rn body F (fun r j => if (d <=? j) && (j <? d + m)
               then cell (features n) r (s + (j - d)) else cell (features rn) r j))
      as (fs & E & Hf1 & Hc1) end.
  - done.
  - lia.
  - intros rid fs Hrid Hf1 Hrow. rewrite Hat.
    destruct (copy_row_spec T n (set_features rn fs) rid d s m) as (fs' & E & Hf2 & Hc2); [done|done|lia..|].
    exists fs'. split; [exact E|]. split; [done|]. intros r j Hr Hj. rewrite Hc2 by done.
    cbn [features set_features]. destruct (Z.eqb_spec r rid) as [->|]; cbn [andb]; [|done].
    destruct (_ && _); [done|by apply Hrow].
  - exists fs. split; [exact E|]. split; [done|]. intros r j Hr Hj. rewrite Hc1 by done.
    by btrue (r <? F).
Qed.

(** a new column at [index] *)
Lemma open_columns n (mid : list Z) index cnt :
  rows_ok (features n) -> 0 <= index -> 0 <= cnt -> index + cnt < 64 ->
  Forall is_byte mid -> Z.of_nat (length mid) = F ->
  exists fs, for_range (fun rid n =>
      let* n := move_in_row n rid (index + 1) index cnt in
      let* c := aget mid rid in set_feat n rid index c) 0 F n = Some (set_features n fs)
    /\ holds fs (fun r j => if j =? index then aget mid r
         else if (index <? j) && (j <=? index + cnt) then cell (features n) r (j - 1)
              else cell (features n) r j).
Proof.
  intros Hf Hi Hc Hic Hb Hl. pose proof (F_bounds T).
  match goal with |- context [for_range ?body _ _ _] =>
    destruct (rows_loop n body F (fun r j => if j =? index then aget mid r
         else if (index <? j) && (j <=? index + cnt) then cell (features n) r (j - 1)
              else cell (features n) r j)) as (fs & E & Hf1 & Hc1) end.
  - done.
  - lia.
  - intros rid fs Hrid Hf1 Hrow.
    destruct (open_row n mid rid rid index cnt fs) as (fs' & E & Hf2 & Hc2); [done|lia..|done|done|].
    exists fs'. split; [exact E|]. split; [done|]. intros r j Hr Hj. rewrite Hc2 by done.
    destruct (Z.eqb_spec r rid) as [->|]; [|done]. destruct (j =? index); [done|].
    destruct (_ && _) eqn:Eb; (rewrite Hrow; [done|blia]).
  - exists fs. split; [exact E|]. split; [done|]. intros r j Hr Hj. rewrite Hc1 by done.
    by btrue (r <? F).
Qed.

Section split.
Context n rn seps (mid : list Z) (index : Z) (lchild rchild : ptr) (ro : Z -> option ptr)
  (Hs : shape n) (Hseps : seps_ok T n seps) (Hfull : knum n = 64)
  (Hro : forall j, 0 <= j < 64 -> ro j = aget (children n) j)
  (Hat : insert_at n seps mid index) (Hroute : ro index = Some lchild)
  (Hrf : rows_ok (features rn)) (Hrp : length (prefix rn) = 8%nat /\ Forall is_byte (prefix rn))
  (Hrc : length (children rn) = 64%nat).

(** the 65 separators and the 66 routes *)
Definition all_seps : Z -> list Z := ins seps index mid.
Definition all_routes : Z -> option ptr := ins ro (index + 1) (Some rchild).

(** the two halves: [c] separators go to the left one *)
Record halves (n' rn' : inode) (c : Z) : Prop := {
  ha_n : shape n' /\ seps_ok T n' all_seps /\ knum n' = c;
  ha_rn : shape rn' /\ seps_ok T rn' (fun j => all_seps (c + j)) /\ knum rn' = 65 - c;
  ha_same : icontrol n' = icontrol n /\ next_ n' = next_ n /\ icontrol rn' = icontrol rn;
  ha_left j : 0 <= j < c -> aget (children n') j = all_routes j;
  ha_right j : 0 <= j < 65 - c -> aget (children rn') j = all_routes (c + j);
  ha_next : next_ rn' = if index =? 64 then rchild else next_ rn;
}.

Lemma all_seps_length j : 0 <= j < 65 -> Z.of_nat (length (all_seps j)) = F.
Proof.
  intros Hj. unfold all_seps, ins. pose proof (so_is T n seps Hseps) as H. pose proof (ia_range _ _ _ _ Hat).
  destruct (Z.ltb_spec j index); [apply H; lia|].
  destruct (Z.eqb_spec j index); [apply Hat|apply H; lia].
Qed.

Lemma all_seps_increasing : increasing 65 all_seps.
Proof.
  pose proof (increasing_ins (R := key_lt) (knum n) seps index mid) as H. rewrite Hfull in H. destruct Hat.
  apply H; [intros i j; rewrite <- Hfull; apply (so_lt T n seps Hseps)|lia|done|].
  intros j Hj. apply ia_gt0. lia.
Qed.

(** the children below the last route *)
Lemma all_routes_child j :
  0 <= j <= 64 -> j <> 64 \/ index < 64 ->
  all_routes j = if j <? index + 1 then aget (children n) j
                 else if j =? index + 1 then Some rchild else aget (children n) (j - 1).
Proof.
  intros Hj Hor. apply (split_routes_child 64); [done|rewrite <- Hfull; apply Hat|done|done].
Qed.

Lemma split_append_spec :
  index = 64 ->
  exists n' rn', split_append T n rn lchild rchild mid = Some (n', rn', 63) /\ halves n' rn' 64.
Proof.
  intros Ei. pose proof (F_bounds T). destruct Hat as [_ Hb Hl Hlt _]. destruct Hrp as [Hpl Hpb].
  unfold split_append. cbn [children store_prefix set_prefix set_plen].
  rewrite aset_in_range, bind_Some, inode_kNodeSize_64 by lia. eexists _, _. split; [done|].
  split; cbn [knum icontrol next_ children set_children set_next set_knum store_prefix set_prefix set_plen].
  - split; [done|]. split; [|done]. split.
    + intros j Hj. unfold all_seps, ins. btrue (j <? index). by apply (so_is T n seps Hseps).
    + rewrite Hfull. apply (increasing_le 65); [apply all_seps_increasing|lia].
  - split; [|split; [|done]].
    + split; cbn; try done; try lia.
      * split; [rewrite length_app, length_drop; lia|].
        apply Forall_app. split; [done|by apply Forall_drop].
      * by rewrite length_insert.
    + split; cbn [knum set_knum set_children set_next]; [|intros; lia].
      intros j Hj. replace j with 0 by lia. rewrite Z.add_0_r. unfold all_seps, ins.
      bfalse (64 <? index). btrue (64 =? index). split; [done|]. intros r Hr. unfold byte. cbn. btrue (r <? F).
      unfold aget. bfalse (r <? 0). by rewrite lookup_app_l by lia.
  - done.
  - intros j Hj. rewrite all_routes_child by lia. by btrue (j <? index + 1).
  - intros j Hj. replace j with 0 by lia. rewrite aget_insert by lia. cbn [Z.eqb].
    rewrite <- Hroute. unfold all_routes, ins. btrue (64 + 0 <? index + 1). f_equal. lia.
  - by btrue (index =? 64).
Qed.

(** the columns of the separators of [n], written out *)
Lemma expanded :
  exists fs, memory_expand T n = Some (set_features n fs) /\ full_columns fs 64 seps.
Proof. rewrite <- Hfull. by apply memory_expand_full. Qed.

Lemma halves_shrink n1 rn1 c :
  1 <= c <= 64 -> knum n1 = c -> knum rn1 = 65 - c ->
  full_columns (features n1) c all_seps ->
  full_columns (features rn1) (65 - c) (fun j => all_seps (c + j)) ->
  prefix n1 = prefix n -> prefix rn1 = prefix rn ->
  length (children n1) = 64%nat -> length (children rn1) = 64%nat ->
  icontrol n1 = icontrol n -> next_ n1 = next_ n -> icontrol rn1 = icontrol rn ->
  next_ rn1 = (if index =? 64 then rchild else next_ rn) ->
  (forall j, 0 <= j < c -> aget (children n1) j = all_routes j) ->
  (forall j, 0 <= j < 65 - c -> aget (children rn1) j = all_routes (c + j)) ->
  exists n' rn', memory_shrink T n1 = Some n' /\ memory_shrink T rn1 = Some rn' /\ halves n' rn' c.
Proof.
  intros Hc Hk1 Hk2 Hf1 Hf2 Hp1 Hp2 Hch1 Hch2 Hc1 Hn1 Hc2 Hn2 Hl Hr.
  destruct (shrink_full n1 c all_seps) as (n' & E & Hs1 & Hq1 & Hw1 & Hkn & Hnx & Hcn); try done.
  { apply (increasing_le 65); [apply all_seps_increasing|lia]. }
  { intros j Hj. apply all_seps_length. lia. }
  { rewrite Hp1. apply Hs. }
  destruct (shrink_full rn1 (65 - c) (fun j => all_seps (c + j)))
    as (rn' & E' & Hs2 & Hq2 & Hw2 & Hkn2 & Hnx2 & Hcn2); try done; try lia.
  { apply increasing_from; [apply all_seps_increasing|lia]. }
  { intros j Hj. apply all_seps_length. lia. }
  { by rewrite Hp2. }
  exists n', rn'. do 2 (split; [done|]). split; try done; try congruence.
  - split; [congruence|]. split; congruence.
  - intros j Hj. rewrite Hcn. by apply Hl.
  - intros j Hj. rewrite Hcn2. by apply Hr.
Qed.

Lemma split_left_spec :
  index < 32 ->
  exists n' rn', split_left T n rn rchild mid index = Some (n', rn', 32) /\ halves n' rn' 33.
Proof.
  intros Hi. pose proof (F_bounds T). pose proof Hat as [Hidx Hb Hl _ _].
  pose proof (sh_children T n Hs) as Hcl.
  unfold split_left. rewrite inode_kNodeSize_64. cbn zeta. change (64 / 2) with 32.
  destruct expanded as (fs & -> & Hf & Hc). rewrite bind_Some.
  destruct (copy_columns (set_features n fs) rn (fun _ => 0) 0 32 32) as (fs2 & E2 & Hf2 & Hc2);
    [done..|lia|lia|lia|lia|lia|].
  cbn beta in E2. rewrite E2, bind_Some. clear E2. cbn [children features set_features].
  destruct (memmove64_spec T (children n) 32 (children rn) 0 32 true) as (rc & -> & Hrl & Hrg); [lia..|].
  rewrite bind_Some.
  destruct (open_columns (set_features n fs) mid index (32 - index)) as (fs3 & E3 & Hf3 & Hc3);
    [done|lia..|done|done|].
  rewrite E3, bind_Some. clear E3. cbn [children features set_features] in *.
  destruct (memmove64_within_spec T (children n) index (index + 1) (32 - index) false)
    as (nc & -> & Hnl & Hng); [lia..|].
  rewrite bind_Some, aset_in_range, bind_Some by lia.
  match goal with
  |- context [mbind (fun x => mbind (@?k x) (memory_shrink T ?b)) (memory_shrink T ?a)] =>
    destruct (halves_shrink a b 33) as (n' & rn' & -> & E' & Hh) end.
  all: cbn [knum features children set_knum set_children set_features next_] in *.
  all: try done; try lia.
  - split; [done|]. intros r j Hr Hj. rewrite Hc3 by lia. unfold all_seps, ins.
    destruct (Z.eqb_spec j index) as [->|]; [by bfalse (index <? index)|].
    destruct (Z.ltb_spec j index).
    + bfalse ((index <? j) && (j <=? index + (32 - index))). apply Hc; lia.
    + btrue ((index <? j) && (j <=? index + (32 - index))). apply Hc; lia.
  - split; [done|]. intros r j Hr Hj. rewrite Hc2 by lia. btrue ((0 <=? j) && (j <? 0 + 32)).
    unfold all_seps, ins. bfalse (33 + j <? index). bfalse (33 + j =? index).
    rewrite Hc by lia. do 2 f_equal. lia.
  - rewrite length_insert. lia.
  - by bfalse (index =? 64).
  - intros j Hj. apply (split_routes_left 64 32 (children n) ro); [done|lia|lia|lia|lia|done|lia].
  - intros j Hj. apply (split_routes_left_rest 64 32 (children n) ro index _ Hro ltac:(lia) _ (children rn)); [done|lia|done].
  - rewrite bind_Some, E'. by exists n', rn'.
Qed.

(** the right half, with the new column in it *)
Lemma build_right fs :
  32 <= index < 64 -> full_columns fs 64 seps ->
  exists fs2, for_range (fun rid rn =>
      let* rn := copy_row (set_features n fs) rn rid 0 32 (index - 32) in
      let* c := aget mid rid in
      let* rn := set_feat rn rid (index - 32) c in
      copy_row (set_features n fs) rn rid (index - 32 + 1) index (64 - index)) 0 F rn
    = Some (set_features rn fs2)
  /\ full_columns fs2 33 (fun j => all_seps (32 + j)).
Proof.
  intros Hi [Hf Hc]. pose proof (F_bounds T). pose proof Hat as [Hidx Hb Hl _ _].
  match goal with |- context [for_range ?body _ _ _] =>
    destruct (rows_loop rn body F (fun r j =>
      if (index - 32 + 1 <=? j) && (j <? index - 32 + 1 + (64 - index))
      then cell fs r (index + (j - (index - 32 + 1)))
      else if j =? index - 32 then aget mid r
      else if (0 <=? j) && (j <? 0 + (index - 32)) then cell fs r (32 + (j - 0)) else cell (features rn) r j))
      as (fs2 & E & Hf2 & Hc2) end.
  - done.
  - lia.
  - intros rid gs Hrid Hg Hrow.
    destruct (copy_row_spec T (set_features n fs) (set_features rn gs) rid 0 32 (index - 32))
      as (g1 & -> & Hg1 & Hd1); [done|done|lia..|].
    rewrite bind_Some. change (set_features (set_features rn gs) g1) with (set_features rn g1).
    destruct (key_byte mid rid Hb Hl ltac:(lia)) as (c & Ec & Hcb). rewrite Ec, bind_Some.
    destruct (set_feat_at rn g1 rid (index - 32) c) as (g2 & -> & Hg2 & Hd2); [done|lia|lia|done|].
    rewrite bind_Some.
    destruct (copy_row_spec T (set_features n fs) (set_features rn g2) rid (index - 32 + 1) index (64 - index))
      as (g3 & -> & Hg3 & Hd3); [done|done|lia..|].
    exists g3. split; [done|]. split; [done|]. cbn [features set_features] in *.
    intros r j Hr Hj. rewrite Hd3, Hd2, Hd1 by done.
    destruct (Z.eqb_spec r rid) as [->|]; cbn [andb]; [|done].
    repeat (case_match; [done|]). by rewrite Hrow.
  - rewrite E. exists fs2. split; [done|]. split; [done|]. intros r j Hr Hj. rewrite Hc2 by lia.
    btrue (r <? F). unfold all_seps, ins.
    destruct (Z.ltb_spec (32 + j) index).
    + bfalse ((index - 32 + 1 <=? j) && (j <? index - 32 + 1 + (64 - index))).
      bfalse (j =? index - 32). btrue ((0 <=? j) && (j <? 0 + (index - 32))).
      rewrite Hc by lia. do 2 f_equal. lia.
    + destruct (Z.eqb_spec (32 + j) index).
      * bfalse ((index - 32 + 1 <=? j) && (j <? index - 32 + 1 + (64 - index))).
        by btrue (j =? index - 32).
      * btrue ((index - 32 + 1 <=? j) && (j <? index - 32 + 1 + (64 - index))).
        rewrite Hc by lia. do 2 f_equal. lia.
Qed.

Lemma split_right_spec :
  32 <= index < 64 ->
  exists n' rn', split_right T n rn rchild mid index = Some (n', rn', 31) /\ halves n' rn' 32.
Proof.
  intros Hi. pose proof (F_bounds T). pose proof (sh_children T n Hs) as Hcl.
  unfold split_right. rewrite inode_kNodeSize_64. cbn zeta. change (64 / 2) with 32. change (32 - 1) with 31.
  destruct expanded as (fs & -> & Hfs). rewrite bind_Some.
  destruct (build_right fs Hi Hfs) as (fs2 & E2 & Hfs2). rewrite E2, bind_Some. clear E2.
  cbn [children features set_features].
  destruct (memmove64_spec T (children n) 32 (children rn) 0 (index - 32 + 1) true)
    as (c1 & -> & Hl1 & Hg1); [lia..|].
  rewrite bind_Some, aset_in_range, bind_Some by lia.
  destruct (memmove64_spec T (children n) (index + 1) (<[Z.to_nat (index - 32 + 1):=rchild]> c1)
    (index - 32 + 2) (64 - index - 1) true) as (c2 & -> & Hl2 & Hg2); [lia..|rewrite length_insert; lia|].
  rewrite length_insert in Hl2. rewrite bind_Some.
  match goal with
  |- context [mbind (fun x => mbind (@?k x) (memory_shrink T ?b)) (memory_shrink T ?a)] =>
    destruct (halves_shrink a b 32) as (n' & rn' & -> & E' & Hh) end.
  all: cbn [knum features children set_knum set_children set_features next_] in *.
  all: try done; try lia.
  - destruct Hfs as [Hf Hc]. split; [done|]. intros r j Hr Hj. unfold all_seps, ins.
    btrue (j <? index). apply Hc; lia.
  - by bfalse (index =? 64).
  - intros j Hj. rewrite all_routes_child by lia. by btrue (j <? index + 1).
  - intros j Hj. apply (split_routes_right 64 32 (children n) ro index rchild Hro ltac:(lia) (children rn) c1); [lia|lia|lia|done|].
    intros i Hi'. rewrite Hg2 by done. unfold moved. rewrite aget_insert, (Z.eqb_sym (index - 32 + 1)) by lia.
    destruct (Z.eqb_spec i (index - 32 + 1)); [|done].
    by bfalse ((index - 32 + 2 <=? i) && (i <? index - 32 + 2 + (64 - index - 1))).
  - rewrite bind_Some, E'. by exists n', rn'.
Qed.
End split.

(** the node and the new one after a split *)
Record split_done n f seps mid index lchild rchild (rnode : Z) (n' rn' : inode) (c : Z) : Prop := {
  sd_count : c = split_count index;
  sd_n : inode_wf T n' (Control.with_sibling f true) (ins seps index mid) /\ knum n' = c;
  sd_rn : inode_wf T rn' (Control.inner_fields (Control.f_sibling f)) (fun j => ins seps index mid (c + j))
          /\ knum rn' = 65 - c;
  sd_left j : 0 <= j < c -> route n' j = ins_routes n index lchild rchild j;
  sd_next : next_ n' = Some rnode;
  sd_right j : 0 <= j <= 65 - c -> route rn' j = ins_routes n index lchild rchild (c + j);
}.

Lemma inode_run_control n f o f' :
  Control.valid f -> icontrol n = Control.encode f -> Control.run_fields o f = Some f' ->
  on_control n (Control.run o) = Some (set_control n (Control.encode f')).
Proof.
  intros Hf E Hr. destruct (Control.run_encode o f Hf) as [E' _]. rewrite Hr in E'.
  unfold on_control. by rewrite E, E'.
Qed.

Lemma inode_set_sibling_eq n f :
  Control.valid f -> icontrol n = Control.encode f -> Control.f_sibling f = false ->
  on_control n Control.set_sibling = Some (set_control n (Control.encode (Control.with_sibling f true))).
Proof.
  intros Hf E Hs. apply (inode_run_control n f Control.OpSetSibling); [done|done|]. cbn. by rewrite Hs.
Qed.

(** the two control words of a split: the left node gets the sibling bit, the new
    one the old value of it *)
Lemma split_words n rn f :
  Control.valid f -> icontrol n = Control.encode f -> icontrol rn = 0 ->
  (if negb (Control.has_sibling (icontrol n))
   then let* n := on_control n Control.set_sibling in Some (n, rn)
   else let* rn := on_control rn Control.set_sibling in Some (n, rn))
  = Some (set_control n (Control.encode (Control.with_sibling f true)),
          set_control rn (Control.encode (Control.inner_fields (Control.f_sibling f)))).
Proof.
  intros Hf E E0. destruct (inode_reads n f Hf E) as (-> & _).
  destruct (Control.f_sibling f) eqn:Es; cbn [negb].
  - rewrite (inode_set_sibling_eq rn (Control.inner_fields false)), bind_Some by done.
    do 2 f_equal. destruct n, f. cbn in *. by subst.
  - rewrite (inode_set_sibling_eq n f), bind_Some by done.
    do 2 f_equal. destruct rn. cbn in *. by subst.
Qed.

Lemma split_halves n rn seps mid index lchild rchild ro :
  shape n -> seps_ok T n seps -> knum n = 64 -> insert_at n seps mid index ->
  (forall j, 0 <= j < 64 -> ro j = aget (children n) j) -> ro index = Some lchild ->
  rows_ok (features rn) ->
  length (prefix rn) = 8%nat /\ Forall is_byte (prefix rn) -> length (children rn) = 64%nat ->
  exists n' rn' c,
    (if index =? kNodeSize T then split_append T n rn lchild rchild mid
     else if index <? kNodeSize T / 2 then split_left T n rn rchild mid index
     else split_right T n rn rchild mid index) = Some (n', rn', c - 1)
    /\ halves n rn seps mid index rchild ro n' rn' c /\ c = split_count index.
Proof.
  intros Hs Hseps Hfull Hat Hro Hr Hf Hp Hc. rewrite inode_kNodeSize_64. change (64 / 2) with 32. unfold split_count.
  pose proof (ia_range _ _ _ _ Hat) as Hi.
  destruct (Z.eqb_spec index 64) as [E|]; [|destruct (Z.ltb_spec index 32)].
  - destruct (split_append_spec n rn seps mid index lchild rchild ro) as (n' & rn' & -> & Hh); try done.
    by exists n', rn', 64.
  - destruct (split_left_spec n rn seps mid index rchild ro) as (n' & rn' & -> & Hh); try done.
    by exists n', rn', 33.
  - destruct (split_right_spec n rn seps mid index rchild ro) as (n' & rn' & -> & Hh); try done; [lia|].
    by exists n', rn', 32.
Qed.

Lemma route_child n j : j <> knum n -> route n j = aget (children n) j.
Proof. intros. unfold route. by bfalse (j =? knum n). Qed.

Lemma insert_split n f seps lchild rchild mid index rnode rw :
  inode_wf T n f seps -> knum n = 64 -> insert_at n seps mid index -> raw_ok rw ->
  next_node lchild -> next_node rchild -> left_child n index lchild ->
  exists n' rn' c, insert T n lchild rchild mid index rnode rw
      = Some (mkInsert n' (Some (rn', ins seps index mid (c - 1))))
    /\ split_done n (Control.bump f) seps mid index lchild rchild rnode n' rn' c.
Proof.
  intros [Hs Hseps Hw Hv Hin Hemp] Hfull Hat [Hrp Hrf Hrc] [la ->] [ra ->] Hroute. unfold insert.
  rewrite (inode_update_version_eq n f), !bool_decide_true by eauto.
  set (n0 := set_control n _). cbn [andb]. change (knum n0) with (knum n).
  pose proof (ia_range _ _ _ _ Hat) as Hidx. rewrite Hfull in *.
  btrue ((0 <=? index) && (index <=? 64)). cbn [asserting]. rewrite inode_kNodeSize_64. cbn [Z.ltb Z.compare Pos.compare Pos.compare_cont].
  unfold split.
  rewrite (split_words (set_next n0 (Some rnode)) (set_next (InnerNode rw) (next_ n0)) (Control.bump f)), bind_Some
    by (done || by apply Control.bump_valid).
  set (n1 := set_control (set_next n0 _) _). set (rn1 := set_control (set_next _ _) _).
  destruct (split_halves n1 rn1 seps mid index (Some la) (Some ra) (upd (route n) index (Some (Some la))))
    as (n' & rn' & c & E & [[Hs1 [Hq1 Hk1]] [Hs2 [Hq2 Hk2]] (Hc1 & Hn1 & Hc2) Hl Hr Hn2] & Hcount).
  - by destruct Hs.
  - by destruct Hseps.
  - done.
  - destruct Hat. by split.
  - intros j Hj. unfold upd. rewrite route_child by lia.
    destruct (Z.eqb_spec j index) as [->|]; [|done].
    rewrite <- Hroute by lia. apply (route_child n). lia.
  - unfold upd. by rewrite Z.eqb_refl.
  - done.
  - done.
  - done.
  - pose proof (split_count_range index Hidx) as Hc. rewrite E, bind_Some, (read_key_spec n' (ins seps index mid)), !bind_Some by (done || lia).
    exists n', rn', c. split; [done|].
    split; [done| | | |by rewrite Hn1|].
    + split; [|done]. split; try done; [by apply Control.bump_valid|lia].
    + split; [|done]. split; try done. lia.
    + intros j Hj. rewrite route_child by lia. by apply Hl.
    + intros j Hj. unfold route at 1. rewrite Hk2. destruct (Z.eqb_spec j (65 - c)) as [->|].
      * rewrite Hn2. unfold ins_routes, ins, upd, route. rewrite Hfull. cbn [next_ rn1 set_control set_next].
        replace (c + (65 - c)) with 65 by lia. bfalse (65 <? index + 1).
        destruct (Z.eqb_spec index 64) as [->|]; [done|]. bfalse (65 =? index + 1). by bfalse (65 - 1 =? index).
      * apply Hr. lia.
Qed.

(** ** The prefix made longer *)

Section extend.
Context n seps (last : Z) (Hs : shape n) (Hlast : 0 <= last < 64)
  (Hseps : seps_ok T (set_knum n (last + 1)) seps).

Lemma extend_sep j : 0 <= j <= last ->
  Forall is_byte (seps j) /\ Z.of_nat (length (seps j)) = F
  /\ forall r, 0 <= r < F -> byte n r j = aget (seps j) r.
Proof.
  intros Hj. destruct (so_is T _ seps Hseps j) as [Hl Hb]; [cbn; lia|].
  split; [|done]. apply (sep_bytes T n j); [done|lia|done].
Qed.

Lemma extend_scan_spec :
  exists pid pr, extend_scan T n last = Some (pid, set_prefix n pr) /\ 0 <= pid <= F - plen n
    /\ length pr = 8%nat /\ Forall is_byte pr
    /\ (forall r, 0 <= r < plen n + pid -> aget pr r = aget (seps 0) r)
    /\ (forall r, 0 <= r < plen n + pid -> aget (seps 0) r = aget (seps last) r).
Proof.
  pose proof (sh_plen T n Hs) as Hp. pose proof (F_bounds T). pose proof (sh_prefix T n Hs) as [Hpl Hpb].
  destruct (extend_sep 0 ltac:(lia)) as (Hb0 & Hl0 & H0).
  destruct (extend_sep last ltac:(lia)) as (Hbl & Hll & Hl). unfold extend_scan.
  pose (P := fun pid n' => exists pr, n' = set_prefix n pr /\ length pr = 8%nat /\ Forall is_byte pr
    /\ (forall r, 0 <= r < plen n + pid -> aget pr r = aget (seps 0) r)
    /\ (forall r, 0 <= r < plen n + pid -> aget (seps 0) r = aget (seps last) r)).
  match goal with |- context [for_break ?fuel ?body ?i ?l ?s0] =>
    destruct (for_break_inv P P fuel body i l s0) as (pid & n1 & E & Hr & Hfin) end.
  - unfold byte_fuel. lia.
  - lia.
  - exists (prefix n). split; [by destruct n|]. do 2 (split; [done|]).
    split; intros r Hr; [rewrite <- H0 by lia|rewrite <- H0, <- Hl by lia];
      unfold byte; by btrue (r <? plen n).
  - intros pid n1 Hpid (pr & -> & Hlp & Hbp & H1 & H2).
    change (feat (set_prefix n pr)) with (feat n). change (plen (set_prefix n pr)) with (plen n).
    assert (forall j s, 0 <= j <= last -> seps j = s -> feat n pid j = aget s (plen n + pid)) as Hfeat.
    { intros j s Hj <-. destruct (extend_sep j Hj) as (_ & _ & <-); [|lia].
      unfold byte. bfalse (plen n + pid <? plen n). f_equal. lia. }
    rewrite (Hfeat 0 (seps 0)), (Hfeat last (seps last)) by (done || lia).
    destruct (key_byte (seps 0) (plen n + pid) Hb0 Hl0 ltac:(lia)) as (a & Ea & Ha).
    destruct (key_byte (seps last) (plen n + pid) Hbl Hll ltac:(lia)) as (b & Eb & Hb).
    rewrite Ea, bind_Some, Eb, bind_Some.
    destruct (Z.eqb_spec a b) as [->|Hne]; cbn [negb].
    + cbn [prefix set_prefix]. rewrite aset_in_range, bind_Some by lia. eexists _, _. split; [done|].
      eexists. split; [done|]. rewrite length_insert. split; [done|]. split; [by apply Forall_insert|].
      split; intros r Hr.
      * rewrite aget_insert by lia. destruct (Z.eqb_spec (plen n + pid) r) as [<-|]; [done|].
        apply H1. lia.
      * destruct (decide (r = plen n + pid)) as [->|]; [congruence|]. apply H2. lia.
    + eexists _, _. split; [done|]. by exists pr.
  - assert (P pid n1) as (pr & -> & ? & ? & ? & ?) by (by destruct Hfin as [[_ ?]|[_ ?]]).
    exists pid, pr. by rewrite E.
Qed.

Lemma extend_prefix_spec :
  exists n', extend_prefix T n last = Some n' /\ shape n' /\ seps_ok T (set_knum n' (last + 1)) seps
    /\ knum n' = knum n /\ icontrol n' = icontrol n /\ next_ n' = next_ n /\ children n' = children n.
Proof.
  pose proof (sh_plen T n Hs) as Hp. pose proof (F_bounds T).
  destruct extend_scan_spec as (pid & pr & E & Hpid & Hl & Hb & H1 & H2).
  unfold extend_prefix. rewrite E, bind_Some. clear E. cbn [plen set_prefix].
  assert (forall j, 0 <= j <= last -> forall r, 0 <= r < plen n + pid -> aget pr r = aget (seps j) r) as Hpr.
  { intros j Hj r Hr. rewrite H1 by done. symmetry.
    apply (share_prefix T (last + 1) seps (plen n + pid)); try done; try lia.
    - intros i Hi. destruct (extend_sep i ltac:(lia)) as (? & ? & _). done.
    - intros i i' Hi Hi'. apply (so_lt T _ seps Hseps); [done|cbn; lia].
    - by replace (last + 1 - 1) with last by lia. }
  destruct (Z.ltb_spec 0 pid) as [Hpos|Hpos].
  - btrue (0 <=? F - plen n - pid). cbn [asserting].
    destruct (move_rows_spec T (set_prefix n pr) 0 pid (F - plen n - pid)) as (fs & -> & Hf & Hc);
      [exact (shape_rows T n Hs)|lia..|].
    rewrite bind_Some. eexists. split; [done|]. split; [|split; [|done]].
    { destruct Hs. split; cbn; try done. lia. }
    split; cbn [knum set_knum]; [|apply (so_lt T _ seps Hseps)].
    intros j Hj. destruct (extend_sep j ltac:(lia)) as (_ & Hlj & Hby). split; [done|]. intros r Hr.
    unfold byte. cbn [plen prefix set_knum set_plen set_features set_prefix].
    destruct (r <? plen n + pid) eqn:Er; [apply Hpr; lia|].
    unfold feat. cbn [features set_knum set_plen set_features]. fold (cell fs (r - (plen n + pid)) j).
    rewrite Hc by lia. cbn [features set_prefix].
    btrue ((0 <=? r - (plen n + pid)) && (r - (plen n + pid) <? 0 + (F - plen n - pid))).
    rewrite <- Hby by lia. unfold byte. bfalse (r <? plen n). unfold feat, cell. f_equal; f_equal; lia.
  - eexists. split; [done|]. split; [|split; [|done]].
    { destruct Hs. by split. }
    split; cbn [knum set_knum]; [|apply (so_lt T _ seps Hseps)].
    intros j Hj. destruct (extend_sep j ltac:(lia)) as (_ & Hlj & Hby). split; [done|]. intros r Hr.
    rewrite <- Hby by lia. unfold byte. cbn [plen prefix set_knum set_prefix].
    destruct (r <? plen n) eqn:Er; [|done]. rewrite (Hpr j) by lia. rewrite <- Hby by lia.
    unfold byte. by rewrite Er.
Qed.
End extend.

(** ** [remove] of a separator that is not the last one *)

Lemma key_remove_rows n seps index :
  shape n -> seps_ok T n seps -> 0 <= index < knum n - 1 ->
  exists fs, for_range (fun rid n =>
      move_in_row n rid index (index + 1) (knum n - index - 1)) 0 (F - plen n) n
    = Some (set_features n fs) /\ rows_ok fs
  /\ forall r j, plen n <= r < F -> 0 <= j < knum n - 1 ->
       cell fs (r - plen n) j = aget (del seps index j) r.
Proof.
  intros Hs Hseps Hi. pose proof (sh_plen T n Hs) as Hp. pose proof (sh_knum T n Hs) as Hk.
  match goal with |- context [for_range ?body _ _ _] =>
    destruct (rows_loop n body (F - plen n) (fun r j =>
      if (index <=? j) && (j <? index + (knum n - index - 1)) then cell (features n) r (index + 1 + (j - index))
      else cell (features n) r j)) as (fs & E & Hf & Hc) end.
  - by apply shape_rows.
  - lia.
  - intros rid fs Hrid Hf Hrow.
    destruct (move_in_row_spec T (set_features n fs) rid index (index + 1) (knum n - index - 1))
      as (fs' & E & Hf' & Hc'); [done|lia..|].
    exists fs'. split; [exact E|]. split; [done|]. intros r j Hr Hj. rewrite Hc' by done.
    cbn [features set_features]. destruct (Z.eqb_spec r rid) as [->|]; cbn [andb]; [|done].
    destruct (_ && _) eqn:Eb; (rewrite Hrow; [done|blia]).
  - exists fs. split; [exact E|]. split; [done|]. intros r j Hr Hj. rewrite Hc by lia.
    btrue (r - plen n <? F - plen n).
    assert (forall i, 0 <= i < knum n -> cell (features n) (r - plen n) i = aget (seps i) r) as Hcell.
    { intros i Hi'. destruct (so_is T n seps Hseps i Hi') as [_ <-]; [|lia]. unfold byte.
      by bfalse (r <? plen n). }
    unfold del. destruct (Z.ltb_spec j index).
    + bfalse ((index <=? j) && (j <? index + (knum n - index - 1))). apply Hcell. lia.
    + btrue ((index <=? j) && (j <? index + (knum n - index - 1))). rewrite Hcell by lia. do 2 f_equal. lia.
Qed.

Lemma key_remove_spec n seps index :
  shape n -> seps_ok T n seps -> 0 <= index < knum n - 1 ->
  exists n', key_remove T n index = Some n' /\ shape n'
    /\ seps_ok T (set_knum n' (knum n - 1)) (del seps index)
    /\ knum n' = knum n /\ icontrol n' = icontrol n /\ next_ n' = next_ n /\ children n' = children n.
Proof.
  intros Hs Hseps Hi. pose proof (sh_plen T n Hs) as Hp. pose proof (sh_knum T n Hs) as Hk.
  destruct (key_remove_rows n seps index Hs Hseps Hi) as (fs & E & Hf & Hcell). unfold key_remove.
  btrue ((2 <=? knum n) && (index <? knum n - 1)). cbn [asserting]. rewrite E, bind_Some. clear E.
  set (n1 := set_features n fs).
  assert (shape n1) as Hs1 by (destruct Hs; by split).
  assert (seps_ok T (set_knum n1 (knum n - 1)) (del seps index)) as Hseps1.
  { split; cbn [knum set_knum].
    - intros j Hj. assert (exists i, 0 <= i < knum n /\ del seps index j = seps i) as (i & Hi' & Ei).
      { unfold del. destruct (Z.ltb_spec j index); eexists; (split; [|done]); lia. }
      destruct (so_is T n seps Hseps i Hi') as [Hl Hb]. split; [by rewrite Ei|]. intros r Hr.
      unfold byte. cbn [plen prefix set_knum n1 set_features]. destruct (r <? plen n) eqn:Er.
      + rewrite Ei, <- Hb by done. unfold byte. by rewrite Er.
      + apply Hcell; lia.
    - apply (increasing_del (knum n)); [|lia]. intros i j. apply (so_lt T n seps Hseps). }
  destruct (Z.eqb_spec index 0) as [->|].
  - destruct (extend_prefix_spec n1 (del seps 0) (knum n - 2)) as (n' & E & H); [done|lia| |].
    { by replace (knum n - 2 + 1) with (knum n - 1) by lia. }
    exists n'. change (knum n1) with (knum n). split; [exact E|].
    by replace (knum n - 2 + 1) with (knum n - 1) in H by lia.
  - by exists n1.
Qed.

(** the node without the separator at [index] and the child to its right *)
Definition key_removed n (index : Z) : option inode :=
  let* n := key_remove T n index in
  assert* (0 <=? knum n - index - 2) in
  let* c := memmove64_within T (children n) (index + 2) (index + 1) (knum n - index - 2) true in
  let n := set_children n c in
  Some (set_knum n (knum n - 1)).

Lemma key_removed_spec n f seps index :
  inode_wf T n f seps -> 0 <= index < knum n - 1 ->
  exists n', key_removed n index = Some n' /\ inode_wf T n' f (del seps index)
    /\ knum n' = knum n - 1 /\ icontrol n' = icontrol n /\ next_ n' = next_ n
    /\ forall j, 0 <= j <= knum n' -> route n' j = del (route n) (index + 1) j.
Proof.
  intros [Hs Hseps Hw Hv Hin Hemp] Hi. pose proof (sh_knum T n Hs) as Hk.
  pose proof (sh_children T n Hs) as Hcl.
  destruct (key_remove_spec n seps index Hs Hseps Hi) as (n1 & E & Hs1 & Hseps1 & Hk1 & Hc1 & Hn1 & Hch1).
  unfold key_removed. rewrite E, bind_Some, Hk1. btrue (0 <=? knum n - index - 2). cbn [asserting].
  destruct (memmove64_within_spec T (children n1) (index + 2) (index + 1) (knum n - index - 2) true)
    as (c & -> & Hl & Hg); [rewrite ?Hch1; lia..|].
  rewrite bind_Some. cbn [knum set_children]. rewrite Hk1. eexists. split; [done|].
  split; [|split; [done|split; [done|split; [done|]]]].
  - split; cbn; try done; [|by destruct Hseps1|by rewrite Hc1|lia].
    destruct Hs1. split; cbn; try done; [congruence|lia].
  - cbn [knum set_knum]. intros j Hj. rewrite Hch1 in Hg. unfold route at 1.
    cbn [knum children next_ set_knum set_children]. rewrite Hn1. by apply (routes_del (knum n) (children n) (next_ n)).
Qed.

(** ** Merging *)

Lemma inode_latch_exclusive_eq n f :
  Control.valid f -> icontrol n = Control.encode f -> Control.f_locked f = false ->
  latch_exclusive n = Some (set_control n (Control.encode (Control.with_locked f true))).
Proof.
  intros Hf E Hl. unfold latch_exclusive, on_control. by rewrite E, Control.latch_exclusive_encode by done.
Qed.

Lemma inode_clear_sibling_eq n f b :
  Control.valid f -> icontrol n = Control.encode f -> Control.f_sibling f = true ->
  (if negb b then on_control n Control.clear_sibling else Some n)
    = Some (set_control n (Control.encode (Control.with_sibling f b))).
Proof.
  intros Hf E Hs. destruct b; cbn [negb].
  - f_equal. destruct n, f. cbn in *. by subst.
  - apply (inode_run_control n f Control.OpClearSibling); [done|done|]. cbn. by rewrite Hs.
Qed.

(** the last steps on the node that was merged away: marked deleted, released *)
Lemma retire_eq n g :
  Control.valid g -> Control.f_deleted g = false ->
  icontrol n = Control.encode (Control.with_locked g true) -> Control.f_locked g = false ->
  exists n2, on_control n Control.set_delete = Some n2
    /\ update_version n2 = set_control n (Control.encode (Control.with_locked (Control.merged_fields g) true))
    /\ on_control (update_version n2) Control.unlatch_exclusive
       = Some (set_control n (Control.encode (Control.merged_fields g))).
Proof.
  intros Hg Hdel E Hl.
  pose proof (inode_run_control n (Control.with_locked g true) Control.OpSetDelete
    (Control.with_deleted (Control.with_locked g true) true)) as H. cbn [Control.run] in H.
  eexists. split; [apply H; [done|done|cbn; by rewrite Hdel]|]. clear H.
  rewrite (inode_update_version_eq _ (Control.with_deleted (Control.with_locked g true) true)) by done.
  split; [done|].
  match goal with |- on_control ?m _ = _ => set (m2 := m) end.
  apply (inode_run_control m2 (Control.with_locked (Control.merged_fields g) true) Control.OpUnlatch
      (Control.merged_fields g)).
  - by apply (Control.bump_valid (Control.with_locked (Control.with_deleted g true) true)).
  - done.
  - cbn. f_equal. by destruct g; cbn in *; subst.
Qed.

(** the sibling of a node: well formed, alive, to its right *)
Record right_sibling (mem : Z -> option inode) n (k : Z) seps (ra : Z) rn g (rseps : Z -> list Z) : Prop := {
  rs_next : next_ n = Some ra;
  rs_mem : mem ra = Some rn;
  rs_wf : inode_wf T rn g rseps;
  rs_locked : Control.f_locked g = false;
  rs_deleted : Control.f_deleted g = false;
  rs_above i j : 0 <= i < k -> 0 <= j < knum rn -> key_lt (seps i) (rseps j);
}.

(** a node that was merged away: empty, marked deleted, pointing back *)
Definition merged_away (rn' : inode) (g : Control.fields) (this : Z) : Prop :=
  icontrol rn' = Control.encode (Control.merged_fields g) /\ knum rn' = 0 /\ next_ rn' = Some this.

(** a reader that gets there goes back *)
Lemma merged_away_to_next rn' g this key :
  Control.valid g -> Control.f_locked g = false -> merged_away rn' g this ->
  to_next T rn' key = Some (true, Some this).
Proof.
  intros Hg Hl (Hc & _ & Hn).
  assert (Control.valid (Control.merged_fields g)) as Hv by (by apply (Control.bump_valid (Control.with_deleted g true))).
  unfold to_next. rewrite (begin_read_eq rn' (Control.merged_fields g)), bind_Some by done.
  destruct (inode_reads rn' _ Hv Hc) as (_ & -> & _). cbn [Control.f_deleted Control.merged_fields Control.bump Control.with_version Control.with_deleted].
  rewrite Hn. by rewrite bool_decide_true by eauto.
Qed.

Definition merge_fits n rn : bool := (knum n + knum rn <=? kMergeSize T) || (knum rn =? 0).

Lemma inode_merge_alone mem this n f mid :
  Control.valid f -> icontrol n = Control.encode f -> Control.f_sibling f = false ->
  merge T mem this n mid = Some (mkRemove n None false false mid).
Proof. intros Hf E Hs. unfold merge. destruct (inode_reads n f Hf E) as (-> & _). by rewrite Hs. Qed.

Lemma inode_merge_not mem this n f mid ra rn :
  Control.valid f -> icontrol n = Control.encode f -> Control.f_sibling f = true ->
  next_ n = Some ra -> mem ra = Some rn -> 1 <= knum n -> merge_fits n rn = false ->
  merge T mem this n mid = Some (mkRemove n None false false mid).
Proof.
  intros Hf E Hs Hra Hrn Hk Hm. unfold merge. destruct (inode_reads n f Hf E) as (-> & _).
  rewrite Hs, Hra, bind_Some, Hrn, bind_Some. btrue (1 <=? knum n). cbn [asserting].
  unfold merge_fits in Hm. by rewrite Hm.
Qed.

Lemma join_columns n rn (at_ : inode -> Z) k seps rseps fs1 fs2 :
  (forall fs, at_ (set_features n fs) = k) ->
  full_columns fs1 k seps -> full_columns fs2 (knum rn) rseps ->
  0 <= k -> 0 <= knum rn -> k + knum rn <= 64 ->
  exists fs, for_range (fun rid n' => copy_row (set_features rn fs2) n' rid (at_ n') 0 (knum rn)) 0 F
                 (set_features n fs1)
      = Some (set_features n fs)
    /\ full_columns fs (k + knum rn) (join seps k rseps).
Proof.
  intros Hat [Hf1 Hc1] [Hf2 Hc2] Hk Hrk Hle.
  destruct (copy_columns (set_features rn fs2) (set_features n fs1) at_ k 0 (knum rn))
    as (fs & E & Hf & Hc); [done|done|done|lia..|].
  exists fs. split; [exact E|]. split; [done|]. intros r j Hr Hj. rewrite Hc by lia. unfold join.
  cbn [features set_features]. destruct (Z.ltb_spec j k).
  - bfalse ((k <=? j) && (j <? k + knum rn)). apply Hc1; lia.
  - btrue ((k <=? j) && (j <? k + knum rn)). rewrite Hc2 by lia. done.
Qed.

(** the routes of a node before those of its sibling *)
Lemma inode_merge_yes mem this n f seps mid ra rn g rseps :
  inode_wf T n f seps -> 1 <= knum n -> Control.f_sibling f = true ->
  right_sibling mem n (knum n) seps ra rn g rseps -> merge_fits n rn = true ->
  exists n' rn', merge T mem this n mid
      = Some (mkRemove n' (Some (ra, rn')) true false (seps (knum n - 1)))
    /\ inode_wf T n' (Control.with_sibling f (Control.f_sibling g)) (join seps (knum n) rseps)
    /\ knum n' = knum n + knum rn
    /\ (forall j, 0 <= j <= knum n' -> route n' j = join (route n) (knum n) (route rn) j)
    /\ merged_away rn' g this.
Proof.
  intros [Hs Hseps Hw Hv Hin Hemp] Hk1 Hsib [Hra Hmem [Rs Rseps Rw Rv Rin Remp] Hlk Hdel Habove] Hm.
  pose proof (sh_knum T n Hs) as Hk. pose proof (sh_knum T rn Rs) as Rk.
  pose proof (sh_children T n Hs) as Hcl. pose proof (sh_children T rn Rs) as Rcl.
  assert (knum n + knum rn <= 64) as Hle.
  { unfold merge_fits in Hm. replace (kMergeSize T) with 32 in Hm by (by destruct T). blia. }
  unfold merge. destruct (inode_reads n f Hv Hw) as (-> & _).
  rewrite Hsib, Hra, bind_Some, Hmem, bind_Some. btrue (1 <=? knum n). cbn [asserting].
  fold (merge_fits n rn). rewrite Hm, (inode_latch_exclusive_eq rn g), bind_Some by done.
  set (rn1 := set_control rn _). change (knum rn1) with (knum rn). cbn zeta.
  fold (merge_fits n rn). rewrite Hm, (read_key_spec n seps), bind_Some by (done || lia).
  destruct (memory_expand_full n seps Hs Hseps) as (fs1 & -> & Hf1). rewrite bind_Some.
  destruct (memory_expand_full rn1 rseps) as (fs2 & -> & Hf2);
    [by apply set_control_shape|by apply set_control_seps|]. rewrite bind_Some.
  destruct (join_columns n rn1 knum (knum n) seps rseps fs1 fs2) as (fs & E & Hf); [done|done|done|cbn; lia..|].
  change (knum rn1) with (knum rn) in *. change (knum (set_features n fs1)) with (knum n).
  rewrite E, bind_Some. clear E. cbn [knum children set_features rn1 set_control].
  destruct (memmove64_spec T (children rn) 0 (children n) (knum n) (knum rn) true) as (c & -> & Hl & Hg); [lia..|].
  rewrite bind_Some.
  match goal with |- context [memory_shrink T ?a] =>
    destruct (shrink_full a (knum n + knum rn) (join seps (knum n) rseps))
      as (n1 & -> & Hs1 & Hq1 & Hc1 & Hkn1 & Hn1 & Hch1) end.
  { done. }
  { done. }
  { lia. }
  { apply increasing_join; [intros i j; apply (so_lt T n seps Hseps)|intros i j; apply (so_lt T rn rseps Rseps)
    |done|lia]. }
  { intros j Hj. unfold join. destruct (Z.ltb_spec j (knum n)).
    - apply (so_is T n seps Hseps). lia.
    - apply (so_is T rn rseps Rseps). lia. }
  { apply Hs. }
  { cbn. congruence. }
  rewrite bind_Some. cbn [icontrol next_ set_knum set_features set_control set_next].
  destruct (inode_reads rn1 (Control.with_locked g true) Rv eq_refl) as (Hrs & _).
  rewrite Hrs. change (Control.f_sibling (Control.with_locked g true)) with (Control.f_sibling g).
  rewrite (inode_clear_sibling_eq _ f), bind_Some by (done || by cbn; rewrite Hc1).
  match goal with |- context [on_control ?m Control.set_delete] =>
    destruct (retire_eq m g Rv Hdel eq_refl Hlk) as (rn2 & -> & Eu & El) end.
  rewrite !bind_Some, El, bind_Some.
  eexists _, _. split; [done|]. split; [|split; [done|split; [|done]]].
  - split; try done.
    + cbn. apply set_control_shape. destruct Hs1. by split.
    + destruct Hq1. by split.
    + cbn. lia.
  - cbn [knum set_control set_next]. rewrite Hkn1. intros j Hj. unfold route at 1.
    cbn [knum children next_ set_control set_next]. rewrite Hkn1, Hch1.
    apply (routes_join (knum n) (children n) (next_ n)); [lia|done|done].
Qed.

(** ** [remove] of the last separator *)

(** fewer separators, in the same columns *)
Lemma seps_fewer n seps k : seps_ok T n seps -> k <= knum n -> seps_ok T (set_knum n k) seps.
Proof.
  intros [His Hlt] Hk. split; cbn [knum set_knum]; [|intros i j Hij Hj; apply Hlt; lia].
  intros j Hj. apply His. lia.
Qed.

Lemma bound_extension_spec n seps :
  shape n -> seps_ok T n seps -> 1 <= knum n ->
  exists n', bound_extension T n = Some n' /\ shape n' /\ seps_ok T n' seps
    /\ knum n' = knum n /\ icontrol n' = icontrol n /\ next_ n' = next_ n /\ children n' = children n.
Proof.
  intros Hs Hseps Hk1. pose proof (sh_knum T n Hs). unfold bound_extension. btrue (1 <=? knum n).
  cbn [asserting].
  destruct (extend_prefix_spec n seps (knum n - 1)) as (n' & E & Hs' & Hseps' & Hk' & Hc); [done|lia| |].
  { apply seps_fewer; [done|lia]. }
  exists n'. split; [done|]. split; [done|]. split; [|done].
  replace (knum n - 1 + 1) with (knum n') in Hseps' by lia. by destruct n'.
Qed.

Lemma bound_remove_alone mem this n f seps mid index :
  inode_wf T n f seps -> Control.f_sibling f = false -> 0 <= index -> index = knum n - 1 ->
  exists n', bound_remove T mem this n mid index = Some (mkRemove n' None false false mid)
    /\ inode_wf T n' f seps /\ knum n' = index
    /\ forall j, 0 <= j <= index -> route n' j = route n j.
Proof.
  intros [Hs Hseps Hw Hv Hin Hemp] Hsib Hi Ei. pose proof (sh_knum T n Hs) as Hk.
  pose proof (sh_children T n Hs) as Hcl. unfold bound_remove.
  destruct (inode_reads n f Hv Hw) as (-> & _). rewrite Hsib. cbn [negb].
  destruct (aget_in_range (children n) index) as [c Ec]; [lia|]. rewrite Ec, bind_Some.
  cbn [knum set_next]. rewrite <- Ei. cbn zeta.
  set (n1 := set_knum (set_next n c) index). change (knum n1) with index.
  assert (forall n', knum n' = index -> next_ n' = c -> children n' = children n ->
    forall j, 0 <= j <= index -> route n' j = route n j) as Hroutes.
  { intros n' Hk' Hn' Hc' j Hj. unfold route. rewrite Hk', Hn', Hc'. bfalse (j =? knum n).
    destruct (Z.eqb_spec j index) as [->|]; [done|done]. }
  assert (shape n1) as Hs1 by (destruct Hs; split; cbn; try done; lia).
  assert (seps_ok T n1 seps) as Hq1 by (by apply (seps_fewer (set_next n c)); [destruct Hseps|cbn; lia]).
  destruct (Z.eqb_spec index 0) as [E0|Hne].
  - rewrite bind_Some. eexists. split; [done|]. split; [|split; [done|by apply Hroutes]].
    split; try done.
    + destruct Hs1. split; cbn; try done. pose proof (F_bounds T). lia.
    + split; cbn [knum set_plen n1 set_knum set_next]; intros; lia.
  - destruct (bound_extension_spec n1 seps Hs1 Hq1) as (n' & -> & Hs' & Hq' & Hk' & Hc' & Hn' & Hch'); [cbn; lia|].
    rewrite bind_Some. exists n'. split; [done|]. split; [|split; [done|by apply Hroutes]].
    split; try done; [by rewrite Hc'|]. cbn in Hk'. lia.
Qed.

(** whether the sibling is merged when the last separator goes *)
Definition bound_merges (index : Z) rn : bool :=
  (index + knum rn <=? kMergeSize T) || (index =? 0) || (knum rn =? 0) || (knum rn =? 1).

Lemma release_eq n g :
  Control.valid g -> icontrol n = Control.encode (Control.with_locked g true) ->
  Control.f_locked g = false ->
  on_control n Control.unlatch_exclusive = Some (set_control n (Control.encode g)).
Proof.
  intros Hg E Hl. apply (inode_run_control n (Control.with_locked g true) Control.OpUnlatch g); [done|done|].
  cbn. f_equal. by destruct g; cbn in *; subst.
Qed.

Lemma bound_remove_apart mem this n f seps mid index ra rn g rseps :
  inode_wf T n f seps -> Control.f_sibling f = true -> 0 <= index -> index = knum n - 1 ->
  right_sibling mem n index seps ra rn g rseps -> bound_merges index rn = false ->
  exists n' rn', bound_remove T mem this n mid index
      = Some (mkRemove n' (Some (ra, rn')) false true (seps (index - 1)))
    /\ inode_wf T n' f seps /\ knum n' = index /\ next_ n' = next_ n
    /\ (forall j, 0 <= j < index -> route n' j = route n j)
    /\ inode_wf T rn' (Control.bump g) rseps /\ knum rn' = knum rn
    /\ forall j, 0 <= j <= knum rn -> route rn' j = upd (route rn) 0 (route n index) j.
Proof.
  intros [Hs Hseps Hw Hv Hin Hemp] Hsib Hi Ei [Hra Hmem [Rs Rseps Rw Rv Rin Remp] Hlk Hdel _] Hm.
  pose proof (sh_knum T n Hs) as Hk. pose proof (sh_knum T rn Rs) as Rk.
  pose proof (sh_children T n Hs) as Hcl. pose proof (sh_children T rn Rs) as Rcl.
  unfold bound_remove. destruct (inode_reads n f Hv Hw) as (-> & _).
  rewrite Hsib, Hra, bind_Some, Hmem, bind_Some. cbn [negb].
  rewrite (inode_latch_exclusive_eq rn g), bind_Some by done.
  rewrite (inode_update_version_eq _ (Control.with_locked g true)) by done.
  set (rn1 := set_control _ _). change (knum rn1) with (knum rn). cbn zeta.
  fold (bound_merges index rn). rewrite Hm. unfold bound_merges in Hm.
  rewrite (read_key_spec n seps), bind_Some by (done || blia).
  destruct (aget_in_range (children n) index) as [x Ex]; [lia|]. rewrite Ex, bind_Some.
  cbn [children rn1 set_control]. rewrite aset_in_range, bind_Some by lia.
  cbn [knum]. rewrite <- Ei. set (n1 := set_knum n index).
  assert (shape n1) as Hs1 by (destruct Hs; split; cbn; try done; lia).
  assert (seps_ok T n1 seps) as Hq1 by (apply seps_fewer; [done|lia]).
  destruct (bound_extension_spec n1 seps Hs1 Hq1) as (n' & -> & Hs' & Hq' & Hk' & Hc' & Hn' & Hch'); [cbn; blia|].
  rewrite !bind_Some.
  rewrite (release_eq _ (Control.bump g)), bind_Some by (try done; by apply Control.bump_valid).
  eexists _, _. split; [done|]. split; [|split; [exact Hk'|split; [exact (eq_trans Hn' Hra)|split; [|split; [|split; [done|]]]]]].
  - split; try done; [by rewrite Hc'|]. cbn in Hk'. blia.
  - intros j Hj. unfold route. rewrite Hk', Hch'. bfalse (j =? knum n). cbn [knum n1 set_knum children].
    by bfalse (j =? index).
  - split; try done; [|by destruct Rseps|by apply Control.bump_valid].
    destruct Rs. split; cbn; try done. by rewrite length_insert.
  - intros j Hj. unfold route, upd. cbn [knum children next_ set_control set_children]. 
    change (knum rn1) with (knum rn). change (next_ rn1) with (next_ rn).
    bfalse (index =? knum n). rewrite Ex. destruct (Z.eqb_spec j 0) as [->|].
    + bfalse (0 =? knum rn). by rewrite aget_insert by lia.
    + destruct (Z.eqb_spec j (knum rn)); [done|]. rewrite aget_insert by lia. by bfalse (0 =? j).
Qed.

(** the copies of [bound_remove] that merge: the columns and children of both nodes *)
Lemma bound_merge_copies n rn seps rseps index :
  shape n -> seps_ok T n seps -> shape rn -> seps_ok T rn rseps ->
  0 <= index -> index = knum n - 1 -> bound_merges index rn = true ->
  let m := if knum rn =? 0 then 0 else knum rn - 1 in
  exists fs1 fs2 fs c, memory_expand T n = Some (set_features n fs1)
    /\ memory_expand T rn = Some (set_features rn fs2)
    /\ for_range (fun rid n' => copy_row (set_features rn fs2) n' rid index 0 (knum rn)) 0 F
         (set_features n fs1) = Some (set_features n fs)
    /\ full_columns fs (index + knum rn) (join seps index rseps)
    /\ memmove64 T (children rn) 1 (children n) (knum n) m true = Some c
    /\ length c = 64%nat /\ index + knum rn <= 64
    /\ (forall j, 0 <= j -> aget c j = moved (children n) (children rn) 1 (knum n) m j).
Proof.
  intros Hs Hseps Rs Rseps Hi Ei Hm m.
  pose proof (sh_knum T n Hs) as Hk. pose proof (sh_knum T rn Rs) as Rk.
  pose proof (sh_children T n Hs) as Hcl. pose proof (sh_children T rn Rs) as Rcl.
  assert (index + knum rn <= 64) as Hle.
  { unfold bound_merges in Hm. replace (kMergeSize T) with 32 in Hm by (by destruct T).
    clear - Hm Hk Rk Ei. blia. }
  destruct (memory_expand_full n seps Hs Hseps) as (fs1 & -> & Hf1).
  destruct (memory_expand_full rn rseps Rs Rseps) as (fs2 & -> & Hf2).
  destruct (join_columns n rn (fun _ => index) index seps rseps fs1 fs2) as (fs & E & Hf); [done| |done|lia..|].
  { destruct Hf1 as [Hr1 Hc1]. split; [done|]. intros r j Hr Hj. apply Hc1; lia. }
  destruct (memmove64_spec T (children rn) 1 (children n) (knum n) m true) as (c & Ec & Hl & Hg);
    [unfold m; destruct (Z.eqb_spec (knum rn) 0); lia..|].
  exists fs1, fs2, fs, c. do 2 (split; [done|]). split; [exact E|]. split; [done|].
  split; [done|]. split; [congruence|]. done.
Qed.

Lemma bound_remove_merge mem this n f seps mid index ra rn g rseps :
  inode_wf T n f seps -> Control.f_sibling f = true -> 0 <= index -> index = knum n - 1 ->
  right_sibling mem n index seps ra rn g rseps -> bound_merges index rn = true ->
  1 <= index + knum rn ->
  exists n' rn', bound_remove T mem this n mid index
      = Some (mkRemove n' (Some (ra, rn')) true false mid)
    /\ inode_wf T n' (Control.with_sibling f (Control.f_sibling g)) (join seps index rseps)
    /\ knum n' = index + knum rn
    /\ (forall j, 0 <= j <= knum n' ->
         route n' j = join (route n) (index + 1) (fun i => route rn (i + 1)) j)
    /\ merged_away rn' g this.
Proof.
  intros [Hs Hseps Hw Hv Hin Hemp] Hsib Hi Ei [Hra Hmem [Rs Rseps Rw Rv Rin Remp] Hlk Hdel Habove] Hm Hpos.
  pose proof (sh_knum T n Hs) as Hk. pose proof (sh_knum T rn Rs) as Rk.
  unfold bound_remove. destruct (inode_reads n f Hv Hw) as (-> & _).
  rewrite Hsib, Hra, bind_Some, Hmem, bind_Some. cbn [negb].
  rewrite (inode_latch_exclusive_eq rn g), bind_Some by done.
  rewrite (inode_update_version_eq _ (Control.with_locked g true)) by done.
  set (rn1 := set_control _ _). change (knum rn1) with (knum rn). cbn zeta.
  fold (bound_merges index rn). rewrite Hm.
  destruct (bound_merge_copies n rn1 seps rseps index) as
    (fs1 & fs2 & fs & c & -> & -> & E & Hf & Ec & Hcl & Hle & Hg); try done.
  { by destruct Rs. }
  { by destruct Rseps. }
  change (knum rn1) with (knum rn) in *.
  rewrite !bind_Some, E, bind_Some. cbn [knum children set_features]. rewrite Ec, bind_Some.
  match goal with |- context [memory_shrink T ?a] =>
    destruct (shrink_full a (index + knum rn) (join seps index rseps))
      as (n1 & -> & Hs1 & Hq1 & Hc1 & Hkn1 & Hn1 & Hch1) end.
  { done. }
  { cbn. lia. }
  { lia. }
  { apply increasing_join; [intros i j Hij Hj; apply (so_lt T n seps Hseps); lia
    |intros i j; apply (so_lt T rn rseps Rseps)|done|lia]. }
  { intros j Hj. unfold join. destruct (Z.ltb_spec j index).
    - apply (so_is T n seps Hseps). lia.
    - apply (so_is T rn rseps Rseps). lia. }
  { apply Hs. }
  { done. }
  rewrite bind_Some.
  destruct (aget_in_range (children n) index) as [x Ex]; [rewrite (sh_children T n Hs); lia|].
  set (nx := if knum rn =? 0 then x else next_ rn).
  assert ((if negb (knum rn =? 0)
           then Some (set_next n1 (next_ (set_knum (set_features rn1 fs2) 0)))
           else let* c0 := aget (children n1) index in Some (set_next n1 c0))
          = Some (set_next n1 nx)) as ->.
  { unfold nx. destruct (Z.eqb_spec (knum rn) 0); cbn [negb]; [|done].
    rewrite Hch1. cbn [children set_knum set_children]. rewrite Hg by lia. unfold moved.
    destruct (Z.leb_spec (knum n) index); [lia|]. cbn [andb]. by rewrite Ex. }
  rewrite bind_Some. cbn [icontrol next_ set_knum set_features set_next].
  destruct (inode_reads rn1 (Control.bump (Control.with_locked g true))) as (Hrs & _);
    [by apply (Control.bump_valid (Control.with_locked g true))|done|].
  rewrite Hrs. change (Control.f_sibling (Control.bump (Control.with_locked g true))) with (Control.f_sibling g).
  rewrite (inode_clear_sibling_eq _ f), bind_Some by (done || by cbn; rewrite Hc1).
  match goal with |- context [on_control ?m Control.set_delete] =>
    pose proof (inode_run_control m (Control.bump (Control.with_locked g true)) Control.OpSetDelete
      (Control.with_locked (Control.merged_fields g) true)) as Hd end.
  cbn [Control.run] in Hd. rewrite Hd, !bind_Some; [|by apply (Control.bump_valid (Control.with_locked g true))|done|].
  2:{ cbn. rewrite Hdel. done. }
  rewrite (release_eq _ (Control.merged_fields g)), bind_Some; [|by apply (Control.bump_valid (Control.with_deleted g true))|done|done].
  eexists _, _. split; [done|]. split; [|split; [done|split; [|done]]].
  - split; try done.
    + apply set_control_shape. destruct Hs1. by split.
    + destruct Hq1. by split.
    + cbn. lia.
  - cbn [knum set_control set_next]. rewrite Hkn1. intros j Hj. unfold route at 1.
    cbn [knum children next_ set_control set_next]. rewrite Hkn1, Hch1. subst index.
    apply (routes_bound_join (knum n) (children n) (next_ n) (knum rn) (children rn) (next_ rn)); [lia|lia|done|done|done].
Qed.

(** with no separator left at all, [memory_shrink] inode_reads the column before the first *)
Lemma memory_shrink_empty n : knum n = 0 -> length (prefix n) = 8%nat -> memory_shrink T n = None.
Proof.
  intros Hk Hp. unfold memory_shrink, byte_fuel. cbn [for_break]. pose proof (F_bounds T).
  bfalse (F <=? 0).
  destruct (feat n 0 0) as [a|]; [|done]. rewrite bind_Some, aset_in_range, bind_Some by lia.
  cbn [knum set_prefix]. rewrite Hk. unfold feat. destruct (aget _ _); [|done]. done.
Qed.

Lemma bound_remove_nothing mem this n f seps mid ra rn g rseps :
  inode_wf T n f seps -> Control.f_sibling f = true -> knum n = 1 ->
  right_sibling mem n 0 seps ra rn g rseps -> knum rn = 0 ->
  bound_remove T mem this n mid 0 = None.
Proof.
  intros [Hs Hseps Hw Hv Hin Hemp] Hsib Hk [Hra Hmem [Rs Rseps Rw Rv Rin Remp] Hlk Hdel _] Rk.
  unfold bound_remove. destruct (inode_reads n f Hv Hw) as (-> & _).
  rewrite Hsib, Hra, bind_Some, Hmem, bind_Some. cbn [negb].
  rewrite (inode_latch_exclusive_eq rn g), bind_Some by done.
  rewrite (inode_update_version_eq _ (Control.with_locked g true)) by done.
  set (rn1 := set_control _ _). change (knum rn1) with (knum rn). cbn zeta.
  fold (bound_merges 0 rn). assert (bound_merges 0 rn = true) as Hm.
  { unfold bound_merges. rewrite Z.eqb_refl. by rewrite orb_true_r. }
  rewrite Hm. destruct (bound_merge_copies n rn1 seps rseps 0) as
    (fs1 & fs2 & fs & c & -> & -> & E & _ & Ec & _); try done.
  { by destruct Rs. }
  { by destruct Rseps. }
  { lia. }
  change (knum rn1) with (knum rn) in *.
  rewrite !bind_Some, E, bind_Some. cbn [knum children set_features]. rewrite Ec, bind_Some.
  rewrite memory_shrink_empty; [done| |apply Hs]. cbn. lia.
Qed.

(** ** [anchor_update] and [root_remove] *)

Lemma anchor_update_spec n f seps mid index :
  inode_wf T n f seps -> 0 <= index < knum n -> Forall is_byte mid -> Z.of_nat (length mid) = F ->
  (forall j, 0 <= j < index -> key_lt (seps j) mid) -> (forall j, index < j < knum n -> key_lt mid (seps j)) ->
  exists n', anchor_update T n mid index = Some (n', Control.f_sibling f && (knum n - 1 =? index))
    /\ inode_wf T n' (Control.bump f) (upd seps index mid) /\ knum n' = knum n
    /\ forall j, 0 <= j <= knum n -> route n' j = route n j.
Proof.
  intros [Hs Hseps Hw Hv Hin Hemp] Hi Hb Hl Hlt Hgt. pose proof (sh_knum T n Hs) as Hk.
  pose proof (F_bounds T). unfold anchor_update. btrue ((0 <=? index) && (index <? knum n)). cbn [asserting].
  rewrite (inode_update_version_eq n f) by done. set (n0 := set_control n _).
  destruct (memory_expand_full n0 seps) as (fs & -> & Hf & Hc);
    [by apply set_control_shape|by apply set_control_seps|]. rewrite bind_Some.
  match goal with |- context [for_range ?body _ _ _] =>
    destruct (rows_loop (set_features n0 fs) body F (fun r j => if j =? index then aget mid r else cell fs r j))
      as (fs2 & E & Hf2 & Hc2) end.
  - done.
  - lia.
  - intros rid gs Hrid Hg Hrow.
    destruct (key_byte mid rid Hb Hl ltac:(lia)) as (c & Ec & Hcb). rewrite Ec, bind_Some.
    destruct (set_feat_at n0 gs rid index c) as (gs2 & E & Hg2 & Hd2); [done|lia|lia|done|].
    exists gs2. split; [exact E|]. split; [done|]. intros r j Hr Hj. rewrite Hd2 by done.
    destruct (Z.eqb_spec r rid) as [->|]; cbn [andb]; [|done].
    destruct (j =? index); [done|]. by apply Hrow.
  - rewrite E, bind_Some. clear E.
    match goal with |- context [memory_shrink T ?a] =>
      destruct (shrink_full a (knum n) (upd seps index mid)) as (n1 & -> & Hs1 & Hq1 & Hc1 & Hkn1 & Hn1 & Hch1) end.
    { split; [done|]. intros r j Hr Hj. cbn [features set_features]. rewrite Hc2 by lia.
      btrue (r <? F). unfold upd. destruct (j =? index); [done|]. apply Hc; [done|]. exact Hj. }
    { done. }
    { lia. }
    { apply increasing_upd; [intros i j; apply (so_lt T n seps Hseps)|done..]. }
    { intros j Hj. unfold upd. destruct (j =? index); [done|]. by apply (so_is T n seps Hseps). }
    { apply Hs. }
    { apply Hs. }
    rewrite bind_Some, Hc1, Hkn1. cbn [icontrol set_features n0 set_control].
    destruct (inode_reads n0 (Control.bump f) (Control.bump_valid f Hv) eq_refl) as (Hr & _).
    cbn [icontrol n0 set_control] in Hr. rewrite Hr. eexists. split; [done|]. split; [|split; [done|]].
    + split; try done; [by apply Control.bump_valid|lia].
    + intros j Hj. unfold route. by rewrite Hkn1, Hch1, Hn1.
Qed.

Lemma root_remove_spec n f seps :
  inode_wf T n f seps -> Control.f_deleted f = false ->
  root_remove n = if knum n =? 0
    then Some (set_control n (Control.encode (Control.with_deleted f true)), next_ n)
    else Some (n, None).
Proof.
  intros [Hs Hseps Hw Hv Hin Hemp] Hdel. unfold root_remove.
  destruct (Z.eqb_spec (knum n) 0) as [Hk|]; [|done].
  pose proof (inode_run_control n f Control.OpSetDelete (Control.with_deleted f true)) as H.
  cbn [Control.run] in H. rewrite H, bind_Some; [done|done|done|cbn; by rewrite Hdel].
Qed.
End ops.
