(* ===== verification/InnerProps.v ===== *)
(** * The properties of the inner node, and the node of the examples *)

From S2P Require Import Prelude Bits Simd Strings Encode Control Leaf Inner InnerSpec Moves InnerOps.
Import Inner.

#[local] Opaque for_mask mask_fuel.

(** C11: Two searches, one result. For a key in encoded form, [to_next] follows the route
    of its lower bound among the separators, and says whether that leaves the node
    for its sibling; [index_or_sibling] gives the lower bound itself, or the sibling
    when the key is past the last separator of a node that has one. *)
Theorem inner_search_correct (T : ktype) (n : inode) (f : Control.fields) (seps : Z -> list Z) (key : list Z) :
  inode_wf T n f seps -> Control.f_locked f = false -> Control.f_deleted f = false -> linked n ->
  Forall is_byte key -> Z.of_nat (length key) = kFeatureSize T ->
  exists idx next, lower_bound n seps key idx /\ route n idx = Some (Some next)
    /\ to_next T n key = Some ((idx =? knum n) && Control.f_sibling f, Some next)
    /\ index_or_sibling T n key =
         Some (if (idx =? knum n) && negb (knum n =? 0) && Control.f_sibling f then inr next else inl idx).
Proof.
  intros Hwf Hl Hd Hli Hb Hlen.
  destruct (to_next_spec T n f seps key Hwf Hl Hd Hli Hb Hlen) as (idx & next & H1 & H2 & H3).
  exists idx, next. do 3 (split; [done|]).
  destruct (index_or_sibling_spec T n f seps key Hwf Hd) as (idx' & H4 & ->); [by intros _; apply Hli|done..|].
  rewrite (lower_bound_unique n seps key idx' idx) by done.
  destruct (_ && _ && _) eqn:E; [|done]. unfold route in H2.
  destruct (idx =? knum n); [|done]. by injection H2 as ->.
Qed.

(** C14: [insert] puts the separator at its index with the new child to its right. A full
    node is split: the left node keeps all its 64 separators when the new one goes past
    the last of them, which leaves the new node the new one alone, and otherwise the
    first 33 or 32 of the 65 separators, as the index is below 32 or not; the two nodes
    have all 65 separators and 66 children in order, the left one links to the new one,
    and the separator returned is the last one of the left node. *)
Theorem inner_insert_correct (T : ktype) (n : inode) (f : Control.fields) (seps : Z -> list Z)
    (lchild rchild : ptr) (mid : list Z) (index rnode : Z) (rw : raw) :
  inode_wf T n f seps -> insert_at T n seps mid index -> raw_ok T rw ->
  next_node lchild -> next_node rchild -> left_child n index lchild ->
  exists r, insert T n lchild rchild mid index rnode rw = Some r
    /\ match i_rnode r with
       | None =>
           inode_wf T (i_this r) (Control.bump f) (ins seps index mid) /\ knum (i_this r) = knum n + 1
           /\ forall j, 0 <= j <= knum n + 1 -> route (i_this r) j = ins_routes n index lchild rchild j
       | Some (rn, mid') =>
           knum n = 64
           /\ exists c, mid' = ins seps index mid (c - 1)
                /\ split_done T n (Control.bump f) seps mid index lchild rchild rnode (i_this r) rn c
       end.
Proof.
  intros Hwf Hat Hraw Hl Hr Hroute. pose proof (sh_knum T n (iw_shape T n f seps Hwf)) as Hk.
  destruct (decide (knum n < 64)) as [Hroom|Hfull].
  - destruct (insert_room T n f seps lchild rchild mid index rnode rw) as (n' & E & H); try done.
    eexists. split; [exact E|]. exact H.
  - destruct (insert_split T n f seps lchild rchild mid index rnode rw) as (n' & rn' & c & E & H);
      try done; [lia|].
    eexists. split; [exact E|]. cbn. split; [lia|]. by exists c.
Qed.

(** the code of [remove] up to the merge *)
Lemma remove_inner T mem this n f seps mid index :
  inode_wf T n f seps -> 0 <= index < knum n - 1 ->
  exists n1, remove T mem this n mid index = merge T mem this n1 mid
    /\ inode_wf T n1 (Control.bump f) (del seps index) /\ knum n1 = knum n - 1 /\ next_ n1 = next_ n
    /\ forall j, 0 <= j <= knum n1 -> route n1 j = del (route n) (index + 1) j.
Proof.
  intros Hwf Hi. unfold remove. pose proof Hwf as [Hs Hseps Hw Hv Hin Hemp].
  rewrite (inode_update_version_eq n f) by done. set (n0 := set_control n _).
  assert (inode_wf T n0 (Control.bump f) seps) as Hwf0.
  { split; try done; [by apply set_control_shape|by apply set_control_seps|by apply Control.bump_valid]. }
  destruct (key_removed_spec T n0 (Control.bump f) seps index Hwf0) as (n1 & E & H1 & Hk1 & _ & Hn1 & Hr1); [done|].
  change (knum n0) with (knum n) in *.
  btrue ((0 <=? index) && (index <? knum n)). cbn [asserting]. btrue (index <? knum n - 1).
  unfold key_removed in E. bind_inv E. injection E as <-. rewrite !bind_Some, E1. cbn [asserting].
  rewrite E2, bind_Some. cbn [knum set_knum set_children] in Hk1 |- *. btrue (1 <=? knum i - 1).
  cbn [asserting]. eexists. split; [reflexivity|]. done.
Qed.

Lemma remove_spec (T : ktype) (mem : Z -> option inode) (this : Z) (n : inode)
    (f : Control.fields) (seps : Z -> list Z) (mid : list Z) (index ra : Z) (rn : inode)
    (g : Control.fields) (rseps : Z -> list Z) :
  inode_wf T n f seps -> 0 <= index < knum n - 1 ->
  (Control.f_sibling f = true -> right_sibling T mem n (knum n - 1) (del seps index) ra rn g rseps) ->
  exists r, remove T mem this n mid index = Some r /\ d_up r = false
    /\ if Control.f_sibling f && ((knum n - 1 + knum rn <=? 32) || (knum rn =? 0)) then
         inode_wf T (d_this r) (Control.with_sibling (Control.bump f) (Control.f_sibling g))
           (join (del seps index) (knum n - 1) rseps)
         /\ knum (d_this r) = knum n - 1 + knum rn
         /\ (forall j, 0 <= j <= knum (d_this r) ->
              route (d_this r) j = join (del (route n) (index + 1)) (knum n - 1) (route rn) j)
         /\ d_merged r = true /\ d_mid r = del seps index (knum n - 2)
         /\ exists rn', d_rnode r = Some (ra, rn') /\ merged_away rn' g this
              /\ forall key, to_next T rn' key = Some (true, Some this)
       else
         inode_wf T (d_this r) (Control.bump f) (del seps index) /\ knum (d_this r) = knum n - 1
         /\ (forall j, 0 <= j <= knum (d_this r) -> route (d_this r) j = del (route n) (index + 1) j)
         /\ d_merged r = false /\ d_mid r = mid /\ d_rnode r = None.
Proof.
  intros Hwf Hi Hsib. pose proof (iw_valid T n f seps Hwf) as Hv.
  destruct (remove_inner T mem this n f seps mid index Hwf Hi) as (n1 & -> & H1 & Hk1 & Hn1 & Hr1).
  pose proof (iw_word _ _ _ _ H1) as Hw1.
  destruct (Control.f_sibling f) eqn:Es; cbn [andb].
  2:{ rewrite (inode_merge_alone T mem this n1 (Control.bump f)) by (done || by apply Control.bump_valid).
      eexists. split; [done|]. by rewrite <- Hk1. }
  specialize (Hsib eq_refl). destruct Hsib as [Hra Hmem Hrwf Hlk Hdel Habove].
  destruct (_ || _) eqn:Em.
  - destruct (inode_merge_yes T mem this n1 (Control.bump f) (del seps index) mid ra rn g rseps)
      as (n' & rn' & E & H2 & Hk2 & Hr2 & Haway); [done|lia|done| | |].
    { split; try done; [congruence|by rewrite Hk1]. }
    { unfold merge_fits. replace (kMergeSize T) with 32 by (by destruct T). by rewrite Hk1. }
    rewrite E. eexists. split; [done|]. cbn [d_this d_merged d_up d_mid d_rnode]. rewrite <- Hk1.
    split; [done|]. split; [done|]. split; [done|]. split; [|split; [done|split]].
    + intros j Hj. rewrite Hr2 by done. unfold join. destruct (Z.ltb_spec j (knum n1)); [|done].
      apply Hr1. lia.
    + f_equal. lia.
    + exists rn'. split; [done|]. split; [done|]. intros key.
      by apply (merged_away_to_next T rn' g); [apply Hrwf| |].
  - rewrite (inode_merge_not T mem this n1 (Control.bump f) mid ra rn); try done.
    + eexists. split; [done|]. by rewrite <- Hk1.
    + by apply Control.bump_valid.
    + congruence.
    + lia.
    + unfold merge_fits. replace (kMergeSize T) with 32 by (by destruct T). by rewrite Hk1.
Qed.

(** C16: [remove] of a separator that is not the last one takes it out with the child to
    its right. The sibling is then merged into the node exactly when the two have at
    most 32 separators together or the sibling has none: the node gets all of them,
    the children and the link, the separator returned is the old last one, and the
    sibling is left empty, marked deleted, pointing back (a search that gets there
    returns to the node). *)
Theorem inner_remove_correct (T : ktype) (mem : Z -> option inode) (this : Z) (n : inode)
    (f : Control.fields) (seps : Z -> list Z) (mid : list Z) (index ra : Z) (rn : inode)
    (g : Control.fields) (rseps : Z -> list Z) :
  inode_wf T n f seps -> 0 <= index < knum n - 1 ->
  (Control.f_sibling f = true -> right_sibling T mem n (knum n - 1) (del seps index) ra rn g rseps) ->
  exists r, remove T mem this n mid index = Some r /\ d_up r = false
    /\ if Control.f_sibling f && ((knum n - 1 + knum rn <=? 32) || (knum rn =? 0)) then
         inode_wf T (d_this r) (Control.with_sibling (Control.bump f) (Control.f_sibling g))
           (join (del seps index) (knum n - 1) rseps)
         /\ knum (d_this r) = knum n - 1 + knum rn
         /\ (forall j, 0 <= j <= knum (d_this r) ->
              route (d_this r) j = join (del (route n) (index + 1)) (knum n - 1) (route rn) j)
         /\ d_merged r = true /\ d_mid r = del seps index (knum n - 2)
         /\ exists rn', d_rnode r = Some (ra, rn') /\ merged_away rn' g this
              /\ forall key, to_next T rn' key = Some (true, Some this)
       else
         inode_wf T (d_this r) (Control.bump f) (del seps index) /\ knum (d_this r) = knum n - 1
         /\ (forall j, 0 <= j <= knum (d_this r) -> route (d_this r) j = del (route n) (index + 1) j)
         /\ d_merged r = false /\ d_mid r = mid /\ d_rnode r = None.
Proof. apply remove_spec. Qed.

Lemma remove_bound T mem this n f seps mid index :
  inode_wf T n f seps -> 0 <= index -> index = knum n - 1 ->
  exists n0, n0 = set_control n (Control.encode (Control.bump f))
    /\ remove T mem this n mid index = bound_remove T mem this n0 mid index
    /\ inode_wf T n0 (Control.bump f) seps.
Proof.
  intros [Hs Hseps Hw Hv Hin Hemp] Hi Ei. eexists. split; [done|].
  split.
  - unfold remove. rewrite (inode_update_version_eq n f) by done. set (n0 := set_control n _).
    change (knum n0) with (knum n). btrue ((0 <=? index) && (index <? knum n)). cbn [asserting].
    bfalse (index <? knum n - 1). by btrue (index =? knum n - 1).
  - split; try done; [by apply set_control_shape|by apply set_control_seps|by apply Control.bump_valid].
Qed.

Lemma remove_last_spec (T : ktype) (mem : Z -> option inode) (this : Z) (n : inode)
    (f : Control.fields) (seps : Z -> list Z) (mid : list Z) (index ra : Z) (rn : inode)
    (g : Control.fields) (rseps : Z -> list Z) :
  inode_wf T n f seps -> 0 <= index -> index = knum n - 1 ->
  (Control.f_sibling f = true ->
     right_sibling T mem n index seps ra rn g rseps /\ 1 <= index + knum rn) ->
  exists r, remove T mem this n mid index = Some r
    /\ if negb (Control.f_sibling f) then
         inode_wf T (d_this r) (Control.bump f) seps /\ knum (d_this r) = index
         /\ (forall j, 0 <= j <= index -> route (d_this r) j = route n j)
         /\ d_merged r = false /\ d_up r = false /\ d_rnode r = None
       else if (index + knum rn <=? 32) || (index =? 0) || (knum rn =? 0) || (knum rn =? 1) then
         inode_wf T (d_this r) (Control.with_sibling (Control.bump f) (Control.f_sibling g)) (join seps index rseps)
         /\ knum (d_this r) = index + knum rn
         /\ (forall j, 0 <= j <= knum (d_this r) ->
              route (d_this r) j = join (route n) (index + 1) (fun i => route rn (i + 1)) j)
         /\ d_merged r = true /\ d_up r = false /\ d_mid r = mid
         /\ exists rn', d_rnode r = Some (ra, rn') /\ merged_away rn' g this
       else
         inode_wf T (d_this r) (Control.bump f) seps /\ knum (d_this r) = index
         /\ (forall j, 0 <= j < index -> route (d_this r) j = route n j) /\ next_ (d_this r) = next_ n
         /\ d_merged r = false /\ d_up r = true /\ d_mid r = seps (index - 1)
         /\ exists rn', d_rnode r = Some (ra, rn') /\ inode_wf T rn' (Control.bump g) rseps
              /\ knum rn' = knum rn
              /\ forall j, 0 <= j <= knum rn -> route rn' j = upd (route rn) 0 (route n index) j.
Proof.
  intros Hwf Hi Ei Hsib.
  destruct (remove_bound T mem this n f seps mid index Hwf Hi Ei) as (n0 & En0 & -> & Hwf0).
  assert (knum n0 = knum n /\ next_ n0 = next_ n /\ forall j, route n0 j = route n j) as (Hk0 & Hn0 & Hr0)
    by (by subst n0).
  destruct (Control.f_sibling f) eqn:Es; cbn [negb].
  - destruct (Hsib eq_refl) as [Hrs Hpos]. clear Hsib.
    assert (right_sibling T mem n0 index seps ra rn g rseps) as Hrs0 by (destruct Hrs; split; try done; congruence).
    destruct (bound_merges T index rn) eqn:Hm; pose proof Hm as Hm'; unfold bound_merges in Hm;
      replace (kMergeSize T) with 32 in Hm by (by destruct T); rewrite Hm.
    + destruct (bound_remove_merge T mem this n0 (Control.bump f) seps mid index ra rn g rseps)
        as (n' & rn' & E & H1 & Hk1 & Hr1 & Haway); try done; [lia|].
      rewrite E. eexists. split; [done|]. do 2 (split; [done|]). split; [|do 3 (split; [done|]); eauto].
      intros j Hj. cbn [d_this] in *. rewrite Hr1 by done. unfold join. by rewrite Hr0.
    + destruct (bound_remove_apart T mem this n0 (Control.bump f) seps mid index ra rn g rseps)
        as (n' & rn' & E & H1 & Hk1 & Hn1 & Hr1 & H2 & Hk2 & Hr2); try done; [lia|].
      rewrite E. eexists. split; [done|]. do 2 (split; [done|]). cbn [d_this d_merged d_up d_mid d_rnode].
      split; [intros j Hj; by rewrite Hr1, Hr0|]. split; [congruence|]. do 3 (split; [done|]).
      exists rn'. do 3 (split; [done|]). intros j Hj. rewrite Hr2 by done. unfold upd. by rewrite Hr0.
  - destruct (bound_remove_alone T mem this n0 (Control.bump f) seps mid index) as (n' & E & H1 & Hk1 & Hr1);
      try done; [lia|].
    rewrite E. eexists. split; [done|]. do 2 (split; [done|]). split; [|done].
    intros j Hj. cbn [d_this]. by rewrite Hr1, Hr0.
Qed.

(** C17: [remove] of the last separator, whose right child is the first one of the
    sibling. A node without a sibling loses both. Otherwise the sibling is merged
    into the node (losing its first child) when they have at most 32 separators
    together, or one of them would be left with none or, the sibling, had just one;
    if not, the node's last child takes the place of the sibling's first one and the
    separator above is to become the node's new last one. *)
Theorem inner_bound_remove_correct (T : ktype) (mem : Z -> option inode) (this : Z) (n : inode)
    (f : Control.fields) (seps : Z -> list Z) (mid : list Z) (index ra : Z) (rn : inode)
    (g : Control.fields) (rseps : Z -> list Z) :
  inode_wf T n f seps -> 0 <= index -> index = knum n - 1 ->
  (Control.f_sibling f = true ->
     right_sibling T mem n index seps ra rn g rseps /\ 1 <= index + knum rn) ->
  exists r, remove T mem this n mid index = Some r
    /\ if negb (Control.f_sibling f) then
         inode_wf T (d_this r) (Control.bump f) seps /\ knum (d_this r) = index
         /\ (forall j, 0 <= j <= index -> route (d_this r) j = route n j)
         /\ d_merged r = false /\ d_up r = false /\ d_rnode r = None
       else if (index + knum rn <=? 32) || (index =? 0) || (knum rn =? 0) || (knum rn =? 1) then
         inode_wf T (d_this r) (Control.with_sibling (Control.bump f) (Control.f_sibling g)) (join seps index rseps)
         /\ knum (d_this r) = index + knum rn
         /\ (forall j, 0 <= j <= knum (d_this r) ->
              route (d_this r) j = join (route n) (index + 1) (fun i => route rn (i + 1)) j)
         /\ d_merged r = true /\ d_up r = false /\ d_mid r = mid
         /\ exists rn', d_rnode r = Some (ra, rn') /\ merged_away rn' g this
       else
         inode_wf T (d_this r) (Control.bump f) seps /\ knum (d_this r) = index
         /\ (forall j, 0 <= j < index -> route (d_this r) j = route n j) /\ next_ (d_this r) = next_ n
         /\ d_merged r = false /\ d_up r = true /\ d_mid r = seps (index - 1)
         /\ exists rn', d_rnode r = Some (ra, rn') /\ inode_wf T rn' (Control.bump g) rseps
              /\ knum rn' = knum rn
              /\ forall j, 0 <= j <= knum rn -> route rn' j = upd (route rn) 0 (route n index) j.
Proof. apply remove_last_spec. Qed.

(** C27: The case the precondition above leaves out: removing the only separator of a
    node whose sibling has none either. The counts add up to no separator, and
    [memory_shrink] then inode_reads the column before the first one of every row: the
    operation has no defined result. *)
Theorem inner_bound_remove_nothing (T : ktype) (mem : Z -> option inode) (this : Z) (n : inode)
    (f : Control.fields) (seps : Z -> list Z) (mid : list Z) (ra : Z) (rn : inode)
    (g : Control.fields) (rseps : Z -> list Z) :
  inode_wf T n f seps -> Control.f_sibling f = true -> knum n = 1 ->
  right_sibling T mem n 0 seps ra rn g rseps -> knum rn = 0 ->
  remove T mem this n mid 0 = None.
Proof.
  intros Hwf Hs Hk Hrs Hrk.
  destruct (remove_bound T mem this n f seps mid 0 Hwf) as (n0 & En0 & -> & Hwf0); [lia|lia|].
  apply (bound_remove_nothing T mem this n0 (Control.bump f) seps mid ra rn g rseps); try done; subst n0; [done|].
  by destruct Hrs.
Qed.

(** ** The properties at concrete nodes *)

Definition ex_key (b : Z) : list Z := b :: replicate 7 0.
Definition ex_nraw : raw := mkRaw (replicate 8 7) (replicate 8 (replicate 64 9)) (replicate 64 None).

Lemma ex_nraw_ok : raw_ok KU64 ex_nraw.
Proof.
  assert (forall k (c : Z), is_byte c -> Forall is_byte (replicate k c)) as Hb by (intros; by apply Forall_replicate).
  split; cbn [raw_prefix raw_features raw_children ex_nraw].
  - split; [by rewrite length_replicate|by apply Hb].
  - split; [by rewrite length_replicate|]. apply Forall_replicate. split; [by rewrite length_replicate|by apply Hb].
  - by rewrite length_replicate.
Qed.

Lemma ex_key_ok b : is_byte b -> Forall is_byte (ex_key b) /\ Z.of_nat (length (ex_key b)) = kFeatureSize KU64.
Proof. intros. split; [|done]. apply Forall_cons. split; [done|]. by apply Forall_replicate. Qed.

Definition ex_insert (n : inode) (l r b i : Z) : inode :=
  match insert KU64 n (Some l) (Some r) (ex_key b) i 0 ex_nraw with Some x => i_this x | None => n end.

(** [100 |b| 101 |b'| 102 |b''| 103] *)
Definition ex_node2 (a b : Z) : inode := ex_insert (ex_insert (InnerNode ex_nraw) 100 101 a 0) 101 102 b 1.
Definition ex_seps2 (a b : Z) : Z -> list Z := ins (ins no_seps 0 (ex_key a)) 1 (ex_key b).
Definition ex_fields2 : Control.fields := Control.bump (Control.bump (Control.inner_fields false)).

Lemma ex_insert_ok n f seps l r b i :
  inode_wf KU64 n f seps -> knum n < 64 -> is_byte b ->
  0 <= i <= knum n -> (forall j, 0 <= j < i -> key_lt (seps j) (ex_key b)) ->
  (forall j, i <= j < knum n -> key_lt (ex_key b) (seps j)) -> left_child n i (Some l) ->
  inode_wf KU64 (ex_insert n l r b i) (Control.bump f) (ins seps i (ex_key b))
  /\ knum (ex_insert n l r b i) = knum n + 1
  /\ forall j, 0 <= j <= knum n + 1 ->
       route (ex_insert n l r b i) j = ins_routes n i (Some l) (Some r) j.
Proof.
  intros Hwf Hroom Hb Hi Hlt Hgt Hl. destruct (ex_key_ok b Hb) as [Hkb Hkl].
  destruct (insert_room KU64 n f seps (Some l) (Some r) (ex_key b) i 0 ex_nraw) as (n' & E & H); try done.
  - by exists l.
  - by exists r.
  - unfold ex_insert. by rewrite E.
Qed.

Lemma ex_node2_ok a b :
  is_byte a -> is_byte b -> schar a < schar b ->
  inode_wf KU64 (ex_node2 a b) ex_fields2 (ex_seps2 a b) /\ knum (ex_node2 a b) = 2.
Proof.
  intros Ha Hb Hlt.
  destruct (ex_insert_ok (InnerNode ex_nraw) (Control.inner_fields false) no_seps 100 101 a 0) as (H1 & Hk1 & Hr1);
    try (by apply InnerNode_wf, ex_nraw_ok); try done; try (unfold left_child; cbn; intros; lia).
  set (n1 := ex_insert (InnerNode ex_nraw) 100 101 a 0) in *. change (knum (InnerNode ex_nraw)) with 0 in *.
  destruct (ex_insert_ok n1 (Control.bump (Control.inner_fields false)) (ins no_seps 0 (ex_key a)) 101 102 b 1)
    as (H2 & Hk2 & _); try done; try lia.
  intros j Hj. replace j with 0 by lia. unfold ins. cbn [Z.ltb Z.compare Z.eqb].
  unfold key_lt, key_cmp, ex_key. cbn [map lex_cmp]. by rewrite (proj2 (Z.compare_lt_iff _ _)).
Qed.

(** the left node of the examples, at 1, and its sibling, at 2 *)
Definition link_node (n : inode) (f : Control.fields) : inode :=
  set_next (set_control n (Control.encode (Control.with_sibling f true))) (Some 2).

Lemma link_node_wf T n f seps :
  inode_wf T n f seps -> inode_wf T (link_node n f) (Control.with_sibling f true) seps.
Proof.
  intros [Hs Hq Hw Hv Hi He]. split; try done; [by destruct Hs|by destruct Hq].
Qed.

Lemma link_node_knum n f : knum (link_node n f) = knum n.
Proof. done. Qed.

Lemma link_node_next n f : next_ (link_node n f) = Some 2.
Proof. done. Qed.

Definition ex_nleft : inode := link_node (ex_node2 10 20) ex_fields2.
Definition ex_nright : inode := ex_node2 30 40.
Definition ex_nmem (a : Z) : option inode := if a =? 2 then Some ex_nright else None.
Definition ex_lfields : Control.fields := Control.with_sibling ex_fields2 true.

Lemma ex_nleft_ok : inode_wf KU64 ex_nleft ex_lfields (ex_seps2 10 20).
Proof.
  apply link_node_wf. by apply ex_node2_ok.
Qed.

Lemma ex_nleft_knum : knum ex_nleft = 2.
Proof. unfold ex_nleft. rewrite link_node_knum. by apply ex_node2_ok. Qed.

Lemma ex_nright_knum : knum ex_nright = 2.
Proof. unfold ex_nright. by apply ex_node2_ok. Qed.

Lemma ex_nleft_next : next_ ex_nleft = Some 2.
Proof. apply link_node_next. Qed.

#[local] Opaque ex_nleft ex_nright ex_node2.

Lemma ex_key_lt a b : is_byte a -> is_byte b -> schar a < schar b -> key_lt (ex_key a) (ex_key b).
Proof.
  intros Ha Hb Hlt. unfold key_lt, key_cmp, ex_key. cbn [map lex_cmp].
  by rewrite (proj2 (Z.compare_lt_iff _ _)).
Qed.

Lemma ex_seps2_cases a b j : 0 <= j < 2 -> ex_seps2 a b j = ex_key a \/ ex_seps2 a b j = ex_key b.
Proof.
  intros Hj. assert (j = 0 \/ j = 1) as [-> | ->] by lia; [by left|by right].
Qed.

Lemma ex_right_sibling k s :
  k <= 2 -> (forall j, 0 <= j < k -> s j = ex_key 10 \/ s j = ex_key 20) ->
  right_sibling KU64 ex_nmem ex_nleft k s 2 ex_nright ex_fields2 (ex_seps2 30 40).
Proof.
  intros Hk Hs. destruct (ex_node2_ok 30 40) as [Hwf Hk2]; [done..|].
  split; [exact ex_nleft_next|reflexivity|exact Hwf|reflexivity|reflexivity|].
  intros i j Hi Hj. rewrite ex_nright_knum in Hj.
  pose proof (Hs i Hi) as H1. pose proof (ex_seps2_cases 30 40 j Hj) as H2.
  destruct H1 as [E1|E1], H2 as [E2|E2]; rewrite E1, E2; apply ex_key_lt; unfold is_byte, schar; cbn; lia.
Qed.

Lemma inner_search_correct_witness :
  to_next KU64 ex_nleft (ex_key 15) = Some (false, Some 101)
  /\ exists idx next, lower_bound ex_nleft (ex_seps2 10 20) (ex_key 15) idx
       /\ index_or_sibling KU64 ex_nleft (ex_key 15)
          = Some (if (idx =? knum ex_nleft) && negb (knum ex_nleft =? 0) && true then inr next else inl idx).
Proof.
  split; [by vm_compute|].
  destruct (inner_search_correct KU64 ex_nleft ex_lfields (ex_seps2 10 20) (ex_key 15) ex_nleft_ok)
    as (idx & next & H1 & _ & _ & H2).
  - reflexivity.
  - reflexivity.
  - split; [|by exists 2]. rewrite ex_nleft_knum. intros j Hj.
    assert (j = 0 \/ j = 1) as [-> | ->] by lia; [exists 100; by vm_compute|exists 101; by vm_compute].
  - by apply ex_key_ok.
  - reflexivity.
  - exists idx, next. split; [exact H1|exact H2].
Defined.

Lemma inner_insert_correct_witness :
  exists r, insert KU64 ex_nleft (Some 101) (Some 109) (ex_key 15) 1 3 ex_nraw = Some r
    /\ i_rnode r = None /\ knum (i_this r) = 3.
Proof.
  destruct (inner_insert_correct KU64 ex_nleft ex_lfields (ex_seps2 10 20) (Some 101) (Some 109)
    (ex_key 15) 1 3 ex_nraw ex_nleft_ok) as (r & E & H).
  - split; rewrite ?ex_nleft_knum; [lia|by apply ex_key_ok|reflexivity| |].
    + intros j Hj. replace j with 0 by lia. by apply ex_key_lt.
    + intros j Hj. replace j with 1 by lia. by apply ex_key_lt.
  - exact ex_nraw_ok.
  - by exists 101.
  - by exists 109.
  - intros _. by vm_compute.
  - exists r. split; [exact E|]. destruct (i_rnode r) as [[rn m]|].
    + destruct H as [H _]. rewrite ex_nleft_knum in H. lia.
    + split; [reflexivity|]. exact (proj1 (proj2 H)).
Defined.

Lemma inner_remove_correct_witness :
  exists r, remove KU64 ex_nmem 1 ex_nleft [] 0 = Some r /\ knum (d_this r) = 3 /\ d_mid r = ex_key 20.
Proof.
  destruct (inner_remove_correct KU64 ex_nmem 1 ex_nleft ex_lfields (ex_seps2 10 20) [] 0 2 ex_nright
    ex_fields2 (ex_seps2 30 40) ex_nleft_ok) as (r & E & _ & H).
  - rewrite ex_nleft_knum. lia.
  - intros _. apply ex_right_sibling; [rewrite ex_nleft_knum; lia|].
    rewrite ex_nleft_knum. intros j Hj. replace j with 0 by lia. by right.
  - exists r. split; [exact E|].
    rewrite ex_nleft_knum, ex_nright_knum in H. cbn in H.
    destruct H as (_ & H1 & _ & _ & H2 & _). split; [exact H1|exact H2].
Defined.

Lemma inner_bound_remove_correct_witness :
  exists r, remove KU64 ex_nmem 1 ex_nleft [] 1 = Some r /\ knum (d_this r) = 3 /\ d_merged r = true.
Proof.
  destruct (inner_bound_remove_correct KU64 ex_nmem 1 ex_nleft ex_lfields (ex_seps2 10 20) [] 1 2 ex_nright
    ex_fields2 (ex_seps2 30 40) ex_nleft_ok) as (r & E & H).
  - lia.
  - reflexivity.
  - intros _. split; [|rewrite ex_nright_knum; lia]. apply ex_right_sibling; [lia|].
    intros j Hj. replace j with 0 by lia. by left.
  - exists r. split; [exact E|]. rewrite ex_nright_knum in H. cbn in H.
    destruct H as (_ & H1 & _ & H2 & _). split; [exact H1|exact H2].
Defined.

(** one separator, and a sibling with none: what a few removals leave *)
Definition ex_nlone : inode := link_node (ex_insert (InnerNode ex_nraw) 100 101 10 0) (Control.bump (Control.inner_fields false)).
Definition ex_nempty : inode := set_next (InnerNode ex_nraw) (Some 101).

Lemma inner_bound_remove_nothing_witness :
  remove KU64 (fun a => if a =? 2 then Some ex_nempty else None) 1 ex_nlone [] 0 = None.
Proof.
  apply (inner_bound_remove_nothing KU64 _ 1 ex_nlone (Control.with_sibling (Control.bump (Control.inner_fields false)) true)
    (ins no_seps 0 (ex_key 10)) [] 2 ex_nempty (Control.inner_fields false) no_seps).
  - apply link_node_wf.
    apply (ex_insert_ok (InnerNode ex_nraw) (Control.inner_fields false) no_seps 100 101 10 0);
      try (by apply InnerNode_wf, ex_nraw_ok); try done; try (unfold left_child; cbn; intros; lia).
  - reflexivity.
  - reflexivity.
  - destruct (InnerNode_wf KU64 ex_nraw ex_nraw_ok) as [Hs Hq Hw Hv Hi He].
    split; try done; [|intros; lia]. split; try done; [by destruct Hs|by destruct Hq].
  - reflexivity.
Defined.
