(* ===== verification/FBTree.v ===== *)
(** * The tree: [FBTree<K, V>] of [src/FBTree/fbtree.h], integer keys

    The nodes live in a heap; the object keeps the root, the depth and the leftmost
    node of every level. The public operations are run by one thread that meets no
    other, so a latch is taken at the first attempt and an optimistic read is valid:
    [None] is undefined behaviour, an aborted check, or a wait without end. *)

From S2P Require Import Prelude Bits Simd Encode Control Leaf Inner.

(** what an address of a node points to *)
Inductive node {V : Type} := NLeaf (n : leaf V) | NInner (n : inode).
Arguments node V : clear implicits.

Abbreviation heap V := (gmap Z (node V)).

(** [malloc] of a node: an address, and what is found there *)
Class Allocator (V : Type) := {
  malloc : heap V -> Z;
  found_tags : Z -> list Z;
  found_raw : Z -> Inner.raw;
}.

(** FBTree/fbtree.h:33-39 [FBTree]

    [retired]: what [epoch_->retire] was given; [guarded]: the calling thread is
    inside an epoch *)
Record tree {V : Type} := mkTree {
  mem : heap V;
  root_ : Z;
  tree_depth_ : Z;
  root_track_ : list ptr;
  retired : list ptr;
  guarded : bool;
}.
Arguments tree V : clear implicits.
Arguments mkTree {V}.

(** FBTree/fbtree.h:45-54 [iterator] *)
Record iterator {V : Type} := mkIterator {
  node_ : ptr;
  version_ : Z;
  kv_ : option (kvpair V);
  pos_ : Z;
}.
Arguments iterator V : clear implicits.
Arguments mkIterator {V}.

Module FBTree.
Section fbtree.
Context {V : Type} `{Allocator V} (T : ktype).
Implicit Types (h : heap V) (t : tree V) (a : Z).

Definition kMaxHeight : nat := 13.

Definition with_mem t h := mkTree h (root_ t) (tree_depth_ t) (root_track_ t) (retired t) (guarded t).
Definition with_root t r := mkTree (mem t) r (tree_depth_ t) (root_track_ t) (retired t) (guarded t).
Definition with_depth t d := mkTree (mem t) (root_ t) d (root_track_ t) (retired t) (guarded t).
Definition with_track t l := mkTree (mem t) (root_ t) (tree_depth_ t) l (retired t) (guarded t).
Definition retire t (p : ptr) :=
  mkTree (mem t) (root_ t) (tree_depth_ t) (root_track_ t) (retired t ++ [p]) (guarded t).

(** FBTree/fbtree.h:106-108 [leaf]

    a node used as what it is not is undefined *)
Definition inner h a : option inode := match h !! a with Some (NInner n) => Some n | _ => None end.
Definition leaf h a : option (leaf V) := match h !! a with Some (NLeaf n) => Some n | _ => None end.
Definition inner_at h (i : Z) : option inode := inner h i.

(** FBTree/fbtree.h:104-104 [control] *)
Definition control h a : option Z :=
  (fun n => match n with NLeaf n => control_ n | NInner n => icontrol n end) <$> h !! a.
Definition set_word h a (w : Z) : option (heap V) :=
  (fun n => <[a := match n with
                   | NLeaf n => NLeaf (Leaf.set_control n w)
                   | NInner n => NInner (Inner.set_control n w)
                   end]> h) <$> h !! a.

(** FBTree/fbtree.h:110-110 [is_leaf] *)
Definition is_leaf h a : option bool := Control.is_leaf <$> control h a.
(** FBTree/fbtree.h:112-112 [latch_exclusive] *)
Definition latch_exclusive h a : option (heap V) :=
  let* c := control h a in
  let* (w, _) := Control.latch_exclusive [(c, c)] in
  set_word h a w.
(** FBTree/fbtree.h:114-114 [unlatch_exclusive] *)
Definition unlatch_exclusive h a : option (heap V) :=
  let* c := control h a in
  let* w := Control.unlatch_exclusive c in
  set_word h a w.

Definition begin_read h a : option Z := let* c := control h a in fst <$> Control.begin_read [c].
Definition end_read h a (version : Z) : option bool :=
  let* c := control h a in fst <$> Control.end_read [c] version.

(** the loops that follow pointers visit each node once: the nodes are the fuel *)
Definition node_fuel h : nat := S (size h).

(** FBTree/fbtree.h:443-448 [lookup]

    [key] in encoded form; [update] and [bound] open with the same loop *)
Fixpoint to_leaf (fuel : nat) h a (key : list Z) : option Z :=
  match fuel with
  | O => None
  | S fuel =>
      let* leaf := is_leaf h a in
      if (leaf : bool) then Some a
      else
        let* n := inner h a in
        let* (_, next) := Inner.to_next T n key in
        let* next := next in
        to_leaf fuel h next key
  end.

(** FBTree/fbtree.h:251-257 [upsert]

    the same, and the inner nodes left for a child, last first *)
Fixpoint to_leaf_path (fuel : nat) h a (key : list Z) (path_stack : list Z) : option (Z * list Z) :=
  match fuel with
  | O => None
  | S fuel =>
      let* leaf := is_leaf h a in
      if (leaf : bool) then Some (a, path_stack)
      else
        let* n := inner h a in
        let* (to_sibling, next) := Inner.to_next T n key in
        let* next := next in
        to_leaf_path fuel h next key (if (to_sibling : bool) then path_stack else a :: path_stack)
  end.

(** FBTree/fbtree.h:453-456 [lookup]

    to the right, reading the version of each node *)
Fixpoint read_right (fuel : nat) h a key : option (Z * Z) :=
  match fuel with
  | O => None
  | S fuel =>
      let* version := begin_read h a in
      let* n := leaf h a in
      let* next := Leaf.to_sibling n key in
      match next with
      | None => Some (a, version)
      | Some next => read_right fuel h next key
      end
  end.

(** FBTree/fbtree.h:261-265 [upsert]

    to the right, hand over hand: [a] is latched at the start and at the end *)
Fixpoint latch_right (fuel : nat) h a key : option (heap V * Z) :=
  match fuel with
  | O => None
  | S fuel =>
      let* n := leaf h a in
      let* next := Leaf.to_sibling n key in
      match next with
      | None => Some (h, a)
      | Some next =>
          let* h := latch_exclusive h next in
          let* h := unlatch_exclusive h a in
          latch_right fuel h next key
      end
  end.

(** FBTree/fbtree.h:295-300 [upsert]

    the inner node, latched, that has the place of [mid], and the place *)
Fixpoint index_right (fuel : nat) h a (mid : list Z) : option (heap V * Z * Z) :=
  match fuel with
  | O => None
  | S fuel =>
      let* n := inner h a in
      let* r := Inner.index_or_sibling T n mid in
      match r with
      | inl index => Some (h, a, index)
      | inr next =>
          let* h := latch_exclusive h next in
          let* h := unlatch_exclusive h a in
          index_right fuel h next mid
      end
  end.

(** FBTree/fbtree.h:441-462 [lookup] *)
Definition lookup t key : option (option (kvpair V)) :=
  assert* guarded t in
  let h := mem t in
  let cvt_key := key_bytes T (encode_convert T key) in
  let* node := to_leaf (node_fuel h) h (root_ t) cvt_key in
  let* (node, version) := read_right (node_fuel h) h node key in
  let* n := leaf h node in
  let* kv := Leaf.lookup T n key in
  match kv with
  | Some kv => Some (Some kv)
  | None =>
      let* unchanged := end_read h node version in
      if (unchanged : bool) then Some None else None
  end.

(** FBTree/fbtree.h:401-421 [update] *)
Definition update t (kv : kvpair V) : option (option (kvpair V) * tree V) :=
  assert* guarded t in
  let h := mem t in
  let key := key_bytes T (encode_convert T (kv_key kv)) in
  let* node := to_leaf (node_fuel h) h (root_ t) key in
  let* (node, version) := read_right (node_fuel h) h node (kv_key kv) in
  let* n := leaf h node in
  let* (old, n) := Leaf.update T n kv in
  match old with
  | Some old => Some (Some old, with_mem t (<[node := NLeaf n]> h))
  | None =>
      let* unchanged := end_read h node version in
      if (unchanged : bool) then Some (None, t) else None
  end.

(** FBTree/fbtree.h:423-439 [update]

    the overloads that make the pair: it is freed when the key does not exist, and
    what they return is the old pair *)
Definition update_kv t (addr key : Z) (value : V) : option (option (kvpair V) * tree V * bool) :=
  let* (ret, t) := update t (mkKV addr key value) in
  Some (ret, t, bool_decide (ret = None)).

(** FBTree/fbtree.h:184-190 [FBTree] *)
Definition create (h : heap V) : tree V :=
  let a := malloc h in
  mkTree (<[a := NLeaf (Leaf.LeafNode T (found_tags a))]> h) a 1
    (Some a :: replicate 12 None) [] false.

(** util/epoch.h:411-411 [EpochGuard]

    the calling thread makes an [EpochGuard] of the tree's epoch: it is inside an epoch
    until the guard's scope ends *)
Definition enter t : tree V := mkTree (mem t) (root_ t) (tree_depth_ t) (root_track_ t) (retired t) true.

(** ** [upsert] *)

(** FBTree/fbtree.h:273-293 [upsert]

    the node above [current], latched: a new root, the one on the path, or the
    leftmost of the level; and the rest of the path *)
Definition parent t (current : Z) (rootid : Z) (path_stack : list Z)
    : option (tree V * Z * list Z) :=
  if current =? root_ t then
    let work := malloc (mem t) in
    let h := <[work := NInner (Inner.InnerNode (found_raw work))]> (mem t) in
    let* h := latch_exclusive h work in
    let* track := aset (root_track_ t) rootid (Some work) in
    let t := with_root (with_track (with_mem t h) track) work in
    Some (with_depth t (tree_depth_ t + 1), work, path_stack)
  else
    match path_stack with
    | work :: path_stack =>
        let* h := latch_exclusive (mem t) work in
        Some (with_mem t h, work, path_stack)
    | [] =>
        let* work := aget (root_track_ t) rootid in
        let* work := work in
        let* h := latch_exclusive (mem t) work in
        Some (with_mem t h, work, [])
    end.

(** FBTree/fbtree.h:271-305 [upsert]

    [current], latched, was split: [rnode] is the new node, [mid] the separator *)
Fixpoint propagate (fuel : nat) t (current rnode : Z) (mid : list Z) (rootid : Z) (path_stack : list Z)
    : option (tree V * Z) :=
  match fuel with
  | O => None
  | S fuel =>
      let rootid := rootid + 1 in
      let* (t, work, path_stack) := parent t current rootid path_stack in
      let* (h, work, index) := index_right (node_fuel (mem t)) (mem t) work mid in
      let* h := unlatch_exclusive h current in
      let* n := inner h work in
      let a := malloc h in
      let* r := Inner.insert T n (Some current) (Some rnode) mid index a (found_raw a) in
      let h := <[work := NInner (Inner.i_this r)]> h in
      match Inner.i_rnode r with
      | None => Some (with_mem t h, work)
      | Some (rn, mid) =>
          propagate fuel (with_mem t (<[a := NInner rn]> h)) work a mid rootid path_stack
      end
  end.

(** FBTree/fbtree.h:244-309 [upsert] *)
Definition upsert t (kv : kvpair V) : option (option (kvpair V) * tree V) :=
  assert* guarded t in
  let h := mem t in
  let mid := key_bytes T (encode_convert T (kv_key kv)) in
  let* (current, path_stack) := to_leaf_path (node_fuel h) h (root_ t) mid [] in
  let* h := latch_exclusive h current in
  let* (h, current) := latch_right (node_fuel h) h current (kv_key kv) in
  let* n := leaf h current in
  let a := malloc h in
  let* r := Leaf.upsert T n kv a (found_tags a) in
  let h := <[current := NLeaf (Leaf.u_this r)]> h in
  let* (t, current) :=
    match Leaf.u_rnode r with
    | None => Some (with_mem t h, current)
    | Some (rn, mid) =>
        let h := <[a := NLeaf rn]> h in
        propagate (S (node_fuel h)) (with_mem t h) current a (key_bytes T mid) 0 path_stack
    end in
  let* h := unlatch_exclusive (mem t) current in
  Some (Leaf.u_old r, with_mem t h).
(** FBTree/fbtree.h:311-324 [upsert]

    the overloads that make the pair *)
Definition upsert_kv t (addr key : Z) (value : V) : option (option (kvpair V) * tree V) :=
  upsert t (mkKV addr key value).

(** ** [remove] *)

(** FBTree/fbtree.h:358-364 [remove] *)
Definition parent_of_merged t (rootid : Z) (path_stack : list Z) : option (Z * list Z) :=
  match path_stack with
  | work :: path_stack => Some (work, path_stack)
  | [] => let* work := aget (root_track_ t) rootid in let* work := work in Some (work, [])
  end.

(** FBTree/fbtree.h:375-376 [remove]

    the inner node gives up the separator of a merged node, or has it replaced: the
    heap, [merged], [up] and [mid] *)
Definition shrink_inner h work (merged : ptr) (mid : list Z) (index : Z)
    : option (heap V * ptr * bool * list Z) :=
  let* n := inner h work in
  match merged with
  | Some _ =>
      let* r := Inner.remove T (inner h) work n mid index in
      let h := <[work := NInner (Inner.d_this r)]> h in
      let h := match Inner.d_rnode r with Some (ra, rn) => <[ra := NInner rn]> h | None => h end in
      let merged := if Inner.d_merged r then fst <$> Inner.d_rnode r else None in
      Some (h, merged, Inner.d_up r, Inner.d_mid r)
  | None =>
      let* (n, up) := Inner.anchor_update T n mid index in
      Some (<[work := NInner n]> h, None, up, mid)
  end.

(** FBTree/fbtree.h:378-390 [remove]

    the root, latched, may give way to its only child *)
Definition shrink_root t work current : option (tree V) :=
  let* n := inner (mem t) work in
  let* (n, next) := Inner.root_remove n in
  let t := with_mem t (<[work := NInner n]> (mem t)) in
  let* t :=
    match next with
    | Some next =>
        let t := with_depth (with_root t next) (tree_depth_ t - 1) in
        let t := retire t (Some work) in
        assert* (next =? current) in Some t
    | None => Some t
    end in
  with_mem t <$> unlatch_exclusive (mem t) current.

(** FBTree/fbtree.h:353-393 [remove] *)
Fixpoint shrink (fuel : nat) t (current : Z) (merged : ptr) (up : bool) (mid : list Z) (rootid : Z)
    (path_stack : list Z) : option (tree V * Z) :=
  if bool_decide (merged = None) && negb up then Some (t, current)
  else
    match fuel with
    | O => None
    | S fuel =>
        let t := retire t merged in
        let rootid := rootid + 1 in
        let* (work, path_stack) := parent_of_merged t rootid path_stack in
        let* h := latch_exclusive (mem t) work in
        let* (h, work, index) := index_right (node_fuel h) h work mid in
        let* h := if negb (work =? root_ t) then unlatch_exclusive h current else Some h in
        let* (h, merged, up, mid) := shrink_inner h work merged mid index in
        let t := with_mem t h in
        if work =? root_ t then
          let* t := shrink_root t work current in
          shrink fuel t work None false mid rootid path_stack
        else shrink fuel t work merged up mid rootid path_stack
    end.

(** FBTree/fbtree.h:326-397 [remove] *)
Definition remove t key : option (option (kvpair V) * tree V) :=
  assert* guarded t in
  let h := mem t in
  let mid := key_bytes T (encode_convert T key) in
  let* (current, path_stack) := to_leaf_path (node_fuel h) h (root_ t) mid [] in
  let* h := latch_exclusive h current in
  let* (h, current) := latch_right (node_fuel h) h current key in
  let* n := leaf h current in
  let* (kv, m) := Leaf.remove T (leaf h) current n key in
  let h := <[current := NLeaf (Leaf.m_this m)]> h in
  let h := match Leaf.m_rnode m with Some (ra, rn) => <[ra := NLeaf rn]> h | None => h end in
  let merged := match Leaf.m_merged m with Some _ => fst <$> Leaf.m_rnode m | None => None end in
  let mid := match Leaf.m_merged m with Some mid => key_bytes T mid | None => mid end in
  let* (t, current) := shrink (node_fuel h) (with_mem t h) current merged false mid 0 path_stack in
  let* h := unlatch_exclusive (mem t) current in
  Some (kv, with_mem t h).

(** ** Ordered access *)

(** FBTree/fbtree.h:155-167 [bound]

    the leaf is not ordered: sort it under the latch *)
Definition bound_sorted h a key (upper : bool) : option (heap V * Z * option (kvpair V) * Z * Z) :=
  let* h := latch_exclusive h a in
  let* (h, a) := latch_right (node_fuel h) h a key in
  let* n := leaf h a in
  let* n := Leaf.kv_sort T n (found_tags a) in
  let* (kv, pos) := Leaf.bound T n key upper in
  let version := Control.load_version (control_ n) in
  let* h := unlatch_exclusive (<[a := NLeaf n]> h) a in
  Some (h, a, kv, pos, version).

(** FBTree/fbtree.h:138-168 [bound] *)
Definition get_bound h a key (upper : bool) : option (heap V * Z * option (kvpair V) * Z * Z) :=
  let* (a, version) := read_right (node_fuel h) h a key in
  let* n := leaf h a in
  if negb (Control.ordered (control_ n)) then bound_sorted h a key upper
  else
    let* (kv, pos) := Leaf.bound T n key upper in
    let* unchanged := end_read h a version in
    if (unchanged : bool) then Some (h, a, kv, pos, version) else None.

(** FBTree/fbtree.h:170-180 [bound] *)
Fixpoint bound_right (fuel : nat) h a key (upper : bool) : option (heap V * iterator V) :=
  match fuel with
  | O => None
  | S fuel =>
      let* (h, a, kv, pos, version) := get_bound h a key upper in
      match kv with
      | Some kv => Some (h, mkIterator (Some a) version (Some kv) pos)
      | None =>
          let* n := leaf h a in
          match Leaf.sibling n with
          | None => Some (h, mkIterator None version None pos)
          | Some a => bound_right fuel h a key upper
          end
      end
  end.

(** FBTree/fbtree.h:123-181 [bound] *)
Definition bound t key (upper : bool) : option (tree V * iterator V) :=
  assert* guarded t in
  let h := mem t in
  let cvt_key := key_bytes T (encode_convert T key) in
  let* node := to_leaf (node_fuel h) h (root_ t) cvt_key in
  let* (h, it) := bound_right (node_fuel h) h node key upper in
  Some (with_mem t h, it).

(** FBTree/fbtree.h:475-477 [lower_bound] *)
Definition lower_bound t key := bound t key false.
(** FBTree/fbtree.h:479-481 [upper_bound] *)
Definition upper_bound t key := bound t key true.

(** [node->access(...)] on the heap *)
Definition access h a (kv : option (kvpair V)) (pos version : Z)
    : option (heap V * option (kvpair V) * Z * Z) :=
  let* n := leaf h a in
  let* (next, pos, version, n) := Leaf.access T n kv pos version (found_tags a) in
  Some (<[a := NLeaf n]> h, next, pos, version).

(** FBTree/fbtree.h:464-473 [begin] *)
Definition begin t : option (tree V * iterator V) :=
  assert* guarded t in
  let* node := aget (root_track_ t) 0 in
  let* node := node in
  let* version := begin_read (mem t) node in
  let* (h, kv, pos, version) := access (mem t) node None 0 version in
  Some (with_mem t h, mkIterator (Some node) version kv pos).

(** FBTree/fbtree.h:74-86 [advance]

    [a] is the iterator's node, [cur] the one reached *)
Fixpoint advance_right (fuel : nat) h (a : Z) (version0 : Z) (kv : kvpair V) (cur : Z)
    (next : option (kvpair V)) (pos version : Z)
    : option (heap V * ptr * option (kvpair V) * Z * Z) :=
  match next with
  | Some _ => Some (h, Some cur, next, pos, version)
  | None =>
      match fuel with
      | O => None
      | S fuel =>
          let* n := leaf h cur in
          match Leaf.sibling n with
          | None => Some (h, None, None, pos, version)
          | Some cur =>
              let* version := begin_read h cur in
              let* (h, next, pos, version) := access h cur None 0 version in
              let* unchanged := end_read h a version0 in
              if (unchanged : bool) then Some (h, Some cur, next, pos, version)
              else
                let* (h, next, pos, version) := access h cur (Some kv) 0 0 in
                advance_right fuel h a version0 kv cur next pos version
          end
      end
  end.

(** FBTree/fbtree.h:63-90 [advance] *)
Definition advance t (it : iterator V) : option (tree V * iterator V) :=
  let* kv := kv_ it in
  let* a := node_ it in
  let* (h, next, pos, version) := access (mem t) a (Some kv) (pos_ it + 1) (version_ it) in
  let* (h, node, next, pos, version) :=
    advance_right (node_fuel h) h a (version_ it) kv a next pos version in
  Some (with_mem t h, mkIterator node version next pos).

(** FBTree/fbtree.h:61-61 [end] *)
Definition end_ (it : iterator V) : bool := bool_decide (kv_ it = None).

(** ** The end, and the statistics *)

Definition sibling_of (n : node V) : ptr :=
  match n with NLeaf n => Leaf.sibling n | NInner n => Inner.sibling n end.

(** FBTree/fbtree.h:195-206 [~FBTree]

    one level: what is freed, node by node *)
Fixpoint free_level (fuel : nat) h (node : ptr) (freed : list (Z * list (kvpair V)))
    : option (heap V * list (Z * list (kvpair V))) :=
  match node with
  | None => Some (h, freed)
  | Some a =>
      match fuel with
      | O => None
      | S fuel =>
          let* n := h !! a in
          let* kvs := match n with NLeaf n => Leaf.destroy n | NInner _ => Some [] end in
          free_level fuel (delete a h) (sibling_of n) (freed ++ [(a, kvs)])
      end
  end.

(** FBTree/fbtree.h:193-209 [~FBTree] *)
Definition destroy t : option (heap V * list (Z * list (kvpair V))) :=
  for_range (fun rid '((h, freed) : heap V * list (Z * list (kvpair V))) =>
    let* node := aget (root_track_ t) rid in
    free_level (node_fuel h) h node freed) 0 (tree_depth_ t) (mem t, []).

(** FBTree/fbtree.h:217-226 [statistics] *)
Fixpoint count_level (sizeof_LeafNode sizeof_InnerNode : Z) (fuel : nat) h (node : ptr) (stat : Z * Z * Z * Z)
    : option (Z * Z * Z * Z) :=
  match node with
  | None => Some stat
  | Some a =>
      match fuel with
      | O => None
      | S fuel =>
          let* n := h !! a in
          let '(size, leaf_num, kv_num, inner_num) := stat in
          let stat := match n with
                      | NLeaf n => (Leaf.statistic sizeof_LeafNode n (size, leaf_num, kv_num), inner_num)
                      | NInner _ => (size + sizeof_InnerNode, leaf_num, kv_num, Inner.statistic inner_num)
                      end in
          count_level sizeof_LeafNode sizeof_InnerNode fuel h (sibling_of n) stat
      end
  end.

(** FBTree/fbtree.h:213-228 [statistics]

    the size of the nodes and the counts of leaves, pairs and inner nodes that the report
    is made of *)
Definition statistics (sizeof_LeafNode sizeof_InnerNode : Z) t : option (Z * Z * Z * Z) :=
  for_range (fun rid stat =>
    let* node := aget (root_track_ t) rid in
    count_level sizeof_LeafNode sizeof_InnerNode (node_fuel (mem t)) (mem t) node stat) 0 (tree_depth_ t) (0, 0, 0, 0).
End fbtree.
End FBTree.
