(* ===== verification/Levels.v ===== *)
(** * Levels of linked nodes

    FB+-tree and the B-link tree have the same shape: each level is a list of nodes
    linked from left to right, and a level is what the nodes of the level above link
    to, up to the root. This file has what both proofs need of that shape, whatever
    the nodes are ([Linked] is all they promise): entries and their bounds, the place
    of a key, chains of levels, paths through them, and what a split of a node does
    to the levels. *)

From S2P Require Import Prelude Encode.

(** a node of a level: its address, and the greatest key it may hold (none for the
    rightmost node) *)
Abbreviation entry := (Z * option Z)%type.
Abbreviation level := (list entry).
(** an inner node, and the entries it links to *)
Abbreviation group := (Z * level)%type.

Definition below (key : Z) (e : entry) : Prop :=
  match e.2 with Some u => u < key | None => False end.
#[global] Instance below_dec key e : Decision (below key e).
Proof. unfold below. destruct e.2; apply _. Defined.

(** [key] belongs to [e], in a level that starts with [C1] and [e] *)
Definition located (C1 : level) (e : entry) (key : Z) : Prop := Forall (below key) C1 /\ ~ below key e.

(** increasing bounds; only the last can be missing *)
Definition entry_lt (e1 e2 : entry) : Prop :=
  match e1.2, e2.2 with Some u, Some v => u < v | Some _, None => True | None, _ => False end.

(** the bound of a node: that of its last child *)
Definition ub (E : level) : option Z := last E ≫= snd.
Definition first {A} (C : list (Z * A)) : ptr := fst <$> head C.

(** the level above, and the level below *)
Definition ents (G : list group) : level := (fun g => (g.1, ub g.2)) <$> G.
Definition subs (G : list group) : level := mjoin G.*2.
Definition addrs (ups : list (list group)) : list Z := mjoin ((fun G => G.*1) <$> ups).

Lemma addrs_cons G ups : addrs (G :: ups) = G.*1 ++ addrs ups.
Proof. done. Qed.

Lemma below_mono key e1 e2 : entry_lt e1 e2 -> below key e2 -> below key e1.
Proof. unfold entry_lt, below. destruct e1.2, e2.2; try done. lia. Qed.

(** every key has its place in a level whose last bound is not below it *)
Lemma locate (E : level) key :
  E <> [] -> (forall x, last E = Some x -> ~ below key x) ->
  exists E1 e E2, E = E1 ++ e :: E2 /\ located E1 e key.
Proof.
  induction E as [|e E IH]; intros Hne Hl; [done|].
  destruct (decide (below key e)) as [Hb|Hb].
  - destruct E as [|e' E]; [by destruct (Hl e)|].
    destruct IH as (E1 & e1 & E2 & E' & Hf & Hn); [done|by intros; apply Hl|].
    exists (e :: E1), e1, E2. split; [by rewrite E'|]. split; [by constructor|done].
  - exists [], e, E. split; [done|]. by split; [constructor|].
Qed.

(** ... and only one *)
Lemma located_unique key (C1 C1' C2 C2' : level) e e' :
  C1 ++ e :: C2 = C1' ++ e' :: C2' -> located C1 e key -> located C1' e' key -> C1 = C1' /\ e = e' /\ C2 = C2'.
Proof.
  revert C1'. induction C1 as [|a C1 IH]; intros [|b C1'] E [Hf Hn] [Hf' Hn']; cbn in E;
    injection E as <- E.
  - done.
  - by apply Forall_cons in Hf' as [? _].
  - by apply Forall_cons in Hf as [? _].
  - apply Forall_cons in Hf as [_ Hf]. apply Forall_cons in Hf' as [_ Hf'].
    by destruct (IH C1' E) as (-> & -> & ->).
Qed.

Lemma last_ub (E : level) e : last E = Some e -> ub E = e.2.
Proof. unfold ub. by intros ->. Qed.

Section sorted.
Context (K : Z -> Prop).

Definition entry_ok (e : entry) : Prop := forall u, e.2 = Some u -> K u.

Definition ordered (C : level) : Prop := StronglySorted entry_lt C /\ Forall entry_ok C.

Lemma ordered_app C1 C2 :
  ordered (C1 ++ C2) <->
  ordered C1 /\ ordered C2 /\ (forall e1 e2, e1 ∈ C1 -> e2 ∈ C2 -> entry_lt e1 e2).
Proof. unfold ordered. rewrite StronglySorted_app, Forall_app. naive_solver. Qed.

Lemma ordered_cons e C :
  ordered (e :: C) <-> entry_ok e /\ ordered C /\ (forall e2, e2 ∈ C -> entry_lt e e2).
Proof.
  unfold ordered. split.
  - intros [Hs Hf]. apply Forall_cons in Hf as [? ?]. apply StronglySorted_inv in Hs as [Hs Hall].
    rewrite Forall_forall in Hall. naive_solver.
  - intros (? & [? ?] & ?). split; [|by constructor]. constructor; [done|]. by apply Forall_forall.
Qed.

Lemma ordered_sub (G1 G2 : list group) p E : ordered (subs (G1 ++ (p, E) :: G2)) -> ordered E.
Proof.
  unfold subs. rewrite fmap_app, join_app. cbn. rewrite !ordered_app. naive_solver.
Qed.

Lemma subs_app G1 G2 : subs (G1 ++ G2) = subs G1 ++ subs G2.
Proof. unfold subs. by rewrite fmap_app, join_app. Qed.

Lemma subs_cons p E G : subs ((p, E) :: G) = E ++ subs G.
Proof. done. Qed.

(** an entry that is not the last one has a bound *)
Lemma ordered_bound C1 e C2 : ordered (C1 ++ e :: C2) -> C2 <> [] -> is_Some e.2.
Proof.
  rewrite ordered_app, ordered_cons. intros (_ & (_ & _ & H) & _) Hne.
  destruct C2 as [|e2 C2]; [done|]. pose proof (H e2 ltac:(set_solver)) as He.
  unfold entry_lt in He. destruct e.2; [eauto|done].
Qed.

(** the bounds of the groups are ordered like the entries in them *)
Lemma ordered_ents G : Forall (fun g => g.2 <> []) G -> ordered (subs G) -> ordered (ents G).
Proof.
  induction G as [|[p E] G IH]; intros Hne; [done|]. apply Forall_cons in Hne as [HE Hne]. cbn in HE.
  rewrite subs_cons. cbn [ents fmap list_fmap fst snd]. rewrite ordered_app, ordered_cons.
  intros (HoE & HoG & Hlt). destruct (last E) as [x|] eqn:El; [|by apply last_None in El].
  assert (x ∈ E) as Hx. { apply last_Some in El as [E' ->]. set_solver. }
  rewrite (last_ub E x El). split; [|split; [by apply IH|]].
  - destruct HoE as [_ Hok]. rewrite Forall_forall in Hok. intros u Hu. by apply (Hok x).
  - intros e2 (g & -> & Hg)%list_elem_of_fmap. rewrite Forall_forall in Hne.
    destruct (last g.2) as [y|] eqn:Ey; [|by apply last_None, (Hne g) in Ey].
    rewrite (last_ub _ y Ey). unfold entry_lt. cbn [snd].
    apply (Hlt x y Hx). unfold subs. apply list_elem_of_join. exists g.2. split.
    + apply last_Some in Ey as [E' ->]. set_solver.
    + by apply list_elem_of_fmap_2.
Qed.

(** a place in the level above is a place among the children of that node *)
Lemma locate_below G1 p E G2 key :
  Forall (fun g => g.2 <> []) (G1 ++ (p, E) :: G2) -> ordered (subs (G1 ++ (p, E) :: G2)) ->
  located (ents G1) (p, ub E) key ->
  exists E1 e E2, E = E1 ++ e :: E2 /\ located E1 e key /\ located (subs G1 ++ E1) e key.
Proof.
  intros Hne Ho [Hf Hn]. apply Forall_app in Hne as [Hne1 [HE _]%Forall_cons].
  destruct (locate E key) as (E1 & e & E2 & -> & Hf1 & Hn1); [done| |].
  { intros x Hx. by rewrite (last_ub _ _ Hx) in Hn. }
  exists E1, e, E2. split; [done|]. split; [done|]. split; [|done]. apply Forall_app. split; [|done].
  apply Forall_forall. intros x (Ex & Hx & (g & -> & Hg)%list_elem_of_fmap)%list_elem_of_join.
  rewrite Forall_forall in Hf. rewrite Forall_forall in Hne1.
  destruct (last g.2) as [y|] eqn:Ey; [|by apply last_None, (Hne1 g) in Ey].
  assert (below key y) as Hy.
  { pose proof (Hf (g.1, ub g.2)) as Hb. rewrite (last_ub _ y Ey) in Hb. apply Hb.
    apply list_elem_of_fmap. exists g. by rewrite (last_ub _ y Ey). }
  apply last_Some in Ey as [E' Ey]. rewrite Ey in Hx. apply elem_of_app in Hx as [Hx|Hx].
  - apply (below_mono _ x y); [|done].
    apply list_elem_of_split in Hg as (G3 & G4 & ->).
    rewrite subs_app in Ho. apply ordered_app in Ho as [Ho _].
    destruct g as [q Eg]. cbn in Ey. subst. apply ordered_sub in Ho. apply ordered_app in Ho as (_ & _ & Hlt).
    apply Hlt; [done|set_solver].
  - apply list_elem_of_singleton in Hx. by subst.
Qed.
End sorted.

Lemma ub_app (E1 E2 : level) : E2 <> [] -> ub (E1 ++ E2) = ub E2.
Proof. intros Hne. unfold ub. rewrite last_app. destruct (last E2) eqn:E; [done|by apply last_None in E]. Qed.

Lemma ub_cons e (E : level) : E <> [] -> ub (e :: E) = ub E.
Proof. apply (ub_app [e]). Qed.

Lemma ub_snoc (E : level) e : ub (E ++ [e]) = e.2.
Proof. unfold ub. by rewrite last_snoc. Qed.

Lemma ents_app G1 G2 : ents (G1 ++ G2) = ents G1 ++ ents G2.
Proof. unfold ents. by rewrite fmap_app. Qed.

Lemma ents_cons p E G : ents ((p, E) :: G) = (p, ub E) :: ents G.
Proof. done. Qed.

Lemma ents_inv G (D1 : level) d D2 :
  ents G = D1 ++ d :: D2 ->
  exists G1 p E G2, G = G1 ++ (p, E) :: G2 /\ D1 = ents G1 /\ d = (p, ub E) /\ D2 = ents G2.
Proof.
  intros (G1 & G' & -> & Hd & ->)%fmap_app_inv. symmetry in Hd.
  apply fmap_cons_inv in Hd as ([p E] & G2 & -> & -> & ->). by exists G1, p, E, G2.
Qed.

Lemma ents_fst G : (ents G).*1 = G.*1.
Proof. unfold ents. rewrite <- list_fmap_compose. by apply list_fmap_ext. Qed.

(** a list cut in two places *)
Lemma app_cut {A} (l1 l2 x1 x2 : list A) x :
  l1 ++ l2 = x1 ++ x :: x2 ->
  (exists k, l1 = x1 ++ x :: k /\ x2 = k ++ l2) \/ (exists k, x1 = l1 ++ k /\ l2 = k ++ x :: x2).
Proof.
  revert x1. induction l1 as [|a l1 IH]; intros x1 E; [right; by exists x1|].
  destruct x1 as [|b x1]; cbn in E; injection E as <- E.
  - left. by exists l1.
  - destruct (IH x1 E) as [(k & -> & ->)|(k & -> & ->)]; [left|right]; by exists k.
Qed.

Lemma first_app {A} (l1 l2 l2' : list (Z * A)) : first l2 = first l2' -> first (l1 ++ l2) = first (l1 ++ l2').
Proof. by destruct l1. Qed.

(** ** The entry of a node that was split *)

(** the entry [e] of [E] is split: the old node up to [mid], a new one from there *)
Section split_entry.
Context (E1 E2 : level) (a rnode : Z) (u : option Z) (mid : Z).

Definition before : level := E1 ++ (a, u) :: E2.
Definition after : level := E1 ++ (a, Some mid) :: (rnode, u) :: E2.

Lemma ub_after : ub after = ub before.
Proof.
  unfold after, before. rewrite !ub_app, ub_cons by done. destruct E2 as [|e E2']; [done|]. by rewrite !(ub_cons _ (e :: E2')) by done.
Qed.

Lemma length_after : length after = S (length before).
Proof. unfold after, before. rewrite !length_app. cbn. lia. Qed.

(** the entries, and the bounds, one by one *)
Lemma after_lookup (i : nat) :
  after !! i = if decide (i < length E1)%nat then before !! i
               else if decide (i = length E1) then Some (a, Some mid)
               else if decide (i = S (length E1)) then Some (rnode, u) else before !! (i - 1)%nat.
Proof.
  unfold after, before. destruct (decide (i < length E1)%nat); [by rewrite !lookup_app_l|].
  rewrite lookup_app_r by lia. destruct (decide (i = length E1)) as [->|]; [by rewrite Nat.sub_diag|].
  destruct (decide (i = S (length E1))) as [->|].
  - by replace (S (length E1) - length E1)%nat with 1%nat by lia.
  - rewrite lookup_app_r by lia. replace (i - length E1)%nat with (S (S (i - length E1 - 2))) by lia.
    replace (i - 1 - length E1)%nat with (S (i - length E1 - 2)) by lia. done.
Qed.

Context (K : Z -> Prop) (Ho : ordered K before) (Ho' : ordered K after).

Lemma before_bounds :
  (forall e v, e ∈ E1 -> e.2 = Some v -> v < mid)
  /\ (forall e v, e ∈ (a, u) :: E2 -> e.2 = Some v -> mid < v).
Proof.
  pose proof Ho' as H. unfold after in H. rewrite ordered_app, ordered_cons in H.
  destruct H as (_ & (_ & _ & H2) & H1). split.
  - intros e v He Hv. pose proof (H1 e (a, Some mid) He ltac:(left)) as Hlt.
    unfold entry_lt in Hlt. by rewrite Hv in Hlt.
  - intros e v He Hv. apply elem_of_cons in He as [->|He].
    + cbn in Hv. pose proof (H2 (rnode, u) ltac:(left)) as Hlt. by rewrite Hv in Hlt.
    + pose proof (H2 e ltac:(by right)) as Hlt. unfold entry_lt in Hlt. cbn in Hlt. by rewrite Hv in Hlt.
Qed.

(** the separator is searched for in the node that has the child *)
Lemma after_located : located E1 (a, u) mid.
Proof.
  destruct before_bounds as [Hlt Hgt]. split.
  - apply Forall_forall. intros e He. unfold below. destruct e.2 as [v|] eqn:Ev; [by eapply Hlt|].
    apply list_elem_of_split in He as (l1 & l2 & El). pose proof Ho as Ho2. unfold before in Ho2. rewrite El, <- app_assoc in Ho2.
    apply (ordered_bound K l1 e) in Ho2 as [w Hw]; [congruence|]. by destruct l2.
  - unfold below. cbn. destruct u as [w|] eqn:Ew; [|by intros []]. pose proof (Hgt (a, Some w) w ltac:(left) eq_refl). lia.
Qed.
End split_entry.

(** the order of a level, above a split of one of its children *)
Lemma ordered_up K G1 p E1 E2 a rnode u mid F1 q v F2 G2 :
  ordered K (subs (G1 ++ (p, after E1 E2 a rnode u mid) :: G2)) ->
  Forall (fun g => g.2 <> []) (G1 ++ (p, before E1 E2 a u) :: G2) ->
  after E1 E2 a rnode u mid = (F1 ++ [(q, Some v)]) ++ F2 -> F2 <> [] ->
  forall ra, ordered K (ents G1 ++ (p, Some v) :: (ra, ub (before E1 E2 a u)) :: ents G2) /\ K v.
Proof.
  intros Ho Hne EF HF2 ra.
  assert (ordered K (subs (G1 ++ (p, F1 ++ [(q, Some v)]) :: (ra, F2) :: G2))) as Ho'.
  { rewrite subs_app, subs_cons, EF, <- app_assoc in Ho. by rewrite subs_app, !subs_cons. }
  split.
  - apply ordered_ents in Ho'.
    + rewrite ents_app, !ents_cons, ub_snoc in Ho'.
      rewrite <- (ub_after E1 E2 a rnode u mid), EF, ub_app by done. done.
    + apply Forall_app in Hne as [H1 [_ H2]%Forall_cons]. apply Forall_app. split; [done|].
      apply Forall_cons. split; [by destruct F1|]. by apply Forall_cons.
  - rewrite subs_app, subs_cons in Ho'. destruct Ho' as [_ Ho']. rewrite !Forall_app in Ho'.
    destruct Ho' as (_ & [_ Hq] & _). apply Forall_cons in Hq as [Hq _]. by apply Hq.
Qed.

(** the same, on the level of the leaves *)
Lemma ordered_split K C1 a u C2 b mid :
  ordered K (C1 ++ (a, u) :: C2) -> K mid -> (forall w, u = Some w -> mid < w) ->
  Forall (below mid) C1 -> ordered K (C1 ++ (a, Some mid) :: (b, u) :: C2).
Proof.
  rewrite !ordered_app, !ordered_cons. intros (H1 & (He & H2 & Hlt) & Hcross) Hin Hu Hf.
  assert (entry_lt (a, Some mid) (b, u)) as Hab.
  { unfold entry_lt. cbn. destruct u as [w|]; [by apply Hu|done]. }
  assert (forall e2, e2 ∈ C2 -> entry_lt (b, u) e2) as Hb by done.
  split; [done|]. split; [split; [|split; [split; [done|by split]|]]|].
  - intros w [= <-]. done.
  - intros e2 [->|He2]%elem_of_cons; [done|]. specialize (Hlt e2 He2). unfold entry_lt in *. cbn in *.
    destruct u as [w|]; [|done]. specialize (Hu w eq_refl). destruct e2.2; [lia|done].
  - intros e1 e2 He1 He2. rewrite Forall_forall in Hf. pose proof (Hf e1 He1) as Hb1. unfold below in Hb1.
    pose proof (Hcross e1 (a, u) He1 ltac:(left)) as Hc1.
    apply elem_of_cons in He2 as [->|[->|He2]%elem_of_cons].
    + unfold entry_lt. cbn. by destruct e1.2.
    + unfold entry_lt in *. cbn in *. done.
    + apply Hcross; [done|by right].
Qed.

(** a new node [ra] to the right of [p] *)
Lemma nodup_beside (l1 l2 l : list Z) p ra :
  NoDup (l1 ++ p :: l2) -> ra ∉ l1 ++ l2 -> ra <> p -> NoDup l ->
  (forall x, x ∈ l1 ++ p :: ra :: l2 -> x ∉ l) -> NoDup ((l1 ++ p :: ra :: l2) ++ l).
Proof.
  intros Hs Hra Hrp Hl Hx. apply NoDup_app. split; [|done].
  apply NoDup_app in Hs as (H1 & H2 & [H3 H4]%NoDup_cons). rewrite not_elem_of_app in Hra.
  apply NoDup_app. split; [done|]. split.
  - intros x Hx1 Hx2. apply (H2 x Hx1). rewrite !elem_of_cons in *. naive_solver.
  - apply NoDup_cons. split; [rewrite not_elem_of_cons; naive_solver|]. apply NoDup_cons. naive_solver.
Qed.

(** ** Paths *)

(** where a search goes through a level: the groups before, the node, its entries
    before and after the one taken, the groups after *)
Record frame := mkFrame {
  fr_G1 : list group; fr_p : Z; fr_E1 : level; fr_E2 : level; fr_G2 : list group;
}.
Definition fr_E (fr : frame) (e : entry) : level := fr_E1 fr ++ e :: fr_E2 fr.
Definition fr_level (fr : frame) (e : entry) : list group :=
  fr_G1 fr ++ (fr_p fr, fr_E fr e) :: fr_G2 fr.
Fixpoint levels (e : entry) (frs : list frame) : list (list group) :=
  match frs with
  | [] => []
  | fr :: frs => fr_level fr e :: levels (fr_p fr, ub (fr_E fr e)) frs
  end.

Lemma length_levels e frs : length (levels e frs) = length frs.
Proof. revert e. induction frs as [|fr frs IH]; intros e; [done|]. cbn. by rewrite IH. Qed.

Lemma subs_level (fr : frame) e :
  subs (fr_level fr e) = (subs (fr_G1 fr) ++ fr_E1 fr) ++ e :: fr_E2 fr ++ subs (fr_G2 fr).
Proof. unfold fr_level, fr_E. rewrite subs_app, subs_cons. by rewrite <- !app_assoc. Qed.

(** ** Chains of levels in a heap *)

(** [at_ h p E nx]: at [p] of [h] is an inner node that links to [E], with [nx] to its
    right *)
Class Linked {N : Type} (at_ : gmap Z N -> Z -> level -> ptr -> Prop) := {
  at_dom h p E nx : at_ h p E nx -> is_Some (h !! p);
  at_nonempty h p E nx : at_ h p E nx -> E <> [];
  at_frame h h' p E nx : h' !! p = h !! p -> at_ h p E nx -> at_ h' p E nx;
}.

Section chains.
Context {N : Type} (at_ : gmap Z N -> Z -> level -> ptr -> Prop) `{!Linked at_}.
Implicit Types (h : gmap Z N) (C : level) (G : list group).

Definition inners h G : Prop := forall G1 p E G2, G = G1 ++ (p, E) :: G2 -> at_ h p E (first G2).
(** the levels above [C], from the lowest *)
Fixpoint chain h C (ups : list (list group)) (root : Z) : Prop :=
  match ups with
  | [] => C = [(root, None)]
  | G :: ups => C = subs G /\ inners h G /\ chain h (ents G) ups root
  end.

(** the same, seen from the entry [e] of the level [C1 ++ e :: C2] *)
Fixpoint zip h (C1 : level) (e : entry) (C2 : level) (frs : list frame) (root : Z) : Prop :=
  match frs with
  | [] => C1 = [] /\ C2 = [] /\ e = (root, None)
  | fr :: frs =>
      C1 = subs (fr_G1 fr) ++ fr_E1 fr /\ C2 = fr_E2 fr ++ subs (fr_G2 fr)
      /\ inners h (fr_level fr e)
      /\ zip h (ents (fr_G1 fr)) (fr_p fr, ub (fr_E fr e)) (ents (fr_G2 fr)) frs root
  end.

Lemma zip_chain h frs : forall C1 e C2 root,
  zip h C1 e C2 frs root -> chain h (C1 ++ e :: C2) (levels e frs) root.
Proof.
  induction frs as [|fr frs IH]; cbn [zip levels chain]; intros C1 e C2 root.
  - by intros (-> & -> & ->).
  - intros (-> & -> & Hi & Hz). split; [by rewrite subs_level|]. split; [done|].
    apply IH in Hz. unfold fr_level at 1. by rewrite ents_app.
Qed.

Lemma inners_nonempty h G : inners h G -> Forall (fun g => g.2 <> []) G.
Proof.
  intros Hi. apply Forall_forall. intros [p E] (G1 & G2 & ->)%list_elem_of_split.
  by apply (at_nonempty _ _ _ _ (Hi G1 p E G2 eq_refl)).
Qed.

(** only the nodes of a level matter to it *)
Lemma inners_frame h h' G : (forall x, x ∈ G.*1 -> h' !! x = h !! x) -> inners h G -> inners h' G.
Proof.
  intros Hx Hi G1 p E G2 E'. apply (at_frame h); [|by apply (Hi G1)].
  apply Hx. rewrite E', fmap_app. set_solver.
Qed.

Lemma chain_frame h h' ups : forall C root,
  (forall x, x ∈ addrs ups -> h' !! x = h !! x) -> chain h C ups root -> chain h' C ups root.
Proof.
  induction ups as [|G ups IH]; intros C root Hx; [done|].
  rewrite addrs_cons in Hx.
  intros (-> & Hi & Hc). split; [done|]. split.
  - apply (inners_frame h); [|done]. set_solver.
  - apply IH; [|done]. set_solver.
Qed.

Lemma chain_dom h ups : forall C root x, chain h C ups root -> x ∈ addrs ups -> is_Some (h !! x).
Proof.
  induction ups as [|G ups IH]; intros C root x; [set_solver|].
  rewrite addrs_cons.
  intros (-> & Hi & Hc) [Hx|Hx]%elem_of_app; [|by eapply IH].
  apply list_elem_of_fmap in Hx as ([p E] & -> & (G1 & G2 & ->)%list_elem_of_split).
  by apply (at_dom _ _ _ _ (Hi G1 p E G2 eq_refl)).
Qed.

Lemma chain_nonempty h ups : forall C root, chain h C ups root -> C <> [].
Proof.
  induction ups as [|G ups IH]; intros C root; cbn [chain]; [by intros ->|].
  intros (-> & Hi & Hc%IH). pose proof (inners_nonempty h G Hi) as Hne.
  destruct G as [|[p E] G]; [done|]. apply Forall_cons in Hne as [HE _]. cbn in HE.
  rewrite subs_cons. by destruct E.
Qed.

Lemma chain_levels h ups : forall C root,
  chain h C ups root -> (length ups <= length (addrs ups))%nat.
Proof.
  induction ups as [|G ups IH]; intros C root; [done|]. cbn [chain].
  rewrite addrs_cons, length_app, length_fmap. cbn [length].
  intros (-> & _ & Hc). pose proof (IH _ _ Hc). apply chain_nonempty in Hc. destruct G; [done|]. cbn. lia.
Qed.

(** the addresses are as many nodes of the heap *)
Lemma addresses_size h (l : list Z) :
  NoDup l -> (forall x, x ∈ l -> is_Some (h !! x)) -> (length l <= size h)%nat.
Proof.
  intros Hnd Hx. rewrite <- (size_dom (D := gset Z) h), <- (size_list_to_set (C := gset Z) l Hnd).
  apply subseteq_size. intros x Hl. rewrite elem_of_list_to_set in Hl. apply elem_of_dom. by apply Hx.
Qed.

(** the groups [B] of a level replaced by the groups [D] *)
Lemma inners_segment h h' G1 B G2 (D : list group) :
  inners h (G1 ++ B ++ G2) -> B <> [] -> first D = first B ->
  (forall x, x ∈ G1.*1 ++ G2.*1 -> h' !! x = h !! x) ->
  (forall D1 q F D2, D = D1 ++ (q, F) :: D2 -> at_ h' q F (first (D2 ++ G2))) ->
  inners h' (G1 ++ D ++ G2).
Proof.
  intros Hi HB HD Hh HDi.
  (* a node elsewhere, with the right neighbour it had *)
  assert (forall X1 q F (X2 X2' : list group), G1 ++ B ++ G2 = X1 ++ (q, F) :: X2' -> q ∈ G1.*1 ++ G2.*1 ->
    first X2 = first X2' -> at_ h' q F (first X2)) as Helse.
  { intros X1 q F X2 X2' EX Hq ->. apply (at_frame h); [by apply Hh|]. by apply (Hi X1). }
  intros X1 q F X2 [(k & -> & ->)|(k & -> & EX)]%app_cut.
  - apply (Helse X1 q F _ (k ++ B ++ G2)); [by rewrite <- app_assoc| |].
    + rewrite fmap_app. set_solver.
    + apply first_app. destruct B as [|[b Fb] B]; [done|]. destruct D as [|[r D0] D]; [done|]. cbn in HD. injection HD as ->. done.
  - apply app_cut in EX as [(k2 & ED & ->)|(k2 & -> & ->)].
    + by apply (HDi k q F k2).
    + apply (Helse (G1 ++ B ++ k2) q F X2 X2); [by rewrite <- !app_assoc| |done].
      rewrite fmap_app. set_solver.
Qed.

Lemma inners_replace h h' G1 p E G2 (D : list group) :
  inners h (G1 ++ (p, E) :: G2) -> first D = Some p ->
  (forall x, x ∈ G1.*1 ++ G2.*1 -> h' !! x = h !! x) ->
  (forall D1 q F D2, D = D1 ++ (q, F) :: D2 -> at_ h' q F (first (D2 ++ G2))) ->
  inners h' (G1 ++ D ++ G2).
Proof. intros Hi HD. by apply (inners_segment h h' G1 [(p, E)] G2 D). Qed.

Lemma zip_frame h h' frs : forall C1 e C2 root,
  (forall x, x ∈ addrs (levels e frs) -> h' !! x = h !! x) ->
  zip h C1 e C2 frs root -> zip h' C1 e C2 frs root.
Proof.
  induction frs as [|fr frs IH]; intros C1 e C2 root Hx; [done|]. cbn [levels] in Hx.
  rewrite addrs_cons in Hx.
  intros (-> & -> & Hi & Hz). split; [done|]. split; [done|]. split.
  - apply (inners_frame h); [|done]. intros x ?. apply Hx, elem_of_app. by left.
  - apply IH; [|done]. intros x ?. apply Hx, elem_of_app. by right.
Qed.

(** the root is the last node of the path *)
Lemma zip_root h frs : forall C1 e C2 root,
  zip h C1 e C2 frs root -> if frs is [] then e.1 = root else root ∈ addrs (levels e frs).
Proof.
  induction frs as [|fr frs IH]; cbn [zip]; intros C1 e C2 root; [by intros (_ & _ & ->)|].
  intros (_ & _ & _ & Hz). apply IH in Hz. cbn [levels].
  rewrite addrs_cons. apply elem_of_app.
  destruct frs as [|fr' frs]; [left|by right]. cbn in Hz. subst. unfold fr_level.
  rewrite fmap_app. cbn. set_solver.
Qed.

(** the group of [p] in a level, below the levels [L]; [a] is another node *)
Section level.
Context h (a : Z) (G1 G2 : list group) (p : Z) (E : level) (L : list (list group))
  (Hi : inners h (G1 ++ (p, E) :: G2)) (Hnd : NoDup (a :: addrs ((G1 ++ (p, E) :: G2) :: L))).

Lemma level_other x : x ∈ G1.*1 ++ G2.*1 -> is_Some (h !! x) /\ x <> a /\ x <> p /\ x ∉ addrs L.
Proof.
  intros Hx. apply NoDup_cons in Hnd as [Ha Hn]. rewrite addrs_cons, fmap_app in Ha, Hn. cbn in Ha, Hn.
  apply NoDup_app in Hn as (Hn & Hd & _). split; [|split; [|split]].
  - assert (exists g, x = g.1 /\ g ∈ G1 ++ (p, E) :: G2) as ([q F] & -> & (l1 & l2 & El)%list_elem_of_split).
    { apply elem_of_app in Hx as [Hx|Hx]; apply list_elem_of_fmap in Hx as (g & -> & Hg); exists g; split; try done.
      - apply elem_of_app. by left.
      - apply elem_of_app. right. by right. }
    by apply (at_dom _ _ _ _ (Hi l1 q F l2 El)).
  - intros ->. apply Ha, elem_of_app. left. apply elem_of_app in Hx as [?|?]; apply elem_of_app; [by left|right; by right].
  - intros ->. apply NoDup_app in Hn as (_ & Hn1 & Hn2). apply NoDup_cons in Hn2 as [Hn2 _].
    apply elem_of_app in Hx as [Hx|Hx]; [|done]. apply (Hn1 p Hx). by left.
  - apply Hd. apply elem_of_app in Hx as [?|?]; apply elem_of_app; [by left|right; by right].
Qed.

Lemma level_p : is_Some (h !! p) /\ p <> a /\ p ∉ addrs L.
Proof.
  split; [by apply (at_dom _ _ _ _ (Hi G1 p E G2 eq_refl))|].
  apply NoDup_cons in Hnd as [Ha Hn]. rewrite addrs_cons, fmap_app in Ha, Hn. cbn in Ha, Hn.
  apply NoDup_app in Hn as (Hn & Hd & _). split.
  - intros ->. apply Ha, elem_of_app. left. apply elem_of_app. right. by left.
  - apply Hd, elem_of_app. right. by left.
Qed.

Lemma level_upper : NoDup (p :: addrs L).
Proof.
  apply NoDup_cons. split; [apply level_p|]. apply NoDup_cons in Hnd as [_ Hn].
  rewrite addrs_cons in Hn. by apply NoDup_app in Hn as (_ & _ & ?).
Qed.

Lemma level_self : NoDup (G1.*1 ++ p :: G2.*1).
Proof.
  apply NoDup_cons in Hnd as [_ Hn]. rewrite addrs_cons, fmap_app in Hn. by apply NoDup_app in Hn as (? & _ & _).
Qed.

Lemma level_a : a ∉ addrs L.
Proof.
  apply NoDup_cons in Hnd as [Ha _]. rewrite addrs_cons in Ha. intros Hx. apply Ha, elem_of_app. by right.
Qed.
End level.

(** ** The way to a key *)

(** the search for [key] takes [frs] *)
Fixpoint takes (K : Z -> Prop) (key : Z) (e : entry) (frs : list frame) : Prop :=
  match frs with
  | [] => True
  | fr :: frs =>
      located (fr_E1 fr) e key /\ ordered K (fr_E fr e) /\ takes K key (fr_p fr, ub (fr_E fr e)) frs
  end.

Lemma chain_way K h ups : forall C root key,
  chain h C ups root -> ordered K C ->
  exists frs C1 e C2, C = C1 ++ e :: C2 /\ located C1 e key /\ zip h C1 e C2 frs root
    /\ levels e frs = ups /\ takes K key e frs.
Proof.
  induction ups as [|G ups IH]; intros C root key; cbn [chain].
  - intros -> _. exists [], [], (root, None), []. split; [done|]. split; [split; [by apply Forall_nil|by intros []]|]. done.
  - intros (-> & Hi & Hch) Ho. pose proof (inners_nonempty h G Hi) as Hne.
    destruct (IH (ents G) root key Hch) as (frs & D1 & d & D2 & ED & Hloc & Hz & Hlev & Hway);
      [by apply ordered_ents|].
    apply ents_inv in ED as (G1 & p & E & G2 & -> & -> & -> & ->).
    destruct (locate_below K G1 p E G2 key Hne Ho Hloc) as (E1 & e & E2 & -> & Hloc1 & Hloc2).
    exists (mkFrame G1 p E1 E2 G2 :: frs), (subs G1 ++ E1), e, (E2 ++ subs G2).
    split; [apply (subs_level (mkFrame G1 p E1 E2 G2))|]. split; [done|].
    split; [done|]. split; [by cbn [levels]; rewrite <- Hlev|].
    split; [done|]. split; [|done]. by apply ordered_sub in Ho.
Qed.
End chains.
