(* ===== verification/Growth.v ===== *)
(** * How a tree of levels grows

    A node that was split needs a new entry in the level above; the node there may have
    to be split in its turn, up to a new root. This file follows such a split through
    the levels, whatever the nodes are ([Linked]), whatever a separator is made of, and
    whatever is done to a node when its latch is given back: FB+-tree has one program for
    integer keys and another for string keys, and both are proved by [propagate_grows].
    It also has what the two share at the level of the leaves. *)

From S2P Require Import Prelude Levels.

(** ** The parts of a tree that an operation changes *)

Record spine {N : Type} := mkSpine {
  sp_mem : gmap Z N; sp_root : Z; sp_depth : Z; sp_track : list ptr;
}.
Arguments spine N : clear implicits.
Arguments mkSpine {N}.

Definition set_mem {N} (s : spine N) h : spine N := mkSpine h (sp_root s) (sp_depth s) (sp_track s).

(** [track] has the leftmost node of the levels from [k] on *)
Definition tracks (track : list ptr) (k : nat) (ups : list (list group)) : Prop :=
  forall i G, ups !! i = Some G -> track !! (k + i)%nat = Some (first G).

(** [grown]: no node has been removed from the tree, and the inner nodes have two children
    at least, and 32 if they are not the last of a level *)
Definition filled (grown : bool) (E : level) : Prop :=
  grown = true -> (2 <= length E)%nat /\ (is_Some (ub E) -> (32 <= length E)%nat).

Section growth.
Context {N : Type} (at_ : gmap Z N -> Z -> level -> ptr -> Prop) `{!Linked at_}.
Implicit Types (h : gmap Z N) (C : level) (G : list group) (L : list (list group)) (s : spine N) (nd : N).

(** wherever it is put, [nd] is an inner node that links to [E] *)
Definition links nd (E : level) (nx : ptr) : Prop := forall h p, h !! p = Some nd -> at_ h p E nx.

(** what becomes of a tree whose levels above node [a] were [L], when [a] was split: a
    chain of levels over [C], in the memory [h'] that is left once the last latch is
    given back; [nd] is the node at [a] with its latch given back *)
Record grown_to s (k : nat) (a : Z) nd L C s' h' (ups' : list (list group)) : Prop := {
  gr_chain : chain at_ h' C ups' (sp_root s');
  gr_current : h' !! a = Some nd;
  gr_frame x : is_Some (sp_mem s !! x) -> x <> a -> x ∉ addrs L -> h' !! x = sp_mem s !! x;
  gr_nodup : NoDup (addrs ups');
  gr_new x : x ∈ addrs ups' -> x ∈ addrs L \/ sp_mem s !! x = None;
  gr_depth : sp_depth s' = Z.of_nat (k + S (length ups'));
  gr_levels : (length ups' <= S (length L))%nat;
  gr_track : tracks (sp_track s') (S k) ups' /\ length (sp_track s') = 13%nat
    /\ forall i, (i <= k)%nat -> sp_track s' !! i = sp_track s !! i;
  gr_size : (size h' <= size (sp_mem s) + S (length L))%nat;
}.

(** ** A new root *)

Lemma grown_root s k a nd0 nd rnode u mid w nw s' :
  sp_mem s !! a = Some nd0 -> sp_mem s !! w = None ->
  links nw [(a, Some mid); (rnode, u)] None -> u = None ->
  sp_root s' = w -> sp_depth s' = sp_depth s + 1 -> sp_track s' = <[S k := Some w]> (sp_track s) ->
  sp_depth s = Z.of_nat (k + 1) -> sp_depth s < 13 -> length (sp_track s) = 13%nat ->
  grown_to s k a nd [] [(a, Some mid); (rnode, u)] s' (<[w := nw]> (<[a := nd]> (sp_mem s)))
    [[(w, [(a, Some mid); (rnode, u)])]].
Proof.
  intros Ha Hw Hnw -> Er Ed Et Hdepth Hd13 Hlen. assert (w <> a) as Hwa by congruence. split.
  - cbn [chain]. split; [done|]. split; [|by rewrite Er].
    intros G1 p E G2 EG. destruct G1 as [|? G1]; [|by destruct G1]. cbn in EG. injection EG as <- <- <-.
    apply Hnw, lookup_insert_eq.
  - by rewrite lookup_insert_ne, lookup_insert_eq.
  - intros x [y Hx] Hxa _. rewrite lookup_insert_ne by congruence. by rewrite lookup_insert_ne.
  - apply NoDup_singleton.
  - cbn. intros x Hx. right. apply list_elem_of_singleton in Hx. by subst.
  - rewrite Ed, Hdepth. cbn [length]. lia.
  - done.
  - rewrite Et. split; [|split; [by rewrite length_insert|]].
    + intros i G Hi. destruct i as [|i]; [|done]. injection Hi as <-. rewrite Nat.add_0_r. apply list_lookup_insert_eq. lia.
    + intros i Hi. apply list_lookup_insert_ne. lia.
  - rewrite !map_size_insert, lookup_insert_ne, Ha, Hw by done. cbn. lia.
Qed.

(** ** One level

    The level has the group of [p], whose child [a] was split. *)

Section level.
Context s (a : Z) nd (G1 G2 : list group) (p : Z) (E : level) L
  (Hi : inners at_ (sp_mem s) (G1 ++ (p, E) :: G2))
  (Hnd : NoDup (a :: addrs ((G1 ++ (p, E) :: G2) :: L)))
  (Hdom : forall x, x ∈ addrs L -> is_Some (sp_mem s !! x)).
Context (k : nat) (E1 E2 : level) (u : option Z) (rnode mid : Z)
  (EE : E = before E1 E2 a u) (Ha : is_Some (sp_mem s !! a))
  (Hlen : length (sp_track s) = 13%nat) (Htr : tracks (sp_track s) (S k) ((G1 ++ (p, E) :: G2) :: L)).

Lemma in_group x : x = p -> x ∈ addrs ((G1 ++ (p, E) :: G2) :: L).
Proof. intros ->. rewrite addrs_cons, fmap_app. cbn. set_solver. Qed.

(** the inner node had room: no split *)
Lemma grown_stop n' frs h0 h' :
  links n' (after E1 E2 a rnode u mid) (first G2) ->
  zip at_ (sp_mem s) (ents G1) (p, ub E) (ents G2) frs (sp_root s) -> L = levels (p, ub E) frs ->
  h' = <[p := n']> (<[a := nd]> (sp_mem s)) -> sp_depth s = Z.of_nat (k + S (S (length frs))) ->
  grown_to s k a nd ((G1 ++ (p, E) :: G2) :: L) ((subs G1 ++ E1) ++ (a, Some mid) :: (rnode, u) :: E2 ++ subs G2)
    (set_mem s h0) h' ((G1 ++ (p, after E1 E2 a rnode u mid) :: G2) :: L).
Proof.
  intros Hn' Hz EL Eh Hd. destruct (level_p at_ (sp_mem s) a G1 G2 p E L Hi Hnd) as (Hpd & Hpa & HpL).
  assert (forall x, x <> a -> x <> p -> h' !! x = sp_mem s !! x) as Hfr.
  { intros x Hxa Hxp. rewrite Eh. by rewrite !lookup_insert_ne by done. }
  assert (ub (after E1 E2 a rnode u mid) = ub E) as Hub by (rewrite EE; apply ub_after).
  split; cbn [sp_root sp_depth sp_track set_mem].
  - cbn [chain]. split; [|split].
    + rewrite subs_app, subs_cons. unfold after. by rewrite <- !app_assoc.
    + apply (inners_replace at_ (sp_mem s) h' G1 p E G2 [(p, after E1 E2 a rnode u mid)]); [done|done| |].
      * intros x Hx. destruct (level_other at_ (sp_mem s) a G1 G2 p E L Hi Hnd x Hx) as (_ & ? & ? & _). by apply Hfr.
      * intros D1 q F D2 ED. destruct D1 as [|? D1]; [|by destruct D1]. injection ED as <- <- <-.
        apply Hn'. by rewrite Eh, lookup_insert_eq.
    + apply zip_chain in Hz. rewrite <- EL in Hz. rewrite ents_app, ents_cons, Hub.
      apply (chain_frame at_ (sp_mem s)); [|done]. intros x Hx. apply Hfr; [|by intros ->].
      intros ->. by apply (level_a a G1 G2 p E L Hnd).
  - by rewrite Eh, lookup_insert_ne, lookup_insert_eq.
  - intros x _ Hxa HxL. apply Hfr; [done|]. intros Ex. by apply HxL, in_group.
  - apply NoDup_cons in Hnd as [_ Hn]. rewrite addrs_cons, fmap_app in Hn |- *. done.
  - intros x Hx. left. rewrite addrs_cons, fmap_app in Hx |- *. done.
  - rewrite Hd, EL. cbn [length]. by rewrite length_levels.
  - cbn. lia.
  - split; [|done]. intros [|i] G HG; [|by apply (Htr (S i))].
    injection HG as <-. rewrite (Htr 0%nat _ eq_refl). by destruct G1.
  - rewrite Eh. rewrite !map_size_insert_Some; [lia| |]; by rewrite ?lookup_insert_ne.
Qed.

(** [p] was split too, given what became of the levels above *)
Section step.
Context (F1 : level) (q v : Z) (F2 : level) (n0 n' rn : N) (ra : Z) h4 s' h' (ups' : list (list group))
  (EF : after E1 E2 a rnode u mid = (F1 ++ [(q, Some v)]) ++ F2) (HF2 : F2 <> [])
  (Hn' : links n' (F1 ++ [(q, Some v)]) (Some ra)) (Hrn : links rn F2 (first G2)) (Hra : sp_mem s !! ra = None)
  (Eh4 : h4 = <[ra := rn]> (<[p := n0]> (<[a := nd]> (sp_mem s))))
  (Hgr : grown_to (set_mem s h4) (S k) p n' L (ents G1 ++ (p, Some v) :: (ra, ub E) :: ents G2) s' h' ups').

Lemma step_addresses : is_Some (sp_mem s !! p) /\ p <> a /\ p ∉ addrs L /\ ra <> p /\ ra <> a /\ ra ∉ addrs L /\ a ∉ addrs L.
Proof.
  destruct (level_p at_ (sp_mem s) a G1 G2 p E L Hi Hnd) as (Hpd & Hpa & HpL). split; [done|]. split; [done|]. split; [done|].
  split; [|split; [|split; [|by apply (level_a a G1 G2 p E L Hnd)]]].
  - intros ->. destruct Hpd. congruence.
  - intros ->. destruct Ha. congruence.
  - intros Hx. destruct (Hdom ra Hx). congruence.
Qed.

Lemma step_memory x : x <> ra -> x <> a -> x <> p -> h4 !! x = sp_mem s !! x.
Proof. intros ? ? ?. rewrite Eh4. by rewrite !lookup_insert_ne by done. Qed.

Lemma step_new : h4 !! ra = Some rn /\ h4 !! a = Some nd /\ h4 !! p = Some n0.
Proof.
  destruct step_addresses as (_ & ? & _ & ? & ? & _). rewrite Eh4. split; [by rewrite lookup_insert_eq|].
  split; [by rewrite 2!lookup_insert_ne, lookup_insert_eq|by rewrite lookup_insert_ne, lookup_insert_eq].
Qed.

(** the other nodes of the level *)
Lemma step_other x :
  x ∈ G1.*1 ++ G2.*1 -> is_Some (h4 !! x) /\ h' !! x = sp_mem s !! x /\ x ∉ addrs L /\ x <> ra.
Proof.
  intros Hx. destruct (level_other at_ (sp_mem s) a G1 G2 p E L Hi Hnd x Hx) as ([z Hz] & ? & ? & ?).
  assert (x <> ra) by congruence. assert (is_Some (h4 !! x)) by (rewrite step_memory by done; eauto).
  split; [done|]. split; [|done]. rewrite (gr_frame _ _ _ _ _ _ _ _ _ Hgr) by done. by apply step_memory.
Qed.

Lemma step_inners : inners at_ h' (G1 ++ (p, F1 ++ [(q, Some v)]) :: (ra, F2) :: G2).
Proof.
  destruct step_addresses as (Hpd & Hpa & HpL & Hrp & Hrna & HraL & HaL). destruct step_new as (H4ra & _).
  apply (inners_replace at_ (sp_mem s) h' G1 p E G2 [(p, F1 ++ [(q, Some v)]); (ra, F2)]); [done|done| |].
  - intros x Hx. apply (step_other x Hx).
  - intros D1 w F D2 ED. destruct D1 as [|d D1]; [|destruct D1 as [|? D1]; [|by destruct D1]].
    + injection ED as <- <- <-. apply Hn'. apply (gr_current _ _ _ _ _ _ _ _ _ Hgr).
    + injection ED as _ <- <- <-. apply Hrn. rewrite (gr_frame _ _ _ _ _ _ _ _ _ Hgr); [done|eauto|done|done].
Qed.

Lemma step_nodup : NoDup (addrs ((G1 ++ (p, F1 ++ [(q, Some v)]) :: (ra, F2) :: G2) :: ups')).
Proof.
  destruct step_addresses as (Hpd & Hpa & HpL & Hrp & Hrna & HraL & HaL). destruct step_new as (H4ra & _ & H4p).
  rewrite addrs_cons, fmap_app. cbn.
  apply nodup_beside; [by apply (level_self a G1 G2 p E L Hnd)| |done|apply (gr_nodup _ _ _ _ _ _ _ _ _ Hgr)|].
  - intros Hx. by destruct (step_other ra Hx) as (_ & _ & _ & ?).
  - intros x Hx Hx'. enough (is_Some (h4 !! x) /\ x ∉ addrs L) as [[z Hz] HxL].
    { destruct (gr_new _ _ _ _ _ _ _ _ _ Hgr x Hx'); [done|]. cbn [sp_mem set_mem] in *. congruence. }
    apply elem_of_app in Hx as [Hx|[-> |[-> |Hx]%elem_of_cons]%elem_of_cons]; [|by eauto..|].
    + destruct (step_other x) as (? & _ & ? & _); [apply elem_of_app; by left|done].
    + destruct (step_other x) as (? & _ & ? & _); [apply elem_of_app; by right|done].
Qed.

Lemma step_fresh x :
  x ∈ addrs ((G1 ++ (p, F1 ++ [(q, Some v)]) :: (ra, F2) :: G2) :: ups') ->
  x ∈ addrs ((G1 ++ (p, E) :: G2) :: L) \/ sp_mem s !! x = None.
Proof.
  destruct step_new as (_ & H4a & H4p). intros Hx. rewrite addrs_cons, fmap_app in Hx |- *. cbn in Hx |- *.
  assert (x = ra \/ x ∈ G1.*1 ++ p :: G2.*1 \/ x ∈ addrs ups') as [->|[Hx'|Hx']].
  { clear - Hx. rewrite !elem_of_app, !elem_of_cons in *. naive_solver. }
  - by right.
  - left. apply elem_of_app. by left.
  - destruct (gr_new _ _ _ _ _ _ _ _ _ Hgr x Hx') as [?|Hn]; [left; apply elem_of_app; by right|]. cbn [sp_mem set_mem] in Hn.
    right. destruct (decide (x = ra)) as [->|]; [done|]. destruct (decide (x = p)) as [->|]; [congruence|].
    destruct (decide (x = a)) as [->|]; [congruence|]. by rewrite step_memory in Hn.
Qed.

Lemma grown_step :
  grown_to s k a nd ((G1 ++ (p, E) :: G2) :: L) ((subs G1 ++ E1) ++ (a, Some mid) :: (rnode, u) :: E2 ++ subs G2) s' h'
    ((G1 ++ (p, F1 ++ [(q, Some v)]) :: (ra, F2) :: G2) :: ups').
Proof.
  destruct step_addresses as (Hpd & Hpa & HpL & Hrp & Hrna & HraL & HaL). destruct step_new as (H4ra & H4a & H4p).
  assert (ub F2 = ub E) as HubE.
  { rewrite EE, <- (ub_after E1 E2 a rnode u mid), EF. by rewrite ub_app. }
  destruct Hgr as [Gc Gcur Gfr Gnd Gnew Gd Gl (Gt & Gtl & Gts) Gs]. cbn [sp_mem sp_track set_mem] in *. split.
  - cbn [chain]. split; [|split; [exact step_inners|]].
    + rewrite subs_app, !subs_cons, (app_assoc _ F2), <- EF. unfold after. by rewrite <- !app_assoc.
    + by rewrite ents_app, !ents_cons, ub_snoc, HubE.
  - rewrite Gfr; [done|eauto|done|done].
  - intros x [z Hz] Hxa HxL. assert (x <> ra) by congruence.
    assert (x <> p) by (intros Ex; by apply HxL, in_group).
    rewrite Gfr; [by apply step_memory|rewrite step_memory by done; eauto|done|].
    intros Hx. apply HxL. rewrite addrs_cons. apply elem_of_app. by right.
  - exact step_nodup.
  - exact step_fresh.
  - rewrite Gd. cbn. lia.
  - cbn. lia.
  - split; [|split; [done|intros i ?; apply Gts; lia]]. intros [|i] G HG.
    + injection HG as <-. rewrite Nat.add_0_r, Gts by lia. pose proof (Htr 0%nat _ eq_refl) as Ht0.
      rewrite Nat.add_0_r in Ht0. rewrite Ht0. by destruct G1.
    + rewrite <- Nat.add_succ_comm. by apply Gt.
  - rewrite Eh4 in Gs. rewrite map_size_insert_None, !map_size_insert_Some in Gs.
    + cbn [length]. lia.
    + done.
    + by rewrite lookup_insert_ne.
    + by rewrite !lookup_insert_ne.
Qed.
End step.
End level.
End growth.

(** ** All levels *)

(** A program that brings a split up: [propagate fuel s a rnode mid k path] is run when
    the node [a] of level [k] was split, [rnode] is the new node and [mid] the separator.
    [latched k nd nd']: [nd] is a latched node of level [k], and will be [nd'] when the
    program is through with it. *)
Class Propagation {N St M : Type} (at_ : gmap Z N -> Z -> level -> ptr -> Prop) (K : Z -> Prop)
    (spine_of : St -> spine N) (same : St -> St -> Prop) (num : M -> Z) (mid_ok : M -> Prop)
    (latched : nat -> N -> N -> Prop)
    (propagate : nat -> St -> Z -> Z -> M -> nat -> list Z -> option (St * Z))
    (release : gmap Z N -> Z -> option (gmap Z N)) := {
  pr_same : PreOrder same;
  pr_mid m : mid_ok m -> K (num m);
  (** the latch of an inner node is given back *)
  pr_release k h p nd nd' : h !! p = Some nd -> latched (S k) nd nd' -> release h p = Some (<[p := nd']> h);
  (** the root was split *)
  pr_root s k a nd nd' rnode mid fuel :
    sp_root (spine_of s) = a -> sp_mem (spine_of s) !! a = Some nd -> latched k nd nd' -> mid_ok mid ->
    sp_depth (spine_of s) = Z.of_nat (k + 1) -> sp_depth (spine_of s) < 13 -> length (sp_track (spine_of s)) = 13%nat ->
    exists s1 w nw nw', propagate (S fuel) s a rnode mid k [] = Some (s1, w)
      /\ sp_mem (spine_of s) !! w = None /\ latched (S k) nw nw'
      /\ links at_ nw' [(a, Some (num mid)); (rnode, None)] None
      /\ spine_of s1 = mkSpine (<[w := nw]> (<[a := nd']> (sp_mem (spine_of s)))) w (sp_depth (spine_of s) + 1)
                         (<[S k := Some w]> (sp_track (spine_of s)))
      /\ same s s1;
  (** the node [p] above gets the new entry, and may be split *)
  pr_up s k a nd nd' rnode u mid p E1 E2 nx :
    a <> sp_root (spine_of s) -> sp_mem (spine_of s) !! a = Some nd -> latched k nd nd' -> p <> a ->
    at_ (sp_mem (spine_of s)) p (before E1 E2 a u) nx ->
    ordered K (before E1 E2 a u) -> ordered K (after E1 E2 a rnode u (num mid)) -> mid_ok mid ->
    exists this this' s1, latched (S k) this this' /\ same s s1 /\
      let h := <[p := this]> (<[a := nd']> (sp_mem (spine_of s))) in
      let E := after E1 E2 a rnode u (num mid) in
      (links at_ this' E nx /\ spine_of s1 = set_mem (spine_of s) h
       /\ forall fuel st, propagate (S fuel) s a rnode mid k (p :: st) = Some (s1, p))
      \/ (exists ra rn mid' F1 q F2, sp_mem (spine_of s) !! ra = None /\ E = (F1 ++ [(q, Some (num mid'))]) ++ F2
           /\ F2 <> [] /\ mid_ok mid' /\ links at_ this' (F1 ++ [(q, Some (num mid'))]) (Some ra) /\ links at_ rn F2 nx
           /\ spine_of s1 = set_mem (spine_of s) (<[ra := rn]> h)
           /\ forall fuel st, propagate (S fuel) s a rnode mid k (p :: st)
                              = propagate fuel s1 p ra mid' (S k) st);
}.

Section propagate.
Context {N : Type} `{Hprog : Propagation N St M at_ K spine_of same num mid_ok latched propagate release} `{!Linked at_}.

Lemma propagate_grows frs : forall s k C1 a u C2 rnode mid nd nd' fuel,
  zip at_ (sp_mem (spine_of s)) C1 (a, u) C2 frs (sp_root (spine_of s)) ->
  ordered K (C1 ++ (a, u) :: C2) -> ordered K (C1 ++ (a, Some (num mid)) :: (rnode, u) :: C2) -> mid_ok mid ->
  sp_mem (spine_of s) !! a = Some nd -> latched k nd nd' -> NoDup (a :: addrs (levels (a, u) frs)) ->
  sp_depth (spine_of s) = Z.of_nat (k + S (length frs)) -> sp_depth (spine_of s) < 13 ->
  length (sp_track (spine_of s)) = 13%nat -> tracks (sp_track (spine_of s)) (S k) (levels (a, u) frs) ->
  (length frs < fuel)%nat ->
  exists s' cur h' ups',
    propagate fuel s a rnode mid k (fr_p <$> frs) = Some (s', cur)
    /\ release (sp_mem (spine_of s')) cur = Some h' /\ same s s'
    /\ grown_to at_ (spine_of s) k a nd' (levels (a, u) frs) (C1 ++ (a, Some (num mid)) :: (rnode, u) :: C2) (spine_of s') h' ups'.
Proof.
  pose proof (pr_same (Propagation := Hprog)) as Hsame.
  induction frs as [|[G1 p E1 E2 G2] frs IH];
    intros s k C1 a u C2 rnode mid nd nd' fuel Hz Ho Ho' Hmid Hnd Hlk Hdup Hd Hd13 Hlen Htr Hfuel;
    (destruct fuel as [|fuel]; [lia|]).
  { destruct Hz as (-> & -> & [= -> ->]). cbn [fmap list_fmap length] in *.
    destruct (pr_root (Propagation := Hprog) s k _ nd nd' rnode mid fuel eq_refl Hnd Hlk Hmid Hd Hd13 Hlen)
      as (s1 & w & nw & nw' & -> & Hw & Hlw & Hlinks & Es & Hsm).
    eexists s1, w, _, _. split; [done|]. rewrite Es. cbn [sp_mem]. split; [eapply (pr_release (Propagation := Hprog)); [apply lookup_insert_eq|done]|].
    split; [done|]. rewrite insert_insert_eq. by eapply grown_root. }
  pose proof (zip_root at_ _ _ _ _ _ _ Hz) as Hroot. destruct Hz as (-> & -> & Hi & Hz).
  cbn [fr_G1 fr_p fr_E1 fr_E2 fr_G2] in *. cbn [fmap list_fmap levels length] in *.
  unfold fr_level, fr_E in *. cbn [fr_G1 fr_p fr_E1 fr_E2 fr_G2] in *.
  set (E := E1 ++ (a, u) :: E2) in *. set (L := levels (p, ub E) frs) in *. set (m := num mid) in *.
  assert (forall x, x ∈ addrs L -> is_Some (sp_mem (spine_of s) !! x)) as Hdom.
  { intros x. eapply (chain_dom at_ (sp_mem (spine_of s))). apply zip_chain. exact Hz. }
  destruct (level_p at_ _ a G1 G2 p E L Hi Hdup) as (Hpd & Hpa & HpL).
  assert (a <> sp_root (spine_of s)) as Har.
  { intros Ea. rewrite <- Ea in Hroot. apply NoDup_cons in Hdup as [Hdup _]. done. }
  assert (subs (G1 ++ (p, after E1 E2 a rnode u m) :: G2) = (subs G1 ++ E1) ++ (a, Some m) :: (rnode, u) :: E2 ++ subs G2) as Esubs.
  { rewrite subs_app, subs_cons. unfold after. by rewrite <- !app_assoc. }
  assert (subs (G1 ++ (p, E) :: G2) = (subs G1 ++ E1) ++ (a, u) :: E2 ++ subs G2) as Esubs0.
  { rewrite subs_app, subs_cons. unfold E. by rewrite <- !app_assoc. }
  rewrite <- Esubs in Ho'. rewrite <- Esubs0 in Ho.
  pose proof (ordered_sub K _ _ _ _ Ho) as HoE. pose proof (ordered_sub K _ _ _ _ Ho') as HoE'.
  pose proof (inners_nonempty at_ _ _ Hi) as Hne.
  destruct (pr_up (Propagation := Hprog) s k a nd nd' rnode u mid p E1 E2 (first G2) Har Hnd Hlk Hpa (Hi G1 p E G2 eq_refl) HoE HoE' Hmid)
    as (this & this' & s1 & Hlt & Hs1 & [(Hl & Es & Hrun)|(ra & rn & mid' & F1 & q & F2 & Hra & EF & HF2 & Hmid' & Hl & Hlr & Es & Hrun)]);
    rewrite Hrun.
  - eexists s1, p, _, _. split; [done|]. rewrite Es. cbn [sp_mem set_mem].
    split; [eapply (pr_release (Propagation := Hprog)); [apply lookup_insert_eq|done]|]. split; [done|]. rewrite insert_insert_eq.
    by eapply (grown_stop at_ (spine_of s) a nd' G1 G2 p E L Hi Hdup Hdom k E1 E2 u rnode m eq_refl (ex_intro _ nd Hnd) Hlen Htr _ frs).
  - destruct (ordered_up K G1 p E1 E2 a rnode u m F1 q (num mid') F2 G2 Ho' Hne EF HF2 ra) as [Hup _].
    assert (p <> ra /\ a <> ra) as [Hpr Har2] by (split; intros ->; destruct Hpd; congruence).
    assert (a ∉ addrs L) as HaL by apply (level_a a G1 G2 p E L Hdup).
    destruct (IH s1 (S k) (ents G1) p (ub E) (ents G2) ra mid' this this' fuel)
      as (s' & cur' & h' & ups' & Hrun' & Hul & Hsm & Hgr); try rewrite Es; cbn [sp_mem sp_root sp_depth sp_track set_mem]; try done.
    + apply (zip_frame at_ (sp_mem (spine_of s))); [|done]. intros x Hx. rewrite !lookup_insert_ne; [done|by intros <-|by intros <-|].
      intros <-. destruct (Hdom _ Hx). congruence.
    + rewrite <- ents_cons, <- ents_app. by apply ordered_ents.
    + by rewrite lookup_insert_ne, lookup_insert_eq.
    + by apply (level_upper at_ (sp_mem (spine_of s)) a G1 G2 p E L).
    + rewrite Hd. f_equal. lia.
    + intros i G HG. rewrite Nat.add_succ_comm. by apply (Htr (S i)).
    + lia.
    + eexists s', cur', h', _. split; [done|]. split; [done|]. split; [by transitivity s1|]. rewrite Es in Hgr.
      by eapply (grown_step at_ (spine_of s) a nd' G1 G2 p E L Hi Hdup Hdom k E1 E2 u rnode m eq_refl (ex_intro _ nd Hnd) Hlen Htr).
Qed.
End propagate.

(** ** The level of the leaves *)

(** [leaf_at h m C1 e nx]: at [e] of [h], behind the leaves [C1], is a leaf with the part of
    the map [m] that is located there, and [nx] to its right *)
Class LeafLevel {N W : Type} (leaf_at : gmap Z N -> gmap Z W -> level -> entry -> ptr -> Prop) := {
  la_dom h m C1 e nx : leaf_at h m C1 e nx -> is_Some (h !! e.1);
  la_ext h h' m m' C1 C1' e nx :
    h' !! e.1 = h !! e.1 -> (forall k, Forall (below k) C1' <-> Forall (below k) C1) ->
    (forall k, located C1 e k -> m' !! k = m !! k) -> leaf_at h m C1 e nx -> leaf_at h' m' C1' e nx;
}.

Section leaves.
Context {N W : Type} (leaf_at : gmap Z N -> gmap Z W -> level -> entry -> ptr -> Prop) `{!LeafLevel leaf_at}.
Implicit Types (h : gmap Z N) (m : gmap Z W) (C : level).

Definition leaves h m C : Prop := forall C1 e C2, C = C1 ++ e :: C2 -> leaf_at h m C1 e (first C2).

Lemma leaves_frame h h' m C : (forall x, x ∈ C.*1 -> h' !! x = h !! x) -> leaves h m C -> leaves h' m C.
Proof.
  intros Hx Hl C1 e C2 E'. apply (la_ext h h' m m C1 C1); [|done..|by apply Hl].
  apply Hx. rewrite E', fmap_app. set_solver.
Qed.

Lemma leaves_dom h m C x : leaves h m C -> x ∈ C.*1 -> is_Some (h !! x).
Proof.
  intros Hl (e & -> & (C1 & C2 & ->)%list_elem_of_split)%list_elem_of_fmap. eapply la_dom. by apply (Hl C1 e C2).
Qed.

(** the leaves [B] replaced by the leaves [D] of the same keys, elsewhere the map as it was *)
Lemma leaves_replace h h' m m' C1 (B D : level) C2 :
  leaves h m (C1 ++ B ++ C2) -> B <> [] -> first D = first B ->
  (forall k, Forall (below k) D <-> Forall (below k) B) ->
  (forall k, ~ Forall (below k) C1 \/ Forall (below k) B -> m' !! k = m !! k) ->
  (forall x, x ∈ C1.*1 ++ C2.*1 -> h' !! x = h !! x) ->
  (forall D1 d D2, D = D1 ++ d :: D2 -> leaf_at h' m' (C1 ++ D1) d (first (D2 ++ C2))) ->
  leaves h' m' (C1 ++ D ++ C2).
Proof.
  intros Hl HB HD Hbelow Hm Hh HDl.
  (* a leaf elsewhere, seen from the old level and from the new one *)
  assert (forall (X1 X1' : level) x (X2 X2' : level), C1 ++ B ++ C2 = X1' ++ x :: X2' -> x.1 ∈ C1.*1 ++ C2.*1 ->
    (forall k, located X1' x k -> ~ Forall (below k) C1 \/ Forall (below k) B) ->
    first X2 = first X2' -> (forall k, Forall (below k) X1 <-> Forall (below k) X1') ->
    leaf_at h' m' X1 x (first X2)) as Helse.
  { intros X1 X1' x X2 X2' EX Hx Hk -> Hb. apply (la_ext h h' m m' X1' X1); [by apply Hh|done| |by apply Hl].
    intros k Hloc. by apply Hm, Hk. }
  assert (forall X : level, first (D ++ X) = first (B ++ X)) as HDX.
  { intros X. destruct B as [|[b v] B]; [done|]. destruct D as [|[d w] D]; [done|]. cbn in HD. by injection HD as ->. }
  intros X1 x X2 [(k & -> & ->)|(k & -> & EX)]%app_cut.
  - apply (Helse X1 X1 x _ (k ++ B ++ C2)); [by rewrite <- app_assoc| | | |done].
    + rewrite fmap_app. set_solver.
    + intros q [_ Hn]. left. rewrite Forall_app, Forall_cons. naive_solver.
    + apply first_app, HDX.
  - apply app_cut in EX as [(k2 & ED & ->)|(k2 & -> & ->)].
    + apply (HDl k x k2). done.
    + apply (Helse _ (C1 ++ B ++ k2) x _ X2); [by rewrite <- !app_assoc| | |done|].
      * rewrite fmap_app. set_solver.
      * intros q [Hf _]. right. rewrite !Forall_app in Hf. naive_solver.
      * intros q. rewrite !Forall_app, Hbelow. naive_solver.
Qed.
End leaves.

(** ** The whole tree *)

Section standing.
Context {N W : Type} (at_ : gmap Z N -> Z -> level -> ptr -> Prop) `{!Linked at_}.
Context (leaf_at : gmap Z N -> gmap Z W -> level -> entry -> ptr -> Prop) `{!LeafLevel leaf_at} (K : Z -> Prop).
Implicit Types (s : spine N) (m : gmap Z W) (C : level) (ups : list (list group)).

(** the leaves [C], the levels [ups] above them, and the map [m] in the leaves *)
Record standing s m C ups : Prop := {
  st_ordered : ordered K C;
  st_leaves : leaves leaf_at (sp_mem s) m C;
  st_chain : chain at_ (sp_mem s) C ups (sp_root s);
  st_nodup : NoDup (C.*1 ++ addrs ups);
  st_depth : sp_depth s = Z.of_nat (S (length ups));
  st_track : length (sp_track s) = 13%nat /\ sp_track s !! 0%nat = Some (first C)
    /\ tracks (sp_track s) 1 ups;
}.

Lemma standing_size s m C ups : standing s m C ups -> (length (C.*1 ++ addrs ups) <= size (sp_mem s))%nat.
Proof.
  intros Hr. apply addresses_size; [apply Hr|]. intros x [Hx|Hx]%elem_of_app.
  - eapply (leaves_dom leaf_at); [apply Hr|done].
  - eapply (chain_dom at_ (sp_mem s)); [apply Hr|done].
Qed.

(** the nodes are fuel enough for a way to the leaves *)
Lemma standing_fuel s m C ups : standing s m C ups -> exists fuel, S (size (sp_mem s)) = (length ups + S (S fuel))%nat.
Proof.
  intros Hr. pose proof (standing_size s m C ups Hr) as Hs. rewrite length_app, length_fmap in Hs.
  pose proof (chain_levels at_ _ _ _ _ (st_chain _ _ _ _ Hr)).
  pose proof (chain_nonempty at_ _ _ _ _ (st_chain _ _ _ _ Hr)) as Hne.
  exists (size (sp_mem s) - length ups - 1)%nat. destruct C; [done|]. cbn in Hs. lia.
Qed.

(** what is beside the leaf [e] *)
Lemma standing_beside s m C1 e C2 ups :
  standing s m (C1 ++ e :: C2) ups ->
  e.1 ∉ addrs ups /\ forall x, x ∈ C1.*1 ++ C2.*1 -> is_Some (sp_mem s !! x) /\ x <> e.1 /\ x ∉ addrs ups.
Proof.
  intros [_ Hl _ Hnd _ _]. rewrite fmap_app in Hnd. cbn in Hnd. apply NoDup_app in Hnd as (Hnd1 & Hnd2 & Hnd3).
  assert (forall x, x ∈ C1.*1 ++ C2.*1 -> x ∈ C1.*1 ++ e.1 :: C2.*1) as Hin by set_solver.
  split; [apply Hnd2; set_solver|]. intros x Hx. split; [|split; [|by apply Hnd2, Hin]].
  - apply (leaves_dom leaf_at (sp_mem s) m _ x Hl). rewrite fmap_app. by apply Hin.
  - intros ->. apply NoDup_app in Hnd1 as (_ & H1 & [H2 _]%NoDup_cons).
    apply elem_of_app in Hx as [Hx|Hx]; [|done]. apply (H1 _ Hx). by left.
Qed.

(** a leaf replaced, and its part of the map with it *)
Lemma standing_leaf s m m' C1 e C2 ups nd :
  standing s m (C1 ++ e :: C2) ups -> (forall k, ~ Forall (below k) C1 \/ below k e -> m' !! k = m !! k) ->
  leaf_at (<[e.1 := nd]> (sp_mem s)) m' C1 e (first C2) ->
  standing (set_mem s (<[e.1 := nd]> (sp_mem s))) m' (C1 ++ e :: C2) ups.
Proof.
  intros Hr Hm Hn'. destruct (standing_beside s m C1 e C2 ups Hr) as [He Hne]. destruct Hr as [Ho Hl Hch Hnd Hd Htr].
  split; cbn [sp_mem sp_root sp_depth sp_track set_mem]; try done.
  - apply (leaves_replace leaf_at (sp_mem s) _ m _ C1 [e] [e] C2); [done..| | |].
    + intros k. rewrite Forall_singleton. apply Hm.
    + intros x Hx. apply lookup_insert_ne, not_eq_sym, (Hne x Hx).
    + intros D1 d D2 ED. destruct D1 as [|? D1]; [|by destruct D1]. injection ED as <- <-. by rewrite app_nil_r.
  - apply (chain_frame at_ (sp_mem s)); [|done]. intros x Hx. apply lookup_insert_ne. by intros <-.
Qed.

(** a leaf split, and the split brought up *)
Lemma standing_split s m m' C1 a u C2 ups mid b n0 n' rn h2 s' h' ups' :
  standing s m (C1 ++ (a, u) :: C2) ups -> sp_mem s !! b = None ->
  (forall w, u = Some w -> mid < w) -> ordered K (C1 ++ (a, Some mid) :: (b, u) :: C2) ->
  (forall k, ~ Forall (below k) C1 \/ below k (a, u) -> m' !! k = m !! k) ->
  (forall h, h !! a = Some n' -> leaf_at h m' C1 (a, Some mid) (Some b)) ->
  (forall h, h !! b = Some rn -> leaf_at h m' (C1 ++ [(a, Some mid)]) (b, u) (first C2)) ->
  h2 = <[b := rn]> (<[a := n0]> (sp_mem s)) ->
  grown_to at_ (set_mem s h2) 0 a n' ups (C1 ++ (a, Some mid) :: (b, u) :: C2) s' h' ups' ->
  standing (set_mem s' h') m' (C1 ++ (a, Some mid) :: (b, u) :: C2) ups'.
Proof.
  intros Hr Hb Hmid Ho' Hm Hn' Hrn Eh2 [Gc Gcur Gfr Gnd Gnew Gd Gl (Gt & Gtl & Gts) Gs].
  destruct (standing_beside s m C1 (a, u) C2 ups Hr) as [HaL Hoth]. destruct Hr as [Ho Hl Hch Hnd Hd Htr].
  cbn [sp_mem sp_track set_mem fst] in *.
  assert (a <> b) as Hab.
  { intros ->. destruct (leaves_dom leaf_at (sp_mem s) m _ b Hl); [rewrite fmap_app; set_solver|congruence]. }
  assert (b ∉ addrs ups) as HbL. { intros Hx. destruct (chain_dom at_ _ _ _ _ _ Hch Hx). congruence. }
  assert (h2 !! b = Some rn) as H2b by (by rewrite Eh2, lookup_insert_eq).
  assert (forall x, x ∈ C1.*1 ++ C2.*1 -> x <> b) as Hxb.
  { intros x Hx ->. destruct (Hoth b Hx) as ([y ?] & _). congruence. }
  assert (forall x, x ∈ C1.*1 ++ C2.*1 -> h2 !! x = sp_mem s !! x) as H2.
  { intros x Hx. destruct (Hoth x Hx) as (_ & ? & _). pose proof (Hxb x Hx).
    rewrite Eh2, !lookup_insert_ne by congruence. done. }
  split; cbn [sp_mem sp_root sp_depth sp_track set_mem]; try done.
  - apply (leaves_replace leaf_at (sp_mem s) h' m _ C1 [(a, u)] [(a, Some mid); (b, u)] C2); try done.
    + intros k. rewrite Forall_cons, !Forall_singleton. unfold below. cbn. destruct u as [w|]; [|naive_solver].
      specialize (Hmid w eq_refl). naive_solver lia.
    + intros k. rewrite Forall_singleton. apply Hm.
    + intros x Hx. destruct (Hoth x Hx) as ([y Hy] & ? & ?). rewrite Gfr; [by apply H2|rewrite H2 by done; eauto|done|done].
    + intros D1 d D2 ED. destruct D1 as [|? D1]; [|destruct D1 as [|? D1]; [|by destruct D1]].
      * injection ED as <- <-. rewrite app_nil_r. by apply Hn'.
      * injection ED as <- <- <-. apply Hrn. rewrite Gfr; [done|eauto|done|done].
  - rewrite fmap_app in Hnd |- *. cbn in Hnd |- *. apply NoDup_app in Hnd as (Hnd1 & _).
    apply nodup_beside; [done| |done|done|].
    + intros Hx. by apply (Hxb b).
    + intros x Hx Hx'. enough (is_Some (h2 !! x) /\ x ∉ addrs ups) as [[z Hz] HxL].
      { destruct (Gnew x Hx'); [done|congruence]. }
      apply elem_of_app in Hx as [Hx|[-> |[-> |Hx]%elem_of_cons]%elem_of_cons]; [| |by eauto|].
      * rewrite H2 by set_solver. destruct (Hoth x) as (? & _ & ?); [set_solver|done].
      * split; [|done]. rewrite Eh2, lookup_insert_ne, lookup_insert_eq by done. eauto.
      * rewrite H2 by set_solver. destruct (Hoth x) as (? & _ & ?); [set_solver|done].
  - rewrite Gts by lia. destruct Htr as (_ & -> & _). split; [done|]. split; [by destruct C1|done].
Qed.

(** ** The height

    If the nodes have at least two children, and all but the last of a level at least 32 *)
Section width.
Context (Hwide : forall h p E nx, at_ h p E nx -> (2 <= length E)%nat /\ (is_Some (ub E) -> (32 <= length E)%nat)).

(** a level has at least 32 nodes for every node but one of the level above *)
Lemma level_width h G :
  inners at_ h G -> (forall G1 p E G2, G = G1 ++ (p, E) :: G2 -> G2 <> [] -> is_Some (ub E)) ->
  G <> [] -> (32 * (length G - 1) + 2 <= length (subs G))%nat.
Proof.
  intros Hi Hub Hne.
  assert (forall G1 p E G2, G = G1 ++ (p, E) :: G2 -> (2 <= length E)%nat /\ (G2 <> [] -> (32 <= length E)%nat)) as Hlen.
  { intros G1 p E G2 EG. destruct (Hwide h p E _ (Hi G1 p E G2 EG)) as [H1 H2]. split; [done|]. intros Hn. apply H2. by eapply Hub. }
  clear Hi Hub. induction G as [|[p E] G IH]; [done|]. rewrite subs_cons, length_app.
  destruct (Hlen [] p E G eq_refl) as [H1 H2]. destruct G as [|g G]; [cbn; lia|].
  specialize (H2 ltac:(done)). cbn [length] in *. enough (32 * length G + 2 <= length (subs (g :: G)))%nat by lia.
  rewrite Nat.sub_succ, Nat.sub_0_r in IH. apply IH; [done|].
  intros G1 q F G2 EG. apply (Hlen ((p, E) :: G1) q F G2). by rewrite EG.
Qed.

Lemma chain_width h ups : forall C root,
  chain at_ h C ups root -> ordered K C -> ups <> [] ->
  32 ^ (Z.of_nat (length ups) - 1) + 1 <= Z.of_nat (length C).
Proof.
  induction ups as [|G ups IH]; intros C root Hc Ho Hne; [done|]. destruct Hc as (-> & Hi & Hc).
  pose proof (ordered_ents K G (inners_nonempty at_ h G Hi) Ho) as Ho'.
  assert (G <> []) as HG. { intros ->. by apply (chain_nonempty at_ h) in Hc. }
  assert (forall G1 p E G2, G = G1 ++ (p, E) :: G2 -> G2 <> [] -> is_Some (ub E)) as Hub.
  { intros G1 p E G2 -> HG2. rewrite ents_app, ents_cons in Ho'.
    apply (ordered_bound K (ents G1) (p, ub E) (ents G2)); [done|]. by destruct G2. }
  pose proof (level_width h G Hi Hub HG) as Hw. destruct (decide (ups = [])) as [->|Hups].
  - cbn in *. destruct G; [done|]. cbn in *. lia.
  - pose proof (IH _ _ Hc Ho' Hups) as Hl. unfold ents in Hl. rewrite length_fmap in Hl. cbn [length].
    assert (0 < length ups)%nat by (destruct ups; [done|cbn; lia]).
    replace (Z.of_nat (S (length ups)) - 1) with (Z.succ (Z.of_nat (length ups) - 1)) by lia.
    rewrite Z.pow_succ_r by lia. lia.
Qed.

(** a tree that fits the memory has at most 12 levels *)
Lemma standing_height s m C ups :
  standing s m C ups -> Z.of_nat (size (sp_mem s)) <= 2 ^ 55 -> (length ups <= 11)%nat.
Proof.
  intros Hr Hs. destruct (decide (length ups <= 11)%nat) as [|Hlt]; [done|exfalso].
  pose proof (standing_size s m C ups Hr) as Hsz. rewrite length_app, length_fmap in Hsz.
  assert (ups <> []) as Hne by (intros ->; cbn in Hlt; lia).
  pose proof (chain_width _ _ _ _ (st_chain _ _ _ _ Hr) (st_ordered _ _ _ _ Hr) Hne) as Hw.
  pose proof (chain_levels at_ _ _ _ _ (st_chain _ _ _ _ Hr)).
  assert (2 ^ 55 <= 32 ^ (Z.of_nat (length ups) - 1)).
  { change (2 ^ 55) with (32 ^ 11). apply Z.pow_le_mono_r; lia. }
  lia.
Qed.
End width.
End standing.
