(* ===== verification/Words.v ===== *)
(** * The control words of the nodes of a tree

    Both trees reach a node through its address and use its control word whatever kind
    of node it is. This file has what such an access does, for nodes of any kind: [word]
    reads the control word of a node, [with_word] replaces it. *)

From S2P Require Import Prelude Control.

Section words.
Context {N : Type} (word : N -> Z) (with_word : N -> Z -> N).
Implicit Types (h : gmap Z N) (a : Z) (nd : N) (f : Control.fields).

Definition word_at h a : option Z := word <$> h !! a.
Definition put_word h a (w : Z) : option (gmap Z N) := (fun nd => <[a := with_word nd w]> h) <$> h !! a.

Definition latch_at h a : option (gmap Z N) :=
  let* c := word_at h a in let* (w, _) := Control.latch_exclusive [(c, c)] in put_word h a w.
(** an operation on the word that cannot wait *)
Definition run_at (o : Control.op) h a : option (gmap Z N) :=
  let* c := word_at h a in let* w := Control.run o c in put_word h a w.
Definition begin_read_at h a : option Z := let* c := word_at h a in fst <$> Control.begin_read [c].
Definition end_read_at h a (version : Z) : option bool :=
  let* c := word_at h a in fst <$> Control.end_read [c] version.

(** the node at [a] has the control fields [f] *)
Definition word_is h a nd f : Prop := h !! a = Some nd /\ Control.valid f /\ word nd = Control.encode f.

Lemma latch_word h a nd f :
  word_is h a nd f -> Control.f_locked f = false ->
  latch_at h a = Some (<[a := with_word nd (Control.encode (Control.with_locked f true))]> h).
Proof.
  intros (Hh & Hf & Hw) Hl. unfold latch_at, word_at, put_word. rewrite Hh. cbn [fmap option_fmap option_map].
  by rewrite bind_Some, Hw, Control.latch_exclusive_encode, bind_Some by done.
Qed.

Lemma run_word o h a nd f f' :
  word_is h a nd f -> Control.run_fields o f = Some f' ->
  run_at o h a = Some (<[a := with_word nd (Control.encode f')]> h).
Proof.
  intros (Hh & Hf & Hw) Hr. unfold run_at, word_at, put_word. rewrite Hh. cbn [fmap option_fmap option_map].
  rewrite bind_Some, Hw. destruct (Control.run_encode o f Hf) as [E _]. by rewrite E, Hr.
Qed.

Lemma unlatch_word h a nd f :
  word_is h a nd f -> Control.f_locked f = true ->
  run_at Control.OpUnlatch h a = Some (<[a := with_word nd (Control.encode (Control.with_locked f false))]> h).
Proof. intros Hn Hl. apply (run_word _ _ _ _ f); [done|]. cbn. by rewrite Hl. Qed.

Lemma is_leaf_word h a nd f : word_is h a nd f -> Control.is_leaf <$> word_at h a = Some (Control.f_leaf f).
Proof.
  intros (Hh & Hf & Hw). unfold word_at. rewrite Hh. cbn [fmap option_fmap option_map].
  rewrite Hw. unfold Control.is_leaf, Control.nonzero. rewrite Control.encode_leaf by done.
  by destruct (Control.f_leaf f).
Qed.

(** an optimistic read of a node that nobody writes *)
Lemma read_word h a nd f :
  word_is h a nd f -> Control.f_locked f = false ->
  begin_read_at h a = Some (Control.load_version (Control.encode f))
  /\ end_read_at h a (Control.load_version (Control.encode f)) = Some true.
Proof.
  intros (Hh & Hf & Hw) Hl. unfold begin_read_at, end_read_at, word_at. rewrite Hh. cbn [fmap option_fmap option_map].
  rewrite !bind_Some, Hw. unfold Control.begin_read, Control.end_read, Control.load_version, Control.nonzero.
  cbn [Control.begin_read_loop Control.end_read_loop]. unfold Control.nonzero.
  rewrite !Control.encode_lock, Hl, !Z.eqb_refl by done. done.
Qed.

(** a node with its latch taken, and with the latch given back *)
Definition latched_word nd nd' : Prop :=
  exists f, Control.valid f /\ word nd = Control.encode f /\ Control.f_locked f = true
    /\ nd' = with_word nd (Control.encode (Control.with_locked f false)).

Lemma release_word h a nd nd' :
  h !! a = Some nd -> latched_word nd nd' -> run_at Control.OpUnlatch h a = Some (<[a := nd']> h).
Proof. intros Ha (f & Hv & Hw & Hl & ->). by apply unlatch_word. Qed.
End words.
