(* ===== verification/Cover.v ===== *)
(** * An inner node and the level below

    An inner node links to a segment of the level below: it has a route to every entry of
    the segment, and between two routes a separator that stands for the bound of the
    entry to its left. This file follows what insertions and removals do to that
    correspondence, for inner nodes of any kind ([ikind]): those of FB+-tree with integer
    keys keep the bytes of separators in columns, those with string keys keep pointers to
    the strings. The laws ([IkindOk]) say what the operations of a node do to its
    sequences of separators and routes; they are what [InnerProps] and [SInnerProps] show
    of the two. *)

From S2P Require Import Prelude Control Moves Levels Growth Words.

(** what [remove] of a node returns: the node, its sibling if it changed, whether the
    sibling was merged, whether the level above is to be told a new bound, and the
    separator to look for there *)
Record removal {I M : Type} := mkRemoval {
  rm_this : I; rm_rnode : option (Z * I); rm_merged : bool; rm_up : bool; rm_mid : M;
}.
Arguments removal I M : clear implicits.
Arguments mkRemoval {I M}.

(** a kind of inner nodes *)
Record ikind := mkIkind {
  ik_node : Type; ik_sep : Type; ik_raw : Type;
  ik_knum : ik_node -> Z;
  ik_route : ik_node -> Z -> option ptr;
  ik_next : ik_node -> ptr;
  ik_word : ik_node -> Z;
  ik_with : ik_node -> Z -> ik_node;
  (** the invariant, with the control fields and the separators *)
  ik_wf : ik_node -> Control.fields -> (Z -> ik_sep) -> Prop;
  (** the key that a separator stands for *)
  ik_stands : ik_sep -> Z -> Prop;
  ik_key : Z -> Prop;
  (** what a new node is made of *)
  ik_raw_ok : ik_raw -> Prop;
  ik_new : ik_raw -> ik_node;
  ik_insert : ik_node -> ik_sep -> ptr -> ptr -> Z -> Z -> ik_raw -> option (ik_node * option (ik_node * ik_sep));
  ik_remove : (Z -> option ik_node) -> Z -> ik_node -> ik_sep -> Z -> option (removal ik_node ik_sep);
  ik_update : ik_node -> ik_sep -> Z -> option (ik_node * bool);
}.

Section specs.
Context (X : ikind).
Implicit Types (n rn : ik_node X) (f g : Control.fields) (sa : Z -> ik_sep X) (mid : ik_sep X) (index : Z).

Definition sep_lt (a b : ik_sep X) : Prop := exists u v, ik_stands X a u /\ ik_stands X b v /\ u < v.

(** the routes with [l] and [r] around the new separator *)
Definition ins_routes n index (l r : ptr) : Z -> option ptr :=
  ins (upd (ik_route X n) index (Some l)) (index + 1) (Some r).

(** [mid] belongs at [index] *)
Record insert_at n sa mid index : Prop := {
  ia_range : 0 <= index <= ik_knum X n;
  ia_sep : exists z, ik_stands X mid z;
  ia_lt j : 0 <= j < index -> sep_lt (sa j) mid;
  ia_gt j : index <= j < ik_knum X n -> sep_lt mid (sa j);
}.

(** the two nodes of a split *)
Record split_done n f sa mid index (l r : ptr) (rnode : Z) n' rn (c : Z) : Prop := {
  sd_range : 32 <= c <= 64;
  sd_half : index < 64 -> c <= 33;
  sd_n : ik_wf X n' (Control.with_sibling f true) (ins sa index mid) /\ ik_knum X n' = c;
  sd_rn : ik_wf X rn (Control.inner_fields (Control.f_sibling f)) (fun j => ins sa index mid (c + j))
          /\ ik_knum X rn = 65 - c;
  sd_left j : 0 <= j < c -> ik_route X n' j = ins_routes n index l r j;
  sd_next : ik_next X n' = Some rnode;
  sd_right j : 0 <= j <= 65 - c -> ik_route X rn j = ins_routes n index l r (c + j);
}.

(** the sibling of a node: well formed, alive, to its right *)
Record right_sibling (mem : Z -> option (ik_node X)) n (k : Z) sa (ra : Z) rn g (rsa : Z -> ik_sep X) : Prop := {
  rs_next : ik_next X n = Some ra;
  rs_mem : mem ra = Some rn;
  rs_wf : ik_wf X rn g rsa;
  rs_locked : Control.f_locked g = false;
  rs_deleted : Control.f_deleted g = false;
  rs_above i j : 0 <= i < k -> 0 <= j < ik_knum X rn -> sep_lt (sa i) (rsa j);
}.

(** a separator taken out that is not the last one *)
Definition removed_inside n f sa index (ra : Z) rn g rsa (r : removal (ik_node X) (ik_sep X)) : Prop :=
  let k := ik_knum X n - 1 in
  rm_up r = false /\
  ((rm_merged r = false /\ rm_rnode r = None /\ ik_wf X (rm_this r) (Control.bump f) (del sa index)
    /\ ik_knum X (rm_this r) = k
    /\ forall j, 0 <= j <= k -> ik_route X (rm_this r) j = del (ik_route X n) (index + 1) j)
   \/ (Control.f_sibling f = true /\ rm_merged r = true /\ rm_mid r = del sa index (k - 1)
    /\ (exists rn', rm_rnode r = Some (ra, rn'))
    /\ ik_wf X (rm_this r) (Control.with_sibling (Control.bump f) (Control.f_sibling g)) (join (del sa index) k rsa)
    /\ ik_knum X (rm_this r) = k + ik_knum X rn
    /\ forall j, 0 <= j <= ik_knum X (rm_this r) ->
         ik_route X (rm_this r) j = join (del (ik_route X n) (index + 1)) k (ik_route X rn) j)).

(** the last one taken out: of a node without a sibling; with the sibling, less its first
    child, merged into the node; or with the last child of the node in its place *)
Definition removed_last n f sa mid index (ra : Z) rn g rsa (r : removal (ik_node X) (ik_sep X)) : Prop :=
  (Control.f_sibling f = false /\ rm_merged r = false /\ rm_up r = false /\ rm_rnode r = None
    /\ ik_wf X (rm_this r) (Control.bump f) sa /\ ik_knum X (rm_this r) = index
    /\ forall j, 0 <= j <= index -> ik_route X (rm_this r) j = ik_route X n j)
  \/ (Control.f_sibling f = true /\ rm_merged r = true /\ rm_up r = false /\ rm_mid r = mid
    /\ (exists rn', rm_rnode r = Some (ra, rn'))
    /\ ik_wf X (rm_this r) (Control.with_sibling (Control.bump f) (Control.f_sibling g)) (join sa index rsa)
    /\ ik_knum X (rm_this r) = index + ik_knum X rn
    /\ forall j, 0 <= j <= ik_knum X (rm_this r) ->
         ik_route X (rm_this r) j = join (ik_route X n) (index + 1) (fun i => ik_route X rn (i + 1)) j)
  \/ (Control.f_sibling f = true /\ 1 <= index /\ 1 <= ik_knum X rn /\ rm_merged r = false /\ rm_up r = true
    /\ rm_mid r = sa (index - 1) /\ ik_wf X (rm_this r) (Control.bump f) sa /\ ik_knum X (rm_this r) = index
    /\ (forall j, 0 <= j < index -> ik_route X (rm_this r) j = ik_route X n j)
    /\ ik_next X (rm_this r) = ik_next X n
    /\ exists rn', rm_rnode r = Some (ra, rn') /\ ik_wf X rn' (Control.bump g) rsa /\ ik_knum X rn' = ik_knum X rn
         /\ forall j, 0 <= j <= ik_knum X rn -> ik_route X rn' j = upd (ik_route X rn) 0 (ik_route X n index) j).
End specs.

Class IkindOk (X : ikind) := {
  ik_bounds n f sa : ik_wf X n f sa -> 0 <= ik_knum X n <= 64;
  ik_last n : ik_route X n (ik_knum X n) = Some (ik_next X n);
  ik_reads n f sa : ik_wf X n f sa ->
    ik_word X n = Control.encode f /\ Control.valid f /\ Control.f_leaf f = false;
  (** another control word *)
  ik_words n f sa g : ik_wf X n f sa -> Control.valid g -> Control.f_leaf g = false ->
    let n' := ik_with X n (Control.encode g) in
    ik_wf X n' g sa /\ ik_knum X n' = ik_knum X n /\ ik_next X n' = ik_next X n
    /\ forall j, ik_route X n' j = ik_route X n j;
  ik_in_key m z : ik_stands X m z -> ik_key X z;
  ik_new_ok rw sa : ik_raw_ok X rw ->
    ik_wf X (ik_new X rw) (Control.inner_fields false) sa /\ ik_knum X (ik_new X rw) = 0;
  ik_insert_room n f sa l r mid index rnode rw :
    ik_wf X n f sa -> ik_knum X n < 64 -> insert_at X n sa mid index -> ik_raw_ok X rw ->
    is_Some l -> is_Some r -> (index <> ik_knum X n -> ik_route X n index = Some l) ->
    exists n', ik_insert X n mid l r index rnode rw = Some (n', None)
      /\ ik_wf X n' (Control.bump f) (ins sa index mid) /\ ik_knum X n' = ik_knum X n + 1
      /\ forall j, 0 <= j <= ik_knum X n + 1 -> ik_route X n' j = ins_routes X n index l r j;
  ik_insert_split n f sa l r mid index rnode rw :
    ik_wf X n f sa -> ik_knum X n = 64 -> insert_at X n sa mid index -> ik_raw_ok X rw ->
    is_Some l -> is_Some r -> (index <> ik_knum X n -> ik_route X n index = Some l) ->
    exists n' rn c, ik_insert X n mid l r index rnode rw = Some (n', Some (rn, ins sa index mid (c - 1)))
      /\ split_done X n (Control.bump f) sa mid index l r rnode n' rn c;
  ik_remove_inside mem this n f sa mid index ra rn g rsa :
    ik_wf X n f sa -> 0 <= index < ik_knum X n - 1 ->
    (Control.f_sibling f = true -> right_sibling X mem n (ik_knum X n - 1) (del sa index) ra rn g rsa) ->
    exists r, ik_remove X mem this n mid index = Some r /\ removed_inside X n f sa index ra rn g rsa r;
  ik_remove_last mem this n f sa mid index ra rn g rsa :
    ik_wf X n f sa -> 0 <= index -> index = ik_knum X n - 1 ->
    (Control.f_sibling f = true -> right_sibling X mem n index sa ra rn g rsa /\ 1 <= index + ik_knum X rn) ->
    exists r, ik_remove X mem this n mid index = Some r /\ removed_last X n f sa mid index ra rn g rsa r;
  ik_update_ok n f sa mid index :
    ik_wf X n f sa -> 0 <= index < ik_knum X n -> (exists z, ik_stands X mid z) ->
    (forall j, 0 <= j < index -> sep_lt X (sa j) mid) -> (forall j, index < j < ik_knum X n -> sep_lt X mid (sa j)) ->
    exists n', ik_update X n mid index = Some (n', Control.f_sibling f && (ik_knum X n - 1 =? index))
      /\ ik_wf X n' (Control.bump f) (upd sa index mid) /\ ik_knum X n' = ik_knum X n
      /\ forall j, 0 <= j <= ik_knum X n -> ik_route X n' j = ik_route X n j;
}.

(** ** Entries and routes *)

Section covers.
Context (X : ikind) `{HX : !IkindOk X} (grown : bool).
Implicit Types (n : ik_node X) (sa : Z -> ik_sep X).

(** [n], with control fields [f] and separators [sa], links to [E]; [nx] is the node to
    its right *)
Record covers n (f : Control.fields) sa (E : level) (nx : ptr) : Prop := {
  cv_ne : E <> [];
  cv_wf : ik_wf X n f sa;
  cv_del : Control.f_deleted f = false;
  cv_sib : Control.f_sibling f = bool_decide (is_Some (ub E));
  cv_knum : ik_knum X n = Z.of_nat (length E) - (if Control.f_sibling f then 0 else 1);
  cv_routes (i : nat) a : E.*1 !! i = Some a -> ik_route X n (Z.of_nat i) = Some (Some a);
  cv_next : Control.f_sibling f = true -> ik_next X n = nx /\ is_Some nx;
  cv_filled : filled grown E;
  cv_sep j : 0 <= j < ik_knum X n -> exists e u, E !! Z.to_nat j = Some e /\ e.2 = Some u /\ ik_stands X (sa j) u;
}.

Section one.
Context n f sa E nx (Hc : covers n f sa E nx).

Lemma covers_route (i : nat) e : E !! i = Some e -> ik_route X n (Z.of_nat i) = Some (Some e.1).
Proof. intros He. apply (cv_routes n f sa E nx Hc). by rewrite list_lookup_fmap, He. Qed.

Lemma covers_last_route : Control.f_sibling f = true -> ik_route X n (ik_knum X n) = Some nx.
Proof. intros Hs. rewrite ik_last. f_equal. by apply (cv_next n f sa E nx Hc). Qed.

(** every route leads to a node *)
Lemma covers_linked : (forall j, 0 <= j <= ik_knum X n -> exists a, ik_route X n j = Some (Some a))
  /\ exists a, ik_next X n = Some a.
Proof.
  pose proof (cv_knum n f sa E nx Hc) as Hk. pose proof (cv_ne n f sa E nx Hc) as Hne.
  assert (exists a, ik_next X n = Some a) as [a Ha].
  { destruct (Control.f_sibling f) eqn:Es.
    - destruct (cv_next n f sa E nx Hc Es) as [-> [a ->]]. eauto.
    - destruct (lookup_lt_is_Some_2 E (length E - 1)) as [e He]; [by destruct E; [|cbn; lia]|].
      apply covers_route in He. pose proof (ik_last n) as Hl.
      replace (ik_knum X n) with (Z.of_nat (length E - 1)) in Hl by (destruct E; [done|cbn in *; lia]).
      rewrite He in Hl. injection Hl as <-. eauto. }
  split; [|eauto]. intros j Hj. destruct (decide (j = ik_knum X n)) as [->|]; [rewrite ik_last, Ha; eauto|].
  destruct (lookup_lt_is_Some_2 E (Z.to_nat j)) as [e He]; [destruct (Control.f_sibling f); lia|].
  apply covers_route in He. rewrite Z2Nat.id in He by lia. eauto.
Qed.

(** the place of a key among the separators is its place among the entries *)
Lemma covers_place E1 e E2 key :
  ordered (ik_key X) E -> E = E1 ++ e :: E2 -> located E1 e key ->
  Z.of_nat (length E1) <= ik_knum X n
  /\ (forall j, 0 <= j < Z.of_nat (length E1) -> exists u, ik_stands X (sa j) u /\ u < key)
  /\ (forall j, Z.of_nat (length E1) <= j < ik_knum X n -> exists u, ik_stands X (sa j) u /\ ~ u < key).
Proof.
  intros Ho HE [Hf Hn]. pose proof (cv_knum n f sa _ nx Hc) as Hk. rewrite HE, length_app in Hk at 1. cbn in Hk.
  split; [destruct (Control.f_sibling f); lia|]. split.
  - intros j Hj. destruct (cv_sep n f sa E nx Hc j) as (x & u & Hx & Hu & Ht); [destruct (Control.f_sibling f); lia|].
    exists u. split; [done|]. rewrite HE, lookup_app_l in Hx by lia.
    rewrite Forall_lookup in Hf. apply Hf in Hx. unfold below in Hx. by rewrite Hu in Hx.
  - intros j Hj. destruct (cv_sep n f sa E nx Hc j) as (x & u & Hx & Hu & Ht); [lia|].
    exists u. split; [done|]. assert (~ below key x) as Hx'.
    { rewrite HE, lookup_app_r in Hx by lia. destruct (Z.to_nat j - length E1)%nat as [|i]; [by injection Hx as <-|].
      cbn in Hx. apply list_elem_of_lookup_2 in Hx. intros Hb. apply Hn, (below_mono key e x); [|done].
      rewrite HE in Ho. apply ordered_app in Ho as (_ & Ho & _). apply ordered_cons in Ho as (_ & _ & Hlt). by apply Hlt. }
    unfold below in Hx'. by rewrite Hu in Hx'.
Qed.

(** the entry of a key is a child: only a key past the last bound leaves the node *)
Lemma covers_child E1 e E2 :
  E = E1 ++ e :: E2 -> (Z.of_nat (length E1) =? ik_knum X n) && Control.f_sibling f = false.
Proof.
  intros HE. pose proof (cv_knum n f sa _ nx Hc) as Hk. rewrite HE, length_app in Hk at 1. cbn in Hk.
  destruct (Control.f_sibling f); [|apply andb_false_r]. rewrite andb_true_r. blia.
Qed.

Lemma covers_word g :
  Control.valid g -> Control.f_leaf g = false -> Control.f_deleted g = false -> Control.f_sibling g = Control.f_sibling f ->
  covers (ik_with X n (Control.encode g)) g sa E nx.
Proof.
  destruct Hc as [H1 Hwf H2 H3 H4 H5 H6 H7 H8]. intros Hv Hl Hd Hs.
  destruct (ik_words n f sa g Hwf Hv Hl) as (Hwf' & Hk & Hn & Hr).
  split; try done; rewrite ?Hs, ?Hk, ?Hn; try done. intros i a Ha. rewrite Hr. by apply H5.
Qed.

Lemma covers_lock b : covers (ik_with X n (Control.encode (Control.with_locked f b))) (Control.with_locked f b) sa E nx.
Proof. destruct (ik_reads n f sa (cv_wf n f sa E nx Hc)) as (_ & Hv & Hl). by apply covers_word; [..|apply Hc|]. Qed.
End one.

(** ** A new entry *)

(** the entry [e] of [E] is split: the old node up to [v], a new one from there *)
Section split_entry.
Context (E1 E2 : level) (a rnode : Z) (u : option Z) (v : Z) (mid : ik_sep X).
Abbreviation before := (Levels.before E1 E2 a u).
Abbreviation after := (Levels.after E1 E2 a rnode u v).
Abbreviation index := (Z.of_nat (length E1)).

Context n f sa nx (Hc : covers n f sa before nx) (Ho' : ordered (ik_key X) after) (Hmid : ik_stands X mid v).

Lemma before_length :
  index <= ik_knum X n /\ Z.of_nat (length before) = ik_knum X n + (if Control.f_sibling f then 0 else 1)
  /\ (Control.f_sibling f = true -> index < ik_knum X n).
Proof.
  pose proof (cv_knum _ _ _ _ _ Hc) as Hk. unfold Levels.before in *. rewrite length_app in *. cbn in *.
  destruct (Control.f_sibling f); lia.
Qed.

Lemma before_insert_at : insert_at X n sa mid index.
Proof.
  destruct (before_bounds E1 E2 a rnode u v (ik_key X) Ho') as [Hlt Hgt].
  destruct before_length as (Hl & Hk & _). split; [lia|by exists v| |].
  - intros j Hj. destruct (cv_sep _ _ _ _ _ Hc j) as (e & w & He & Hw & Ht); [lia|]. exists w, v. do 2 (split; [done|]).
    unfold Levels.before in He. rewrite lookup_app_l in He by lia. apply list_elem_of_lookup_2 in He. by eapply Hlt.
  - intros j Hj. destruct (cv_sep _ _ _ _ _ Hc j) as (e & w & He & Hw & Ht); [lia|]. exists v, w. do 2 (split; [done|]).
    unfold Levels.before in He. rewrite lookup_app_r in He by lia. apply list_elem_of_lookup_2 in He. by eapply Hgt.
Qed.

(** the separators are the bounds of the entries *)
Lemma after_sep j : 0 <= j < ik_knum X n + 1 ->
  exists e w, after !! Z.to_nat j = Some e /\ e.2 = Some w /\ ik_stands X (ins sa index mid j) w.
Proof.
  intros Hj. destruct before_length as (Hl & _ & _). unfold ins. rewrite after_lookup.
  destruct (Z.ltb_spec j index) as [Hlt|Hge].
  { rewrite decide_True by lia. destruct (cv_sep _ _ _ _ _ Hc j) as (e & w & He & Hw); [lia|]. exists e, w. by split. }
  rewrite decide_False by lia. destruct (Z.eqb_spec j index).
  { rewrite decide_True by lia. by exists (a, Some v), v. }
  rewrite decide_False by lia. destruct (cv_sep _ _ _ _ _ Hc (j - 1)) as (e & w & He & Hw & Ht); [lia|].
  destruct (decide (Z.to_nat j = S (length E1))) as [Ej|].
  - replace (Z.to_nat (j - 1)) with (length E1) in He by lia. unfold Levels.before in He.
    rewrite list_lookup_middle in He by done. injection He as <-. by exists (rnode, u), w.
  - exists e, w. by replace (Z.to_nat j - 1)%nat with (Z.to_nat (j - 1)) by lia.
Qed.

Lemma after_routes (i : nat) e :
  after !! i = Some e -> ins_routes X n index (Some a) (Some rnode) (Z.of_nat i) = Some (Some e.1).
Proof.
  rewrite after_lookup. unfold ins_routes, ins, upd. intros He.
  destruct (decide (i < length E1)%nat).
  { btrue (Z.of_nat i <? index + 1). bfalse (Z.of_nat i =? index). by apply (covers_route _ _ _ _ _ Hc). }
  destruct (decide (i = length E1)).
  { btrue (Z.of_nat i <? index + 1). btrue (Z.of_nat i =? index). by injection He as <-. }
  bfalse (Z.of_nat i <? index + 1). destruct (decide (i = S (length E1))).
  { btrue (Z.of_nat i =? index + 1). by injection He as <-. }
  bfalse (Z.of_nat i =? index + 1). bfalse (Z.of_nat i - 1 =? index).
  apply (covers_route _ _ _ _ _ Hc) in He. by replace (Z.of_nat i - 1) with (Z.of_nat (i - 1)) by lia.
Qed.

Lemma after_fst (i : nat) x :
  after.*1 !! i = Some x -> ins_routes X n index (Some a) (Some rnode) (Z.of_nat i) = Some (Some x).
Proof. rewrite list_lookup_fmap. intros (e & He & ->)%fmap_Some. by apply after_routes. Qed.

(** past the new entries, the last route is the old one *)
Lemma after_next :
  Control.f_sibling f = true -> ins_routes X n index (Some a) (Some rnode) (ik_knum X n + 1) = Some nx.
Proof.
  intros Hs. destruct before_length as (_ & _ & Hl). specialize (Hl Hs). unfold ins_routes, ins, upd.
  bfalse (ik_knum X n + 1 <? index + 1). bfalse (ik_knum X n + 1 =? index + 1).
  bfalse (ik_knum X n + 1 - 1 =? index). replace (ik_knum X n + 1 - 1) with (ik_knum X n) by lia.
  by apply (covers_last_route _ _ _ _ _ Hc).
Qed.

(** the node with room for the new separator *)
Lemma covers_after n' g :
  ik_wf X n' g (ins sa index mid) -> ik_knum X n' = ik_knum X n + 1 ->
  (forall j, 0 <= j <= ik_knum X n + 1 -> ik_route X n' j = ins_routes X n index (Some a) (Some rnode) j) ->
  Control.f_deleted g = false -> Control.f_sibling g = Control.f_sibling f ->
  covers n' g (ins sa index mid) after nx.
Proof.
  intros Hwf Hk Hr Hd Hs. destruct before_length as (H1 & H2 & H3).
  pose proof (length_after E1 E2 a rnode u v) as Hl. split.
  - unfold Levels.after. by destruct E1.
  - done.
  - done.
  - rewrite ub_after, Hs. apply Hc.
  - rewrite Hs, Hk. destruct (Control.f_sibling f); lia.
  - intros i x Hx. pose proof (lookup_lt_Some _ _ _ Hx) as Hi. rewrite length_fmap in Hi.
    rewrite Hr; [by apply after_fst|]. destruct (Control.f_sibling f); lia.
  - intros Hg. rewrite Hs in Hg. pose proof (after_next Hg) as Hn. rewrite <- Hr in Hn by lia.
    rewrite <- Hk, ik_last in Hn. injection Hn as ->.
    split; [done|]. by apply (cv_next _ _ _ _ _ Hc).
  - intros Hg. rewrite ub_after, length_after. destruct (cv_filled _ _ _ _ _ Hc Hg) as [Hf1 Hf2]. split; [lia|].
    intros Hu. specialize (Hf2 Hu). lia.
  - intros j Hj. apply after_sep. lia.
Qed.

(** the two nodes of a split *)
Lemma covers_split n' rn (ra c : Z) :
  ik_knum X n = 64 ->
  split_done X n (Control.bump f) sa mid index (Some a) (Some rnode) ra n' rn c ->
  let mid' := ins sa index mid (c - 1) in
  exists F1 q v' F2, after = (F1 ++ [(q, Some v')]) ++ F2 /\ F2 <> [] /\ ik_stands X mid' v'
    /\ covers n' (Control.with_sibling (Control.bump f) true) (ins sa index mid) (F1 ++ [(q, Some v')]) (Some ra)
    /\ covers rn (Control.inner_fields (Control.f_sibling f)) (fun j => ins sa index mid (c + j)) F2 nx.
Proof.
  intros Hfull [Hrange Hhalf [Hn Hkn] [Hrn Hkrn] Hleft Hnext Hright] mid'.
  destruct before_length as (H1 & H2 & H3). pose proof (length_after E1 E2 a rnode u v) as Hl.
  destruct (after_sep (c - 1) ltac:(lia)) as ([q w] & v' & Hq & Hw & Htk). cbn in Hw. subst w. fold mid' in Htk |- *.
  destruct (list_elem_of_split_length _ _ _ Hq) as (F1 & F2 & EF & Hlen).
  assert (length F2 = Z.to_nat (64 - c) + (if Control.f_sibling f then 1 else 2))%nat as HlF2.
  { apply (f_equal length) in EF. rewrite length_app in EF. cbn in EF. destruct (Control.f_sibling f); lia. }
  assert (F2 <> []) as HF2. { intros ->. destruct (Control.f_sibling f); cbn in HlF2; lia. }
  assert (forall i, (i < S (length F1))%nat -> (F1 ++ [(q, Some v')]) !! i = after !! i) as Hpre.
  { intros i Hi. rewrite EF. change ((q, Some v') :: F2) with ([(q, Some v')] ++ F2).
    rewrite app_assoc. symmetry. apply lookup_app_l. rewrite length_app. cbn. lia. }
  assert (forall i, F2 !! i = after !! (Z.to_nat c + i)%nat) as Hsuf.
  { intros i. rewrite EF, lookup_app_r by lia. by replace (Z.to_nat c + i - length F1)%nat with (S i) by lia. }
  exists F1, q, v', F2. split; [by rewrite <- app_assoc|]. split; [done|]. split; [done|]. split; split.
  - by destruct F1.
  - done.
  - apply Hc.
  - by rewrite ub_snoc.
  - rewrite length_app. cbn. lia.
  - intros i x. rewrite list_lookup_fmap. intros (e & He & ->)%fmap_Some.
    pose proof (lookup_lt_Some _ _ _ He) as Hi. rewrite length_app in Hi. cbn in Hi.
    rewrite Hleft by lia. apply after_routes. rewrite <- Hpre by lia. done.
  - intros _. rewrite Hnext. split; [done|by eexists].
  - intros _. rewrite ub_snoc, length_app. cbn. lia.
  - intros j Hj. destruct (after_sep j) as (e & w & He & Hw); [lia|]. exists e, w. split; [|done].
    rewrite Hpre by lia. done.
  - done.
  - done.
  - done.
  - change (Control.f_sibling (Control.inner_fields (Control.f_sibling f))) with (Control.f_sibling f).
    rewrite (cv_sib _ _ _ _ _ Hc), <- (ub_after E1 E2 a rnode u v), EF, ub_app by done. by rewrite ub_cons.
  - change (Control.f_sibling (Control.inner_fields (Control.f_sibling f))) with (Control.f_sibling f).
    rewrite Hkrn, HlF2. destruct (Control.f_sibling f); lia.
  - intros i x. rewrite list_lookup_fmap. intros (e & He & ->)%fmap_Some. pose proof (lookup_lt_Some _ _ _ He) as Hi.
    rewrite Hsuf in He. apply after_routes in He. rewrite Hright by (destruct (Control.f_sibling f); lia).
    by replace (c + Z.of_nat i) with (Z.of_nat (Z.to_nat c + i)) by lia.
  - change (Control.f_sibling (Control.inner_fields (Control.f_sibling f))) with (Control.f_sibling f). intros Hs.
    pose proof (Hright (65 - c) ltac:(lia)) as Hr. replace (c + (65 - c)) with (ik_knum X n + 1) in Hr by lia.
    rewrite after_next in Hr by done. rewrite <- Hkrn, ik_last in Hr. injection Hr as ->.
    split; [done|]. by apply (cv_next _ _ _ _ _ Hc).
  - intros Hg. destruct (cv_filled _ _ _ _ _ Hc Hg) as [Hf1 Hf2].
    assert (ub F2 = ub before) as ->.
    { rewrite <- (ub_after E1 E2 a rnode u v), EF, ub_app by done. by rewrite ub_cons. }
    destruct (Control.f_sibling f) eqn:Hs.
    + specialize (H3 eq_refl). specialize (Hhalf ltac:(lia)). split; intros; lia.
    + split; [lia|]. intros Hu. pose proof (cv_sib _ _ _ _ _ Hc) as Hb. rewrite Hs in Hb. symmetry in Hb.
      by rewrite bool_decide_eq_false in Hb.
  - intros j Hj. destruct (after_sep (c + j)) as (e & w & He & Hw); [lia|]. exists e, w. split; [|done].
    rewrite Hsuf. by replace (Z.to_nat c + Z.to_nat j)%nat with (Z.to_nat (c + j)) by lia.
Qed.

(** [insert] of the code, when the child [a] was split *)
Lemma insert_covers ra rw :
  ik_raw_ok X rw ->
  exists n' rest, ik_insert X n mid (Some a) (Some rnode) index ra rw = Some (n', rest)
    /\ match rest with
       | None => exists sa', covers n' (Control.bump f) sa' after nx
       | Some (rn, mid') => exists F1 q v' F2 sa1 sa2, after = (F1 ++ [(q, Some v')]) ++ F2 /\ F2 <> []
           /\ ik_stands X mid' v'
           /\ covers n' (Control.with_sibling (Control.bump f) true) sa1 (F1 ++ [(q, Some v')]) (Some ra)
           /\ covers rn (Control.inner_fields (Control.f_sibling f)) sa2 F2 nx
       end.
Proof.
  intros Hrw. pose proof (cv_wf _ _ _ _ _ Hc) as Hwf. pose proof before_insert_at as Hat.
  assert (index <> ik_knum X n -> ik_route X n index = Some (Some a)) as Hleft.
  { intros _. apply (covers_route _ _ _ _ _ Hc _ (a, u)). unfold Levels.before. by apply list_lookup_middle. }
  pose proof (ik_bounds n f sa Hwf) as Hk. destruct (decide (ik_knum X n = 64)) as [Hfull|Hroom].
  - destruct (ik_insert_split n f sa (Some a) (Some rnode) mid index ra rw Hwf Hfull Hat Hrw) as (n' & rn & c & -> & Hd);
      [by eexists|by eexists|done|].
    eexists _, _. split; [done|]. cbn. destruct (covers_split n' rn ra c Hfull Hd) as (F1 & q & v' & F2 & H1 & H2 & H3 & H4 & H5).
    by exists F1, q, v', F2, (ins sa index mid), (fun j => ins sa index mid (c + j)).
  - destruct (ik_insert_room n f sa (Some a) (Some rnode) mid index ra rw Hwf ltac:(lia) Hat Hrw) as (n' & -> & Hwf' & Hk' & Hr');
      [by eexists|by eexists|done|].
    eexists _, _. split; [done|]. eexists. apply (covers_after n' (Control.bump f)); try done. apply (cv_del _ _ _ _ _ Hc).
Qed.
End split_entry.

(** the new root over the two halves of the old one *)
Lemma insert_root a rnode v mid ra rw rw' :
  ik_raw_ok X rw -> ik_raw_ok X rw' -> ik_stands X mid v ->
  let f := Control.with_locked (Control.inner_fields false) true in
  let n := ik_with X (ik_new X rw) (Control.encode f) in
  ik_wf X n f (fun _ => mid) /\ ik_knum X n = 0
  /\ exists n' sa', ik_insert X n mid (Some a) (Some rnode) 0 ra rw' = Some (n', None)
       /\ covers n' (Control.bump f) sa' [(a, Some v); (rnode, None)] None.
Proof.
  intros Hrw Hrw' Hmid f n. destruct (ik_new_ok rw (fun _ => mid) Hrw) as [H0 Hk0].
  destruct (ik_words _ _ _ f H0) as (Hwf & Hk & _); [done|done|]. fold n in Hwf, Hk. rewrite Hk0 in Hk.
  split; [done|]. split; [done|].
  destruct (ik_insert_room n f (fun _ => mid) (Some a) (Some rnode) mid 0 ra rw' Hwf) as (n' & -> & Hwf' & Hk' & Hr').
  - lia.
  - split; [lia|by exists v|lia|lia].
  - done.
  - by eexists.
  - by eexists.
  - intros Hne. by destruct Hne.
  - rewrite Hk in Hk', Hr'. exists n', (ins (fun _ => mid) 0 mid). split; [done|]. split; try done.
    + intros i x Hx. assert (i = 0 \/ i = 1)%nat as [->| ->].
      { apply lookup_lt_Some in Hx. cbn in Hx. lia. }
      * injection Hx as <-. by rewrite Hr' by lia.
      * injection Hx as <-. by rewrite Hr' by lia.
    + intros Hg. cbn. split; [lia|]. by intros [].
    + intros j Hj. rewrite Hk' in Hj. replace j with 0 by lia. by exists (a, Some v), v.
Qed.
End covers.

(** ** One element less, as a function of the index *)

Lemma lookup_skip {A} (l1 l2 : list A) x i :
  (l1 ++ l2) !! i = if decide (i < length l1)%nat then (l1 ++ x :: l2) !! i else (l1 ++ x :: l2) !! S i.
Proof.
  case_decide; [by rewrite !lookup_app_l|]. rewrite !lookup_app_r by lia.
  by replace (S i - length l1)%nat with (S (i - length l1)) by lia.
Qed.

Lemma lookup_replace {A} (l1 l2 : list A) x y i :
  (l1 ++ y :: l2) !! i = if decide (i = length l1) then Some y else (l1 ++ x :: l2) !! i.
Proof.
  case_decide as Hi; [subst; by apply list_lookup_middle|]. destruct (decide (i < length l1)%nat); [by rewrite !lookup_app_l|].
  rewrite !lookup_app_r by lia. destruct (i - length l1)%nat eqn:E; [lia|done].
Qed.

Lemma ub_first (a b : Z) w (E : level) : ub ((a, w) :: E) = ub ((b, w) :: E).
Proof. destruct E as [|x l]; [done|]. by rewrite !(ub_cons _ (x :: l)) by done. Qed.

(** ** An entry goes *)

Section remove.
Context (X : ikind) `{HX : !IkindOk X}.
Implicit Types (n rn : ik_node X) (f g : Control.fields) (E F : level) (nx : ptr) (sa rsa : Z -> ik_sep X).
Abbreviation covers := (covers X false).
Abbreviation removal := (removal (ik_node X) (ik_sep X)).

(** the separators stand for the bounds [b] *)
Definition seps_for (k : Z) sa (b : list (option Z)) : Prop :=
  forall j, 0 <= j < k -> exists u, b !! Z.to_nat j = Some (Some u) /\ ik_stands X (sa j) u.

Lemma covers_seps n f sa E nx : covers n f sa E nx -> seps_for (ik_knum X n) sa E.*2.
Proof.
  intros Hc j Hj. destruct (cv_sep _ _ _ _ _ _ _ Hc j Hj) as (e & u & He & Hu & Ht). exists u. split; [|done].
  by rewrite list_lookup_fmap, He, <- Hu.
Qed.

Lemma seps_for_in k sa E i : seps_for k sa E.*2 -> 0 <= i < k -> exists e u, e ∈ E /\ e.2 = Some u /\ ik_stands X (sa i) u.
Proof.
  intros Hs Hi. destruct (Hs i Hi) as (u & Hu & Ht). apply list_elem_of_lookup_2, list_elem_of_fmap in Hu as (e & He & Hin).
  by exists e, u.
Qed.

Lemma covers_intro n f E nx s :
  E <> [] -> ik_wf X n f s -> seps_for (ik_knum X n) s E.*2 ->
  Control.f_deleted f = false -> Control.f_sibling f = bool_decide (is_Some (ub E)) ->
  ik_knum X n = Z.of_nat (length E) - (if Control.f_sibling f then 0 else 1) ->
  (forall (i : nat) a, E.*1 !! i = Some a -> ik_route X n (Z.of_nat i) = Some (Some a)) ->
  (Control.f_sibling f = true -> ik_route X n (ik_knum X n) = Some nx /\ is_Some nx) ->
  covers n f s E nx.
Proof.
  intros Hne Hwf Hs Hd Hsib Hk Hr Hn. split; try done.
  - intros Hf. destruct (Hn Hf) as [Hroute Hnx]. rewrite ik_last in Hroute. by injection Hroute.
  - intros j Hj. destruct (Hs j Hj) as (u & Hu & Ht). rewrite list_lookup_fmap in Hu.
    apply fmap_Some in Hu as (e & He & Eu). by exists e, u.
Qed.

(** the node to the right, in the memory [mem] *)
Record right_of (mem : Z -> option (ik_node X)) E nx (p2 : Z) rn g rsa F nx2 : Prop := {
  ro_next : nx = Some p2;
  ro_mem : mem p2 = Some rn;
  ro_covers : covers rn g rsa F nx2;
  ro_unlocked : Control.f_locked g = false;
  ro_ordered : ordered (ik_key X) (E ++ F);
}.

Lemma right_of_sibling mem n f sa E nx p2 rn g rsa F nx2 k s :
  covers n f sa E nx -> Control.f_sibling f = true -> right_of mem E nx p2 rn g rsa F nx2 ->
  (forall i, 0 <= i < k -> exists e u, e ∈ E /\ e.2 = Some u /\ ik_stands X (s i) u) ->
  right_sibling X mem n k s p2 rn g rsa.
Proof.
  intros Hc Hs [-> Hm Hcr Hl Ho] Hk. split; try done; [by apply (cv_next _ _ _ _ _ _ _ Hc)|apply Hcr|apply Hcr|].
  intros i j Hi Hj. destruct (Hk i Hi) as (e & u & He & Hu & Ht).
  destruct (seps_for_in _ _ _ j (covers_seps _ _ _ _ _ Hcr) Hj) as (e' & u' & He' & Hu' & Ht'). exists u, u'. do 2 (split; [done|]).
  apply ordered_app in Ho as (_ & _ & Hlt). specialize (Hlt e e' He He'). unfold entry_lt in Hlt. by rewrite Hu, Hu' in Hlt.
Qed.

(** ** The right neighbour of a child goes *)

Section merged_child.
Context (E1 E2 : level) (a s b : Z) (w : option Z).
Definition two_entries : level := E1 ++ (a, Some s) :: (b, w) :: E2.
Definition one_entry : level := E1 ++ (a, w) :: E2.

Lemma seps_one k sa : seps_for k sa two_entries.*2 -> seps_for (k - 1) (del sa (Z.of_nat (length E1))) one_entry.*2.
Proof.
  intros Hs j Hj. unfold two_entries, one_entry, del in *. rewrite !fmap_app, !fmap_cons in *. cbn [snd] in *.
  rewrite (lookup_skip E1.*2 (w :: E2.*2) (Some s)), length_fmap. destruct (Z.ltb_spec j (Z.of_nat (length E1))).
  - rewrite decide_True by lia. apply Hs. lia.
  - rewrite decide_False by lia. replace (S (Z.to_nat j)) with (Z.to_nat (j + 1)) by lia.
    apply Hs. lia.
Qed.

Lemma fst_one (i : nat) : one_entry.*1 !! i = if decide (i < S (length E1))%nat then two_entries.*1 !! i else two_entries.*1 !! S i.
Proof.
  unfold one_entry, two_entries. rewrite !fmap_app, !fmap_cons. cbn [fst].
  pose proof (lookup_skip (E1.*1 ++ [a]) E2.*1 b i) as H. rewrite <- !app_assoc in H. rewrite length_app, length_fmap in H.
  cbn in H. by rewrite Nat.add_1_r in H.
Qed.

Lemma length_one : length two_entries = S (length one_entry).
Proof. unfold one_entry, two_entries. rewrite !length_app. cbn. lia. Qed.

Lemma ub_one : ub one_entry = ub two_entries.
Proof.
  unfold one_entry, two_entries. rewrite !ub_app by done. destruct E2 as [|e E2']; [done|]. by rewrite !ub_cons by done.
Qed.

(** the routes, one less *)
Lemma one_routes n f sa nx (i : nat) x :
  covers n f sa two_entries nx -> one_entry.*1 !! i = Some x ->
  del (ik_route X n) (Z.of_nat (length E1) + 1) (Z.of_nat i) = Some (Some x).
Proof.
  intros Hc Hx. unfold del. rewrite fst_one in Hx. destruct (Z.ltb_spec (Z.of_nat i) (Z.of_nat (length E1) + 1)).
  - rewrite decide_True in Hx by lia. by apply (cv_routes _ _ _ _ _ _ _ Hc).
  - rewrite decide_False in Hx by lia. replace (Z.of_nat i + 1) with (Z.of_nat (S i)) by lia. by apply (cv_routes _ _ _ _ _ _ _ Hc).
Qed.
End merged_child.

(** ** Two nodes in one *)

Lemma seps_join k sa E k' rsa F :
  seps_for k sa E.*2 -> k = Z.of_nat (length E) -> seps_for k' rsa F.*2 -> seps_for (k + k') (join sa k rsa) (E ++ F).*2.
Proof.
  intros H1 Ek H2 j Hj. unfold join. rewrite fmap_app. destruct (Z.ltb_spec j k).
  - rewrite lookup_app_l by (rewrite length_fmap; lia). apply H1. lia.
  - rewrite lookup_app_r by (rewrite length_fmap; lia). rewrite length_fmap.
    replace (Z.to_nat j - length E)%nat with (Z.to_nat (j - k)) by lia. apply H2. lia.
Qed.

(** the separator of the last entry stands for the bound of the node *)
Lemma seps_last k sa E v : seps_for k sa E.*2 -> k = Z.of_nat (length E) -> ub E = Some v -> ik_stands X (sa (k - 1)) v.
Proof.
  intros Hs Ek Hv. destruct (last E) as [e|] eqn:El; [|by unfold ub in Hv; rewrite El in Hv].
  apply last_Some in El as [E' ->]. rewrite ub_snoc in Hv. rewrite length_app in Ek. cbn in Ek.
  destruct (Hs (k - 1)) as (u & Hu & Ht); [lia|]. rewrite fmap_app in Hu. cbn in Hu.
  rewrite list_lookup_middle in Hu by (rewrite length_fmap; lia). congruence.
Qed.

(** a node takes over the entries [F] of its sibling after its own, now [E] *)
Lemma covers_join n' f' E F nx2 rn g sa rsa (rt : Z -> option ptr) :
  covers rn g rsa F nx2 -> E <> [] -> seps_for (Z.of_nat (length E)) sa E.*2 ->
  ik_wf X n' f' (join sa (Z.of_nat (length E)) rsa) -> Control.f_deleted f' = false -> Control.f_sibling f' = Control.f_sibling g ->
  ik_knum X n' = Z.of_nat (length E) + ik_knum X rn ->
  (forall j, 0 <= j <= ik_knum X n' -> ik_route X n' j = join rt (Z.of_nat (length E)) (ik_route X rn) j) ->
  (forall (i : nat) x, E.*1 !! i = Some x -> rt (Z.of_nat i) = Some (Some x)) ->
  covers n' f' (join sa (Z.of_nat (length E)) rsa) (E ++ F) nx2.
Proof.
  intros Hcr HE Hsep Hwf Hd Hs Hk Hr HrE. pose proof (cv_knum _ _ _ _ _ _ _ Hcr) as Hkr. pose proof (cv_ne _ _ _ _ _ _ _ Hcr) as HF.
  apply covers_intro; try done.
  - by destruct E.
  - rewrite Hk. apply seps_join; [done|done|by eapply covers_seps].
  - rewrite Hs, ub_app by done. apply Hcr.
  - rewrite length_app, Hk, Hs. lia.
  - intros i x Hx. pose proof (lookup_lt_Some _ _ _ Hx) as Hi. rewrite length_fmap, length_app in Hi.
    rewrite Hr by (destruct (Control.f_sibling g); lia). rewrite fmap_app in Hx. unfold join.
    destruct (Z.ltb_spec (Z.of_nat i) (Z.of_nat (length E))).
    + rewrite lookup_app_l in Hx by (rewrite length_fmap; lia). by apply HrE.
    + rewrite lookup_app_r in Hx by (rewrite length_fmap; lia). rewrite length_fmap in Hx.
      replace (Z.of_nat i - Z.of_nat (length E)) with (Z.of_nat (i - length E)) by lia. by apply (cv_routes _ _ _ _ _ _ _ Hcr).
  - rewrite Hs. intros Hg. pose proof (ik_bounds rn g rsa (cv_wf _ _ _ _ _ _ _ Hcr)).
    rewrite Hr by lia. unfold join. bfalse (ik_knum X n' <? Z.of_nat (length E)).
    replace (ik_knum X n' - Z.of_nat (length E)) with (ik_knum X rn) by lia. split; [by eapply covers_last_route|].
    by apply (cv_next _ _ _ _ _ _ _ Hcr).
Qed.

(** what [remove] made of the node, of its sibling, and of the separator *)
Definition merge_done n f (r : removal) E F p2 nx2 g v : Prop :=
  rm_merged r = true /\ rm_up r = false /\ ik_stands X (rm_mid r) v /\ (exists rn', rm_rnode r = Some (p2, rn'))
  /\ exists sa', covers (rm_this r) (Control.with_sibling (Control.bump f) (Control.f_sibling g)) sa' (E ++ F) nx2.

Section inside.
Context (E1 E2 : level) (a s b : Z) (w : option Z) n f sa nx.
Abbreviation two := (two_entries E1 E2 a s b w).
Abbreviation one := (one_entry E1 E2 a w).
Context (Hc : covers n f sa two nx).

(** the separator is not the last one *)
Lemma remove_inside mem (p : Z) mid p2 rn g rsa F nx2 :
  E2 <> [] \/ Control.f_sibling f = true ->
  (Control.f_sibling f = true -> right_of mem two nx p2 rn g rsa F nx2) ->
  exists r, ik_remove X mem p n mid (Z.of_nat (length E1)) = Some r
    /\ ((rm_merged r = false /\ rm_up r = false /\ rm_rnode r = None /\ exists sa', covers (rm_this r) (Control.bump f) sa' one nx)
        \/ (Control.f_sibling f = true /\ exists v, ub two = Some v /\ merge_done n f r one F p2 nx2 g v)).
Proof.
  intros Hlast Hsib. pose proof (cv_knum _ _ _ _ _ _ _ Hc) as Hk. pose proof (length_one E1 E2 a s b w) as Hl.
  assert (0 <= Z.of_nat (length E1) < ik_knum X n - 1) as Hi.
  { unfold two_entries in Hk. rewrite length_app in Hk. cbn in Hk. destruct Hlast as [Hne|Hs]; [|rewrite Hs in Hk; lia].
    destruct E2; [done|]. cbn in Hk. destruct (Control.f_sibling f); lia. }
  pose proof (covers_seps _ _ _ _ _ Hc) as Hseps. pose proof (seps_one E1 E2 a s b w _ sa Hseps) as Hone.
  assert (one <> []) as Hne by (unfold one_entry; by destruct E1).
  destruct (ik_remove_inside mem p n f sa mid (Z.of_nat (length E1)) p2 rn g rsa) as (r & Hrun & Hup & Hr).
  - apply Hc.
  - done.
  - intros Hs. eapply right_of_sibling; [exact Hc|done|by apply Hsib|]. intros i Hi'. unfold del.
    destruct (i <? Z.of_nat (length E1)); apply (seps_for_in (ik_knum X n)); try done; lia.
  - exists r. split; [done|]. destruct Hr as [(Hmg & Hrn & Hwf & Hkr & Hrt)|(Hs & Hmg & Hmid & (rn' & Hrn) & Hwf & Hkr & Hrt)].
    + left. do 3 (split; [done|]). exists (del sa (Z.of_nat (length E1))). apply covers_intro; [done|exact Hwf| |apply Hc| | | |].
      * by rewrite Hkr.
      * rewrite (ub_one E1 E2 a s b w). apply Hc.
      * cbn [Control.f_sibling Control.bump Control.with_version]. lia.
      * intros i x Hx. pose proof (lookup_lt_Some _ _ _ Hx) as Hix. rewrite length_fmap in Hix.
        rewrite Hrt by (destruct (Control.f_sibling f); lia). by eapply one_routes.
      * cbn [Control.f_sibling Control.bump Control.with_version]. intros Hs. rewrite Hrt by lia. unfold del.
        bfalse (ik_knum X (rm_this r) <? Z.of_nat (length E1) + 1). replace (ik_knum X (rm_this r) + 1) with (ik_knum X n) by lia.
        split; [by eapply covers_last_route|]. by apply (cv_next _ _ _ _ _ _ _ Hc).
    + right. split; [done|]. destruct (Hsib Hs) as [_ _ Hcr _ _]. pose proof (cv_sib _ _ _ _ _ _ _ Hc) as Hub. rewrite Hs in Hub. symmetry in Hub.
      apply bool_decide_eq_true in Hub as [v Hub]. exists v. split; [done|]. rewrite Hs in Hk.
      assert (ik_knum X n - 1 = Z.of_nat (length one)) as Eone by lia.
      split; [done|]. split; [done|]. split; [|split; [by exists rn'|]].
      * rewrite Hmid. apply (seps_last _ _ one); [done|done|]. by rewrite (ub_one E1 E2 a s b w).
      * rewrite Eone in *. eexists. eapply (covers_join _ _ one F nx2 rn g); [done|done|done|exact Hwf|apply Hc|done|done|done|].
        intros i x Hx. by eapply one_routes.
Qed.
End inside.

(** the last separator of the rightmost node *)
Lemma remove_rightmost mem p mid E1 a s b w n f sa nx :
  covers n f sa (two_entries E1 [] a s b w) nx -> Control.f_sibling f = false ->
  exists r, ik_remove X mem p n mid (Z.of_nat (length E1)) = Some r
    /\ rm_merged r = false /\ rm_up r = false /\ rm_rnode r = None
    /\ exists sa', covers (rm_this r) (Control.bump f) sa' (one_entry E1 [] a w) nx.
Proof.
  intros Hc Hs. pose proof (cv_knum _ _ _ _ _ _ _ Hc) as Hk. rewrite (length_one E1 [] a s b w), Hs in Hk.
  unfold one_entry in Hk. rewrite length_app in Hk. cbn in Hk.
  destruct (ik_remove_last mem p n f sa mid (Z.of_nat (length E1)) p n f sa) as (r & Hrun & Hr).
  - apply Hc.
  - lia.
  - lia.
  - by rewrite Hs.
  - destruct Hr as [(_ & Hmg & Hup & Hrn & Hwf & Hkr & Hrt)|[(Hs' & _)|(Hs' & _)]]; [|congruence..].
    exists r. do 4 (split; [done|]). exists sa. apply covers_intro; [|exact Hwf| |apply Hc| | | |].
    + unfold one_entry. by destruct E1.
    + rewrite Hkr. intros j Hj. destruct (covers_seps _ _ _ _ _ Hc j) as (u & Hu & Ht); [lia|]. exists u. split; [|done].
      unfold two_entries, one_entry in *. rewrite fmap_app in Hu |- *. by rewrite lookup_app_l in Hu |- * by (rewrite length_fmap; lia).
    + rewrite (ub_one E1 [] a s b w). apply Hc.
    + cbn [Control.f_sibling Control.bump Control.with_version]. rewrite Hs. unfold one_entry. rewrite length_app. cbn. lia.
    + intros i x Hx. pose proof (lookup_lt_Some _ _ _ Hx) as Hix. unfold one_entry in Hix. rewrite length_fmap, length_app in Hix. cbn in Hix.
      rewrite Hrt by lia. rewrite (fst_one E1 [] a s b w) in Hx. rewrite decide_True in Hx by lia. by apply (cv_routes _ _ _ _ _ _ _ Hc).
    + cbn [Control.f_sibling Control.bump Control.with_version]. by rewrite Hs.
Qed.

(** the last separator of a node that has a sibling *)
Section last.
Context (mem : Z -> option (ik_node X)) (p : Z) (E1 F2 : level) (a s b : Z) (w : option Z) n f sa nx (p2 : Z) rn g rsa nx2.
Abbreviation E := (E1 ++ [(a, Some s)]).
Abbreviation F := ((b, w) :: F2).
Abbreviation F' := ((a, w) :: F2).
Context (Hc : covers n f sa E nx) (Hs : Control.f_sibling f = true) (Hr : right_of mem E nx p2 rn g rsa F nx2)
  (Hlone : 1 <= Z.of_nat (length E1) + ik_knum X rn).

Lemma last_length : ik_knum X n = Z.of_nat (length E1) + 1.
Proof. pose proof (cv_knum _ _ _ _ _ _ _ Hc) as Hk. rewrite Hs, length_app in Hk. cbn in Hk. lia. Qed.

Lemma seps_before : seps_for (Z.of_nat (length E1)) sa E1.*2.
Proof.
  pose proof last_length as Hk. intros j Hj. destruct (covers_seps _ _ _ _ _ Hc j) as (u & Hu & Ht); [lia|]. exists u. split; [|done].
  rewrite fmap_app in Hu. by rewrite lookup_app_l in Hu by (rewrite length_fmap; lia).
Qed.

Lemma seps_behind : seps_for (ik_knum X rn) rsa F'.*2.
Proof. exact (covers_seps _ _ _ _ _ (ro_covers _ _ _ _ _ _ _ _ _ Hr)). Qed.

(** the sibling, less its first child, taken in *)
Lemma last_merged n' :
  ik_wf X n' (Control.with_sibling (Control.bump f) (Control.f_sibling g)) (join sa (Z.of_nat (length E1)) rsa) ->
  ik_knum X n' = Z.of_nat (length E1) + ik_knum X rn ->
  (forall j, 0 <= j <= ik_knum X n' ->
     ik_route X n' j = join (ik_route X n) (Z.of_nat (length E1) + 1) (fun i => ik_route X rn (i + 1)) j) ->
  covers n' (Control.with_sibling (Control.bump f) (Control.f_sibling g)) (join sa (Z.of_nat (length E1)) rsa) (E1 ++ F') nx2.
Proof.
  intros Hwf Hkn Hrt. pose proof Hr as [_ _ Hcr _ _]. pose proof last_length as Hk. pose proof (cv_knum _ _ _ _ _ _ _ Hcr) as Hkr. cbn in Hkr.
  apply covers_intro; [|exact Hwf| |apply Hc| | | |]; cbn [Control.f_sibling Control.with_sibling].
  - by destruct E1.
  - rewrite Hkn. apply seps_join; [apply seps_before|done|apply seps_behind].
  - rewrite ub_app by done. rewrite (ub_first a b). apply Hcr.
  - rewrite length_app. cbn. lia.
  - intros i x Hx. pose proof (lookup_lt_Some _ _ _ Hx) as Hix. rewrite length_fmap, length_app in Hix. cbn in Hix.
    rewrite Hrt by (destruct (Control.f_sibling g); lia). unfold join. rewrite fmap_app in Hx. cbn [fmap list_fmap fst] in Hx.
    destruct (Z.ltb_spec (Z.of_nat i) (Z.of_nat (length E1) + 1)).
    + apply (cv_routes _ _ _ _ _ _ _ Hc). rewrite fmap_app. cbn [fmap list_fmap fst]. destruct (decide (i = length E1)) as [->|].
      * rewrite list_lookup_middle in Hx |- * by by rewrite length_fmap. done.
      * rewrite lookup_app_l in Hx |- * by (rewrite length_fmap; lia). done.
    + rewrite lookup_app_r, length_fmap in Hx by (rewrite length_fmap; lia).
      destruct (i - length E1)%nat as [|k] eqn:Ek; [lia|]. cbn in Hx.
      replace (Z.of_nat i - (Z.of_nat (length E1) + 1) + 1) with (Z.of_nat (S k)) by lia. by apply (cv_routes _ _ _ _ _ _ _ Hcr).
  - intros Hg. rewrite Hg in Hkr. rewrite Hrt by lia. unfold join.
    bfalse (ik_knum X n' <? Z.of_nat (length E1) + 1).
    replace (ik_knum X n' - (Z.of_nat (length E1) + 1) + 1) with (ik_knum X rn) by lia.
    split; [by eapply covers_last_route|]. by apply (cv_next _ _ _ _ _ _ _ Hcr).
Qed.

(** the node without its last child, and the sibling that got it *)
Lemma last_shortened n' :
  E1 <> [] -> is_Some (ub E1) -> ik_wf X n' (Control.bump f) sa -> ik_knum X n' = Z.of_nat (length E1) ->
  (forall j, 0 <= j < Z.of_nat (length E1) -> ik_route X n' j = ik_route X n j) -> ik_next X n' = ik_next X n ->
  covers n' (Control.bump f) sa E1 nx.
Proof.
  intros HE1 Hub Hwf Hkn Hrt Hnn.
  apply covers_intro; [done|exact Hwf| |apply Hc| | | |]; cbn [Control.f_sibling Control.bump Control.with_version].
  - rewrite Hkn. apply seps_before.
  - by rewrite Hs, bool_decide_true.
  - rewrite Hs. lia.
  - intros i x Hx. pose proof (lookup_lt_Some _ _ _ Hx) as Hix. rewrite length_fmap in Hix. rewrite Hrt by lia.
    apply (cv_routes _ _ _ _ _ _ _ Hc). rewrite fmap_app. by apply lookup_app_l_Some.
  - intros _. rewrite ik_last, Hnn. split; [f_equal|]; by apply (cv_next _ _ _ _ _ _ _ Hc).
Qed.

Lemma last_shifted rn' :
  ik_wf X rn' (Control.bump g) rsa -> ik_knum X rn' = ik_knum X rn ->
  (forall j, 0 <= j <= ik_knum X rn -> ik_route X rn' j = upd (ik_route X rn) 0 (ik_route X n (Z.of_nat (length E1))) j) ->
  1 <= ik_knum X rn -> covers rn' (Control.bump g) rsa F' nx2.
Proof.
  intros Hwfr Hkrn Hrtr Hpos. pose proof Hr as [_ _ Hcr _ _]. pose proof (cv_knum _ _ _ _ _ _ _ Hcr) as Hkr. cbn in Hkr.
  apply covers_intro; [done|exact Hwfr| |apply Hcr| | | |]; cbn [Control.f_sibling Control.bump Control.with_version].
  - rewrite Hkrn. apply seps_behind.
  - rewrite (ub_first a b). apply Hcr.
  - cbn [length]. lia.
  - intros i x Hx. pose proof (lookup_lt_Some _ _ _ Hx) as Hix. cbn [length fmap list_fmap] in Hix. rewrite length_fmap in Hix.
    rewrite Hrtr by (destruct (Control.f_sibling g); lia). unfold upd. destruct i as [|i].
    + cbn in Hx. injection Hx as <-. cbn [Z.eqb Z.of_nat]. apply (cv_routes _ _ _ _ _ _ _ Hc).
      rewrite fmap_app. apply list_lookup_middle. by rewrite length_fmap.
    + bfalse (Z.of_nat (S i) =? 0). by apply (cv_routes _ _ _ _ _ _ _ Hcr).
  - intros Hg. rewrite Hkrn, Hrtr by lia. unfold upd.
    bfalse (ik_knum X rn =? 0). split; [by eapply covers_last_route|]. by apply (cv_next _ _ _ _ _ _ _ Hcr).
Qed.

Lemma bound_before : E1 <> [] -> exists v, ub E1 = Some v /\ v < s.
Proof.
  intros HE1. destruct Hr as [_ _ _ _ Ho]. pose proof (proj1 (proj1 (ordered_app (ik_key X) E F) Ho)) as [Hsort _].
  destruct (last E1) as [x|] eqn:El; [|by apply last_None in El]. apply last_Some in El as [E0 El].
  rewrite El, <- app_assoc in Hsort. apply StronglySorted_app in Hsort as (_ & _ & Hsort).
  apply StronglySorted_inv in Hsort as [_ Hx]. rewrite Forall_singleton in Hx. unfold entry_lt in Hx. cbn in Hx.
  cbv beta in Hx. destruct x as [q [v|]]; [|done]. exists v. rewrite El, ub_snoc. done.
Qed.

Lemma remove_last mid :
  exists r, ik_remove X mem p n mid (Z.of_nat (length E1)) = Some r
    /\ ((rm_merged r = true /\ rm_up r = false /\ rm_mid r = mid /\ (exists rn', rm_rnode r = Some (p2, rn'))
          /\ exists sa', covers (rm_this r) (Control.with_sibling (Control.bump f) (Control.f_sibling g)) sa' (E1 ++ F') nx2)
        \/ (rm_merged r = false /\ rm_up r = true /\ (exists v, ub E1 = Some v /\ v < s /\ ik_stands X (rm_mid r) v)
          /\ (exists sa', covers (rm_this r) (Control.bump f) sa' E1 nx)
          /\ exists rn', rm_rnode r = Some (p2, rn') /\ exists rsa', covers rn' (Control.bump g) rsa' F' nx2)).
Proof.
  pose proof last_length as Hk.
  destruct (ik_remove_last mem p n f sa mid (Z.of_nat (length E1)) p2 rn g rsa) as (r & Hrun & Hres).
  - apply Hc.
  - lia.
  - lia.
  - intros _. split; [|done]. eapply right_of_sibling; [exact Hc|done|done|].
    intros i Hi. apply (seps_for_in (ik_knum X n)); [by eapply covers_seps|lia].
  - exists r. split; [done|]. destruct Hres as [(Hs' & _)|[(_ & Hmg & Hup & Hmid & Hrn & Hwf & Hkn & Hrt)|
      (_ & Hpos & Hrpos & Hmg & Hup & Hmid & Hwf & Hkn & Hrt & Hnn & rn' & Hrn & Hwfr & Hkrn & Hrtr)]]; [congruence|left|right].
    + do 4 (split; [done|]). eexists. by apply last_merged.
    + do 2 (split; [done|]). assert (E1 <> []) as HE1 by (intros E0; rewrite E0 in Hpos; cbn in Hpos; lia).
      destruct (bound_before HE1) as (v & Hv & Hvs). split; [|split].
      * exists v. do 2 (split; [done|]). rewrite Hmid. by apply (seps_last _ _ E1 v seps_before).
      * exists sa. by apply last_shortened.
      * exists rn'. split; [done|]. exists rsa. by apply last_shifted.
Qed.
End last.

(** a new bound for a child *)
Lemma update_covers E1 E2 a s s' mid n f sa nx :
  covers n f sa (E1 ++ (a, Some s) :: E2) nx -> ordered (ik_key X) (E1 ++ (a, Some s') :: E2) -> ik_stands X mid s' ->
  exists n', ik_update X n mid (Z.of_nat (length E1)) = Some (n', bool_decide (E2 = []))
    /\ exists sa', covers n' (Control.bump f) sa' (E1 ++ (a, Some s') :: E2) nx.
Proof.
  intros Hc Ho' Hmid. pose proof (cv_knum _ _ _ _ _ _ _ Hc) as Hk. rewrite length_app in Hk. cbn in Hk.
  pose proof (cv_sib _ _ _ _ _ _ _ Hc) as Hsib.
  assert (E2 = [] -> Control.f_sibling f = true) as Hlast by (intros ->; rewrite Hsib, ub_snoc; done).
  assert (Z.of_nat (length E1) < ik_knum X n) as Hi.
  { destruct E2 as [|e E2]; [rewrite Hlast in Hk by done; lia|]. cbn in Hk. destruct (Control.f_sibling f); lia. }
  assert (forall j, 0 <= j < ik_knum X n -> j <> Z.of_nat (length E1) ->
    exists e u, (E1 ++ (a, Some s') :: E2) !! Z.to_nat j = Some e /\ e.2 = Some u /\ ik_stands X (sa j) u) as Hsep.
  { intros j Hj Hne. destruct (cv_sep _ _ _ _ _ _ _ Hc j Hj) as (e & u & He & H). exists e, u. split; [|done].
    by rewrite (lookup_replace E1 E2 (a, Some s)), decide_False by lia. }
  pose proof Ho' as Hok. apply ordered_app in Hok as (_ & Hok & Hcross). apply ordered_cons in Hok as (_ & _ & Hafter).
  destruct (ik_update_ok n f sa mid (Z.of_nat (length E1))) as (n' & Hrun & Hwf & Hkn & Hrt).
  - apply Hc.
  - lia.
  - by exists s'.
  - intros j Hj. destruct (Hsep j) as (e & u & He & Hu & Ht); [lia|lia|]. exists u, s'. do 2 (split; [done|]).
    rewrite lookup_app_l in He by lia. apply list_elem_of_lookup_2 in He. pose proof (Hcross e (a, Some s') He ltac:(by left)) as Hlt.
    unfold entry_lt in Hlt. by rewrite Hu in Hlt.
  - intros j Hj. destruct (Hsep j) as (e & u & He & Hu & Ht); [lia|lia|]. exists s', u. do 2 (split; [done|]).
    rewrite lookup_app_r in He by lia. destruct (Z.to_nat j - length E1)%nat as [|i] eqn:Ei; [lia|]. cbn in He.
    apply list_elem_of_lookup_2 in He. pose proof (Hafter e He) as Hlt. unfold entry_lt in Hlt. by rewrite Hu in Hlt.
  - exists n'. split.
    { rewrite Hrun. do 2 f_equal. destruct (bool_decide_reflect (E2 = [])) as [HE|HE].
      - rewrite (Hlast HE) in Hk |- *. rewrite HE in Hk. cbn in Hk. cbn [andb]. blia.
      - destruct E2 as [|e E2]; [done|]. cbn in Hk. destruct (Control.f_sibling f); [|done]. cbn [andb]. blia. }
    exists (upd sa (Z.of_nat (length E1)) mid).
    apply covers_intro; [by destruct E1|exact Hwf| |apply Hc| | | |]; cbn [Control.f_sibling Control.bump Control.with_version].
    + rewrite Hkn. intros j Hj. unfold upd. destruct (Z.eqb_spec j (Z.of_nat (length E1))) as [->|Hne].
      * exists s'. split; [|done]. rewrite fmap_app. cbn. apply list_lookup_middle. rewrite length_fmap. lia.
      * destruct (Hsep j Hj Hne) as (e & u & He & Hu & Ht). exists u. split; [|done]. by rewrite list_lookup_fmap, He, <- Hu.
    + rewrite Hsib, !ub_app by done. destruct E2 as [|e E2]; [done|]. by rewrite !ub_cons by done.
    + rewrite length_app. cbn. lia.
    + intros i x Hx. pose proof (lookup_lt_Some _ _ _ Hx) as Hix. rewrite length_fmap, length_app in Hix. cbn in Hix.
      rewrite Hrt by (destruct (Control.f_sibling f); lia). apply (cv_routes _ _ _ _ _ _ _ Hc). by rewrite fmap_app in Hx |- *.
    + intros Hf. rewrite Hkn, Hrt by lia. split; [by eapply covers_last_route|]. by apply (cv_next _ _ _ _ _ _ _ Hc).
Qed.
End remove.

(** ** In a heap *)

Section heap.
Context {N : Type} (X : ikind) `{HX : !IkindOk X} (inj : ik_node X -> N) (grown : bool).
Implicit Types (h : gmap Z N).

(** at [p] of [h] is an inner node that links to [E], with its latch free *)
Definition inner_at h (p : Z) (E : level) (nx : ptr) : Prop :=
  exists n f sa, h !! p = Some (inj n) /\ covers X grown n f sa E nx /\ Control.f_locked f = false.

#[export] Instance inner_at_linked : Linked inner_at.
Proof.
  split.
  - intros h p E nx (n & f & sa & Hh & _). by eexists.
  - intros h p E nx (n & f & sa & _ & Hc & _). by apply (cv_ne _ _ _ _ _ _ _ Hc).
  - intros h h' p E nx Eh (n & f & sa & Hh & ?). exists n, f, sa. by rewrite Eh.
Qed.

Lemma covers_links n f sa E nx :
  covers X grown n f sa E nx -> Control.f_locked f = false -> links inner_at (inj n) E nx.
Proof. intros Hc Hl h p Hp. by exists n, f, sa. Qed.

Context (word : N -> Z) (with_word : N -> Z -> N) (Hword : forall n, word (inj n) = ik_word X n)
  (Hwith : forall n w, with_word (inj n) w = inj (ik_with X n w)).

Lemma covers_node h p n f sa E nx : h !! p = Some (inj n) -> covers X grown n f sa E nx -> word_is word h p (inj n) f.
Proof. intros Hh Hc. destruct (ik_reads n f sa (cv_wf _ _ _ _ _ _ _ Hc)) as (? & ? & _). split; [done|]. by rewrite Hword. Qed.

(** the node of a latched word, and what it is once the latch is given back *)
Lemma covers_latched n f sa E nx :
  covers X grown n f sa E nx -> Control.f_locked f = true ->
  let n' := ik_with X n (Control.encode (Control.with_locked f false)) in
  latched_word word with_word (inj n) (inj n') /\ links inner_at (inj n') E nx.
Proof.
  intros Hc Hl n'. split.
  - exists f. destruct (ik_reads n f sa (cv_wf _ _ _ _ _ _ _ Hc)) as (? & ? & _). rewrite Hword, Hwith. done.
  - eapply covers_links; [by apply covers_lock|done].
Qed.
End heap.

(** the nodes of a tree that nothing was removed from are wide *)
Lemma inner_at_wide {N} (X : ikind) (inj : ik_node X -> N) h p E nx :
  inner_at X inj true h p E nx -> (2 <= length E)%nat /\ (is_Some (ub E) -> (32 <= length E)%nat).
Proof. intros (n & f & sa & _ & Hc & _). by apply (cv_filled _ _ _ _ _ _ _ Hc). Qed.

(** to have nodes removed they need not stay wide *)
Lemma inner_at_weaken {N} (X : ikind) (inj : ik_node X -> N) grown h p E nx :
  inner_at X inj grown h p E nx -> inner_at X inj false h p E nx.
Proof. intros (n & f & sa & Hh & [] & Hl). exists n, f, sa. split; [done|]. by split. Qed.
