(* ===== verification/Shrink.v ===== *)
(** * How a tree of levels shrinks

    A node that was merged away has to leave the level above, and a node whose last child
    went to its sibling has a new bound there; the node above may be merged, or have a
    new bound, in its turn, up to a root that is left with one child and gives way to it.
    This file follows that through the levels, for inner nodes of any kind ([ikind]) and
    any program that takes the turns ([Contraction]): FB+-tree has one for integer keys
    and another for string keys. *)

From S2P Require Import Prelude Control Moves Levels Growth Words Cover.

(** ** What a level asks the one above for *)

Section change.
Context (X : ikind) `{HX : !IkindOk X}.

(** the entry after [a] goes, or [a] has a new bound *)
Inductive change (a s : Z) : level -> level -> ptr -> bool -> ik_sep X -> Prop :=
  | change_merge b w mid : ik_stands X mid s -> change a s [(a, Some s); (b, w)] [(a, w)] (Some b) false mid
  | change_bound s' mid : ik_stands X mid s' -> s' < s -> change a s [(a, Some s)] [(a, Some s')] None true mid.

Lemma change_split a s Bl Dl merged up mid :
  change a s Bl Dl merged up mid -> exists Bl', Bl = (a, Some s) :: Bl' /\ exists w Dl', Dl = (a, w) :: Dl'.
Proof. intros []; eauto. Qed.

Lemma change_asks a s Bl Dl merged up mid :
  change a s Bl Dl merged up mid -> bool_decide (merged = None) && negb up = false.
Proof. by intros []. Qed.

(** the separator that is looked for is in the node of [a] *)
Lemma change_located a s Bl Dl merged up mid E1 R :
  change a s Bl Dl merged up mid -> ordered (ik_key X) (E1 ++ Bl ++ R) -> ordered (ik_key X) (E1 ++ Dl ++ R) ->
  exists key, ik_stands X mid key /\ located E1 (a, Some s) key.
Proof.
  assert (forall key B, ordered (ik_key X) (E1 ++ (a, Some key) :: B) -> Forall (below key) E1) as Hbelow.
  { intros key B Ho. apply ordered_app in Ho as (_ & _ & Hcross).
    apply Forall_forall. intros e He. apply (Hcross e (a, Some key) He). by left. }
  intros [b w mid' Hm|s' mid' Hm Hlt] Ho Ho'.
  - exists s. split; [done|]. split; [by apply (Hbelow s _ Ho)|]. unfold below. cbn. lia.
  - exists s'. split; [done|]. split; [by apply (Hbelow s' _ Ho')|]. unfold below. cbn. lia.
Qed.
End change.

(** ** One node of the level above *)

(** the node and its sibling do not have one child each, and no other node to their right *)
Definition not_lone (E1 E2 : level) (G2 : list group) : Prop :=
  forall p2 b G2', E1 = [] -> E2 = [] -> G2 <> (p2, [(b, None)]) :: G2'.

(** no two neighbours have one child each, the second without a bound *)
Definition no_lone_pair (G : list group) : Prop :=
  forall G1 p x p2 b G2, G <> G1 ++ (p, [x]) :: (p2, [(b, None)]) :: G2.

Section turn.
Context {N : Type} (X : ikind) `{HX : !IkindOk X} (inj : ik_node X -> N) (proj : N -> option (ik_node X))
  (Hproj : forall n, proj (inj n) = Some n).
Implicit Types (h : gmap Z N) (n : ik_node X) (E : level) (G : list group) (mid : ik_sep X).
Abbreviation covers := (covers X false).
Abbreviation inner_at := (inner_at X inj false).
Abbreviation right_of := (right_of X).
Abbreviation change := (change X).

Definition inner_node h a : option (ik_node X) := let* nd := h !! a in proj nd.

(** the inner node gives up the separator of a merged node, or has it replaced: the
    heap, [merged], [up] and [mid] *)
Definition shrink_node h work (merged : ptr) mid (index : Z) : option (gmap Z N * ptr * bool * ik_sep X) :=
  let* n := inner_node h work in
  match merged with
  | Some _ =>
      let* r := ik_remove X (inner_node h) work n mid index in
      let h := <[work := inj (rm_this r)]> h in
      let h := match rm_rnode r with Some (ra, rn) => <[ra := inj rn]> h | None => h end in
      let merged := if rm_merged r then fst <$> rm_rnode r else None in
      Some (h, merged, rm_up r, rm_mid r)
  | None =>
      let* (n, up) := ik_update X n mid index in
      Some (<[work := inj n]> h, None, up, mid)
  end.

Lemma inner_node_at h p n : h !! p = Some (inj n) -> inner_node h p = Some n.
Proof. intros Hp. unfold inner_node. by rewrite Hp, bind_Some. Qed.

(** the groups [(p, E) :: G2] are now [(p, E') :: D ++ G2'], and [merged], [up], [mid] say
    what the level above is to do *)
Record turn h p E G2 (g : Control.fields) (low : level) h' n' g' sa' E' D G2' (merged : ptr) (up : bool) mid : Prop := {
  tu_old : exists B, (p, E) :: G2 = B ++ G2' /\ (forall x, x ∉ B.*1 -> h' !! x = h !! x)
    /\ B.*1 ≡ₚ (p :: D.*1) ++ option_list merged
    /\ ((merged = None /\ up = false /\ ents B = ents ((p, E') :: D))
        \/ exists v R Bl Dl, ents B = Bl ++ R /\ ents ((p, E') :: D) = Dl ++ R /\ change p v Bl Dl merged up mid);
  tu_new : E' ++ subs D ++ subs G2' = low;
  tu_node : h' !! p = Some (inj n');
  tu_covers : covers n' g' sa' E' (first (D ++ G2'));
  tu_locked : Control.f_locked g' = Control.f_locked g;
  tu_others D1 q F D2 : D = D1 ++ (q, F) :: D2 -> inner_at h' q F (first (D2 ++ G2'));
}.

Lemma turn_stay h p E G2 g n' sa' E' mid :
  covers n' (Control.bump g) sa' E' (first G2) -> ub E' = ub E ->
  turn h p E G2 g (E' ++ subs G2) (<[p := inj n']> h) n' (Control.bump g) sa' E' [] G2 None false mid.
Proof.
  intros Hc Hub. split; try done.
  - exists [(p, E)]. split; [done|]. split; [|split; [done|]].
    + intros x Hx%not_elem_of_cons. apply lookup_insert_ne. naive_solver.
    + left. split; [done|]. split; [done|]. by rewrite !ents_cons, Hub.
  - by rewrite lookup_insert_eq.
  - intros D1 q F D2 ED. by destruct D1.
Qed.

Lemma turn_bound h p E G2 g n' sa' E' s s' mid :
  covers n' (Control.bump g) sa' E' (first G2) -> ub E = Some s -> ub E' = Some s' -> ik_stands X mid s' -> s' < s ->
  turn h p E G2 g (E' ++ subs G2) (<[p := inj n']> h) n' (Control.bump g) sa' E' [] G2 None true mid.
Proof.
  intros Hc Hub Hub' Hin Hlt. split; try done.
  - exists [(p, E)]. split; [done|]. split; [|split; [done|]].
    + intros x Hx%not_elem_of_cons. apply lookup_insert_ne. naive_solver.
    + right. exists s, [], [(p, Some s)], [(p, Some s')]. rewrite !ents_cons, Hub, Hub'. split; [done|]. split; [done|]. by apply change_bound.
  - by rewrite lookup_insert_eq.
  - intros D1 q F D2 ED. by destruct D1.
Qed.

Lemma turn_merge h p E p2 F G2 g rg n' sa' rn' E' v mid :
  covers n' (Control.with_sibling (Control.bump g) (Control.f_sibling rg)) sa' E' (first G2) ->
  p <> p2 -> ub E = Some v -> ub E' = ub F -> ik_stands X mid v ->
  turn h p E ((p2, F) :: G2) g (E' ++ subs G2) (<[p2 := inj rn']> (<[p := inj n']> h)) n'
    (Control.with_sibling (Control.bump g) (Control.f_sibling rg)) sa' E' [] G2 (Some p2) false mid.
Proof.
  intros Hc Hne Hub Hub' Hm. split; try done.
  - exists [(p, E); (p2, F)]. split; [done|]. split; [|split; [done|]].
    + intros x Hx. rewrite !lookup_insert_ne; [done|set_solver..].
    + right. exists v, [], [(p, Some v); (p2, ub F)], [(p, ub F)]. rewrite !ents_cons, Hub, Hub'. split; [done|]. split; [done|]. by apply change_merge.
  - by rewrite lookup_insert_ne, lookup_insert_eq by done.
  - intros D1 q F' D2 ED. by destruct D1.
Qed.

Lemma turn_apart h p E p2 F F' G2 g n' sa' rn' rsa' rg E' s v mid :
  covers n' (Control.bump g) sa' E' (Some p2) -> covers rn' (Control.bump rg) rsa' F' (first G2) ->
  Control.f_locked rg = false -> p <> p2 -> ub E = Some s -> ub E' = Some v -> ub F' = ub F -> ik_stands X mid v -> v < s ->
  turn h p E ((p2, F) :: G2) g (E' ++ F' ++ subs G2) (<[p2 := inj rn']> (<[p := inj n']> h)) n'
    (Control.bump g) sa' E' [(p2, F')] G2 None true mid.
Proof.
  intros Hc Hcr Hl Hne Hub Hub' HubF Hin Hlt. split; try done.
  - exists [(p, E); (p2, F)]. split; [done|]. split; [|split; [done|]].
    + intros x Hx. rewrite !lookup_insert_ne; [done|set_solver..].
    + right. exists s, [(p2, ub F)], [(p, Some s)], [(p, Some v)]. rewrite !ents_cons, Hub, Hub', HubF.
      split; [done|]. split; [done|]. by apply change_bound.
  - cbn. by rewrite app_nil_r.
  - by rewrite lookup_insert_ne, lookup_insert_eq by done.
  - intros D1 q F1 D2 ED. destruct D1 as [|? D1]; [|by destruct D1]. injection ED as <- <- <-.
    exists rn', (Control.bump rg), rsa'. by rewrite lookup_insert_eq.
Qed.

Section one_turn.
Context h (p : Z) n (g : Control.fields) (sa : Z -> ik_sep X) (E1 E2 : level) G2 (a s : Z).
Abbreviation E := (E1 ++ (a, Some s) :: E2).
Context (Hp : h !! p = Some (inj n)) (Hc : covers n g sa E (first G2)) (Hi : inners inner_at h G2)
  (Hnd : NoDup (p :: G2.*1)) (Ho : ordered (ik_key X) (E ++ subs G2)).

Lemma right_neighbour :
  Control.f_sibling g = true ->
  exists p2 F G2' rn rg rsa, G2 = (p2, F) :: G2' /\ p <> p2 /\ F <> []
    /\ right_of (inner_node h) E (first G2) p2 rn rg rsa F (first G2').
Proof.
  intros Hs. destruct (cv_next _ _ _ _ _ _ _ Hc Hs) as [_ [p2 Hp2]]. destruct G2 as [|[q F] G2']; [done|].
  destruct (Hi [] q F G2' eq_refl) as (rn & rg & rsa & Hq & Hcr & Hl). exists q, F, G2', rn, rg, rsa.
  split; [done|]. split; [|split; [apply Hcr|]].
  - intros ->. apply NoDup_cons in Hnd as [Hnd _]. apply Hnd. by left.
  - split; try done.
    + by apply inner_node_at.
    + rewrite subs_cons, app_assoc in Ho. by apply ordered_app in Ho as [Ho _].
Qed.

(** [b] is the first child of the sibling *)
Lemma merge_first b w C2 mid0 :
  E2 = [] -> not_lone E1 E2 G2 -> subs G2 = (b, w) :: C2 -> ik_stands X mid0 s ->
  exists h' n' g' sa' E' D G2' merged up mid,
    shrink_node h p (Some b) mid0 (Z.of_nat (length E1)) = Some (h', merged, up, mid)
    /\ turn h p E G2 g (E1 ++ (a, w) :: C2) h' n' g' sa' E' D G2' merged up mid.
Proof.
  intros HE2 Hlone EG2 Hm0. unfold shrink_node. rewrite (inner_node_at h p n Hp), bind_Some.
  assert (Control.f_sibling g = true) as Hs by (rewrite (cv_sib _ _ _ _ _ _ _ Hc), HE2, ub_snoc; done).
  destruct (right_neighbour Hs) as (p2 & F & G2' & rn & rg & rsa & EG & Hne & HF & Hro).
  rewrite EG, subs_cons in EG2. destruct F as [|[b' w'] F2]; [done|]. injection EG2 as -> -> EC2.
  pose proof (ro_covers _ _ _ _ _ _ _ _ _ _ Hro) as Hcr. pose proof Hc as Hc'. pose proof Hro as Hro'. rewrite HE2 in Hc', Hro'.
  destruct (remove_last X (inner_node h) p E1 F2 a s b w n g sa _ p2 rn rg rsa _ Hc' Hs Hro') with (mid := mid0) as (r & -> & Hr).
  { pose proof (cv_knum _ _ _ _ _ _ _ Hcr) as Hk. cbn in Hk. pose proof (cv_sib _ _ _ _ _ _ _ Hcr) as Hsr.
    pose proof (ik_bounds rn rg rsa (cv_wf _ _ _ _ _ _ _ Hcr)).
    destruct E1 as [|? ?]; [|cbn; lia]. destruct F2; [|cbn in *; destruct (Control.f_sibling rg); lia].
    destruct w as [w|]; [|by destruct (Hlone p2 b G2')]. cbn in Hsr. rewrite Hsr in Hk. cbn in *. lia. }
  rewrite bind_Some, HE2, EG.
  destruct Hr as [(-> & -> & -> & (rn' & ->) & sa' & Hcov)|(-> & -> & (v & Hv & Hvs & Hin) & (sa' & Hcov) & rn' & -> & rsa' & Hcovr)].
  - eexists _, _, _, sa', _, [], G2', _, _, _. split; [done|]. cbn [fst fmap option_fmap option_map].
    replace (E1 ++ (a, w) :: C2) with ((E1 ++ (a, w) :: F2) ++ subs G2') by (rewrite <- app_assoc; cbn; by rewrite EC2).
    apply (turn_merge h p _ p2) with (v := s); [exact Hcov|done|by rewrite ub_snoc| |done].
    rewrite ub_app by done. apply ub_first.
  - eexists _, _, _, sa', _, _, G2', _, _, _. split; [done|].
    replace (E1 ++ (a, w) :: C2) with (E1 ++ ((a, w) :: F2) ++ subs G2') by (cbn; by rewrite EC2).
    rewrite EG in Hcov. apply (turn_apart h p _ p2 ((b, w) :: F2) _ G2' g _ sa' _ rsa' rg E1 s v); try done;
      [apply Hro|by rewrite ub_snoc|apply ub_first].
Qed.

(** [b] is beside [a] in the node *)
Lemma merge_beside b w E2' mid0 :
  E2 = (b, w) :: E2' ->
  exists h' n' g' sa' E' D G2' merged up mid,
    shrink_node h p (Some b) mid0 (Z.of_nat (length E1)) = Some (h', merged, up, mid)
    /\ turn h p E G2 g (E1 ++ (a, w) :: E2' ++ subs G2) h' n' g' sa' E' D G2' merged up mid.
Proof.
  intros HE2. unfold shrink_node. rewrite (inner_node_at h p n Hp), bind_Some. pose proof Hc as Hc'. rewrite HE2 in Hc'.
  assert (forall nx', one_entry E1 E2' a w ++ nx' = E1 ++ (a, w) :: E2' ++ nx') as Eone by (intros; unfold one_entry; by rewrite <- app_assoc).
  destruct (decide (E2' <> [] \/ Control.f_sibling g = true)) as [Hin|Hout].
  - assert (exists p2 rn rg rsa F G2', (Control.f_sibling g = true -> G2 = (p2, F) :: G2' /\ p <> p2 /\ F <> []
      /\ right_of (inner_node h) (two_entries E1 E2' a s b w) (first G2) p2 rn rg rsa F (first G2')))
      as (p2 & rn & rg & rsa & F & G2' & Hsib).
    { destruct (Control.f_sibling g) eqn:Hs; [|by exists 0, n, g, sa, [], []].
      destruct (right_neighbour Hs) as (p2 & F & G2' & rn & rg & rsa & H). rewrite HE2 in H. by exists p2, rn, rg, rsa, F, G2'. }
    destruct (remove_inside X E1 E2' a s b w n g sa (first G2) Hc' (inner_node h) p mid0 p2 rn rg rsa F (first G2') Hin)
      as (r & -> & Hr); [by intros Hs; apply Hsib|]. rewrite bind_Some.
    destruct Hr as [(-> & -> & -> & sa' & Hcov)|(Hs & v & Hv & -> & -> & Hm & (rn' & ->) & sa' & Hcov)].
    + eexists _, _, _, sa', _, [], G2, _, _, _. split; [done|]. rewrite <- Eone. apply turn_stay; [exact Hcov|].
      rewrite HE2. apply ub_one.
    + destruct (Hsib Hs) as (EG & Hne & HF & Hro). eexists _, _, _, sa', _, [], G2', _, _, _. split; [done|].
      rewrite <- Eone, EG, subs_cons, app_assoc. cbn [fst fmap option_fmap option_map].
      apply turn_merge with (v := v); [exact Hcov|done|by rewrite HE2|by rewrite ub_app|done].
  - assert (E2' = []) as -> by (destruct E2'; [done|]; destruct Hout; by left).
    destruct (remove_rightmost X (inner_node h) p mid0 E1 a s b w n g sa (first G2) Hc') as (r & -> & Hmg & Hup & Hrn & sa' & Hcov).
    { destruct (Control.f_sibling g); [destruct Hout; by right|done]. }
    rewrite bind_Some, Hmg, Hup, Hrn. eexists _, _, _, sa', _, [], G2, _, _, _. split; [done|]. rewrite <- Eone.
    apply turn_stay; [exact Hcov|]. rewrite HE2. apply ub_one.
Qed.

(** [a] has a new bound *)
Lemma bound_turn s' mid0 :
  ik_stands X mid0 s' -> s' < s -> ordered (ik_key X) (E1 ++ (a, Some s') :: E2 ++ subs G2) ->
  exists h' n' g' sa' E' D G2' merged up mid,
    shrink_node h p None mid0 (Z.of_nat (length E1)) = Some (h', merged, up, mid)
    /\ turn h p E G2 g (E1 ++ (a, Some s') :: E2 ++ subs G2) h' n' g' sa' E' D G2' merged up mid.
Proof.
  intros Hm Hlt Ho'. unfold shrink_node. rewrite (inner_node_at h p n Hp), bind_Some.
  change ((a, Some s') :: E2 ++ subs G2) with (((a, Some s') :: E2) ++ subs G2) in *. rewrite app_assoc in *.
  pose proof Ho' as HoE'. rewrite ordered_app in HoE'. destruct HoE' as [HoE' _].
  destruct (update_covers X E1 E2 a s s' mid0 n g sa (first G2) Hc HoE' Hm) as (n' & -> & sa' & Hcov). rewrite bind_Some.
  eexists _, _, _, sa', _, [], G2, _, _, _. split; [done|]. destruct E2 as [|x E2'] eqn:EX.
  - rewrite bool_decide_true by done. apply (turn_bound h p _ G2 g n' sa' _ s s'); try done; by rewrite ub_snoc.
  - rewrite bool_decide_false by done. apply turn_stay; [exact Hcov|]. by rewrite !ub_app, !ub_cons by done.
Qed.

Lemma change_turn Bl Dl R merged up mid :
  not_lone E1 E2 G2 -> change a s Bl Dl merged up mid -> (a, Some s) :: E2 ++ subs G2 = Bl ++ R ->
  ordered (ik_key X) (E1 ++ Dl ++ R) ->
  exists h' n' g' sa' E' D G2' merged' up' mid',
    shrink_node h p merged mid (Z.of_nat (length E1)) = Some (h', merged', up', mid')
    /\ turn h p E G2 g (E1 ++ Dl ++ R) h' n' g' sa' E' D G2' merged' up' mid'.
Proof.
  intros Hlone Hch EB Ho'. destruct Hch as [b w mid Hm|s' mid Hm Hlt]; cbn in EB; injection EB as EB.
  - assert (E2 = [] \/ exists E2', E2 = (b, w) :: E2' /\ R = E2' ++ subs G2) as [HE2|(E2' & HE2 & ->)].
    { destruct E2 as [|[b' w'] E2']; [by left|right]. injection EB as -> -> <-. by exists E2'. }
    + rewrite HE2 in EB. by apply merge_first.
    + by apply merge_beside.
  - subst R. by apply bound_turn.
Qed.
End one_turn.

(** the root has nothing to its right *)
Lemma turn_root h p E g low h' n' g' sa' E' D G2' merged up mid :
  turn h p E [] g low h' n' g' sa' E' D G2' merged up mid -> ub E = None ->
  G2' = [] /\ D = [] /\ merged = None /\ up = false /\ E' = low /\ ub E' = None.
Proof.
  intros Ht Hub. destruct (tu_old _ _ _ _ _ _ _ _ _ _ _ _ _ _ _ _ Ht) as (B & EB & _ & Hperm & Hcase).
  destruct B as [|b B]; [by apply Permutation_nil_cons in Hperm|]. injection EB as <- EB.
  symmetry in EB. apply app_eq_nil in EB as [-> ->]. cbn in Hperm. apply Permutation_cons_inv in Hperm.
  symmetry in Hperm. apply Permutation_nil_r, app_eq_nil in Hperm as [HD Hm].
  assert (D = []) as -> by (by destruct D). assert (merged = None) as -> by (by destruct merged).
  pose proof (tu_new _ _ _ _ _ _ _ _ _ _ _ _ _ _ _ _ Ht) as Hnew. cbn in Hnew. rewrite app_nil_r in Hnew.
  destruct Hcase as [(_ & -> & Hents)|(v & R & Bl & Dl & Hents & _ & Hch)].
  - rewrite !ents_cons in Hents. injection Hents as Hents. by rewrite <- Hents, Hub.
  - rewrite ents_cons, Hub in Hents. by destruct Hch.
Qed.
End turn.

(** ** A program that takes the turns *)

(** the state of a program: its tree, what it has retired, whether it is live; [mc_shrink]
    is its loop, from a latched node of level [k], and [mc_shrink_root] what it does when
    the node above is the root *)
Record machine {N St R M : Type} := mkMachine {
  mc_spine : St -> spine N; mc_log : St -> list R; mc_item : ptr -> R; mc_live : St -> bool;
  mc_put : St -> gmap Z N -> St; mc_retire : St -> ptr -> St;
  mc_shrink : nat -> St -> Z -> ptr -> bool -> M -> nat -> list Z -> option (St * Z);
  mc_shrink_root : St -> Z -> Z -> option St;
}.
Arguments machine N St R M : clear implicits.
Arguments mkMachine {N St R M}.

Class Contraction {N St R : Type} (X : ikind) (inj : ik_node X -> N) (proj : N -> option (ik_node X))
    (word : N -> Z) (with_word : N -> Z -> N) (P : machine N St R (ik_sep X)) := {
  ct_proj n : proj (inj n) = Some n;
  ct_word n : word (inj n) = ik_word X n;
  ct_with n w : with_word (inj n) w = inj (ik_with X n w);
  ct_put s h : mc_spine P (mc_put P s h) = set_mem (mc_spine P s) h /\ mc_log P (mc_put P s h) = mc_log P s
    /\ mc_live P (mc_put P s h) = mc_live P s;
  ct_retire s p : mc_spine P (mc_retire P s p) = mc_spine P s /\ mc_log P (mc_retire P s p) = mc_log P s ++ [mc_item P p]
    /\ mc_live P (mc_retire P s p) = mc_live P s;
  (** nothing to do *)
  ct_stop fuel s a mid k st : mc_shrink P fuel s a None false mid k st = Some (s, a);
  (** the node [p] above [a] *)
  ct_turn s (k : nat) a nd nd' p n g sa E1 u E2 nx merged up mid key :
    bool_decide (merged = None) && negb up = false ->
    sp_mem (mc_spine P s) !! a = Some nd -> latched_word word with_word nd nd' -> p <> a ->
    sp_mem (mc_spine P s) !! p = Some (inj n) -> covers X false n g sa (E1 ++ (a, u) :: E2) nx ->
    Control.f_locked g = false -> ordered (ik_key X) (E1 ++ (a, u) :: E2) ->
    ik_stands X mid key -> located E1 (a, u) key ->
    let h1 := <[p := inj (ik_with X n (Control.encode (Control.with_locked g true)))]> (sp_mem (mc_spine P s)) in
    let h := if p =? sp_root (mc_spine P s) then h1 else <[a := nd']> h1 in
    forall fuel st,
      mc_shrink P (S fuel) s a merged up mid k (p :: st)
      = (let* (h', merged', up', mid') := shrink_node X inj proj h p merged mid (Z.of_nat (length E1)) in
         let s := mc_put P (mc_retire P s merged) h' in
         if p =? sp_root (mc_spine P s)
         then (let* s := mc_shrink_root P s p a in mc_shrink P fuel s p None false mid' (S k) st)
         else mc_shrink P fuel s p merged' up' mid' (S k) st);
  (** the root is left with more than one child *)
  ct_root_more s a nd nd' p n g sa E :
    sp_mem (mc_spine P s) !! a = Some nd -> latched_word word with_word nd nd' -> p <> a ->
    sp_mem (mc_spine P s) !! p = Some (inj n) -> covers X false n g sa E None -> ub E = None -> (2 <= length E)%nat ->
    mc_shrink_root P s p a = Some (mc_put P s (<[a := nd']> (sp_mem (mc_spine P s))));
  (** ... or with one, which takes its place *)
  ct_root_only s a nd nd' p n g sa w :
    sp_mem (mc_spine P s) !! a = Some nd -> latched_word word with_word nd nd' -> p <> a ->
    sp_mem (mc_spine P s) !! p = Some (inj n) -> covers X false n g sa [(a, w)] None -> w = None ->
    Control.f_locked g = true ->
    exists s1 n2 n2', mc_shrink_root P s p a = Some s1 /\ latched_word word with_word (inj n2) n2'
      /\ mc_spine P s1 = mkSpine (<[a := nd']> (<[p := inj n2]> (sp_mem (mc_spine P s)))) a
                           (sp_depth (mc_spine P s) - 1) (sp_track (mc_spine P s))
      /\ mc_log P s1 = mc_log P s ++ [mc_item P (Some p)] /\ mc_live P s1 = mc_live P s;
}.

(** ** Up the levels *)

Section shrink.
Context {N St R : Type} (X : ikind) `{HX : !IkindOk X} (inj : ik_node X -> N) (proj : N -> option (ik_node X))
  (word : N -> Z) (with_word : N -> Z -> N) (P : machine N St R (ik_sep X)) `{HP : !Contraction X inj proj word with_word P}.
Implicit Types (h : gmap Z N) (s : St) (E C : level) (G : list group) (L : list (list group)) (nd : N) (mid : ik_sep X).
Abbreviation inner_at := (inner_at X inj false).
Abbreviation covers := (covers X false).
Abbreviation turn := (turn X inj).
Abbreviation latched := (latched_word word with_word).
Abbreviation release := (run_at word with_word Control.OpUnlatch).
Abbreviation spine_of := (mc_spine P).
Abbreviation mem s := (sp_mem (mc_spine P s)).

(** what the loop makes of a tree whose levels above node [a] were [L]: a chain of levels
    over [C], once the last latch is given back; the nodes that left it are retired *)
Record shrunk_to s k (a : Z) nd' L C (merged : ptr) s' h' ups' (l : list ptr) : Prop := {
  sk_chain : chain inner_at h' C ups' (sp_root (spine_of s'));
  sk_current : h' !! a = Some nd';
  sk_frame x : x <> a -> x ∉ addrs L -> h' !! x = mem s !! x;
  sk_nodes : addrs L ≡ₚ addrs ups' ++ omap id l;
  sk_log : mc_log P s' = mc_log P s ++ (mc_item P <$> merged :: l);
  sk_depth : sp_depth (spine_of s') = Z.of_nat (k + S (length ups'));
  sk_levels : (length ups' <= length L)%nat;
  sk_track : sp_track (spine_of s') = sp_track (spine_of s) /\ tracks (sp_track (spine_of s')) (S k) ups';
  sk_live : mc_live P s' = mc_live P s;
}.

(** the state once a node is retired and the heap changed *)
Lemma put_retire s p h :
  let s' := mc_put P (mc_retire P s p) h in
  spine_of s' = set_mem (spine_of s) h /\ mc_log P s' = mc_log P s ++ [mc_item P p] /\ mc_live P s' = mc_live P s.
Proof.
  cbn zeta. destruct (ct_put (Contraction := HP) (mc_retire P s p) h) as (-> & -> & ->).
  by destruct (ct_retire (Contraction := HP) s p) as (-> & -> & ->).
Qed.

(** ** The level of [p] after a turn *)
Section level.
Context s (a : Z) G1 G2 (p : Z) E L (Hi : inners inner_at (mem s) (G1 ++ (p, E) :: G2))
  (Hdup : NoDup (a :: addrs ((G1 ++ (p, E) :: G2) :: L))).
Context h g low h' n' g' sa' E' D G2' merged up mid (Hh : forall x, x <> a -> x <> p -> h !! x = mem s !! x)
  (Ht : turn h p E G2 g low h' n' g' sa' E' D G2' merged up mid) (Hg : Control.f_locked g = true).

Definition turned : list group := G1 ++ ((p, E') :: D) ++ G2'.
Abbreviation n2 := (inj (ik_with X n' (Control.encode (Control.with_locked g' false)))).

Lemma turned_segment : exists B, (p, E) :: G2 = ((p, E) :: B) ++ G2' /\ (forall x, x <> p -> x ∉ B.*1 -> h' !! x = h !! x)
  /\ B.*1 ≡ₚ D.*1 ++ option_list merged
  /\ ((merged = None /\ up = false /\ ents ((p, E) :: B) = ents ((p, E') :: D))
      \/ exists v R Bl Dl, ents ((p, E) :: B) = Bl ++ R /\ ents ((p, E') :: D) = Dl ++ R /\ change X p v Bl Dl merged up mid).
Proof.
  destruct (tu_old _ _ _ _ _ _ _ _ _ _ _ _ _ _ _ _ _ _ Ht) as (B & EB & Hfr & Hperm & Hup).
  destruct B as [|b B]; [by apply Permutation_nil_cons in Hperm|]. cbn in EB. injection EB as <- EB. exists B.
  split; [by rewrite EB|]. split; [|split; [|done]].
  - intros x ? ?. apply Hfr. cbn. by rewrite not_elem_of_cons.
  - cbn in Hperm. by apply Permutation_cons_inv in Hperm.
Qed.

(** a node that is not in the level, and is not [a], is as it was *)
Lemma turned_frame x : x <> a -> x ∉ (G1 ++ (p, E) :: G2).*1 -> h' !! x = mem s !! x.
Proof.
  intros Hxa Hx. rewrite fmap_app in Hx. cbn in Hx. apply not_elem_of_app in Hx as [_ Hx]. apply not_elem_of_cons in Hx as [Hxp Hx].
  destruct turned_segment as (B & EB & Hfr & _). cbn in EB. injection EB as EB. rewrite Hfr; [by apply Hh|done|].
  intros HB. apply Hx. rewrite EB, fmap_app. apply elem_of_app. by left.
Qed.

Lemma turned_nodes : (G1 ++ (p, E) :: G2).*1 ≡ₚ turned.*1 ++ option_list merged.
Proof.
  destruct turned_segment as (B & EB & _ & Hperm & _). rewrite EB. unfold turned. rewrite !fmap_app. cbn. rewrite Hperm.
  rewrite <- !app_assoc. cbn. apply Permutation_app_head, perm_skip. rewrite <- !app_assoc. apply Permutation_app_head, Permutation_app_comm.
Qed.

Lemma turned_links : latched (inj n') n2 /\ links inner_at n2 E' (first (D ++ G2')).
Proof.
  apply (covers_latched X inj false word with_word (ct_word (Contraction := HP)) (ct_with (Contraction := HP)) n' g' sa'); [apply Ht|].
  by rewrite (tu_locked _ _ _ _ _ _ _ _ _ _ _ _ _ _ _ _ _ _ Ht).
Qed.

Lemma turned_inners h'' :
  h'' !! p = Some n2 -> (forall x, x <> p -> x ∉ addrs L -> h'' !! x = h' !! x) -> inners inner_at h'' turned.
Proof.
  intros Hp'' Hh''. destruct turned_segment as (B & EB & Hfr & Hperm & _).
  pose proof Hi as Hi'. rewrite EB in Hi'.
  assert (forall x, x ∈ G1.*1 ++ B.*1 ++ G2'.*1 -> x <> a /\ x <> p /\ x ∉ addrs L) as Hother.
  { intros x Hx. cbn in EB. injection EB as EB.
    destruct (level_other inner_at (mem s) a G1 G2 p E L Hi Hdup x) as (_ & ? & ? & ?); [by rewrite EB, fmap_app|done]. }
  assert (NoDup (G1.*1 ++ p :: B.*1 ++ G2'.*1)) as Hself.
  { pose proof (level_self a G1 G2 p E L Hdup) as Hself. cbn in EB. injection EB as EB. by rewrite EB, fmap_app in Hself. }
  apply (inners_segment inner_at (mem s) h'' G1 ((p, E) :: B) G2' ((p, E') :: D)); [done|done|done| |].
  - intros x Hx. destruct (Hother x) as (? & ? & ?); [set_solver|]. rewrite Hh'', Hfr, Hh; try done.
    intros HB. apply NoDup_app in Hself as (_ & Hs1 & [_ Hs2]%NoDup_cons). apply NoDup_app in Hs2 as (_ & Hs2 & _).
    apply elem_of_app in Hx as [Hx|Hx]; [apply (Hs1 x Hx); set_solver|by apply (Hs2 x)].
  - intros D1 q F D2 ED. destruct D1 as [|d D1].
    + injection ED as <- <- <-. by apply turned_links.
    + injection ED as <- ED. apply (at_frame h'); [|by apply (tu_others _ _ _ _ _ _ _ _ _ _ _ _ _ _ _ _ _ _ Ht D1 q F D2)].
      assert (q ∈ B.*1) as Hq. { rewrite Hperm, ED, fmap_app. cbn. set_solver. }
      destruct (Hother q) as (? & ? & ?); [set_solver|]. by apply Hh''.
Qed.

Lemma turned_subs C1 E1 : low = E1 -> C1 = subs G1 -> subs turned = C1 ++ E1.
Proof. intros <- ->. unfold turned. rewrite !subs_app, subs_cons, <- app_assoc. f_equal. apply Ht. Qed.

Lemma turned_ents R0 Dl : ents ((p, E') :: D) = Dl ++ R0 -> ents turned = ents G1 ++ Dl ++ (R0 ++ ents G2').
Proof. intros ED. unfold turned. by rewrite !ents_app, ED, <- app_assoc. Qed.

Lemma turned_same : merged = None -> up = false -> ents turned = ents (G1 ++ (p, E) :: G2).
Proof.
  intros Hm Hu. destruct turned_segment as (B & EB & _ & _ & [(_ & _ & Eents)|(v & R0 & Bl & Dl & _ & _ & Hch)]).
  - rewrite EB. unfold turned. by rewrite !ents_app, Eents.
  - destruct Hch; congruence.
Qed.

Lemma turned_first : first turned = first (G1 ++ (p, E) :: G2).
Proof. by apply first_app. Qed.

(** a node that the turn leaves as it is *)
Lemma turned_a : h' !! a = h !! a.
Proof.
  destruct turned_segment as (B & EB & Hfr & _). cbn in EB. injection EB as EB.
  pose proof Hdup as [Ha _]%NoDup_cons. rewrite addrs_cons, EB, fmap_app in Ha. cbn in Ha. rewrite fmap_app in Ha.
  apply Hfr; set_solver.
Qed.

Context (k : nat) nd' (Ha : h !! a = Some nd') (old : ptr).
Abbreviation s1 := (mc_put P (mc_retire P s old) h').

(** the level above has nothing to do *)
Lemma shrunk_stop :
  merged = None -> up = false -> chain inner_at (mem s) (ents (G1 ++ (p, E) :: G2)) L (sp_root (spine_of s)) ->
  sp_depth (spine_of s) = Z.of_nat (k + S (S (length L))) ->
  tracks (sp_track (spine_of s)) (S k) ((G1 ++ (p, E) :: G2) :: L) ->
  shrunk_to s k a nd' ((G1 ++ (p, E) :: G2) :: L) (subs turned) old s1 (<[p := n2]> h') (turned :: L) [].
Proof.
  intros Hm Hu Hch Hd Htr. destruct (level_p inner_at (mem s) a G1 G2 p E L Hi Hdup) as (_ & Hpa & HpL).
  destruct (put_retire s old h') as (Es & El & Ev).
  pose proof turned_nodes as Hn. rewrite Hm in Hn. cbn in Hn. rewrite app_nil_r in Hn.
  split; rewrite ?Es; cbn [sp_mem sp_root sp_depth sp_track set_mem].
  - cbn [chain]. split; [done|]. split.
    + apply turned_inners; [by rewrite lookup_insert_eq|]. intros x Hx _. by rewrite lookup_insert_ne.
    + rewrite turned_same by done. apply (chain_frame inner_at (mem s)); [|done]. intros x Hx.
      rewrite lookup_insert_ne by (by intros ->). apply turned_frame.
      * intros ->. by apply (level_a a G1 G2 p E L Hdup).
      * intros Hx'. apply NoDup_cons in Hdup as [_ Hn']. rewrite addrs_cons in Hn'. apply NoDup_app in Hn' as (_ & Hn' & _).
        by apply (Hn' x).
  - rewrite lookup_insert_ne, turned_a by done. done.
  - intros x Hxa Hx. rewrite addrs_cons in Hx. rewrite lookup_insert_ne by (intros ->; apply Hx; rewrite fmap_app; set_solver).
    apply turned_frame; [done|]. intros Hx'. apply Hx, elem_of_app. by left.
  - rewrite !addrs_cons, <- Hn. cbn. by rewrite app_nil_r.
  - exact El.
  - rewrite Hd. done.
  - done.
  - split; [done|]. intros [|i] G HG; [|by apply (Htr (S i))]. injection HG as <-. rewrite turned_first. by apply (Htr 0%nat).
  - exact Ev.
Qed.

(** ... or goes on from there *)
Lemma shrunk_more C s' h'' ups' l :
  shrunk_to s1 (S k) p n2 L (ents turned) merged s' h'' ups' l ->
  C = subs turned -> tracks (sp_track (spine_of s)) (S k) ((G1 ++ (p, E) :: G2) :: L) ->
  shrunk_to s k a nd' ((G1 ++ (p, E) :: G2) :: L) C old s' h'' (turned :: ups') (merged :: l).
Proof.
  destruct (put_retire s old h') as (Es & El & Ev).
  intros [Sc Scur Sfr Sn Sr Sd Sl (Str & Sts) Sg] -> Htr. rewrite Es in *. cbn [sp_mem sp_track set_mem] in *.
  destruct (level_p inner_at (mem s) a G1 G2 p E L Hi Hdup) as (_ & Hpa & HpL). split.
  - cbn [chain]. split; [done|]. split; [by apply turned_inners|done].
  - rewrite Sfr, turned_a; [done..|apply (level_a a G1 G2 p E L Hdup)].
  - intros x Hxa Hx. rewrite addrs_cons in Hx. rewrite Sfr; [|intros ->; apply Hx; rewrite fmap_app; set_solver|intros Hx'; apply Hx, elem_of_app; by right].
    apply turned_frame; [done|]. intros Hx'. apply Hx, elem_of_app. by left.
  - rewrite !addrs_cons, turned_nodes, Sn. rewrite <- !app_assoc. apply Permutation_app_head.
    rewrite (app_assoc _ (addrs ups')), (Permutation_app_comm _ (addrs ups')), <- app_assoc. by destruct merged.
  - rewrite Sr, El, <- app_assoc. done.
  - rewrite Sd. cbn. lia.
  - cbn. lia.
  - split; [done|]. intros [|i] G HG; [|rewrite <- Nat.add_succ_comm; by apply Sts]. injection HG as <-.
    rewrite Str, turned_first. by apply (Htr 0%nat).
  - by rewrite Sg.
Qed.
End level.

(** ** The root *)

Lemma inners_one h p E : inner_at h p E None -> inners inner_at h [(p, E)].
Proof. intros Hat G1 q F G2 EG. destruct G1 as [|? G1]; [|by destruct G1]. injection EG as <- <- <-. done. Qed.

Lemma shrink_at_root s (k : nat) a nd nd' p E h g low h' n' g' sa' E' D G2' merged up mid old w B :
  turn h p E [] g low h' n' g' sa' E' D G2' merged up mid -> Control.f_locked g = true -> ub E = None ->
  inners inner_at (mem s) [(p, E)] -> p <> a -> sp_root (spine_of s) = p ->
  (forall x, x <> a -> x <> p -> h !! x = mem s !! x) -> h !! a = Some nd -> latched nd nd' ->
  low = (a, w) :: B \/ (exists e E1, low = e :: E1 ++ (a, w) :: B) ->
  sp_depth (spine_of s) = Z.of_nat (k + 2) -> tracks (sp_track (spine_of s)) (S k) [[(p, E)]] ->
  exists s1 h'' ups' l,
    mc_shrink_root P (mc_put P (mc_retire P s old) h') p a = Some s1
    /\ release (mem s1) p = Some h''
    /\ shrunk_to s k a nd' [[(p, E)]] low old s1 h'' ups' l.
Proof.
  intros Ht Hg Hub Hi Hpa Hroot Hh Ha Hlk Hlow Hd Htr.
  pose proof (turn_root _ _ _ _ _ _ _ _ _ _ _ _ _ _ _ _ _ Ht Hub) as (-> & -> & -> & -> & -> & Hub').
  assert (NoDup (a :: addrs ([(p, E)] :: []))) as Hdup by (apply NoDup_cons; split; [|apply NoDup_singleton]; set_solver).
  pose proof (turned_a s a [] [] p E [] Hi Hdup h g low h' n' g' sa' low [] [] None false mid Hh Ht Hg) as Hta.
  pose proof (turned_frame s a [] [] p E h g low h' n' g' sa' low [] [] None false mid Hh Ht) as Htf.
  destruct (turned_links [] p E h g low h' n' g' sa' low [] [] None false mid Ht Hg) as [Hl2 Hlinks].
  pose proof (tu_node _ _ _ _ _ _ _ _ _ _ _ _ _ _ _ _ _ _ Ht) as Hp'.
  pose proof (tu_covers _ _ _ _ _ _ _ _ _ _ _ _ _ _ _ _ _ _ Ht) as Hc. cbn in Hc, Hlinks.
  pose proof (tu_locked _ _ _ _ _ _ _ _ _ _ _ _ _ _ _ _ _ _ Ht) as Hg'. rewrite Hg in Hg'.
  destruct (put_retire s old h') as (Es & El & Ev). set (s1 := mc_put P (mc_retire P s old) h') in *.
  assert (mem s1 = h') as Em by (by rewrite Es). rewrite Ha in Hta.
  destruct (decide (2 <= length low)%nat) as [H2|H2].
  - assert (mem s1 !! a = Some nd) as Ha1 by (by rewrite Em). assert (mem s1 !! p = Some (inj n')) as Hp1 by (by rewrite Em).
    rewrite (ct_root_more (Contraction := HP) s1 a nd nd' p n' g' sa' low Ha1 Hlk Hpa Hp1 Hc Hub' H2), Em.
    destruct (ct_put (Contraction := HP) s1 (<[a := nd']> h')) as (Es2 & El2 & Ev2). rewrite Es in Es2.
    eexists _, _, [[(p, low)]], []. split; [done|]. rewrite Es2. cbn [sp_mem set_mem]. split.
    { eapply (release_word word with_word); [by rewrite lookup_insert_ne|exact Hl2]. }
    split; rewrite ?Es2; cbn [sp_mem sp_root sp_depth sp_track set_mem].
    + cbn [chain]. split; [by rewrite subs_cons, app_nil_r|]. split.
      * apply inners_one. eapply Hlinks, lookup_insert_eq.
      * by rewrite ents_cons, Hub', Hroot.
    + by rewrite lookup_insert_ne, lookup_insert_eq by done.
    + intros x Hxa Hx. rewrite !lookup_insert_ne; [by apply Htf|set_solver..].
    + done.
    + by rewrite El2, El.
    + rewrite Hd. done.
    + done.
    + split; [done|]. intros [|i] G HG; [|done]. injection HG as <-. by apply (Htr 0%nat [(p, E)]).
    + by rewrite Ev2.
  - assert (low = [(a, w)]) as ->.
    { destruct Hlow as [->|(e & E1 & ->)]; [destruct B; [done|]; cbn in H2; lia|]. cbn in H2. rewrite length_app in H2. cbn in H2. lia. }
    cbn in Hub'. assert (mem s1 !! a = Some nd) as Ha1 by (by rewrite Em). assert (mem s1 !! p = Some (inj n')) as Hp1 by (by rewrite Em).
    destruct (ct_root_only (Contraction := HP) s1 a nd nd' p n' g' sa' w Ha1 Hlk Hpa Hp1 Hc Hub' Hg')
      as (s2 & n2 & n2' & -> & Hln & Es2 & El2 & Ev2). rewrite Em in Es2. rewrite Es in Es2. cbn [sp_depth sp_track set_mem] in Es2.
    eexists s2, _, [], [Some p]. split; [done|]. rewrite Es2. cbn [sp_mem]. split.
    { eapply (release_word word with_word); [by rewrite lookup_insert_ne, lookup_insert_eq by done|exact Hln]. }
    split; rewrite ?Es2; cbn [sp_mem sp_root sp_depth sp_track].
    + cbn [chain]. by rewrite Hub'.
    + by rewrite lookup_insert_ne, lookup_insert_eq by done.
    + intros x Hxa Hx. rewrite !lookup_insert_ne; [by apply Htf|set_solver..].
    + done.
    + rewrite El2, El. by rewrite <- app_assoc.
    + rewrite Hd. cbn. lia.
    + cbn. lia.
    + split; [done|]. by intros [|i] G HG.
    + by rewrite Ev2.
Qed.

Lemma ents_nil G : ents G = [] -> G = [].
Proof. by destruct G. Qed.

(** the loop, from node [a] of the level [C1 ++ (a, Some u) :: C2] *)
Lemma shrink_spec frs : forall s k C1 a u C2 Bl Dl B merged up mid nd nd' fuel,
  zip inner_at (mem s) C1 (a, Some u) C2 frs (sp_root (spine_of s)) ->
  change X a u Bl Dl merged up mid -> (a, Some u) :: C2 = Bl ++ B ->
  ordered (ik_key X) (C1 ++ Bl ++ B) -> ordered (ik_key X) (C1 ++ Dl ++ B) ->
  mem s !! a = Some nd -> latched nd nd' -> NoDup (a :: addrs (levels (a, Some u) frs)) ->
  Forall no_lone_pair (levels (a, Some u) frs) ->
  sp_depth (spine_of s) = Z.of_nat (k + S (length frs)) -> tracks (sp_track (spine_of s)) (S k) (levels (a, Some u) frs) ->
  (length frs <= fuel)%nat ->
  exists s' cur' h' ups' l,
    mc_shrink P fuel s a merged up mid k (fr_p <$> frs) = Some (s', cur')
    /\ release (mem s') cur' = Some h'
    /\ shrunk_to s k a nd' (levels (a, Some u) frs) (C1 ++ Dl ++ B) merged s' h' ups' l.
Proof.
  induction frs as [|[G1 p E1 E2 G2] frs IH];
    intros s k C1 a u C2 Bl Dl B merged up mid nd nd' fuel Hz Hch EB Ho Ho' Hnd Hlk Hdup Hlone Hd Htr Hfuel.
  { by destruct Hz as (_ & _ & [= _ ?]). }
  pose proof (zip_root inner_at _ _ _ _ _ _ Hz) as Hroot. destruct Hz as (-> & -> & Hi & Hz).
  destruct fuel as [|fuel]; [cbn in Hfuel; lia|].
  cbn [fr_G1 fr_p fr_E1 fr_E2 fr_G2 fmap list_fmap levels] in *.
  unfold fr_level, fr_E in *. cbn [fr_G1 fr_p fr_E1 fr_E2 fr_G2] in *.
  set (E := E1 ++ (a, Some u) :: E2) in *. set (L := levels (p, ub E) frs) in *.
  destruct (level_p inner_at (mem s) a G1 G2 p E L Hi Hdup) as (_ & Hpa & HpL).
  destruct (Hi G1 p E G2 eq_refl) as (n & g & sa & Hp & Hc & Hg).
  pose proof (level_self a G1 G2 p E L Hdup) as Hself. apply NoDup_app in Hself as (_ & _ & Hself).
  assert (inners inner_at (mem s) G2) as HiG2.
  { intros X1 q F X2 EX. apply (Hi (G1 ++ (p, E) :: X1)). by rewrite EX, <- app_assoc. }
  assert (a ∉ G2.*1) as HaG2.
  { apply NoDup_cons in Hdup as [Ha _]. rewrite addrs_cons, fmap_app in Ha. set_solver. }
  apply Forall_cons in Hlone as [Hlone1 Hlone].
  assert (not_lone E1 E2 G2) as Hnl.
  { intros p2 b G2' -> -> EG. by apply (Hlone1 G1 p (a, Some u) p2 b G2'); rewrite EG. }
  assert (ordered (ik_key X) (E1 ++ Bl ++ B) /\ ordered (ik_key X) (E1 ++ Dl ++ B)) as [HoB HoD].
  { rewrite <- !app_assoc in *. by apply ordered_app in Ho as (_ & ? & _); apply ordered_app in Ho' as (_ & ? & _). }
  assert (ordered (ik_key X) (E ++ subs G2)) as HoE by (unfold E; rewrite <- app_assoc; cbn; by rewrite EB).
  destruct (change_located X a u Bl Dl merged up mid E1 B Hch HoB HoD) as (key & Hkey & Hloc).
  pose proof (covers_lock X false n g sa E _ Hc true) as Hc1.
  set (n1 := ik_with X n (Control.encode (Control.with_locked g true))) in *.
  set (h1 := <[p := inj n1]> (mem s)) in *.
  set (h := if p =? sp_root (spine_of s) then h1 else <[a := nd']> h1).
  assert (h !! p = Some (inj n1)) as Hph.
  { unfold h, h1. destruct (p =? _); rewrite ?(lookup_insert_ne _ a p) by done; apply lookup_insert_eq. }
  assert (forall x, x <> a -> x <> p -> h !! x = mem s !! x) as Hh.
  { intros x ? ?. unfold h, h1. destruct (p =? _); by rewrite !lookup_insert_ne. }
  assert (inners inner_at h G2) as Hih.
  { apply (inners_frame inner_at (mem s)); [|done]. intros x Hx. apply NoDup_cons in Hself as [Hself _].
    apply Hh; by intros ->. }
  destruct (change_turn X inj proj (ct_proj (Contraction := HP)) h p n1 (Control.with_locked g true) sa E1 E2 G2 a u Hph Hc1 Hih Hself HoE
    Bl Dl B merged up mid Hnl Hch EB HoD)
    as (h' & n' & g' & sa' & E' & D & G2' & merged' & up' & mid' & Hshrink & Hturn).
  rewrite (ct_turn (Contraction := HP) s k a nd nd' p n g sa E1 (Some u) E2 _ merged up mid key
    (change_asks _ _ _ _ _ _ _ _ Hch) Hnd Hlk Hpa Hp Hc Hg (proj1 (proj1 (ordered_app _ E (subs G2)) HoE)) Hkey Hloc).
  fold n1. fold h1. fold h. rewrite Hshrink, bind_Some. clear Hshrink. cbn zeta.
  destruct (put_retire s merged h') as (Es & El & Ev). set (s1 := mc_put P (mc_retire P s merged) h') in *.
  assert (subs (G1 ++ (p, E) :: G2) = (subs G1 ++ E1) ++ Bl ++ B) as Esubs.
  { rewrite subs_app, subs_cons. unfold E. rewrite <- !app_assoc. cbn. by rewrite EB. }
  fold E in Hturn.
  assert (subs (turned G1 p E' D G2') = (subs G1 ++ E1) ++ Dl ++ B) as Esubs'.
  { rewrite <- app_assoc. by eapply turned_subs. }
  replace (sp_root (spine_of s1)) with (sp_root (spine_of s)) by (by rewrite Es). destruct (Z.eqb_spec p (sp_root (spine_of s))) as [Epr|Epr].
  - (* the root *)
    assert (frs = []) as ->.
    { destruct frs as [|fr frs]; [done|]. apply (zip_root inner_at) in Hz. by rewrite <- Epr in Hz. }
    destruct Hz as (HG1%ents_nil & HG2%ents_nil & [= _ Hub]). subst G1 G2.
    destruct (change_split _ _ _ _ _ _ _ _ Hch) as (Bl' & EBl & w & Dl' & EDl).
    destruct (shrink_at_root s k a nd nd' p E h (Control.with_locked g true) _ h' n' g' sa' E' D G2' merged' up' mid' merged w (Dl' ++ B)
      Hturn eq_refl Hub Hi Hpa (eq_sym Epr) Hh) as (t1 & h'' & ups' & l & Hsr & Hul & Hsh); [|done| | |exact Htr|].
    + unfold h, h1. by rewrite lookup_insert_ne by done.
    + rewrite EDl. destruct E1 as [|e E1]; [by left|right]. by exists e, E1.
    + rewrite Hd. cbn. lia.
    + fold s1 in Hsr. rewrite Hsr, bind_Some. rewrite (ct_stop (Contraction := HP)). by exists t1, p, h'', ups', l.
  - (* below it *)
    assert (h !! a = Some nd') as Ha by (unfold h; apply lookup_insert_eq).
    assert (length L = length frs) as HL by apply length_levels.
    pose proof (tu_node _ _ _ _ _ _ _ _ _ _ _ _ _ _ _ _ _ _ Hturn) as Hp'.
    destruct (turned_links G2 p E h _ _ h' n' g' sa' E' D G2' merged' up' mid' Hturn eq_refl) as [Hl2 _].
    set (n2 := ik_with X n' (Control.encode (Control.with_locked g' false))) in *.
    destruct (turned_segment _ _ _ _ _ _ _ _ _ _ _ _ _ _ _ _ Hturn)
      as (B' & EBG & _ & _ & [(Em & Eu & _)|(v & R' & Bl' & Dl' & EBl & EDl & Hch')]).
    + subst merged' up'. rewrite (ct_stop (Contraction := HP)). eexists s1, p, _, _, []. split; [done|]. split.
      { rewrite Es. cbn [sp_mem set_mem]. by eapply (release_word word with_word). }
      rewrite <- Esubs'. apply (shrunk_stop s a G1 G2 p E L Hi Hdup h (Control.with_locked g true) (E1 ++ Dl ++ B) h' n' g' sa' E' D G2' None false mid'
        Hh Hturn eq_refl k nd' Ha merged); try done.
      * apply zip_chain in Hz. by rewrite ents_app, ents_cons.
      * rewrite Hd, HL. cbn. done.
    + destruct (change_split _ _ _ _ _ _ _ _ Hch') as (Bl2 & EBl2 & _).
      assert (ub E = Some v) as Hub by (rewrite ents_cons, EBl2 in EBl; by injection EBl).
      assert (ents (G1 ++ (p, E) :: G2) = ents G1 ++ Bl' ++ R' ++ ents G2') as Eold.
      { rewrite EBG, !ents_app, EBl. by rewrite <- !app_assoc. }
      pose proof (turned_ents G1 p E' D G2' R' Dl' EDl) as Enew.
      assert (inners inner_at (<[p := inj n2]> h') (turned G1 p E' D G2')) as Hi'.
      { apply (turned_inners s a G1 G2 p E L Hi Hdup h _ _ _ _ _ _ _ _ _ _ _ _ Hh Hturn eq_refl); [apply lookup_insert_eq|].
        intros x Hx _. by rewrite lookup_insert_ne. }
      destruct (IH s1 (S k) (ents G1) p v (ents G2) Bl' Dl' (R' ++ ents G2') merged' up' mid' (inj n') (inj n2) fuel)
        as (s' & cur' & h'' & ups' & l & Hrun & Hul & Hsh); rewrite ?Es; cbn [sp_mem sp_root sp_depth sp_track set_mem].
      * rewrite <- Hub. apply (zip_frame inner_at (mem s)); [|done]. fold L. intros x Hx.
        apply (turned_frame s a G1 G2 p E h _ _ _ _ _ _ _ _ _ _ _ _ Hh Hturn).
        -- intros ->. by apply (level_a a G1 G2 p E L Hdup).
        -- intros Hx'. apply NoDup_cons in Hdup as [_ Hn']. rewrite addrs_cons in Hn'. apply NoDup_app in Hn' as (_ & Hn' & _).
           by apply (Hn' x).
      * exact Hch'.
      * rewrite ents_app, ents_cons, Hub in Eold. by apply app_inv_head in Eold.
      * rewrite <- Eold. apply ordered_ents; [by apply (inners_nonempty inner_at (mem s))|by rewrite Esubs].
      * rewrite <- Enew. apply ordered_ents; [by eapply (inners_nonempty inner_at)|by rewrite Esubs'].
      * exact Hp'.
      * exact Hl2.
      * rewrite <- Hub. by apply (level_upper inner_at (mem s) a G1 G2 p E L).
      * by rewrite <- Hub.
      * rewrite Hd. cbn. lia.
      * rewrite <- Hub. intros i G HG. rewrite Nat.add_succ_comm. by apply (Htr (S i)).
      * cbn in Hfuel. lia.
      * exists s', cur', h'', (turned G1 p E' D G2' :: ups'), (merged' :: l). split; [exact Hrun|]. split; [done|].
        rewrite <- Enew, <- Hub in Hsh. fold L in Hsh.
        by apply (shrunk_more s a G1 G2 p E L Hi Hdup h _ _ _ _ _ _ _ _ _ _ _ _ Hh Hturn eq_refl k nd' Ha merged).
Qed.

(** ** A leaf merged away *)

Lemma ordered_merged K C1 (a u b : Z) w C2 :
  ordered K (C1 ++ (a, Some u) :: (b, w) :: C2) -> ordered K (C1 ++ (a, w) :: C2).
Proof.
  rewrite !ordered_app, !ordered_cons. intros (H1 & (_ & (Hb & H2 & Hlt) & _) & Hcross).
  split; [done|]. split; [done|]. intros e1 e2 He1 [->|He2]%elem_of_cons.
  - apply (Hcross e1 (b, w) He1). set_solver.
  - apply (Hcross e1 e2 He1). set_solver.
Qed.

Section merge.
Context {W : Type} (leaf_at : gmap Z N -> gmap Z W -> level -> entry -> ptr -> Prop) `{!LeafLevel leaf_at}.
Abbreviation standing := (standing inner_at leaf_at (ik_key X)).

(** the leaf [b], with the leaf [a] to its left, in the tree [s0] of the map [m] *)
Context (s0 : spine N) (m m' : gmap Z W) (C1 C2 : level) (a u b : Z) (w : option Z) (L : list (list group)).
Abbreviation C := (C1 ++ (a, Some u) :: (b, w) :: C2).
Abbreviation C' := (C1 ++ (a, w) :: C2).
Context (Hs : standing s0 m C L) (nd nd' rn : N) (s : St).
Abbreviation h2 := (<[b := rn]> (<[a := nd]> (sp_mem s0))).
Context (Es : spine_of s = set_mem s0 h2)
  (Hm : forall k, ~ Forall (below k) C1 \/ below k (a, Some u) -> m' !! k = m !! k)
  (Hnd' : forall h, h !! a = Some nd' -> leaf_at h m' C1 (a, w) (first C2)).

Lemma merge_addresses : a <> b /\ a ∉ addrs L /\ b ∉ addrs L
  /\ forall x, x ∈ C1.*1 ++ C2.*1 -> x <> a /\ x <> b /\ x ∉ addrs L.
Proof.
  pose proof (st_nodup _ _ _ _ _ _ _ Hs) as Hnd. rewrite fmap_app in Hnd. cbn in Hnd. apply NoDup_app in Hnd as (Hnd1 & Hnd2 & _).
  assert (a <> b) as Hab.
  { intros ->. apply NoDup_app in Hnd1 as (_ & _ & [Hx _]%NoDup_cons). apply Hx. by left. }
  split; [done|]. split; [apply Hnd2; set_solver|]. split; [apply Hnd2; set_solver|].
  intros x Hx. split; [|split; [|apply Hnd2; set_solver]].
  - intros ->. apply NoDup_app in Hnd1 as (_ & H1 & [H2 _]%NoDup_cons). apply elem_of_app in Hx as [Hx|Hx]; [apply (H1 _ Hx)|apply H2]; set_solver.
  - intros ->. apply NoDup_app in Hnd1 as (_ & H1 & [_ [H2 _]%NoDup_cons]%NoDup_cons).
    apply elem_of_app in Hx as [Hx|Hx]; [apply (H1 _ Hx)|apply H2]; set_solver.
Qed.

(** the levels above shrunk *)
Lemma standing_merge s' h' ups' l :
  shrunk_to s 0 a nd' L C' (Some b) s' h' ups' l ->
  standing (set_mem (spine_of s') h') m' C' ups' /\ C.*1 ++ addrs L ≡ₚ (C'.*1 ++ addrs ups') ++ omap id (Some b :: l).
Proof.
  intros [Sc Scur Sfr Sn Sr Sd Sl (Str & Sts) _]. destruct merge_addresses as (_ & _ & _ & Hoth).
  rewrite Es in *. cbn [sp_mem sp_track set_mem] in *. destruct Hs as [Ho Hl Hch Hnd Hd Htr].
  assert (C.*1 ++ addrs L ≡ₚ (C'.*1 ++ addrs ups') ++ omap id (Some b :: l)) as Hperm.
  { rewrite Sn, !fmap_app. cbn. rewrite <- !app_assoc. cbn. apply Permutation_app_head, perm_skip.
    rewrite !app_assoc. by rewrite <- Permutation_middle. }
  split; [|done]. split; cbn [sp_mem sp_root sp_depth sp_track set_mem]; try done.
  - by eapply ordered_merged.
  - apply (leaves_replace leaf_at (sp_mem s0) h' m _ C1 [(a, Some u); (b, w)] [(a, w)] C2); try done.
    + intros k. rewrite !Forall_cons, !Forall_nil. unfold below. cbn. apply ordered_app in Ho as (_ & Ho & _).
      apply ordered_cons in Ho as (_ & _ & Hlt). pose proof (Hlt (b, w) ltac:(by left)) as Hsw. unfold entry_lt in Hsw. cbn in Hsw.
      destruct w as [v|]; naive_solver lia.
    + intros k Hk. apply Hm. rewrite Forall_cons in Hk. naive_solver.
    + intros x Hx. destruct (Hoth x Hx) as (? & ? & ?). rewrite Sfr by done. by rewrite !lookup_insert_ne by done.
    + intros D1 d D2 ED. destruct D1 as [|? D1]; [|by destruct D1]. injection ED as <- <-. rewrite app_nil_r. by apply Hnd'.
  - rewrite Hperm in Hnd. by apply NoDup_app in Hnd as [Hnd _].
  - rewrite Str. split; [apply Htr|]. split; [|by rewrite <- Str]. destruct Htr as (_ & -> & _). by destruct C1.
Qed.

(** the loop, called when the leaf was merged away *)
Lemma merge_goes_up frs mid fuel :
  zip inner_at (sp_mem s0) C1 (a, Some u) ((b, w) :: C2) frs (sp_root s0) -> levels (a, Some u) frs = L ->
  Forall no_lone_pair L -> ik_stands X mid u -> latched nd nd' -> (size h2 <= fuel)%nat ->
  exists s' cur' h' ups' l,
    mc_shrink P fuel s a (Some b) false mid 0 (fr_p <$> frs) = Some (s', cur')
    /\ release (mem s') cur' = Some h'
    /\ standing (set_mem (spine_of s') h') m' C' ups'
    /\ C.*1 ++ addrs L ≡ₚ (C'.*1 ++ addrs ups') ++ omap id (Some b :: l)
    /\ mc_log P s' = mc_log P s ++ (mc_item P <$> Some b :: l) /\ mc_live P s' = mc_live P s
    /\ (length ups' <= length L)%nat.
Proof.
  intros Hz EL Hlone Hmid Hlk Hfuel. destruct merge_addresses as (Hab & HaL & HbL & _). pose proof (length_levels (a, Some u) frs) as ELf.
  destruct (shrink_spec frs s 0 C1 a u ((b, w) :: C2) [(a, Some u); (b, w)] [(a, w)] C2 (Some b) false mid nd nd' fuel)
    as (s' & cur' & h' & ups' & l & Hrun & Hul & Hsh); rewrite ?Es, ?EL; cbn [sp_mem sp_root sp_depth sp_track set_mem]; try done.
  - apply (zip_frame inner_at (sp_mem s0)); [|done]. rewrite EL. intros x Hx. rewrite !lookup_insert_ne; [done| |]; by intros <-.
  - by constructor.
  - apply Hs.
  - eapply ordered_merged, Hs.
  - by rewrite lookup_insert_ne, lookup_insert_eq.
  - apply NoDup_cons. split; [done|]. pose proof (st_nodup _ _ _ _ _ _ _ Hs) as Hnd. by apply NoDup_app in Hnd as (_ & _ & ?).
  - rewrite <- ELf, EL. apply Hs.
  - apply Hs.
  - pose proof (standing_size _ _ _ _ _ _ _ Hs) as Hsz. rewrite length_app in Hsz.
    pose proof (chain_levels _ _ _ _ _ (st_chain _ _ _ _ _ _ _ Hs)).
    enough (size (sp_mem s0) <= size h2)%nat by (rewrite <- ELf, EL; lia).
    rewrite !map_size_insert. repeat case_match; unfold id; lia.
  - rewrite EL in Hsh. destruct (standing_merge s' h' ups' l Hsh) as [Hst Hperm].
    exists s', cur', h', ups', l. do 4 (split; [done|]). split; [apply Hsh|]. split; apply Hsh.
Qed.
End merge.
End shrink.

(** no node of a tree that nothing was removed from has only one child *)
Lemma chain_no_lone {N} (X : ikind) (inj : ik_node X -> N) h ups : forall C root,
  chain (Cover.inner_at X inj true) h C ups root -> Forall no_lone_pair ups.
Proof.
  induction ups as [|G ups IH]; intros C root; [constructor|]. intros (_ & Hi & Hch). constructor; [|by eapply IH].
  intros G1 p x p2 b G2 EG. destruct (inner_at_wide _ _ _ _ _ _ (Hi G1 p [x] ((p2, [(b, None)]) :: G2) EG)) as [Hw _].
  cbn in Hw. lia.
Qed.

(** to have nodes removed a tree need not stay half full *)
Lemma standing_weaken {N W} (X : ikind) (inj : ik_node X -> N) grown
    (leaf_at : gmap Z N -> gmap Z W -> level -> entry -> ptr -> Prop) K s m C ups :
  standing (Cover.inner_at X inj grown) leaf_at K s m C ups -> standing (Cover.inner_at X inj false) leaf_at K s m C ups.
Proof.
  intros [Ho Hl Hch Hnd Hd Htr]. split; try done.
  clear - Hch. revert C Hch. generalize (sp_root s) as r. intros r. induction ups as [|G ups IH]; [done|].
  intros C (-> & Hi & Hch). split; [done|]. split; [|by apply IH].
  intros G1 p E G2 EG. by apply (inner_at_weaken _ _ grown), (Hi G1 p E G2 EG).
Qed.
