(* ===== verification/InnerKind.v ===== *)
(** * The inner nodes of integer keys, as a kind of inner nodes

    A separator of a node is the encoding of a key of type [T], [kFeatureSize] bytes that
    compare as the keys do ([Encode]), and stands for that key. With that the laws of
    [Cover] are what [InnerOps] and [InnerProps] prove; and the search of a node that
    links to a level finds the entry where a key is located. *)

From S2P Require Import Prelude Bits Simd Strings Encode Control Leaf LeafSpec Inner InnerSpec Moves InnerOps InnerProps Levels Growth Words Cover.

(** ** Keys and their encoding *)

Section keys.
Context (T : ktype).

Definition enc (k : Z) : list Z := key_bytes T (encode_convert T k).

Lemma enc_bytes k : Forall is_byte (enc k).
Proof. apply encode_length. Qed.

Lemma enc_length k : Z.of_nat (length (enc k)) = Inner.kFeatureSize T.
Proof. unfold enc. rewrite (proj1 (encode_length T _)). done. Qed.

Lemma enc_lt a b : in_range T a -> in_range T b -> key_lt (enc a) (enc b) <-> a < b.
Proof.
  intros Ha Hb. unfold key_lt, key_cmp, enc. pose proof (encode_cmp T a b Ha Hb) as E.
  unfold features_of in E. by rewrite E, Z.compare_lt_iff.
Qed.
End keys.

(** ** The kind *)

Section kind.
Context (T : ktype).

Definition int_inner : ikind := {|
  ik_node := inode; ik_sep := list Z; ik_raw := Inner.raw;
  ik_knum := knum; ik_route := route; ik_next := next_; ik_word := icontrol; ik_with := Inner.set_control;
  ik_wf := inode_wf T;
  ik_stands mid z := mid = enc T z /\ in_range T z;
  ik_key := in_range T;
  ik_raw_ok := raw_ok T; ik_new := Inner.InnerNode;
  ik_insert n mid l r index rnode rw :=
    (fun x => (Inner.i_this x, Inner.i_rnode x)) <$> Inner.insert T n l r mid index rnode rw;
  ik_remove mem this n mid index :=
    (fun x => mkRemoval (Inner.d_this x) (Inner.d_rnode x) (Inner.d_merged x) (Inner.d_up x) (Inner.d_mid x))
    <$> Inner.remove T mem this n mid index;
  ik_update := Inner.anchor_update T;
|}.

Lemma sep_key_lt a b : sep_lt int_inner a b -> key_lt a b.
Proof. intros (u & v & [-> Hu] & [-> Hv] & Hlt). by apply enc_lt. Qed.

Lemma insert_at_key n seps mid index : insert_at int_inner n seps mid index -> InnerOps.insert_at T n seps mid index.
Proof.
  intros [Hi [z [-> _]] Hlt Hgt]. split; [done|apply enc_bytes|apply enc_length| |]; intros j Hj; apply sep_key_lt; auto.
Qed.

Lemma right_sibling_key mem n k seps ra rn g rseps :
  right_sibling int_inner mem n k seps ra rn g rseps -> InnerOps.right_sibling T mem n k seps ra rn g rseps.
Proof. intros [H1 H2 H3 H4 H5 H6]. split; try done. intros i j Hi Hj. by apply sep_key_lt, H6. Qed.

#[export] Instance int_inner_ok : IkindOk int_inner.
Proof.
  split; cbn [ik_node ik_sep ik_raw ik_knum ik_route ik_next ik_word ik_with ik_wf ik_stands ik_key ik_raw_ok ik_new
              ik_insert ik_remove ik_update int_inner].
  - intros n f seps [Hs _ _ _ _ _]. apply (sh_knum T n Hs).
  - intros n. unfold route. by rewrite Z.eqb_refl.
  - by intros n f seps [].
  - intros n f seps g [Hs Hq Hw Hv Hl He] Hg Hlg. split; [|done]. split; try done; [by destruct Hs|by destruct Hq].
  - by intros m z [_ ?].
  - intros rw seps Hrw. split; [|done]. destruct (InnerNode_wf T rw Hrw) as [Hs Hq Hw Hv Hl He].
    split; try done. split; cbn; intros; lia.
  - intros n f seps l r mid index rnode rw Hwf Hroom Hat%insert_at_key Hrw Hl Hr Hleft.
    destruct (insert_room T n f seps l r mid index rnode rw Hwf Hroom Hat Hl Hr Hleft) as (n' & -> & H). by exists n'.
  - intros n f seps l r mid index rnode rw Hwf Hfull Hat%insert_at_key Hrw Hl Hr Hleft.
    destruct (insert_split T n f seps l r mid index rnode rw Hwf Hfull Hat Hrw Hl Hr Hleft) as (n' & rn & c & -> & [Hc]).
    pose proof (split_count_range index) as Hr2. destruct Hat as [Hidx]. rewrite Hfull in Hidx.
    exists n', rn, c. split; [done|]. split; try done; rewrite Hc; by apply Hr2.
  - intros mem this n f seps mid index ra rn g rseps Hwf Hi Hsib.
    destruct (remove_spec T mem this n f seps mid index ra rn g rseps Hwf Hi) as (r & -> & Hup & Hr);
      [intros Hs; by apply right_sibling_key, Hsib|].
    eexists. split; [done|]. unfold removed_inside. cbn [rm_this rm_rnode rm_merged rm_up rm_mid ik_wf ik_knum ik_route int_inner].
    split; [done|]. destruct (Control.f_sibling f && _) eqn:Em; [right|left].
    + apply andb_true_iff in Em as [Es _]. destruct Hr as (H1 & H2 & H3 & H4 & H5 & rn' & H6 & _).
      replace (knum n - 1 - 1) with (knum n - 2) by lia. naive_solver.
    + destruct Hr as (H1 & H2 & H3 & H4 & H5 & H6). rewrite H2 in H3. done.
  - intros mem this n f seps mid index ra rn g rseps Hwf Hi Ei Hsib.
    destruct (remove_last_spec T mem this n f seps mid index ra rn g rseps Hwf Hi Ei) as (r & -> & Hr).
    { intros Hs. destruct (Hsib Hs) as [H1 H2]. split; [by apply right_sibling_key|done]. }
    eexists. split; [done|]. unfold removed_last. cbn [rm_this rm_rnode rm_merged rm_up rm_mid ik_wf ik_knum ik_route ik_next int_inner].
    destruct (Control.f_sibling f) eqn:Es; cbn [negb] in Hr; [right|left; naive_solver].
    destruct (_ || _) eqn:Em; [left|right].
    + destruct Hr as (H1 & H2 & H3 & H4 & H5 & H6 & rn' & H7 & _). naive_solver.
    + destruct (Hsib eq_refl) as [[_ _ [Hrn _ _ _ _ _] _ _ _] _]. pose proof (sh_knum _ _ Hrn).
      rewrite !orb_false_iff in Em. destruct Em as (((E1 & E2) & E3) & E4).
      destruct Hr as (H1 & H2 & H3 & H4 & H5 & H6 & H7 & H8).
      split; [done|]. split; [lia|]. split; [lia|]. naive_solver.
  - intros n f seps mid index Hwf Hi [z [-> _]] Hlt Hgt.
    destruct (anchor_update_spec T n f seps (enc T z) index Hwf Hi) as (n' & E & H);
      [apply enc_bytes|apply enc_length| | |by exists n']; intros j Hj; apply sep_key_lt; auto.
Qed.
End kind.

(** ** The search of a node that links to a level *)

Section search.
Context (T : ktype) (grown : bool).
Context n f seps E nx (Hc : covers (int_inner T) grown n f seps E nx) (Ho : ordered (in_range T) E).

Lemma covers_ilinked : linked n.
Proof.
  destruct (covers_linked _ _ n f seps E nx Hc) as [H1 H2]. split; [|done]. intros j Hj.
  destruct (H1 j) as [a Ha]; [cbn; lia|]. cbn in Ha. unfold route in Ha.
  replace (j =? knum n) with false in Ha by blia. by exists a.
Qed.

Lemma covers_lower_bound E1 e E2 key :
  E = E1 ++ e :: E2 -> located E1 e key -> in_range T key ->
  lower_bound n seps (enc T key) (Z.of_nat (length E1)).
Proof.
  intros HE Hloc Hkey. destruct (covers_place _ _ n f seps E nx Hc E1 e E2 key Ho HE Hloc) as (Hk & Hlt & Hge).
  split; [cbn in *; lia|]. split.
  - intros j Hj. destruct (Hlt j Hj) as (u & [-> Ht] & Hu). by apply enc_lt.
  - intros j Hj. destruct (Hge j Hj) as (u & [-> Ht] & Hu). by rewrite enc_lt.
Qed.

Lemma covers_to_next E1 e E2 key :
  Control.f_locked f = false -> E = E1 ++ e :: E2 -> located E1 e key -> in_range T key ->
  Inner.to_next T n (enc T key) = Some (false, Some e.1).
Proof.
  intros Hl HE Hloc Hkey.
  destruct (to_next_spec T n f seps (enc T key)) as (idx & next & Hlb & Hr & ->);
    [apply Hc|done|apply Hc|apply covers_ilinked|apply enc_bytes|apply enc_length|].
  rewrite (lower_bound_unique n _ _ _ _ Hlb (covers_lower_bound E1 e E2 key HE Hloc Hkey)) in Hr |- *.
  pose proof (covers_child _ _ n f seps E nx Hc E1 e E2 HE) as Hch. cbn in Hch. rewrite Hch.
  rewrite (covers_route _ _ n f seps E nx Hc _ e) in Hr; [by injection Hr as <-|].
  rewrite HE. by apply list_lookup_middle.
Qed.

Lemma covers_index E1 e E2 key :
  E = E1 ++ e :: E2 -> located E1 e key -> in_range T key ->
  Inner.index_or_sibling T n (enc T key) = Some (inl (Z.of_nat (length E1))).
Proof.
  intros HE Hloc Hkey.
  destruct (index_or_sibling_spec T n f seps (enc T key)) as (idx & Hlb & ->);
    [apply Hc|apply Hc|intros _; apply covers_ilinked|apply enc_bytes|apply enc_length|].
  rewrite (lower_bound_unique n _ _ _ _ Hlb (covers_lower_bound E1 e E2 key HE Hloc Hkey)).
  pose proof (covers_child _ _ n f seps E nx Hc E1 e E2 HE) as Hch. cbn in Hch.
  rewrite <- andb_assoc, (andb_comm (negb _)), andb_assoc, Hch. done.
Qed.
End search.
