(* ===== verification/LeafPart.v ===== *)
(** * A leaf and its part of the map

    A tree keeps its map in the leaves: each has the pairs whose keys are located there.
    This is said for any kind of key that a leaf can be used with ([kcode]): FB+-tree with
    integer keys and FB+-tree with string keys share it. *)

From S2P Require Import Prelude Bits Encode Control Leaf LeafSpec Levels.

Section part.
Context {V : Type} (T : kcode) {HT : CodeOk T}.
Implicit Types (n : leaf V) (m : gmap Z (kvpair V)) (C : level) (kv : kvpair V).

(** [n] holds the pairs of [m] whose keys are located at [e]; only the rightmost leaf can
    be empty *)
Record leaf_holds (n : leaf V) (f : Control.fields) m (C1 : level) (e : entry) (nx : ptr) : Prop := {
  lh_wf : leaf_wf T n f;
  lh_del : Control.f_deleted f = false;
  lh_sib : Control.f_sibling f = bool_decide (is_Some e.2);
  lh_high u : e.2 = Some u -> high_key_ n = u /\ sibling_ n = nx /\ is_Some nx;
  lh_has kv : has n kv <-> m !! kv_key kv = Some kv /\ located C1 e (kv_key kv);
  lh_filled : is_Some e.2 -> exists kv, has n kv;
}.

Definition keyed m : Prop := forall k kv, m !! k = Some kv -> kv_key kv = k.

Lemma leaf_holds_content (n : leaf V) f m C1 e nx key :
  leaf_holds n f m C1 e nx -> keyed m -> located C1 e key -> content n !! key = m !! key.
Proof.
  intros Hl Hm Hloc. pose proof (wf_body T n f (lh_wf _ _ _ _ _ _ Hl)) as Hb. apply option_eq. intros kv.
  rewrite (content_lookup T) by done. rewrite (lh_has _ _ _ _ _ _ Hl). split.
  - intros [<- [? _]]. done.
  - intros Hkv. pose proof (Hm _ _ Hkv) as <-. done.
Qed.

(** a key that is not past the bound is not for the sibling *)
Lemma leaf_stays (n : leaf V) f m C1 e nx key :
  leaf_holds n f m C1 e nx -> ~ below key e -> Leaf.to_sibling n key = Some None.
Proof.
  intros Hl Hn. destruct (lh_wf _ _ _ _ _ _ Hl) as [_ Hw Hv _ _ _ _].
  unfold Leaf.to_sibling. destruct (reads n f Hv Hw) as (_ & -> & -> & _).
  rewrite (lh_del _ _ _ _ _ _ Hl), (lh_sib _ _ _ _ _ _ Hl). unfold below in Hn.
  destruct e.2 as [u|] eqn:Eu; [|done]. rewrite bool_decide_true by eauto.
  destruct (lh_high _ _ _ _ _ _ Hl u Eu) as [-> _]. by bfalse (u <? key).
Qed.

Lemma leaf_holds_stays (n : leaf V) f m C1 e nx key :
  leaf_holds n f m C1 e nx -> located C1 e key -> Leaf.to_sibling n key = Some None.
Proof. intros Hl [_ Hn]. by eapply leaf_stays. Qed.

(** only the keys that are located there matter *)
Lemma leaf_holds_ext n f m m' C1 C1' e nx :
  (forall k, Forall (below k) C1' <-> Forall (below k) C1) -> (forall k, located C1 e k -> m' !! k = m !! k) ->
  leaf_holds n f m C1 e nx -> leaf_holds n f m' C1' e nx.
Proof.
  intros Hb Hm [H1 H2 H3 H4 H5 H6]. split; try done. intros kv. rewrite H5. unfold located. rewrite Hb.
  apply and_iff_compat_r_iff. intros Hloc. by rewrite Hm.
Qed.

Lemma leaf_holds_store (n n' : leaf V) f f' m C1 e nx kv :
  leaf_holds n f m C1 e nx -> keyed m -> located C1 e (kv_key kv) ->
  leaf_wf T n' f' -> Control.f_deleted f' = Control.f_deleted f -> Control.f_sibling f' = Control.f_sibling f ->
  high_key_ n' = high_key_ n -> sibling_ n' = sibling_ n ->
  (forall x, has n' x <-> x = kv \/ (has n x /\ kv_key x <> kv_key kv)) ->
  leaf_holds n' f' (<[kv_key kv := kv]> m) C1 e nx.
Proof.
  intros [Hwf Hdel Hsib Hhigh Hhas _] Hm Hloc Hwf' Ed Es Eh Ei Hx.
  split; [done|congruence|congruence| | |intros _; exists kv; apply Hx; by left].
  - intros u Hu. rewrite Eh, Ei. by apply Hhigh.
  - intros x. rewrite Hx, Hhas. split.
    + intros [->|[[Hmx Hl] Hne]]; [by rewrite lookup_insert_eq|]. by rewrite lookup_insert_ne.
    + intros [E Hl]. destruct (decide (kv_key x = kv_key kv)) as [Ek|Ek].
      * rewrite Ek, lookup_insert_eq in E. left. congruence.
      * rewrite lookup_insert_ne in E by done. by right.
Qed.

(** another word, of the same meaning to the readers *)
Lemma leaf_holds_word n f g m C1 e nx :
  leaf_holds n f m C1 e nx -> Control.valid g -> Control.f_leaf g = Control.f_leaf f ->
  Control.f_deleted g = Control.f_deleted f -> Control.f_sibling g = Control.f_sibling f ->
  Control.f_ordered g = Control.f_ordered f ->
  leaf_holds (Leaf.set_control n (Control.encode g)) g m C1 e nx.
Proof.
  intros [[Hb Hw Hv Hl Hh Hbd Ho] Hdel Hsib Hhigh Hhas Hne] Hg El Ed Es Eo. split; try done; try congruence.
  split; try done; try congruence.
  - destruct Hb. by split.
  - rewrite Es. apply Hbd.
  - rewrite Eo. apply Ho.
Qed.

(** taking and leaving the latch *)
Lemma leaf_holds_lock n f m C1 e nx b :
  leaf_holds n f m C1 e nx ->
  leaf_holds (Leaf.set_control n (Control.encode (Control.with_locked f b))) (Control.with_locked f b) m C1 e nx.
Proof. intros Hl. apply (leaf_holds_word n f); try done. by destruct (lh_wf _ _ _ _ _ _ Hl). Qed.

(** what the two leaves of a split hold *)
Lemma split_holds m C1 a u nx (n n' rn' : leaf V) f g gr b kv :
  leaf_holds n f m C1 (a, u) nx -> keyed m -> m !! kv_key kv = None -> located C1 (a, u) (kv_key kv) ->
  leaf_wf T n' g -> leaf_wf T rn' gr ->
  Control.f_deleted g = false -> Control.f_deleted gr = false -> Control.f_sibling g = true ->
  Control.f_sibling gr = Control.f_sibling f ->
  (forall x, has n' x <-> (x = kv \/ has n x) /\ kv_key x <= high_key_ n') ->
  (forall x, has rn' x <-> (x = kv \/ has n x) /\ high_key_ n' < kv_key x) ->
  sibling_ n' = Some b ->
  (Control.f_sibling f = true -> sibling_ rn' = sibling_ n /\ high_key_ rn' = high_key_ n) ->
  (exists x, has rn' x) -> (exists x, has n' x) ->
  let mid := high_key_ n' in
  (forall w, u = Some w -> mid < w)
  /\ leaf_holds n' g (<[kv_key kv := kv]> m) C1 (a, Some mid) (Some b)
  /\ leaf_holds rn' gr (<[kv_key kv := kv]> m) (C1 ++ [(a, Some mid)]) (b, u) nx.
Proof.
  intros [Hwf Hdel Hsib Hhigh Hhas _] Hkey Hnone Hloc Hwf' Hwfr Hd Hdr Hsg Hsgr Hn' Hrn' Hb Hsr [x0 Hx0] Hne' mid.
  assert (forall x, x = kv \/ has n x <-> <[kv_key kv := kv]> m !! kv_key x = Some x /\ located C1 (a, u) (kv_key x)) as Hall.
  { intros x. rewrite Hhas. destruct (decide (kv_key x = kv_key kv)) as [E|E].
    - rewrite E, lookup_insert_eq. split.
      + intros [->|[Hx _]]; [done|]. congruence.
      + intros [[= <-] _]. by left.
    - rewrite lookup_insert_ne by done. naive_solver. }
  assert (forall w, u = Some w -> mid < w) as Hmid.
  { intros w ->. apply Hrn' in Hx0 as [Hx0 Hlt]. apply Hall in Hx0 as [_ [_ Hn]]. unfold below in Hn. cbn in Hn. lia. }
  split; [done|]. split; split; try done.
  - cbn. intros w [= <-]. split; [done|]. split; [done|by eexists].
  - intros x. rewrite Hn', Hall. fold mid. unfold located, below. cbn. split.
    + intros [[Hx [Hf _]] Hle]. split; [done|]. split; [done|lia].
    + intros [Hx [Hf Hle]]. split; [|lia]. split; [done|]. split; [done|]. destruct u as [w|]; [|by intros []].
      specialize (Hmid w eq_refl). lia.
  - by rewrite Hsgr, Hsib.
  - intros w Hw. cbn in Hw. destruct (Hhigh w Hw) as (<- & <- & ?).
    destruct Hsr as [-> ->]; [by rewrite Hsib, bool_decide_true by eauto|done].
  - intros x. rewrite Hrn', Hall. fold mid. unfold located. rewrite Forall_app, Forall_singleton. unfold below. cbn. naive_solver.
  - intros _. by exists x0.
Qed.

(** a map that differs from another in the keys of one place only *)
Lemma insert_elsewhere (m : gmap Z (kvpair V)) C1 e kv k :
  located C1 e (kv_key kv) -> ~ Forall (below k) C1 \/ below k e -> <[kv_key kv := kv]> m !! k = m !! k.
Proof. intros [Hf Hn] Hk. apply lookup_insert_ne. intros <-. naive_solver. Qed.

(** ** A pair less *)

(** a leaf of more than one pair has a pair of another key *)
Lemma has_another n kv : body_wf T n -> has n kv -> popcount 64 (bitmap_ n) <> 1 -> exists x, has n x /\ kv_key x <> kv_key kv.
Proof.
  intros Hn (i & Hu & Hk) Hp. rewrite popcount_set_bits in Hp by apply Hn.
  assert (i ∈ set_bits (bitmap_ n)) as Hi by (apply elem_of_set_bits; split; [by eapply used_range; [apply Hn|]|done]).
  apply list_elem_of_split in Hi as (l1 & l2 & El). pose proof (NoDup_set_bits (bitmap_ n)) as Hnd. rewrite El in Hnd, Hp.
  assert (exists j, j ∈ l1 ++ l2) as [j Hj].
  { destruct (l1 ++ l2) as [|j l] eqn:E; [|exists j; by left]. apply app_eq_nil in E as [-> ->]. done. }
  apply NoDup_app in Hnd as (_ & H1 & [H2 _]%NoDup_cons).
  assert (j <> i) as Hji. { intros ->. apply elem_of_app in Hj as [Hj|Hj]; [|done]. apply (H1 i Hj). by left. }
  assert (used n j) as Huj.
  { apply (elem_of_set_bits (bitmap_ n) j). rewrite El. apply elem_of_app in Hj as [?|?]; apply elem_of_app; [by left|right; by right]. }
  destruct (wf_used T n Hn j Huj) as (x & Hx & _). exists x. split; [by exists j|]. intros Ek. by apply Hji, (wf_distinct T n Hn j i x kv).
Qed.

Lemma delete_elsewhere m C1 e key k : located C1 e key -> ~ Forall (below k) C1 \/ below k e -> delete key m !! k = m !! k.
Proof. intros [Hf Hn] Hk. apply lookup_delete_ne. intros <-. naive_solver. Qed.

(** a pair less in the leaf, and in the map *)
Lemma leaf_holds_delete n n' f f' m C1 e nx key :
  leaf_holds n f m C1 e nx -> located C1 e key ->
  leaf_wf T n' f' -> Control.f_deleted f' = Control.f_deleted f -> Control.f_sibling f' = Control.f_sibling f ->
  high_key_ n' = high_key_ n -> sibling_ n' = sibling_ n ->
  (forall x, has n' x <-> has n x /\ kv_key x <> key) -> (is_Some e.2 -> exists x, has n' x) ->
  leaf_holds n' f' (delete key m) C1 e nx.
Proof.
  intros [Hwf Hdel Hsib Hhigh Hhas _] Hloc Hwf' Ed Es Eh Ei Hx Hne.
  split; [done|congruence|congruence| | |done].
  - intros u Hu. rewrite Eh, Ei. by apply Hhigh.
  - intros x. rewrite Hx, Hhas, lookup_delete_Some. naive_solver.
Qed.

(** the pairs of two leaves, but one *)
Lemma leaf_holds_join n n' rn f f' g m C1 a s b w nx key :
  leaf_holds n f m C1 (a, Some s) (Some b) -> leaf_holds rn g m (C1 ++ [(a, Some s)]) (b, w) nx ->
  located C1 (a, Some s) key -> (forall v, w = Some v -> s < v) ->
  leaf_wf T n' f' -> Control.f_deleted f' = false -> Control.f_sibling f' = Control.f_sibling g ->
  high_key_ n' = high_key_ rn -> sibling_ n' = sibling_ rn ->
  (forall x, has n' x <-> (has n x /\ kv_key x <> key) \/ has rn x) ->
  leaf_holds n' f' (delete key m) C1 (a, w) nx.
Proof.
  intros [_ _ _ _ Hhas _] [_ _ Hsib Hhigh Hhasr Hne] [_ Hkey] Hw Hwf' Hd Es Eh Ei Hx. unfold below in Hkey. cbn in Hkey.
  split; [done|done|by rewrite Es, Hsib| | |].
  - intros u Hu. rewrite Eh, Ei. by apply Hhigh.
  - intros x. rewrite Hx, Hhas, Hhasr, lookup_delete_Some. unfold located. rewrite Forall_app, Forall_singleton. unfold below. cbn.
    destruct w as [v|]; [specialize (Hw v eq_refl)|]; (destruct (decide (s < kv_key x)); naive_solver lia).
  - intros Hs. destruct (Hne Hs) as [x Hxr]. exists x. apply Hx. by right.
Qed.
(** the leaf to the right, as [remove] of the leaf sees it *)
Lemma leaf_holds_sibling mem n f rn g m C1 a s b w nx :
  leaf_holds n f m C1 (a, Some s) (Some b) -> leaf_holds rn g m (C1 ++ [(a, Some s)]) (b, w) nx ->
  mem b = Some rn -> Control.f_locked g = false -> (forall v, w = Some v -> s < v) -> sibling_ok T mem n b rn g.
Proof.
  intros Hh Hhr Hb Hlk Hsw. destruct (lh_high _ _ _ _ _ _ Hh s eq_refl) as (Ehigh & Esib & _).
  split; [done|done|apply Hhr|done|apply Hhr| |].
  - intros x Hx. apply (lh_has _ _ _ _ _ _ Hhr) in Hx as [_ [Hx _]]. rewrite Forall_app, Forall_singleton in Hx.
    destruct Hx as [_ Hx]. unfold below in Hx. cbn in Hx. by rewrite Ehigh.
  - rewrite Ehigh, (lh_sib _ _ _ _ _ _ Hhr). cbn. destruct w as [v|]; [left|by right].
    destruct (lh_high _ _ _ _ _ _ Hhr v eq_refl) as (-> & _). specialize (Hsw v eq_refl). lia.
Qed.
End part.
