(* ===== verification/Scan.v ===== *)
(** * Ordered access to a tree

    How an iterator goes through the leaves of a tree of levels: it stands at a pair of a
    sorted leaf, and goes from pair to pair by increasing key. The leaf is one of any kind
    of key ([kcode]), and the program is seen through an interface ([Scanning]): FB+-tree
    has one for integer keys and another for string keys. *)

From S2P Require Import Prelude Bits Simd Encode Control Leaf LeafSpec Levels Growth LeafPart.

(** ** One leaf *)

Section leaf.
Context {V : Type} (T : kcode) {HT : CodeOk T}.
Implicit Types (n : leaf V) (kv : kvpair V) (P : Z -> Prop).

Lemma version_locked f b :
  Control.valid f ->
  Control.load_version (Control.encode (Control.with_locked f b)) = Control.load_version (Control.encode f).
Proof. intros Hv. unfold Control.load_version. by rewrite !Control.encode_ver. Qed.

Lemma access_pos_eq n pos :
  body_wf T n -> Leaf.access_pos T n pos = Some (entry_at n pos).
Proof.
  intros Hn. pose proof (wf_kvs T n Hn) as Hlen. unfold Leaf.access_pos, entry_at.
  unfold Leaf.kNodeSize. rewrite code_size.
  destruct ((pos <? 0) || (64 <=? pos)) eqn:Er.
  { unfold aget. destruct (pos <? 0) eqn:E0; [done|]. cbn in Er. by rewrite lookup_ge_None_2 by blia. }
  assert (Z.land (Z.shiftl 1 pos) (bitmap_ n) = 0 <-> ~ used n pos) as Hz.
  { unfold used. split.
    - intros Hz. rewrite <- (Z.land_0_l (bitmap_ n)) in Hz. apply (f_equal (fun z => Z.testbit z pos)) in Hz.
      rewrite Z.land_spec, Z.shiftl_spec, Z.sub_diag, Z.land_0_l, Z.bits_0 in Hz by blia. cbn in Hz. congruence.
    - intros Hu. apply Z.bits_inj_0. intros i. rewrite Z.land_spec. destruct (decide (i = pos)) as [->|Hi].
      + apply not_true_is_false in Hu. by rewrite Hu, andb_false_r.
      + rewrite Z.shiftl_1_l, Z.pow2_bits_false by done. done. }
  destruct (Z.land _ _ =? 0) eqn:E.
  - apply Z.eqb_eq, Hz in E. destruct (aget (kvs_ n) pos) as [[]|] eqn:Ek; try done. by apply (wf_free T n Hn) in Ek.
  - assert (used n pos) as Hu by (destruct (decide (used n pos)); [done|]; apply Hz in n0; blia).
    destruct (wf_used T n Hn pos Hu) as (kv & Hk & _). unfold kv_at in Hk. unfold Leaf.load_kv. by rewrite Hk.
Qed.

(** the least pair of the leaf whose key is in [P] *)
Definition leaf_first n P (o : option (kvpair V)) : Prop :=
  match o with
  | Some kv => has n kv /\ P (kv_key kv) /\ (forall x, has n x -> P (kv_key x) -> kv_key kv <= kv_key x)
  | None => forall x, has n x -> ~ P (kv_key x)
  end.

Lemma sorted_pos n : sorted_slots n -> exists m, 0 <= m <= 64 /\ forall i, used n i <-> 0 <= i < m.
Proof. intros [(m & Hm & Ho) _]. exists m. split; [done|]. intros i. by apply ordered_used. Qed.

(** the first slot of a sorted leaf, and the slot after a pair *)
Lemma slot_first n P pos :
  body_wf T n -> sorted_slots n ->
  (forall i kv, used n i -> kv_at n i kv -> P (kv_key kv) <-> pos <= i) -> 0 <= pos ->
  leaf_first n P (entry_at n pos).
Proof.
  intros Hn Hs HP Hpos. destruct (sorted_pos n Hs) as (m & Hm & Hu). destruct Hs as [_ Hinc].
  destruct (entry_at n pos) as [kv|] eqn:E.
  - apply entry_at_Some in E. assert (used n pos) as Hup.
    { destruct (decide (used n pos)) as [|Hnu]; [done|]. by destruct (wf_free T n Hn pos kv Hnu). }
    split; [by exists pos|]. split; [by apply (HP pos)|]. intros x (j & Hj & Hx) HPx. apply (HP j) in HPx; [|done..].
    destruct (decide (j = pos)) as [->|]; [rewrite (kv_at_inj n pos x kv); done|].
    pose proof (Hinc pos j kv x ltac:(lia) Hup Hj E Hx). lia.
  - intros x (j & Hj & Hx) HPx. apply (HP j) in HPx; [|done..]. apply Hu in Hj.
    destruct (wf_used T n Hn pos) as (kv & Hk & _); [apply Hu; lia|]. apply entry_at_Some in Hk. congruence.
Qed.

Lemma slot_next n i kv :
  body_wf T n -> sorted_slots n -> used n i -> kv_at n i kv ->
  leaf_first n (fun k => kv_key kv < k) (entry_at n (i + 1)).
Proof.
  intros Hn Hs Hi Hk. pose proof (used_range n i (wf_bm T n Hn) Hi). apply slot_first; [done|done| |lia]. intros j x Hj Hx.
  destruct Hs as [(m & Hm & Ho) Hinc]. pose proof (ordered_le n Hinc i j kv x Hi Hj Hk Hx).
  pose proof (ordered_le n Hinc j i x kv Hj Hi Hx Hk). lia.
Qed.

(** sorting a leaf under its latch *)
Record sorts n (f : Control.fields) n' (f' : Control.fields) : Prop := {
  so_wf : leaf_wf T n' f';
  so_ordered : Control.f_ordered f' = true;
  so_flags : Control.f_deleted f' = Control.f_deleted f /\ Control.f_sibling f' = Control.f_sibling f
    /\ Control.f_splitting f' = Control.f_splitting f;
  so_has x : has n' x <-> has n x;
  so_links : high_key_ n' = high_key_ n /\ sibling_ n' = sibling_ n;
}.

Lemma set_locked_wf n f b :
  leaf_wf T n f ->
  leaf_wf T (Leaf.set_control n (Control.encode (Control.with_locked f b))) (Control.with_locked f b).
Proof. intros [Hb ? ? ? ? ? ?]. split; try done. by destruct Hb. Qed.

Lemma sort_latched n f raw :
  leaf_wf T n f -> length raw = 64%nat -> Forall is_byte raw ->
  exists n2 f2, Leaf.kv_sort T (Leaf.set_control n (Control.encode (Control.with_locked f true))) raw = Some n2
    /\ Control.f_locked f2 = true /\ sorts n f n2 f2.
Proof.
  intros Hwf Hl Hb. destruct (kv_sort_spec T _ _ raw (set_locked_wf n f true Hwf) Hl Hb) as (n2 & -> & Hw2 & Hh & ? & ?).
  exists n2, (sorted_fields (Control.with_locked f true)). split; [done|]. unfold sorted_fields in *. cbn [Control.f_ordered Control.with_locked] in *.
  destruct (Control.f_ordered f) eqn:Eo; (split; [done|]; split; done).
Qed.

(** [sorts], and the latch given back *)
Lemma sorts_unlock n f n2 f2 :
  sorts n f n2 f2 ->
  sorts n f (Leaf.set_control n2 (Control.encode (Control.with_locked f2 false))) (Control.with_locked f2 false).
Proof. intros [H1 ? ? ? ?]. split; try done. by apply set_locked_wf. Qed.

Lemma sorts_refl n f : leaf_wf T n f -> Control.f_ordered f = true -> sorts n f n f.
Proof. done. Qed.
(** [access] of the first slot sorts the leaf, if it has to *)
Lemma access_slot n f raw :
  leaf_wf T n f -> Control.f_locked f = false -> length raw = 64%nat -> Forall is_byte raw ->
  exists n' f', Leaf.access T n None 0 (Control.load_version (Control.encode f)) raw
      = Some (entry_at n' 0, 0, Control.load_version (Control.encode f'), n')
    /\ sorts n f n' f' /\ Control.f_locked f' = false.
Proof.
  intros Hwf Hlk Hl Hr. pose proof Hwf as [Hb Hw Hv _ _ _ _]. unfold Leaf.access.
  destruct (reads n f Hv Hw) as (-> & _). destruct (Control.f_ordered f) eqn:Eo.
  - rewrite (access_pos_eq n 0 Hb), bind_Some, Hw, Control.end_read_encode, bind_Some by done.
    exists n, f. split; [done|]. by split; [apply sorts_refl|].
  - rewrite (latch_exclusive_eq n f), bind_Some by done.
    destruct (sort_latched n f raw Hwf Hl Hr) as (n2 & f2 & -> & Hl2 & Hs2).
    destruct (so_wf _ _ _ _ Hs2) as [Hb2 Hw2 Hv2 _ _ _ _]. rewrite bind_Some, (access_pos_eq n2 0 Hb2), !bind_Some.
    rewrite (unlatch_eq n2 f2), bind_Some by done. eexists _, _. split; [|split; [by apply sorts_unlock|done]].
    by rewrite Hw2, version_locked.
Qed.

(** ... of a slot of a sorted leaf reads it *)
Lemma access_after n f x i raw :
  leaf_wf T n f -> Control.f_locked f = false -> Control.f_ordered f = true ->
  Leaf.access T n x i (Control.load_version (Control.encode f)) raw
    = Some (entry_at n i, i, Control.load_version (Control.encode f), n).
Proof.
  intros [Hb Hw Hv _ _ _ _] Hlk Ho. unfold Leaf.access. destruct (reads n f Hv Hw) as (-> & _).
  by rewrite Ho, (access_pos_eq n i Hb), bind_Some, Hw, Control.end_read_encode, bind_Some.
Qed.

Lemma entry_used n i kv : body_wf T n -> entry_at n i = Some kv -> used n i /\ kv_at n i kv.
Proof.
  intros Hn Hk%entry_at_Some. split; [|done]. destruct (decide (used n i)) as [|Hnu]; [done|].
  by destruct (wf_free T n Hn i kv Hnu).
Qed.

Lemma bound_ok n f key upper :
  leaf_wf T n f -> Control.f_ordered f = true -> (upper = true -> content n !! key = None) ->
  exists o pos, Leaf.bound T n key upper = Some (o, pos) /\ leaf_first n (above upper key) o
    /\ (forall kv, o = Some kv -> used n pos /\ kv_at n pos kv).
Proof.
  intros Hwf Ho Hc. pose proof (wf_body T n f Hwf) as Hn. destruct (wf_ordered T n f Hwf Ho) as [(b & Hb & Hones) Hinc].
  assert (exists o pos, Leaf.bound T n key upper = Some (o, pos) /\ is_bound n key upper o
    /\ (forall kv, o = Some kv -> kv_at n pos kv)) as (o & pos & -> & Hob & Hk).
  { destruct upper; [by apply (bound_miss T n b); [..|apply Hc]|by apply (bound_lower T n b)]. }
  exists o, pos. split; [done|]. split; [done|]. intros kv E. apply (entry_used n pos kv Hn), entry_at_Some. by apply Hk.
Qed.

End leaf.

(** ** The map, and one leaf's part of it *)

Section part.
Context {V : Type} (T : kcode) {HT : CodeOk T}.
Implicit Types (m : gmap Z (kvpair V)) (C : level) (kv : kvpair V) (n : leaf V) (P : Z -> Prop).
Abbreviation leaf_holds := (leaf_holds T).
Abbreviation sorts := (sorts T).

(** the least pair of the map whose key is in [P] *)
Definition first_of m P (o : option (kvpair V)) : Prop :=
  match o with
  | Some kv => m !! kv_key kv = Some kv /\ P (kv_key kv) /\ (forall k x, m !! k = Some x -> P k -> kv_key kv <= k)
  | None => forall k x, m !! k = Some x -> ~ P k
  end.

(** [P] starts in [e], or after: its first pair in [e], if any, is the first *)
Lemma first_in_leaf m C1 e nx n f P o :
  leaf_holds n f m C1 e nx -> keyed m -> leaf_first n P o ->
  (forall k x, m !! k = Some x -> P k -> Forall (below k) C1) ->
  match o with
  | Some kv => first_of m P (Some kv)
  | None => (e.2 = None -> first_of m P None) /\ (forall k x, m !! k = Some x -> P k -> Forall (below k) (C1 ++ [e]))
  end.
Proof.
  intros Hh Hkey Ho HP. destruct o as [kv|].
  - destruct Ho as (Hkv & HPkv & Hmin). apply (lh_has _ _ _ _ _ _ _ Hh) in Hkv as [Hmk [_ Hn]]. split; [done|]. split; [done|].
    intros k x Hx HPk. pose proof (Hkey k x Hx) as <-. destruct (decide (below (kv_key x) e)) as [Hb|Hb].
    + unfold below in *. destruct e.2; [lia|done].
    + apply Hmin; [|done]. apply (lh_has _ _ _ _ _ _ _ Hh). split; [done|]. split; [by eapply HP|done].
  - assert (forall k x, m !! k = Some x -> P k -> below k e) as Hb.
    { intros k x Hx HPk. destruct (decide (below k e)) as [|Hb]; [done|exfalso]. pose proof (Hkey k x Hx) as <-.
      apply (Ho x); [|done]. apply (lh_has _ _ _ _ _ _ _ Hh). split; [done|]. split; [by eapply HP|done]. }
    split.
    + intros He k x Hx HPk. pose proof (Hb k x Hx HPk) as Hbk. unfold below in Hbk. by rewrite He in Hbk.
    + intros k x Hx HPk. rewrite Forall_app, Forall_singleton. eauto.
Qed.

Lemma leaf_holds_sorts n n' f f' m C1 e nx :
  leaf_holds n f m C1 e nx -> sorts n f n' f' -> leaf_holds n' f' m C1 e nx.
Proof.
  intros [Hwf Hdel Hsib Hhigh Hhas Hne] [Hw' _ (Ed & Es & _) Hx [Eh Ei]]. split; [done|congruence|congruence| | |].
  - intros u Hu. rewrite Eh, Ei. by apply Hhigh.
  - intros x. by rewrite Hx.
  - intros [x Hn]%Hne. exists x. by apply Hx.
Qed.

(** the first pair of a leaf is the next one, when no pair is left before the leaf *)
Lemma first_next m C1 e nx n f P o :
  leaf_holds n f m C1 e nx -> keyed m -> leaf_first n (fun _ => True) o ->
  (forall x, has n x -> P (kv_key x)) -> (forall k x, m !! k = Some x -> P k -> Forall (below k) C1) ->
  first_of m P o.
Proof.
  intros Hh Hkey Ho HP Hbelow. assert (leaf_first n P o) as Ho'.
  { destruct o as [kv|]; [|intros x Hx; by destruct (Ho x Hx)].
    destruct Ho as (Hkv & _ & Hmin). split; [done|]. split; [by apply HP|]. intros x Hx _. by apply Hmin. }
  pose proof (first_in_leaf m C1 e nx n f P o Hh Hkey Ho' Hbelow) as Hf. destruct o as [kv|]; [done|].
  destruct e.2 as [u|] eqn:Eu; [|by apply Hf]. destruct (lh_filled _ _ _ _ _ _ _ Hh) as [x Hx]; [by rewrite Eu|].
  by destruct (Ho x Hx).
Qed.

Lemma content_absent n f m C1 e nx key :
  leaf_holds n f m C1 e nx -> m !! key = None -> content n !! key = None.
Proof.
  intros Hh Hm. apply (content_None T); [apply Hh|]. intros kv Hkv%(lh_has _ _ _ _ _ _ _ Hh) <-. destruct Hkv. congruence.
Qed.
(** the next leaf, or null past the last one *)
Lemma leaf_sibling n f m C1 e nx :
  leaf_holds n f m C1 e nx -> Leaf.sibling n = match e.2 with Some _ => nx | None => None end.
Proof.
  intros Hh. destruct (lh_wf _ _ _ _ _ _ _ Hh) as [_ Hw Hv _ _ _ _].
  unfold Leaf.sibling. destruct (reads n f Hv Hw) as (_ & -> & -> & _).
  rewrite (lh_sib _ _ _ _ _ _ _ Hh), (lh_del _ _ _ _ _ _ _ Hh). destruct e.2 as [u|] eqn:Eu; [|done].
  rewrite bool_decide_true by eauto. by destruct (lh_high _ _ _ _ _ _ _ Hh u Eu) as (_ & -> & _).
Qed.
End part.

(** ** The program *)

(** nodes [N], pairs [A], keys [B], iterators [I], and [P], what a search knows of where
    it is *)
Record scanner {N A B P I : Type} := mkScanner {
  sn_begin : gmap Z N -> Z -> option Z;
  sn_end : gmap Z N -> Z -> Z -> option bool;
  sn_sibling : gmap Z N -> Z -> option ptr;
  sn_access : gmap Z N -> Z -> option A -> Z -> Z -> option (gmap Z N * option A * Z * Z);
  sn_advance : nat -> gmap Z N -> Z -> Z -> A -> Z -> option A -> Z -> Z -> option (gmap Z N * ptr * option A * Z * Z);
  sn_node : P -> Z; sn_move : P -> Z -> P;
  sn_ok : gmap Z N -> P -> Prop;
  sn_bound : gmap Z N -> P -> B -> bool -> option (gmap Z N * P * option A * Z * Z);
  sn_bound_right : nat -> gmap Z N -> P -> B -> bool -> option (gmap Z N * I);
  sn_iter : ptr -> Z -> option A -> Z -> I;
  sn_pair : I -> option A;
}.
Arguments scanner N A B P I : clear implicits.

(** a pair is [read] as one with a number as its key; [lf nd n f]: the node [nd] is a leaf,
    read as [n], with the control fields [f] *)
Class Scanning {N A B P I W : Type} (T : kcode) (read : A -> kvpair W) (num : B -> Z) (is_key : B -> Prop)
    (lf : N -> leaf W -> Control.fields -> Prop) (S : scanner N A B P I) := {
  sc_pair a v o i : sn_pair S (sn_iter S a v o i) = o;
  sc_read h a nd n f :
    h !! a = Some nd -> lf nd n f -> leaf_wf T n f -> Control.f_locked f = false ->
    sn_begin S h a = Some (Control.load_version (Control.encode f))
    /\ sn_end S h a (Control.load_version (Control.encode f)) = Some true;
  sc_sibling h a nd n f : h !! a = Some nd -> lf nd n f -> sn_sibling S h a = Some (Leaf.sibling n);
  sc_access_first h a nd n f :
    h !! a = Some nd -> lf nd n f -> leaf_wf T n f -> Control.f_locked f = false ->
    exists nd' n' f' o, sn_access S h a None 0 (Control.load_version (Control.encode f))
        = Some (<[a := nd']> h, o, 0, Control.load_version (Control.encode f'))
      /\ lf nd' n' f' /\ Control.f_locked f' = false /\ sorts T n f n' f' /\ read <$> o = entry_at n' 0;
  sc_access_next h a nd n f x i :
    h !! a = Some nd -> lf nd n f -> leaf_wf T n f -> Control.f_locked f = false -> Control.f_ordered f = true ->
    exists o, sn_access S h a (Some x) i (Control.load_version (Control.encode f))
        = Some (h, o, i, Control.load_version (Control.encode f))
      /\ read <$> o = entry_at n i;
  sc_advance fuel h a v0 x cur next pos v :
    sn_advance S (Datatypes.S fuel) h a v0 x cur next pos v
    = match next with
      | Some _ => Some (h, Some cur, next, pos, v)
      | None =>
          let* sib := sn_sibling S h cur in
          match sib with
          | None => Some (h, None, None, pos, v)
          | Some cur =>
              let* v := sn_begin S h cur in
              let* (h, next, pos, v) := sn_access S h cur None 0 v in
              let* unchanged := sn_end S h a v0 in
              if (unchanged : bool) then Some (h, Some cur, next, pos, v)
              else
                let* (h, next, pos, v) := sn_access S h cur (Some x) 0 0 in
                sn_advance S fuel h a v0 x cur next pos v
          end
      end;
  sc_move p a : sn_node S (sn_move S p a) = a;
  sc_ok h a nd p b : sn_ok S h p -> sn_ok S (<[a := nd]> h) p /\ sn_ok S h (sn_move S p b);
  sc_bound h p nd n f m C1 e nx key upper :
    sn_node S p = e.1 -> sn_ok S h p -> h !! e.1 = Some nd -> lf nd n f -> leaf_holds T n f m C1 e nx ->
    Control.f_locked f = false -> is_key key -> ~ below (num key) e -> (upper = true -> content n !! num key = None) ->
    exists nd' n' f' o pos, sn_bound S h p key upper
        = Some (<[e.1 := nd']> h, p, o, pos, Control.load_version (Control.encode f'))
      /\ lf nd' n' f' /\ Control.f_locked f' = false /\ Control.f_ordered f' = true /\ sorts T n f n' f'
      /\ leaf_first n' (above upper (num key)) (read <$> o)
      /\ (forall x, o = Some x -> used n' pos /\ kv_at n' pos (read x));
  sc_bound_right fuel h p key upper :
    sn_bound_right S (Datatypes.S fuel) h p key upper
    = (let* (h, p, o, pos, v) := sn_bound S h p key upper in
       match o with
       | Some x => Some (h, sn_iter S (Some (sn_node S p)) v (Some x) pos)
       | None =>
           let* sib := sn_sibling S h (sn_node S p) in
           match sib with
           | None => Some (h, sn_iter S None v None pos)
           | Some a => sn_bound_right S fuel h (sn_move S p a) key upper
           end
       end);
}.

(** [advance] on the heap: from slot [i] of the leaf at [a] *)
Definition scan_next {N A B P I} (S : scanner N A B P I) (h : gmap Z N) (a v : Z) (x : A) (i : Z) : option (gmap Z N * I) :=
  let* (h, next, pos, v1) := sn_access S h a (Some x) (i + 1) v in
  let* (h, node, next, pos, v2) := sn_advance S (Datatypes.S (size h)) h a v x a next pos v1 in
  Some (h, sn_iter S node v2 next pos).

(** ** From leaf to leaf *)

Section scan.
Context {N A B P I W : Type} (T : kcode) {HT : CodeOk T} (read : A -> kvpair W) (num : B -> Z) (is_key : B -> Prop)
  (lf : N -> leaf W -> Control.fields -> Prop) (S : scanner N A B P I) {HS : Scanning T read num is_key lf S}.
Context (at_ : gmap Z N -> Z -> level -> ptr -> Prop) {Hat : Linked at_}
  (leaf_at : gmap Z N -> gmap Z (kvpair W) -> level -> entry -> ptr -> Prop) {Hlev : LeafLevel leaf_at} (Ko : Z -> Prop)
  (Hleaf : forall h m C1 e nx, leaf_at h m C1 e nx <->
     exists nd n f, h !! e.1 = Some nd /\ lf nd n f /\ leaf_holds T n f m C1 e nx /\ Control.f_locked f = false).
Implicit Types (h : gmap Z N) (m : gmap Z (kvpair W)) (C : level) (s : spine N) (it : I) (x : A) (Q : Z -> Prop).
Abbreviation standing := (standing at_ leaf_at Ko).
Abbreviation version f := (Control.load_version (Control.encode f)).

(** the leaf the iterator is at, or is about to read *)
Record stands h m C1 e C2 nd n (f : Control.fields) : Prop := {
  st_leaf : h !! e.1 = Some nd;
  st_lf : lf nd n f;
  st_holds : leaf_holds T n f m C1 e (first C2);
  st_unlocked : Control.f_locked f = false;
}.

Lemma stands_at s m C1 e C2 ups : standing s m (C1 ++ e :: C2) ups -> exists nd n f, stands (sp_mem s) m C1 e C2 nd n f.
Proof. intros Hs. destruct (proj1 (Hleaf _ _ _ _ _) (st_leaves _ _ _ _ _ _ _ Hs C1 e C2 eq_refl)) as (nd & n & f & ? & ? & ? & ?). by exists nd, n, f. Qed.

Lemma stands_read h m C1 e C2 nd n f :
  stands h m C1 e C2 nd n f -> sn_begin S h e.1 = Some (version f) /\ sn_end S h e.1 (version f) = Some true.
Proof. intros [Hm Hl Hh Hlk]. by eapply sc_read; [..|apply Hh|]. Qed.

(** the leaf sorted, its pairs as they were *)
Lemma stands_sorts s m C1 e C2 ups nd n f nd' n' f' :
  standing s m (C1 ++ e :: C2) ups -> stands (sp_mem s) m C1 e C2 nd n f ->
  lf nd' n' f' -> Control.f_locked f' = false -> sorts T n f n' f' ->
  standing (set_mem s (<[e.1 := nd']> (sp_mem s))) m (C1 ++ e :: C2) ups
  /\ stands (<[e.1 := nd']> (sp_mem s)) m C1 e C2 nd' n' f'.
Proof.
  intros Hs [Hm Hl Hh Hlk] Hl' Hlk' Hso. pose proof (leaf_holds_sorts T _ _ _ _ _ _ _ _ Hh Hso) as Hh'.
  assert (<[e.1 := nd']> (sp_mem s) !! e.1 = Some nd') as Hm' by apply lookup_insert_eq. split; [|done].
  eapply (standing_leaf at_ leaf_at Ko); [done|done|]. apply Hleaf. by exists nd', n', f'.
Qed.

Lemma stands_sibling s m C1 e C2 ups nd n f :
  standing s m (C1 ++ e :: C2) ups -> stands (sp_mem s) m C1 e C2 nd n f ->
  sn_sibling S (sp_mem s) e.1 = Some (first C2) /\ (C2 = [] -> e.2 = None).
Proof.
  intros Hs [Hm Hl Hh _]. rewrite (sc_sibling _ _ _ _ _ Hm Hl), (leaf_sibling T _ _ _ _ _ _ Hh). destruct C2 as [|e2 C2].
  - assert (e.2 = None) as ->; [|done]. destruct e.2 as [u|] eqn:Eu; [|done]. by destruct (lh_high _ _ _ _ _ _ _ Hh u Eu) as (_ & _ & []).
  - split; [|done]. destruct (ordered_bound Ko C1 e (e2 :: C2)) as [u ->]; [apply Hs|done|done].
Qed.

(** ** Iterators *)

(** [it] stands at the pair [x] of a sorted leaf *)
Definition iter_at h m C it x : Prop :=
  exists C1 e C2 nd n f i, C = C1 ++ e :: C2 /\ stands h m C1 e C2 nd n f /\ Control.f_ordered f = true
    /\ used n i /\ kv_at n i (read x) /\ it = sn_iter S (Some e.1) (version f) (Some x) i.

(** [it] stands at a pair, or at the end *)
Definition iter_ok h m C it : Prop := match sn_pair S it with Some x => iter_at h m C it x | None => True end.

(** the iterator at the first pair of the leaf [e], which a scan comes to *)
Lemma first_spec s m C1 e C2 ups Q :
  standing s m (C1 ++ e :: C2) ups -> keyed m ->
  (forall k y, m !! k = Some y -> located C1 e k -> Q k) -> (forall k y, m !! k = Some y -> Q k -> Forall (below k) C1) ->
  exists v h' o v', sn_begin S (sp_mem s) e.1 = Some v /\ sn_access S (sp_mem s) e.1 None 0 v = Some (h', o, 0, v')
    /\ (forall b, b <> e.1 -> h' !! b = sp_mem s !! b)
    /\ standing (set_mem s h') m (C1 ++ e :: C2) ups
    /\ iter_ok h' m (C1 ++ e :: C2) (sn_iter S (Some e.1) v' o 0) /\ first_of m Q (read <$> o).
Proof.
  intros Hs Hkey HQ Hbelow. destruct (stands_at s m C1 e C2 ups Hs) as (nd & n & f & Hst). destruct (stands_read _ _ _ _ _ _ _ _ Hst) as [Hb _].
  pose proof Hst as [Hm Hl Hh Hlk].
  destruct (sc_access_first _ _ _ _ _ Hm Hl (lh_wf _ _ _ _ _ _ _ Hh) Hlk) as (nd' & n' & f' & o & Hacc & Hl' & Hlk' & Hso & Ho).
  destruct (stands_sorts s m C1 e C2 ups nd n f nd' n' f' Hs Hst Hl' Hlk' Hso) as [Hs' Hst']. pose proof Hst' as [_ _ Hh' _].
  pose proof (lh_wf _ _ _ _ _ _ _ Hh') as Hwf'. pose proof (wf_body _ _ _ Hwf') as Hb'.
  eexists _, _, o, _. split; [done|]. split; [done|]. split; [intros b Hne; by apply lookup_insert_ne|]. split; [done|]. split.
  - unfold iter_ok. rewrite sc_pair. destruct o as [x|]; [|done]. destruct (entry_used T n' 0 (read x) Hb' (eq_sym Ho)).
    exists C1, e, C2, nd', n', f', 0. split; [done|]. split; [done|]. by split; [apply Hso|].
  - eapply (first_next T); [exact Hh'|done| | |done].
    + rewrite Ho. apply (slot_first T); [done|apply Hwf', Hso| |lia]. intros i kv Hu _. split; [|done]. intros _.
      apply (used_range n'); [apply Hb'|done].
    + intros y [Hy Hloc]%(lh_has _ _ _ _ _ _ _ Hh'). by eapply HQ.
Qed.

Lemma advance_spec s m C ups it x :
  standing s m C ups -> keyed m -> iter_at (sp_mem s) m C it x ->
  exists a v i h' it', it = sn_iter S (Some a) v (Some x) i /\ scan_next S (sp_mem s) a v x i = Some (h', it')
    /\ standing (set_mem s h') m C ups /\ iter_ok h' m C it'
    /\ first_of m (fun k => kv_key (read x) < k) (read <$> sn_pair S it').
Proof.
  intros Hs Hkey (C1 & e & C2 & nd & n & f & i & -> & Hst & Ho & Hu & Hk & ->). pose proof Hst as [Hm Hl Hh Hlk].
  pose proof (lh_wf _ _ _ _ _ _ _ Hh) as Hwf. pose proof (wf_body _ _ _ Hwf) as Hb. pose proof (wf_ordered _ _ _ Hwf Ho) as Hord.
  destruct (sc_access_next _ _ _ _ _ x (i + 1) Hm Hl Hwf Hlk Ho) as (o & Hacc & Eo).
  exists e.1, (version f), i. unfold scan_next. rewrite Hacc, bind_Some, sc_advance.
  assert (has n (read x)) as Hkv by (by exists i). pose proof (proj1 (lh_has _ _ _ _ _ _ _ Hh _) Hkv) as [Hmk [Hf1 Hnb]].
  assert (forall k y, m !! k = Some y -> kv_key (read x) < k -> Forall (below k) C1) as Hafter.
  { intros k _ _ Hlt. eapply Forall_impl; [exact Hf1|]. intros c Hc. unfold below in *. destruct c.2; [lia|done]. }
  pose proof (slot_next T n i (read x) Hb Hord Hu Hk) as Hnext. rewrite <- Eo in Hnext.
  pose proof (first_in_leaf T m C1 e _ n f _ _ Hh Hkey Hnext Hafter) as Hfirst. destruct o as [y|]; cbn [fmap option_fmap option_map] in *.
  { rewrite bind_Some. exists (sp_mem s), (sn_iter S (Some e.1) (version f) (Some y) (i + 1)). do 2 (split; [done|]).
    split; [by destruct s|]. unfold iter_ok. rewrite !sc_pair. split; [|done].
    destruct (entry_used T n (i + 1) (read y) Hb (eq_sym Eo)). by exists C1, e, C2, nd, n, f, (i + 1). }
  destruct Hfirst as [Hend Hafter']. destruct (stands_sibling s m C1 e C2 ups nd n f Hs Hst) as [-> Hlast].
  rewrite bind_Some. destruct C2 as [|e2 C2]; cbn [first head fmap option_fmap option_map].
  { rewrite bind_Some. exists (sp_mem s), (sn_iter S None (version f) None (i + 1)). do 2 (split; [done|]).
    split; [by destruct s|]. unfold iter_ok. rewrite !sc_pair. split; [done|]. by apply Hend, Hlast. }
  change (C1 ++ e :: e2 :: C2) with (C1 ++ [e] ++ e2 :: C2) in *. rewrite app_assoc in *.
  destruct (first_spec s m (C1 ++ [e]) e2 C2 ups (fun k => kv_key (read x) < k) Hs Hkey) as (v2 & h' & o & v' & -> & Hacc2 & Hfr & Hs' & Hit & Hfo).
  { intros k y _ [Hx _]. rewrite Forall_app, Forall_singleton in Hx. destruct Hx as [_ Hx]. unfold below in Hx, Hnb. destruct e.2; [lia|done]. }
  { done. }
  rewrite bind_Some, Hacc2, bind_Some.
  assert (e.1 <> e2.1) as Hne.
  { destruct (standing_beside _ _ _ _ _ _ _ _ _ Hs) as [_ Hne]. apply (Hne e.1). rewrite !fmap_app. set_solver. }
  assert (h' !! e.1 = Some nd) as Hm' by (by rewrite Hfr).
  rewrite (proj2 (sc_read _ _ _ _ _ Hm' Hl Hwf Hlk)), !bind_Some.
  eexists h', _. split; [done|]. split; [done|]. split; [done|]. split; [done|]. by rewrite sc_pair.
Qed.

(** ** Bounds *)

Lemma bound_right_spec C2 : forall s m ups C1 e p key upper fuel,
  standing s m (C1 ++ e :: C2) ups -> keyed m -> sn_node S p = e.1 -> sn_ok S (sp_mem s) p -> is_key key ->
  ~ below (num key) e -> (upper = true -> m !! num key = None) -> (length C2 < fuel)%nat ->
  (forall k y, m !! k = Some y -> above upper (num key) k -> Forall (below k) C1) ->
  exists h' it, sn_bound_right S fuel (sp_mem s) p key upper = Some (h', it)
    /\ standing (set_mem s h') m (C1 ++ e :: C2) ups /\ iter_ok h' m (C1 ++ e :: C2) it
    /\ first_of m (above upper (num key)) (read <$> sn_pair S it).
Proof.
  induction C2 as [|e2 C2 IH]; intros s m ups C1 e p key upper fuel Hs Hkey Hp Hok Hik Hn Hup Hfuel Hafter;
    (destruct fuel as [|fuel]; [cbn in Hfuel; lia|]); rewrite sc_bound_right;
    destruct (stands_at s m C1 e _ ups Hs) as (nd & n & f & Hst); pose proof Hst as [Hm Hl Hh Hlk];
    (destruct (sc_bound (sp_mem s) p nd n f m C1 e _ key upper Hp Hok Hm Hl Hh Hlk Hik Hn) as (nd' & n' & f' & o & pos & -> & Hl' & Hlk' & Ho & Hso & Hfirst & Hk);
      [intros Hu; by apply (content_absent T n f m C1 e _ (num key) Hh), Hup|]);
    destruct (stands_sorts s m C1 e _ ups nd n f nd' n' f' Hs Hst Hl' Hlk' Hso) as [Hs' Hst']; pose proof Hst' as [_ _ Hh' _];
    pose proof (first_in_leaf T m C1 e _ n' f' _ _ Hh' Hkey Hfirst Hafter) as Hfo; rewrite bind_Some;
    (destruct o as [x|]; cbn [fmap option_fmap option_map] in *;
     [eexists _, _; split; [done|]; split; [done|]; unfold iter_ok; rewrite sc_pair; split; [|done];
      destruct (Hk x eq_refl); rewrite Hp; by eexists C1, e, _, nd', n', f', pos|]);
    destruct Hfo as [Hend Hafter']; destruct (stands_sibling (set_mem s _) m C1 e _ ups nd' n' f' Hs' Hst') as [Hsib Hlast];
    cbn [sp_mem set_mem] in Hsib; rewrite Hp, Hsib, bind_Some; cbn [first head fmap option_fmap option_map].
  - eexists _, _. split; [done|]. split; [done|]. unfold iter_ok. rewrite sc_pair. split; [done|]. by apply Hend, Hlast.
  - change (C1 ++ e :: e2 :: C2) with (C1 ++ [e] ++ e2 :: C2) in *. rewrite app_assoc in *.
    assert (~ below (num key) e2) as Hn2.
    { intros Hb. apply Hn, (below_mono (num key) e e2); [|done]. pose proof (st_ordered _ _ _ _ _ _ _ Hs) as Hord. rewrite <- app_assoc in Hord.
      apply ordered_app in Hord as (_ & Hord & _). apply ordered_cons in Hord as (_ & _ & Hlt). apply Hlt. by left. }
    destruct (IH (set_mem s (<[e.1 := nd']> (sp_mem s))) m ups (C1 ++ [e]) e2 (sn_move S p e2.1) key upper fuel Hs') as (h' & it & Hrun & Hs2 & Hrest);
      [done|apply sc_move|by apply sc_ok, sc_ok|done|done|done|cbn in Hfuel; lia|done|].
    by exists h', it.
Qed.
End scan.

(** ** The pairs in order *)

Definition kv_le {V} (x y : kvpair V) : Prop := kv_key x <= kv_key y.
#[export] Instance kv_le_dec {V} (x y : kvpair V) : Decision (kv_le x y).
Proof. unfold kv_le. apply _. Defined.
#[export] Instance kv_le_trans {V} : Transitive (@kv_le V).
Proof. intros x y z. unfold kv_le. lia. Qed.
#[export] Instance kv_le_total {V} : Total (@kv_le V).
Proof. intros x y. unfold kv_le. lia. Qed.

(** the pairs of a map by increasing key *)
Definition sorted_pairs {V} (m : gmap Z (kvpair V)) : list (kvpair V) := merge_sort kv_le (map_to_list m).*2.

Section walk.
Context {V : Type}.
Implicit Types (m : gmap Z (kvpair V)) (kv : kvpair V) (l : list (kvpair V)).

Lemma elem_sorted_pairs m kv : keyed m -> kv ∈ sorted_pairs m <-> m !! kv_key kv = Some kv.
Proof.
  intros Hm. unfold sorted_pairs. rewrite merge_sort_Permutation, list_elem_of_fmap. split.
  - intros ([k x] & -> & Hx%elem_of_map_to_list). cbn. by rewrite (Hm k x).
  - intros Hk. exists (kv_key kv, kv). split; [done|]. by apply elem_of_map_to_list.
Qed.

Lemma sorted_pairs_increasing m : keyed m -> StronglySorted (fun x y => kv_key x < kv_key y) (sorted_pairs m).
Proof.
  intros Hm. assert (NoDup (kv_key <$> sorted_pairs m)) as Hnd.
  { unfold sorted_pairs. rewrite merge_sort_Permutation, <- list_fmap_compose.
    rewrite (list_fmap_ext _ fst); [apply NoDup_fst_map_to_list|]. intros i [k x] Hx. apply list_elem_of_lookup_2, elem_of_map_to_list in Hx. cbn. by rewrite (Hm k x). }
  assert (StronglySorted kv_le (sorted_pairs m)) as Hs by (apply (StronglySorted_merge_sort kv_le); apply _).
  revert Hnd Hs. generalize (sorted_pairs m) as l. induction l as [|x l IH]; intros Hnd Hs; [constructor|].
  apply NoDup_cons in Hnd as [Hx Hnd]. apply StronglySorted_inv in Hs as [Hs Hall]. constructor; [by apply IH|].
  rewrite Forall_forall in Hall |- *. intros y Hy. pose proof (Hall y Hy). unfold kv_le in *.
  assert (kv_key x <> kv_key y); [|lia]. intros E. apply Hx. rewrite E. by apply list_elem_of_fmap_2.
Qed.

Lemma length_sorted_pairs m : length (sorted_pairs m) = size m.
Proof. unfold sorted_pairs. by rewrite merge_sort_Permutation, length_fmap, length_map_to_list. Qed.

(** the pairs in [P], when [P] is all that is past [l1] *)
Lemma first_of_split m (P : Z -> Prop) l1 l2 o :
  keyed m -> sorted_pairs m = l1 ++ l2 -> first_of m P o ->
  (forall x, x ∈ l1 -> ~ P (kv_key x)) -> (forall x, x ∈ l2 -> P (kv_key x)) -> o = head l2.
Proof.
  intros Hm El Ho H1 H2. pose proof (sorted_pairs_increasing m Hm) as Hs. rewrite El in Hs.
  assert (forall x, x ∈ l2 -> m !! kv_key x = Some x) as Hin.
  { intros x Hx. apply elem_sorted_pairs; [done|]. rewrite El. apply elem_of_app. by right. }
  destruct o as [kv|], l2 as [|x l2]; cbn; try done.
  - destruct Ho as (Hkv & HP & _). apply elem_sorted_pairs in Hkv; [|done]. rewrite El, app_nil_r in Hkv. by destruct (H1 kv).
  - destruct Ho as (Hkv & HP & Hmin). pose proof (Hin x ltac:(by left)) as Hx.
    pose proof (Hmin _ _ Hx (H2 x ltac:(by left))) as Hle.
    apply elem_sorted_pairs in Hkv; [|done]. rewrite El, elem_of_app, elem_of_cons in Hkv.
    destruct Hkv as [Hkv|[->|Hkv]]; [by destruct (H1 kv)|done|].
    apply StronglySorted_app in Hs as (_ & _ & Hs). apply StronglySorted_inv in Hs as [_ Hall].
    rewrite Forall_forall in Hall. pose proof (Hall kv Hkv) as Hlt. cbn in Hlt. lia.
  - destruct (Ho _ _ (Hin x ltac:(by left))). apply H2. by left.
Qed.

Lemma filter_all l : filter (fun _ => True) l = l.
Proof. induction l as [|x l IH]; [done|]. rewrite filter_cons, decide_True by done. by rewrite IH. Qed.

(** an upward closed set is an end of the list *)
Lemma filter_suffix (P : kvpair V -> Prop) `{!forall x, Decision (P x)} l :
  StronglySorted (fun x y => kv_key x < kv_key y) l ->
  (forall x y, P x -> kv_key x < kv_key y -> P y) ->
  exists l1, l = l1 ++ filter P l /\ (forall x, x ∈ l1 -> ~ P x).
Proof.
  intros Hs HP. induction Hs as [|x l Hs IH Hall]; [exists []; split; [done|by intros x ?%not_elem_of_nil]|].
  rewrite filter_cons. case_decide as Hx.
  - exists []. split; [|by intros y ?%not_elem_of_nil]. cbn. f_equal. clear IH Hs.
    induction l as [|y l IH]; [done|]. apply Forall_cons in Hall as [Hy Hall]. rewrite filter_cons.
    rewrite decide_True by by eapply HP. f_equal. by apply IH.
  - destruct IH as (l1 & El & H1). exists (x :: l1). split; [by rewrite El at 1|]. intros y [->|Hy]%elem_of_cons; [done|by apply H1].
Qed.
End walk.

(** ** A scan *)

(** from an iterator to the end, as a client scans: the pairs it meets *)
Fixpoint walk {St I A : Type} (next : St -> I -> option (St * I)) (pair : I -> option A) (fuel : nat) (t : St) (it : I)
    : option (list A * St) :=
  match pair it with
  | None => Some ([], t)
  | Some kv =>
      match fuel with
      | O => None
      | S fuel =>
          let* (t, it) := next t it in
          let* (kvs, t) := walk next pair fuel t it in
          Some (kv :: kvs, t)
      end
  end.

Section walks.
Context {St I A W : Type} (next : St -> I -> option (St * I)) (pair : I -> option A) (read : A -> kvpair W).
Context (m : gmap Z (kvpair W)) (Hm : keyed m) (J : St -> I -> Prop).
(** [next] goes to the next pair of the map, and leaves what stands for it *)
Context (Hnext : forall t it x, J t it -> pair it = Some x ->
  exists t' it', next t it = Some (t', it') /\ J t' it' /\ first_of m (fun k => kv_key (read x) < k) (read <$> pair it')).

Lemma walk_spec l2 : forall l1 t it fuel,
  J t it -> sorted_pairs m = l1 ++ l2 -> read <$> pair it = head l2 -> (length l2 <= fuel)%nat ->
  exists l t' it', walk next pair fuel t it = Some (l, t') /\ read <$> l = l2 /\ J t' it'.
Proof.
  induction l2 as [|y l2 IH]; intros l1 t it fuel Hj El Hkv Hfuel; cbn [head] in Hkv.
  - exists [], t, it. split; [|done]. apply fmap_None in Hkv. destruct fuel; cbn [walk]; by rewrite Hkv.
  - destruct fuel as [|fuel]; [cbn in Hfuel; lia|]. cbn [walk]. apply fmap_Some in Hkv as (x & Ex & ->). rewrite Ex.
    destruct (Hnext t it x Hj Ex) as (t1 & it1 & -> & Hj1 & Hfirst). rewrite bind_Some.
    pose proof (sorted_pairs_increasing m Hm) as Hs. rewrite El in Hs.
    apply StronglySorted_app in Hs as (Hcross & _ & Hs). apply StronglySorted_inv in Hs as [_ Hall].
    rewrite Forall_forall in Hall. assert (sorted_pairs m = (l1 ++ [read x]) ++ l2) as El' by by rewrite <- app_assoc.
    destruct (IH _ t1 it1 fuel Hj1 El') as (l & t2 & it2 & -> & <- & Hj2); [|cbn in Hfuel; lia|].
    + eapply first_of_split; [done|exact El'|done| |done]. intros z [Hz|Hz]%elem_of_app.
      * pose proof (Hcross z (read x) Hz ltac:(by left)) as Hlt. cbn in Hlt. lia.
      * apply list_elem_of_singleton in Hz. subst. lia.
    + rewrite bind_Some. by exists (x :: l), t2, it2.
Qed.

(** a scan from an iterator at the first pair of an upward closed set *)
Lemma walk_from (P : Z -> Prop) `{!forall k, Decision (P k)} t it fuel :
  J t it -> first_of m P (read <$> pair it) -> (forall j k, P j -> j < k -> P k) -> (size m <= fuel)%nat ->
  exists l t' it', walk next pair fuel t it = Some (l, t')
    /\ read <$> l = filter (fun kv => P (kv_key kv)) (sorted_pairs m) /\ J t' it'.
Proof.
  intros Hj Hfirst HP Hfuel.
  destruct (filter_suffix (fun kv => P (kv_key kv)) (sorted_pairs m)) as (l1 & El & Hl1);
    [by apply sorted_pairs_increasing|intros x y; apply HP|].
  eapply walk_spec; [done|exact El| |].
  - eapply first_of_split; [done|exact El|done|done|]. intros x Hx. by apply list_elem_of_filter in Hx as [? _].
  - rewrite <- length_sorted_pairs in Hfuel. etrans; [|exact Hfuel]. apply length_filter.
Qed.
End walks.
