(* ===== verification/FBTreeSpec.v ===== *)
(** * What the tree is: the levels of nodes, and the map they stand for

    A level is the list of its nodes from left to right, each with the upper bound of
    its keys. [chain] says that every level is what the nodes of the level above
    link to, up to the root; [represents] adds the pairs in the leaves. The searches
    are then searches of a sorted list. *)

From S2P Require Import Prelude Bits Simd Strings Encode Control Leaf LeafSpec Inner InnerSpec Moves InnerOps FBTree Levels Growth Words Cover InnerKind LeafPart.

(** what the code relies on [malloc] for: fresh addresses, arrays of the right sizes *)
Class AllocatorLaws (V : Type) (T : ktype) `{Allocator V} := {
  malloc_fresh (h : heap V) : h !! malloc h = None;
  found_tags_ok a : length (found_tags a) = 64%nat /\ Forall is_byte (found_tags a);
  found_raw_ok a : raw_ok T (found_raw a);
}.

(** the fields of a tree after assignments *)
Ltac tree_simpl :=
  cbn [mem root_ tree_depth_ root_track_ retired guarded FBTree.with_mem FBTree.with_root FBTree.with_depth
       FBTree.with_track FBTree.retire].

(** ** The heap *)

(** the control word of a node, whatever its kind *)
Definition word {V} (nd : node V) : Z := match nd with NLeaf n => control_ n | NInner n => icontrol n end.
Definition with_word {V} (nd : node V) (w : Z) : node V :=
  match nd with
  | NLeaf n => NLeaf (Leaf.set_control n w)
  | NInner n => NInner (Inner.set_control n w)
  end.

(** the node at [a] has the control fields [f] *)
Definition node_at {V} (h : heap V) (a : Z) (nd : node V) (f : Control.fields) : Prop := word_is word h a nd f.

Section words.
Context {V : Type}.
Implicit Types (h : heap V) (nd : node V).

Lemma latch_node h a nd f :
  node_at h a nd f -> Control.f_locked f = false ->
  FBTree.latch_exclusive h a = Some (<[a := with_word nd (Control.encode (Control.with_locked f true))]> h).
Proof. exact (latch_word word with_word h a nd f). Qed.

Lemma unlatch_node h a nd f :
  node_at h a nd f -> Control.f_locked f = true ->
  FBTree.unlatch_exclusive h a = Some (<[a := with_word nd (Control.encode (Control.with_locked f false))]> h).
Proof. exact (unlatch_word word with_word h a nd f). Qed.

Lemma is_leaf_node h a nd f : node_at h a nd f -> FBTree.is_leaf h a = Some (Control.f_leaf f).
Proof. exact (is_leaf_word word h a nd f). Qed.

Lemma read_node h a nd f :
  node_at h a nd f -> Control.f_locked f = false ->
  FBTree.begin_read h a = Some (Control.load_version (Control.encode f))
  /\ FBTree.end_read h a (Control.load_version (Control.encode f)) = Some true.
Proof. exact (read_word word h a nd f). Qed.
End words.

(** ** The tree *)

Abbreviation inner_at T grown := (Cover.inner_at (int_inner T) NInner grown).

Section tree.
Context {V : Type} (T : ktype) (grown : bool).
Implicit Types (h : heap V) (m : gmap Z (kvpair V)) (C : level) (G : list group).

Definition leaf_at h m (C1 : level) (e : entry) (nx : ptr) : Prop :=
  exists n f, h !! e.1 = Some (NLeaf n) /\ leaf_holds T n f m C1 e nx /\ Control.f_locked f = false.

#[export] Instance leaf_at_level : LeafLevel leaf_at.
Proof.
  split.
  - intros h m C1 e nx (n & f & Hh & _). by eexists.
  - intros h h' m m' C1 C1' e nx Eh Hb Hm (n & f & Hh & Hl & Hlk). exists n, f. rewrite Eh.
    split; [done|]. split; [|done]. by eapply leaf_holds_ext.
Qed.

Lemma inner_word h p n f seps E nx :
  h !! p = Some (NInner n) -> covers (int_inner T) grown n f seps E nx -> node_at h p (NInner n) f.
Proof. by apply (covers_node (int_inner T) NInner). Qed.

Lemma leaf_node h a n f m C1 e nx : h !! a = Some (NLeaf n) -> leaf_holds T n f m C1 e nx -> node_at h a (NLeaf n) f.
Proof. intros Hh Hc. destruct (lh_wf _ _ _ _ _ _ _ Hc). split; [done|]. by split. Qed.

(** ** Going down *)

(** one turn of the loop *)
Lemma path_step h p E1 e E2 nx key fuel st :
  inner_at T grown h p (E1 ++ e :: E2) nx -> ordered (in_range T) (E1 ++ e :: E2) ->
  located E1 e key -> in_range T key ->
  FBTree.to_leaf_path T (S fuel) h p (enc T key) st = FBTree.to_leaf_path T fuel h e.1 (enc T key) (p :: st).
Proof.
  intros (n & f & seps & Hh & Hc & Hl) Ho Hloc Hk. cbn [FBTree.to_leaf_path].
  rewrite (is_leaf_node h p _ f), (iw_inner _ _ _ _ (cv_wf _ _ _ _ _ _ _ Hc)), bind_Some by by eapply inner_word.
  unfold FBTree.inner. rewrite Hh, bind_Some.
  by rewrite (covers_to_next T grown n f seps _ nx Hc Ho E1 e E2 key Hl eq_refl Hloc Hk).
Qed.

(** the loop takes the way *)
Lemma path_way h key frs : forall C1 e C2 root,
  zip (inner_at T grown) h C1 e C2 frs root -> takes (in_range T) key e frs -> in_range T key ->
  forall fuel, FBTree.to_leaf_path T (length frs + fuel) h root (enc T key) []
               = FBTree.to_leaf_path T fuel h e.1 (enc T key) (fr_p <$> frs).
Proof.
  induction frs as [|fr frs IH]; intros C1 e C2 root; cbn [zip takes].
  - by intros (_ & _ & ->).
  - intros (_ & _ & Hi & Hz) (Hloc & Ho & Hway) Hk fuel. cbn [length].
    replace (S (length frs) + fuel)%nat with (length frs + S fuel)%nat by lia.
    rewrite (IH _ _ _ _ Hz Hway Hk). cbn [fst fmap list_fmap].
    by apply (path_step h _ (fr_E1 fr) e (fr_E2 fr) (first (fr_G2 fr))); [apply (Hi (fr_G1 fr))| | |].
Qed.

Lemma descend h ups C root key :
  chain (inner_at T grown) h C ups root -> ordered (in_range T) C -> in_range T key ->
  exists frs C1 e C2, C = C1 ++ e :: C2 /\ located C1 e key /\ zip (inner_at T grown) h C1 e C2 frs root
    /\ levels e frs = ups
    /\ forall fuel, FBTree.to_leaf_path T (length ups + fuel) h root (enc T key) []
                    = FBTree.to_leaf_path T fuel h e.1 (enc T key) (fr_p <$> frs).
Proof.
  intros Hch Ho Hk. destruct (chain_way (inner_at T grown) (in_range T) h ups C root key Hch Ho) as (frs & C1 & e & C2 & EC & Hl & Hz & <- & Hway).
  exists frs, C1, e, C2. split; [done|]. split; [done|]. split; [done|]. split; [done|].
  intros fuel. rewrite length_levels. by apply (path_way h key frs C1 e C2).
Qed.

(** a lookup takes the same way *)
Lemma to_leaf_fst h key fuel : forall a st,
  FBTree.to_leaf T fuel h a key = fst <$> FBTree.to_leaf_path T fuel h a key st.
Proof.
  induction fuel as [|fuel IH]; intros a st; [done|]. cbn [FBTree.to_leaf FBTree.to_leaf_path].
  destruct (FBTree.is_leaf h a) as [[]|]; [done| |done]. rewrite !bind_Some.
  destruct (FBTree.inner h a); [|done]. rewrite !bind_Some.
  destruct (Inner.to_next _ _ _) as [[? [next|]]|]; [|done|done]. rewrite !bind_Some. apply IH.
Qed.
End tree.

(** ** The map of a tree *)

Section represents.
Context {V : Type} `{Allocator V} (T : ktype) (grown : bool).
Implicit Types (h : heap V) (m : gmap Z (kvpair V)) (C : level) (t : tree V) (kv : kvpair V).

Record represents t m C (ups : list (list group)) : Prop := {
  rp_keyed : keyed m;
  rp_ordered : ordered (in_range T) C;
  rp_leaves : leaves (leaf_at T) (mem t) m C;
  rp_chain : chain (inner_at T grown) (mem t) C ups (root_ t);
  rp_nodup : NoDup (C.*1 ++ addrs ups);
  rp_depth : tree_depth_ t = Z.of_nat (S (length ups));
  rp_track : length (root_track_ t) = 13%nat /\ root_track_ t !! 0%nat = Some (first C)
    /\ tracks (root_track_ t) 1 ups;
  rp_guarded : guarded t = true;
}.

Definition implements t m : Prop := exists C ups, represents t m C ups.

(** the parts of the object that an operation changes *)
Definition spine_of t : spine (node V) := mkSpine (mem t) (root_ t) (tree_depth_ t) (root_track_ t).

Lemma represents_standing t m C ups :
  represents t m C ups <->
  standing (inner_at T grown) (leaf_at T) (in_range T) (spine_of t) m C ups /\ keyed m /\ guarded t = true.
Proof. split; [by intros []|]. by intros [[] [? ?]]. Qed.

Lemma represents_size t m C ups :
  represents t m C ups -> (length (C.*1 ++ addrs ups) <= size (mem t))%nat.
Proof. intros [Hs _]%represents_standing. by eapply (standing_size _ _ _ (spine_of t)). Qed.

Lemma represents_fuel t m C ups :
  represents t m C ups -> exists fuel, FBTree.node_fuel (mem t) = (length ups + S (S fuel))%nat.
Proof. intros [Hs _]%represents_standing. by eapply (standing_fuel _ _ _ (spine_of t)). Qed.

(** where a key is, and that the descent ends there *)
Record found t m C ups key (frs : list frame) C1 e C2 (n : leaf V) (f : Control.fields) : Prop := {
  fo_split : C = C1 ++ e :: C2;
  fo_located : located C1 e key;
  fo_zip : zip (inner_at T grown) (mem t) C1 e C2 frs (root_ t);
  fo_levels : levels e frs = ups;
  fo_leaf : mem t !! e.1 = Some (NLeaf n);
  fo_holds : leaf_holds T n f m C1 e (first C2);
  fo_unlocked : Control.f_locked f = false;
  fo_path : FBTree.to_leaf_path T (FBTree.node_fuel (mem t)) (mem t) (root_ t) (enc T key) []
            = Some (e.1, fr_p <$> frs);
}.

Lemma find_leaf t m C ups key :
  represents t m C ups -> in_range T key ->
  exists frs C1 e C2 n f, found t m C ups key frs C1 e C2 n f.
Proof.
  intros Hr Hk. destruct (represents_fuel t m C ups Hr) as [fuel Ef].
  destruct (descend T grown (mem t) ups C (root_ t) key) as (frs & C1 & e & C2 & EC & Hloc & Hz & Hlev & Hwalk);
    [apply Hr|apply Hr|done|].
  destruct (rp_leaves _ _ _ _ Hr C1 e C2 EC) as (n & f & Hh & Hl & Hlk).
  exists frs, C1, e, C2, n, f. split; try done. rewrite Ef, Hwalk. cbn [FBTree.to_leaf_path].
  rewrite (is_leaf_node _ _ (NLeaf n) f), bind_Some by by eapply leaf_node.
  by rewrite (wf_leaf _ _ _ (lh_wf _ _ _ _ _ _ _ Hl)).
Qed.

Lemma found_to_leaf t m C ups key frs C1 e C2 n f :
  found t m C ups key frs C1 e C2 n f ->
  FBTree.to_leaf T (FBTree.node_fuel (mem t)) (mem t) (root_ t) (enc T key) = Some e.1.
Proof. intros Hf. by rewrite (to_leaf_fst T _ _ _ _ []), (fo_path _ _ _ _ _ _ _ _ _ _ _ Hf). Qed.

(** the leaf found is the one to read, and nothing moves meanwhile *)
Lemma found_read t m C ups key frs C1 e C2 n f :
  found t m C ups key frs C1 e C2 n f ->
  FBTree.read_right (FBTree.node_fuel (mem t)) (mem t) e.1 key
    = Some (e.1, Control.load_version (Control.encode f))
  /\ FBTree.end_read (mem t) e.1 (Control.load_version (Control.encode f)) = Some true.
Proof.
  intros [-> Hloc _ _ Hh Hl Hlk _]. pose proof (leaf_node T _ _ _ _ _ _ _ _ Hh Hl) as Hn.
  destruct (read_node _ _ _ _ Hn Hlk) as [Hb He]. split; [|done].
  unfold FBTree.node_fuel. cbn [FBTree.read_right]. rewrite Hb, bind_Some. unfold FBTree.leaf.
  rewrite Hh, bind_Some. by rewrite (leaf_holds_stays T n f m C1 e _ key Hl Hloc), bind_Some.
Qed.

Lemma found_content t m C ups key frs C1 e C2 n f :
  represents t m C ups -> found t m C ups key frs C1 e C2 n f -> content n !! key = m !! key.
Proof.
  intros Hr Hf. eapply leaf_holds_content; [apply (fo_holds _ _ _ _ _ _ _ _ _ _ _ Hf)|apply Hr|].
  apply Hf.
Qed.

End represents.
