(* ===== verification/FBTreeOps.v ===== *)
(** * What the operations of the tree do

    [lookup] and [update], and [upsert] with its splits, on a tree that [represents]
    a map. How a split goes up through the levels is proved in [Growth], and what it does
    to a node in [Cover]; here is the program that takes one step of it. *)

From S2P Require Import Prelude Bits Simd Strings Encode Control Leaf LeafSpec Inner InnerSpec Moves InnerOps FBTree Levels Growth Words Cover InnerKind LeafPart FBTreeSpec.

(** ** A split goes up *)

Section propagate.
Context {V : Type} `{AllocatorLaws V T} (grown : bool).
Implicit Types (h : heap V) (C : level) (t : tree V).

(** a node with its latch taken, and with the latch given back *)
Definition latched (_ : nat) (nd nd' : node V) : Prop := latched_word word with_word nd nd'.

Lemma latched_unlatch k h a nd nd' :
  h !! a = Some nd -> latched k nd nd' -> FBTree.unlatch_exclusive h a = Some (<[a := nd']> h).
Proof. exact (release_word word with_word h a nd nd'). Qed.

Lemma icovers_latched k n f seps E nx :
  covers (int_inner T) grown n f seps E nx -> Control.f_locked f = true ->
  exists n', latched k (NInner n) (NInner n') /\ links (inner_at T grown) (NInner n' : node V) E nx.
Proof. intros Hc Hl. eexists. by apply (covers_latched (int_inner T) NInner grown word with_word) with (1 := fun _ => eq_refl) (2 := fun _ _ => eq_refl) (3 := Hc). Qed.

Lemma index_right_here h p n f seps E1 e E2 nx fuel mid :
  h !! p = Some (NInner n) -> covers (int_inner T) grown n f seps (E1 ++ e :: E2) nx -> ordered (in_range T) (E1 ++ e :: E2) ->
  located E1 e mid -> in_range T mid ->
  FBTree.index_right T (S fuel) h p (enc T mid) = Some (h, p, Z.of_nat (length E1)).
Proof.
  intros Hh Hc Ho Hl Hm. cbn [FBTree.index_right]. unfold FBTree.inner. rewrite Hh, bind_Some.
  by rewrite (covers_index T grown n f seps _ nx Hc Ho E1 e E2 mid), bind_Some.
Qed.

(** the search of a node without separators *)
Lemma new_index n f seps mid :
  inode_wf T n f seps -> knum n = 0 -> Control.f_deleted f = false -> Control.f_sibling f = false ->
  Inner.index_or_sibling T n (enc T mid) = Some (inl 0).
Proof.
  intros Hwf Hk Hd Hs. destruct (index_or_sibling_spec T n f seps (enc T mid) Hwf) as (idx & [Hr _] & ->);
    [done|congruence|apply enc_bytes|apply enc_length|].
  replace idx with 0 by lia. by rewrite Hk, Hs.
Qed.

Lemma new_root t k a nd nd' rnode mid fuel :
  root_ t = a -> mem t !! a = Some nd -> latched k nd nd' -> in_range T mid -> length (root_track_ t) = 13%nat ->
  tree_depth_ t = Z.of_nat (k + 1) -> tree_depth_ t < 13 ->
  exists t1 w nw nw', FBTree.propagate T (S fuel) t a rnode (enc T mid) (Z.of_nat k) [] = Some (t1, w)
    /\ mem t !! w = None /\ latched (S k) nw nw' /\ links (inner_at T grown) nw' [(a, Some mid); (rnode, None)] None
    /\ spine_of t1 = mkSpine (<[w := nw]> (<[a := nd']> (mem t))) w (tree_depth_ t + 1) (<[S k := Some w]> (root_track_ t))
    /\ guarded t1 = guarded t /\ retired t1 = retired t.
Proof.
  intros Hroot Ha Hlk Hmid Hlen Hdepth Hd13. cbn [FBTree.propagate]. unfold FBTree.parent.
  rewrite Hroot, Z.eqb_refl. set (w := malloc (mem t)).
  assert (mem t !! w = None) as Hw by apply malloc_fresh. assert (w <> a) as Hwa by congruence.
  rewrite (latch_node _ w (NInner (Inner.InnerNode (found_raw w))) (Control.inner_fields false)), bind_Some.
  2:{ split; [by rewrite lookup_insert_eq|done]. }
  2:{ done. }
  rewrite insert_insert_eq, aset_in_range, !bind_Some by lia. cbn [with_word].
  set (n := Inner.set_control _ _). tree_simpl. set (h2 := <[a := nd']> (<[w := NInner n]> (mem t))).
  destruct (insert_root (int_inner T) grown a rnode mid (enc T mid) (malloc h2) (found_raw w) (found_raw (malloc h2)))
    as (Hwf & Hk0 & n' & seps' & (r & Hins & [= -> Er])%fmap_Some & Hcov); [apply found_raw_ok..|done|].
  pose proof (new_index _ _ _ mid Hwf Hk0 eq_refl eq_refl) as Hidx.
  cbn [ik_with ik_new int_inner] in Hins, Hidx. fold n in Hins, Hidx.
  unfold FBTree.node_fuel. cbn [FBTree.index_right]. unfold FBTree.inner. rewrite lookup_insert_eq, bind_Some, Hidx, !bind_Some.
  rewrite (latched_unlatch k _ a nd nd'), bind_Some by (by rewrite ?lookup_insert_ne).
  fold h2. assert (h2 !! w = Some (NInner n)) as Hw2 by (unfold h2; by rewrite lookup_insert_ne, lookup_insert_eq by done).
  rewrite Hw2, bind_Some, Hins, bind_Some, <- Er.
  destruct (icovers_latched (S k) _ _ _ _ _ Hcov eq_refl) as (nw & Hlw & Hlinks).
  eexists _, w, _, _. split; [done|]. split; [done|]. split; [done|]. split; [done|]. split; [|done].
  unfold spine_of. tree_simpl. unfold h2. rewrite insert_insert_ne, insert_insert_eq by done.
  replace (Z.to_nat (Z.of_nat k + 1)) with (S k) by lia. by rewrite (insert_insert_ne _ a w) by done.
Qed.

(** one turn of the loop below the root: [p] gets the new separator *)
Lemma up_one t k a nd nd' rnode u mid p E1 E2 n g seps nx :
  a <> root_ t -> mem t !! a = Some nd -> latched k nd nd' -> p <> a ->
  mem t !! p = Some (NInner n) -> covers (int_inner T) grown n g seps (before E1 E2 a u) nx -> Control.f_locked g = false ->
  ordered (in_range T) (before E1 E2 a u) -> ordered (in_range T) (after E1 E2 a rnode u mid) -> in_range T mid ->
  exists ra r, mem t !! ra = None
    /\ (let g := Control.with_locked g true in
        match Inner.i_rnode r with
        | None => exists seps', covers (int_inner T) grown (Inner.i_this r) (Control.bump g) seps' (after E1 E2 a rnode u mid) nx
        | Some (rn, mid') => exists F1 q v F2 seps1 seps2,
           after E1 E2 a rnode u mid = (F1 ++ [(q, Some v)]) ++ F2 /\ F2 <> []
           /\ (mid' = enc T v /\ in_range T v)
           /\ covers (int_inner T) grown (Inner.i_this r) (Control.with_sibling (Control.bump g) true) seps1
                (F1 ++ [(q, Some v)]) (Some ra)
           /\ covers (int_inner T) grown rn (Control.inner_fields (Control.f_sibling g)) seps2 F2 nx
        end)
    /\ forall fuel st,
         FBTree.propagate T (S fuel) t a rnode (enc T mid) (Z.of_nat k) (p :: st)
         = let h := <[p := NInner (Inner.i_this r)]> (<[a := nd']> (mem t)) in
           match Inner.i_rnode r with
           | None => Some (FBTree.with_mem t h, p)
           | Some (rn, mid') =>
               FBTree.propagate T fuel (FBTree.with_mem t (<[ra := NInner rn]> h)) p ra mid' (Z.of_nat (S k)) st
           end.
Proof.
  intros Hroot Ha Hlk Hpa Hp Hc Hg Ho Ho' Hmid. pose proof (inner_word T grown _ _ _ _ _ _ _ Hp Hc) as Hpn.
  set (n1 := Inner.set_control n (Control.encode (Control.with_locked g true))).
  set (h1 := <[p := NInner n1]> (mem t)). set (h2 := <[a := nd']> h1).
  pose proof (covers_lock (int_inner T) grown _ _ _ _ _ Hc true) as Hc1. cbn [ik_with int_inner] in Hc1. fold n1 in Hc1.
  destruct (insert_covers (int_inner T) grown E1 E2 a rnode u mid (enc T mid) n1 _ seps nx Hc1 Ho' (conj eq_refl Hmid)
    (malloc h2) (found_raw (malloc h2))) as (n' & rest & (r & Hins & [= -> ->])%fmap_Some & Hr); [apply found_raw_ok|].
  exists (malloc h2), r. split; [|split; [done|]].
  - pose proof (malloc_fresh h2) as Hfr. unfold h2 at 1 in Hfr. unfold h1 at 1 in Hfr.
    apply lookup_insert_None in Hfr as [Hfr _]. by apply lookup_insert_None in Hfr as [Hfr _].
  - intros fuel st. cbn [FBTree.propagate]. unfold FBTree.parent. bfalse (a =? root_ t).
    rewrite (latch_node _ p _ g Hpn Hg), bind_Some. cbn [with_word]. fold n1. fold h1. rewrite bind_Some. tree_simpl.
    unfold FBTree.node_fuel.
    rewrite (index_right_here h1 p n1 (Control.with_locked g true) seps E1 (a, u) E2 nx _ mid), bind_Some;
      [|unfold h1; by rewrite lookup_insert_eq|done|done|by apply (after_located E1 E2 a rnode u mid (in_range T))|done].
    rewrite (latched_unlatch k h1 a nd nd'), bind_Some by (unfold h1; by rewrite ?lookup_insert_ne).
    fold h2. assert (h2 !! p = Some (NInner n1)) as Hp2.
    { unfold h2, h1. by rewrite lookup_insert_ne, lookup_insert_eq by done. }
    unfold FBTree.inner. rewrite Hp2, bind_Some, Hins, bind_Some.
    assert (<[p := NInner (Inner.i_this r)]> h2 = <[p := NInner (Inner.i_this r)]> (<[a := nd']> (mem t))) as Eh.
    { unfold h2, h1. rewrite (insert_insert_ne _ p a) by done. by rewrite insert_insert_eq, (insert_insert_ne _ p a) by done. }
    cbv zeta. rewrite Eh. replace (Z.of_nat (S k)) with (Z.of_nat k + 1) by lia. done.
Qed.

Definition same_epoch t t' : Prop := guarded t' = guarded t /\ retired t' = retired t.

(** [propagate] brings splits up; its separators are the keys, encoded *)
#[export] Instance propagation : Propagation (inner_at T grown) (in_range T) spine_of same_epoch (fun mid : Z => mid)
  (in_range T) latched (fun fuel t a rnode mid k => FBTree.propagate T fuel t a rnode (enc T mid) (Z.of_nat k))
  FBTree.unlatch_exclusive.
Proof.
  split.
  - split; [done|]. intros t1 t2 t3 [? ?] [? ?]. split; congruence.
  - done.
  - intros k h p nd nd' Hp Hl. by apply (latched_unlatch k h p nd).
  - intros t k a nd nd' rnode mid fuel Hroot Ha Hlk Hmid Hd Hd13 Hlen. by eapply (new_root t k a nd nd').
  - intros t k a nd nd' rnode u mid p E1 E2 nx Har Ha Hlk Hpa (n & g & seps & Hp & Hc & Hg) Ho Ho' Hmid.
    destruct (up_one t k a nd nd' rnode u mid p E1 E2 n g seps nx Har Ha Hlk Hpa Hp Hc Hg Ho Ho' Hmid) as (ra & r & Hra & Hr & Hrun).
    cbn zeta in *. destruct (Inner.i_rnode r) as [[rn mid']|].
    + destruct Hr as (F1 & q & v & F2 & seps1 & seps2 & EF & HF2 & [-> Hv] & Hc1 & Hc2).
      destruct (icovers_latched (S k) _ _ _ _ _ Hc1 eq_refl) as (n' & Hl1 & Hlinks).
      eexists _, _, (FBTree.with_mem t _). split; [done|]. split; [done|]. right. exists ra, (NInner rn), v, F1, q, F2.
      do 5 (split; [done|]). split; [|done]. intros h x Hx. eexists _, _, _. by split.
    + destruct Hr as (seps' & Hr). destruct (icovers_latched (S k) _ _ _ _ _ Hr eq_refl) as (n' & Hl1 & Hlinks).
      eexists _, _, (FBTree.with_mem t _). split; [done|]. split; [done|]. by left.
Qed.
End propagate.

(** ** The operations *)

Section ops.
Context {V : Type} `{AllocatorLaws V T} (grown : bool).
Implicit Types (h : heap V) (m : gmap Z (kvpair V)) (C : level) (t : tree V) (kv : kvpair V).

Abbreviation represents := (represents T grown).
Abbreviation found := (found T grown).

Lemma tree_lookup_spec t m C ups key :
  represents t m C ups -> in_range T key -> FBTree.lookup T t key = Some (m !! key).
Proof.
  intros Hr Hk. destruct (find_leaf T grown t m C ups key Hr Hk) as (frs & C1 & e & C2 & n & f & Hf).
  unfold FBTree.lookup. rewrite (rp_guarded _ _ _ _ _ _ Hr). cbn [asserting].
  change (key_bytes T (encode_convert T key)) with (enc T key).
  rewrite (found_to_leaf T grown _ _ _ _ _ _ _ _ _ _ _ Hf), bind_Some.
  destruct (found_read T grown _ _ _ _ _ _ _ _ _ _ _ Hf) as [-> He]. rewrite bind_Some. unfold FBTree.leaf.
  rewrite (fo_leaf _ _ _ _ _ _ _ _ _ _ _ _ _ Hf), bind_Some.
  rewrite (lookup_content T n key), bind_Some by apply (fo_holds _ _ _ _ _ _ _ _ _ _ _ _ _ Hf).
  rewrite (found_content T grown _ _ _ _ _ _ _ _ _ _ _ Hr Hf). destruct (m !! key); [done|]. by rewrite He.
Qed.

(** a leaf replaced, and its part of the map with it *)
Lemma represents_leaf t m m' C ups C1 e C2 n' f' :
  represents t m C ups -> C = C1 ++ e :: C2 -> keyed m' ->
  (forall k, ~ Forall (below k) C1 \/ below k e -> m' !! k = m !! k) ->
  leaf_holds T n' f' m' C1 e (first C2) -> Control.f_locked f' = false ->
  represents (FBTree.with_mem t (<[e.1 := NLeaf n']> (mem t))) m' C ups.
Proof.
  intros [Hs [_ Hg]]%represents_standing -> Hkey Hm Hn' Hlk'. apply represents_standing. split; [|done].
  eapply (standing_leaf _ _ _ (spine_of t)); [done|done|]. exists n', f'. by rewrite lookup_insert_eq.
Qed.

(** the leaf of the key replaced by one that holds the pair *)
Lemma store_leaf t m C ups frs C1 e C2 n f n' f' kv :
  represents t m C ups -> found t m C ups (kv_key kv) frs C1 e C2 n f ->
  leaf_holds T n' f' (<[kv_key kv := kv]> m) C1 e (first C2) -> Control.f_locked f' = false ->
  represents (FBTree.with_mem t (<[e.1 := NLeaf n']> (mem t))) (<[kv_key kv := kv]> m) C ups.
Proof.
  intros Hr Hf Hn' Hlk'. eapply (represents_leaf t m); [done|apply Hf| | |done|done].
  - intros k x. rewrite lookup_insert_Some. intros [[<- <-]|[_ ?]]; [done|by apply (rp_keyed _ _ _ _ _ _ Hr)].
  - intros k. eapply insert_elsewhere, Hf.
Qed.

Lemma tree_update_spec t m C ups kv :
  represents t m C ups -> in_range T (kv_key kv) ->
  exists t', FBTree.update T t kv = Some (m !! kv_key kv, t')
    /\ represents t' (match m !! kv_key kv with Some _ => <[kv_key kv := kv]> m | None => m end) C ups
    /\ size (mem t') = size (mem t) /\ retired t' = retired t.
Proof.
  intros Hr Hk. destruct (find_leaf T grown t m C ups _ Hr Hk) as (frs & C1 & e & C2 & n & f & Hf).
  pose proof (fo_holds _ _ _ _ _ _ _ _ _ _ _ _ _ Hf) as Hh. pose proof (lh_wf _ _ _ _ _ _ _ Hh) as Hwf.
  unfold FBTree.update. rewrite (rp_guarded _ _ _ _ _ _ Hr). cbn [asserting].
  change (key_bytes T (encode_convert T (kv_key kv))) with (enc T (kv_key kv)).
  rewrite (found_to_leaf T grown _ _ _ _ _ _ _ _ _ _ _ Hf), bind_Some.
  destruct (found_read T grown _ _ _ _ _ _ _ _ _ _ _ Hf) as [-> He]. rewrite bind_Some. unfold FBTree.leaf.
  rewrite (fo_leaf _ _ _ _ _ _ _ _ _ _ _ _ _ Hf), bind_Some.
  pose proof (LeafSpec.update_spec T n kv (wf_body _ _ _ Hwf)) as Hu.
  rewrite (found_content T grown _ _ _ _ _ _ _ _ _ _ _ Hr Hf) in Hu.
  destruct (m !! kv_key kv) as [old|] eqn:Em.
  - destruct Hu as (i & Hui & Hki & Eki & ->). rewrite bind_Some. eexists. split; [done|].
    destruct (exchange_used T n i old kv (wf_body _ _ _ Hwf) Hui Hki Eki) as (_ & _ & Hhas & _).
    split; [|split; [|done]].
    + eapply store_leaf; [done|done| |apply (fo_unlocked _ _ _ _ _ _ _ _ _ _ _ _ _ Hf)].
      apply (leaf_holds_store T n _ f f m C1 e); try done; [apply Hr|apply Hf|].
      by apply (exchange_leaf_wf T n f i old kv).
    + tree_simpl. apply map_size_insert_Some. rewrite (fo_leaf _ _ _ _ _ _ _ _ _ _ _ _ _ Hf). eauto.
  - rewrite Hu, bind_Some, He. cbn. by exists t.
Qed.

(** ** [upsert] *)

(** the code up to the insertion in the leaf, which the caller has latched *)
Lemma upsert_begin t m C ups frs C1 e C2 n f kv :
  represents t m C ups -> found t m C ups (kv_key kv) frs C1 e C2 n f ->
  let n1 := Leaf.set_control n (Control.encode (Control.with_locked f true)) in
  let h1 := <[e.1 := NLeaf n1]> (mem t) in
  FBTree.upsert T t kv =
    (let* r := Leaf.upsert T n1 kv (malloc h1) (found_tags (malloc h1)) in
     let h := <[e.1 := NLeaf (Leaf.u_this r)]> (mem t) in
     let* (t', current) :=
       match Leaf.u_rnode r with
       | None => Some (FBTree.with_mem t h, e.1)
       | Some (rn, mid) =>
           let h := <[malloc h1 := NLeaf rn]> h in
           FBTree.propagate T (S (FBTree.node_fuel h)) (FBTree.with_mem t h) e.1 (malloc h1) (key_bytes T mid) 0
             (fr_p <$> frs)
       end in
     let* h := FBTree.unlatch_exclusive (mem t') current in
     Some (Leaf.u_old r, FBTree.with_mem t' h)).
Proof.
  intros Hr Hf n1 h1. pose proof (fo_holds _ _ _ _ _ _ _ _ _ _ _ _ _ Hf) as Hh.
  unfold FBTree.upsert. rewrite (rp_guarded _ _ _ _ _ _ Hr). cbn [asserting].
  change (key_bytes T (encode_convert T (kv_key kv))) with (enc T (kv_key kv)).
  rewrite (fo_path _ _ _ _ _ _ _ _ _ _ _ _ _ Hf), bind_Some.
  rewrite (latch_node (mem t) e.1 (NLeaf n) f), bind_Some.
  2:{ eapply leaf_node; [apply Hf|done]. }
  2:{ apply Hf. }
  cbn [with_word]. fold n1. fold h1. unfold FBTree.node_fuel. cbn [FBTree.latch_right]. unfold FBTree.leaf.
  assert (h1 !! e.1 = Some (NLeaf n1)) as Hh1 by apply lookup_insert_eq.
  rewrite Hh1, bind_Some. pose proof (leaf_holds_lock T n f m C1 e _ true Hh) as Hl. fold n1 in Hl.
  rewrite (leaf_holds_stays T n1 _ m C1 e _ (kv_key kv) Hl), bind_Some, bind_Some by apply Hf.
  rewrite Hh1, bind_Some. destruct (Leaf.upsert _ _ _ _ _) as [r|]; [|done]. rewrite !bind_Some.
  assert (<[e.1 := NLeaf (Leaf.u_this r)]> h1 = <[e.1 := NLeaf (Leaf.u_this r)]> (mem t)) as ->
    by (unfold h1; by rewrite insert_insert_eq).
  done.
Qed.

(** the pair stays in its leaf *)
Lemma upsert_in_place t m C ups frs C1 e C2 n f f' kv n' old :
  represents t m C ups -> found t m C ups (kv_key kv) frs C1 e C2 n f ->
  let n1 := Leaf.set_control n (Control.encode (Control.with_locked f true)) in
  let h1 := <[e.1 := NLeaf n1]> (mem t) in
  Leaf.upsert T n1 kv (malloc h1) (found_tags (malloc h1)) = Some (Leaf.mkUpsert old n' None) ->
  leaf_holds T n' f' (<[kv_key kv := kv]> m) C1 e (first C2) -> Control.f_locked f' = true ->
  exists t', FBTree.upsert T t kv = Some (old, t') /\ represents t' (<[kv_key kv := kv]> m) C ups
    /\ size (mem t') = size (mem t) /\ retired t' = retired t.
Proof.
  intros Hr Hf n1 h1 Hu Hn' Hlk'. rewrite (upsert_begin t m C ups frs C1 e C2 n f kv Hr Hf).
  fold n1. fold h1. rewrite Hu, bind_Some. cbn [Leaf.u_rnode Leaf.u_this Leaf.u_old]. rewrite bind_Some. tree_simpl.
  rewrite (unlatch_node _ e.1 (NLeaf n') f'), bind_Some.
  2:{ eapply leaf_node; [apply lookup_insert_eq|done]. }
  2:{ done. }
  rewrite insert_insert_eq. cbn [with_word]. eexists. split; [done|]. split; [|split; [|done]].
  - change (FBTree.with_mem (FBTree.with_mem t ?a) ?b) with (FBTree.with_mem t b).
    eapply store_leaf; [done|done|by apply leaf_holds_lock|done].
  - tree_simpl. apply map_size_insert_Some. rewrite (fo_leaf _ _ _ _ _ _ _ _ _ _ _ _ _ Hf). eauto.
Qed.

(** a full leaf is split, and the new leaf goes into the levels above *)
Lemma upsert_up t m C1 a u C2 frs n f kv n' rn' :
  let C := C1 ++ (a, u) :: C2 in let L := levels (a, u) frs in
  represents t m C L -> found t m C L (kv_key kv) frs C1 (a, u) C2 n f -> tree_depth_ t < 13 ->
  let n1 := Leaf.set_control n (Control.encode (Control.with_locked f true)) in
  let b := malloc (<[a := NLeaf n1]> (mem t)) in
  let mid := high_key_ n' in
  let F := Control.with_sibling (touched (Control.with_locked f true)) true in
  Leaf.upsert T n1 kv b (found_tags b) = Some (Leaf.mkUpsert None n' (Some (rn', encode_convert T mid))) ->
  (forall w, u = Some w -> mid < w) ->
  leaf_holds T n' F (<[kv_key kv := kv]> m) C1 (a, Some mid) (Some b) ->
  leaf_holds T rn' (new_fields (Control.f_sibling f)) (<[kv_key kv := kv]> m) (C1 ++ [(a, Some mid)]) (b, u) (first C2) ->
  ordered (in_range T) (C1 ++ (a, Some mid) :: (b, u) :: C2) -> in_range T mid ->
  exists t' ups', FBTree.upsert T t kv = Some (None, t')
    /\ represents t' (<[kv_key kv := kv]> m) (C1 ++ (a, Some mid) :: (b, u) :: C2) ups' /\ retired t' = retired t
    /\ (length ups' <= S (length L))%nat /\ (size (mem t') <= size (mem t) + S (S (length L)))%nat.
Proof.
  intros C L Hr Hf Hd n1 b mid F Hu Hmid Hh' Hhr Ho' Hin. pose proof (lh_wf _ _ _ _ _ _ _ Hh') as Hwf'.
  assert (mem t !! a = Some (NLeaf n)) as Ha by apply (fo_leaf _ _ _ _ _ _ _ _ _ _ _ _ _ Hf).
  assert (mem t !! b = None) as Hb.
  { pose proof (malloc_fresh (<[a := NLeaf n1]> (mem t))) as Hfr. by apply lookup_insert_None in Hfr as [? _]. }
  assert (a <> b) as Hab by congruence.
  rewrite (upsert_begin t m C L frs C1 (a, u) C2 n f kv Hr Hf). cbn [fst]. fold n1. fold b.
  rewrite Hu, bind_Some. cbn [Leaf.u_rnode Leaf.u_this Leaf.u_old].
  set (h2 := <[b := NLeaf rn']> (<[a := NLeaf n']> (mem t))).
  apply represents_standing in Hr as (Hs & Hkey & Hg). destruct (standing_beside _ _ _ _ _ _ _ _ _ Hs) as [HaL _]. cbn in HaL.
  assert (size h2 = S (size (mem t))) as Esize.
  { unfold h2. rewrite map_size_insert_None, map_size_insert_Some; [done|by eexists|by rewrite lookup_insert_ne]. }
  pose proof (length_levels (a, u) frs) as ELf. fold L in ELf.
  set (n2 := NLeaf (Leaf.set_control n' (Control.encode (Control.with_locked F false)))).
  destruct (propagate_grows (Hprog := propagation grown) frs (FBTree.with_mem t h2) 0 C1 a u C2 b mid (NLeaf n') n2 (S (FBTree.node_fuel h2)))
    as (t' & cur' & h' & ups' & Hp & Hul & [Hg' Hret] & Hgr); tree_simpl; try done; try apply Hs.
  - apply (zip_frame (inner_at T grown) (mem t)); [|apply Hf]. intros x Hx. cbn [sp_mem spine_of] in *. tree_simpl. unfold h2.
    rewrite !lookup_insert_ne; [done|by intros <-|]. intros <-. destruct (chain_dom _ _ _ _ _ _ (st_chain _ _ _ _ _ _ _ Hs) Hx) as [y Hy].
    change (mem t !! b = Some y) in Hy. congruence.
  - cbn [sp_mem spine_of]. tree_simpl. unfold h2. by rewrite lookup_insert_ne, lookup_insert_eq.
  - exists F. by destruct Hwf'.
  - apply NoDup_cons. split; [done|]. pose proof (st_nodup _ _ _ _ _ _ _ Hs) as Hnd. by apply NoDup_app in Hnd as (_ & _ & ?).
  - etrans; [apply (st_depth _ _ _ _ _ _ _ Hs)|by rewrite ELf].
  - pose proof (standing_size _ _ _ _ _ _ _ Hs) as Hsz. rewrite length_app in Hsz. cbn [sp_mem spine_of] in Hsz.
    pose proof (chain_levels _ _ _ _ _ (st_chain _ _ _ _ _ _ _ Hs)). unfold FBTree.node_fuel. lia.
  - change (Z.of_nat 0) with 0 in Hp. change (key_bytes T (encode_convert T mid)) with (enc T mid). cbn [sp_mem spine_of] in Hul.
    rewrite Hp, bind_Some, Hul, bind_Some. pose proof (gr_size _ _ _ _ _ _ _ _ _ _ Hgr) as Hsz.
    cbn [sp_mem spine_of mem FBTree.with_mem] in Hsz. fold L in Hsz.
    eexists _, ups'. split; [done|]. split.
    { apply represents_standing. split; [|split].
      - eapply (standing_split _ _ _ (spine_of t) m _ C1 a u C2 L mid b (NLeaf n') n2 (NLeaf rn') h2 (spine_of t')); try done.
        + intros k. eapply insert_elsewhere, Hf.
        + intros h Hh. eexists _, _. split; [done|]. split; [by apply leaf_holds_lock|done].
        + intros h Hh. eexists _, _. split; [done|]. by split.
      - intros k x. rewrite lookup_insert_Some. intros [[<- <-]|[_ ?]]; [done|by apply Hkey].
      - tree_simpl. by rewrite Hg'. }
    split; [done|]. split; [apply (gr_levels _ _ _ _ _ _ _ _ _ _ Hgr)|]. tree_simpl. lia.
Qed.

Lemma tree_upsert_spec t m C ups kv :
  represents t m C ups -> in_range T (kv_key kv) -> tree_depth_ t < 13 ->
  exists t' C' ups', FBTree.upsert T t kv = Some (m !! kv_key kv, t')
    /\ represents t' (<[kv_key kv := kv]> m) C' ups' /\ retired t' = retired t
    /\ (length ups' <= S (length ups))%nat /\ (size (mem t') <= size (mem t) + S (S (length ups)))%nat.
Proof.
  intros Hr Hk Hd. destruct (find_leaf T grown t m C ups _ Hr Hk) as (frs & C1 & e & C2 & n & f & Hf).
  pose proof (fo_holds _ _ _ _ _ _ _ _ _ _ _ _ _ Hf) as Hh.
  pose proof (fo_located _ _ _ _ _ _ _ _ _ _ _ _ _ Hf) as Hloc.
  set (n1 := Leaf.set_control n (Control.encode (Control.with_locked f true))).
  set (b := malloc (<[e.1 := NLeaf n1]> (mem t))). set (f1 := Control.with_locked f true).
  pose proof (leaf_holds_lock T n f m C1 e _ true Hh) as Hh1. fold n1 f1 in Hh1.
  pose proof (lh_wf _ _ _ _ _ _ _ Hh1) as Hwf1. pose proof (rp_keyed _ _ _ _ _ _ Hr) as Hkey.
  pose proof (leaf_holds_content T n1 f1 m C1 e _ _ Hh1 Hkey Hloc) as Hcont.
  assert (upsert_args T n1 f1 kv (found_tags b)) as Hargs.
  { split; [done| |apply found_tags_ok]. rewrite (lh_sib _ _ _ _ _ _ _ Hh1), bool_decide_eq_true.
    intros [u Hu]. destruct (lh_high _ _ _ _ _ _ _ Hh1 u Hu) as [-> _]. destruct Hloc as [_ Hn].
    unfold below in Hn. rewrite Hu in Hn. lia. }
  destruct (m !! kv_key kv) as [old|] eqn:Em; [|destruct (decide (bitmap_ n1 = Z.ones 64)) as [Hfull|Hroom]].
  - destruct (upsert_present T n1 f1 kv old b (found_tags b) Hwf1 Hcont) as (n' & Hu & Hwf' & _ & Hx & ? & ?).
    destruct (upsert_in_place t m C ups frs C1 e C2 n f f1 kv n' (Some old) Hr Hf Hu) as (t' & -> & Hr' & Hs & Hret); [|done|].
    + by apply (leaf_holds_store T n1 n' f1 f1 m C1 e).
    + exists t', C, ups. split; [done|]. split; [done|]. split; [done|]. split; lia.
  - destruct (upsert_split T n1 f1 kv b (found_tags b) Hwf1 Hcont Hargs Hfull)
      as (n' & rn' & Hu & Hwf' & Hwfr & Hx' & Hxr & Hsn & Hsr & (x0 & Hx0 & Ex0) & Hne).
    destruct e as [a u]. cbn [fst] in *.
    destruct (split_holds T m C1 a u (first C2) n1 n' rn' f1 _ _ b kv Hh1 Hkey Em Hloc Hwf' Hwfr)
      as (Hmid & Hh' & Hhr); try done; [apply (lh_del _ _ _ _ _ _ _ Hh1)|exists x0; apply Hx'; split; [by right|lia]|].
    assert (in_range T (high_key_ n')) as Hin by apply Hwf'.
    pose proof (fo_split _ _ _ _ _ _ _ _ _ _ _ _ _ Hf) as EC.
    pose proof (fo_levels _ _ _ _ _ _ _ _ _ _ _ _ _ Hf) as EL. subst C ups.
    assert (ordered (in_range T) (C1 ++ (a, Some (high_key_ n')) :: (b, u) :: C2)) as Ho'.
    { apply (ordered_split (in_range T)); [apply Hr|done|done|]. rewrite <- Ex0. apply (lh_has _ _ _ _ _ _ _ Hh1) in Hx0.
      apply Hx0. }
    destruct (upsert_up t m C1 a u C2 frs n f kv n' rn' Hr Hf Hd Hu Hmid Hh' Hhr Ho' Hin) as (t' & ups' & Hrun & Hr' & Hrest).
    by exists t', (C1 ++ (a, Some (high_key_ n')) :: (b, u) :: C2), ups'.
  - destruct (upsert_simple T n1 f1 kv b (found_tags b) Hwf1 Hcont Hargs Hroom) as (n' & Hu & Hwf' & Hx & ? & ?).
    destruct (upsert_in_place t m C ups frs C1 e C2 n f (touched f1) kv n' None Hr Hf Hu) as (t' & -> & Hr' & Hs & Hret); [|done|].
    + apply (leaf_holds_store T n1 n' f1 (touched f1) m C1 e); try done.
      intros x. rewrite Hx. pose proof (proj1 (content_None T n1 (kv_key kv) (wf_body _ _ _ Hwf1)) Hcont x). naive_solver.
    + exists t', C, ups. split; [done|]. split; [done|]. split; [done|]. split; lia.
Qed.
End ops.
