(* ===== verification/FBTreeScan.v ===== *)
(** * Ordered access to the tree of integer keys

    [begin], the bounds and [advance] of [FBTree], on a tree that [represents] a map. How an
    iterator goes through the leaves is proved in [Scan]; here is the program, as [Scan]
    sees it. *)

From S2P Require Import Prelude Bits Simd Strings Encode Control Leaf LeafSpec Inner InnerSpec Moves InnerOps FBTree Levels Growth Words Cover InnerKind LeafPart Scan FBTreeSpec FBTreeOps.

Section scanner.
Context {V : Type} `{AllocatorLaws V T}.
Implicit Types (h : heap V) (n : leaf V).

Definition int_scanner : scanner (node V) (kvpair V) Z Z (iterator V) := {|
  sn_begin := FBTree.begin_read; sn_end := FBTree.end_read;
  sn_sibling h a := Leaf.sibling <$> FBTree.leaf h a;
  sn_access := FBTree.access T; sn_advance := FBTree.advance_right T;
  sn_node a := a; sn_move _ a := a; sn_ok _ _ := True;
  sn_bound := FBTree.get_bound T; sn_bound_right := FBTree.bound_right T;
  sn_iter := mkIterator; sn_pair := kv_;
|}.

Definition int_leaf (nd : node V) n (f : Control.fields) : Prop := nd = NLeaf n.

Lemma leaf_word h a n f : h !! a = Some (NLeaf n) -> leaf_wf T n f -> node_at h a (NLeaf n) f.
Proof. intros Hm []. split; [done|]. by split. Qed.

Lemma get_bound_spec h a n f m C1 e nx key upper :
  a = e.1 -> h !! e.1 = Some (NLeaf n) -> leaf_holds T n f m C1 e nx -> Control.f_locked f = false ->
  ~ below key e -> (upper = true -> content n !! key = None) ->
  exists n' f' o pos, FBTree.get_bound T h a key upper
      = Some (<[e.1 := NLeaf n']> h, a, o, pos, Control.load_version (Control.encode f'))
    /\ Control.f_locked f' = false /\ Control.f_ordered f' = true /\ sorts T n f n' f'
    /\ leaf_first n' (above upper key) o /\ (forall x, o = Some x -> used n' pos /\ kv_at n' pos x).
Proof.
  intros -> Hm Hh Hlk Hn Hup. pose proof (lh_wf _ _ _ _ _ _ _ Hh) as Hwf. pose proof Hwf as [Hb Hw Hv _ _ _ _].
  destruct (read_node _ _ _ _ (leaf_word h e.1 n f Hm Hwf) Hlk) as [Hbr Her].
  unfold FBTree.get_bound, FBTree.node_fuel. cbn [FBTree.read_right]. rewrite Hbr, bind_Some.
  unfold FBTree.leaf. rewrite Hm, bind_Some, (leaf_stays T n f m C1 e _ key Hh Hn), !bind_Some, Hm, bind_Some.
  destruct (reads n f Hv Hw) as (-> & _). destruct (Control.f_ordered f) eqn:Eo; cbn [negb].
  - destruct (bound_ok T n f key upper Hwf Eo Hup) as (o & pos & -> & Hfirst & Hk).
    rewrite bind_Some, Her, bind_Some. exists n, f, o, pos. by rewrite insert_id.
  - unfold FBTree.bound_sorted. rewrite (latch_node h e.1 (NLeaf n) f), bind_Some by (done || by apply leaf_word).
    cbn [with_word]. set (n1 := Leaf.set_control n _). set (h1 := <[e.1 := NLeaf n1]> h).
    assert (h1 !! e.1 = Some (NLeaf n1)) as Hh1 by apply lookup_insert_eq.
    unfold FBTree.node_fuel. cbn [FBTree.latch_right]. unfold FBTree.leaf. rewrite Hh1, bind_Some.
    rewrite (leaf_stays T n1 (Control.with_locked f true) m C1 e _ key (leaf_holds_lock T n f m C1 e _ true Hh) Hn), !bind_Some.
    rewrite Hh1, bind_Some. destruct (sort_latched T n f (found_tags e.1) Hwf) as (n2 & f2 & Hsort & Hl2 & Hs2); [apply found_tags_ok..|].
    fold n1 in Hsort. rewrite Hsort, bind_Some.
    destruct (bound_ok T n2 f2 key upper (so_wf _ _ _ _ _ Hs2) (so_ordered _ _ _ _ _ Hs2)) as (o & pos & -> & Hfirst & Hk).
    { intros Hu. rewrite (content_same T n n2); [by apply Hup|done|apply Hs2|apply Hs2]. }
    rewrite bind_Some. unfold h1. rewrite insert_insert_eq.
    rewrite (unlatch_node _ e.1 (NLeaf n2) f2), bind_Some, insert_insert_eq; [|apply leaf_word; [apply lookup_insert_eq|apply Hs2]|done].
    cbn [with_word]. destruct (so_wf _ _ _ _ _ Hs2) as [_ Hw2 Hv2 _ _ _ _].
    exists (Leaf.set_control n2 (Control.encode (Control.with_locked f2 false))), (Control.with_locked f2 false), o, pos.
    rewrite version_locked, Hw2 by done. split; [done|]. split; [done|]. split; [apply Hs2|]. by split; [apply sorts_unlock|].
Qed.

#[export] Instance scanning : Scanning T (fun kv : kvpair V => kv) (fun key : Z => key) (in_range T) int_leaf int_scanner.
Proof.
  split; cbn [sn_begin sn_end sn_sibling sn_access sn_advance sn_node sn_move sn_ok sn_bound sn_bound_right sn_iter sn_pair int_scanner]; try done.
  - intros h a nd n f Hm -> Hwf Hlk. by apply (read_node h a (NLeaf n) f); [apply leaf_word|].
  - intros h a nd n f Hm ->. unfold FBTree.leaf. by rewrite Hm.
  - intros h a nd n f Hm -> Hwf Hlk. destruct (access_slot T n f (found_tags a) Hwf Hlk) as (n' & f' & Hacc & Hs & Hl'); [apply found_tags_ok..|].
    exists (NLeaf n'), n', f', (entry_at n' 0). unfold FBTree.access, FBTree.leaf. rewrite Hm, bind_Some, Hacc, bind_Some.
    do 4 (split; [done|]). by destruct (entry_at n' 0).
  - intros h a nd n f x i Hm -> Hwf Hlk Ho. exists (entry_at n i). unfold FBTree.access, FBTree.leaf.
    rewrite Hm, bind_Some, (access_after T n f), bind_Some, insert_id by done. split; [done|]. by destruct (entry_at n i).
  - intros fuel h a v0 x cur next pos v. cbn [FBTree.advance_right]. destruct next; [done|].
    by destruct (FBTree.leaf h cur).
  - intros h a nd n f m C1 e nx key upper Ha _ Hm -> Hh Hlk _ Hn Hup.
    destruct (get_bound_spec h a n f m C1 e nx key upper Ha Hm Hh Hlk Hn Hup) as (n' & f' & o & pos & -> & Hl' & Ho & Hs & Hf & Hk).
    exists (NLeaf n'), n', f', o, pos. do 5 (split; [done|]). split; [by destruct o|done].
  - intros fuel h a key upper. cbn [FBTree.bound_right]. destruct (FBTree.get_bound _ _ _ _ _) as [[[[[h1 a1] o] pos] v]|]; [|done].
    rewrite !bind_Some. destruct o; [done|]. by destruct (FBTree.leaf h1 a1).
Qed.
End scanner.

Section scan.
Context {V : Type} `{AllocatorLaws V T} (grown : bool).
Implicit Types (m : gmap Z (kvpair V)) (C : level) (t : tree V) (it : iterator V).
Abbreviation represents := (represents T grown).
Abbreviation program := (int_scanner (T := T)).
Abbreviation iter_ok t := (iter_ok T (fun kv : kvpair V => kv) int_leaf program (mem t)).

Lemma leaf_at_int h m C1 e nx :
  leaf_at T h m C1 e nx <->
  exists nd n f, h !! e.1 = Some nd /\ int_leaf nd n f /\ leaf_holds T n f m C1 e nx /\ Control.f_locked f = false.
Proof. unfold leaf_at, int_leaf. naive_solver. Qed.

(** the heap after a part of a scan *)
Lemma represents_heap t m C ups h :
  represents t m C ups -> standing (inner_at T grown) (leaf_at T) (in_range T) (set_mem (spine_of t) h) m C ups ->
  represents (FBTree.with_mem t h) m C ups.
Proof. intros (_ & Hk & Hg)%represents_standing Hs. by apply represents_standing. Qed.

Lemma begin_spec t m C ups :
  represents t m C ups ->
  exists t' it, FBTree.begin T t = Some (t', it) /\ represents t' m C ups /\ iter_ok t' m C it /\ first_of m (fun _ => True) (kv_ it).
Proof.
  intros Hr. pose proof Hr as (Hs & Hkey & Hg)%represents_standing.
  pose proof (chain_nonempty _ _ _ _ _ (st_chain _ _ _ _ _ _ _ Hs)) as Hne. destruct C as [|e C2]; [done|].
  destruct (first_spec T (fun kv : kvpair V => kv) (fun key : Z => key) (in_range T) int_leaf program (inner_at T grown) (leaf_at T) (in_range T) leaf_at_int
    (spine_of t) m [] e C2 ups (fun _ => True) Hs Hkey) as (v & h' & o & v' & Hb & Hacc & _ & Hs' & Hit & Hf); [done|done|].
  cbn [sn_begin sn_access int_scanner sp_mem spine_of] in *. unfold FBTree.begin. rewrite Hg. cbn [asserting].
  destruct (st_track _ _ _ _ _ _ _ Hs) as (_ & Ht & _). change (aget (root_track_ t) 0) with (root_track_ t !! 0%nat).
  cbn [sp_track spine_of] in Ht. rewrite Ht, bind_Some. cbn [first head fmap option_fmap option_map].
  rewrite bind_Some, Hb, bind_Some, Hacc, bind_Some.
  eexists _, _. split; [done|]. split; [by apply represents_heap|]. split; [exact Hit|]. by destruct o.
Qed.

Lemma advance_next t m C ups it kv :
  represents t m C ups -> iter_ok t m C it -> kv_ it = Some kv ->
  exists t' it', FBTree.advance T t it = Some (t', it') /\ (represents t' m C ups /\ iter_ok t' m C it')
    /\ first_of m (fun k => kv_key kv < k) (kv_ it').
Proof.
  intros Hr Hit Ekv. pose proof Hr as (Hs & Hkey & Hg)%represents_standing. unfold Scan.iter_ok in Hit. cbn [sn_pair int_scanner] in Hit. rewrite Ekv in Hit.
  destruct (advance_spec T (fun kv : kvpair V => kv) (fun key : Z => key) (in_range T) int_leaf program (inner_at T grown) (leaf_at T) (in_range T) leaf_at_int
    (spine_of t) m C ups it kv Hs Hkey Hit) as (a & v & i & h' & it' & -> & Hrun & Hs' & Hit' & Hf).
  revert Hrun. unfold scan_next. cbn [sn_access sn_advance sn_iter sn_pair int_scanner sp_mem spine_of] in *.
  unfold FBTree.advance. cbn [kv_ node_ pos_ version_]. rewrite !bind_Some.
  destruct (FBTree.access _ _ _ _ _ _) as [[[[h1 o] pos] v1]|]; [|done]. rewrite !bind_Some. unfold FBTree.node_fuel.
  destruct (FBTree.advance_right _ _ _ _ _ _ _ _ _ _) as [[[[[h2 nx] o2] pos2] v2]|]; [|done]. intros [= -> <-]. rewrite bind_Some.
  eexists _, _. split; [done|]. split; [split; [by apply represents_heap|exact Hit']|]. by destruct o2.
Qed.

Lemma bound_spec t m C ups key upper :
  represents t m C ups -> in_range T key -> (upper = true -> m !! key = None) ->
  exists t' it, FBTree.bound T t key upper = Some (t', it) /\ represents t' m C ups /\ iter_ok t' m C it
    /\ first_of m (above upper key) (kv_ it).
Proof.
  intros Hr Hk Hup. pose proof Hr as (Hs & Hkey & Hg)%represents_standing.
  destruct (find_leaf T grown t m C ups key Hr Hk) as (frs & C1 & e & C2 & n & f & Hf).
  pose proof (fo_split _ _ _ _ _ _ _ _ _ _ _ _ _ Hf) as ->. pose proof (fo_located _ _ _ _ _ _ _ _ _ _ _ _ _ Hf) as [Hf1 Hn].
  unfold FBTree.bound. rewrite Hg. cbn [asserting].
  change (key_bytes T (encode_convert T key)) with (enc T key).
  rewrite (found_to_leaf T grown _ _ _ _ _ _ _ _ _ _ _ Hf), bind_Some.
  destruct (bound_right_spec T (fun kv : kvpair V => kv) (fun key : Z => key) (in_range T) int_leaf program (inner_at T grown) (leaf_at T) (in_range T) leaf_at_int
    C2 (spine_of t) m ups C1 e e.1 key upper (FBTree.node_fuel (mem t)) Hs Hkey) as (h' & it & Hrun & Hs' & Hit & Hfo); try done.
  - pose proof (represents_size _ _ _ _ _ _ Hr) as Hsz. rewrite length_app, length_fmap, length_app in Hsz.
    unfold FBTree.node_fuel. cbn in Hsz. lia.
  - intros k x _ Hab. eapply Forall_impl; [exact Hf1|]. intros c Hc. unfold below in *. destruct c.2; [|done].
    destruct upper; cbn in Hab; lia.
  - cbn [sn_bound_right int_scanner sp_mem spine_of] in Hrun. rewrite Hrun, bind_Some.
    exists (FBTree.with_mem t h'), it. split; [done|]. split; [by apply represents_heap|]. split; [exact Hit|].
    cbn [sn_pair int_scanner] in Hfo. by destruct (kv_ it).
Qed.

(** a scan from an iterator at the first pair of an upward closed set *)
Lemma scan_from (P : Z -> Prop) `{!forall k, Decision (P k)} t m C ups it fuel :
  represents t m C ups -> iter_ok t m C it -> first_of m P (kv_ it) ->
  (forall j k, P j -> j < k -> P k) -> (size m <= fuel)%nat ->
  exists t', walk (FBTree.advance T) kv_ fuel t it = Some (filter (fun kv => P (kv_key kv)) (sorted_pairs m), t')
    /\ represents t' m C ups.
Proof.
  intros Hr Hit Hf HP Hfuel. set (J := fun t it => represents t m C ups /\ iter_ok t m C it).
  assert (forall t it x, J t it -> kv_ it = Some x ->
    exists t' it', FBTree.advance T t it = Some (t', it') /\ J t' it' /\ first_of m (fun k => kv_key x < k) ((fun kv => kv) <$> kv_ it')) as Hnext.
  { intros t1 it1 x [Hr1 Hit1] Ex. destruct (advance_next t1 m C ups it1 x Hr1 Hit1 Ex) as (t2 & it2 & E2 & HJ2 & Hf2).
    exists t2, it2. split; [done|]. split; [done|]. by destruct (kv_ it2). }
  destruct (walk_from (FBTree.advance T) kv_ (fun kv : kvpair V => kv) m (rp_keyed _ _ _ _ _ _ Hr) J Hnext P t it fuel)
    as (l & t' & it' & E & El & Hr' & _); [done|by destruct (kv_ it)|done|done|].
  rewrite list_fmap_id in El. subst l. by exists t'.
Qed.
End scan.
