(* ===== verification/FBTreeRemove.v ===== *)
(** * Removal from the tree

    [remove] on a tree that [represents] a map. What it does to a node is proved in
    [Cover], and how a merge goes up through the levels in [Shrink]; here is the program
    that takes the turns, and the level of the leaves. *)

From S2P Require Import Prelude Bits Simd Strings Encode Control Leaf LeafSpec Inner InnerSpec Moves InnerOps FBTree Levels Growth Words Cover Shrink InnerKind LeafPart FBTreeSpec FBTreeOps.

(** ** A merge goes up *)

Definition iproj {V} (nd : node V) : option inode := match nd with NInner n => Some n | NLeaf _ => None end.

Section shrink.
Context {V : Type} `{AllocatorLaws V T}.
Implicit Types (h : heap V) (t : tree V) (nd : node V) (mid : list Z).
Abbreviation covers := (covers (int_inner T) false).
Abbreviation latched := (latched_word word with_word).

(** the program, as [Shrink] sees it *)
Definition int_machine : machine (node V) (tree V) ptr (ik_sep (int_inner T)) := {|
  mc_spine := spine_of; mc_log := retired; mc_item p := p; mc_live := guarded;
  mc_put := FBTree.with_mem; mc_retire := FBTree.retire;
  mc_shrink fuel t a merged up mid k st := FBTree.shrink T fuel t a merged up mid (Z.of_nat k) st;
  mc_shrink_root := FBTree.shrink_root;
|}.

Lemma latched_release h a nd nd' :
  h !! a = Some nd -> latched nd nd' -> FBTree.unlatch_exclusive h a = Some (<[a := nd']> h).
Proof. exact (release_word word with_word h a nd nd'). Qed.

(** one turn of the loop *)
Lemma shrink_turn t (k : nat) a nd nd' p n g seps E1 u E2 nx merged up key :
  bool_decide (merged = None) && negb up = false ->
  mem t !! a = Some nd -> latched nd nd' -> p <> a ->
  mem t !! p = Some (NInner n) -> covers n g seps (E1 ++ (a, u) :: E2) nx -> Control.f_locked g = false ->
  ordered (in_range T) (E1 ++ (a, u) :: E2) -> in_range T key -> located E1 (a, u) key ->
  let h1 := <[p := NInner (Inner.set_control n (Control.encode (Control.with_locked g true)))]> (mem t) in
  let h := if p =? root_ t then h1 else <[a := nd']> h1 in
  forall fuel st,
    FBTree.shrink T (S fuel) t a merged up (enc T key) (Z.of_nat k) (p :: st)
    = (let* (h', merged', up', mid') := FBTree.shrink_inner T h p merged (enc T key) (Z.of_nat (length E1)) in
       let t := FBTree.with_mem (FBTree.retire t merged) h' in
       if p =? root_ t
       then (let* t := FBTree.shrink_root t p a in FBTree.shrink T fuel t p None false mid' (Z.of_nat (S k)) st)
       else FBTree.shrink T fuel t p merged' up' mid' (Z.of_nat (S k)) st).
Proof.
  intros Hgo Ha Hlk Hpa Hp Hc Hg Ho Hkey Hloc h1 h fuel st. pose proof (inner_word T false _ _ _ _ _ _ _ Hp Hc) as Hpn.
  pose proof (covers_lock (int_inner T) false _ _ _ _ _ Hc true) as Hc1.
  cbn [FBTree.shrink]. rewrite Hgo. unfold FBTree.parent_of_merged. rewrite bind_Some. tree_simpl.
  rewrite (latch_node _ p _ g Hpn Hg), bind_Some. cbn [with_word]. fold h1. unfold FBTree.node_fuel.
  rewrite (index_right_here false h1 p _ (Control.with_locked g true) seps E1 (a, u) E2 nx _ key (lookup_insert_eq _ _ _) Hc1 Ho Hloc Hkey), bind_Some.
  unfold h. replace (Z.of_nat (S k)) with (Z.of_nat k + 1) by lia. destruct (p =? root_ t); cbn [negb].
  - rewrite bind_Some. by destruct (FBTree.shrink_inner _ _ _ _ _ _) as [[[[? ?] ?] ?]|].
  - rewrite (latched_release h1 a nd nd'), bind_Some by (done || (unfold h1; by rewrite lookup_insert_ne)).
    by destruct (FBTree.shrink_inner _ _ _ _ _ _) as [[[[? ?] ?] ?]|].
Qed.

(** the root *)
Section root.
Context t (a : Z) nd nd' (p : Z) n g seps E (Ha : mem t !! a = Some nd) (Hlk : latched nd nd') (Hpa : p <> a)
  (Hp : mem t !! p = Some (NInner n)) (Hc : covers n g seps E None) (Hub : ub E = None).

Lemma root_knum : knum n = Z.of_nat (length E) - 1.
Proof. pose proof (cv_knum _ _ _ _ _ _ _ Hc) as Hk. rewrite (cv_sib _ _ _ _ _ _ _ Hc), Hub in Hk. exact Hk. Qed.

Lemma shrink_root_more :
  (2 <= length E)%nat -> FBTree.shrink_root t p a = Some (FBTree.with_mem t (<[a := nd']> (mem t))).
Proof.
  intros H2. unfold FBTree.shrink_root, FBTree.inner. rewrite Hp, bind_Some.
  rewrite (root_remove_spec T n g seps) by apply Hc. pose proof root_knum as Hk. rewrite (proj2 (Z.eqb_neq _ _)), !bind_Some by lia.
  tree_simpl. rewrite (insert_id (mem t)) by done. by rewrite (latched_release _ a nd nd').
Qed.

Lemma shrink_root_only w :
  E = [(a, w)] -> Control.f_locked g = true ->
  exists t1 n2 n2', FBTree.shrink_root t p a = Some t1 /\ latched (NInner n2 : node V) n2'
    /\ spine_of t1 = mkSpine (<[a := nd']> (<[p := NInner n2]> (mem t))) a (tree_depth_ t - 1) (root_track_ t)
    /\ retired t1 = retired t ++ [Some p] /\ guarded t1 = guarded t.
Proof.
  intros HE Hg. pose proof root_knum as Hk. rewrite HE in Hk. change (knum n = 0) in Hk.
  pose proof (covers_route _ _ _ _ _ _ _ Hc 0%nat (a, w)) as Hroute. rewrite HE in Hroute. specialize (Hroute eq_refl).
  cbn [ik_route int_inner] in Hroute. unfold route in Hroute. rewrite Hk in Hroute. injection Hroute as Hn.
  unfold FBTree.shrink_root, FBTree.inner. rewrite Hp, bind_Some. pose proof (cv_wf _ _ _ _ _ _ _ Hc) as Hwf.
  rewrite (root_remove_spec T n g seps Hwf (cv_del _ _ _ _ _ _ _ Hc)), Hk, Z.eqb_refl, bind_Some, Hn.
  cbn [fst]. rewrite Z.eqb_refl. cbn [asserting]. rewrite bind_Some. tree_simpl. set (n2 := Inner.set_control n _).
  rewrite (latched_release _ a nd nd') by (done || by rewrite lookup_insert_ne).
  cbn [fmap option_fmap option_map]. eexists _, n2, _. split; [done|]. split; [|done].
  exists (Control.with_deleted g true). split; [exact (iw_valid _ _ _ _ Hwf)|done].
Qed.
End root.

Lemma shrink_inner_node h p merged mid index :
  shrink_node (int_inner T) NInner iproj h p merged mid index = FBTree.shrink_inner T h p merged mid index.
Proof.
  unfold shrink_node, FBTree.shrink_inner.
  change (inner_node (int_inner T) (iproj (V := V)) h) with (FBTree.inner h).
  cbn [ik_remove ik_update int_inner]. destruct (FBTree.inner h p) as [n|]; [|done]. rewrite !bind_Some.
  destruct merged; [|done]. by destruct (Inner.remove _ _ _ _ _ _).
Qed.

#[export] Instance contraction : Contraction (int_inner T) NInner iproj word with_word int_machine.
Proof.
  split; try done.
  - intros fuel t a mid k st. by destruct fuel.
  - intros t k a nd nd' p n g seps E1 u E2 nx merged up mid key Hgo Ha Hlk Hpa Hp Hc Hg Ho [-> Hkey] Hloc h1 h fuel st.
    rewrite shrink_inner_node. by apply (shrink_turn t k a nd nd' p n g seps E1 u E2 nx).
  - intros t a nd nd' p n g seps E Ha Hlk Hpa Hp Hc Hub H2. by apply (shrink_root_more t a nd nd' p n g seps E).
  - intros t a nd nd' p n g seps w Ha Hlk Hpa Hp Hc Hw Hg.
    apply (shrink_root_only t a nd nd' p n g seps [(a, w)] Ha Hlk Hpa Hp Hc) with (w := w); done.
Qed.
End shrink.

(** ** [remove] *)

Section remove.
Context {V : Type} `{AllocatorLaws V T}.
Implicit Types (h : heap V) (m : gmap Z (kvpair V)) (C : level) (t : tree V).

(** to have nodes removed they need not stay half full *)
Lemma represents_shrinkable grown t m C ups : represents T grown t m C ups -> represents T false t m C ups.
Proof.
  rewrite !represents_standing. intros (Hs & Hk & Hg). split; [|done]. by apply (standing_weaken (int_inner T) NInner grown).
Qed.

(** the code up to the removal from the leaf, which the caller has latched *)
Lemma remove_begin t m C ups frs C1 e C2 n f key :
  represents T false t m C ups -> found T false t m C ups key frs C1 e C2 n f ->
  let n1 := Leaf.set_control n (Control.encode (Control.with_locked f true)) in
  let h1 := <[e.1 := NLeaf n1]> (mem t) in
  FBTree.remove T t key =
    (let* (kv, mg) := Leaf.remove T (FBTree.leaf h1) e.1 n1 key in
     let h := <[e.1 := NLeaf (Leaf.m_this mg)]> (mem t) in
     let h := match Leaf.m_rnode mg with Some (ra, rn) => <[ra := NLeaf rn]> h | None => h end in
     let merged := match Leaf.m_merged mg with Some _ => fst <$> Leaf.m_rnode mg | None => None end in
     let mid := match Leaf.m_merged mg with Some mid => key_bytes T mid | None => enc T key end in
     let* (t', current) := FBTree.shrink T (FBTree.node_fuel h) (FBTree.with_mem t h) e.1 merged false mid 0 (fr_p <$> frs) in
     let* h := FBTree.unlatch_exclusive (mem t') current in
     Some (kv, FBTree.with_mem t' h)).
Proof.
  intros Hr Hf n1 h1. pose proof (fo_holds _ _ _ _ _ _ _ _ _ _ _ _ _ Hf) as Hh.
  unfold FBTree.remove. rewrite (rp_guarded _ _ _ _ _ _ Hr). cbn [asserting].
  change (key_bytes T (encode_convert T key)) with (enc T key).
  rewrite (fo_path _ _ _ _ _ _ _ _ _ _ _ _ _ Hf), bind_Some.
  rewrite (latch_node (mem t) e.1 (NLeaf n) f), bind_Some.
  2:{ eapply leaf_node; [apply Hf|done]. }
  2:{ apply Hf. }
  cbn [with_word]. fold n1. fold h1. pose proof (leaf_holds_lock T n f m C1 e _ true Hh) as Hl. fold n1 in Hl.
  assert (FBTree.leaf h1 e.1 = Some n1) as Hh1 by (unfold FBTree.leaf, h1; by rewrite lookup_insert_eq).
  assert (FBTree.latch_right (FBTree.node_fuel h1) h1 e.1 key = Some (h1, e.1)) as ->.
  { unfold FBTree.node_fuel. cbn [FBTree.latch_right]. rewrite Hh1, bind_Some.
    by rewrite (leaf_holds_stays T n1 _ m C1 e _ key Hl), bind_Some by apply Hf. }
  rewrite bind_Some, Hh1, bind_Some. destruct (Leaf.remove _ _ _ _ _) as [[kv mg]|]; [|done]. rewrite !bind_Some.
  assert (<[e.1 := NLeaf (Leaf.m_this mg)]> h1 = <[e.1 := NLeaf (Leaf.m_this mg)]> (mem t)) as ->
    by (unfold h1; by rewrite insert_insert_eq).
  done.
Qed.

(** no leaf is merged: the levels above stay *)
Lemma remove_in_place t m C ups frs C1 e C2 n f f' key n' old :
  represents T false t m C ups -> found T false t m C ups key frs C1 e C2 n f ->
  let n1 := Leaf.set_control n (Control.encode (Control.with_locked f true)) in
  let h1 := <[e.1 := NLeaf n1]> (mem t) in
  Leaf.remove T (FBTree.leaf h1) e.1 n1 key = Some (old, Leaf.mkMerge n' None None) ->
  leaf_holds T n' f' (delete key m) C1 e (first C2) -> Control.f_locked f' = true ->
  exists t', FBTree.remove T t key = Some (old, t') /\ represents T false t' (delete key m) C ups /\ retired t' = retired t.
Proof.
  intros Hr Hf n1 h1 Hu Hn' Hlk'. rewrite (remove_begin t m C ups frs C1 e C2 n f key Hr Hf). fold n1. fold h1.
  rewrite Hu, bind_Some. cbn [Leaf.m_rnode Leaf.m_this Leaf.m_merged]. unfold FBTree.node_fuel. cbn [FBTree.shrink].
  rewrite bool_decide_true by done. cbn [andb negb]. rewrite bind_Some. tree_simpl.
  rewrite (unlatch_node _ e.1 (NLeaf n') f'), bind_Some; [|eapply leaf_node; [apply lookup_insert_eq|done]|done].
  rewrite insert_insert_eq. cbn [with_word]. eexists. split; [done|]. split; [|done].
  change (FBTree.with_mem (FBTree.with_mem t ?a) ?b) with (FBTree.with_mem t b).
  eapply (represents_leaf false t m); [done|apply Hf| | |by apply leaf_holds_lock|done].
  - intros k x. rewrite lookup_delete_Some. intros [_ ?]. by apply (rp_keyed _ _ _ _ _ _ Hr).
  - intros k. eapply delete_elsewhere, Hf.
Qed.

(** the nodes that left the tree are the ones that were retired *)
Definition gone t (t' : tree V) C C' ups ups' (l : list ptr) : Prop :=
  C.*1 ++ addrs ups ≡ₚ (C'.*1 ++ addrs ups') ++ omap id l /\ retired t' = retired t ++ l.

(** the leaf [b] is merged into the one to its left *)
Lemma remove_up t m C1 (a s b : Z) w C2 frs n f key n' f' rn' old :
  let C := C1 ++ (a, Some s) :: (b, w) :: C2 in
  let L := levels (a, Some s) frs in
  represents T false t m C L -> found T false t m C L key frs C1 (a, Some s) ((b, w) :: C2) n f ->
  Forall no_lone_pair L ->
  let n1 := Leaf.set_control n (Control.encode (Control.with_locked f true)) in
  let h1 := <[a := NLeaf n1]> (mem t) in
  Leaf.remove T (FBTree.leaf h1) a n1 key = Some (old, Leaf.mkMerge n' (Some (b, rn')) (Some (encode_convert T s))) ->
  in_range T s -> leaf_holds T n' f' (delete key m) C1 (a, w) (first C2) -> Control.f_locked f' = true ->
  exists t' ups' l, FBTree.remove T t key = Some (old, t')
    /\ represents T false t' (delete key m) (C1 ++ (a, w) :: C2) ups'
    /\ gone t t' C (C1 ++ (a, w) :: C2) L ups' l /\ (length ups' <= length L)%nat.
Proof.
  intros C L Hr Hf Hlone n1 h1 Hrem Hs0 Hn' Hlk'. rewrite (remove_begin t m C L frs C1 (a, Some s) _ n f key Hr Hf).
  cbn [fst]. fold n1 h1. rewrite Hrem, bind_Some. cbn [Leaf.m_rnode Leaf.m_this Leaf.m_merged fst fmap option_fmap option_map].
  set (h2 := <[b := NLeaf rn']> (<[a := NLeaf n']> (mem t))). apply represents_standing in Hr as (Hs & Hkey & Hg).
  set (n2 := NLeaf (Leaf.set_control n' (Control.encode (Control.with_locked f' false)))).
  destruct (merge_goes_up (int_inner T) NInner iproj word with_word int_machine (leaf_at T) (spine_of t) m
    (delete key m) C1 C2 a s b w L Hs (NLeaf n') n2 (NLeaf rn') (FBTree.with_mem t h2) eq_refl)
    with (frs := frs) (mid := enc T s) (fuel := FBTree.node_fuel h2)
    as (t' & cur & h' & ups' & l & Hrun & Hul & Hst & Hperm & Hlog & Hlive & Hlen); try done.
  - intros k. apply (delete_elsewhere m C1 (a, Some s)), Hf.
  - intros h Hh. eexists _, (Control.with_locked f' false). split; [done|]. split; [by apply leaf_holds_lock|done].
  - apply Hf.
  - exists f'. destruct (leaf_node T _ a n' f' (delete key m) C1 (a, w) (first C2) (lookup_insert_eq (mem t) a _) Hn') as (_ & ? & ?).
    by split_and!.
  - unfold FBTree.node_fuel, h2. cbn [sp_mem spine_of]. lia.
  - cbn [mc_shrink int_machine] in Hrun. change (Z.of_nat 0) with 0 in Hrun. change (key_bytes T (encode_convert T s)) with (enc T s).
    rewrite Hrun, bind_Some. change (FBTree.unlatch_exclusive (mem t') cur = Some h') in Hul. rewrite Hul, bind_Some.
    exists (FBTree.with_mem t' h'), ups', (Some b :: l). split; [done|]. split; [|split; [|done]].
    + apply represents_standing. split; [done|]. split; [|exact (eq_trans Hlive Hg)]. intros k x [_ Hx]%lookup_delete_Some. by apply Hkey.
    + split; [done|]. cbn [mc_log int_machine mc_item] in Hlog. tree_simpl. rewrite Hlog. tree_simpl. by rewrite list_fmap_id.
Qed.

Lemma gone_nothing t t' C ups : retired t' = retired t -> gone t t' C C ups ups [].
Proof. intros E. split; cbn; by rewrite app_nil_r. Qed.

Lemma tree_remove_spec grown t m C ups key :
  represents T grown t m C ups -> in_range T key -> Forall no_lone_pair ups ->
  exists t' C' ups' l, FBTree.remove T t key = Some (m !! key, t')
    /\ represents T false t' (delete key m) C' ups' /\ gone t t' C C' ups ups' l /\ (length ups' <= length ups)%nat.
Proof.
  intros Hr0 Hk Hlone. pose proof (represents_shrinkable grown t m C ups Hr0) as Hr.
  destruct (find_leaf T false t m C ups _ Hr Hk) as (frs & C1 & e & C2 & n & f & Hf).
  pose proof (fo_holds _ _ _ _ _ _ _ _ _ _ _ _ _ Hf) as Hh. pose proof (fo_located _ _ _ _ _ _ _ _ _ _ _ _ _ Hf) as Hloc.
  set (n1 := Leaf.set_control n (Control.encode (Control.with_locked f true))).
  set (h1 := <[e.1 := NLeaf n1]> (mem t)). set (f1 := Control.with_locked f true).
  pose proof (leaf_holds_lock T n f m C1 e _ true Hh) as Hh1. fold n1 f1 in Hh1.
  pose proof (lh_wf _ _ _ _ _ _ _ Hh1) as Hwf1. pose proof (rp_keyed _ _ _ _ _ _ Hr) as Hkey.
  pose proof (leaf_holds_content T n1 f1 m C1 e _ _ Hh1 Hkey Hloc) as Hcont.
  pose proof (fo_split _ _ _ _ _ _ _ _ _ _ _ _ _ Hf) as EC. pose proof (fo_levels _ _ _ _ _ _ _ _ _ _ _ _ _ Hf) as EL.
  destruct (m !! key) as [kv|] eqn:Em.
  2:{ rewrite delete_id by done.
      destruct (remove_in_place t m C ups frs C1 e C2 n f f1 key n1 None Hr Hf) as (t' & -> & Hr' & Hret).
      - apply (remove_absent T); [apply Hwf1|done].
      - by rewrite delete_id.
      - done.
      - rewrite delete_id in Hr' by done. exists t', C, ups, []. split; [done|]. split; [done|]. split; [by apply gone_nothing|done]. }
  assert (forall f' n', Control.f_deleted f' = false -> Control.f_sibling f' = Control.f_sibling f1 -> Control.f_locked f' = true ->
    Leaf.remove T (FBTree.leaf h1) e.1 n1 key = Some (Some kv, Leaf.mkMerge n' None None) -> leaf_wf T n' f' ->
    (forall x, has n' x <-> has n1 x /\ kv_key x <> key) -> high_key_ n' = high_key_ n1 -> sibling_ n' = sibling_ n1 ->
    (is_Some e.2 -> exists x, has n' x) ->
    exists t' C' ups' l, FBTree.remove T t key = Some (Some kv, t')
      /\ represents T false t' (delete key m) C' ups' /\ gone t t' C C' ups ups' l /\ (length ups' <= length ups)%nat) as Hstay.
  { intros f' n' Hd' Hs' Hl' Hrem Hwf' Hx Ehigh Esib Hne.
    destruct (remove_in_place t m C ups frs C1 e C2 n f f' key n' (Some kv) Hr Hf Hrem) as (t' & -> & Hr' & Hret); [|done|].
    - apply (leaf_holds_delete T n1 n' f1 f' m C1 e _ key Hh1 Hloc); try done. by rewrite Hd', (lh_del _ _ _ _ _ _ _ Hh1).
    - exists t', C, ups, []. split; [done|]. split; [done|]. split; [by apply gone_nothing|done]. }
  destruct (Control.f_sibling f1) eqn:Hs.
  - (* a leaf to the right *)
    pose proof (lh_sib _ _ _ _ _ _ _ Hh1) as Hub. rewrite Hs in Hub. symmetry in Hub. apply bool_decide_eq_true in Hub as [s Hub].
    destruct e as [a u]. cbn [snd fst] in *. subst u. destruct (lh_high _ _ _ _ _ _ _ Hh1 s eq_refl) as (Ehigh & Esib & [b' Hb']).
    destruct C2 as [|[b w] C2]; [done|]. cbn [first head fmap option_fmap option_map fst] in Hh1. rewrite EC in Hr.
    pose proof (rp_ordered _ _ _ _ _ _ Hr) as Ho.
    assert (b <> a) as Hba.
    { apply represents_standing in Hr as [Hst _]. destruct (standing_beside _ _ _ _ _ _ _ _ _ Hst) as [_ Hne]. apply (Hne b). cbn. set_solver. }
    assert (forall v, w = Some v -> s < v) as Hsw.
    { intros v ->. apply ordered_app in Ho as (_ & Ho & _). apply ordered_cons in Ho as (_ & _ & Hlt). apply (Hlt (b, Some v)). by left. }
    assert (in_range T s) as Hs0.
    { apply ordered_app in Ho as (_ & Ho & _). apply ordered_cons in Ho as (Ho & _). by apply Ho. }
    destruct (rp_leaves _ _ _ _ _ _ Hr (C1 ++ [(a, Some s)]) (b, w) C2) as (rn & g & Hb & Hhr & Hlk); [by rewrite <- app_assoc|].
    assert (sibling_ok T (FBTree.leaf h1) n1 b rn g) as Hok.
    { eapply leaf_holds_sibling; [exact Hh1|exact Hhr| |done|done]. unfold FBTree.leaf, h1.
      rewrite lookup_insert_ne by done. cbn in Hb. by rewrite Hb. }
    destruct (decide (popcount 64 (bitmap_ n1) - 1 + popcount 64 (bitmap_ rn) <= 32 \/ popcount 64 (bitmap_ n1) = 1)) as [Hp|Hp].
    + destruct (remove_merge T (FBTree.leaf h1) a n1 f1 key kv b rn g Hwf1 Hcont Hs Hok Hp)
        as (n' & rn' & Hrem & Hwf' & Hx & Ehigh' & Esib' & _). rewrite Ehigh in Hrem. subst C ups.
      destruct (remove_up t m C1 a s b w C2 frs n f key n' (Control.with_sibling (touched f1) (Control.f_sibling g)) rn' (Some kv) Hr Hf Hlone Hrem Hs0)
        as (t' & ups' & l & Hrun & Hrest).
      * apply (leaf_holds_join T n1 n' rn f1 _ g m C1 a s b w _ key Hh1 Hhr Hloc); try done. apply (lh_del _ _ _ _ _ _ _ Hh1).
      * done.
      * by exists t', (C1 ++ (a, w) :: C2), ups', l.
    + rewrite <- EC in Hr. destruct (remove_simple T (FBTree.leaf h1) a n1 f1 key kv Hwf1 Hcont) as (n' & Hrem & Hwf' & Hx & Eh' & Es').
      { intros n2 Hc2 Hs2 Hp2. apply (merge_not T _ a n2 (Control.bump f1) b rn);
          [apply Control.bump_valid, Hwf1|done|done|by rewrite Hs2|apply Hok|].
        unfold Leaf.mergeable. replace (Leaf.kMergeSize T) with 32 by (by destruct T). rewrite Hp2. apply orb_false_iff. split; blia. }
      apply (Hstay (touched f1) n'); try done; [apply (lh_del _ _ _ _ _ _ _ Hh1)|]. intros _.
      apply (content_lookup T) in Hcont as [Ek Hkv]; [|apply Hwf1].
      destruct (has_another T n1 kv (wf_body _ _ _ Hwf1) Hkv) as (x & Hx1 & Hx2); [tauto|]. exists x. apply Hx. by rewrite <- Ek.
  - destruct (remove_simple T (FBTree.leaf h1) e.1 n1 f1 key kv Hwf1 Hcont) as (n' & Hrem & Hwf' & Hx & Eh' & Es').
    { intros n2 Hc2 _ _. apply (merge_alone T _ e.1 n2 (Control.bump f1)); [apply Control.bump_valid, Hwf1|done|done]. }
    apply (Hstay (touched f1) n'); try done; [apply (lh_del _ _ _ _ _ _ _ Hh1)|]. intros He.
    pose proof (lh_sib _ _ _ _ _ _ _ Hh1) as Hub. rewrite Hs, bool_decide_true in Hub by done. done.
Qed.
End remove.
