(* ===== verification/FBTreeProps.v ===== *)
(** * The tree is a map

    The properties of [FBTree]: every operation, and any sequence of them from the
    empty tree, does what it does to a finite map; the height stays below the bound
    the code has for it. *)

From S2P Require Import Prelude Bits Simd Encode Control Leaf LeafSpec Inner InnerSpec Moves InnerOps InnerProps FBTree Levels Growth Words Cover Shrink InnerKind LeafPart Scan FBTreeSpec FBTreeOps FBTreeScan FBTreeRemove.

(** ** The empty tree *)

Section tree.
Context {V : Type} `{AllocatorLaws V T}.
Implicit Types (h : heap V) (m : gmap Z (kvpair V)) (C : level) (t : tree V) (kv : kvpair V).

Lemma create_represents grown h :
  represents T grown (FBTree.enter (FBTree.create T h)) ∅ [(malloc h, None)] [].
Proof.
  destruct (found_tags_ok (V := V) (T := T) (malloc h)) as [Hl Hb].
  destruct (LeafNode_wf (V := V) T _ Hl Hb) as (_ & Hnone & _).
  split; cbn [FBTree.enter FBTree.create mem root_ tree_depth_ root_track_ guarded]; try done.
  - split; [by repeat constructor|]. by apply Forall_singleton.
  - intros C1 e C2 E. destruct C1 as [|? C1]; [|by destruct C1]. injection E as <- <-.
    exists (Leaf.LeafNode T (found_tags (malloc h))), (new_fields false).
    split; [apply lookup_insert_eq|]. split; [|done]. split; try done; [by apply (LeafNode_leaf_wf T)| |by intros []].
    intros kv. rewrite lookup_empty. split; [intros ?%Hnone; done|by intros [? _]].
  - apply NoDup_singleton.
Qed.

(** ** The height *)

Lemma depth_bound t m C ups :
  represents T true t m C ups -> Z.of_nat (size (mem t)) <= 2 ^ 55 -> (length ups <= 11)%nat.
Proof.
  intros [Hs _]%represents_standing. by apply (standing_height (inner_at T true) (leaf_at T) (in_range T) (inner_at_wide (int_inner T) NInner) (spine_of t) m C).
Qed.

(** no node of a tree that nothing was removed from has only one child *)
Lemma grown_no_lone t m C ups : represents T true t m C ups -> Forall no_lone_pair ups.
Proof.
  intros Hr. exact (chain_no_lone (int_inner T) NInner _ _ _ _ (rp_chain _ _ _ _ _ _ Hr)).
Qed.
End tree.

(** ** Sequences of operations *)

Inductive op {V : Type} := OpLookup (key : Z) | OpUpdate (kv : kvpair V) | OpUpsert (kv : kvpair V).
Arguments op V : clear implicits.
Arguments OpLookup {V}.

Definition op_key {V} (o : op V) : Z :=
  match o with OpLookup key => key | OpUpdate kv | OpUpsert kv => kv_key kv end.

Section run.
Context {V : Type} (T : ktype) `{AllocatorLaws V T}.
Implicit Types (t : tree V) (m : gmap Z (kvpair V)).

(** the tree, and the map that is its specification *)
Definition step t (o : op V) : option (option (kvpair V) * tree V) :=
  match o with
  | OpLookup key => let* r := FBTree.lookup T t key in Some (r, t)
  | OpUpdate kv => FBTree.update T t kv
  | OpUpsert kv => FBTree.upsert T t kv
  end.

Definition map_step m (o : op V) : option (kvpair V) * gmap Z (kvpair V) :=
  (m !! op_key o,
   match o with
   | OpLookup _ => m
   | OpUpdate kv => match m !! kv_key kv with Some _ => <[kv_key kv := kv]> m | None => m end
   | OpUpsert kv => <[kv_key kv := kv]> m
   end).

Fixpoint run t (ops : list (op V)) : option (list (option (kvpair V)) * tree V) :=
  match ops with
  | [] => Some ([], t)
  | o :: ops => let* (r, t) := step t o in let* (rs, t) := run t ops in Some (r :: rs, t)
  end.

Fixpoint map_run m (ops : list (op V)) : list (option (kvpair V)) * gmap Z (kvpair V) :=
  match ops with
  | [] => ([], m)
  | o :: ops => let '(r, m) := map_step m o in let '(rs, m) := map_run m ops in (r :: rs, m)
  end.

Lemma step_spec t m o :
  implements T true t m -> in_range T (op_key o) -> Z.of_nat (size (mem t)) <= 2 ^ 55 ->
  exists t', step t o = Some ((map_step m o).1, t') /\ implements T true t' (map_step m o).2
    /\ (size (mem t') <= size (mem t) + 13)%nat.
Proof.
  intros (C & ups & Hr) Hk Hs. pose proof (depth_bound t m C ups Hr Hs) as Hd. destruct o as [key|kv|kv]; cbn in *.
  - rewrite (tree_lookup_spec true t m C ups key Hr Hk), bind_Some. exists t. split; [done|]. split; [by exists C, ups|lia].
  - destruct (tree_update_spec true t m C ups kv Hr Hk) as (t' & -> & Hr' & Hsz & _). exists t'. split; [done|].
    split; [by exists C, ups|lia].
  - destruct (tree_upsert_spec true t m C ups kv Hr Hk) as (t' & C' & ups' & -> & Hr' & _ & _ & Hsz).
    { rewrite (rp_depth _ _ _ _ _ _ Hr). lia. }
    exists t'. split; [done|]. split; [by exists C', ups'|lia].
Qed.

Lemma run_spec (h : heap V) (ops : list (op V)) :
  Forall (fun o => in_range T (op_key o)) ops ->
  Z.of_nat (size h) + 1 + 13 * Z.of_nat (length ops) <= 2 ^ 55 ->
  exists t, run (FBTree.enter (FBTree.create T h)) ops = Some ((map_run ∅ ops).1, t) /\ implements T true t (map_run ∅ ops).2
    /\ Z.of_nat (size (mem t)) <= 2 ^ 55.
Proof.
  intros Hops Hmem.
  assert (implements T true (FBTree.enter (FBTree.create T h)) ∅) as Hi by (eexists _, _; apply create_represents).
  assert (Z.of_nat (size (mem (FBTree.enter (FBTree.create T h)))) <= Z.of_nat (size h) + 1) as Hs.
  { cbn. rewrite map_size_insert. destruct (_ !! _); cbn; lia. }
  revert Hi Hs. generalize (FBTree.enter (FBTree.create T h)) as t, (∅ : gmap Z (kvpair V)) as m. revert Hmem.
  generalize (Z.of_nat (size h) + 1) as k. induction Hops as [|o ops Ho _ IH]; intros k Hmem t m Hi Hs.
  - exists t. split; [done|]. split; [done|lia].
  - cbn [length] in Hmem. destruct (step_spec t m o Hi Ho ltac:(lia)) as (t1 & E & Hi1 & Hs1).
    cbn [run map_run]. rewrite E, bind_Some. destruct (map_step m o) as [r m1]. cbn [fst snd] in *.
    destruct (IH (k + 13) ltac:(lia) t1 m1 Hi1 ltac:(lia)) as (t2 & -> & Hi2). rewrite bind_Some.
    destruct (map_run m1 ops) as [rs m2]. by exists t2.
Qed.
End run.

(** ** The properties *)

(** A lookup in a tree that stands for the map [m] returns the pair [m] has for the key,
    or null: it always ends, reads no stale version, and changes nothing. *)
Theorem fbtree_lookup_correct {V} (T : ktype) `{AllocatorLaws V T} (grown : bool) (t : tree V)
    (m : gmap Z (kvpair V)) (key : Z) :
  implements T grown t m -> in_range T key -> FBTree.lookup T t key = Some (m !! key).
Proof. intros (C & ups & Hr) Hk. by eapply tree_lookup_spec. Qed.

(** [update] returns the pair of the key and puts the new one in its place; it leaves a
    tree without the key as it is, and returns null. *)
Theorem fbtree_update_correct {V} (T : ktype) `{AllocatorLaws V T} (grown : bool) (t : tree V)
    (m : gmap Z (kvpair V)) (kv : kvpair V) :
  implements T grown t m -> in_range T (kv_key kv) ->
  exists t', FBTree.update T t kv = Some (m !! kv_key kv, t')
    /\ implements T grown t' (match m !! kv_key kv with Some _ => <[kv_key kv := kv]> m | None => m end)
    /\ tree_depth_ t' = tree_depth_ t /\ retired t' = retired t.
Proof.
  intros (C & ups & Hr) Hk. destruct (tree_update_spec grown t m C ups kv Hr Hk) as (t' & -> & Hr' & _ & ?).
  exists t'. split; [done|]. split; [by exists C, ups|]. split; [|done].
  by rewrite (rp_depth _ _ _ _ _ _ Hr), (rp_depth _ _ _ _ _ _ Hr').
Qed.

(** C2: [upsert] returns the old pair and stores the new one, through splits of the leaf, of
    the inner nodes and of the root, on every level: the levels it leaves are again
    ordered, linked to their right neighbours and covered by the level above, every
    latch is given back, and the tree stands for the map with the pair in it. It never
    retires a node, and adds at most one level. *)
Theorem fbtree_upsert_correct {V} (T : ktype) `{AllocatorLaws V T} (grown : bool) (t : tree V)
    (m : gmap Z (kvpair V)) (kv : kvpair V) :
  implements T grown t m -> in_range T (kv_key kv) -> tree_depth_ t < Z.of_nat FBTree.kMaxHeight ->
  exists t', FBTree.upsert T t kv = Some (m !! kv_key kv, t')
    /\ implements T grown t' (<[kv_key kv := kv]> m)
    /\ tree_depth_ t' <= tree_depth_ t + 1 /\ retired t' = retired t.
Proof.
  intros (C & ups & Hr) Hk Hd.
  destruct (tree_upsert_spec grown t m C ups kv Hr Hk Hd) as (t' & C' & ups' & -> & Hr' & ? & ? & _).
  exists t'. split; [done|]. split; [by exists C', ups'|]. split; [|done].
  rewrite (rp_depth _ _ _ _ _ _ Hr), (rp_depth _ _ _ _ _ _ Hr'). lia.
Qed.

(** C8: An iterator goes through the pairs in the order of their keys. From [begin] it meets every
    pair of the map once; from [lower_bound], those whose key is not below the key; from
    [upper_bound] of a key the tree does not have, those above it. A scan sorts the leaves it
    reads, gives every latch back, ends, and leaves the tree standing for the same map. *)
Theorem fbtree_scan_correct {V} (T : ktype) `{AllocatorLaws V T} (grown : bool) (t : tree V)
    (m : gmap Z (kvpair V)) (key : Z) (fuel : nat) :
  implements T grown t m -> in_range T key -> (size m <= fuel)%nat ->
  let scan (start : option (tree V * iterator V)) (l : list (kvpair V)) :=
    exists t', (let* (t, it) := start in walk (FBTree.advance T) kv_ fuel t it) = Some (l, t') /\ implements T grown t' m in
  scan (FBTree.begin T t) (sorted_pairs m)
  /\ scan (FBTree.lower_bound T t key) (filter (fun kv => key <= kv_key kv) (sorted_pairs m))
  /\ (m !! key = None -> scan (FBTree.upper_bound T t key) (filter (fun kv => key < kv_key kv) (sorted_pairs m))).
Proof.
  intros (C & ups & Hr) Hk Hfuel scan.
  assert (forall (P : Z -> Prop) `{!forall k, Decision (P k)} start, (exists t1 it, start = Some (t1, it) /\ represents T grown t1 m C ups
    /\ iter_ok T (fun kv : kvpair V => kv) int_leaf (int_scanner (T := T)) (mem t1) m C it /\ first_of m P (kv_ it)) -> (forall j k, P j -> j < k -> P k) ->
    scan start (filter (fun kv => P (kv_key kv)) (sorted_pairs m))) as Hscan.
  { intros P HP start (t1 & it & -> & Hr1 & Hit & Hfirst) Hup. unfold scan. rewrite bind_Some.
    destruct (scan_from grown P t1 m C ups it fuel Hr1 Hit Hfirst Hup Hfuel) as (t2 & -> & Hr2).
    exists t2. split; [done|]. by exists C, ups. }
  split; [|split].
  - pose proof (Hscan (fun _ => True) _ _ (begin_spec grown t m C ups Hr)) as Hb. rewrite filter_all in Hb. by apply Hb.
  - apply (Hscan (fun k => key <= k)); [by apply (bound_spec grown t m C ups key false)|lia].
  - intros Hnone. apply (Hscan (fun k => key < k)); [by apply (bound_spec grown t m C ups key true)|lia].
Qed.

(** C1: A tree that starts empty refines the map: any sequence of lookups, updates and
    upserts that fits the memory runs to its end, returns at every step what the map
    returns, and leaves a tree that stands for the map. [kMaxHeight] is enough for it: every
    node but the last of its level has at least 32 children, so a tree of at most [2^55]
    nodes (a leaf has more than [2^9] bytes, and the address space [2^64]) has at most 12
    levels, and there is room in [root_track_] for another root. *)
Theorem fbtree_refines_map {V} (T : ktype) `{AllocatorLaws V T} (h : heap V) (ops : list (op V)) :
  Forall (fun o => in_range T (op_key o)) ops ->
  Z.of_nat (size h) + 1 + 13 * Z.of_nat (length ops) <= 2 ^ 55 ->
  exists t, run T (FBTree.enter (FBTree.create T h)) ops = Some ((map_run ∅ ops).1, t)
    /\ implements T true t (map_run ∅ ops).2 /\ 1 <= tree_depth_ t < Z.of_nat FBTree.kMaxHeight.
Proof.
  intros Hops Hmem. destruct (run_spec T h ops Hops Hmem) as (t & E & Hi & Hs). exists t. do 2 (split; [done|]).
  destruct Hi as (C & ups & Hr). pose proof (depth_bound t _ C ups Hr Hs). rewrite (rp_depth _ _ _ _ _ _ Hr).
  change (Z.of_nat FBTree.kMaxHeight) with 13. lia.
Qed.

(** C7: [remove] returns the pair of the key and deletes it, through merges of the leaf and of the
    inner nodes, new bounds for a node that gave its last child away, and a root that gives
    way to its only child: the levels it leaves are again ordered, linked and covered, and
    the tree stands for the map without the key. Exactly the nodes that left the tree are
    retired, each once, and the tree does not get higher. The hypothesis excludes two
    neighbours of one child each at the end of a level, where the code is undefined. *)
Theorem fbtree_remove_correct {V} (T : ktype) `{AllocatorLaws V T} (grown : bool) (t : tree V)
    (m : gmap Z (kvpair V)) (C : level) (ups : list (list group)) (key : Z) :
  represents T grown t m C ups -> in_range T key -> Forall no_lone_pair ups ->
  exists t' C' ups' l, FBTree.remove T t key = Some (m !! key, t')
    /\ represents T false t' (delete key m) C' ups'
    /\ C.*1 ++ addrs ups ≡ₚ (C'.*1 ++ addrs ups') ++ omap id l /\ retired t' = retired t ++ l
    /\ tree_depth_ t' <= tree_depth_ t.
Proof.
  intros Hr Hk Hlone. destruct (tree_remove_spec grown t m C ups key Hr Hk Hlone) as (t' & C' & ups' & l & -> & Hr' & [Hp Hret] & Hl).
  exists t', C', ups', l. do 4 (split; [done|]). rewrite (rp_depth _ _ _ _ _ _ Hr), (rp_depth _ _ _ _ _ _ Hr'). lia.
Qed.

(** ** The properties at a concrete allocator *)

#[local] Instance ex_allocator : Allocator unit := {
  malloc h := fresh (dom h);
  found_tags _ := replicate 64 7;
  found_raw _ := ex_nraw;
}.

#[local] Instance ex_allocator_laws : AllocatorLaws unit KU64.
Proof.
  split.
  - intros h. cbn. apply not_elem_of_dom, is_fresh.
  - intros a. split; [done|]. by apply Forall_replicate.
  - intros a. apply ex_nraw_ok.
Qed.

Definition ex_pair (k : Z) : kvpair unit := mkKV (1000 + k) k tt.

Lemma ex_implements : exists t, implements KU64 true t {[5 := ex_pair 5]}.
Proof.
  destruct (step_spec KU64 (FBTree.enter (FBTree.create KU64 (∅ : heap unit))) ∅ (OpUpsert (ex_pair 5))) as (t & _ & Hi & _).
  - eexists _, _. apply create_represents.
  - done.
  - done.
  - by exists t.
Qed.

Lemma fbtree_lookup_correct_witness :
  exists t : tree unit, FBTree.lookup KU64 t 5 = Some (Some (ex_pair 5)).
Proof.
  destruct ex_implements as [t Hi]. exists t.
  by rewrite (fbtree_lookup_correct KU64 true t {[5 := ex_pair 5]} 5 Hi).
Defined.

Lemma fbtree_update_correct_witness :
  exists t t' : tree unit, FBTree.update KU64 t (mkKV 2000 5 tt) = Some (Some (ex_pair 5), t').
Proof.
  destruct ex_implements as [t Hi]. exists t.
  destruct (fbtree_update_correct KU64 true t {[5 := ex_pair 5]} (mkKV 2000 5 tt) Hi) as (t' & E & _); [done|].
  exists t'. exact E.
Defined.

Lemma fbtree_scan_correct_witness :
  exists t t' : tree unit, (let* (t, it) := FBTree.lower_bound KU64 t 4 in walk (FBTree.advance KU64) kv_ 1 t it) = Some ([ex_pair 5], t').
Proof.
  destruct ex_implements as [t Hi]. exists t.
  destruct (fbtree_scan_correct KU64 true t {[5 := ex_pair 5]} 4 1 Hi) as (_ & (t' & E & _) & _); [done|done|].
  exists t'. exact E.
Defined.

Lemma fbtree_upsert_correct_witness :
  exists t', FBTree.upsert KU64 (FBTree.enter (FBTree.create KU64 (∅ : heap unit))) (ex_pair 7) = Some (None, t').
Proof.
  destruct (fbtree_upsert_correct KU64 true (FBTree.enter (FBTree.create KU64 (∅ : heap unit))) ∅ (ex_pair 7)) as (t' & E & _).
  - eexists _, _. apply create_represents.
  - done.
  - done.
  - exists t'. exact E.
Defined.

Definition ex_ops : list (op unit) :=
  [OpUpsert (ex_pair 7); OpLookup 7; OpUpdate (ex_pair 9); OpUpsert (mkKV 3000 7 tt)].

Lemma fbtree_refines_map_witness :
  exists t, run KU64 (FBTree.enter (FBTree.create KU64 (∅ : heap unit))) ex_ops
            = Some ([None; Some (ex_pair 7); None; Some (ex_pair 7)], t).
Proof.
  destruct (fbtree_refines_map KU64 (∅ : heap unit) ex_ops) as (t & E & _).
  - by repeat constructor.
  - done.
  - exists t. exact E.
Defined.

Definition ex_many : list (op unit) := OpUpsert ∘ ex_pair <$> seqZ 1 70.

Lemma fbtree_remove_correct_witness :
  exists t t' : tree unit, FBTree.remove KU64 t 20 = Some (Some (ex_pair 20), t').
Proof.
  destruct (run_spec KU64 (∅ : heap unit) ex_many) as (t & _ & (C & ups & Hr) & _).
  - apply Forall_fmap, Forall_forall. intros k Hk%elem_of_seqZ. change (0 <= k < 2 ^ 64). lia.
  - vm_compute. discriminate.
  - assert ((map_run ∅ ex_many).2 !! 20 = Some (ex_pair 20)) as E by (vm_compute; reflexivity).
    revert Hr E. generalize (map_run ∅ ex_many).2 as m. intros m Hr E. exists t.
    destruct (fbtree_remove_correct KU64 true t m C ups 20 Hr) as (t' & _ & _ & _ & Hrun & _);
      [done|by eapply grown_no_lone|].
    exists t'. by rewrite Hrun, E.
Defined.
