(* ===== verification/SInner.v ===== *)
(** * The inner node: [InnerNode<String>] of [src/FBTree/inode.h], string keys

    The separators ("anchors") are pointers to strings that are never written once they
    are made; the node has the longest common prefix of the first and the last one, and
    the next [kFeatureSize] bytes of each, column-wise, as in [Inner]. Bytes that a
    separator does not have count as zeros there. As in [Inner], an operation is
    sequential code on the node and, for a merge, its sibling. [kExtentOpt] is false in
    the configuration: the branches it guards are not compiled into anything. *)

From S2P Require Import Prelude Bits Simd Strings Encode Control.

(** a [String*]: the address, and the string it points to *)
Record anchor := mkAnchor { an_addr : Z; an_str : String }.

(** FBTree/inode.h:692-704 [InnerNode]

    [None] in [sanchors], [schildren] and [huge_]: a null or indeterminate pointer *)
Record snode := mkSnode {
  scontrol : Z;
  sknum : Z;
  splen : Z;
  huge_ : option anchor;
  snext_ : ptr;
  sfeatures : list (list Z);
  tiny_ : list Z;
  sanchors : list (option anchor);
  schildren : list ptr;
}.

Module SInner.
Implicit Types (n rn : snode).

(** FBTree/inode.h:677-683 [InnerNode] *)
Definition kNodeSize : Z := kInnerSize Constant_String.
Definition kMergeSize : Z := kInnerMergeSize Constant_String.
Definition kFeatureSize : Z := Z.of_nat (Encode.kFeatureSize Constant_String).
Definition kEmbedPrSize : Z := 224.
Definition kBitCnt : Z := 64.

Definition set_control n c := mkSnode c (sknum n) (splen n) (huge_ n) (snext_ n) (sfeatures n) (tiny_ n) (sanchors n) (schildren n).
Definition set_knum n k := mkSnode (scontrol n) k (splen n) (huge_ n) (snext_ n) (sfeatures n) (tiny_ n) (sanchors n) (schildren n).
Definition set_plen n p := mkSnode (scontrol n) (sknum n) p (huge_ n) (snext_ n) (sfeatures n) (tiny_ n) (sanchors n) (schildren n).
Definition set_huge n a := mkSnode (scontrol n) (sknum n) (splen n) a (snext_ n) (sfeatures n) (tiny_ n) (sanchors n) (schildren n).
Definition set_next n p := mkSnode (scontrol n) (sknum n) (splen n) (huge_ n) p (sfeatures n) (tiny_ n) (sanchors n) (schildren n).
Definition set_features n f := mkSnode (scontrol n) (sknum n) (splen n) (huge_ n) (snext_ n) f (tiny_ n) (sanchors n) (schildren n).
Definition set_tiny n t := mkSnode (scontrol n) (sknum n) (splen n) (huge_ n) (snext_ n) (sfeatures n) t (sanchors n) (schildren n).
Definition set_anchors n a := mkSnode (scontrol n) (sknum n) (splen n) (huge_ n) (snext_ n) (sfeatures n) (tiny_ n) a (schildren n).
Definition set_children n c := mkSnode (scontrol n) (sknum n) (splen n) (huge_ n) (snext_ n) (sfeatures n) (tiny_ n) (sanchors n) c.

Definition on_control n (f : Z -> option Z) : option snode := set_control n <$> f (scontrol n).
Definition update_version n : snode := set_control n (Control.update_version (scontrol n)).
Definition latch_exclusive n : option snode :=
  on_control n (fun c => fst <$> Control.latch_exclusive [(c, c)]).

(** [anchors_[i]->]: a dereferenced pointer *)
Definition anchor_at n (i : Z) : option anchor := let* a := aget (sanchors n) i in a.

(** [c + 128] as a [char]: the byte encoding conversion *)
Definition flip (c : Z) : Z := wrap 8 (c + 128).

(** FBTree/inode.h:707-714 [compare_equal] *)
Definition compare_equal (p : list Z) (c : Z) : option Z :=
  if kNodeSize =? 64 then compare_equal_64 Config_kCmpMode p c
  else if kNodeSize =? 32 then compare_equal_32 Config_kCmpMode p c
  else if kNodeSize =? 16 then compare_equal_16 p c
  else None.

(** FBTree/inode.h:716-723 [compare_less] *)
Definition compare_less (p : list Z) (c : Z) : option Z :=
  if kNodeSize =? 64 then compare_less_64 Config_kCmpMode p c
  else if kNodeSize =? 32 then compare_less_32 Config_kCmpMode p c
  else if kNodeSize =? 16 then compare_less_16 p c
  else None.

(** FBTree/inode.h:725-731 [bitmap] *)
Definition bitmap n : option Z :=
  assert* (0 <=? sknum n) && (sknum n <=? kNodeSize) in
  if kNodeSize =? 64 then
    if sknum n =? kNodeSize then Some (w64 (0 - 1))
    else assert* (sknum n <? 64) in Some (w64 (Z.shiftl 1 (sknum n) - 1))
  else assert* (sknum n <? 64) in Some (w64 (Z.shiftl 1 (sknum n) - 1)).

(** FBTree/inode.h:733-750 [prefix_compare]

    the value of [pcmp] when neither branch assigns it is indeterminate *)
Definition prefix_compare n (key : String) : option Z :=
  let cmps := Z.min (len key) (splen n) in
  assert* (0 <=? cmps) in
  let* pcmp :=
    if cmps <=? kEmbedPrSize then memcmp (str key) (tiny_ n) (Z.to_nat cmps)
    else
      let* huge := huge_ n in
      if cmps <=? len (an_str huge) then memcmp (str key) (str (an_str huge)) (Z.to_nat cmps) else None in
  if (pcmp =? 0) && (cmps <? splen n) then Some (-1) else Some pcmp.

(** FBTree/inode.h:752-767 [to_next_phase1]

    the code it returns, [next] and [to_sibling] *)
Definition to_next_phase1 n (key : String) : option (Z * ptr * bool) :=
  let* pcmp := prefix_compare n key in
  if pcmp <? 0 then let* next := aget (schildren n) 0 in Some (pcmp, next, false)
  else if 0 <? pcmp then Some (pcmp, snext_ n, Control.has_sibling (scontrol n))
  else Some (pcmp, None, false).

(** FBTree/inode.h:769-783 [index_phase1]

    the code, [next], [index] and [to_sibling] *)
Definition index_phase1 n (key : String) : option (Z * ptr * Z * bool) :=
  let* pcmp := prefix_compare n key in
  if pcmp <? 0 then Some (pcmp, None, 0, false)
  else if 0 <? pcmp then
    if negb (Control.has_sibling (scontrol n)) then Some (pcmp, None, sknum n, false)
    else Some (pcmp, snext_ n, 0, true)
  else Some (pcmp, None, 0, false).

(** FBTree/inode.h:792-807 [suffix_bs]

    [kstr] has [ks] bytes; the interval halves at every turn *)
Fixpoint suffix_loop (fuel : nat) n (kstr : list Z) (ks cmps lid hid : Z) : option Z :=
  if lid <? hid then
    match fuel with
    | O => None
    | S fuel =>
        let mid := (lid + hid) / 2 in
        let* a := anchor_at n mid in
        let sep := drop (Z.to_nat cmps) (str (an_str a)) in
        let seps := len (an_str a) - cmps in
        if seps <? 0 then Some mid
        else
          let* cmp := compare kstr (Z.to_nat ks) sep (Z.to_nat seps) in
          if cmp <? 0 then suffix_loop fuel n kstr ks cmps lid mid
          else if cmp =? 0 then Some mid
          else suffix_loop fuel n kstr ks cmps (mid + 1) hid
    end
  else assert* (lid =? hid) in Some hid.

(** FBTree/inode.h:785-808 [suffix_bs]

    7 turns are enough for 64 separators *)
Definition suffix_bs n (key : String) (cmps lid hid : Z) : option Z :=
  assert* (cmps <=? len key) && (lid <? hid) && (0 <=? cmps) in
  suffix_loop 7 n (drop (Z.to_nat cmps) (str key)) (len key - cmps) cmps lid hid.

(** FBTree/inode.h:810-820 [memmove64]

    word by word, within one array *)
Definition memmove64_within {A} (l : list A) (src dst m : Z) (forward : bool) : option (list A) :=
  assert* (0 <=? m) && (m <=? kNodeSize) in
  for_range (fun k l =>
    let idx := if forward then k else m - 1 - k in
    let* x := aget l (src + idx) in
    aset l (dst + idx) x) 0 m l.

(** FBTree/inode.h:810-820 [memmove64]

    from one array to another *)
Definition memmove64 {A} (lsrc : list A) (src : Z) (ldst : list A) (dst m : Z) (forward : bool)
    : option (list A) :=
  assert* (0 <=? m) && (m <=? kNodeSize) in
  for_range (fun k l =>
    let idx := if forward then k else m - 1 - k in
    let* x := aget lsrc (src + idx) in
    aset l (dst + idx) x) 0 m ldst.

(** [features_[r][j]], and its assignment *)
Definition feat n (r j : Z) : option Z := let* row := aget (sfeatures n) r in aget row j.
Definition set_feat n (r j c : Z) : option snode :=
  let* row := aget (sfeatures n) r in
  let* row := aset row j c in
  set_features n <$> aset (sfeatures n) r row.

(** [memmove] of bytes within row [rid] *)
Definition move_in_row n (rid d s m : Z) : option snode :=
  let* row := aget (sfeatures n) rid in
  let* row := amove row d row s m in
  set_features n <$> aset (sfeatures n) rid row.

(** FBTree/inode.h:872-873 [content_rebuild]

    byte [i] of a separator, or zero past its end *)
Definition feature_of (s : String) (i : Z) : option Z := if i <? len s then aget (str s) i else Some 0.

(** FBTree/inode.h:871-875 [content_rebuild]

    the features of one separator *)
Definition put_features n (kid : Z) (s : String) : option snode :=
  for_range (fun fid n =>
    let* ft := feature_of s (splen n + fid) in set_feat n fid kid (flip ft)) 0 kFeatureSize n.

(** FBTree/inode.h:857-877 [content_rebuild] *)
Definition content_rebuild n : option snode :=
  let* first := anchor_at n 0 in
  let* last := anchor_at n (sknum n - 1) in
  let fk := an_str first in
  let lk := an_str last in
  let* plen := common_prefix (str fk) (Z.to_nat (len fk)) (str lk) (Z.to_nat (len lk)) in
  let n := set_huge (set_plen n (Z.of_nat plen)) (Some first) in
  let* n := if splen n <=? kEmbedPrSize
            then set_tiny n <$> amove (tiny_ n) 0 (str fk) 0 (splen n) else Some n in
  for_range (fun kid n => let* a := anchor_at n kid in put_features n kid (an_str a)) 0 (sknum n) n.

(** what the allocation finds in the arrays of a new node *)
Record raw := mkRaw {
  raw_features : list (list Z); raw_tiny : list Z;
  raw_anchors : list (option anchor); raw_children : list ptr; raw_huge : option anchor;
}.

(** FBTree/inode.h:1091-1096 [InnerNode] *)
Definition InnerNode (r : raw) : snode :=
  mkSnode (Control.Control false) 0 0 (raw_huge r) None (raw_features r) (raw_tiny r) (raw_anchors r) (raw_children r).

(** ** [insert] *)

(** FBTree/inode.h:888-897 [split]

    the new node gets the new separator alone; the last is that of this node *)
Definition split_append n rn (key : anchor) (lchild rchild : ptr) : option (snode * snode * Z) :=
  let* a := aset (sanchors rn) 0 (Some key) in
  let rn := set_anchors rn a in
  let* c := aset (schildren rn) 0 lchild in
  let rn := set_children rn c in
  let rn := set_next rn rchild in
  let rn := set_knum rn 1 in
  let* rn := content_rebuild rn in
  Some (n, rn, kNodeSize - 1).

(** FBTree/inode.h:898-930 [split]

    the new separator goes to the left half *)
Definition split_left n rn (key : anchor) (rchild : ptr) (index : Z) : option (snode * snode * Z) :=
  let half := kNodeSize / 2 in
  let* a := memmove64 (sanchors n) half (sanchors rn) 0 half true in
  let rn := set_anchors rn a in
  let* c := memmove64 (schildren n) half (schildren rn) 0 half true in
  let rn := set_children rn c in
  let* a := memmove64_within (sanchors n) index (index + 1) (half - index) false in
  let* c := memmove64_within (schildren n) index (index + 1) (half - index) false in
  let* a := aset a index (Some key) in
  let* c := aset c (index + 1) rchild in
  let n := set_knum (set_children (set_anchors n a) c) (half + 1) in
  let rn := set_knum rn half in
  let* n := content_rebuild n in
  let* rn := content_rebuild rn in
  Some (n, rn, half).

(** FBTree/inode.h:931-966 [split]

    the new separator goes to the right half *)
Definition split_right n rn (key : anchor) (rchild : ptr) (index : Z) : option (snode * snode * Z) :=
  let half := kNodeSize / 2 in
  let ncp := index - half in
  let* a := memmove64 (sanchors n) half (sanchors rn) 0 ncp true in
  let* a := memmove64 (sanchors n) index a (ncp + 1) (kNodeSize - index) true in
  let* a := aset a (index - half) (Some key) in
  let* c := memmove64 (schildren n) half (schildren rn) 0 (ncp + 1) true in
  let* c := memmove64 (schildren n) (index + 1) c (ncp + 2) (kNodeSize - index - 1) true in
  let* c := aset c (index - half + 1) rchild in
  let rn := set_knum (set_children (set_anchors rn a) c) (half + 1) in
  let n := set_knum n half in
  let* n := content_rebuild n in
  let* rn := content_rebuild rn in
  Some (n, rn, half - 1).

(** FBTree/inode.h:879-970 [split]

    the two nodes and the separator between them *)
Definition split n (rnode : Z) (r : raw) (key : anchor) (lchild rchild : ptr) (index : Z)
    : option (snode * snode * anchor) :=
  let rn := InnerNode r in
  let rn := set_next rn (snext_ n) in
  let n := set_next n (Some rnode) in
  let* (n, rn) :=
    if negb (Control.has_sibling (scontrol n))
    then let* n := on_control n Control.set_sibling in Some (n, rn)
    else let* rn := on_control rn Control.set_sibling in Some (n, rn) in
  let* (n, rn, kid) :=
    if index =? kNodeSize then split_append n rn key lchild rchild
    else if index <? kNodeSize / 2 then split_left n rn key rchild index
    else split_right n rn key rchild index in
  let* key := anchor_at n kid in
  Some (n, rn, key).

(** ** The search *)

(** FBTree/inode.h:1144-1157 [to_next]

    the rows compared for equality: the row it stops at, and the candidates *)
Definition equal_rows n (key : String) (cmps : Z) : option (Z * Z) :=
  let* eqmask := bitmap n in
  for_break (S (Z.to_nat kFeatureSize)) (fun rid eqmask =>
    let* row := aget (sfeatures n) rid in
    let* c := aget (str key) (splen n + rid) in
    let* mask := compare_equal row (flip c) in
    let mask := Z.land mask eqmask in
    if mask =? 0 then Some (eqmask, true) else Some (mask, false))
    0 cmps eqmask.

(** FBTree/inode.h:1143-1175 [to_next]

    the index of the first separator that is not less than the key, which has the
    prefix of the node *)
Definition search n (key : String) : option Z :=
  assert* (splen n <=? len key) in
  let cmps := Z.min kFeatureSize (len key - splen n) in
  let* (rid, eqmask) := equal_rows n key cmps in
  if rid <? cmps then
    let* row := aget (sfeatures n) rid in
    let* c := aget (str key) (splen n + rid) in
    let* mask := compare_less row (flip c) in
    let mask := Z.land mask eqmask in
    if mask =? 0 then
      if eqmask =? 0 then Some 0 else Some (index_least1 64 eqmask)
    else
      let* lz := countl_zero 64 mask in Some (kBitCnt - lz)
  else
    assert* negb (eqmask =? 0) in
    let* lz := countl_zero 64 eqmask in
    suffix_bs n key (splen n + cmps) (index_least1 64 eqmask) (kBitCnt - lz).

(** FBTree/inode.h:1126-1191 [to_next]

    whether it moves to a sibling, where, and the version it read *)
Definition to_next n (key : String) : option (bool * ptr * Z) :=
  let* (version, _) := Control.begin_read [scontrol n] in
  if Control.deleted (scontrol n) then
    assert* bool_decide (is_Some (snext_ n)) in Some (true, snext_ n, version)
  else
    let* (pcmp, next, to_sibling) := to_next_phase1 n key in
    let* (next, to_sibling) :=
      if pcmp =? 0 then
        let* idx := search n key in
        let* (next, to_sibling) :=
          if idx =? sknum n then Some (snext_ n, Control.has_sibling (scontrol n))
          else let* next := aget (schildren n) idx in Some (next, to_sibling) in
        assert* bool_decide (is_Some next) in Some (next, to_sibling)
      else Some (next, to_sibling) in
    let* (unchanged, _) := Control.end_read [scontrol n] version in
    if (unchanged : bool) then Some (to_sibling, next, version) else None.

(** FBTree/inode.h:1193-1245 [index_or_sibling]

    [inr next]: it returned true; [inl index]: false *)
Definition index_or_sibling n (key : String) : option (Z + Z) :=
  if Control.deleted (scontrol n) then let* next := snext_ n in Some (inr next)
  else
    let* (pcmp, next, index, to_sibling) := index_phase1 n key in
    if pcmp =? 0 then
      let* index := search n key in
      if (index =? sknum n) && Control.has_sibling (scontrol n)
      then let* next := snext_ n in Some (inr next)
      else Some (inl index)
    else if (to_sibling : bool) then let* next := next in Some (inr next)
    else Some (inl index).

(** ** [insert] *)

(** what [insert] leaves: this node, and the new one with the separator *)
Record insert_result : Type := mkInsert {
  i_this : snode;
  i_rnode : option (snode * anchor);
}.

(** FBTree/inode.h:1273-1281 [insert]

    the features of a separator between the first and the last: no prefix changes *)
Definition insert_features n (index : Z) (s : String) : option snode :=
  for_range (fun rid n =>
    let* n := move_in_row n rid (index + 1) index (sknum n - index - 1) in
    let* ft := feature_of s (splen n + rid) in
    set_feat n rid index (flip ft)) 0 kFeatureSize n.

(** FBTree/inode.h:1247-1287 [insert] *)
Definition insert n (key : anchor) (lchild rchild : ptr) (index : Z) (rnode : Z) (r : raw)
    : option insert_result :=
  assert* bool_decide (is_Some lchild) && bool_decide (is_Some rchild)
          && (0 <=? index) && (index <=? sknum n) in
  let n := update_version n in
  if sknum n <? kNodeSize then
    let* a := memmove64_within (sanchors n) index (index + 1) (sknum n - index) false in
    let* a := aset a index (Some key) in
    let n := set_anchors n a in
    let* n :=
      if negb (index =? sknum n) then
        let* c := memmove64_within (schildren n) (index + 1) (index + 2) (sknum n - index - 1) false in
        let* c := aset c (index + 1) rchild in
        Some (set_children n c)
      else
        let* c := aset (schildren n) index lchild in
        Some (set_next (set_children n c) rchild) in
    let n := set_knum n (sknum n + 1) in
    let* n :=
      if (index =? 0) || (index =? sknum n - 1) then content_rebuild n
      else insert_features n index (an_str key) in
    Some (mkInsert n None)
  else
    let* (n, rn, key) := split n rnode r key lchild rchild index in
    Some (mkInsert n (Some (rn, key))).

(** ** [remove] *)

(** what a removal leaves: this node, the sibling when it was latched, whether it
    was merged, whether the separator above is to be updated, and the separator *)
Record remove_result : Type := mkRemove {
  d_this : snode;
  d_rnode : option (Z * snode);
  d_merged : bool;
  d_up : bool;
  d_key : anchor;
}.

(** FBTree/inode.h:972-1021 [merge] *)
Definition merge (mem : Z -> option snode) (this : Z) n (key : anchor) : option remove_result :=
  if Control.has_sibling (scontrol n) then
    let* raddr := snext_ n in
    let* rn := mem raddr in
    assert* (1 <=? sknum n) in
    if (sknum n + sknum rn <=? kMergeSize) || (sknum rn =? 0) then
      let* rn := latch_exclusive rn in
      let rnkey := sknum rn in
      let* (n, rn, merged, key) :=
        if (sknum n + rnkey <=? kMergeSize) || (rnkey =? 0) then
          let* key := anchor_at n (sknum n - 1) in
          let* a := memmove64 (sanchors rn) 0 (sanchors n) (sknum n) rnkey true in
          let* c := memmove64 (schildren rn) 0 (schildren n) (sknum n) rnkey true in
          let n := set_knum (set_children (set_anchors n a) c) (sknum n + rnkey) in
          let rn := set_knum rn 0 in
          let* n := content_rebuild n in
          let n := set_next n (snext_ rn) in
          let rn := set_next rn (Some this) in
          let* n := if negb (Control.has_sibling (scontrol rn))
                    then on_control n Control.clear_sibling else Some n in
          let* rn := on_control rn Control.set_delete in
          Some (n, update_version rn, true, key)
        else Some (n, rn, false, key) in
      let* rn := on_control rn Control.unlatch_exclusive in
      Some (mkRemove n (Some (raddr, rn)) merged false key)
    else Some (mkRemove n None false false key)
  else Some (mkRemove n None false false key).

(** FBTree/inode.h:1023-1088 [bound_remove] *)
Definition bound_remove (mem : Z -> option snode) (this : Z) n (key : anchor) (index : Z)
    : option remove_result :=
  if negb (Control.has_sibling (scontrol n)) then
    let* c := aget (schildren n) index in
    let n := set_next n c in
    let n := set_knum n (sknum n - 1) in
    let* n := if sknum n =? 0 then Some (set_plen n 0) else content_rebuild n in
    Some (mkRemove n None false false key)
  else
    let* raddr := snext_ n in
    let* rn := mem raddr in
    let* rn := latch_exclusive rn in
    let rn := update_version rn in
    let rnkey := sknum rn in
    let* (n, rn, merged, up, key) :=
      if (index + rnkey <=? kMergeSize) || (index =? 0) || (rnkey =? 0) || (rnkey =? 1) then
        let* a := memmove64 (sanchors rn) 0 (sanchors n) index rnkey true in
        let* c := memmove64 (schildren rn) 1 (schildren n) (sknum n)
                    (if rnkey =? 0 then 0 else rnkey - 1) true in
        let n := set_knum (set_children (set_anchors n a) c) (sknum n + (rnkey - 1)) in
        let rn := set_knum rn 0 in
        let* n := content_rebuild n in
        let* n := if negb (rnkey =? 0) then Some (set_next n (snext_ rn))
                  else let* c := aget (schildren n) index in Some (set_next n c) in
        let rn := set_next rn (Some this) in
        let* n := if negb (Control.has_sibling (scontrol rn))
                  then on_control n Control.clear_sibling else Some n in
        let* rn := on_control rn Control.set_delete in
        Some (n, rn, true, false, key)
      else
        let* key := anchor_at n (index - 1) in
        let* x := aget (schildren n) index in
        let* c := aset (schildren rn) 0 x in
        let rn := set_children rn c in
        let n := set_knum n (sknum n - 1) in
        let* n := content_rebuild n in
        Some (n, rn, false, true, key) in
    let* rn := on_control rn Control.unlatch_exclusive in
    Some (mkRemove n (Some (raddr, rn)) merged up key).

(** FBTree/inode.h:1302-1307 [remove]

    the features of a separator that is not the first go *)
Definition remove_features n (index : Z) : option snode :=
  for_range (fun rid n => move_in_row n rid index (index + 1) (sknum n - index - 1)) 0 kFeatureSize n.

(** FBTree/inode.h:1289-1322 [remove] *)
Definition remove (mem : Z -> option snode) (this : Z) n (key : anchor) (index : Z)
    : option remove_result :=
  assert* (0 <=? index) && (index <? sknum n) in
  let n := update_version n in
  if index <? sknum n - 1 then
    let* a := memmove64_within (sanchors n) (index + 1) index (sknum n - index - 1) true in
    let n := set_anchors n a in
    let* n := if negb (index =? 0) then remove_features n index else Some n in
    let* c := memmove64_within (schildren n) (index + 2) (index + 1) (sknum n - index - 2) true in
    let n := set_children n c in
    let n := set_knum n (sknum n - 1) in
    let* n := if index =? 0 then content_rebuild n else Some n in
    merge mem this n key
  else
    assert* (index =? sknum n - 1) in
    bound_remove mem this n key index.

(** FBTree/inode.h:1324-1344 [anchor_update]

    the node, and whether the separator above is to be updated too *)
Definition anchor_update n (key : anchor) (index : Z) : option (snode * bool) :=
  assert* (0 <=? index) && (index <? sknum n) in
  let n := update_version n in
  let* a := aset (sanchors n) index (Some key) in
  let n := set_anchors n a in
  let* n :=
    if (index =? 0) || (index =? sknum n - 1) then content_rebuild n
    else put_features n index (an_str key) in
  Some (n, Control.has_sibling (scontrol n) && (sknum n - 1 =? index)).

(** FBTree/inode.h:1346-1353 [root_remove] *)
Definition root_remove n : option (snode * ptr) :=
  if sknum n =? 0 then
    let* n := on_control n Control.set_delete in Some (n, snext_ n)
  else Some (n, None).

(** FBTree/inode.h:1100-1103 [sibling] *)
Definition sibling n : ptr := if Control.has_sibling (scontrol n) then snext_ n else None.

(** FBTree/inode.h:1105-1109 [statistic]

    the increment of [stat["inner num"]] *)
Definition statistic (stat : Z) : Z := stat + 1.

(** FBTree/inode.h:1111-1124 [exhibit]

    the keys that the debugging output prints, prefix and rest *)
Definition exhibit n : option (list (list Z * list Z)) :=
  mapM (fun kid =>
    let* a := anchor_at n kid in
    let key := take (Z.to_nat (len (an_str a))) (str (an_str a)) in
    Some (take (Z.to_nat (splen n)) key, drop (Z.to_nat (splen n)) key)) (seqZ 0 (sknum n)).
End SInner.
