(* ===== verification/SInnerSpec.v ===== *)
(** * What the inner node of string keys is, and its search

    Separators are byte strings in lexicographic order. The features of a node pad them
    with zero bytes, so the search is right for keys without a zero byte. *)

From S2P Require Import Prelude Bits Simd Strings Moves Encode Control Leaf Inner InnerSpec SInner.
Import SInner.

#[local] Opaque for_mask mask_fuel.

(** ** Strings that start alike *)

(** strings with a common start are neighbours: one without it is on the same side of
    all of them *)
Lemma lex_lt_start_l q a b c :
  q `prefix_of` b -> q `prefix_of` c -> ~ q `prefix_of` a -> lex_lt a b -> lex_lt a c.
Proof.
  unfold lex_lt. intros [b' ->] [c' ->]. revert a. induction q as [|x q IH]; intros a Hn Hlt.
  { destruct Hn. apply prefix_nil. }
  destruct a as [|y a]; [done|]. cbn in *. destruct (Z.compare_spec y x) as [->|?|?]; [|done|done].
  apply IH; [|done]. intros Hp. by apply Hn, prefix_cons.
Qed.

Lemma lex_lt_start_r q a b c :
  q `prefix_of` b -> q `prefix_of` c -> ~ q `prefix_of` a -> lex_lt b a -> lex_lt c a.
Proof.
  unfold lex_lt. intros [b' ->] [c' ->]. revert a. induction q as [|x q IH]; intros a Hn Hlt.
  { destruct Hn. apply prefix_nil. }
  destruct a as [|y a]; [done|]. cbn in *. destruct (Z.compare_spec x y) as [->|?|?]; [|done|done].
  apply IH; [|done]. intros Hp. by apply Hn, prefix_cons.
Qed.

Lemma lex_lt_between q a b c :
  q `prefix_of` a -> q `prefix_of` c -> lex_lt a b -> lex_lt b c -> q `prefix_of` b.
Proof.
  intros Ha Hc Hab Hbc. destruct (decide (q `prefix_of` b)) as [|Hn]; [done|exfalso].
  apply (lex_lt_irrefl b). apply (lex_lt_trans _ a); [|done]. by apply (lex_lt_start_l q b c a).
Qed.

Lemma lex_lt_asym a b : lex_lt a b -> ~ lex_lt b a.
Proof. intros H1 H2. by apply (lex_lt_irrefl a), (lex_lt_trans _ b). Qed.

(** a start of [a] is a prefix of [b] when [b] starts with the same bytes *)
Lemma take_prefix p (a b : list Z) : (p <= length a)%nat -> take p a `prefix_of` b <-> take p b = take p a.
Proof.
  intros Hp. split.
  - intros [l ->]. by rewrite take_app_length' by (rewrite length_take; lia).
  - intros <-. exists (drop p b). by rewrite take_drop.
Qed.

(** one byte more *)
Lemma take_S_prefix p (a b : list Z) c :
  a !! p = Some c -> take (S p) a `prefix_of` b <-> take p a `prefix_of` b /\ b !! p = Some c.
Proof.
  intros Hc. pose proof (lookup_lt_Some _ _ _ Hc) as Hl. rewrite !take_prefix by lia. split.
  - intros E. assert (b !! p = Some c) as Hb.
    { by rewrite <- (lookup_take_lt b (S p)), E, lookup_take_lt by lia. }
    split; [|done]. rewrite (take_S_r _ _ c Hb), (take_S_r _ _ c Hc) in E. by apply app_inj_tail in E as [? _].
  - intros [E Hb]. by rewrite (take_S_r _ _ c Hb), (take_S_r _ _ c Hc), E.
Qed.

(** strings with a common start are ordered by the rest *)
Lemma lex_cmp_drop p (a b : list Z) : take p a = take p b -> lex_cmp a b = lex_cmp (drop p a) (drop p b).
Proof. intros E. rewrite <- (take_drop p a) at 1. rewrite <- (take_drop p b) at 1. by rewrite E, lex_cmp_app. Qed.

(** [memcmp] of a prefix decides, unless it is equal *)
Lemma lex_cmp_prefix_side p (a b : list Z) :
  lex_cmp (take p a) b <> Eq -> (p <= length a)%nat -> length b = p ->
  forall b', b `prefix_of` b' -> lex_cmp a b' = lex_cmp (take p a) b.
Proof.
  intros Hne Hp Hl b' [r ->]. revert a b Hne Hp Hl. induction p as [|p IH]; intros a b Hne Hp Hl.
  - destruct b; [by destruct Hne|done].
  - destruct a as [|x a], b as [|y b]; [done..|]. cbn in *. destruct (x ?= y); [|done|done]. apply IH; [done|lia|lia].
Qed.

(** ** The separators of a node *)

Abbreviation bytes a := (str (an_str a)).

(** a string in the memory *)
Definition string_ok (s : String) : Prop := str_ok s /\ Forall is_byte (str s).
(** a key: no zero byte *)
Definition key_ok (s : String) : Prop := str_ok s /\ Forall (fun c => 0 < c < 256) (str s).

Lemma key_string_ok s : key_ok s -> string_ok s.
Proof. intros [Hl Hb]. split; [done|]. eapply Forall_impl; [exact Hb|]. unfold is_byte. intros c Hc. cbv beta in *. lia. Qed.

Implicit Types (n rn : snode) (r j : Z) (sa : Z -> anchor).

(** the arrays of a node and the range of its counter *)
Record sshape n : Prop := {
  ss_rows : length (sfeatures n) = 4%nat /\ Forall row_ok (sfeatures n);
  ss_tiny : length (tiny_ n) = 224%nat;
  ss_anchors : length (sanchors n) = 64%nat;
  ss_children : length (schildren n) = 64%nat;
  ss_knum : 0 <= sknum n <= 64;
}.

(** the separators are those of [sa], and increase *)
Record sseps_ok n sa : Prop := {
  sp_at j : 0 <= j < sknum n -> aget (sanchors n) j = Some (Some (sa j));
  sp_ok j : 0 <= j < sknum n -> string_ok (an_str (sa j));
  sp_lt : increasing lex_lt (sknum n) (fun j => bytes (sa j));
}.

(** byte [i] of a separator, as the features have it *)
Definition pad (l : list Z) (i : Z) : Z := default 0 (l !! Z.to_nat i).

(** the prefix, and the bytes behind it, are those of the separators *)
Record scontent n sa : Prop := {
  sc_empty : sknum n = 0 -> splen n = 0;
  sc_longest : 0 < sknum n ->
    let a := bytes (sa 0) in let b := bytes (sa (sknum n - 1)) in
    exists p, splen n = Z.of_nat p /\ common_prefix a (length a) b (length b) = Some p;
  sc_huge : 0 < sknum n -> huge_ n = Some (sa 0);
  sc_tiny : 0 < sknum n -> splen n <= 224 ->
    take (Z.to_nat (splen n)) (tiny_ n) = take (Z.to_nat (splen n)) (bytes (sa 0));
  sc_feat r j : 0 <= r < 4 -> 0 <= j < sknum n -> feat n r j = Some (flip (pad (bytes (sa j)) (splen n + r)));
}.

Record snode_wf n (f : Control.fields) sa : Prop := {
  sw_shape : sshape n;
  sw_seps : sseps_ok n sa;
  sw_content : scontent n sa;
  sw_word : scontrol n = Control.encode f;
  sw_valid : Control.valid f;
  sw_inner : Control.f_leaf f = false;
}.

Lemma snode_kNodeSize : kNodeSize = 64.
Proof. done. Qed.
Lemma snode_kFeatureSize : kFeatureSize = 4.
Proof. done. Qed.

Lemma flipped_byte c : is_byte (flip c).
Proof. apply (wrap_bounds 8). lia. Qed.

Lemma schar_flipped c : is_byte c -> schar (flip c) = c - 128.
Proof. apply schar_flip. Qed.

Lemma flip_inj a b : is_byte a -> is_byte b -> flip a = flip b -> a = b.
Proof. intros Ha Hb E. apply (f_equal schar) in E. rewrite !schar_flipped in E by done. lia. Qed.

Lemma pad_byte l i : Forall is_byte l -> is_byte (pad l i).
Proof. intros Hl. unfold pad. destruct (l !! Z.to_nat i) eqn:E; [by eapply Forall_lookup_1|done]. Qed.

Lemma pad_nonzero l i c : 0 < c -> pad l i = c <-> l !! Z.to_nat i = Some c.
Proof. intros Hc. unfold pad. destruct (l !! Z.to_nat i); cbn; [naive_solver|]. split; [lia|done]. Qed.

Lemma srow_get n r : sshape n -> 0 <= r < 4 -> exists row, aget (sfeatures n) r = Some row /\ row_ok row.
Proof.
  intros [[Hl Hr] _ _ _ _] Hi. destruct (aget_in_range (sfeatures n) r) as [row E]; [lia|].
  exists row. split; [done|]. by eapply Forall_aget.
Qed.

Lemma sbitmap_spec n : sshape n -> bitmap n = Some (Z.ones (sknum n)).
Proof.
  intros Hs. pose proof (ss_knum n Hs) as Hk. unfold bitmap. rewrite snode_kNodeSize.
  btrue ((0 <=? sknum n) && (sknum n <=? 64)). cbn [asserting Z.eqb Pos.eqb].
  destruct (Z.eqb_spec (sknum n) 64) as [->|]; [done|]. btrue (sknum n <? 64). cbn [asserting].
  f_equal. rewrite Z.ones_equiv, Z.shiftl_1_l, wrap_small; [lia|].
  pose proof (Z.pow_lt_mono_r 2 (sknum n) 64). lia.
Qed.

(** ** The prefix *)

Section prefix.
Context n sa (Hs : sshape n) (Hseps : sseps_ok n sa) (Hc : scontent n sa).

Lemma splen_bounds : 0 <= splen n /\ (0 < sknum n -> (Z.to_nat (splen n) <= length (bytes (sa 0)))%nat).
Proof.
  pose proof (ss_knum n Hs) as Hk. destruct (decide (sknum n = 0)) as [Hz|Hz]; [rewrite (sc_empty n sa Hc Hz); lia|].
  destruct (sc_longest n sa Hc ltac:(lia)) as (p & -> & Hp). split; [lia|]. intros _.
  destruct (common_prefix_longest (bytes (sa 0)) (length (bytes (sa 0))) (bytes (sa (sknum n - 1))) (length (bytes (sa (sknum n - 1)))))
    as (r & Hr & ? & _); [lia|lia|]. rewrite Hp in Hr. injection Hr as ->. lia.
Qed.

(** every separator starts with the prefix *)
Lemma content_prefix j : 0 <= j < sknum n -> take (Z.to_nat (splen n)) (bytes (sa 0)) `prefix_of` bytes (sa j).
Proof.
  intros Hj. destruct (sc_longest n sa Hc ltac:(lia)) as (p & Ep & Hp). rewrite Ep, Nat2Z.id.
  destruct (common_prefix_longest (bytes (sa 0)) (length (bytes (sa 0))) (bytes (sa (sknum n - 1))) (length (bytes (sa (sknum n - 1)))))
    as (r & Hr & ? & ? & Etake & _); [lia|lia|]. rewrite Hp in Hr. injection Hr as <-.
  assert (take p (bytes (sa 0)) `prefix_of` bytes (sa 0)) as Hfirst by (by apply take_prefix).
  assert (take p (bytes (sa 0)) `prefix_of` bytes (sa (sknum n - 1))) as Hlast by (by apply take_prefix).
  destruct (decide (j = 0)) as [->|]; [done|]. destruct (decide (j = sknum n - 1)) as [->|]; [done|].
  apply (lex_lt_between _ (bytes (sa 0)) _ (bytes (sa (sknum n - 1)))); [done|done|apply (sp_lt n sa Hseps); lia..].
Qed.

(** the prefix is in [tiny_], or in the first separator: a key that is not longer than
    [tiny_] is compared with it even if the prefix is longer, and then not stored there *)
Definition prefix_stored (key : String) : Prop := splen n <= 224 \/ 224 < len key.

Lemma prefix_memcmp (key : String) (c : nat) :
  0 < sknum n -> str_ok key -> prefix_stored key -> c = Z.to_nat (Z.min (len key) (splen n)) ->
  (if Z.min (len key) (splen n) <=? kEmbedPrSize then memcmp (str key) (tiny_ n) c
   else let* huge := huge_ n in
     if Z.min (len key) (splen n) <=? len (an_str huge) then memcmp (str key) (str (an_str huge)) c else None)
  = Some (int_of_cmp (lex_cmp (take c (str key)) (take c (bytes (sa 0))))).
Proof.
  intros Hk Hkey Hst ->. destruct splen_bounds as [Hp Hpl]. specialize (Hpl Hk). unfold kEmbedPrSize. unfold str_ok in Hkey.
  pose proof (ss_tiny n Hs) as Ht. destruct (sp_ok n sa Hseps 0 ltac:(lia)) as [Hl _]. unfold str_ok in Hl.
  set (c := Z.to_nat (Z.min (len key) (splen n))).
  destruct (Z.leb_spec (Z.min (len key) (splen n)) 224) as [Hle|Hgt].
  - unfold memcmp. rewrite decide_True by lia. do 3 f_equal.
    assert (splen n <= 224) as Hs224 by (destruct Hst; lia).
    pose proof (sc_tiny n sa Hc Hk Hs224) as E. apply (f_equal (take c)) in E. by rewrite !take_take, Nat.min_l in E by lia.
  - rewrite (sc_huge n sa Hc Hk), bind_Some. btrue (Z.min (len key) (splen n) <=? len (an_str (sa 0))).
    unfold memcmp. by rewrite decide_True by lia.
Qed.

(** the key is before all separators, after all of them, or starts with the prefix *)
Lemma prefix_compare_spec (key : String) :
  str_ok key -> prefix_stored key ->
  exists pcmp, prefix_compare n key = Some pcmp
    /\ (pcmp < 0 -> 0 < sknum n /\ forall j, 0 <= j < sknum n -> lex_lt (str key) (bytes (sa j)))
    /\ (0 < pcmp -> 0 < sknum n /\ forall j, 0 <= j < sknum n -> lex_lt (bytes (sa j)) (str key))
    /\ (pcmp = 0 -> (Z.to_nat (splen n) <= length (str key))%nat
         /\ (0 < sknum n -> take (Z.to_nat (splen n)) (str key) = take (Z.to_nat (splen n)) (bytes (sa 0)))).
Proof.
  intros Hkey Hst. pose proof Hkey as Hlen. unfold str_ok in Hlen. destruct splen_bounds as [Hp Hpl].
  pose proof (ss_knum n Hs) as Hk. unfold prefix_compare. cbn zeta. btrue (0 <=? Z.min (len key) (splen n)). cbn [asserting].
  destruct (decide (sknum n = 0)) as [Hz|Hz].
  { rewrite (sc_empty n sa Hc Hz). replace (Z.min (len key) 0) with 0 by lia. exists 0. split; [|lia].
    unfold kEmbedPrSize. cbn [Z.leb Z.compare]. unfold memcmp. rewrite decide_True by (change (Z.to_nat 0) with 0%nat; lia). done. }
  specialize (Hpl ltac:(lia)). rewrite (prefix_memcmp key _ ltac:(lia) Hkey Hst eq_refl), bind_Some.
  set (c := Z.to_nat (Z.min (len key) (splen n))). set (a := bytes (sa 0)) in *.
  assert (forall j, 0 <= j < sknum n -> take c a `prefix_of` bytes (sa j)) as Hpre.
  { intros j Hj. pose proof (content_prefix j Hj) as [l El]. fold a in El. exists (drop c (take (Z.to_nat (splen n)) a) ++ l).
    rewrite El, app_assoc. f_equal. rewrite <- (take_drop c (take (Z.to_nat (splen n)) a)) at 1. by rewrite take_take, Nat.min_l by lia. }
  assert (length (take c a) = c) as Hca by (rewrite length_take; lia).
  destruct (lex_cmp (take c (str key)) (take c a)) eqn:Ecmp; cbn [int_of_cmp Z.eqb andb].
  - apply lex_cmp_eq in Ecmp. destruct (Z.ltb_spec (Z.min (len key) (splen n)) (splen n)).
    + exists (-1). split; [done|]. split; [|lia]. intros _. split; [lia|]. intros j Hj.
      pose proof (content_prefix j Hj) as [l El]. fold a in El.
      assert (str key = take c a) as -> by (by rewrite <- Ecmp, take_ge by lia).
      rewrite El. rewrite <- (take_drop c (take (Z.to_nat (splen n)) a)), take_take, Nat.min_l, <- app_assoc by lia.
      rewrite <- (app_nil_r (take c a)) at 1. unfold lex_lt. rewrite lex_cmp_app.
      destruct (drop c (take (Z.to_nat (splen n)) a)) as [|x d] eqn:Ed; [|done].
      apply (f_equal length) in Ed. rewrite length_drop, length_take in Ed. cbn in Ed. lia.
    + exists 0. split; [done|]. split; [lia|]. split; [lia|]. intros _. split; [lia|]. intros _.
      by replace (Z.to_nat (splen n)) with c by lia.
  - exists (-1). split; [done|]. split; [|lia]. intros _. split; [lia|]. intros j Hj. unfold lex_lt.
    rewrite (lex_cmp_prefix_side c _ (take c a)); [done|by rewrite Ecmp|lia|done|by apply Hpre].
  - exists 1. split; [done|]. split; [lia|]. split; [|lia]. intros _. split; [lia|]. intros j Hj. unfold lex_lt.
    rewrite lex_cmp_antisym, (lex_cmp_prefix_side c _ (take c a)); [by rewrite Ecmp|by rewrite Ecmp|lia|done|by apply Hpre].
Qed.
End prefix.

(** ** The search *)

Section search.
Context n sa (key : String) (Hs : sshape n) (Hseps : sseps_ok n sa) (Hc : scontent n sa) (Hkey : key_ok key).
Context (Hpl : (Z.to_nat (splen n) <= length (str key))%nat)
  (Hpre : 0 < sknum n -> take (Z.to_nat (splen n)) (str key) = take (Z.to_nat (splen n)) (bytes (sa 0))).

Abbreviation k := (str key).

Lemma key_len : len key = Z.of_nat (length k).
Proof. apply Hkey. Qed.

Lemma string_byte p c : aget k p = Some c -> 0 < c < 256.
Proof. intros Hp. by apply (Forall_aget _ _ p c (proj2 Hkey)). Qed.

(** separator [j] starts with the first [p] bytes of the key *)
Definition starts (p j : Z) : Prop := 0 <= j < sknum n /\ take (Z.to_nat p) k `prefix_of` bytes (sa j).

Lemma starts_prefix j : 0 <= j < sknum n -> starts (splen n) j.
Proof. intros Hj. split; [done|]. rewrite Hpre by lia. by apply content_prefix. Qed.

Lemma starts_S p j c :
  0 <= p -> aget k p = Some c -> starts (p + 1) j <-> starts p j /\ bytes (sa j) !! Z.to_nat p = Some c.
Proof.
  intros Hp Hcp. apply aget_Some in Hcp as [_ Hcp]. unfold starts.
  replace (Z.to_nat (p + 1)) with (S (Z.to_nat p)) by lia. rewrite (take_S_prefix _ _ _ c Hcp). tauto.
Qed.

(** the separators that start so are neighbours *)
Lemma before_starting p i j : 0 <= i < j -> starts p j -> ~ starts p i -> lex_lt (bytes (sa i)) k.
Proof.
  intros Hij [Hj Hs1] Hn. apply (lex_lt_start_l (take (Z.to_nat p) k) _ (bytes (sa j))); [done| | |].
  - exists (drop (Z.to_nat p) k). by rewrite take_drop.
  - intros Hs2. apply Hn. split; [lia|done].
  - apply (sp_lt n sa Hseps); lia.
Qed.

Lemma after_starting p i j : 0 <= j < i -> i < sknum n -> starts p j -> ~ starts p i -> lex_lt k (bytes (sa i)).
Proof.
  intros Hij Hi [Hj Hs1] Hn. apply (lex_lt_start_r (take (Z.to_nat p) k) _ (bytes (sa j))); [done| | |].
  - exists (drop (Z.to_nat p) k). by rewrite take_drop.
  - intros Hs2. apply Hn. split; [lia|done].
  - apply (sp_lt n sa Hseps); lia.
Qed.

Lemma starts_between p i j l : starts p i -> starts p l -> i <= j <= l -> starts p j.
Proof.
  intros [Hi Hsi] [Hl Hsl] Hj. destruct (decide (j = i)) as [->|]; [done|]. destruct (decide (j = l)) as [->|]; [done|].
  split; [lia|]. apply (lex_lt_between _ (bytes (sa i)) _ (bytes (sa l))); [done|done|apply (sp_lt n sa Hseps); lia..].
Qed.

(** at the byte where no candidate is equal, each is on the side of its feature *)
Lemma starting_cmp p j c :
  0 <= p -> starts p j -> aget k p = Some c -> pad (bytes (sa j)) p <> c ->
  lex_cmp (bytes (sa j)) k = (pad (bytes (sa j)) p ?= c).
Proof.
  intros Hp [Hj Hst] Hcp Hne. pose proof (string_byte p c Hcp) as Hcb. apply aget_Some in Hcp as [_ Hcp].
  pose proof (lookup_lt_Some _ _ _ Hcp) as Hl. apply take_prefix in Hst; [|lia].
  rewrite (lex_cmp_drop (Z.to_nat p) _ _ Hst). unfold pad in *.
  rewrite (drop_S k c _ Hcp). destruct (bytes (sa j) !! Z.to_nat p) as [b|] eqn:Eb; cbn [default from_option id] in *.
  - rewrite (drop_S _ b _ Eb). cbn. destruct (Z.compare_spec b c); done.
  - apply lookup_ge_None in Eb. rewrite drop_ge by done. cbn. destruct (Z.compare_spec 0 c); [lia|done|lia].
Qed.

(** the mask of the candidates after the rows up to byte [p] *)
Definition smask_is (p mask : Z) : Prop :=
  is_u64 mask /\ forall j, 0 <= j < 64 -> Z.testbit mask j = true <-> starts p j.

Lemma smask_starts p mask j : smask_is p mask -> Z.testbit mask j = true -> starts p j.
Proof.
  intros [Hm H] Ht. apply H; [|done]. destruct (decide (0 <= j < 64)); [done|exfalso].
  destruct (decide (0 <= j)); [|by rewrite Z.testbit_neg_r in Ht by lia].
  rewrite (testbit_above _ 64) in Ht; [done|lia|done|lia].
Qed.

Lemma smask_empty p j : smask_is p 0 -> ~ starts p j.
Proof.
  intros [_ H] Ha. pose proof (ss_knum n Hs). destruct Ha as [Hj Ha].
  assert (Z.testbit 0 j = true) as Ht by (apply H; [lia|done]). by rewrite Z.testbit_0_l in Ht.
Qed.

(** the masks of a row *)
Lemma equal_mask rid row c p mask :
  0 <= rid < 4 -> p = splen n + rid -> aget (sfeatures n) rid = Some row -> row_ok row -> aget k p = Some c -> smask_is p mask ->
  exists m, compare_equal row (flip c) = Some m /\ smask_is (p + 1) (Z.land m mask).
Proof.
  intros Hrid -> Hrow Hok Hcp [Hu Hm]. pose proof (string_byte _ c Hcp) as Hcb.
  destruct (splen_bounds n sa Hs Hc) as [Hp _].
  destruct (compare_equal_row KU64 row (flip c) Hok (flipped_byte c)) as (m & E & Hm64 & Hmt). exists m. split; [exact E|].
  split; [by apply land_u64|]. intros j Hj. rewrite Z.land_spec, andb_true_iff, Hm, Hmt, (starts_S _ j c) by (done || lia).
  assert (starts (splen n + rid) j -> aget row j = Some (flip c) <-> bytes (sa j) !! Z.to_nat (splen n + rid) = Some c) as Hiff; [|naive_solver].
  intros [Hjk _]. pose proof (sc_feat n sa Hc rid j Hrid Hjk) as Hf. unfold feat in Hf. rewrite Hrow, bind_Some in Hf.
  rewrite Hf, <- pad_nonzero by lia. split; [intros [= Hfl]|by intros ->].
  apply flip_inj; [by apply pad_byte, (sp_ok n sa Hseps)|unfold is_byte; lia|done].
Qed.

Lemma less_mask rid row c p mask :
  0 <= rid < 4 -> p = splen n + rid -> aget (sfeatures n) rid = Some row -> row_ok row -> aget k p = Some c -> smask_is p mask ->
  exists m, compare_less row (flip c) = Some m /\ is_u64 (Z.land m mask)
    /\ forall j, 0 <= j < 64 -> Z.testbit (Z.land m mask) j = true <-> starts p j /\ pad (bytes (sa j)) p < c.
Proof.
  intros Hrid -> Hrow Hok Hcp [Hu Hm]. pose proof (string_byte _ c Hcp) as Hcb.
  destruct (compare_less_row KU64 row (flip c) Hok (flipped_byte c)) as (m & E & Hm64 & Hmt). exists m. split; [exact E|].
  split; [by apply land_u64|]. intros j Hj. rewrite Z.land_spec, andb_true_iff, Hm by done.
  assert (starts (splen n + rid) j -> Z.testbit m j = true <-> pad (bytes (sa j)) (splen n + rid) < c) as Hiff; [|naive_solver].
  intros [Hjk _]. pose proof (sc_feat n sa Hc rid j Hrid Hjk) as Hf. unfold feat in Hf. rewrite Hrow, bind_Some in Hf.
  rewrite (Hmt j _ Hj Hf), !schar_flipped; [lia|unfold is_byte; lia|by apply pad_byte, (sp_ok n sa Hseps)].
Qed.

(** the rows compared for equality *)
Definition sbytes : Z := Z.min 4 (len key - splen n).

Lemma sequal_rows_spec :
  exists rid eqmask, equal_rows n key sbytes = Some (rid, eqmask) /\ 0 <= rid <= sbytes
    /\ smask_is (splen n + rid) eqmask /\ (eqmask = 0 -> rid = 0 /\ sknum n = 0)
    /\ (rid < sbytes -> forall j, ~ starts (splen n + rid + 1) j).
Proof.
  pose proof (ss_knum n Hs) as Hk. pose proof key_len as Hlen. destruct (splen_bounds n sa Hs Hc) as [Hp _].
  unfold equal_rows. rewrite sbitmap_spec, bind_Some by done. unfold sbytes.
  pose (P := fun rid eqmask => smask_is (splen n + rid) eqmask /\ (eqmask = 0 -> rid = 0 /\ sknum n = 0)).
  pose (Q := fun rid eqmask => P rid eqmask /\ forall j, ~ starts (splen n + rid + 1) j).
  match goal with |- context [for_break ?fuel ?body ?i ?l ?s] =>
    destruct (for_break_inv P Q fuel body i l s) as (rid & eqmask & E & Hr & Hfin) end.
  - rewrite snode_kFeatureSize. lia.
  - lia.
  - split.
    + split.
      { rewrite Z.ones_equiv. pose proof (Z.pow_le_mono_r 2 (sknum n) 64).
        pose proof (Z.pow_pos_nonneg 2 (sknum n)). unfold is_u64. lia. }
      intros j Hj. rewrite ones_testbit by lia. rewrite Z.add_0_r. split.
      * intros Hjk. apply starts_prefix. blia.
      * intros [Hj2 _]. blia.
    + intros E. split; [done|]. destruct (decide (sknum n = 0)); [done|].
      rewrite Z.ones_equiv in E. pose proof (Z.pow_gt_1 2 (sknum n)). lia.
  - intros rid eqmask Hrid [Hm Hz].
    destruct (srow_get n rid Hs ltac:(lia)) as (row & Erow & Hrow). rewrite Erow, bind_Some.
    destruct (aget_in_range k (splen n + rid)) as [c Ec]; [lia|]. rewrite Ec, bind_Some.
    destruct (equal_mask rid row c (splen n + rid) eqmask) as (m & -> & Hnew); [lia|done..|]. rewrite bind_Some.
    cbn zeta. destruct (Z.land m eqmask =? 0) eqn:E0.
    + apply Z.eqb_eq in E0. eexists _, true. split; [done|]. split; [done|].
      intros j Hj. rewrite E0 in Hnew. by apply (smask_empty _ _ Hnew) in Hj.
    + apply Z.eqb_neq in E0. eexists _, false. split; [done|]. split; [|done]. by rewrite Z.add_assoc.
  - rewrite E. exists rid, eqmask. split; [done|]. split; [done|].
    destruct Hfin as [[-> [H1 H2]]|[Hlt [[H1 H2] H3]]]; (split; [done|split; [done|]]); [lia|done].
Qed.

(** where the key goes among the separators *)
Abbreviation lower idx := (place lex_lt (sknum n) (fun j => bytes (sa j)) k idx).

Lemma lower_intro idx :
  0 <= idx <= sknum n -> (forall j, 0 <= j < idx -> lex_lt (bytes (sa j)) k) ->
  (idx < sknum n -> ~ lex_lt (bytes (sa idx)) k) -> lower idx.
Proof.
  intros Hi Hl Hg. split; [done|]. split; [done|]. intros j Hj Hlt.
  destruct (decide (j = idx)) as [->|]; [apply Hg; [lia|done]|]. apply Hg; [lia|].
  apply (lex_lt_trans _ (bytes (sa j))); [apply (sp_lt n sa Hseps); lia|done].
Qed.

(** the greatest candidate that is less than the key *)
Lemma ssearch_some_less p c eqmask lessmask h :
  0 <= p -> aget k p = Some c -> smask_is p eqmask -> (forall j, ~ starts (p + 1) j) ->
  (forall j, 0 <= j < 64 -> Z.testbit lessmask j = true <-> starts p j /\ pad (bytes (sa j)) p < c) ->
  0 <= h < 64 -> Z.testbit lessmask h = true -> (forall j, h < j -> Z.testbit lessmask j = false) ->
  lower (h + 1).
Proof.
  intros Hp Hcp Hm Hno Hless Hh Ht Hmax. pose proof (ss_knum n Hs) as Hk. pose proof (string_byte p c Hcp) as Hcb.
  apply Hless in Ht as [Ha Hlt]; [|done].
  assert (lex_lt (bytes (sa h)) k) as Hhk.
  { unfold lex_lt. rewrite (starting_cmp p h c); [|done..|lia]. done. }
  pose proof Ha as [Hh2 _]. apply lower_intro; [lia| |].
  - intros j Hj. destruct (decide (j = h)) as [->|]; [done|].
    apply (lex_lt_trans _ (bytes (sa h))); [apply (sp_lt n sa Hseps); lia|done].
  - intros Hj. destruct (decide (Z.testbit eqmask (h + 1) = true)) as [He|He].
    + pose proof (smask_starts p eqmask _ Hm He) as Haj.
      assert (pad (bytes (sa (h + 1))) p <> c) as Hne.
      { intros E. apply (Hno (h + 1)), (starts_S p _ c); [done..|]. split; [done|]. by apply pad_nonzero; [lia|]. }
      unfold lex_lt. rewrite (starting_cmp p (h + 1) c) by done. intros Hlt'.
      assert (Z.testbit lessmask (h + 1) = true) as Hj2 by (apply Hless; [lia|done]).
      rewrite Hmax in Hj2 by lia. done.
    + apply lex_lt_asym, (after_starting p (h + 1) h); [lia|lia|done|].
      intros Haj. apply He, Hm; [lia|done].
Qed.

(** no candidate is less than the key *)
Lemma ssearch_none_less p c eqmask :
  0 <= p -> aget k p = Some c -> smask_is p eqmask -> eqmask <> 0 -> (forall j, ~ starts (p + 1) j) ->
  (forall j, 0 <= j < 64 -> ~ (starts p j /\ pad (bytes (sa j)) p < c)) ->
  lower (index_least1 64 eqmask).
Proof.
  intros Hp Hcp Hm Hnz Hno Hless. pose proof (ss_knum n Hs) as Hk. pose proof (string_byte p c Hcp) as Hcb.
  destruct (index_least1_spec eqmask (proj1 Hm) Hnz) as (Hr & Ht & Hmin).
  set (i := index_least1 64 eqmask) in *.
  pose proof (smask_starts p eqmask i Hm Ht) as Ha. pose proof Ha as [Hi _]. apply lower_intro; [lia| |].
  - intros j Hj. apply (before_starting p j i); [lia|done|].
    intros Haj. apply (proj2 Hm j ltac:(lia)) in Haj. rewrite Hmin in Haj by lia. done.
  - intros _. assert (pad (bytes (sa i)) p <> c) as Hne.
    { intros E. apply (Hno i), (starts_S p _ c); [done..|]. split; [done|]. by apply pad_nonzero; [lia|]. }
    unfold lex_lt. rewrite (starting_cmp p i c) by done. intros Hlt. apply (Hless i); [lia|done].
Qed.

(** the binary search: the separators before the interval are less, those behind it are
    not, and those in it start as the key does *)
Lemma suffix_loop_spec fuel cmps lid hid :
  0 <= cmps <= len key -> 0 <= lid <= hid -> hid <= sknum n -> hid - lid < 2 ^ Z.of_nat fuel ->
  (forall j, 0 <= j < lid -> lex_lt (bytes (sa j)) k) -> (hid < sknum n -> ~ lex_lt (bytes (sa hid)) k) ->
  (forall j, lid <= j < hid -> starts cmps j) ->
  exists idx, suffix_loop fuel n (drop (Z.to_nat cmps) k) (len key - cmps) cmps lid hid = Some idx /\ lower idx.
Proof.
  pose proof key_len as Hlen. pose proof (ss_knum n Hs) as Hk.
  revert lid hid. induction fuel as [|fuel IH]; intros lid hid Hcmps Hlh Hh Hf Hl Hg Hst.
  { cbn in Hf. cbn [suffix_loop]. bfalse (lid <? hid). btrue (lid =? hid). exists hid. split; [done|].
    by assert (lid = hid) as -> by lia; apply lower_intro; [lia|..]. }
  cbn [suffix_loop]. destruct (Z.ltb_spec lid hid) as [Hlt|Hge].
  2: { btrue (lid =? hid). exists hid. split; [done|]. assert (lid = hid) as -> by lia. by apply lower_intro; [lia|..]. }
  cbn zeta. pose proof (Z.div_mod (lid + hid) 2 ltac:(lia)) as Hd. pose proof (Z.mod_pos_bound (lid + hid) 2 ltac:(lia)) as Hmod.
  set (mid := (lid + hid) / 2) in *. assert (lid <= mid < hid) as Hmid by lia.
  rewrite Nat2Z.inj_succ, Z.pow_succ_r in Hf by lia.
  unfold anchor_at. rewrite (sp_at n sa Hseps mid) by lia. rewrite !bind_Some.
  destruct (Hst mid ltac:(lia)) as [_ Hp]. apply take_prefix in Hp; [|lia].
  destruct (sp_ok n sa Hseps mid ltac:(lia)) as [Hsl _]. unfold str_ok in Hsl.
  assert (cmps <= len (an_str (sa mid))) as Hcs.
  { apply (f_equal length) in Hp. rewrite !length_take in Hp. lia. }
  bfalse (len (an_str (sa mid)) - cmps <? 0). rewrite compare_lexicographic, bind_Some by (rewrite length_drop; lia).
  rewrite !take_ge by (rewrite length_drop; lia).
  rewrite <- (lex_cmp_drop (Z.to_nat cmps)) by done.
  destruct (lex_cmp k (bytes (sa mid))) eqn:Ecmp; cbn [int_of_cmp Z.ltb Z.compare Z.eqb].
  - apply lex_cmp_eq in Ecmp. exists mid. split; [done|]. apply lower_intro; [lia| |].
    + intros j Hj. rewrite Ecmp. apply (sp_lt n sa Hseps); lia.
    + intros _. rewrite <- Ecmp. apply lex_lt_irrefl.
  - apply IH; [lia..|done| |].
    + intros _. by apply lex_lt_asym.
    + intros j Hj. apply Hst. lia.
  - assert (lex_lt (bytes (sa mid)) k) as Hml by (unfold lex_lt; by rewrite lex_cmp_antisym, Ecmp).
    apply IH; [lia..| |done|].
    + intros j Hj. destruct (decide (j = mid)) as [->|]; [done|].
      apply (lex_lt_trans _ (bytes (sa mid))); [apply (sp_lt n sa Hseps); lia|done].
    + intros j Hj. apply Hst. lia.
Qed.

(** the search finds the place of the key: a node without separators has no prefix, and
    is not searched for the empty key *)
Lemma ssearch_spec :
  (sknum n = 0 -> k <> []) -> exists idx, search n key = Some idx /\ lower idx.
Proof.
  intros Hne. pose proof (ss_knum n Hs) as Hk. pose proof key_len as Hlen. destruct (splen_bounds n sa Hs Hc) as [Hp _].
  unfold search. btrue (splen n <=? len key). cbn [asserting]. cbn zeta. rewrite snode_kFeatureSize. fold sbytes.
  destruct sequal_rows_spec as (rid & eqmask & E & Hrid & Hm & Hz & Hno). rewrite E, bind_Some. clear E.
  destruct (rid <? sbytes) eqn:Elt.
  - specialize (Hno ltac:(lia)). unfold sbytes in *.
    destruct (srow_get n rid Hs ltac:(lia)) as (row & Erow & Hrow). rewrite Erow, bind_Some.
    destruct (aget_in_range k (splen n + rid)) as [c Ec]; [lia|]. rewrite Ec, bind_Some.
    destruct (less_mask rid row c (splen n + rid) eqmask) as (m & -> & Hm2 & Hless); [lia|done..|]. rewrite bind_Some.
    cbn zeta. destruct (Z.land m eqmask =? 0) eqn:E0.
    + apply Z.eqb_eq in E0. rewrite E0 in Hless. destruct (eqmask =? 0) eqn:E1.
      * apply Z.eqb_eq in E1. destruct (Hz E1) as [_ Hk0]. exists 0. split; [done|]. apply lower_intro; lia.
      * apply Z.eqb_neq in E1. eexists. split; [done|].
        apply (ssearch_none_less (splen n + rid) c eqmask); [lia|done..|].
        intros j Hj Hjl. apply Hless in Hjl; [|done]. by rewrite Z.testbit_0_l in Hjl.
    + apply Z.eqb_neq in E0.
      destruct (countl_zero_spec (Z.land m eqmask)) as (lz & -> & Hlz & Ht & Hmax); [done..|].
      rewrite bind_Some. eexists. split; [done|]. unfold kBitCnt. replace (64 - lz) with (63 - lz + 1) by lia.
      apply (ssearch_some_less (splen n + rid) c eqmask (Z.land m eqmask)); done || lia.
  - assert (rid = sbytes) as -> by lia. clear Hrid Hno Elt.
    assert (eqmask <> 0) as Hnz.
    { intros Ez. destruct (Hz Ez) as [Hsb Hk0]. specialize (Hne Hk0). rewrite (sc_empty n sa Hc Hk0) in *.
      unfold sbytes in Hsb. apply Hne, length_zero_iff_nil. rewrite (sc_empty n sa Hc Hk0) in Hsb. lia. }
    bfalse (eqmask =? 0). cbn [negb asserting].
    destruct (index_least1_spec eqmask (proj1 Hm) Hnz) as (Hr & Ht & Hmin).
    destruct (countl_zero_spec eqmask) as (lz & -> & Hlz & Htz & Hmax); [apply Hm|done|]. rewrite bind_Some.
    set (i := index_least1 64 eqmask) in *. unfold kBitCnt.
    pose proof (smask_starts _ eqmask _ Hm Ht) as Hi. pose proof (smask_starts _ eqmask _ Hm Htz) as Hj.
    pose proof Hi as [Hi2 _]. pose proof Hj as [Hj2 _].
    assert (i <= 63 - lz) as Hij by (destruct (decide (i <= 63 - lz)); [done|rewrite Hmax in Ht by lia; done]).
    unfold suffix_bs. assert (0 <= splen n + sbytes <= len key) as Hsb by (unfold sbytes; lia).
    btrue ((splen n + sbytes <=? len key) && (i <? 64 - lz) && (0 <=? splen n + sbytes)).
    cbn [asserting]. apply suffix_loop_spec; [done|lia|lia|lia| | |].
    + intros j Hjl. apply (before_starting (splen n + sbytes) j i); [lia|done|].
      intros Haj. apply (proj2 Hm j ltac:(lia)) in Haj. rewrite Hmin in Haj by lia. done.
    + intros Hl. apply lex_lt_asym, (after_starting (splen n + sbytes) _ (63 - lz)); [lia|lia|done|].
      intros Haj. apply (proj2 Hm (64 - lz) ltac:(lia)) in Haj. rewrite Hmax in Haj by lia. done.
    + intros j Hjl. apply (starts_between _ i j (63 - lz)); [done..|lia].
Qed.
End search.

(** ** Where a key goes *)

Abbreviation lower n sa key idx := (place lex_lt (sknum n) (fun j => bytes (sa j)) (str key) idx).

Record slinked n : Prop := {
  sl_children j : 0 <= j < sknum n -> exists a, aget (schildren n) j = Some (Some a);
  sl_next : exists a, snext_ n = Some a;
}.

Definition sroute n (idx : Z) : option ptr :=
  if idx =? sknum n then Some (snext_ n) else aget (schildren n) idx.

(** what the search needs of the key: it has no zero byte; it is not empty if there is
    no separator; and the prefix it is compared with is stored *)
Record searchable n (key : String) : Prop := {
  se_key : key_ok key;
  se_nonempty : sknum n = 0 -> str key <> [];
  se_stored : prefix_stored n key;
}.

(** the three ways of the prefix comparison *)
Lemma prefix_ways n sa key :
  sshape n -> sseps_ok n sa -> scontent n sa -> searchable n key ->
  exists pcmp, prefix_compare n key = Some pcmp
    /\ ((pcmp < 0 /\ 0 < sknum n /\ lower n sa key 0) \/ (0 < pcmp /\ 0 < sknum n /\ lower n sa key (sknum n))
        \/ (pcmp = 0 /\ exists idx, search n key = Some idx /\ lower n sa key idx)).
Proof.
  intros Hs Hseps Hc [Hkey Hne Hst]. pose proof (ss_knum n Hs) as Hk.
  destruct (prefix_compare_spec n sa Hs Hseps Hc key) as (pcmp & E & Hlt & Hgt & Heq); [apply Hkey|done|].
  exists pcmp. split; [done|]. destruct (Z.lt_trichotomy pcmp 0) as [H|[H|H]].
  - left. destruct (Hlt H) as [H0 Hall]. split; [done|]. split; [done|]. split; [lia|]. split; [lia|].
    intros j Hj. by apply lex_lt_asym, Hall.
  - right; right. destruct (Heq H) as [Hpl Hpre]. split; [done|].
    destruct (ssearch_spec n sa key Hs Hseps Hc Hkey Hpl Hpre Hne) as (idx & ? & ?). by exists idx.
  - right; left. destruct (Hgt H) as [H0 Hall]. split; [done|]. split; [done|]. split; [lia|]. split; [done|]. lia.
Qed.

Lemma sto_next_spec n f sa key :
  snode_wf n f sa -> Control.f_locked f = false -> Control.f_deleted f = false -> slinked n -> searchable n key ->
  exists idx next, lower n sa key idx /\ sroute n idx = Some (Some next)
    /\ to_next n key = Some ((idx =? sknum n) && Control.f_sibling f, Some next, Control.load_version (scontrol n)).
Proof.
  intros [Hs Hseps Hc Hw Hv _] Hlk Hdel [Hch [nx Hnx]] Hse. pose proof (ss_knum n Hs) as Hk.
  unfold to_next, to_next_phase1. rewrite Hw, Control.begin_read_encode, bind_Some by done.
  destruct (Control.reads_encode f Hv) as (Hsib & Hd & _). rewrite Hd, Hdel, Hsib.
  destruct (prefix_ways n sa key Hs Hseps Hc Hse) as (pcmp & -> & [(H & H0 & Hp)|[(H & H0 & Hp)|(-> & idx & E & Hp)]]);
    rewrite bind_Some.
  - btrue (pcmp <? 0). destruct (Hch 0 ltac:(lia)) as [a Ha]. rewrite Ha, !bind_Some. bfalse (pcmp =? 0).
    rewrite bind_Some, Control.end_read_encode, bind_Some by done. exists 0, a. unfold sroute. by bfalse (0 =? sknum n).
  - bfalse (pcmp <? 0). btrue (0 <? pcmp). rewrite bind_Some. bfalse (pcmp =? 0).
    rewrite bind_Some, Control.end_read_encode, bind_Some by done. exists (sknum n), nx. unfold sroute. by rewrite !Z.eqb_refl, Hnx.
  - cbn [Z.ltb Z.compare]. rewrite bind_Some. cbn [Z.eqb]. rewrite E, bind_Some.
    pose proof Hp as [Hi _]. exists idx. unfold sroute. destruct (Z.eqb_spec idx (sknum n)) as [->|].
    + exists nx. rewrite !bind_Some, Hnx, bool_decide_true by eauto. cbn [asserting].
      by rewrite bind_Some, Control.end_read_encode, bind_Some by done.
    + destruct (Hch idx ltac:(lia)) as [a Ha]. exists a. rewrite Ha, !bind_Some, bool_decide_true by eauto. cbn [asserting].
      by rewrite bind_Some, Control.end_read_encode, bind_Some by done.
Qed.

Lemma sindex_or_sibling_spec n f sa key :
  snode_wf n f sa -> Control.f_deleted f = false -> (Control.f_sibling f = true -> exists a, snext_ n = Some a) ->
  searchable n key ->
  exists idx, lower n sa key idx
    /\ index_or_sibling n key = (if (idx =? sknum n) && Control.f_sibling f then inr <$> snext_ n else Some (inl idx)).
Proof.
  intros [Hs Hseps Hc Hw Hv _] Hdel Hnx Hse. pose proof (ss_knum n Hs) as Hk.
  unfold index_or_sibling, index_phase1. rewrite Hw.
  destruct (Control.reads_encode f Hv) as (Hsib & Hd & _). rewrite Hd, Hdel, Hsib.
  destruct (prefix_ways n sa key Hs Hseps Hc Hse) as (pcmp & -> & [(H & H0 & Hp)|[(H & H0 & Hp)|(-> & idx & E & Hp)]]);
    rewrite bind_Some.
  - btrue (pcmp <? 0). rewrite bind_Some. bfalse (pcmp =? 0). exists 0. split; [done|]. by bfalse (0 =? sknum n).
  - bfalse (pcmp <? 0). btrue (0 <? pcmp). exists (sknum n). split; [done|]. rewrite Z.eqb_refl.
    destruct (Control.f_sibling f); cbn [negb andb]; rewrite bind_Some; bfalse (pcmp =? 0); [|done].
    by destruct (Hnx eq_refl) as [a ->].
  - cbn [Z.ltb Z.compare]. rewrite bind_Some. cbn [Z.eqb]. rewrite E, bind_Some. exists idx. split; [done|].
    destruct (_ && _); [|done]. by destruct (snext_ n).
Qed.
