(* ===== verification/SInnerOps.v ===== *)
(** * The structural operations of the inner node of string keys

    [content_rebuild], insertion, split, removal and merge of [SInner], as operations on
    the sequence of separators of a node and on the routes between them. *)

From S2P Require Import Prelude Bits Simd Strings Moves Encode Control Leaf Inner InnerSpec SInner SInnerSpec.
Import SInner.

#[local] Opaque for_mask mask_fuel.

Implicit Types (n rn : snode) (r j : Z) (fs : list (list Z)) (sa : Z -> anchor).

(** ** The features *)

(** four rows, as a node of 4-byte keys has them *)
Abbreviation srows_ok := (rows_ok KU32).

Lemma snode_rows n : sshape n -> srows_ok (sfeatures n).
Proof. intros [[Hl Hr] _ _ _ _]. split; [|done]. change (Inner.kFeatureSize KU32) with 4. lia. Qed.

Lemma feature_of_pad s i : str_ok s -> 0 <= i -> feature_of s i = Some (pad (str s) i).
Proof.
  unfold str_ok, feature_of, pad. intros -> Hi. unfold aget. bfalse (i <? 0).
  destruct (Z.ltb_spec i (Z.of_nat (length (str s)))).
  - destruct (lookup_lt_is_Some_2 (str s) (Z.to_nat i)) as [c ->]; [lia|done].
  - by rewrite lookup_ge_None_2 by lia.
Qed.

Lemma sset_feat_spec n r j c :
  srows_ok (sfeatures n) -> 0 <= r < 4 -> 0 <= j < 64 -> is_byte c ->
  exists fs, set_feat n r j c = Some (set_features n fs)
    /\ holds KU32 fs (fun r' j' => if (r' =? r) && (j' =? j) then Some c else cell (sfeatures n) r' j').
Proof.
  intros Hf Hr Hj Hc. destruct (rows_get KU32 _ r Hf Hr) as (row & E & Hl & Hb).
  unfold set_feat. rewrite E, bind_Some, aset_in_range, bind_Some by lia.
  edestruct (set_row KU32 (sfeatures n) r (<[Z.to_nat j := c]> row)) as (fs & -> & H); [done|done| | | |].
  - split; [by rewrite length_insert|by apply Forall_insert].
  - intros j' Hj'. rewrite aget_insert by lia.
    instantiate (1 := fun r' j' => if (r' =? r) && (j' =? j) then Some c else cell (sfeatures n) r' j').
    cbn beta. rewrite Z.eqb_refl, Z.eqb_sym. cbn [andb]. destruct (j' =? j); [done|]. unfold cell. by rewrite E.
  - intros r' j' Hne _ _. cbn beta. by bfalse (r' =? r).
  - by exists fs.
Qed.

Lemma smove_in_row_spec n rid d s m :
  srows_ok (sfeatures n) -> 0 <= rid < 4 -> 0 <= d -> 0 <= s -> 0 <= m -> d + m <= 64 -> s + m <= 64 ->
  exists fs, move_in_row n rid d s m = Some (set_features n fs)
    /\ holds KU32 fs (fun r j => if (r =? rid) && (d <=? j) && (j <? d + m)
                           then cell (sfeatures n) r (s + (j - d)) else cell (sfeatures n) r j).
Proof.
  intros Hf Hr Hd Hs Hm Hdm Hsm. destruct (rows_get KU32 _ rid Hf Hr) as (row & E & Hl & Hb).
  unfold move_in_row. rewrite E, bind_Some.
  destruct (amove_get row d row s m) as (row' & E' & Hl' & Hg'); [lia..|]. rewrite E', bind_Some.
  edestruct (set_row KU32 (sfeatures n) rid row') as (fs & -> & H); [done|done| | | |].
  - split; [congruence|by eapply amove_Forall].
  - intros j Hj. rewrite Hg' by lia.
    instantiate (1 := fun r j => if (r =? rid) && (d <=? j) && (j <? d + m)
                           then cell (sfeatures n) r (s + (j - d)) else cell (sfeatures n) r j).
    cbn beta. rewrite Z.eqb_refl. cbn [andb]. unfold cell. rewrite E, !bind_Some. done.
  - intros r j Hne _ _. cbn beta. by bfalse (r =? rid).
  - by exists fs.
Qed.

(** a loop that rewrites the rows, one at a time *)
Lemma srows_loop n body (g : Z -> Z -> option Z) :
  srows_ok (sfeatures n) ->
  (forall rid fs, 0 <= rid < 4 -> srows_ok fs ->
     (forall j, 0 <= j < 64 -> cell fs rid j = cell (sfeatures n) rid j) ->
     exists fs', body rid (set_features n fs) = Some (set_features n fs')
       /\ holds KU32 fs' (fun r j => if r =? rid then g r j else cell fs r j)) ->
  exists fs, for_range body 0 4 n = Some (set_features n fs) /\ holds KU32 fs g.
Proof.
  intros Hf Hbody.
  pose (P := fun rid n' => exists fs, n' = set_features n fs
    /\ holds KU32 fs (fun r j => if r <? rid then g r j else cell (sfeatures n) r j)).
  destruct (for_range_inv P body 0 4 n) as (n' & E & fs & -> & Hh).
  - lia.
  - exists (sfeatures n). split; [by destruct n|]. split; [done|].
    intros r j Hr Hj. by bfalse (r <? 0).
  - intros rid n1 Hrid (fs1 & -> & Hf1 & Hc1). change (Inner.kFeatureSize KU32) with 4 in *.
    destruct (Hbody rid fs1) as (fs2 & E & Hf2 & Hc2); [lia|done| |].
    { intros j Hj. rewrite Hc1 by lia. by bfalse (rid <? rid). }
    eexists. split; [done|]. exists fs2. split; [done|]. split; [done|].
    intros r j Hr Hj. rewrite Hc2 by done. destruct (Z.eqb_spec r rid) as [->|Hne].
    + by btrue (rid <? rid + 1).
    + rewrite Hc1 by done. by replace (r <? rid + 1) with (r <? rid) by (apply eq_true_iff_eq; blia).
  - exists fs. split; [exact E|]. destruct Hh as [H1 H2]. split; [done|].
    intros r j Hr Hj. rewrite H2 by done. change (Inner.kFeatureSize KU32) with 4 in *. by btrue (r <? 0 + 4).
Qed.

(** the feature of separator [s] in row [r] *)
Definition feature (p : Z) (s : String) r : option Z := Some (flip (pad (str s) (p + r))).

Lemma put_features_spec n kid s :
  srows_ok (sfeatures n) -> 0 <= splen n -> 0 <= kid < 64 -> str_ok s ->
  exists fs, put_features n kid s = Some (set_features n fs)
    /\ holds KU32 fs (fun r j => if j =? kid then feature (splen n) s r else cell (sfeatures n) r j).
Proof.
  intros Hf Hp Hk Hok. unfold put_features. change kFeatureSize with 4. apply srows_loop; [done|].
  intros rid fs Hrid Hf1 Hrow. cbn [splen set_features]. rewrite feature_of_pad, bind_Some by (done || lia).
  destruct (sset_feat_spec (set_features n fs) rid kid (flip (pad (str s) (splen n + rid)))) as (fs' & -> & Hf2 & Hc2);
    [done|done|done|apply flipped_byte|].
  exists fs'. split; [done|]. split; [done|]. intros r j Hr Hj. rewrite Hc2 by done. cbn [sfeatures set_features].
  destruct (Z.eqb_spec r rid) as [->|]; cbn [andb]; [|done]. destruct (j =? kid); [done|]. by apply Hrow.
Qed.

(** ** [content_rebuild] *)

(** everything but the prefix and the features *)
Definition same_links n n' : Prop :=
  scontrol n' = scontrol n /\ sknum n' = sknum n /\ snext_ n' = snext_ n
  /\ sanchors n' = sanchors n /\ schildren n' = schildren n.

Lemma tiny_copy (t a : list Z) (p : nat) :
  (p <= length t)%nat -> (p <= length a)%nat ->
  exists t', amove t 0 a 0 (Z.of_nat p) = Some t' /\ length t' = length t /\ take p t' = take p a.
Proof.
  intros Ht Ha. rewrite amove_Some by lia. eexists. split; [done|].
  rewrite Z.add_0_l, Nat2Z.id. change (Z.to_nat 0) with 0%nat. rewrite drop_0, take_0, app_nil_l. split.
  - rewrite length_app, length_take, length_drop. lia.
  - rewrite take_app_le by (rewrite length_take; lia). by rewrite take_take, Nat.min_id.
Qed.

(** the features of all separators *)
Lemma put_all_features n sa :
  sshape n -> sseps_ok n sa -> 0 <= splen n ->
  exists fs, for_range (fun kid n => let* a := anchor_at n kid in put_features n kid (an_str a)) 0 (sknum n) n
      = Some (set_features n fs)
    /\ srows_ok fs /\ forall r j, 0 <= r < 4 -> 0 <= j < sknum n -> cell fs r j = feature (splen n) (an_str (sa j)) r.
Proof.
  intros Hs Hseps Hp. pose proof (ss_knum n Hs) as Hk.
  pose (P := fun kid n' => exists fs, n' = set_features n fs
    /\ srows_ok fs /\ forall r j, 0 <= r < 4 -> 0 <= j < kid -> cell fs r j = feature (splen n) (an_str (sa j)) r).
  match goal with |- context [for_range ?body 0 ?m n] =>
    destruct (for_range_inv P body 0 m n) as (n' & E & fs & -> & Hf & Hc) end.
  - lia.
  - exists (sfeatures n). split; [by destruct n|]. split; [by apply snode_rows|]. intros r j Hr Hj. lia.
  - intros kid n1 Hkid (fs & -> & Hf & Hc). unfold anchor_at. cbn [sanchors set_features].
    rewrite (sp_at n sa Hseps), !bind_Some by done.
    destruct (put_features_spec (set_features n fs) kid (an_str (sa kid))) as (fs' & -> & Hf' & Hc');
      [done|done|lia|by apply (sp_ok n sa Hseps)|].
    eexists. split; [done|]. exists fs'. split; [done|]. split; [done|]. intros r j Hr Hj.
    rewrite Hc' by (done || lia). cbn [splen sfeatures set_features].
    destruct (Z.eqb_spec j kid) as [->|]; [done|]. apply Hc; [done|lia].
  - by exists fs.
Qed.

(** it makes the prefix and the features those of the separators *)
Lemma content_rebuild_spec n sa :
  sshape n -> sseps_ok n sa -> 0 < sknum n ->
  exists n', content_rebuild n = Some n' /\ sshape n' /\ sseps_ok n' sa /\ scontent n' sa /\ same_links n n'.
Proof.
  intros Hs Hseps Hk. unfold content_rebuild, anchor_at.
  rewrite (sp_at n sa Hseps 0), !bind_Some, (sp_at n sa Hseps (sknum n - 1)), !bind_Some by lia. cbn zeta.
  destruct (sp_ok n sa Hseps 0 ltac:(lia)) as [L0 _], (sp_ok n sa Hseps (sknum n - 1) ltac:(lia)) as [Ll _].
  unfold str_ok in L0, Ll. rewrite L0, Ll, !Nat2Z.id.
  destruct (common_prefix_longest (bytes (sa 0)) (length (bytes (sa 0))) (bytes (sa (sknum n - 1))) (length (bytes (sa (sknum n - 1)))))
    as (p & Hp & Hp0 & _ & _); [lia|lia|]. rewrite Hp, bind_Some.
  set (n1 := set_huge _ _). pose proof (ss_tiny n Hs) as Ht.
  assert (exists t, (if splen n1 <=? kEmbedPrSize then set_tiny n1 <$> amove (tiny_ n1) 0 (bytes (sa 0)) 0 (splen n1) else Some n1)
            = Some (set_tiny n1 t) /\ length t = 224%nat /\ (splen n1 <= 224 -> take p t = take p (bytes (sa 0)))) as (t & Et & Hlt & Htk).
  { unfold kEmbedPrSize. cbn [splen n1 set_huge set_plen]. destruct (Z.leb_spec (Z.of_nat p) 224).
    - destruct (tiny_copy (tiny_ n) (bytes (sa 0)) p) as (t & E & Hl & Htk); [lia|lia|].
      change (tiny_ n1) with (tiny_ n). rewrite E. exists t. split; [done|]. split; [congruence|done].
    - exists (tiny_ n). split; [by destruct n|]. split; [done|lia]. }
  rewrite Et, bind_Some. clear Et.
  assert (sshape (set_tiny n1 t)) as Hs1 by (destruct Hs; by split).
  assert (sseps_ok (set_tiny n1 t) sa) as Hseps1 by (destruct Hseps; by split).
  destruct (put_all_features _ sa Hs1 Hseps1) as (fs & E & Hf & Hc); [cbn; lia|].
  unfold anchor_at in E. cbn [sknum splen set_tiny n1 set_huge set_plen] in E, Hc |- *. rewrite E. eexists. split; [done|]. split; [|split; [|split]].
  - destruct Hs. split; cbn; try done. split; [|apply Hf]. destruct Hf as [Hf _]. change (Inner.kFeatureSize KU32) with 4 in Hf. lia.
  - destruct Hseps. by split.
  - split; cbn [sknum splen huge_ tiny_ set_features set_tiny n1 set_huge set_plen]; [lia| |done| |done].
    + intros _. by exists p.
    + intros _ ?. rewrite Nat2Z.id. by apply Htk.
  - done.
Qed.

(** ** The control word *)

Lemma supdate_version_eq n f :
  Control.valid f -> scontrol n = Control.encode f -> update_version n = set_control n (Control.encode (Control.bump f)).
Proof. intros Hf E. unfold update_version. f_equal. rewrite E. by apply Control.update_version_encode. Qed.

Lemma srun_control n f o f' :
  Control.valid f -> scontrol n = Control.encode f -> Control.run_fields o f = Some f' ->
  on_control n (Control.run o) = Some (set_control n (Control.encode f')).
Proof.
  intros Hf E Hr. destruct (Control.run_encode o f Hf) as [E' _]. rewrite Hr in E'.
  unfold on_control. by rewrite E, E'.
Qed.

(** ** Moving words *)

Lemma smemmove64_spec {A} (lsrc : list A) src ldst dst m fwd :
  0 <= src -> 0 <= dst -> 0 <= m <= 64 -> src + m <= Z.of_nat (length lsrc) -> dst + m <= Z.of_nat (length ldst) ->
  exists l, memmove64 lsrc src ldst dst m fwd = Some l /\ length l = length ldst
    /\ forall j, 0 <= j -> aget l j = moved ldst lsrc src dst m j.
Proof. apply word_move_spec. Qed.

Lemma smemmove64_within_spec {A} (l : list A) src dst m (fwd : bool) :
  0 <= src -> 0 <= dst -> 0 <= m <= 64 -> src + m <= Z.of_nat (length l) -> dst + m <= Z.of_nat (length l) ->
  (if fwd then dst <= src else src <= dst) ->
  exists l', memmove64_within l src dst m fwd = Some l' /\ length l' = length l
    /\ forall j, 0 <= j -> aget l' j = moved l l src dst m j.
Proof. apply word_move_within_spec. Qed.

(** ** A sequence of separators *)

Definition anchor_lt (a b : anchor) : Prop := lex_lt (bytes a) (bytes b).

(** [k] separators that increase *)
Record anchors_ok (k : Z) sa : Prop := {
  ao_ok j : 0 <= j < k -> string_ok (an_str (sa j));
  ao_lt : increasing anchor_lt k sa;
}.

Lemma anchors_ok_of n sa : sseps_ok n sa -> anchors_ok (sknum n) sa.
Proof. by intros [_ ? ?]. Qed.

Lemma anchors_ok_le k k' sa : anchors_ok k sa -> k' <= k -> anchors_ok k' sa.
Proof. intros [H1 H2] Hk. split; [intros j Hj; apply H1; lia|by apply (increasing_le k)]. Qed.

Lemma anchors_ok_from k d sa : anchors_ok k sa -> 0 <= d -> anchors_ok (k - d) (fun j => sa (d + j)).
Proof. intros [H1 H2] Hd. split; [intros j Hj; apply H1; lia|by apply (increasing_from k)]. Qed.

Lemma anchors_ok_join k sa k' sa' :
  anchors_ok k sa -> anchors_ok k' sa' -> 0 <= k -> (forall i j, 0 <= i < k -> 0 <= j < k' -> anchor_lt (sa i) (sa' j)) ->
  anchors_ok (k + k') (join sa k sa').
Proof.
  intros [H1 H2] [H1' H2'] Hk Hlt. split; [|by apply increasing_join].
  intros j Hj. unfold join. destruct (Z.ltb_spec j k); [apply H1; lia|apply H1'; lia].
Qed.

Lemma anchors_ok_del k sa index : anchors_ok k sa -> 0 <= index < k -> anchors_ok (k - 1) (del sa index).
Proof.
  intros [H1 H2] Hi. split; [|by apply increasing_del].
  intros j Hj. unfold del. destruct (Z.ltb_spec j index); apply H1; lia.
Qed.

(** an array that has them is all that the separators of a node are *)
Lemma sseps_intro n sa :
  stores Some (sknum n) (sanchors n) sa -> anchors_ok (sknum n) sa -> sseps_ok n sa.
Proof. intros H [H1 H2]. by split. Qed.

Lemma sseps_stores n sa : sseps_ok n sa -> stores Some (sknum n) (sanchors n) sa.
Proof. by intros [? _ _]. Qed.

(** where a new separator goes *)
Record sinsert_at n sa (mid : anchor) (index : Z) : Prop := {
  sia_range : 0 <= index <= sknum n;
  sia_ok : string_ok (an_str mid);
  sia_lt j : 0 <= j < index -> anchor_lt (sa j) mid;
  sia_gt j : index <= j < sknum n -> anchor_lt mid (sa j);
}.

Lemma anchors_ok_ins n sa mid index :
  sseps_ok n sa -> sinsert_at n sa mid index -> anchors_ok (sknum n + 1) (ins sa index mid).
Proof.
  intros [_ H1 H2] [Hi Hok Hl Hg]. split; [|by apply increasing_ins].
  intros j Hj. unfold ins. destruct (Z.ltb_spec j index); [apply H1; lia|].
  destruct (Z.eqb_spec j index); [done|apply H1; lia].
Qed.

(** the whole invariant once the contents are rebuilt *)
Lemma rebuilt n f sa :
  sshape n -> sseps_ok n sa -> 0 < sknum n -> scontrol n = Control.encode f -> Control.valid f -> Control.f_leaf f = false ->
  exists n', content_rebuild n = Some n' /\ snode_wf n' f sa /\ same_links n n'.
Proof.
  intros Hs Hseps Hk Hw Hv Hl. destruct (content_rebuild_spec n sa Hs Hseps Hk) as (n' & -> & H1 & H2 & H3 & H4).
  exists n'. split; [done|]. split; [|done]. split; try done. destruct H4 as (-> & _). done.
Qed.

(** the contents depend on the separators only *)
Lemma snode_wf_words n f sa c f' :
  snode_wf n f sa -> c = Control.encode f' -> Control.valid f' -> Control.f_leaf f' = false ->
  snode_wf (set_control n c) f' sa.
Proof. intros [[] [] [] Hw Hv Hl] -> ? ?. split; try done; by split. Qed.

(** ** [insert] with room *)

Lemma insert_features_spec n index s :
  srows_ok (sfeatures n) -> 0 <= splen n -> 0 <= index -> index < sknum n <= 64 -> str_ok s ->
  exists fs, insert_features n index s = Some (set_features n fs)
    /\ holds KU32 fs (fun r j => if j =? index then feature (splen n) s r
         else if (index <? j) && (j <? sknum n) then cell (sfeatures n) r (j - 1) else cell (sfeatures n) r j).
Proof.
  intros Hf Hp Hi Hk Hok. unfold insert_features. change kFeatureSize with 4. apply srows_loop; [done|].
  intros rid fs Hrid Hf1 Hrow. cbn [sknum set_features].
  destruct (smove_in_row_spec (set_features n fs) rid (index + 1) index (sknum n - index - 1)) as (fs1 & -> & Hf2 & Hc2);
    [done|lia..|].
  rewrite bind_Some. cbn [splen set_features sfeatures] in *. rewrite feature_of_pad, bind_Some by (done || lia).
  change (set_features (set_features n fs) fs1) with (set_features n fs1).
  destruct (sset_feat_spec (set_features n fs1) rid index (flip (pad (str s) (splen n + rid)))) as (fs2 & -> & Hf3 & Hc3);
    [done|done|lia|apply flipped_byte|].
  exists fs2. split; [done|]. split; [done|]. intros r j Hr Hj. rewrite Hc3, Hc2 by done. cbn [sfeatures set_features].
  destruct (Z.eqb_spec r rid) as [->|]; cbn [andb]; [|done].
  destruct (Z.eqb_spec j index); [done|].
  replace ((index + 1 <=? j) && (j <? index + 1 + (sknum n - index - 1))) with ((index <? j) && (j <? sknum n))
    by (apply eq_true_iff_eq; blia).
  destruct ((index <? j) && (j <? sknum n)) eqn:Eb; [|by apply Hrow].
  rewrite Hrow by blia. f_equal. lia.
Qed.

(** between the first and the last separator the prefix stays: [n1] is the node with the
    new separator, its features yet to be put in *)
Lemma insert_middle n sa mid index n1 :
  sshape n -> scontent n sa -> sshape n1 -> sseps_ok n1 (ins sa index mid) ->
  0 < index < sknum n -> sknum n1 = sknum n + 1 ->
  splen n1 = splen n -> huge_ n1 = huge_ n -> tiny_ n1 = tiny_ n -> sfeatures n1 = sfeatures n ->
  exists n', insert_features n1 index (an_str mid) = Some n' /\ sshape n' /\ sseps_ok n' (ins sa index mid)
    /\ scontent n' (ins sa index mid) /\ same_links n1 n'.
Proof.
  intros Hs Hc Hs1 Hseps1 Hi Hk Ep Eh Et Ef. destruct (splen_bounds n sa Hs Hc) as [Hp _].
  pose proof (ss_knum n1 Hs1) as Hk1.
  assert (ins sa index mid index = mid) as Emid.
  { unfold ins. bfalse (index <? index). by btrue (index =? index). }
  destruct (insert_features_spec n1 index (an_str mid)) as (fs & -> & Hf & Hcell);
    [by apply snode_rows|lia|lia|lia| |].
  { rewrite <- Emid. apply (sp_ok n1 _ Hseps1). lia. }
  eexists. split; [done|]. split; [|split; [by destruct Hseps1|split; [|done]]].
  { destruct Hs1. split; cbn; try done. split; [|apply Hf]. destruct Hf as [Hf _]. change (Inner.kFeatureSize KU32) with 4 in Hf. lia. }
  assert (ins sa index mid 0 = sa 0) as E0 by (unfold ins; by btrue (0 <? index)).
  assert (ins sa index mid (sknum n + 1 - 1) = sa (sknum n - 1)) as El.
  { unfold ins. bfalse (sknum n + 1 - 1 <? index). bfalse (sknum n + 1 - 1 =? index). f_equal. lia. }
  split; cbn [sknum splen huge_ tiny_ set_features]; rewrite ?Hk, ?Ep, ?Eh, ?Et, ?E0, ?El; [lia| | | |].
  - intros _. apply (sc_longest n sa Hc). lia.
  - intros _. apply (sc_huge n sa Hc). lia.
  - intros _. apply (sc_tiny n sa Hc). lia.
  - intros r j Hr Hj. change (feat (set_features n1 fs) r j) with (cell fs r j). rewrite Hcell by (done || lia).
    rewrite Ep, Ef. pose proof (sc_feat n sa Hc r) as Hfeat. unfold feat in Hfeat. fold (cell (sfeatures n)) in Hfeat.
    unfold ins. destruct (Z.eqb_spec j index) as [->|]; [by bfalse (index <? index)|]. destruct (Z.ltb_spec j index).
    + bfalse ((index <? j) && (j <? sknum n1)). apply Hfeat; lia.
    + btrue ((index <? j) && (j <? sknum n1)). apply Hfeat; lia.
Qed.

(** the routes with [lchild] and [rchild] around the new separator *)
Definition sins_routes n index lchild rchild : Z -> option ptr :=
  ins (upd (sroute n) index (Some lchild)) (index + 1) (Some rchild).

Definition sleft_child n index lchild : Prop := index <> sknum n -> sroute n index = Some lchild.

Lemma sinsert_room n f sa lchild rchild mid index rnode rw :
  snode_wf n f sa -> sknum n < 64 -> sinsert_at n sa mid index ->
  is_Some lchild -> is_Some rchild -> sleft_child n index lchild ->
  exists n', insert n mid lchild rchild index rnode rw = Some (mkInsert n' None)
    /\ snode_wf n' (Control.bump f) (ins sa index mid) /\ sknum n' = sknum n + 1
    /\ forall j, 0 <= j <= sknum n + 1 -> sroute n' j = sins_routes n index lchild rchild j.
Proof.
  intros [Hs Hseps Hc Hw Hv Hin] Hroom Hat Hl Hr Hroute. pose proof (sia_range _ _ _ _ Hat) as Hi.
  pose proof (ss_knum n Hs) as Hk. pose proof (ss_anchors n Hs) as Ha. pose proof (ss_children n Hs) as Hch.
  unfold insert. rewrite (supdate_version_eq n f), !bool_decide_true by done.
  set (n0 := set_control n _). cbn [andb]. change (sknum n0) with (sknum n). change (sanchors n0) with (sanchors n).
  btrue ((0 <=? index) && (index <=? sknum n)). cbn [asserting]. rewrite snode_kNodeSize. btrue (sknum n <? 64).
  destruct (smemmove64_within_spec (sanchors n) index (index + 1) (sknum n - index) false) as (a & -> & Hla & Hga); [lia..|].
  rewrite bind_Some, aset_in_range, bind_Some by lia. set (a' := <[_ := Some mid]> a). cbn [sknum schildren set_anchors].
  change (schildren n0) with (schildren n). change (sknum n0) with (sknum n).
  assert (stores Some (sknum n + 1) a' (ins sa index mid)) as Hst
    by (apply (stores_ins Some (sknum n) (sanchors n)); [by apply sseps_stores|lia|lia|done]).
  pose proof (anchors_ok_ins n sa mid index Hseps Hat) as Hao.
  match goal with |- exists _, mbind _ ?e = _ /\ _ => set (o := e) end.
  assert (exists c nx, o = Some (set_next (set_children (set_anchors n0 a') c) nx) /\ length c = 64%nat
    /\ forall j, 0 <= j <= sknum n + 1 -> routes (sknum n + 1) c nx j = sins_routes n index lchild rchild j) as (c & nx & -> & Hlc & Hrt).
  { unfold o. destruct (Z.eqb_spec index (sknum n)) as [->|Hne]; cbn [negb].
    - rewrite aset_in_range, bind_Some by lia. exists (<[Z.to_nat (sknum n) := lchild]> (schildren n)), rchild.
      split; [done|]. split; [by rewrite length_insert|]. intros j Hj.
      apply (routes_ins_last (sknum n) (schildren n) (snext_ n)); lia.
    - destruct (smemmove64_within_spec (schildren n) (index + 1) (index + 2) (sknum n - index - 1) false)
        as (c & -> & Hlc & Hgc); [lia..|].
      rewrite bind_Some, aset_in_range, bind_Some by lia. exists (<[Z.to_nat (index + 1) := rchild]> c), (snext_ n).
      split; [by destruct n|]. split; [rewrite length_insert; lia|]. intros j Hj.
      apply (routes_ins (sknum n) (schildren n) (snext_ n)); [lia|lia|by apply Hroute|done|done]. }
  rewrite bind_Some. cbn [sknum set_next set_children set_anchors].
  set (n1 := set_knum _ _). change (sknum (set_anchors n0 a')) with (sknum n) in n1.
  assert (sshape n1) as Hs1.
  { destruct Hs. split; cbn; try done; [|lia]. by unfold a'; rewrite length_insert, Hla. }
  assert (sseps_ok n1 (ins sa index mid)) as Hseps1 by (by apply sseps_intro).
  change (sknum n1) with (sknum n + 1).
  assert (exists n', (if (index =? 0) || (index =? sknum n + 1 - 1) then content_rebuild n1 else insert_features n1 index (an_str mid)) = Some n'
    /\ snode_wf n' (Control.bump f) (ins sa index mid) /\ same_links n1 n') as (n' & -> & Hwf & Hsame).
  { destruct (_ || _) eqn:Ee.
    - apply rebuilt; [done|done|cbn; lia|done|by apply Control.bump_valid|done].
    - destruct (insert_middle n sa mid index n1) as (n' & E & H1 & H2 & H3 & H4); try done; [blia|].
      exists n'. split; [done|]. split; [|done]. split; try done; [by destruct H4 as (-> & _)|by apply Control.bump_valid]. }
  rewrite bind_Some. exists n'. split; [done|]. split; [done|]. destruct Hsame as (_ & Hk' & Hn' & _ & Hc').
  split; [by rewrite Hk'|]. intros j Hj. rewrite <- Hrt by done. unfold sroute, routes. by rewrite Hk', Hn', Hc'.
Qed.

(** ** [split] *)

(** what the allocator left in the arrays of a new node *)
Record sraw_ok (rw : raw) : Prop := {
  sra_rows : length (raw_features rw) = 4%nat /\ Forall row_ok (raw_features rw);
  sra_tiny : length (raw_tiny rw) = 224%nat;
  sra_anchors : length (raw_anchors rw) = 64%nat;
  sra_children : length (raw_children rw) = 64%nat;
}.

(** a new node has no separator *)
Lemma sInnerNode_wf rw sa : sraw_ok rw -> snode_wf (InnerNode rw) (Control.inner_fields false) sa.
Proof.
  intros [Hr Ht Ha Hc]. split; try done.
  - split; cbn; [lia|lia|]. intros i j Hij Hj. lia.
  - split; cbn; intros; lia || done.
Qed.

(** the contents are about the separators that the node has *)
Lemma scontent_ext n sa sa' : (forall j, 0 <= j < sknum n -> sa j = sa' j) -> scontent n sa -> scontent n sa'.
Proof.
  intros He [H1 H2 H3 H4 H5]. split; [done| | | |].
  - intros Hk. rewrite <- !He by lia. by apply H2.
  - intros Hk. rewrite <- He by lia. by apply H3.
  - intros Hk. rewrite <- He by lia. by apply H4.
  - intros r j Hr Hj. rewrite <- He by done. by apply H5.
Qed.

Section split.
Context n rn sa (mid : anchor) (index : Z) (lchild rchild : ptr) (ro : Z -> option ptr) (f g : Control.fields)
  (Hwf : snode_wf n f sa) (Hfull : sknum n = 64) (Hat : sinsert_at n sa mid index)
  (Hro : forall j, 0 <= j < 64 -> ro j = aget (schildren n) j) (Hroute : ro index = Some lchild)
  (Hrn : snode_wf rn g sa).

Abbreviation all := (ins sa index mid).
Abbreviation all_routes := (split_routes ro index rchild).

(** the two halves: [c] separators go to the left one *)
Record shalves (n' rn' : snode) (c : Z) : Prop := {
  sh_n : snode_wf n' f all /\ sknum n' = c /\ snext_ n' = snext_ n;
  sh_rn : snode_wf rn' g (fun j => all (c + j)) /\ sknum rn' = 65 - c;
  sh_left j : 0 <= j < c -> aget (schildren n') j = all_routes j;
  sh_right j : 0 <= j < 65 - c -> aget (schildren rn') j = all_routes (c + j);
  sh_next : snext_ rn' = if index =? 64 then rchild else snext_ rn;
}.

Lemma split_arrays :
  length (sanchors n) = 64%nat /\ length (schildren n) = 64%nat /\ length (sanchors rn) = 64%nat /\ length (schildren rn) = 64%nat
  /\ 0 <= index <= 64 /\ stores Some 64 (sanchors n) sa /\ anchors_ok 65 all.
Proof.
  destruct Hwf as [[] Hseps], Hrn as [[] ?]. pose proof (sia_range _ _ _ _ Hat). do 4 (split; [done|]). split; [lia|].
  rewrite <- Hfull. split; [by apply sseps_stores|]. pose proof (anchors_ok_ins n sa mid index Hseps Hat) as H0. by rewrite Hfull in H0.
Qed.

(** a node of the split, its contents rebuilt *)
Lemma half_rebuilt m m1 h k sa' :
  snode_wf m h sa -> stores Some k (sanchors m1) sa' -> anchors_ok k sa' -> sknum m1 = k -> 1 <= k <= 64 ->
  length (sanchors m1) = 64%nat -> length (schildren m1) = 64%nat ->
  scontrol m1 = scontrol m -> sfeatures m1 = sfeatures m -> tiny_ m1 = tiny_ m ->
  exists m', content_rebuild m1 = Some m' /\ snode_wf m' h sa' /\ same_links m1 m'.
Proof.
  intros [Hs _ _ Hw Hv Hl] Hst Hao Hk Hr Ha Hc Ec Ef Et. apply rebuilt; try done; [|apply sseps_intro; by rewrite Hk|lia|congruence].
  destruct Hs. split; try done; [congruence..|lia].
Qed.

#[local] Ltac half_side := try first [done | lia | by cbn; rewrite ?length_insert; lia].
#[local] Ltac half m h k s H Hw Hk Hn Hc := let E := fresh in
  match goal with |- context [mbind _ (content_rebuild ?m1)] =>
    edestruct (half_rebuilt m m1 h k s H) as (? & E & Hw & (_ & Hk & Hn & _ & Hc)); [half_side..|rewrite E, bind_Some; clear E]
  end.

Lemma ssplit_append_spec :
  index = 64 -> exists n' rn', split_append n rn mid lchild rchild = Some (n', rn', 63) /\ shalves n' rn' 64.
Proof.
  intros Ei. destruct split_arrays as (Ha & Hc & Hra & Hrc & _ & Hst & Hao). unfold split_append.
  rewrite aset_in_range, bind_Some by lia. cbn [schildren set_anchors]. rewrite aset_in_range, bind_Some by lia.
  half rn g 1 (fun j => all (64 + j)) Hrn Hw' Hk' Hn' Hc'.
  { intros j Hj. cbn [sanchors set_knum set_next set_children set_anchors]. replace j with 0 by lia.
    rewrite aget_insert by lia. cbn [Z.eqb]. unfold ins. bfalse (64 + 0 <? index). by btrue (64 + 0 =? index). }
  { by apply (anchors_ok_from 65 64). }
  eexists _, _. split; [done|]. destruct Hwf as [Hs Hseps Hcn Hw Hv Hl].
  assert (forall j, 0 <= j < sknum n -> sa j = all j) as He by (intros j Hj; unfold ins; by btrue (j <? index)).
  split; [split; [|done]|done| | |].
  - split; try done; [|by apply (scontent_ext n sa)]. apply sseps_intro; rewrite Hfull.
    + intros j Hj. rewrite <- He by lia. by apply Hst.
    + by apply (anchors_ok_le 65).
  - intros j Hj. apply (split_routes_right_rest 64 64 (schildren n)); [done|lia..].
  - intros j Hj. replace j with 0 by lia. rewrite Hc'. cbn [schildren set_knum set_next set_children set_anchors].
    rewrite aget_insert by lia. cbn [Z.eqb]. rewrite <- Hroute. unfold split_routes, ins. btrue (64 + 0 <? index + 1). f_equal. lia.
  - rewrite Hn'. by btrue (index =? 64).
Qed.

Lemma ssplit_left_spec :
  index < 32 -> exists n' rn', split_left n rn mid rchild index = Some (n', rn', 32) /\ shalves n' rn' 33.
Proof.
  intros Hi. destruct split_arrays as (Ha & Hc & Hra & Hrc & Hidx & Hst & Hao).
  unfold split_left. rewrite snode_kNodeSize. cbn zeta. change (64 / 2) with 32.
  destruct (smemmove64_spec (sanchors n) 32 (sanchors rn) 0 32 true) as (ra & -> & Hlra & Hgra); [lia..|].
  rewrite bind_Some. cbn [schildren set_anchors].
  destruct (smemmove64_spec (schildren n) 32 (schildren rn) 0 32 true) as (rc & -> & Hlrc & Hgrc); [lia..|]. rewrite bind_Some.
  destruct (smemmove64_within_spec (sanchors n) index (index + 1) (32 - index) false) as (a & -> & Hla & Hga); [lia..|]. rewrite bind_Some.
  destruct (smemmove64_within_spec (schildren n) index (index + 1) (32 - index) false) as (c & -> & Hlc & Hgc); [lia..|]. rewrite bind_Some.
  rewrite (aset_in_range a), bind_Some, (aset_in_range c), bind_Some by lia.
  half n f 33 constr:(all) Hwf Hw1 Hk1 Hn1 Hc1.
  { apply (stores_ins Some 32 (sanchors n)); [by apply (stores_le _ 64)|lia|lia|done]. }
  { by apply (anchors_ok_le 65). }
  half rn g 32 (fun j => all (33 + j)) Hrn Hw2 Hk2 Hn2 Hc2.
  { intros j Hj. unfold ins. bfalse (33 + j <? index). bfalse (33 + j =? index).
    etrans; [exact (stores_from Some 64 (sanchors n) sa 32 32 (sanchors rn) ra Hst ltac:(lia) ltac:(lia) Hgra j Hj)|].
    do 3 f_equal. lia. }
  { by apply (anchors_ok_from 65 33). }
  eexists _, _. split; [done|]. split; [done|done| | |].
  - intros j Hj. rewrite Hc1. apply (split_routes_left 64 32 (schildren n)); [done|lia..|done|lia].
  - intros j Hj. rewrite Hc2. apply (split_routes_left_rest 64 32 (schildren n) ro index _ Hro ltac:(lia) _ (schildren rn)); [done|lia|done].
  - rewrite Hn2. by bfalse (index =? 64).
Qed.

Lemma ssplit_right_spec :
  32 <= index < 64 -> exists n' rn', split_right n rn mid rchild index = Some (n', rn', 31) /\ shalves n' rn' 32.
Proof.
  intros Hi. destruct split_arrays as (Ha & Hc & Hra & Hrc & Hidx & Hst & Hao).
  unfold split_right. rewrite snode_kNodeSize. cbn zeta. change (64 / 2) with 32. change (32 - 1) with 31.
  destruct (smemmove64_spec (sanchors n) 32 (sanchors rn) 0 (index - 32) true) as (a1 & -> & Hl1 & Hg1); [lia..|]. rewrite bind_Some.
  destruct (smemmove64_spec (sanchors n) index a1 (index - 32 + 1) (64 - index) true) as (a2 & -> & Hl2 & Hg2); [lia..|]. rewrite bind_Some.
  rewrite aset_in_range, bind_Some by lia.
  destruct (smemmove64_spec (schildren n) 32 (schildren rn) 0 (index - 32 + 1) true) as (c1 & -> & Hlc1 & Hgc1); [lia..|]. rewrite bind_Some.
  destruct (smemmove64_spec (schildren n) (index + 1) c1 (index - 32 + 2) (64 - index - 1) true) as (c2 & -> & Hlc2 & Hgc2); [lia..|].
  rewrite bind_Some, aset_in_range, bind_Some by lia.
  half n f 32 constr:(all) Hwf Hw1 Hk1 Hn1 Hc1.
  { intros j Hj. unfold ins. btrue (j <? index). apply Hst. lia. }
  { by apply (anchors_ok_le 65). }
  half rn g 33 (fun j => all (32 + j)) Hrn Hw2 Hk2 Hn2 Hc2.
  { apply (stores_from_ins Some 64 (sanchors n) sa 32 index mid (sanchors rn) a1 a2); [done|lia|lia|lia|done|done|lia]. }
  { by apply (anchors_ok_from 65 32). }
  eexists _, _. split; [done|]. split; [done|done| | |].
  - intros j Hj. rewrite Hc1. apply (split_routes_right_rest 64 32 (schildren n)); [done|lia..].
  - intros j Hj. rewrite Hc2. cbn [schildren set_knum set_children].
    apply (split_routes_right 64 32 (schildren n) ro index rchild Hro ltac:(lia) (schildren rn) c1); [lia|lia|lia|done|].
    intros i Hi'. rewrite aget_insert, (Z.eqb_sym (index - 32 + 1)) by lia.
    destruct (Z.eqb_spec i (index - 32 + 1)); [done|]. by apply Hgc2.
  - rewrite Hn2. by bfalse (index =? 64).
Qed.

Lemma ssplit_halves :
  exists n' rn' c,
    (if index =? kNodeSize then split_append n rn mid lchild rchild
     else if index <? kNodeSize / 2 then split_left n rn mid rchild index
     else split_right n rn mid rchild index) = Some (n', rn', c - 1)
    /\ shalves n' rn' c /\ c = split_count index.
Proof.
  rewrite snode_kNodeSize. change (64 / 2) with 32. unfold split_count. destruct split_arrays as (_ & _ & _ & _ & Hi & _).
  destruct (Z.eqb_spec index 64) as [E|]; [|destruct (Z.ltb_spec index 32)].
  - destruct (ssplit_append_spec E) as (n' & rn' & -> & Hh). by exists n', rn', 64.
  - destruct ssplit_left_spec as (n' & rn' & -> & Hh); [done|]. by exists n', rn', 33.
  - destruct ssplit_right_spec as (n' & rn' & -> & Hh); [lia|]. by exists n', rn', 32.
Qed.
End split.

(** the node and the new one after a split *)
Record ssplit_done n f sa mid index lchild rchild (rnode : Z) (n' rn' : snode) (c : Z) : Prop := {
  ssd_count : c = split_count index;
  ssd_n : snode_wf n' (Control.with_sibling f true) (ins sa index mid) /\ sknum n' = c;
  ssd_rn : snode_wf rn' (Control.inner_fields (Control.f_sibling f)) (fun j => ins sa index mid (c + j)) /\ sknum rn' = 65 - c;
  ssd_left j : 0 <= j < c -> sroute n' j = sins_routes n index lchild rchild j;
  ssd_next : snext_ n' = Some rnode;
  ssd_right j : 0 <= j <= 65 - c -> sroute rn' j = sins_routes n index lchild rchild (c + j);
}.

(** the two control words of a split: the left node gets the sibling bit, the new one
    the old value of it *)
Lemma ssplit_words n rn f :
  Control.valid f -> scontrol n = Control.encode f -> scontrol rn = 0 ->
  (if negb (Control.has_sibling (scontrol n))
   then let* n := on_control n Control.set_sibling in Some (n, rn)
   else let* rn := on_control rn Control.set_sibling in Some (n, rn))
  = Some (set_control n (Control.encode (Control.with_sibling f true)),
          set_control rn (Control.encode (Control.inner_fields (Control.f_sibling f)))).
Proof.
  intros Hf E E0. rewrite E at 1. destruct (Control.reads_encode f Hf) as (-> & _).
  destruct (Control.f_sibling f) eqn:Es; cbn [negb].
  - pose proof (srun_control rn (Control.inner_fields false) Control.OpSetSibling (Control.inner_fields true)) as H.
    cbn [Control.run] in H. rewrite H, bind_Some by done. do 2 f_equal. destruct n, f. cbn in *. by subst.
  - pose proof (srun_control n f Control.OpSetSibling (Control.with_sibling f true)) as H.
    cbn [Control.run] in H. rewrite H, bind_Some by (try done; cbn; by rewrite Es). do 2 f_equal. destruct rn. cbn in *. by subst.
Qed.

Lemma sinsert_split n f sa lchild rchild mid index rnode rw :
  snode_wf n f sa -> sknum n = 64 -> sinsert_at n sa mid index -> sraw_ok rw ->
  is_Some lchild -> is_Some rchild -> sleft_child n index lchild ->
  exists n' rn' c, insert n mid lchild rchild index rnode rw = Some (mkInsert n' (Some (rn', ins sa index mid (c - 1))))
    /\ ssplit_done n (Control.bump f) sa mid index lchild rchild rnode n' rn' c.
Proof.
  intros Hwf Hfull Hat Hraw Hl Hr Hroute. pose proof Hwf as [Hs Hseps Hc Hw Hv Hin]. unfold insert.
  rewrite (supdate_version_eq n f), !bool_decide_true by done.
  set (n0 := set_control n _). cbn [andb]. change (sknum n0) with (sknum n).
  pose proof (sia_range _ _ _ _ Hat) as Hidx. rewrite Hfull in *.
  btrue ((0 <=? index) && (index <=? 64)). cbn [asserting]. rewrite snode_kNodeSize. cbn [Z.ltb Z.compare Pos.compare Pos.compare_cont].
  unfold split.
  rewrite (ssplit_words (set_next n0 (Some rnode)) (set_next (InnerNode rw) (snext_ n0)) (Control.bump f)), bind_Some
    by (done || by apply Control.bump_valid).
  set (n1 := set_control (set_next n0 _) _). set (rn1 := set_control (set_next _ _) _).
  assert (snode_wf n1 (Control.with_sibling (Control.bump f) true) sa) as Hwf1.
  { apply (snode_wf_words _ (Control.bump f)); [|done|by apply Control.bump_valid|done]. destruct Hs, Hseps, Hc. split; try done; [by split..|by apply Control.bump_valid]. }
  assert (snode_wf rn1 (Control.inner_fields (Control.f_sibling f)) sa) as Hwf2.
  { apply (snode_wf_words _ (Control.inner_fields false)); [|done|done|done]. destruct (sInnerNode_wf rw sa Hraw) as [[] [] []]. split; try done; by split. }
  destruct (ssplit_halves n1 rn1 sa mid index lchild rchild (upd (sroute n) index (Some lchild))
    (Control.with_sibling (Control.bump f) true) (Control.inner_fields (Control.f_sibling f)) Hwf1)
    as (n' & rn' & c & E & [(Hn & Hk1 & Hn1) (Hrn & Hk2) Hl' Hr' Hn2] & Hcount); try done.
  - destruct Hat. by split.
  - intros j Hj. unfold upd. destruct (Z.eqb_spec j index) as [->|].
    + rewrite <- Hroute by lia. apply routes_child. lia.
    + apply routes_child. lia.
  - unfold upd. by rewrite Z.eqb_refl.
  - pose proof (split_count_range index Hidx) as Hcr. rewrite E, bind_Some. unfold anchor_at.
    rewrite (sp_at n' _ (sw_seps _ _ _ Hn) (c - 1)), !bind_Some by lia.
    exists n', rn', c. split; [done|]. split; [done|done|done| |by rewrite Hn1|].
    + intros j Hj. etrans; [apply routes_child; lia|]. by apply Hl'.
    + intros j Hj. unfold sroute at 1. rewrite Hk2. destruct (Z.eqb_spec j (65 - c)) as [->|].
      * rewrite Hn2. unfold sins_routes, ins, upd, sroute. rewrite Hfull. cbn [snext_ rn1 set_control set_next].
        replace (c + (65 - c)) with 65 by lia. bfalse (65 <? index + 1).
        destruct (Z.eqb_spec index 64) as [->|]; [done|]. bfalse (65 =? index + 1). by bfalse (65 - 1 =? index).
      * apply Hr'. lia.
Qed.

(** ** [remove] of a separator that is not the last one *)

Lemma remove_features_spec n index :
  srows_ok (sfeatures n) -> 0 <= index < sknum n - 1 -> sknum n <= 64 ->
  exists fs, remove_features n index = Some (set_features n fs)
    /\ holds KU32 fs (fun r j => if (index <=? j) && (j <? sknum n - 1) then cell (sfeatures n) r (j + 1) else cell (sfeatures n) r j).
Proof.
  intros Hf Hi Hk. unfold remove_features. change kFeatureSize with 4. apply srows_loop; [done|].
  intros rid fs Hrid Hf1 Hrow. cbn [sknum set_features].
  destruct (smove_in_row_spec (set_features n fs) rid index (index + 1) (sknum n - index - 1)) as (fs1 & -> & Hf2 & Hc2);
    [done|lia..|].
  exists fs1. split; [done|]. split; [done|]. intros r j Hr Hj. rewrite Hc2 by done. cbn [sfeatures set_features].
  destruct (Z.eqb_spec r rid) as [->|]; cbn [andb]; [|done].
  replace ((index <=? j) && (j <? index + (sknum n - index - 1))) with ((index <=? j) && (j <? sknum n - 1))
    by (apply eq_true_iff_eq; blia).
  destruct ((index <=? j) && (j <? sknum n - 1)) eqn:Eb; [|by apply Hrow].
  rewrite Hrow by blia. f_equal. lia.
Qed.

(** a separator that is neither the first nor the last leaves the prefix as it is: [n1]
    is the node without the features of it *)
Lemma remove_middle n sa index fs n1 :
  scontent n sa -> 0 < index < sknum n - 1 -> sknum n <= 64 ->
  holds KU32 fs (fun r j => if (index <=? j) && (j <? sknum n - 1) then cell (sfeatures n) r (j + 1) else cell (sfeatures n) r j) ->
  sknum n1 = sknum n - 1 -> splen n1 = splen n -> huge_ n1 = huge_ n -> tiny_ n1 = tiny_ n -> sfeatures n1 = fs ->
  scontent n1 (del sa index).
Proof.
  intros Hc Hi H64 [Hf Hcell] Hk Ep Eh Et Ef.
  assert (del sa index 0 = sa 0) as E0 by (unfold del; by btrue (0 <? index)).
  assert (del sa index (sknum n - 1 - 1) = sa (sknum n - 1)) as El.
  { unfold del. bfalse (sknum n - 1 - 1 <? index). f_equal. lia. }
  split; rewrite ?Hk, ?Ep, ?Eh, ?Et, ?E0, ?El; [lia| | | |].
  - intros _. apply (sc_longest n sa Hc). lia.
  - intros _. apply (sc_huge n sa Hc). lia.
  - intros _. apply (sc_tiny n sa Hc). lia.
  - intros r j Hr Hj. unfold feat. rewrite Ef. fold (cell fs r j). rewrite Hcell by (done || lia).
    pose proof (sc_feat n sa Hc r) as Hfeat. unfold feat in Hfeat. fold (cell (sfeatures n)) in Hfeat.
    unfold del. destruct (Z.ltb_spec j index).
    + bfalse ((index <=? j) && (j <? sknum n - 1)). apply Hfeat; lia.
    + btrue ((index <=? j) && (j <? sknum n - 1)). apply Hfeat; lia.
Qed.

(** the code of [remove] up to the merge *)
Lemma sremove_inner mem this n f sa mid index :
  snode_wf n f sa -> 0 <= index < sknum n - 1 ->
  exists n1, remove mem this n mid index = merge mem this n1 mid
    /\ snode_wf n1 (Control.bump f) (del sa index) /\ sknum n1 = sknum n - 1 /\ snext_ n1 = snext_ n
    /\ forall j, 0 <= j <= sknum n1 -> sroute n1 j = del (sroute n) (index + 1) j.
Proof.
  intros [Hs Hseps Hc Hw Hv Hin] Hi. pose proof (ss_knum n Hs) as Hk. pose proof (ss_anchors n Hs) as Ha.
  pose proof (ss_children n Hs) as Hch. unfold remove. btrue ((0 <=? index) && (index <? sknum n)). cbn [asserting].
  rewrite (supdate_version_eq n f) by done. set (n0 := set_control n _). cbn zeta.
  change (sknum n0) with (sknum n). change (sanchors n0) with (sanchors n). btrue (index <? sknum n - 1).
  destruct (smemmove64_within_spec (sanchors n) (index + 1) index (sknum n - index - 1) true) as (a & -> & Hla & Hga); [lia..|].
  rewrite bind_Some.
  assert (exists fs, (if negb (index =? 0) then remove_features (set_anchors n0 a) index else Some (set_anchors n0 a))
            = Some (set_features (set_anchors n0 a) fs) /\ srows_ok fs
          /\ (0 < index -> holds KU32 fs (fun r j => if (index <=? j) && (j <? sknum n - 1) then cell (sfeatures n) r (j + 1) else cell (sfeatures n) r j)))
    as (fs & -> & Hf & Hcell).
  { destruct (Z.eqb_spec index 0) as [->|]; cbn [negb].
    - exists (sfeatures n). split; [by destruct n|]. split; [by apply snode_rows|lia].
    - destruct (remove_features_spec (set_anchors n0 a) index) as (fs & -> & Hh); [by apply (snode_rows n)|done|exact (proj2 Hk)|].
      exists fs. split; [done|]. split; [apply Hh|]. intros _. exact Hh. }
  rewrite bind_Some. cbn [schildren sknum set_features set_anchors].
  change (schildren n0) with (schildren n). change (sknum n0) with (sknum n).
  destruct (smemmove64_within_spec (schildren n) (index + 2) (index + 1) (sknum n - index - 2) true) as (c & -> & Hlc & Hgc); [lia..|].
  rewrite bind_Some. set (n1 := set_knum _ _).
  assert (sshape n1) as Hs1.
  { destruct Hs. split; cbn; [|done|congruence|congruence|lia]. destruct Hf as [Hl Hr]. split; [|done].
    change (Inner.kFeatureSize KU32) with 4 in Hl. lia. }
  assert (sseps_ok n1 (del sa index)) as Hseps1.
  { apply sseps_intro.
    - apply (stores_del Some (sknum n) (sanchors n)); [by apply sseps_stores|lia|done].
    - apply (anchors_ok_del (sknum n)); [by apply anchors_ok_of|lia]. }
  assert (exists n', (if index =? 0 then content_rebuild n1 else Some n1) = Some n'
    /\ snode_wf n' (Control.bump f) (del sa index) /\ same_links n1 n') as (n' & -> & Hwf & (_ & Hk' & Hn' & _ & Hc')).
  { destruct (Z.eqb_spec index 0) as [->|].
    - apply rebuilt; [done|done|cbn; lia|done|by apply Control.bump_valid|done].
    - exists n1. split; [done|]. split; [|done]. split; try done; [|by apply Control.bump_valid].
      apply (remove_middle n sa index fs); [done|lia|lia|apply Hcell; lia|done..]. }
  rewrite bind_Some. exists n'. split; [done|]. split; [done|]. split; [by rewrite Hk'|]. split; [by rewrite Hn'|].
  rewrite Hk'. intros j Hj. unfold sroute at 1. rewrite Hk', Hn', Hc'.
  by apply (routes_del (sknum n) (schildren n) (snext_ n)).
Qed.

(** ** Merging *)

Lemma slatch_exclusive_eq n f :
  Control.valid f -> scontrol n = Control.encode f -> Control.f_locked f = false ->
  latch_exclusive n = Some (set_control n (Control.encode (Control.with_locked f true))).
Proof.
  intros Hf E Hl. unfold latch_exclusive, on_control. by rewrite E, Control.latch_exclusive_encode by done.
Qed.

Lemma sclear_sibling_eq n f b :
  Control.valid f -> scontrol n = Control.encode f -> Control.f_sibling f = true ->
  (if negb b then on_control n Control.clear_sibling else Some n)
    = Some (set_control n (Control.encode (Control.with_sibling f b))).
Proof.
  intros Hf E Hs. destruct b; cbn [negb].
  - f_equal. destruct n, f. cbn in *. by subst.
  - apply (srun_control n f Control.OpClearSibling); [done|done|]. cbn. by rewrite Hs.
Qed.

Lemma srelease_eq n g :
  Control.valid g -> scontrol n = Control.encode (Control.with_locked g true) -> Control.f_locked g = false ->
  on_control n Control.unlatch_exclusive = Some (set_control n (Control.encode g)).
Proof.
  intros Hg E Hl. apply (srun_control n (Control.with_locked g true) Control.OpUnlatch g); [done|done|].
  cbn. f_equal. by destruct g; cbn in *; subst.
Qed.

(** the last steps on a node that is merged away: marked deleted, a new version, released *)
Lemma sdelete_eq n g :
  Control.valid g -> Control.f_deleted g = false -> scontrol n = Control.encode (Control.with_locked g true) ->
  on_control n Control.set_delete = Some (set_control n (Control.encode (Control.with_locked (Control.with_deleted g true) true))).
Proof.
  intros Hg Hdel E. apply (srun_control n (Control.with_locked g true) Control.OpSetDelete); [done|done|].
  cbn. by rewrite Hdel.
Qed.

(** the sibling of a node: well formed, alive, to its right *)
Record sright_sibling (mem : Z -> option snode) n (k : Z) sa (ra : Z) rn g (rsa : Z -> anchor) : Prop := {
  srs_next : snext_ n = Some ra;
  srs_mem : mem ra = Some rn;
  srs_wf : snode_wf rn g rsa;
  srs_locked : Control.f_locked g = false;
  srs_deleted : Control.f_deleted g = false;
  srs_above i j : 0 <= i < k -> 0 <= j < sknum rn -> anchor_lt (sa i) (rsa j);
}.

(** a node that was merged away: empty, marked deleted, pointing back *)
Definition smerged_away (rn' : snode) (g : Control.fields) (this : Z) : Prop :=
  scontrol rn' = Control.encode (Control.merged_fields g) /\ sknum rn' = 0 /\ snext_ rn' = Some this.

(** a reader that gets there goes back *)
Lemma smerged_away_to_next rn' g this key :
  Control.valid g -> Control.f_locked g = false -> smerged_away rn' g this ->
  to_next rn' key = Some (true, Some this, Control.load_version (scontrol rn')).
Proof.
  intros Hg Hl (Hc & _ & Hn).
  assert (Control.valid (Control.merged_fields g)) as Hv by (by apply (Control.bump_valid (Control.with_deleted g true))).
  unfold to_next. rewrite Hc, Control.begin_read_encode, bind_Some by done.
  destruct (Control.reads_encode _ Hv) as (_ & -> & _). cbn [Control.f_deleted Control.merged_fields Control.bump Control.with_version Control.with_deleted].
  rewrite Hn. by rewrite bool_decide_true by eauto.
Qed.

Definition smerge_fits n rn : bool := (sknum n + sknum rn <=? kMergeSize) || (sknum rn =? 0).

Lemma smerge_alone mem this n f mid :
  Control.valid f -> scontrol n = Control.encode f -> Control.f_sibling f = false ->
  merge mem this n mid = Some (mkRemove n None false false mid).
Proof. intros Hf E Hs. unfold merge. rewrite E. destruct (Control.reads_encode f Hf) as (-> & _). by rewrite Hs. Qed.

Lemma smerge_not mem this n f mid ra rn :
  Control.valid f -> scontrol n = Control.encode f -> Control.f_sibling f = true ->
  snext_ n = Some ra -> mem ra = Some rn -> 1 <= sknum n -> smerge_fits n rn = false ->
  merge mem this n mid = Some (mkRemove n None false false mid).
Proof.
  intros Hf E Hs Hra Hrn Hk Hm. unfold merge. rewrite E. destruct (Control.reads_encode f Hf) as (-> & _).
  rewrite Hs, Hra, bind_Some, Hrn, bind_Some. btrue (1 <=? sknum n). cbn [asserting].
  unfold smerge_fits in Hm. by rewrite Hm.
Qed.

(** [k] separators of a node and those of its sibling, the contents rebuilt: [m] is the
    node with the two arrays *)
Lemma joined n f sa rn g rsa k m :
  snode_wf n f sa -> snode_wf rn g rsa -> 0 <= k <= sknum n ->
  (forall i j, 0 <= i < k -> 0 <= j < sknum rn -> anchor_lt (sa i) (rsa j)) ->
  0 < k + sknum rn <= 64 -> sknum m = k + sknum rn -> scontrol m = scontrol n ->
  (forall j, 0 <= j -> aget (sanchors m) j = moved (sanchors n) (sanchors rn) 0 k (sknum rn) j) ->
  length (sanchors m) = length (sanchors n) -> length (schildren m) = length (schildren n) ->
  sfeatures m = sfeatures n -> tiny_ m = tiny_ n ->
  exists m', content_rebuild m = Some m' /\ snode_wf m' f (join sa k rsa) /\ same_links m m'.
Proof.
  intros [Hs Hseps Hc Hw Hv Hin] [Rs Rseps _ _ _ _] Hk Hab Hle Ek Ec Ha La Lc Ef Et.
  apply rebuilt; [| |lia|congruence|done..].
  - destruct Hs. split; [congruence..|]. lia.
  - apply sseps_intro; rewrite Ek.
    + apply (stores_join Some k (sanchors n) sa (sknum rn) (sanchors rn)); [|by apply sseps_stores|lia|done].
      by apply (stores_le _ (sknum n)); [apply sseps_stores|lia].
    + apply anchors_ok_join; [|by apply anchors_ok_of|lia|done].
      by apply (anchors_ok_le (sknum n)); [apply anchors_ok_of|lia].
Qed.

Lemma smerge_yes mem this n f sa mid ra rn g rsa :
  snode_wf n f sa -> 1 <= sknum n -> Control.f_sibling f = true ->
  sright_sibling mem n (sknum n) sa ra rn g rsa -> smerge_fits n rn = true ->
  exists n' rn', merge mem this n mid = Some (mkRemove n' (Some (ra, rn')) true false (sa (sknum n - 1)))
    /\ snode_wf n' (Control.with_sibling f (Control.f_sibling g)) (join sa (sknum n) rsa)
    /\ sknum n' = sknum n + sknum rn
    /\ (forall j, 0 <= j <= sknum n' -> sroute n' j = join (sroute n) (sknum n) (sroute rn) j)
    /\ smerged_away rn' g this.
Proof.
  intros Hwf Hk1 Hsib [Hra Hmem Rwf Hlk Hdel Habove] Hm.
  pose proof Hwf as [Hs Hseps Hc Hw Hv Hin]. pose proof Rwf as [Rs Rseps Rc Rw Rv Rin].
  pose proof (ss_knum n Hs) as Hk. pose proof (ss_knum rn Rs) as Rk.
  pose proof (ss_anchors n Hs) as Ha. pose proof (ss_anchors rn Rs) as Ra.
  pose proof (ss_children n Hs) as Hch. pose proof (ss_children rn Rs) as Rch.
  assert (sknum n + sknum rn <= 64) as Hle.
  { unfold smerge_fits in Hm. change kMergeSize with 32 in Hm. clear - Hm Hk Rk. blia. }
  unfold merge. rewrite Hw. destruct (Control.reads_encode f Hv) as (-> & _).
  rewrite Hsib, Hra, bind_Some, Hmem, bind_Some. btrue (1 <=? sknum n). cbn [asserting].
  fold (smerge_fits n rn). rewrite Hm, (slatch_exclusive_eq rn g), bind_Some by done.
  set (rn1 := set_control rn _). change (sknum rn1) with (sknum rn). cbn zeta. fold (smerge_fits n rn). rewrite Hm.
  unfold anchor_at. rewrite (sp_at n sa Hseps (sknum n - 1)), !bind_Some by lia.
  change (sanchors rn1) with (sanchors rn). change (schildren rn1) with (schildren rn).
  destruct (smemmove64_spec (sanchors rn) 0 (sanchors n) (sknum n) (sknum rn) true) as (a & -> & Hla & Hga); [lia..|]. rewrite bind_Some.
  destruct (smemmove64_spec (schildren rn) 0 (schildren n) (sknum n) (sknum rn) true) as (c & -> & Hlc & Hgc); [lia..|]. rewrite bind_Some.
  match goal with |- context [content_rebuild ?m] =>
    destruct (joined n f sa rn g rsa (sknum n) m) as (n1 & -> & [Hs1 Hseps1 Hc1 Hw1 Hv1 Hl1] & (_ & Hk' & _ & _ & Hc'));
    [done|done|lia|done|lia|done..|]
  end.
  rewrite bind_Some. cbn [scontrol snext_ set_knum set_next rn1 set_control].
  destruct (Control.reads_encode (Control.with_locked g true) Rv) as (-> & _).
  change (Control.f_sibling (Control.with_locked g true)) with (Control.f_sibling g).
  rewrite (sclear_sibling_eq _ f), bind_Some by done. rewrite (sdelete_eq _ g), !bind_Some by done.
  rewrite (supdate_version_eq _ (Control.with_locked (Control.with_deleted g true) true)) by done.
  rewrite (srelease_eq _ (Control.merged_fields g)), bind_Some; [|by apply (Control.bump_valid (Control.with_deleted g true))|done|done].
  eexists _, _. split; [done|]. split; [|split; [done|split; [|done]]].
  - split; try done; [destruct Hs1; by split|destruct Hseps1; by split|destruct Hc1; by split].
  - cbn [sknum set_control set_next]. rewrite Hk'. intros j Hj. unfold sroute at 1.
    cbn [sknum schildren snext_ set_control set_next]. rewrite Hk', Hc'.
    apply (routes_join (sknum n) (schildren n) (snext_ n)); [lia|done|done].
Qed.

(** ** [remove] of the last separator *)

(** fewer separators, the contents rebuilt *)
Lemma fewer n f sa k nx :
  snode_wf n f sa -> 0 < k <= sknum n ->
  exists n', content_rebuild (set_knum (set_next n nx) k) = Some n' /\ snode_wf n' f sa /\ same_links (set_knum (set_next n nx) k) n'.
Proof.
  intros [Hs Hseps Hc Hw Hv Hin] Hk. pose proof (ss_knum n Hs) as Hk64. apply rebuilt; [| |cbn; lia|done..].
  - destruct Hs. split; cbn; try done. lia.
  - destruct Hseps as [H1 H2 H3]. split; cbn [sknum sanchors set_knum set_next].
    + intros j Hj. apply H1. lia.
    + intros j Hj. apply H2. lia.
    + by apply (increasing_le (sknum n)); [|lia].
Qed.

Lemma sbound_remove_alone mem this n f sa mid index :
  snode_wf n f sa -> Control.f_sibling f = false -> 0 <= index -> index = sknum n - 1 ->
  exists n', bound_remove mem this n mid index = Some (mkRemove n' None false false mid)
    /\ snode_wf n' f sa /\ sknum n' = index /\ forall j, 0 <= j <= index -> sroute n' j = sroute n j.
Proof.
  intros Hwf Hsib Hi Ei. pose proof Hwf as [Hs Hseps Hc Hw Hv Hin]. pose proof (ss_knum n Hs) as Hk.
  pose proof (ss_children n Hs) as Hcl. unfold bound_remove. rewrite Hw.
  destruct (Control.reads_encode f Hv) as (-> & _). rewrite Hsib. cbn [negb].
  destruct (aget_in_range (schildren n) index) as [c Ec]; [lia|]. rewrite Ec, bind_Some.
  cbn [sknum set_next]. rewrite <- Ei. cbn zeta. set (n1 := set_knum (set_next n c) index). change (sknum n1) with index.
  assert (forall n', sknum n' = index -> snext_ n' = c -> schildren n' = schildren n ->
    forall j, 0 <= j <= index -> sroute n' j = sroute n j) as Hroutes.
  { intros n' Hk' Hn' Hc' j Hj. unfold sroute. rewrite Hk', Hn', Hc'. bfalse (j =? sknum n).
    by destruct (Z.eqb_spec j index) as [->|]. }
  destruct (Z.eqb_spec index 0) as [E0|Hne].
  - rewrite bind_Some. eexists. split; [done|]. split; [|split; [done|by apply Hroutes]]. split; try done.
    + destruct Hs. split; cbn; try done. lia.
    + split; cbn [sknum set_plen n1 set_knum set_next]; [intros; lia..|]. intros i j Hij Hj. lia.
    + split; cbn [sknum splen set_plen n1 set_knum set_next]; intros; done || lia.
  - destruct (fewer n f sa index c Hwf) as (n' & E & Hwf' & (_ & Hk' & Hn' & _ & Hc')); [lia|].
    fold n1 in E. rewrite E, bind_Some. exists n'. split; [done|]. split; [done|]. split; [done|by apply Hroutes].
Qed.

(** whether the sibling is merged when the last separator goes *)
Definition sbound_merges (index : Z) rn : bool :=
  (index + sknum rn <=? kMergeSize) || (index =? 0) || (sknum rn =? 0) || (sknum rn =? 1).

Lemma sbound_remove_apart mem this n f sa mid index ra rn g rsa :
  snode_wf n f sa -> Control.f_sibling f = true -> 0 <= index -> index = sknum n - 1 ->
  sright_sibling mem n index sa ra rn g rsa -> sbound_merges index rn = false ->
  exists n' rn', bound_remove mem this n mid index = Some (mkRemove n' (Some (ra, rn')) false true (sa (index - 1)))
    /\ snode_wf n' f sa /\ sknum n' = index /\ snext_ n' = snext_ n
    /\ (forall j, 0 <= j < index -> sroute n' j = sroute n j)
    /\ snode_wf rn' (Control.bump g) rsa /\ sknum rn' = sknum rn
    /\ forall j, 0 <= j <= sknum rn -> sroute rn' j = upd (sroute rn) 0 (sroute n index) j.
Proof.
  intros Hwf Hsib Hi Ei [Hra Hmem Rwf Hlk Hdel _] Hm.
  pose proof Hwf as [Hs Hseps Hc Hw Hv Hin]. pose proof Rwf as [Rs Rseps Rc Rw Rv Rin].
  pose proof (ss_knum n Hs) as Hk. pose proof (ss_knum rn Rs) as Rk.
  pose proof (ss_children n Hs) as Hcl. pose proof (ss_children rn Rs) as Rcl.
  unfold bound_remove. rewrite Hw. destruct (Control.reads_encode f Hv) as (-> & _).
  rewrite Hsib, Hra, bind_Some, Hmem, bind_Some. cbn [negb].
  rewrite (slatch_exclusive_eq rn g), bind_Some by done.
  rewrite (supdate_version_eq _ (Control.with_locked g true)) by done.
  set (rn1 := set_control _ _). change (sknum rn1) with (sknum rn). cbn zeta.
  fold (sbound_merges index rn). rewrite Hm. unfold sbound_merges in Hm.
  unfold anchor_at. rewrite (sp_at n sa Hseps (index - 1)), !bind_Some by blia.
  destruct (aget_in_range (schildren n) index) as [x Ex]; [lia|]. rewrite Ex, bind_Some.
  change (schildren rn1) with (schildren rn). rewrite aset_in_range, bind_Some by lia. rewrite <- Ei.
  destruct (fewer n f sa index (snext_ n) Hwf) as (n' & E & Hwf' & (_ & Hk' & Hn' & _ & Hc')); [blia|].
  assert (set_knum (set_next n (snext_ n)) index = set_knum n index) as En by done. rewrite En in E. rewrite E, !bind_Some. clear E En.
  rewrite (srelease_eq _ (Control.bump g)), bind_Some by (try done; by apply Control.bump_valid).
  eexists _, _. split; [done|]. split; [done|]. split; [exact Hk'|]. split; [by rewrite Hn'|]. split; [|split; [|split; [done|]]].
  - intros j Hj. unfold sroute. rewrite Hk', Hc'. cbn [sknum schildren set_knum set_next]. bfalse (j =? sknum n). by bfalse (j =? index).
  - split; try done; [|by destruct Rseps|by destruct Rc|by apply Control.bump_valid].
    destruct Rs. split; cbn; try done. by rewrite length_insert.
  - intros j Hj. unfold sroute, upd. cbn [sknum schildren snext_ set_control set_children].
    change (sknum rn1) with (sknum rn). change (snext_ rn1) with (snext_ rn).
    bfalse (index =? sknum n). rewrite Ex. destruct (Z.eqb_spec j 0) as [->|].
    + bfalse (0 =? sknum rn). by rewrite aget_insert by lia.
    + destruct (Z.eqb_spec j (sknum rn)); [done|]. rewrite aget_insert by lia. by bfalse (0 =? j).
Qed.

Lemma sbound_remove_merge mem this n f sa mid index ra rn g rsa :
  snode_wf n f sa -> Control.f_sibling f = true -> 0 <= index -> index = sknum n - 1 ->
  sright_sibling mem n index sa ra rn g rsa -> sbound_merges index rn = true -> 1 <= index + sknum rn ->
  exists n' rn', bound_remove mem this n mid index = Some (mkRemove n' (Some (ra, rn')) true false mid)
    /\ snode_wf n' (Control.with_sibling f (Control.f_sibling g)) (join sa index rsa)
    /\ sknum n' = index + sknum rn
    /\ (forall j, 0 <= j <= sknum n' -> sroute n' j = join (sroute n) (index + 1) (fun i => sroute rn (i + 1)) j)
    /\ smerged_away rn' g this.
Proof.
  intros Hwf Hsib Hi Ei [Hra Hmem Rwf Hlk Hdel Habove] Hm Hpos.
  pose proof Hwf as [Hs Hseps Hc Hw Hv Hin]. pose proof Rwf as [Rs Rseps Rc Rw Rv Rin].
  pose proof (ss_knum n Hs) as Hk. pose proof (ss_knum rn Rs) as Rk.
  pose proof (ss_anchors n Hs) as Ha. pose proof (ss_anchors rn Rs) as Ra.
  pose proof (ss_children n Hs) as Hch. pose proof (ss_children rn Rs) as Rch.
  assert (index + sknum rn <= 64) as Hle.
  { unfold sbound_merges in Hm. change kMergeSize with 32 in Hm. clear - Hm Hk Rk Ei. blia. }
  unfold bound_remove. rewrite Hw. destruct (Control.reads_encode f Hv) as (-> & _).
  rewrite Hsib, Hra, bind_Some, Hmem, bind_Some. cbn [negb].
  rewrite (slatch_exclusive_eq rn g), bind_Some by done.
  rewrite (supdate_version_eq _ (Control.with_locked g true)) by done.
  set (rn1 := set_control _ _). change (sknum rn1) with (sknum rn). cbn zeta.
  fold (sbound_merges index rn). rewrite Hm. change (sanchors rn1) with (sanchors rn). change (schildren rn1) with (schildren rn).
  destruct (smemmove64_spec (sanchors rn) 0 (sanchors n) index (sknum rn) true) as (a & -> & Hla & Hga); [lia..|]. rewrite bind_Some.
  destruct (smemmove64_spec (schildren rn) 1 (schildren n) (sknum n) (if sknum rn =? 0 then 0 else sknum rn - 1) true)
    as (c & -> & Hlc & Hgc); [destruct (Z.eqb_spec (sknum rn) 0); lia..|]. rewrite bind_Some.
  match goal with |- context [content_rebuild ?m] =>
    destruct (joined n f sa rn g rsa index m) as (n1 & -> & [Hs1 Hseps1 Hc1 Hw1 Hv1 Hl1] & (_ & Hk' & _ & _ & Hc'));
    [done|done|lia|done|lia|cbn; lia|done..|]
  end.
  rewrite bind_Some. cbn [sknum schildren set_knum set_children set_anchors] in Hk', Hc'.
  destruct (aget_in_range (schildren n) index) as [x Ex]; [lia|].
  set (nx := if sknum rn =? 0 then x else snext_ rn).
  assert ((if negb (sknum rn =? 0) then Some (set_next n1 (snext_ (set_knum rn1 0)))
           else let* c := aget (schildren n1) index in Some (set_next n1 c)) = Some (set_next n1 nx)) as ->.
  { unfold nx. destruct (Z.eqb_spec (sknum rn) 0); cbn [negb]; [|done].
    rewrite Hc', Hgc by lia. unfold moved. bfalse ((sknum n <=? index) && (index <? sknum n + 0)). by rewrite Ex. }
  rewrite bind_Some. cbn [scontrol snext_ set_knum set_next].
  assert (Control.has_sibling (scontrol rn1) = Control.f_sibling g) as ->.
  { apply (Control.reads_encode (Control.bump (Control.with_locked g true))). by apply Control.bump_valid. }
  rewrite (sclear_sibling_eq _ f), bind_Some by done.
  pose proof (srun_control (set_next (set_knum rn1 0) (Some this)) (Control.bump (Control.with_locked g true)) Control.OpSetDelete
      (Control.with_locked (Control.merged_fields g) true)) as Hd.
  cbn [Control.run] in Hd. rewrite Hd, !bind_Some; [|by apply (Control.bump_valid (Control.with_locked g true))|done|].
  2:{ cbn. rewrite Hdel. done. }
  rewrite (srelease_eq _ (Control.merged_fields g)), bind_Some; [|by apply (Control.bump_valid (Control.with_deleted g true))|done|done].
  eexists _, _. split; [done|]. split; [|split; [cbn; lia|split; [|done]]].
  - split; try done; [destruct Hs1; by split|destruct Hseps1; by split|destruct Hc1; by split].
  - cbn [sknum set_control set_next]. rewrite Hk'. intros j Hj. unfold sroute at 1.
    cbn [sknum schildren snext_ set_control set_next]. rewrite Hk', Hc'. subst index.
    replace (sknum n + (sknum rn - 1)) with (sknum n - 1 + sknum rn) in * by lia.
    apply (routes_bound_join (sknum n) (schildren n) (snext_ n) (sknum rn) (schildren rn) (snext_ rn)); [lia|lia|done|done|done].
Qed.

(** with no separator left at all, [content_rebuild] reads the one before the first *)
Lemma sbound_remove_nothing mem this n f sa mid ra rn g rsa :
  snode_wf n f sa -> Control.f_sibling f = true -> sknum n = 1 ->
  sright_sibling mem n 0 sa ra rn g rsa -> sknum rn = 0 -> bound_remove mem this n mid 0 = None.
Proof.
  intros Hwf Hsib Hk [Hra Hmem Rwf Hlk Hdel _] Rk.
  pose proof Hwf as [Hs Hseps Hc Hw Hv Hin]. pose proof Rwf as [Rs Rseps Rc Rw Rv Rin].
  pose proof (ss_anchors n Hs) as Ha. pose proof (ss_anchors rn Rs) as Ra.
  pose proof (ss_children n Hs) as Hch. pose proof (ss_children rn Rs) as Rch.
  unfold bound_remove. rewrite Hw. destruct (Control.reads_encode f Hv) as (-> & _).
  rewrite Hsib, Hra, bind_Some, Hmem, bind_Some. cbn [negb].
  rewrite (slatch_exclusive_eq rn g), bind_Some by done.
  rewrite (supdate_version_eq _ (Control.with_locked g true)) by done.
  set (rn1 := set_control _ _). change (sknum rn1) with (sknum rn). cbn zeta. rewrite Rk.
  change ((0 + 0 <=? kMergeSize) || (0 =? 0) || (0 =? 0) || (0 =? 1)) with true.
  change (sanchors rn1) with (sanchors rn). change (schildren rn1) with (schildren rn).
  destruct (smemmove64_spec (sanchors rn) 0 (sanchors n) 0 0 true) as (a & -> & _); [lia..|]. rewrite bind_Some.
  destruct (smemmove64_spec (schildren rn) 1 (schildren n) (sknum n) (if 0 =? 0 then 0 else 0 - 1) true)
    as (c & -> & _); [cbn; lia..|]. rewrite bind_Some.
  unfold content_rebuild, anchor_at. cbn [sanchors sknum set_knum set_children set_anchors]. rewrite Hk.
  destruct (aget a 0) as [[x|]|]; [|done..]. done.
Qed.

(** ** [anchor_update] and [root_remove] *)

Lemma update_middle n sa mid index n1 :
  sshape n -> scontent n sa -> sshape n1 -> sseps_ok n1 (upd sa index mid) ->
  0 < index < sknum n - 1 -> sknum n1 = sknum n ->
  splen n1 = splen n -> huge_ n1 = huge_ n -> tiny_ n1 = tiny_ n -> sfeatures n1 = sfeatures n ->
  exists n', put_features n1 index (an_str mid) = Some n' /\ sshape n' /\ sseps_ok n' (upd sa index mid)
    /\ scontent n' (upd sa index mid) /\ same_links n1 n'.
Proof.
  intros Hs Hc Hs1 Hseps1 Hi Hk Ep Eh Et Ef. destruct (splen_bounds n sa Hs Hc) as [Hp _]. pose proof (ss_knum n1 Hs1) as Hk1.
  assert (upd sa index mid index = mid) as Emid by (unfold upd; by rewrite Z.eqb_refl).
  destruct (put_features_spec n1 index (an_str mid)) as (fs & -> & Hf & Hcell); [by apply snode_rows|lia|lia| |].
  { rewrite <- Emid. apply (sp_ok n1 _ Hseps1). lia. }
  eexists. split; [done|]. split; [|split; [by destruct Hseps1|split; [|done]]].
  { destruct Hs1. split; cbn; try done. split; [|apply Hf]. destruct Hf as [Hf _]. change (Inner.kFeatureSize KU32) with 4 in Hf. lia. }
  assert (upd sa index mid 0 = sa 0) as E0 by (unfold upd; by bfalse (0 =? index)).
  assert (upd sa index mid (sknum n - 1) = sa (sknum n - 1)) as El by (unfold upd; by bfalse (sknum n - 1 =? index)).
  split; cbn [sknum splen huge_ tiny_ set_features]; rewrite ?Hk, ?Ep, ?Eh, ?Et, ?E0, ?El; [lia| | | |].
  - intros _. apply (sc_longest n sa Hc). lia.
  - intros _. apply (sc_huge n sa Hc). lia.
  - intros _. apply (sc_tiny n sa Hc). lia.
  - intros r j Hr Hj. change (feat (set_features n1 fs) r j) with (cell fs r j). rewrite Hcell by (done || lia).
    rewrite Ep, Ef. unfold upd. destruct (Z.eqb_spec j index); [done|]. by apply (sc_feat n sa Hc).
Qed.

Lemma sanchor_update_spec n f sa mid index :
  snode_wf n f sa -> 0 <= index < sknum n -> string_ok (an_str mid) ->
  (forall j, 0 <= j < index -> anchor_lt (sa j) mid) -> (forall j, index < j < sknum n -> anchor_lt mid (sa j)) ->
  exists n', anchor_update n mid index = Some (n', Control.f_sibling f && (sknum n - 1 =? index))
    /\ snode_wf n' (Control.bump f) (upd sa index mid) /\ sknum n' = sknum n
    /\ forall j, 0 <= j <= sknum n -> sroute n' j = sroute n j.
Proof.
  intros [Hs Hseps Hc Hw Hv Hin] Hi Hok Hlt Hgt. pose proof (ss_knum n Hs) as Hk. pose proof (ss_anchors n Hs) as Ha.
  unfold anchor_update. btrue ((0 <=? index) && (index <? sknum n)). cbn [asserting].
  rewrite (supdate_version_eq n f) by done. set (n0 := set_control n _). change (sanchors n0) with (sanchors n).
  rewrite aset_in_range, bind_Some by lia. set (n1 := set_anchors n0 _). change (sknum n1) with (sknum n).
  assert (sshape n1) as Hs1 by (destruct Hs; split; cbn; try done; by rewrite length_insert).
  assert (sseps_ok n1 (upd sa index mid)) as Hseps1.
  { pose proof (anchors_ok_of n sa Hseps) as [H1 H2]. apply sseps_intro.
    - apply (stores_upd Some (sknum n)); [by apply (sseps_stores n)|done|lia].
    - split; [|by apply increasing_upd]. intros j Hj. unfold upd. destruct (j =? index); [done|by apply H1]. }
  assert (exists n', (if (index =? 0) || (index =? sknum n - 1) then content_rebuild n1 else put_features n1 index (an_str mid)) = Some n'
    /\ snode_wf n' (Control.bump f) (upd sa index mid) /\ same_links n1 n') as (n' & -> & Hwf & (Hw' & Hk' & Hn' & _ & Hc')).
  { destruct (_ || _) eqn:Ee.
    - apply rebuilt; [done|done|cbn; lia|done|by apply Control.bump_valid|done].
    - destruct (update_middle n sa mid index n1) as (n' & E & H1 & H2 & H3 & H4); try done; [blia|].
      exists n'. split; [done|]. split; [|done]. split; try done; [by destruct H4 as (-> & _)|by apply Control.bump_valid]. }
  rewrite bind_Some, Hw', Hk'. change (scontrol n1) with (Control.encode (Control.bump f)).
  destruct (Control.reads_encode (Control.bump f) (Control.bump_valid f Hv)) as (-> & _). eexists. split; [done|]. split; [done|]. split; [done|].
  intros j Hj. unfold sroute. by rewrite Hk', Hn', Hc'.
Qed.

Lemma sroot_remove_spec n f sa :
  snode_wf n f sa -> Control.f_deleted f = false ->
  root_remove n = if sknum n =? 0
    then Some (set_control n (Control.encode (Control.with_deleted f true)), snext_ n)
    else Some (n, None).
Proof.
  intros [Hs Hseps Hc Hw Hv Hin] Hdel. unfold root_remove. destruct (Z.eqb_spec (sknum n) 0) as [Hk|]; [|done].
  pose proof (srun_control n f Control.OpSetDelete (Control.with_deleted f true)) as H.
  cbn [Control.run] in H. rewrite H, bind_Some; [done|done|done|cbn; by rewrite Hdel].
Qed.
