(* ===== verification/SInnerProps.v ===== *)
(** * The properties of the inner node of string keys, and where its search fails *)

From S2P Require Import Prelude Bits Simd Strings Moves Encode Control Leaf Inner InnerSpec SInner SInnerSpec SInnerOps.
Import SInner.

#[local] Opaque for_mask mask_fuel.

Implicit Types (n rn : snode) (sa rsa : Z -> anchor) (mid : anchor) (key : String).

(** C22: Two searches, one result, for string keys. For a key without zero bytes, compared with
    a prefix that the node stores, [to_next] follows the route of its place among the
    separators in lexicographic order, whether the prefix, a feature byte or the binary
    search of the rest decides, and says whether that leaves the node for its sibling;
    [index_or_sibling] gives the place itself, or the sibling when the key is past the
    last separator of a node that has one. *)
Theorem string_search_correct n (f : Control.fields) sa key :
  snode_wf n f sa -> Control.f_locked f = false -> Control.f_deleted f = false -> slinked n -> searchable n key ->
  exists idx next, place lex_lt (sknum n) (fun j => bytes (sa j)) (str key) idx /\ sroute n idx = Some (Some next)
    /\ to_next n key = Some ((idx =? sknum n) && Control.f_sibling f, Some next, Control.load_version (scontrol n))
    /\ index_or_sibling n key = Some (if (idx =? sknum n) && Control.f_sibling f then inr next else inl idx).
Proof.
  intros Hwf Hl Hd Hli Hse.
  destruct (sto_next_spec n f sa key Hwf Hl Hd Hli Hse) as (idx & next & H1 & H2 & H3).
  exists idx, next. do 3 (split; [done|]).
  destruct (sindex_or_sibling_spec n f sa key Hwf Hd) as (idx' & H4 & ->); [by intros _; apply Hli|done|].
  rewrite (place_unique _ _ _ _ idx' idx H4 H1). destruct (_ && _) eqn:E; [|done].
  unfold sroute in H2. destruct (idx =? sknum n); [|done]. by injection H2 as ->.
Qed.

(** C23: [insert] of a string separator puts it at its index with the new child to its right,
    and leaves the prefix and the feature bytes those of the separators. A full node is
    split, after its 64 separators, or its first 33 or 32, as for integer keys: the two
    nodes have all 65 separators and 66 children in order, the left one links to the new
    one, and the separator returned is the last one of the left node. *)
Theorem string_insert_correct n (f : Control.fields) sa (lchild rchild : ptr) mid (index rnode : Z) (rw : raw) :
  snode_wf n f sa -> sinsert_at n sa mid index -> sraw_ok rw ->
  is_Some lchild -> is_Some rchild -> sleft_child n index lchild ->
  exists r, insert n mid lchild rchild index rnode rw = Some r
    /\ match i_rnode r with
       | None =>
           snode_wf (i_this r) (Control.bump f) (ins sa index mid) /\ sknum (i_this r) = sknum n + 1
           /\ forall j, 0 <= j <= sknum n + 1 -> sroute (i_this r) j = sins_routes n index lchild rchild j
       | Some (rn, mid') =>
           sknum n = 64
           /\ exists c, mid' = ins sa index mid (c - 1)
                /\ ssplit_done n (Control.bump f) sa mid index lchild rchild rnode (i_this r) rn c
       end.
Proof.
  intros Hwf Hat Hraw Hl Hr Hroute. pose proof (ss_knum n (sw_shape n f sa Hwf)) as Hk.
  destruct (decide (sknum n < 64)) as [Hroom|Hfull].
  - destruct (sinsert_room n f sa lchild rchild mid index rnode rw) as (n' & E & H); try done.
    eexists. split; [exact E|]. exact H.
  - destruct (sinsert_split n f sa lchild rchild mid index rnode rw) as (n' & rn' & c & E & H); try done; [lia|].
    eexists. split; [exact E|]. cbn. split; [lia|]. by exists c.
Qed.

(** ** [remove], wherever the separator is *)

Lemma snode_wf_ext n f sa sa' : (forall j, 0 <= j < sknum n -> sa j = sa' j) -> snode_wf n f sa -> snode_wf n f sa'.
Proof.
  intros He [Hs [H1 H2 H3] Hc Hw Hv Hl]. split; try done; [|by apply (scontent_ext n sa)]. split.
  - intros j Hj. rewrite <- He by done. by apply H1.
  - intros j Hj. rewrite <- He by done. by apply H2.
  - intros i j Hij Hj. rewrite <- !He by lia. by apply H3.
Qed.

(** whether the sibling is merged into the node: [k] separators are left *)
Definition string_merges (k index : Z) rn : bool :=
  (k + sknum rn <=? 32) || (sknum rn =? 0) || ((index =? k) && ((index =? 0) || (sknum rn =? 1))).

(** the children of both nodes, without the one to the right of the separator *)
Definition rest_routes n rn (index : Z) : Z -> option ptr :=
  del (join (sroute n) (sknum n) (sroute rn)) (index + 1).

(** what [remove] does, [s] being the separators that are left *)
Definition string_removed (this : Z) n (f : Control.fields) mid (index : Z) (s : Z -> anchor)
    (ra : Z) rn (g : Control.fields) rsa (r : remove_result) : Prop :=
  let k := sknum n - 1 in
  if Control.f_sibling f && string_merges k index rn then
    snode_wf (d_this r) (Control.with_sibling (Control.bump f) (Control.f_sibling g)) (join s k rsa)
    /\ sknum (d_this r) = k + sknum rn
    /\ (forall j, 0 <= j <= sknum (d_this r) -> sroute (d_this r) j = rest_routes n rn index j)
    /\ d_merged r = true /\ d_up r = false /\ d_key r = (if index =? k then mid else s (k - 1))
    /\ exists rn', d_rnode r = Some (ra, rn') /\ smerged_away rn' g this
         /\ forall key, to_next rn' key = Some (true, Some this, Control.load_version (scontrol rn'))
  else
    snode_wf (d_this r) (Control.bump f) s /\ sknum (d_this r) = k
    /\ (forall j, 0 <= j < k -> sroute (d_this r) j = del (sroute n) (index + 1) j)
    /\ d_merged r = false
    /\ if Control.f_sibling f && (index =? k) then
         snext_ (d_this r) = snext_ n /\ d_up r = true /\ d_key r = s (k - 1)
         /\ exists rn', d_rnode r = Some (ra, rn') /\ snode_wf rn' (Control.bump g) rsa /\ sknum rn' = sknum rn
              /\ forall j, 0 <= j <= sknum rn -> sroute rn' j = upd (sroute rn) 0 (sroute n index) j
       else sroute (d_this r) k = del (sroute n) (index + 1) k
            /\ d_up r = false /\ d_key r = mid /\ d_rnode r = None.

Lemma string_remove_middle mem this n f sa mid index ra rn g rsa :
  snode_wf n f sa -> 0 <= index < sknum n - 1 ->
  (Control.f_sibling f = true -> sright_sibling mem n (sknum n - 1) (del sa index) ra rn g rsa) ->
  exists r, remove mem this n mid index = Some r /\ string_removed this n f mid index (del sa index) ra rn g rsa r.
Proof.
  intros Hwf Hi Hsib. pose proof (sw_valid n f sa Hwf) as Hv. unfold string_removed. cbn zeta.
  destruct (sremove_inner mem this n f sa mid index Hwf Hi) as (n1 & -> & H1 & Hk1 & Hn1 & Hr1).
  pose proof (sw_word _ _ _ H1) as Hw1. bfalse (index =? sknum n - 1).
  destruct (Control.f_sibling f) eqn:Es; cbn [andb].
  2:{ rewrite (smerge_alone mem this n1 (Control.bump f)) by (done || by apply Control.bump_valid).
      eexists. split; [done|]. cbn [d_this d_merged d_up d_key d_rnode]. rewrite <- Hk1. split; [done|]. split; [done|].
      split; [intros j Hj; apply Hr1; lia|]. split; [done|]. split; [apply Hr1; lia|done]. }
  specialize (Hsib eq_refl). destruct Hsib as [Hra Hmem Hrwf Hlk Hdel Habove].
  assert (string_merges (sknum n - 1) index rn = smerge_fits n1 rn) as ->.
  { unfold string_merges, smerge_fits. bfalse (index =? sknum n - 1). cbn [andb]. by rewrite orb_false_r, Hk1. }
  destruct (smerge_fits n1 rn) eqn:Em.
  - destruct (smerge_yes mem this n1 (Control.bump f) (del sa index) mid ra rn g rsa) as (n' & rn' & E & H2 & Hk2 & Hr2 & Haway);
      [done|lia|done|split; try done; [congruence|by rewrite Hk1]|done|].
    rewrite E. eexists. split; [done|]. cbn [d_this d_merged d_up d_key d_rnode]. rewrite <- Hk1.
    split; [done|]. split; [done|]. split; [|do 3 (split; [done|])].
    + intros j Hj. rewrite Hr2 by done. unfold rest_routes, join, del at 1. rewrite Hk1. destruct (Z.ltb_spec j (sknum n - 1)).
      * rewrite Hr1 by lia. unfold del. destruct (Z.ltb_spec j (index + 1)); [by btrue (j <? sknum n)|by btrue (j + 1 <? sknum n)].
      * bfalse (j <? index + 1). bfalse (j + 1 <? sknum n). f_equal. lia.
    + exists rn'. split; [done|]. split; [done|]. intros key. by apply (smerged_away_to_next rn' g); [apply Hrwf|..].
  - rewrite (smerge_not mem this n1 (Control.bump f) mid ra rn); try done; [|by apply Control.bump_valid|congruence|lia].
    eexists. split; [done|]. cbn [d_this d_merged d_up d_key d_rnode]. rewrite <- Hk1. split; [done|]. split; [done|].
    split; [intros j Hj; apply Hr1; lia|]. split; [done|]. split; [apply Hr1; lia|done].
Qed.

(** [remove] of the last one, up to [bound_remove] *)
Lemma sremove_bound mem this n f sa mid index :
  snode_wf n f sa -> 0 <= index -> index = sknum n - 1 ->
  exists n0, n0 = set_control n (Control.encode (Control.bump f))
    /\ remove mem this n mid index = bound_remove mem this n0 mid index /\ snode_wf n0 (Control.bump f) sa.
Proof.
  intros Hwf Hi Ei. pose proof Hwf as [Hs Hseps Hc Hw Hv Hin]. eexists. split; [done|]. split.
  - unfold remove. rewrite (supdate_version_eq n f) by done. set (n0 := set_control n _).
    change (sknum n0) with (sknum n). btrue ((0 <=? index) && (index <? sknum n)). cbn [asserting].
    bfalse (index <? sknum n - 1). by btrue (index =? sknum n - 1).
  - by apply (snode_wf_words n f sa); [|done|apply Control.bump_valid|].
Qed.

Lemma string_remove_last mem this n f sa mid index ra rn g rsa :
  snode_wf n f sa -> 0 <= index -> index = sknum n - 1 ->
  (Control.f_sibling f = true -> sright_sibling mem n index sa ra rn g rsa /\ 1 <= index + sknum rn) ->
  exists r, remove mem this n mid index = Some r /\ string_removed this n f mid index sa ra rn g rsa r.
Proof.
  intros Hwf Hi Ei Hsib. pose proof (sw_valid n f sa Hwf) as Hv. unfold string_removed. cbn zeta. rewrite <- Ei, Z.eqb_refl.
  destruct (sremove_bound mem this n f sa mid index Hwf Hi Ei) as (n0 & En0 & -> & Hwf0).
  assert (sknum n0 = sknum n /\ snext_ n0 = snext_ n /\ forall j, sroute n0 j = sroute n j) as (Hk0 & Hn0 & Hr0) by (by subst n0).
  destruct (Control.f_sibling f) eqn:Es; cbn [andb].
  2:{ destruct (sbound_remove_alone mem this n0 (Control.bump f) sa mid index) as (n' & E & H1 & Hk1 & Hr1); try done; [lia|].
      rewrite E. eexists. split; [done|]. cbn [d_this d_merged d_up d_key d_rnode]. do 2 (split; [done|]).
      assert (forall j, 0 <= j <= index -> sroute n' j = del (sroute n) (index + 1) j) as Hr.
      { intros j Hj. rewrite Hr1, Hr0 by done. unfold del. by btrue (j <? index + 1). }
      split; [intros j Hj; apply Hr; lia|]. split; [done|]. split; [apply Hr; lia|done]. }
  destruct (Hsib eq_refl) as [Hrs Hpos]. clear Hsib. pose proof Hrs as [_ _ Rwf Rl _ _].
  assert (sright_sibling mem n0 index sa ra rn g rsa) as Hrs0 by (destruct Hrs; split; try done; congruence).
  assert (string_merges index index rn = sbound_merges index rn) as ->.
  { unfold string_merges, sbound_merges. change kMergeSize with 32. rewrite Z.eqb_refl.
    destruct (index + sknum rn <=? 32), (index =? 0), (sknum rn =? 0), (sknum rn =? 1); done. }
  destruct (sbound_merges index rn) eqn:Hm.
  - destruct (sbound_remove_merge mem this n0 (Control.bump f) sa mid index ra rn g rsa)
      as (n' & rn' & E & H1 & Hk1 & Hr1 & Haway); try done; [lia|].
    rewrite E. eexists. split; [done|]. cbn [d_this d_merged d_up d_key d_rnode]. do 2 (split; [done|]).
    split; [|do 3 (split; [done|])].
    + intros j Hj. rewrite Hr1 by done. unfold rest_routes, join, del. replace (sknum n) with (index + 1) by lia.
      destruct (Z.ltb_spec j (index + 1)); [by rewrite Hr0|]. bfalse (j + 1 <? index + 1). f_equal. lia.
    + exists rn'. split; [done|]. split; [done|]. intros key. by apply (smerged_away_to_next rn' g); [apply Rwf|..].
  - destruct (sbound_remove_apart mem this n0 (Control.bump f) sa mid index ra rn g rsa)
      as (n' & rn' & E & H1 & Hk1 & Hn1 & Hr1 & H2 & Hk2 & Hr2); try done; [lia|].
    rewrite E. eexists. split; [done|]. cbn [d_this d_merged d_up d_key d_rnode]. do 2 (split; [done|]).
    split; [intros j Hj; rewrite Hr1, Hr0 by done; unfold del; by btrue (j <? index + 1)|]. split; [done|].
    split; [congruence|]. do 2 (split; [done|]). exists rn'. do 3 (split; [done|]).
    intros j Hj. rewrite Hr2 by done. unfold upd. by rewrite Hr0.
Qed.

(** with no separator left in either node *)
Lemma string_remove_nothing mem this n f sa mid index ra rn g rsa :
  snode_wf n f sa -> 0 <= index < sknum n -> Control.f_sibling f = true ->
  sright_sibling mem n (sknum n - 1) (del sa index) ra rn g rsa -> sknum n - 1 + sknum rn = 0 ->
  remove mem this n mid index = None.
Proof.
  intros Hwf Hi Hs Hrs Hk. pose proof (ss_knum rn (sw_shape rn g rsa (srs_wf _ _ _ _ _ _ _ _ Hrs))).
  assert (sknum n = 1 /\ sknum rn = 0 /\ index = 0) as (Hk1 & Hk0 & ->) by lia.
  destruct (sremove_bound mem this n f sa mid 0 Hwf) as (n0 & En0 & -> & Hwf0); [lia|lia|].
  apply (sbound_remove_nothing mem this n0 (Control.bump f) sa mid ra rn g rsa); try done; subst n0; [done|].
  destruct Hrs. split; try done. intros; lia.
Qed.

(** what is left when the last separator goes *)
Lemma string_removed_last this n f mid index sa ra rn g rsa r :
  0 <= index -> index = sknum n - 1 -> (Control.f_sibling f = true -> 1 <= index + sknum rn) ->
  string_removed this n f mid index sa ra rn g rsa r ->
  string_removed this n f mid index (del sa index) ra rn g rsa r.
Proof.
  intros Hi E Hpos Hr. unfold string_removed in *. cbn zeta in *. rewrite <- E, Z.eqb_refl in *.
  assert (forall j, 0 <= j < index -> sa j = del sa index j) as Hd by (intros j Hj; unfold del; by btrue (j <? index)).
  destruct (_ && string_merges _ _ _) eqn:Em.
  - destruct Hr as (H1 & H2 & H3). split; [|done]. eapply snode_wf_ext; [|exact H1]. rewrite H2. intros j Hj.
    unfold join. destruct (Z.ltb_spec j index); [apply Hd; lia|done].
  - destruct Hr as (H1 & H2 & H3 & H4 & H5). split; [|do 3 (split; [done|])].
    + eapply snode_wf_ext; [|exact H1]. rewrite H2. exact Hd.
    + destruct (Control.f_sibling f); cbn [andb] in *; [|done].
      destruct H5 as (? & ? & -> & ?). do 2 (split; [done|]). split; [|done]. apply Hd.
      specialize (Hpos eq_refl). unfold string_merges in Em. rewrite Z.eqb_refl in Em.
      destruct (Z.eqb_spec index 0); [|lia]. cbn in Em. by rewrite orb_true_r in Em.
Qed.

(** C24: [remove] of any string separator takes it out with the child to its right: the one
    behind it in the node, or, for the last separator, the first child of the sibling.
    The sibling is merged into the node when the two have at most 32 separators
    together, or the sibling has none, or (the last one removed) one of them would have
    none; otherwise, for the last separator, the node's last child takes the place of the
    sibling's first one and the separator above is to become the node's new last one. A
    sibling merged away is left empty, marked deleted and pointing back, so that a search
    that gets there returns. The separators that are left always have the prefix and
    feature bytes that the search relies on. In one case there are none: the only
    separator of a node goes and its sibling has none either; [content_rebuild] then reads
    the separator before the first, and the operation has no defined result. *)
Theorem string_remove_correct (mem : Z -> option snode) (this : Z) n (f : Control.fields) sa mid
    (index ra : Z) rn (g : Control.fields) rsa :
  snode_wf n f sa -> 0 <= index < sknum n ->
  (Control.f_sibling f = true -> sright_sibling mem n (sknum n - 1) (del sa index) ra rn g rsa) ->
  if Control.f_sibling f && (sknum n - 1 + sknum rn =? 0) then remove mem this n mid index = None
  else exists r, remove mem this n mid index = Some r
         /\ string_removed this n f mid index (del sa index) ra rn g rsa r.
Proof.
  intros Hwf Hi Hsib. destruct (_ && _) eqn:E0.
  { apply andb_true_iff in E0 as [Es Hk%Z.eqb_eq].
    apply (string_remove_nothing mem this n f sa mid index ra rn g rsa); try done. by apply Hsib. }
  assert (Control.f_sibling f = true -> 1 <= sknum n - 1 + sknum rn) as Hpos.
  { intros Es. pose proof (ss_knum rn (sw_shape rn g rsa (srs_wf _ _ _ _ _ _ _ _ (Hsib Es)))). rewrite Es in E0. cbn in E0. lia. }
  destruct (decide (index = sknum n - 1)) as [E|].
  - destruct (string_remove_last mem this n f sa mid index ra rn g rsa Hwf) as (r & Er & Hr); [lia|done| |].
    { intros Es. rewrite E. split; [|by apply Hpos]. destruct (Hsib Es) as [? ? ? ? ? Hab]. split; try done.
      intros i j Hii Hj. specialize (Hab i j Hii Hj). unfold del in Hab. destruct (Z.ltb_spec i index); [done|lia]. }
    exists r. split; [done|]. apply string_removed_last; [lia|done| |done]. by rewrite E.
  - apply string_remove_middle; [done|lia|done].
Qed.

(** ** The properties at concrete nodes *)

Definition ex_string (l : list Z) : String := mkString (Z.of_nat (length l)) l.
Definition ex_anchor (l : list Z) : anchor := mkAnchor 0 (ex_string l).
Definition ex_sraw : raw :=
  mkRaw (replicate 4 (replicate 64 9)) (replicate 224 7) (replicate 64 None) (replicate 64 None) None.

Lemma ex_sraw_ok : sraw_ok ex_sraw.
Proof.
  split; cbn [raw_features raw_tiny raw_anchors raw_children ex_sraw]; try by rewrite length_replicate.
  split; [by rewrite length_replicate|]. apply Forall_replicate. split; [by rewrite length_replicate|].
  by apply Forall_replicate.
Qed.

Definition ex_sinsert n (l r : Z) (b : list Z) (i : Z) : snode :=
  match insert n (ex_anchor b) (Some l) (Some r) i 0 ex_sraw with Some x => i_this x | None => n end.

(** a new node has the separators of any sequence *)
Definition no_anchors (j : Z) : anchor := ex_anchor [].

(** [100 |b| 101 |b'| 102] *)
Definition ex_snode2 (a b : list Z) : snode := ex_sinsert (ex_sinsert (InnerNode ex_sraw) 100 101 a 0) 101 102 b 1.
Definition ex_anchors2 (a b : list Z) : Z -> anchor := ins (ins no_anchors 0 (ex_anchor a)) 1 (ex_anchor b).
Definition ex_sfields2 : Control.fields := Control.bump (Control.bump (Control.inner_fields false)).

Lemma ex_sinsert_ok n f sa l r b i :
  snode_wf n f sa -> sknum n < 64 -> Forall is_byte b ->
  0 <= i <= sknum n -> (forall j, 0 <= j < i -> lex_lt (bytes (sa j)) b) ->
  (forall j, i <= j < sknum n -> lex_lt b (bytes (sa j))) -> sleft_child n i (Some l) ->
  snode_wf (ex_sinsert n l r b i) (Control.bump f) (ins sa i (ex_anchor b))
  /\ sknum (ex_sinsert n l r b i) = sknum n + 1
  /\ forall j, 0 <= j <= sknum n + 1 -> sroute (ex_sinsert n l r b i) j = sins_routes n i (Some l) (Some r) j.
Proof.
  intros Hwf Hroom Hb Hi Hlt Hgt Hl.
  destruct (sinsert_room n f sa (Some l) (Some r) (ex_anchor b) i 0 ex_sraw) as (n' & E & H); try done.
  unfold ex_sinsert. by rewrite E.
Qed.

Lemma ex_snode2_ok a b :
  Forall is_byte a -> Forall is_byte b -> lex_lt a b ->
  snode_wf (ex_snode2 a b) ex_sfields2 (ex_anchors2 a b) /\ sknum (ex_snode2 a b) = 2
  /\ sroute (ex_snode2 a b) 0 = Some (Some 100) /\ sroute (ex_snode2 a b) 1 = Some (Some 101)
  /\ sroute (ex_snode2 a b) 2 = Some (Some 102).
Proof.
  intros Ha Hb Hlt. unfold ex_snode2.
  destruct (ex_sinsert_ok (InnerNode ex_sraw) (Control.inner_fields false) no_anchors 100 101 a 0) as (H1 & Hk1 & Hr1);
    try (by apply sInnerNode_wf, ex_sraw_ok); try done; try (unfold sleft_child; cbn; intros; lia).
  set (n1 := ex_sinsert (InnerNode ex_sraw) 100 101 a 0) in *. change (sknum (InnerNode ex_sraw)) with 0 in *.
  assert (sroute n1 1 = Some (Some 101)) as R1 by (rewrite Hr1 by lia; done).
  destruct (ex_sinsert_ok n1 (Control.bump (Control.inner_fields false)) (ins no_anchors 0 (ex_anchor a)) 101 102 b 1)
    as (H2 & Hk2 & Hr2); try done; try lia.
  { intros j Hj. by replace j with 0 by lia. }
  { intros Hne. lia. }
  split; [done|]. split; [lia|]. rewrite !Hr2 by lia. split; [|done].
  unfold sins_routes, ins, upd. cbn [Z.ltb Z.eqb Z.add Z.compare Pos.add Pos.compare Pos.compare_cont Pos.eqb]. by rewrite Hr1 by lia.
Qed.

(** the left node of the examples, at 1, and its sibling, at 2 *)
Definition link_snode n (f : Control.fields) : snode :=
  set_next (set_control n (Control.encode (Control.with_sibling f true))) (Some 2).

Lemma link_snode_wf n f sa : snode_wf n f sa -> snode_wf (link_snode n f) (Control.with_sibling f true) sa.
Proof.
  intros [Hs Hq Hc Hw Hv Hi]. split; try done; [by destruct Hs|by destruct Hq|by destruct Hc].
Qed.

Lemma link_snode_same n f : sknum (link_snode n f) = sknum n /\ snext_ (link_snode n f) = Some 2.
Proof. done. Qed.

#[local] Opaque ex_snode2 link_snode.

(** "ant", "bee"; "cat", "dog" *)
Definition ex_sleft : snode := link_snode (ex_snode2 [97; 110; 116] [98; 101; 101]) ex_sfields2.
Definition ex_sright : snode := ex_snode2 [99; 97; 116] [100; 111; 103].
Definition ex_smem (a : Z) : option snode := if a =? 2 then Some ex_sright else None.
Definition ex_slfields : Control.fields := Control.with_sibling ex_sfields2 true.
Definition ex_lanchors : Z -> anchor := ex_anchors2 [97; 110; 116] [98; 101; 101].
Definition ex_ranchors : Z -> anchor := ex_anchors2 [99; 97; 116] [100; 111; 103].

Lemma ex_sleft_ok : snode_wf ex_sleft ex_slfields ex_lanchors /\ sknum ex_sleft = 2.
Proof.
  destruct (ex_snode2_ok [97; 110; 116] [98; 101; 101]) as (H & Hk & _); [repeat constructor; done..|done|].
  unfold ex_sleft. rewrite (proj1 (link_snode_same _ _)), Hk. split; [by apply link_snode_wf|done].
Qed.

Lemma ex_sright_ok : snode_wf ex_sright ex_sfields2 ex_ranchors /\ sknum ex_sright = 2.
Proof.
  destruct (ex_snode2_ok [99; 97; 116] [100; 111; 103]) as (H & Hk & _); [repeat constructor; done..|done|]. done.
Qed.

(** "axe" *)
Definition ex_skey : String := ex_string [97; 120; 101].

Lemma string_search_correct_witness :
  to_next ex_sleft ex_skey = Some (false, Some 101, Control.load_version (scontrol ex_sleft))
  /\ exists idx next, place lex_lt (sknum ex_sleft) (fun j => bytes (ex_lanchors j)) (str ex_skey) idx
       /\ index_or_sibling ex_sleft ex_skey = Some (if (idx =? sknum ex_sleft) && true then inr next else inl idx).
Proof.
  split; [by vm_compute|]. destruct ex_sleft_ok as [Hwf Hk].
  destruct (string_search_correct ex_sleft ex_slfields ex_lanchors ex_skey Hwf) as (idx & next & H1 & _ & _ & H2).
  - reflexivity.
  - reflexivity.
  - split; [|exists 2; apply link_snode_same]. rewrite Hk. intros j Hj.
    assert (j = 0 \/ j = 1) as [-> | ->] by lia; [exists 100; by vm_compute|exists 101; by vm_compute].
  - split; [split; [reflexivity|repeat constructor; done]|rewrite Hk; lia|left; by vm_compute].
  - exists idx, next. split; [exact H1|exact H2].
Defined.

Lemma string_insert_correct_witness :
  exists r, insert ex_sleft (ex_anchor (str ex_skey)) (Some 101) (Some 109) 1 3 ex_sraw = Some r
    /\ i_rnode r = None /\ sknum (i_this r) = 3.
Proof.
  destruct ex_sleft_ok as [Hwf Hk].
  destruct (string_insert_correct ex_sleft ex_slfields ex_lanchors (Some 101) (Some 109)
    (ex_anchor (str ex_skey)) 1 3 ex_sraw Hwf) as (r & E & H).
  - split; rewrite ?Hk; [lia|split; [reflexivity|repeat constructor; done]| |].
    + intros j Hj. by replace j with 0 by lia.
    + intros j Hj. by replace j with 1 by lia.
  - exact ex_sraw_ok.
  - by exists 101.
  - by exists 109.
  - intros _. by vm_compute.
  - exists r. split; [exact E|]. destruct (i_rnode r) as [[rn m]|].
    + destruct H as [H _]. rewrite Hk in H. lia.
    + split; [reflexivity|]. rewrite Hk in H. exact (proj1 (proj2 H)).
Defined.

(** one separator, and a sibling with none: what a few removals leave *)
Definition ex_slone : snode :=
  link_snode (ex_sinsert (InnerNode ex_sraw) 100 101 [97] 0) (Control.bump (Control.inner_fields false)).
Definition ex_sempty : snode := set_next (InnerNode ex_sraw) (Some 101).

Lemma ex_slone_ok :
  snode_wf ex_slone (Control.with_sibling (Control.bump (Control.inner_fields false)) true) (ins no_anchors 0 (ex_anchor [97]))
  /\ sknum ex_slone = 1 /\ snode_wf ex_sempty (Control.inner_fields false) no_anchors.
Proof.
  destruct (ex_sinsert_ok (InnerNode ex_sraw) (Control.inner_fields false) no_anchors 100 101 [97] 0) as (H1 & Hk1 & _);
    try (by apply sInnerNode_wf, ex_sraw_ok); try done; try (unfold sleft_child; cbn; intros; lia).
  { by repeat constructor. }
  split; [by apply link_snode_wf|]. split; [by unfold ex_slone; rewrite (proj1 (link_snode_same _ _)), Hk1|].
  destruct (sInnerNode_wf ex_sraw no_anchors ex_sraw_ok) as [[] [] [] ? ? ?]. split; try done; by split.
Qed.

Lemma string_remove_correct_witness :
  (exists r, remove ex_smem 1 ex_sleft (ex_anchor []) 1 = Some r /\ sknum (d_this r) = 3 /\ d_merged r = true)
  /\ remove (fun a => if a =? 2 then Some ex_sempty else None) 1 ex_slone (ex_anchor []) 0 = None.
Proof.
  split.
  - destruct ex_sleft_ok as [Hwf Hk], ex_sright_ok as [Rwf Rk].
    pose proof (string_remove_correct ex_smem 1 ex_sleft ex_slfields ex_lanchors (ex_anchor []) 1 2 ex_sright
      ex_sfields2 ex_ranchors Hwf) as H.
    rewrite Hk, Rk in H. destruct H as (r & E & H).
    + lia.
    + intros _. split; [apply link_snode_same|reflexivity|exact Rwf|reflexivity|reflexivity|].
      rewrite Rk. intros i j Hi Hj. replace i with 0 by lia. assert (j = 0 \/ j = 1) as [-> | ->] by lia; done.
    + exists r. split; [exact E|]. unfold string_removed, string_merges in H. cbn zeta in H. rewrite Hk, Rk in H. cbn in H.
      destruct H as (_ & H1 & _ & H2 & _). split; [exact H1|exact H2].
  - destruct ex_slone_ok as (Hwf & Hk & Rwf).
    pose proof (string_remove_correct (fun a => if a =? 2 then Some ex_sempty else None) 1 ex_slone _ _ (ex_anchor []) 0 2
      ex_sempty (Control.inner_fields false) no_anchors Hwf) as H.
    rewrite Hk in H. apply H.
    + lia.
    + intros _. split; [apply link_snode_same|reflexivity|exact Rwf|reflexivity|reflexivity|]. intros; lia.
Defined.

(** ** Where the search of the code goes wrong *)

Definition many_b (c : Z) : list Z := replicate 225 98 ++ [c].

(** 225 times "b" and "a"; 225 times "b" and "c": the prefix is longer than [tiny_] *)
Definition ex_stale : snode := ex_snode2 (many_b 97) (many_b 99).
(** "ab", "ac" *)
Definition ex_zero : snode := ex_snode2 [97; 98] [97; 99].

Lemma ex_stale_ok :
  snode_wf ex_stale ex_sfields2 (ex_anchors2 (many_b 97) (many_b 99)) /\ sknum ex_stale = 2
  /\ sroute ex_stale 0 = Some (Some 100) /\ sroute ex_stale 1 = Some (Some 101) /\ sroute ex_stale 2 = Some (Some 102).
Proof.
  apply ex_snode2_ok; [|unfold many_b..].
  1-2: apply Forall_app; split; [by apply Forall_replicate|by repeat constructor].
  unfold lex_lt. by rewrite lex_cmp_app.
Qed.

(** C25: What [searchable] leaves out is searched wrongly. A node whose separators share more
    than 224 bytes does not store their prefix in [tiny_], but compares a key of at most
    224 bytes with what [tiny_] held before: the key "a", below both separators, goes past
    the last of them. And as the features pad a separator with zero bytes, a key that ends
    in a zero byte where a separator ends is taken for it: "ab" with a zero byte, which
    is above the separator "ab", goes to its left. *)
Theorem string_search_pitfalls :
  (exists sa key, snode_wf ex_stale ex_sfields2 sa /\ key_ok key
     /\ place lex_lt (sknum ex_stale) (fun j => bytes (sa j)) (str key) 0 /\ sroute ex_stale 0 = Some (Some 100)
     /\ exists v, to_next ex_stale key = Some (false, Some 102, v))
  /\ (exists sa key, snode_wf ex_zero ex_sfields2 sa /\ string_ok key
     /\ place lex_lt (sknum ex_zero) (fun j => bytes (sa j)) (str key) 1 /\ sroute ex_zero 1 = Some (Some 101)
     /\ exists v, to_next ex_zero key = Some (false, Some 100, v)).
Proof.
  split.
  - destruct ex_stale_ok as (Hwf & Hk & Hr & _). exists (ex_anchors2 (many_b 97) (many_b 99)), (ex_string [97]).
    split; [done|]. split; [split; [done|by repeat constructor]|]. split; [|split; [done|eexists; by vm_compute]].
    rewrite Hk. split; [lia|]. split; [lia|]. intros j Hj. assert (j = 0 \/ j = 1) as [-> | ->] by lia; done.
  - destruct (ex_snode2_ok [97; 98] [97; 99]) as (Hwf & Hk & _ & Hr & _); [repeat constructor; done..|done|].
    exists (ex_anchors2 [97; 98] [97; 99]), (ex_string [97; 98; 0]).
    split; [done|]. split; [split; [done|repeat constructor; done]|]. split; [|split; [done|eexists; by vm_compute]].
    change (sknum ex_zero) with (sknum (ex_snode2 [97; 98] [97; 99])). rewrite Hk. split; [lia|]. split.
    + intros j Hj. by replace j with 0 by lia.
    + intros j Hj. by replace j with 1 by lia.
Qed.
