(* ===== verification/Rank.v ===== *)
(** * Byte strings as numbers

    The strings of at most [N] bytes in lexicographic order, numbered in that order: a
    string is read as [N] digits in base 257, its bytes plus one, with zeros after the
    end. The numbers carry what is proved of nodes with integer keys over to nodes with
    string keys ([SLeafSim]). *)

From S2P Require Import Prelude Strings.

(** the strings that are numbered *)
Definition short_key (N : nat) (s : list Z) : Prop := (length s <= N)%nat /\ Forall is_byte s.

Fixpoint rank (N : nat) (s : list Z) : Z :=
  match N, s with
  | S N, b :: s => (b + 1) * 257 ^ Z.of_nat N + rank N s
  | _, _ => 0
  end.

(** the string with a number *)
Fixpoint unrank (N : nat) (z : Z) : list Z :=
  match N with
  | O => []
  | S N =>
      let d := z / 257 ^ Z.of_nat N in
      if d =? 0 then [] else (d - 1) :: unrank N (z mod 257 ^ Z.of_nat N)
  end.

#[global] Instance short_key_dec N s : Decision (short_key N s).
Proof. unfold short_key, is_byte. apply _. Defined.

Lemma short_key_cons N b s : short_key (S N) (b :: s) <-> is_byte b /\ short_key N s.
Proof. unfold short_key. rewrite Forall_cons. cbn. split; intros; intuition lia. Qed.

Lemma pow257_pos N : 0 < 257 ^ Z.of_nat N.
Proof. apply Z.pow_pos_nonneg; lia. Qed.

Lemma pow257_S N : 257 ^ Z.of_nat (S N) = 257 * 257 ^ Z.of_nat N.
Proof. rewrite Nat2Z.inj_succ, Z.pow_succ_r by lia. done. Qed.

Lemma rank_range N s : short_key N s -> 0 <= rank N s < 257 ^ Z.of_nat N.
Proof.
  revert s. induction N as [|N IH]; intros [|b s] Hs; [done|done|split; [done|apply pow257_pos]|].
  pose proof (pow257_pos N). apply short_key_cons in Hs as [Hb Hs]. specialize (IH s Hs). unfold is_byte in Hb.
  rewrite pow257_S. cbn [rank]. nia.
Qed.

Lemma unrank_rank N s : short_key N s -> unrank N (rank N s) = s.
Proof.
  revert s. induction N as [|N IH]; intros [|b s] Hs; cbn [rank unrank]; [done| | |].
  - destruct Hs as [Hl _]. cbn in Hl. lia.
  - by rewrite Z.div_0_l by (pose proof (pow257_pos N); lia).
  - apply short_key_cons in Hs as [Hb Hs]. pose proof (rank_range N s Hs) as Hr. unfold is_byte in Hb.
    rewrite Z.div_add_l, (Z.div_small (rank N s)) by lia. bfalse (b + 1 + 0 =? 0).
    rewrite Z.add_mod, Z.mod_mul, Z.add_0_l, Z.mod_mod, Z.mod_small by lia.
    rewrite IH by done. f_equal. lia.
Qed.

(** the numbers are in the order of the strings *)
Lemma rank_compare N a b :
  short_key N a -> short_key N b -> (rank N a ?= rank N b) = lex_cmp a b.
Proof.
  revert a b. induction N as [|N IH]; intros a b Ha Hb.
  { destruct Ha as [Ha _], Hb as [Hb _]. destruct a, b; cbn in *; lia || done. }
  destruct a as [|x a], b as [|y b]; cbn [rank lex_cmp]; [done| | |].
  - apply short_key_cons in Hb as [Hy Hb]. pose proof (rank_range N b Hb). pose proof (pow257_pos N).
    unfold is_byte in Hy. apply Z.compare_lt_iff. nia.
  - apply short_key_cons in Ha as [Hx Ha]. pose proof (rank_range N a Ha). pose proof (pow257_pos N).
    unfold is_byte in Hx. apply Z.compare_gt_iff. nia.
  - apply short_key_cons in Ha as [Hx Ha], Hb as [Hy Hb].
    pose proof (rank_range N a Ha). pose proof (rank_range N b Hb). pose proof (pow257_pos N).
    rewrite <- (IH a b) by done. destruct (Z.compare_spec x y) as [->|Hlt|Hgt].
    + destruct (Z.compare_spec (rank N a) (rank N b)); [apply Z.compare_eq_iff|apply Z.compare_lt_iff|apply Z.compare_gt_iff]; lia.
    + apply Z.compare_lt_iff. nia.
    + apply Z.compare_gt_iff. nia.
Qed.

Lemma rank_lt N a b : short_key N a -> short_key N b -> rank N a < rank N b <-> lex_lt a b.
Proof. intros Ha Hb. unfold lex_lt. rewrite <- (rank_compare N) by done. symmetry. apply Z.compare_lt_iff. Qed.

Lemma rank_inj N a b : short_key N a -> short_key N b -> rank N a = rank N b -> a = b.
Proof. intros Ha Hb E. rewrite <- (unrank_rank N a), <- (unrank_rank N b) by done. by rewrite E. Qed.

Lemma rank_le N a b : short_key N a -> short_key N b -> rank N a <= rank N b <-> lex_le a b.
Proof. intros Ha Hb. rewrite <- lex_not_lt, <- (rank_lt N) by done. lia. Qed.
