(* ===== verification/SLeaf.v ===== *)
(** * The leaf node: [LeafNode<String, V>] of [src/FBTree/lnode.h], string keys

    The specialisation of [Leaf] for keys of variable length: pairs hold their key as a
    [String], the high key is a pointer to a string that [upsert] allocates, and the
    separator handed to the level above is that pointer. As in [Leaf], the operations are
    sequential code on the node and, for [merge], on its sibling. *)

From S2P Require Import Prelude Bits Simd Strings Encode Control HashBytes Leaf SInner.

(** a [KVPair] in the memory: its address, and its immutable contents
    (FBTree/lnode.h:505, util/type.h:85-115) *)
Record skvpair {V : Type} := mkSKV { skv_addr : Z; skv_key : String; skv_value : V }.
Arguments skvpair V : clear implicits.
Arguments mkSKV {V}.

(** what an atomic [KVPair*] holds: it is indeterminate until the first store *)
Inductive sslot {V : Type} := SUndef | SNull | SPtr (kv : skvpair V).
Arguments sslot V : clear implicits.
Arguments SUndef {V}.
Arguments SNull {V}.
Arguments SPtr {V}.

(** FBTree/lnode.h:507-512 [LeafNode] *)
Record sleaf {V : Type} := mkSLeaf {
  lcontrol : Z;
  lbitmap : Z;
  lhigh : option anchor;
  lsibling : ptr;
  ltags : list Z;
  lkvs : list (sslot V);
}.
Arguments sleaf V : clear implicits.
Arguments mkSLeaf {V}.

Module SLeaf.
Section sleaf.
Context {V : Type}.
Implicit Types (n rn : sleaf V) (key : String).

(** FBTree/lnode.h:501-502 [LeafNode] *)
Definition kNodeSize : Z := kLeafSize Constant_String.
Definition kMergeSize : Z := kLeafMergeSize Constant_String.

Definition set_control n c := mkSLeaf c (lbitmap n) (lhigh n) (lsibling n) (ltags n) (lkvs n).
Definition set_bitmap n b := mkSLeaf (lcontrol n) b (lhigh n) (lsibling n) (ltags n) (lkvs n).
Definition set_high n a := mkSLeaf (lcontrol n) (lbitmap n) a (lsibling n) (ltags n) (lkvs n).
Definition set_sibling_ n s := mkSLeaf (lcontrol n) (lbitmap n) (lhigh n) s (ltags n) (lkvs n).
Definition set_tags n t := mkSLeaf (lcontrol n) (lbitmap n) (lhigh n) (lsibling n) t (lkvs n).
Definition set_kvs n (k : list (sslot V)) := mkSLeaf (lcontrol n) (lbitmap n) (lhigh n) (lsibling n) (ltags n) k.

(** [kvs_[i].load]: a null pointer is [Some None], an indeterminate value [None] *)
Definition load_kv n (i : Z) : option (option (skvpair V)) :=
  let* s := aget (lkvs n) i in
  match s with SUndef => None | SNull => Some None | SPtr kv => Some (Some kv) end.

(** [kvs_[i].load()->]: a dereferenced slot must hold a valid pointer *)
Definition deref_kv n (i : Z) : option (skvpair V) := let* o := load_kv n i in o.

(** [kvs_[i].store(kv)] *)
Definition store_kv n (i : Z) (s : sslot V) : option (sleaf V) := set_kvs n <$> aset (lkvs n) i s.

(** [kvs_[i].exchange(s)]: what it returns, and the node *)
Definition exchange_kv n (i : Z) (s : sslot V) : option (option (skvpair V) * sleaf V) :=
  let* old := load_kv n i in let* n := store_kv n i s in Some (old, n).

Definition slot_of (o : option (skvpair V)) : sslot V :=
  match o with Some kv => SPtr kv | None => SNull end.

(** an access of the control word that can abort *)
Definition on_control n (f : Z -> option Z) : option (sleaf V) := set_control n <$> f (lcontrol n).
Definition update_version n : sleaf V := set_control n (Control.update_version (lcontrol n)).
(** the latch taken by a thread that meets no other: [None] if it would spin for ever *)
Definition latch_exclusive n : option (sleaf V) :=
  on_control n (fun c => fst <$> Control.latch_exclusive [(c, c)]).

(** FBTree/lnode.h:515-522 [compare_equal] *)
Definition compare_equal (p : list Z) (c : Z) : option Z :=
  if kNodeSize =? 64 then compare_equal_64 Config_kCmpMode p c
  else if kNodeSize =? 32 then compare_equal_32 Config_kCmpMode p c
  else if kNodeSize =? 16 then compare_equal_16 p c
  else None.

(** FBTree/lnode.h:524-531 [half_fill] *)
Definition half_fill : option Z :=
  if kNodeSize =? 64 then Some 0xFFFFFFFF
  else if kNodeSize =? 32 then Some 0xFFFF
  else if kNodeSize =? 16 then Some 0xFF
  else None.

(** FBTree/lnode.h:533-540 [full_idx] *)
Definition full_idx : option Z :=
  if kNodeSize =? 64 then Some (-1)
  else if kNodeSize =? 32 then Some 32
  else if kNodeSize =? 16 then Some 16
  else None.

(** FBTree/lnode.h:542-547 [bitmap]

    a shift by the width of the type is undefined *)
Definition bitmap (size : Z) : option Z :=
  if kNodeSize =? 64 then
    if size =? kNodeSize then Some (w64 (0 - 1))
    else assert* (0 <=? size) && (size <? 64) in Some (w64 (Z.shiftl 1 size - 1))
  else assert* (0 <=? size) && (size <? 64) in Some (w64 (Z.shiftl 1 size - 1)).

(** FBTree/lnode.h:604-604 [LeafNode]

    the tags are the bytes the allocation finds, the slots indeterminate *)
Definition LeafNode (raw_tags : list Z) : sleaf V :=
  mkSLeaf (Control.Control true) 0 None None raw_tags (replicate (Z.to_nat kNodeSize) SUndef).

(** FBTree/lnode.h:606-618 [~LeafNode]

    the key-value pairs destroyed and freed, in order, and the high key *)
Definition destroy n : option (list (skvpair V) * option anchor) :=
  let* r := for_mask (R := Empty_set) mask_fuel
    (fun idx freed => let* kv := deref_kv n idx in Some (inl (freed ++ [kv]))) (lbitmap n) [] in
  match r with
  | inl freed => Some (freed, if Control.has_sibling (lcontrol n) then lhigh n else None)
  | inr x => match x : Empty_set with end
  end.

(** FBTree/lnode.h:620-624 [sibling] *)
Definition sibling n : ptr :=
  if Control.has_sibling (lcontrol n) then lsibling n
  else if Control.deleted (lcontrol n) then lsibling n
  else None.

(** FBTree/lnode.h:626-634 [statistic]

    the increments of "index size", "anchor size", "leaf num" and "kv pair num" *)
Definition statistic (sizeof_LeafNode sizeof_String : Z) n (stat : Z * Z * Z * Z) : option (Z * Z * Z * Z) :=
  let '(size, anchors, leaves, kvs) := stat in
  let* high := if Control.has_sibling (lcontrol n)
               then let* a := lhigh n in Some (len (an_str a) + sizeof_String) else Some 0 in
  Some (size + sizeof_LeafNode + high, anchors + high, leaves + 1, kvs + popcount 64 (lbitmap n)).

(** [*high_key_ < key] *)
Definition high_below n key : option bool := let* a := lhigh n in String_lt (an_str a) key.

(** FBTree/lnode.h:655-682 [to_sibling]

    [parent] is the control word of the upper level; [Some None]: it returned false;
    [Some (Some next)]: true *)
Definition to_sibling n key (parent pver : Z) : option ptr :=
  if Control.deleted (lcontrol n) then
    assert* bool_decide (is_Some (lsibling n)) in Some (lsibling n)
  else if Control.is_splitting (lcontrol n) || negb (pver =? Control.load_version parent) then
    let* above := if Control.has_sibling (lcontrol n) then high_below n key else Some false in
    if (above : bool) then assert* bool_decide (is_Some (lsibling n)) in Some (lsibling n)
    else Some None
  else Some None.

(** [char tag = hash(key.str, key.len)] *)
Definition tag_of key : option Z := let* h := hash_string (str key) (len key) in Some (w8 h).

(** the candidates: used slots with the fingerprint of the key *)
Definition candidates n key : option Z :=
  let* tag := tag_of key in
  let* m := compare_equal (ltags n) tag in Some (Z.land (lbitmap n) m).

(** FBTree/lnode.h:685-698 [lookup] *)
Definition lookup n key : option (option (skvpair V)) :=
  let* mask := candidates n key in
  let* r := for_mask mask_fuel
    (fun idx (_ : unit) =>
       let* kv := load_kv n idx in
       match kv with
       | Some kv => let* eq := String_eq key (skv_key kv) in if (eq : bool) then Some (inr kv) else Some (inl tt)
       | None => Some (inl tt)
       end) mask tt in
  match r with inr kv => Some (Some kv) | inl _ => Some None end.

(** FBTree/lnode.h:701-730 [update]

    no other thread runs: the first compare-and-swap succeeds *)
Definition update n (kv : skvpair V) : option (option (skvpair V) * sleaf V) :=
  let* mask := candidates n (skv_key kv) in
  let* r := for_mask mask_fuel
    (fun idx (_ : unit) =>
       let* old := load_kv n idx in
       match old with
       | Some old =>
           let* eq := String_eq (skv_key kv) (skv_key old) in
           if (eq : bool) then let* n' := store_kv n idx (SPtr kv) in Some (inr (old, n')) else Some (inl tt)
       | None => Some (inl tt)
       end) mask tt in
  match r with inr (old, n') => Some (Some old, n') | inl _ => Some (None, n) end.

(** ** [upsert] *)

(** [*k1 < *k2], as [std::sort] and [std::upper_bound] use it: on strings that are in the
    memory it has a value *)
Definition string_less (a b : String) : bool := default false (String_lt a b).

(** [std::sort] by the strings; [upsert] and [kv_sort] sort distinct keys, so the order
    is the only one *)
Definition string_le {A} (key_of : A -> String) (a b : A) : Prop := string_less (key_of b) (key_of a) = false.
#[global] Instance string_le_dec {A} (key_of : A -> String) a b : Decision (string_le key_of a b).
Proof. unfold string_le. apply _. Defined.
Definition std_sort {A} (key_of : A -> String) (l : list A) : list A := merge_sort (string_le key_of) l.

(** FBTree/lnode.h:766-778 [upsert] *)
Definition sorted_keys n : option (list (String * Z)) :=
  let* keys := mapM (fun i => let* kv := deref_kv n i in Some (skv_key kv, i)) (seqZ 0 kNodeSize) in
  Some (std_sort fst keys).

(** FBTree/lnode.h:798-808 [upsert]

    one turn of the loop that moves the upper half: to slot [rid] of the new node;
    the last [lid] is the value of the variable after the loop *)
Definition move_one (keys : list (String * Z)) (rid : Z) (st : sleaf V * sleaf V * Z * Z)
    : option (sleaf V * sleaf V * Z * Z) :=
  let '(n, rn, mask, _) := st in
  let* (_, lid) := aget keys (kNodeSize / 2 + rid) in
  let mask := set_bit mask lid in
  let* tag := aget (ltags n) lid in
  let* rtags := aset (ltags rn) rid tag in
  let rn := set_tags rn rtags in
  let* (moved, n) := exchange_kv n lid SNull in
  let* rn := store_kv rn rid (slot_of moved) in
  Some (n, rn, mask, lid).

(** FBTree/lnode.h:797-808 [upsert] *)
Definition move_half (keys : list (String * Z)) n rn : option (sleaf V * sleaf V * Z * Z) :=
  for_range (move_one keys) 0 (kNodeSize - kNodeSize / 2) (n, rn, 0, 0).

(** FBTree/lnode.h:819-820 [upsert]

    [high_key_] becomes a new copy of the string, at the address [malloc] returned *)
Definition set_new_high n (haddr : Z) (high : String) : option (sleaf V) :=
  let* s := make_string (str high) (len high) in Some (set_high n (Some (mkAnchor haddr s))).

(** FBTree/lnode.h:796-829 [upsert]

    the normal split: the two nodes, whether the slot is in the new one, the slot *)
Definition split_half n rn (keys : list (String * Z)) (kv : skvpair V) (rnode haddr : Z)
    : option (sleaf V * sleaf V * bool * Z) :=
  let* (n, rn, mask, lid) := move_half keys n rn in
  let* half := half_fill in
  let rn := set_bitmap rn half in
  let rn := set_sibling_ rn (lsibling n) in
  let rn := set_high rn (lhigh n) in
  assert* (popcount 64 mask =? kNodeSize / 2) in
  let n := set_bitmap n (Z.ldiff (lbitmap n) mask) in
  assert* (popcount 64 (lbitmap n) =? kNodeSize / 2) in
  let n := set_sibling_ n (Some rnode) in
  let* (high, _) := aget keys (kNodeSize / 2 - 1) in
  let* n := set_new_high n haddr high in
  let* (n, rn) :=
    if negb (Control.has_sibling (lcontrol n))
    then let* n := on_control n Control.set_sibling in Some (n, rn)
    else let* rn := on_control rn Control.set_sibling in Some (n, rn) in
  let* above := high_below n (skv_key kv) in
  if (above : bool) then Some (n, rn, true, kNodeSize / 2)
  else Some (n, rn, false, lid).

(** FBTree/lnode.h:765-832 [upsert]

    a full node: the two nodes, whether the slot is in the new one, the slot *)
Definition split n (kv : skvpair V) (rnode haddr : Z) (raw_tags : list Z) : option (sleaf V * sleaf V * bool * Z) :=
  let* keys := sorted_keys n in
  let rn := LeafNode raw_tags in
  let* n := on_control n Control.begin_splitting in
  let* (back, _) := aget keys (kNodeSize - 1) in
  let* above := if negb (Control.has_sibling (lcontrol n)) then String_lt back (skv_key kv) else Some false in
  if (above : bool) then
    let n := set_sibling_ n (Some rnode) in
    let* n := set_new_high n haddr back in
    let* n := on_control n Control.set_sibling in
    Some (n, rn, true, 0)
  else split_half n rn keys kv rnode haddr.

(** FBTree/lnode.h:834-838 [upsert] *)
Definition insert_slot n (idx : Z) (kv : skvpair V) : option (sleaf V) :=
  assert* negb (Z.testbit (lbitmap n) idx) in
  let* n := store_kv n idx (SPtr kv) in
  let* tag := tag_of (skv_key kv) in
  let* tags := aset (ltags n) idx tag in
  let n := set_tags n tags in
  Some (set_bitmap n (set_bit (lbitmap n) idx)).

(** what [upsert] returns and leaves: the old pair, this node, the new node (at the address
    [malloc] returned) with the separator *)
Record upsert_result : Type := mkUpsert {
  u_old : option (skvpair V);
  u_this : sleaf V;
  u_rnode : option (sleaf V * option anchor);
}.

(** FBTree/lnode.h:740-751 [upsert]

    the key is in the node: its slot is exchanged *)
Definition exchange_existing n (kv : skvpair V) : option (option (option (skvpair V) * sleaf V)) :=
  let* mask := candidates n (skv_key kv) in
  let* r := for_mask mask_fuel
    (fun idx (_ : unit) =>
       let* old := deref_kv n idx in
       let* eq := String_eq (skv_key kv) (skv_key old) in
       if (eq : bool)
       then let* (latest, n') := exchange_kv n idx (SPtr kv) in Some (inr (latest, n'))
       else Some (inl tt)) mask tt in
  match r with inr x => Some (Some x) | inl _ => Some None end.

(** FBTree/lnode.h:733-841 [upsert]

    [haddr]: where the copy of the high key is made *)
Definition upsert n (kv : skvpair V) (rnode haddr : Z) (raw_tags : list Z) : option upsert_result :=
  let* found := exchange_existing n kv in
  match found with
  | Some (old, n) => Some (mkUpsert old n None)
  | None =>
      let n := update_version n in
      let* n := if Control.ordered (lcontrol n) then on_control n Control.clear_order
                else Some n in
      let idx := index_least0 64 (lbitmap n) in
      let* full := full_idx in
      if idx =? full then
        let* (n, rn, in_right, idx) := split n kv rnode haddr raw_tags in
        let mid := lhigh n in
        if (in_right : bool)
        then let* rn := insert_slot rn idx kv in Some (mkUpsert None n (Some (rn, mid)))
        else let* n := insert_slot n idx kv in Some (mkUpsert None n (Some (rn, mid)))
      else
        let* n := insert_slot n idx kv in Some (mkUpsert None n None)
  end.

(** ** [remove] and [merge] *)

(** FBTree/lnode.h:567-577 [merge] *)
Definition move_all n rn : option (sleaf V * sleaf V) :=
  let* r := for_mask (R := Empty_set) mask_fuel
    (fun ridx '((n, rn) : sleaf V * sleaf V) =>
       let lidx := index_least0 64 (lbitmap n) in
       let* tag := aget (ltags rn) ridx in
       let* tags := aset (ltags n) lidx tag in
       let n := set_tags n tags in
       let* (kv, rn) := exchange_kv rn ridx SNull in
       let* n := store_kv n lidx (slot_of kv) in
       let n := set_bitmap n (set_bit (lbitmap n) lidx) in
       Some (inl (n, rn))) (lbitmap rn) (n, rn) in
  match r with
  | inl (n, rn) => Some (n, set_bitmap rn 0)
  | inr x => match x : Empty_set with end
  end.

(** what [merge] leaves: this node, the sibling when it was latched, and the separator
    when the sibling was merged into this node *)
Record merge_result : Type := mkMerge {
  m_this : sleaf V;
  m_rnode : option (Z * sleaf V);
  m_merged : option (option anchor);
}.

Definition mergeable n rn : bool :=
  let lnkey := popcount 64 (lbitmap n) in
  let rnkey := popcount 64 (lbitmap rn) in
  (lnkey + rnkey <=? kMergeSize) || (lnkey =? 0).

(** FBTree/lnode.h:549-594 [merge]

    [mem] reads a node of the memory, [this] is the address of [n] *)
Definition merge (mem : Z -> option (sleaf V)) (this : Z) n : option merge_result :=
  if Control.has_sibling (lcontrol n) then
    let* raddr := lsibling n in
    let* rn := mem raddr in
    if mergeable n rn then
      let* rn := latch_exclusive rn in
      let* (n, rn, merged) :=
        if mergeable n rn then
          let mid := lhigh n in
          let* (n, rn) := move_all n rn in
          let n := set_high n (lhigh rn) in
          let n := set_sibling_ n (lsibling rn) in
          let rn := set_sibling_ rn (Some this) in
          let* n := if negb (Control.has_sibling (lcontrol rn))
                    then on_control n Control.clear_sibling else Some n in
          let* rn := on_control rn Control.set_delete in
          Some (n, update_version rn, Some mid)
        else Some (n, rn, None) in
      let* rn := on_control rn Control.unlatch_exclusive in
      Some (mkMerge n (Some (raddr, rn)) merged)
    else Some (mkMerge n None None)
  else Some (mkMerge n None None).

(** FBTree/lnode.h:844-871 [remove] *)
Definition remove (mem : Z -> option (sleaf V)) (this : Z) n key
    : option (option (skvpair V) * merge_result) :=
  let* mask := candidates n key in
  let* r := for_mask mask_fuel
    (fun idx (_ : unit) =>
       let* kv := deref_kv n idx in
       let* eq := String_eq (skv_key kv) key in
       if (eq : bool) then
         let n := update_version n in
         let n := set_bitmap n (clear_bit (lbitmap n) idx) in
         let* (kv, n) := exchange_kv n idx SNull in
         let* m := merge mem this n in
         let* n := if Control.ordered (lcontrol (m_this m))
                   then on_control (m_this m) Control.clear_order else Some (m_this m) in
         Some (inr (kv, mkMerge n (m_rnode m) (m_merged m)))
       else Some (inl tt)) mask tt in
  match r with inr x => Some x | inl _ => Some (None, mkMerge n None None) end.

(** ** The ordered view *)

(** FBTree/lnode.h:881-889 [kv_sort] *)
Definition take_all n : option (list (skvpair V * Z) * sleaf V) :=
  let* r := for_mask (R := Empty_set) mask_fuel
    (fun idx '((keys, n) : list (skvpair V * Z) * sleaf V) =>
       let* (kv, n) := exchange_kv n idx SNull in
       let* kv := kv in
       Some (inl (keys ++ [(kv, idx)], n))) (lbitmap n) ([], n) in
  match r with inl x => Some x | inr x => match x : Empty_set with end end.

(** FBTree/lnode.h:897-901 [kv_sort]

    [tags] is the local array, [idx] the next slot *)
Fixpoint put_all (keys : list (skvpair V * Z)) (idx : Z) (tags : list Z) n : option (list Z * sleaf V) :=
  match keys with
  | [] => Some (tags, n)
  | (kv, pos) :: keys =>
      let* tag := aget (ltags n) pos in
      let* tags := aset tags idx tag in
      let* n := store_kv n idx (SPtr kv) in
      put_all keys (idx + 1) tags n
  end.

(** FBTree/lnode.h:876-908 [kv_sort]

    [raw_tags]: the uninitialised local array *)
Definition kv_sort n (raw_tags : list Z) : option (sleaf V) :=
  if negb (Control.ordered (lcontrol n)) then
    let* (keys, n) := take_all n in
    let keys := std_sort (fun k => skv_key k.1) keys in
    let* (tags, n) := put_all keys 0 raw_tags n in
    let n := set_tags n tags in
    let* b := bitmap (Z.of_nat (length keys)) in
    let n := set_bitmap n b in
    let* n := on_control n Control.set_order in
    Some (update_version n)
  else Some n.

(** [std::upper_bound] of a sorted range: the index of the first greater key *)
Fixpoint upper_index (keys : list String) key : Z :=
  match keys with
  | [] => 0
  | k :: keys => if string_less key k then 0 else 1 + upper_index keys key
  end.

(** FBTree/lnode.h:934-941 [bound]

    the keys of the first [nkey] slots; [None] inside: a null pointer was met *)
Definition first_keys n (nkey : Z) : option (option (list String)) :=
  foldr (fun kid (k : list String -> option (option (list String))) keys =>
    let* kv := load_kv n kid in
    match kv with
    | None => Some None
    | Some kv => k (keys ++ [skv_key kv])
    end) (fun keys => Some (Some keys)) (seqZ 0 nkey) [].

(** FBTree/lnode.h:910-952 [bound]

    line 924 builds the pair it means to return and drops it *)
Definition bound n key (upper : bool) : option (option (skvpair V) * Z) :=
  let nkey := popcount 64 (lbitmap n) in
  let* mask := candidates n key in
  let* r := for_mask mask_fuel
    (fun idx (_ : unit) =>
       let* kv := load_kv n idx in
       match kv with
       | Some kv =>
           let* eq := String_eq key (skv_key kv) in
           if (eq : bool) then
             if upper then let* kv := load_kv n (idx + 1) in Some (inr (kv, idx + 1))
             else Some (inr (Some kv, idx))
           else Some (inl tt)
       | None => Some (inl tt)
       end) mask tt in
  match r with
  | inr x => Some x
  | inl _ =>
      let* keys := first_keys n nkey in
      match keys with
      | None => Some (None, 0)
      | Some keys =>
          let kid := upper_index keys key in
          if nkey <=? kid then Some (None, 0)
          else let* kv := load_kv n kid in Some (kv, kid)
      end
  end.

(** FBTree/lnode.h:596-601 [access] *)
Definition access_pos n (pos : Z) : option (option (skvpair V)) :=
  if (pos <? 0) || (kNodeSize <=? pos) then Some None
  else
    let mask := Z.shiftl 1 pos in
    if Z.land mask (lbitmap n) =? 0 then Some None
    else load_kv n pos.

(** FBTree/lnode.h:954-976 [access] *)
Definition access n (kv : option (skvpair V)) (pos version : Z) (raw_tags : list Z)
    : option (option (skvpair V) * Z * Z * sleaf V) :=
  let slow :=
    let* n := latch_exclusive n in
    let* n := kv_sort n raw_tags in
    let* (next, pos) :=
      match kv with
      | Some kv => bound n (skv_key kv) true
      | None => let* next := access_pos n pos in Some (next, pos)
      end in
    let version := Control.load_version (lcontrol n) in
    let* n := on_control n Control.unlatch_exclusive in
    Some (next, pos, version, n) in
  if Control.ordered (lcontrol n) then
    let* next := access_pos n pos in
    let* (valid, _) := Control.end_read [lcontrol n] version in
    if (valid : bool) then Some (next, pos, version, n) else slow
  else slow.

(** FBTree/lnode.h:636-653 [exhibit]

    the keys that the debugging output prints *)
Definition exhibit n : option (list String) :=
  let* r := for_mask (R := Empty_set) mask_fuel
    (fun idx keys => let* kv := deref_kv n idx in Some (inl (keys ++ [skv_key kv]))) (lbitmap n) [] in
  match r with
  | inl keys => Some (std_sort id keys)
  | inr x => match x : Empty_set with end
  end.
End sleaf.
End SLeaf.
