(* ===== verification/SLeafSim.v ===== *)
(** * The string leaf simulates the integer leaf

    A leaf with string keys is read as a leaf whose keys are the numbers of the strings
    ([Rank]). Every operation of [SLeaf] then does what the operation of [Leaf] does over
    the key code [string_code]: the two programs commute with the reading. *)

From S2P Require Import Prelude Bits Simd Strings Encode Control HashBytes HashProps Rank Leaf LeafSpec SInner SLeaf.

#[local] Opaque for_mask mask_fuel City.city_hash64.

(** ** Programs that commute with a map of their states *)

Lemma sim_bind {A A' B B'} (p : A -> A') (q : B -> B') (o : option A) (o' : option A') g g' :
  p <$> o = o' -> (forall a, o = Some a -> q <$> g a = g' (p a)) -> q <$> (o ≫= g) = o' ≫= g'.
Proof. intros <- H. destruct o as [a|]; [|done]. cbn. by apply H. Qed.

(** the first part of the program is the same on both sides *)
Lemma sim_bind_same {A B B'} (q : B -> B') (o o' : option A) g g' :
  o = o' -> (forall a, q <$> g a = g' a) -> q <$> (o ≫= g) = o' ≫= g'.
Proof. intros <- H. destruct o as [a|]; [|done]. cbn. by apply H. Qed.

Lemma sim_if {B B'} (q : B -> B') (b b' : bool) (x y : option B) x' y' :
  b = b' -> (b' = true -> q <$> x = x') -> (b' = false -> q <$> y = y') ->
  q <$> (if b then x else y) = if b' then x' else y'.
Proof. intros -> H1 H2. destruct b'; auto. Qed.

Lemma for_mask_map {St St' R R'} (p : St -> St') (q : R -> R') body body' fuel mask s :
  (forall i s, sum_map p q <$> body i s = body' i (p s)) ->
  sum_map p q <$> for_mask fuel body mask s = for_mask fuel body' mask (p s).
Proof.
  intros Hb. revert mask s. induction fuel as [|fuel IH]; intros mask s; [done|].
  cbn [for_mask]. destruct (mask =? 0); [done|]. eapply sim_bind; [apply Hb|].
  intros [s'|r] _; cbn; [apply IH|done].
Qed.

(** what the turns of such a loop keep *)
Lemma for_mask_post {St R} (P : St -> Prop) (body : Z -> St -> option (St + R)) fuel mask s s' :
  (forall i s s', P s -> body i s = Some (inl s') -> P s') ->
  P s -> for_mask fuel body mask s = Some (inl s') -> P s'.
Proof.
  intros Hb. revert mask s. induction fuel as [|fuel IH]; intros mask s Hs; [done|].
  cbn [for_mask]. destruct (mask =? 0); [by intros [= <-]|].
  destruct (body _ s) as [[s1|]|] eqn:E; cbn; [|done..]. apply IH. by eapply Hb.
Qed.

Lemma for_range_map {St St'} (p : St -> St') body body' lo n s :
  (forall i s, p <$> body i s = body' i (p s)) ->
  p <$> for_range body lo n s = for_range body' lo n (p s).
Proof.
  intros Hb. unfold for_range. change (Some (p s)) with (p <$> Some s). generalize (Some s).
  induction (seqZ lo n) as [|i l IH]; intros o; [done|]. cbn [foldl]. rewrite IH. f_equal.
  eapply sim_bind; [done|]. intros a _. apply Hb.
Qed.

Lemma mapM_map {A B B'} (q : B -> B') (f : A -> option B) (f' : A -> option B') l :
  (forall x, q <$> f x = f' x) -> fmap q <$> mapM f l = mapM f' l.
Proof.
  intros H. induction l as [|x l IH]; [done|]. cbn [mapM].
  eapply sim_bind; [apply H|]. intros y _. eapply sim_bind; [exact IH|]. done.
Qed.

Section arrays.
Context {A A' : Type} (f : A -> A').

Lemma aget_fmap l i : f <$> aget l i = aget (f <$> l) i.
Proof. unfold aget. destruct (i <? 0); [done|]. by rewrite list_lookup_fmap. Qed.

Lemma aset_fmap l i x : fmap (M := list) f <$> aset l i x = aset (f <$> l) i (f x).
Proof.
  unfold aset. rewrite length_fmap. destruct (_ && _); [|done]. cbn. by rewrite list_fmap_insert.
Qed.
End arrays.

(** ** Sorting commutes with a map that keeps the order *)

Section sorting.
Context {A B : Type} (f : A -> B) (P : A -> Prop).
Context (R : relation A) (Q : relation B) `{!RelDecision R, !RelDecision Q}.
Context (Hf : forall x y, P x -> P y -> R x y <-> Q (f x) (f y)).

Lemma list_merge_fmap l1 : forall l2, Forall P l1 -> Forall P l2 ->
  list_merge Q (f <$> l1) (f <$> l2) = f <$> list_merge R l1 l2.
Proof.
  induction l1 as [|x l1 IH1]; intros l2 H1 H2; [by destruct l2|].
  induction l2 as [|y l2 IH2]; [done|]. cbn [fmap list_fmap]. rewrite !list_merge_cons.
  pose proof (proj1 (Forall_cons _ _ _) H1) as [Hx Hl1]. pose proof (proj1 (Forall_cons _ _ _) H2) as [Hy Hl2].
  pose proof (Hf x y Hx Hy). destruct (decide (R x y)), (decide (Q (f x) (f y))); [|tauto|tauto|]; cbn; f_equal.
  - by apply (IH1 (y :: l2)).
  - by apply IH2.
Qed.

Definition stack_map : option (list A) -> option (list B) := fmap (M := option) (fmap (M := list) f).
Definition stack_ok (st : list (option (list A))) : Prop := Forall (fun o => forall l, o = Some l -> Forall P l) st.

Lemma merge_stack_fmap st : stack_ok st ->
  Forall P (merge_stack R st) /\ merge_stack Q (stack_map <$> st) = f <$> merge_stack R st.
Proof.
  induction st as [|[l|] st IH]; intros Hs; [done| |]; apply Forall_cons in Hs as [Hl Hs];
    destruct (IH Hs) as [Hm E]; cbn [merge_stack fmap list_fmap option_fmap option_map]; [|done].
  cbn. rewrite E. split; [rewrite merge_Permutation; apply Forall_app; auto|by apply list_merge_fmap; auto].
Qed.

Lemma merge_list_to_stack_fmap st l : stack_ok st -> Forall P l ->
  stack_ok (merge_list_to_stack R st l)
  /\ merge_list_to_stack Q (stack_map <$> st) (f <$> l) = stack_map <$> merge_list_to_stack R st l.
Proof.
  revert l. induction st as [|[l'|] st IH]; intros l Hs Hl; cbn.
  - split; [|done]. apply Forall_singleton. by intros ? [= <-].
  - apply Forall_cons in Hs as [Hl' Hs]. rewrite list_merge_fmap by auto.
    destruct (IH (list_merge R l' l) Hs) as [H ->]; [rewrite merge_Permutation; apply Forall_app; auto|].
    split; [|done]. by apply Forall_cons.
  - apply Forall_cons in Hs as [_ Hs]. split; [|done]. apply Forall_cons. split; [by intros ? [= <-]|done].
Qed.

Lemma merge_sort_fmap l : Forall P l -> merge_sort Q (f <$> l) = f <$> merge_sort R l.
Proof.
  intros Hl. unfold merge_sort. change (@nil (option (list B))) with (stack_map <$> []).
  assert (stack_ok []) as Hst by constructor. revert Hst. generalize (@nil (option (list A))).
  induction l as [|x l IH]; intros st Hst; cbn [merge_sort_aux fmap list_fmap].
  - by apply merge_stack_fmap.
  - apply Forall_cons in Hl as [Hx Hl].
    destruct (merge_list_to_stack_fmap st [x] Hst) as [H E]; [by apply Forall_singleton|].
    cbn in E. rewrite E. by apply IH.
Qed.
End sorting.

(** ** The reading of a string leaf *)

(** what [Leaf] needs to know of string keys of at most [N] bytes *)
Definition string_code (N : nat) : kcode :=
  KCode (kLeafSize Constant_String) (kLeafMergeSize Constant_String)
    (fun z => w8 (default 0 (hash_string (unrank N z) (Z.of_nat (length (unrank N z)))))) id
    (fun z => 0 <= z < 257 ^ Z.of_nat N).

#[global] Instance string_code_ok N : CodeOk (string_code N).
Proof.
  split; [done|done| |].
  - intros z. unfold is_byte, string_code, kc_tag. apply Z.mod_pos_bound. done.
  - pose proof (pow257_pos N). cbn. lia.
Qed.

Section sim.
Context {V : Type} (N : nat) (HN : Z.of_nat N < 2 ^ 64).
Implicit Types (n rn : sleaf V) (kv : skvpair V) (key : String) (i : Z).
Notation C := (string_code N).

(** a string of the type, of at most [N] bytes, and its number *)
Definition skey_ok key : Prop := str_ok key /\ short_key N (str key).
Definition num key : Z := rank N (str key).

(** the pair keeps its address; the value becomes the pair itself *)
Definition kv_num kv : kvpair (skvpair V) := mkKV (skv_addr kv) (num (skv_key kv)) kv.
Definition opt_num (o : option (skvpair V)) : option (kvpair (skvpair V)) := kv_num <$> o.
Definition slot_num (s : sslot V) : slot (skvpair V) :=
  match s with SUndef => Undef | SNull => Null | SPtr kv => Ptr (kv_num kv) end.
Definition high_num (a : option anchor) : Z := match a with Some a => num (an_str a) | None => 0 end.
Definition leaf_num n : leaf (skvpair V) :=
  mkLeaf (lcontrol n) (lbitmap n) (high_num (lhigh n)) (lsibling n) (ltags n) (slot_num <$> lkvs n).

Lemma skey_range key : skey_ok key -> 0 <= num key < 257 ^ Z.of_nat N.
Proof. intros [_ H]. by apply rank_range. Qed.

Lemma num_inj a b : skey_ok a -> skey_ok b -> num a = num b -> str a = str b.
Proof. intros [_ Ha] [_ Hb]. by apply rank_inj. Qed.

Lemma skey_lt a b : skey_ok a -> skey_ok b -> String_lt a b = Some (num a <? num b).
Proof.
  intros [Ha Ha'] [Hb Hb']. destruct (String_operators a b Ha Hb) as (-> & _). f_equal.
  pose proof (rank_lt N (str a) (str b) Ha' Hb') as H. unfold num.
  case_bool_decide; symmetry; [apply Z.ltb_lt|apply Z.ltb_ge]; [tauto|]. apply Z.nlt_ge. tauto.
Qed.

Lemma skey_eq a b : skey_ok a -> skey_ok b -> String_eq a b = Some (num a =? num b).
Proof.
  intros [Ha Ha'] [Hb Hb']. destruct (String_operators a b Ha Hb) as (_ & _ & -> & _). f_equal.
  pose proof (rank_inj N (str a) (str b) Ha' Hb') as H. unfold num.
  case_bool_decide as E; symmetry; [by rewrite E, Z.eqb_refl|apply Z.eqb_neq]. tauto.
Qed.

Lemma skey_less a b : skey_ok a -> skey_ok b -> SLeaf.string_less a b = (num a <? num b).
Proof. intros Ha Hb. unfold SLeaf.string_less. by rewrite skey_lt. Qed.

Lemma tag_of_num key : skey_ok key -> SLeaf.tag_of key = Some (kc_tag C (num key)).
Proof.
  intros [Hl [Hs Hb]]. unfold SLeaf.tag_of, string_code, kc_tag, num. unfold str_ok in Hl.
  rewrite unrank_rank by done. rewrite Hl.
  destruct (reads_city_hash64 (Z.of_nat (length (str key))) ltac:(lia) (str key)) as (h & E & _); [lia|].
  unfold hash_string. by rewrite E.
Qed.

Lemma candidates_num n key : skey_ok key -> SLeaf.candidates n key = Leaf.candidates C (leaf_num n) (num key).
Proof. intros Hk. unfold SLeaf.candidates. by rewrite tag_of_num. Qed.

(** ** The slots *)

Lemma load_kv_num n i : opt_num <$> SLeaf.load_kv n i = Leaf.load_kv (leaf_num n) i.
Proof.
  unfold SLeaf.load_kv, Leaf.load_kv. cbn [kvs_ leaf_num]. rewrite <- aget_fmap.
  by destruct (aget (lkvs n) i) as [[]|].
Qed.

Lemma deref_kv_num n i : kv_num <$> SLeaf.deref_kv n i = Leaf.deref_kv (leaf_num n) i.
Proof.
  unfold SLeaf.deref_kv, Leaf.deref_kv. rewrite <- load_kv_num. by destruct (SLeaf.load_kv n i) as [[]|].
Qed.

Lemma store_kv_num n i s : leaf_num <$> SLeaf.store_kv n i s = Leaf.store_kv (leaf_num n) i (slot_num s).
Proof.
  unfold SLeaf.store_kv, Leaf.store_kv. cbn [kvs_ leaf_num]. rewrite <- aset_fmap.
  by destruct (aset (lkvs n) i s).
Qed.

Lemma exchange_kv_num n i s :
  prod_map opt_num leaf_num <$> SLeaf.exchange_kv n i s = Leaf.exchange_kv (leaf_num n) i (slot_num s).
Proof.
  eapply sim_bind; [apply load_kv_num|]. intros o _. eapply sim_bind; [apply store_kv_num|]. done.
Qed.

Lemma slot_of_num o : slot_num (SLeaf.slot_of o) = Leaf.slot_of (opt_num o).
Proof. by destruct o. Qed.

Lemma on_control_num n g : leaf_num <$> SLeaf.on_control n g = Leaf.on_control (leaf_num n) g.
Proof. unfold SLeaf.on_control, Leaf.on_control. cbn [control_ leaf_num]. by destruct (g (lcontrol n)). Qed.

Lemma clear_order_num n :
  leaf_num <$> (if Control.ordered (lcontrol n) then SLeaf.on_control n Control.clear_order else Some n)
  = (if Control.ordered (control_ (leaf_num n)) then Leaf.on_control (leaf_num n) Control.clear_order
     else Some (leaf_num n)).
Proof. apply sim_if; [done|intros _; apply on_control_num|done]. Qed.

(** all the keys in the slots are such strings *)
Definition keys_ok n : Prop := forall i kv, aget (lkvs n) i = Some (SPtr kv) -> skey_ok (skv_key kv).

Lemma load_key_ok n i kv : keys_ok n -> SLeaf.load_kv n i = Some (Some kv) -> skey_ok (skv_key kv).
Proof.
  intros Hn. unfold SLeaf.load_kv. destruct (aget (lkvs n) i) as [[]|] eqn:E; cbn; try done.
  intros [= <-]. by eapply Hn.
Qed.

Lemma deref_key_ok n i kv : keys_ok n -> SLeaf.deref_kv n i = Some kv -> skey_ok (skv_key kv).
Proof.
  intros Hn. unfold SLeaf.deref_kv. destruct (SLeaf.load_kv n i) as [[]|] eqn:E; cbn; try done.
  intros [= <-]. by eapply load_key_ok.
Qed.

(** ** [lookup], [update] *)

Lemma lookup_num n key :
  keys_ok n -> skey_ok key -> opt_num <$> SLeaf.lookup n key = Leaf.lookup C (leaf_num n) (num key).
Proof.
  intros Hn Hk. eapply sim_bind_same; [by apply candidates_num|]. intros mask.
  eapply sim_bind with (p := sum_map id kv_num); [|by intros [] _].
  apply (for_mask_map id). intros i []. eapply sim_bind; [apply load_kv_num|].
  intros [kv|] E; [|done]. rewrite skey_eq by (try done; by eapply load_key_ok).
  cbn. by destruct (_ =? _).
Qed.

Lemma update_num n kv :
  keys_ok n -> skey_ok (skv_key kv) ->
  prod_map opt_num leaf_num <$> SLeaf.update n kv = Leaf.update C (leaf_num n) (kv_num kv).
Proof.
  intros Hn Hk. eapply sim_bind_same; [by apply candidates_num|]. intros mask.
  eapply sim_bind with (p := sum_map id (prod_map kv_num leaf_num)); [|by intros [|[]] _].
  apply (for_mask_map id). intros i []. eapply sim_bind; [apply load_kv_num|].
  intros [old|] E; [|done]. rewrite skey_eq by (try done; by eapply load_key_ok).
  cbn. apply sim_if; [done|intros _|done]. eapply sim_bind; [apply store_kv_num|done].
Qed.

(** ** [upsert] *)

Lemma insert_slot_num n i kv :
  skey_ok (skv_key kv) -> leaf_num <$> SLeaf.insert_slot n i kv = Leaf.insert_slot C (leaf_num n) i (kv_num kv).
Proof.
  intros Hk. unfold SLeaf.insert_slot, Leaf.insert_slot. cbn [bitmap_ leaf_num].
  destruct (negb _); [|done]. cbn [asserting]. eapply sim_bind; [apply (store_kv_num n i (SPtr kv))|].
  intros n' _. rewrite tag_of_num, bind_Some by done. eapply sim_bind_same; [done|]. done.
Qed.

Lemma exchange_existing_num n kv :
  keys_ok n -> skey_ok (skv_key kv) ->
  fmap (M := option) (prod_map opt_num leaf_num) <$> SLeaf.exchange_existing n kv
  = Leaf.exchange_existing C (leaf_num n) (kv_num kv).
Proof.
  intros Hn Hk. eapply sim_bind_same; [by apply candidates_num|]. intros mask.
  eapply sim_bind with (p := sum_map id (prod_map opt_num leaf_num)); [|by intros [] _].
  apply (for_mask_map id). intros i []. eapply sim_bind; [apply deref_kv_num|].
  intros old E. rewrite skey_eq by (try done; by eapply deref_key_ok). cbn.
  apply sim_if; [done|intros _|done]. eapply sim_bind; [apply (exchange_kv_num n i (SPtr kv))|by intros [] _].
Qed.

Definition pos_num (k : String * Z) : Z * Z := (num k.1, k.2).
Definition keyed (k : String * Z) : Prop := skey_ok k.1.

Lemma std_sort_num {A B} (g : A -> B) (key_of : A -> String) (key_of' : B -> Z) l :
  Forall (fun x => skey_ok (key_of x) /\ key_of' (g x) = num (key_of x)) l ->
  g <$> SLeaf.std_sort key_of l = Leaf.std_sort key_of' (g <$> l).
Proof.
  intros Hl. symmetry. eapply merge_sort_fmap; [|exact Hl].
  intros x y [Hx Ex] [Hy Ey]. unfold SLeaf.string_le, Leaf.pair_le. rewrite skey_less, Ex, Ey by done.
  rewrite Z.ltb_ge. lia.
Qed.

Lemma sorted_keys_num n : keys_ok n ->
  fmap (M := list) pos_num <$> SLeaf.sorted_keys n = Leaf.sorted_keys C (leaf_num n)
  /\ (forall keys, SLeaf.sorted_keys n = Some keys -> Forall keyed keys).
Proof.
  intros Hn. unfold SLeaf.sorted_keys, Leaf.sorted_keys. set (f := fun i : Z => _).
  assert (forall l keys, mapM f l = Some keys -> Forall keyed keys) as Hok.
  { induction l as [|i l IH]; cbn [mapM]; intros keys; [by intros [= <-]|].
    destruct (f i) as [[k j]|] eqn:Ef; [cbn|done]. destruct (mapM f l) as [ks|] eqn:Ek; [cbn|done]. intros [= <-].
    subst f. cbv beta in Ef. destruct (SLeaf.deref_kv n i) as [kv|] eqn:E; [cbn in Ef|done]. injection Ef as <- <-.
    apply Forall_cons. split; [by eapply deref_key_ok|by apply IH]. }
  split.
  - eapply sim_bind.
    + apply (mapM_map pos_num). intros i. subst f. cbv beta. eapply sim_bind; [apply deref_kv_num|done].
    + intros keys E%Hok. cbn. f_equal. apply std_sort_num. eapply Forall_impl; [exact E|done].
  - intros keys. destruct (mapM f _) as [l|] eqn:E; [cbn|done]. intros [= <-]. apply Hok in E. unfold SLeaf.std_sort. by rewrite merge_sort_Permutation.
Qed.

(** the states of the loop that moves half of the node, and of the split *)
Definition half_num (st : sleaf V * sleaf V * Z * Z) : leaf (skvpair V) * leaf (skvpair V) * Z * Z :=
  let '(n, rn, m, i) := st in (leaf_num n, leaf_num rn, m, i).
Definition split_num (st : sleaf V * sleaf V * bool * Z) : leaf (skvpair V) * leaf (skvpair V) * bool * Z :=
  let '(n, rn, r, i) := st in (leaf_num n, leaf_num rn, r, i).

Lemma move_half_num keys n rn :
  half_num <$> SLeaf.move_half keys n rn = Leaf.move_half C (pos_num <$> keys) (leaf_num n) (leaf_num rn).
Proof.
  apply (for_range_map half_num). intros r [[[n' rn'] m] lid]. unfold SLeaf.move_one, Leaf.move_one. cbn [half_num].
  change (Leaf.kNodeSize C) with SLeaf.kNodeSize.
  eapply sim_bind; [apply aget_fmap|]. intros [k i] _. cbn [pos_num fst snd].
  eapply sim_bind_same; [done|]. intros tag. eapply sim_bind_same; [done|]. intros tags.
  eapply sim_bind; [apply exchange_kv_num|]. intros [old n2] _. cbn [prod_map].
  rewrite <- slot_of_num. eapply sim_bind; [apply store_kv_num|done].
Qed.

Lemma set_new_high_num n haddr key : skey_ok key ->
  exists n', SLeaf.set_new_high n haddr key = Some n' /\ leaf_num n' = Leaf.set_high (leaf_num n) (num key)
    /\ lhigh n' = Some (mkAnchor haddr key) /\ lcontrol n' = lcontrol n.
Proof.
  intros [Hl _]. unfold SLeaf.set_new_high, make_string. unfold str_ok in Hl. rewrite Hl.
  btrue ((0 <=? Z.of_nat (length (str key))) && (Z.of_nat (length (str key)) <=? Z.of_nat (length (str key)))).
  cbn. rewrite Nat2Z.id, take_ge by lia. rewrite <- Hl. eexists. split; [done|]. by destruct key.
Qed.

Lemma high_below_num n a key :
  lhigh n = Some a -> skey_ok (an_str a) -> skey_ok key ->
  SLeaf.high_below n key = Some (high_key_ (leaf_num n) <? num key).
Proof. intros E Ha Hk. unfold SLeaf.high_below. cbn [high_key_ leaf_num]. rewrite E. by apply skey_lt. Qed.

Lemma LeafNode_num raw : leaf_num (SLeaf.LeafNode raw) = Leaf.LeafNode C raw.
Proof.
  unfold leaf_num, SLeaf.LeafNode. cbn [lcontrol lbitmap lhigh lsibling ltags lkvs]. by rewrite fmap_replicate.
Qed.

(** the end of a split: the flag of the sibling, and the side of the new pair *)
Lemma split_end_num n rn a lid kv :
  lhigh n = Some a -> skey_ok (an_str a) -> skey_ok (skv_key kv) ->
  split_num <$>
    (let* (n, rn) :=
       if negb (Control.has_sibling (lcontrol n))
       then let* n := SLeaf.on_control n Control.set_sibling in Some (n, rn)
       else let* rn := SLeaf.on_control rn Control.set_sibling in Some (n, rn) in
     let* above := SLeaf.high_below n (skv_key kv) in
     if (above : bool) then Some (n, rn, true, SLeaf.kNodeSize / 2) else Some (n, rn, false, lid)
     : option (sleaf V * sleaf V * bool * Z))
  = (let* (m, rm) :=
       if negb (Control.has_sibling (control_ (leaf_num n)))
       then let* m := Leaf.on_control (leaf_num n) Control.set_sibling in Some (m, leaf_num rn)
       else let* rm := Leaf.on_control (leaf_num rn) Control.set_sibling in Some (leaf_num n, rm) in
     if high_key_ m <? num (skv_key kv) then Some (m, rm, true, SLeaf.kNodeSize / 2) else Some (m, rm, false, lid)).
Proof.
  intros Ha Hs Hk. eapply (sim_bind (prod_map leaf_num leaf_num)).
  - apply sim_if; [done|intros _..]; (eapply sim_bind; [apply on_control_num|done]).
  - intros [n1 rn1] E. assert (lhigh n1 = Some a) as Ha1.
    { unfold SLeaf.on_control in E. destruct (negb _), (Control.set_sibling _); cbn in E; try done; by injection E as <- _. }
    rewrite (high_below_num n1 a) by done. cbn [prod_map]. rewrite bind_Some. by destruct (_ <? _).
Qed.

Lemma split_half_num n rn keys kv rnode haddr :
  Forall keyed keys -> skey_ok (skv_key kv) ->
  split_num <$> SLeaf.split_half n rn keys kv rnode haddr
  = Leaf.split_half C (leaf_num n) (leaf_num rn) (pos_num <$> keys) (kv_num kv) rnode.
Proof.
  intros Hkeys Hk. unfold SLeaf.split_half, Leaf.split_half. change (Leaf.kNodeSize C) with SLeaf.kNodeSize.
  eapply sim_bind; [apply move_half_num|]. intros [[[n1 rn1] mask] lid] _. cbn [half_num].
  eapply sim_bind_same; [done|]. intros half. cbv zeta.
  destruct (popcount 64 mask =? _); [cbn [asserting]|done].
  change (bitmap_ (leaf_num n1)) with (lbitmap n1).
  change (popcount 64 (bitmap_ _)) with (popcount 64 (Z.ldiff (lbitmap n1) mask)).
  change (popcount 64 (lbitmap (_ _ _))) with (popcount 64 (Z.ldiff (lbitmap n1) mask)).
  destruct (popcount 64 (Z.ldiff _ _) =? _); [cbn [asserting]|done].
  eapply sim_bind; [apply aget_fmap|]. intros [high j] Hj. cbn [pos_num fst snd].
  assert (skey_ok high) as Hh.
  { apply aget_Some in Hj as [_ Hj]. rewrite Forall_lookup in Hkeys. exact (Hkeys _ _ Hj). }
  match goal with |- context [SLeaf.set_new_high ?m _ _] =>
    destruct (set_new_high_num m haddr high Hh) as (n2 & -> & E2 & Ea & Ec) end.
  rewrite bind_Some. etransitivity; [by eapply split_end_num|]. rewrite E2. reflexivity.
Qed.

(** after [begin_splitting], which the integer leaf does not have, the split is the same *)
Lemma split_num_eq n kv rnode haddr raw c :
  keys_ok n -> skey_ok (skv_key kv) -> Control.begin_splitting (lcontrol n) = Some c ->
  split_num <$> SLeaf.split n kv rnode haddr raw
  = Leaf.split C (Leaf.set_control (leaf_num n) c) (kv_num kv) rnode raw.
Proof.
  intros Hn Hk Hc. destruct (sorted_keys_num n Hn) as [E Hok]. unfold SLeaf.split, Leaf.split.
  change (Leaf.sorted_keys C (Leaf.set_control (leaf_num n) c)) with (Leaf.sorted_keys C (leaf_num n)).
  eapply sim_bind; [exact E|]. intros keys Hkeys%Hok.
  assert (SLeaf.on_control n Control.begin_splitting = Some (SLeaf.set_control n c)) as ->
    by (unfold SLeaf.on_control; by rewrite Hc).
  rewrite bind_Some.
  change (Leaf.kNodeSize C) with SLeaf.kNodeSize.
  eapply sim_bind; [apply aget_fmap|]. intros [back j] Hj. cbn [pos_num fst snd].
  assert (skey_ok back) as Hb.
  { apply aget_Some in Hj as [_ Hj]. rewrite Forall_lookup in Hkeys. exact (Hkeys _ _ Hj). }
  rewrite skey_lt by done. cbn [lcontrol SLeaf.set_control control_ Leaf.set_control].
  destruct (negb (Control.has_sibling c)) eqn:Ens; cbn [andb]; rewrite bind_Some.
  - change (kv_key (kv_num kv)) with (num (skv_key kv)). apply sim_if; [done|intros _..].
    + match goal with |- context [SLeaf.set_new_high ?m _ _] =>
        destruct (set_new_high_num m haddr back Hb) as (n2 & -> & E2 & _ & _) end.
      rewrite bind_Some. eapply (sim_bind leaf_num).
      { etransitivity; [apply on_control_num|by rewrite E2]. }
      intros n3 _. cbn [fmap option_fmap option_map split_num]. by rewrite LeafNode_num.
    + rewrite <- LeafNode_num. by apply (split_half_num (SLeaf.set_control n c)).
  - rewrite <- LeafNode_num. by apply (split_half_num (SLeaf.set_control n c)).
Qed.

Definition upsert_res_num (r : SLeaf.upsert_result) : Leaf.upsert_result :=
  Leaf.mkUpsert (opt_num (SLeaf.u_old r)) (leaf_num (SLeaf.u_this r))
    (prod_map leaf_num high_num <$> SLeaf.u_rnode r).

(** what is left of [upsert] after the old pair was not found: the word, and the slot *)
Lemma upsert_absent n kv rnode haddr raw f :
  SLeaf.exchange_existing n kv = Some None -> Control.valid f -> lcontrol n = Control.encode f ->
  SLeaf.upsert n kv rnode haddr raw =
    (let n1 := SLeaf.set_control n (Control.encode (touched f)) in
     let idx := index_least0 64 (lbitmap n) in
     if idx =? -1 then
       let* (n, rn, in_right, idx) := SLeaf.split n1 kv rnode haddr raw in
       let mid := lhigh n in
       if (in_right : bool)
       then let* rn := SLeaf.insert_slot rn idx kv in Some (SLeaf.mkUpsert None n (Some (rn, mid)))
       else let* n := SLeaf.insert_slot n idx kv in Some (SLeaf.mkUpsert None n (Some (rn, mid)))
     else let* n := SLeaf.insert_slot n1 idx kv in Some (SLeaf.mkUpsert None n None)).
Proof.
  intros E Hv Hc. unfold SLeaf.upsert. rewrite E, bind_Some. cbv zeta.
  assert ((if Control.ordered (lcontrol (SLeaf.update_version n))
           then SLeaf.on_control (SLeaf.update_version n) Control.clear_order else Some (SLeaf.update_version n))
          = Some (SLeaf.set_control n (Control.encode (touched f)))) as ->; [|by rewrite !bind_Some].
  assert (SLeaf.update_version n = SLeaf.set_control n (Control.encode (Control.bump f))) as ->
    by (unfold SLeaf.update_version; rewrite Hc; by rewrite Control.update_version_encode).
  assert (Control.valid (Control.bump f)) as Hb by by apply Control.bump_valid.
  destruct (reads (leaf_num (SLeaf.set_control n (Control.encode (Control.bump f)))) (Control.bump f) Hb eq_refl)
    as (Ho & _). cbn [control_ leaf_num] in Ho. rewrite Ho. unfold SLeaf.on_control. cbn [lcontrol SLeaf.set_control].
  destruct (Control.run_encode Control.OpClearOrder (Control.bump f) Hb) as [Ec _]. cbn [Control.run] in Ec. rewrite Ec.
  cbn [Control.run_fields Control.f_ordered Control.bump Control.with_version]. unfold touched.
  destruct (Control.f_ordered f) eqn:Eo; [done|]. do 2 f_equal. unfold SLeaf.set_control. f_equal.
  unfold Control.with_ordered. destruct f; cbn in *. by subst.
Qed.

(** a new key is not found *)
Lemma exchange_none n kv f :
  leaf_wf C (leaf_num n) f -> keys_ok n -> skey_ok (skv_key kv) ->
  content (leaf_num n) !! num (skv_key kv) = None -> SLeaf.exchange_existing n kv = Some None.
Proof.
  intros Hwf Hn Hk Hc. pose proof (exchange_existing_num n kv Hn Hk) as E.
  pose proof (exchange_existing_spec C (leaf_num n) (kv_num kv) (wf_body _ _ _ Hwf)) as H.
  cbn [kv_num kv_key] in H. rewrite Hc in H. rewrite H in E.
  by destruct (SLeaf.exchange_existing n kv) as [[]|].
Qed.

(** an [upsert] that does not split *)
Lemma upsert_num n kv f rnode haddr raw :
  leaf_wf C (leaf_num n) f -> keys_ok n -> skey_ok (skv_key kv) ->
  (content (leaf_num n) !! num (skv_key kv) = None -> lbitmap n <> Z.ones 64) ->
  upsert_res_num <$> SLeaf.upsert n kv rnode haddr raw = Leaf.upsert C (leaf_num n) (kv_num kv) rnode raw.
Proof.
  intros Hwf Hn Hk Hroom. pose proof (wf_body _ _ _ Hwf) as Hb.
  destruct (content (leaf_num n) !! num (skv_key kv)) as [old|] eqn:Hc.
  - pose proof (exchange_existing_spec C (leaf_num n) (kv_num kv) Hb) as H. cbn [kv_num kv_key] in H. rewrite Hc in H.
    destruct H as (i & _ & _ & H). pose proof (exchange_existing_num n kv Hn Hk) as E.
    unfold SLeaf.upsert, Leaf.upsert. cbn [kv_num] in E. rewrite H in E |- *.
    destruct (SLeaf.exchange_existing n kv) as [[[old' n']|]|]; [|done..].
    do 2 apply (inj Some) in E. apply pair_equal_spec in E as [E1 E2]. rewrite <- E1, <- E2. done.
  - rewrite (upsert_absent n kv _ _ _ f), (upsert_start C (leaf_num n) f); try done;
      [|by eapply exchange_none|apply Hwf|apply Hwf].
    cbv zeta. change (bitmap_ (leaf_num n)) with (lbitmap n).
    destruct (index_least0_spec (lbitmap n) (wf_bm _ _ Hb)) as [[? _]|(Hi & _)]; [by destruct Hroom|].
    bfalse (index_least0 64 (lbitmap n) =? -1).
    eapply sim_bind; [by apply (insert_slot_num (SLeaf.set_control n _))|done].
Qed.

(** an [upsert] that splits: the split follows [begin_splitting] *)
Lemma upsert_split_num n kv f rnode haddr raw :
  leaf_wf C (leaf_num n) f -> keys_ok n -> skey_ok (skv_key kv) ->
  content (leaf_num n) !! num (skv_key kv) = None -> lbitmap n = Z.ones 64 -> Control.f_splitting f < 65535 ->
  let g := Control.with_splitting (touched f) (Control.f_splitting f + 1) in
  upsert_res_num <$> SLeaf.upsert n kv rnode haddr raw =
    (let* (m, rm, in_right, idx) :=
       Leaf.split C (Leaf.set_control (leaf_num n) (Control.encode g)) (kv_num kv) rnode raw in
     let mid := kc_mid C (high_key_ m) in
     if (in_right : bool)
     then let* rm := Leaf.insert_slot C rm idx (kv_num kv) in Some (Leaf.mkUpsert None m (Some (rm, mid)))
     else let* m := Leaf.insert_slot C m idx (kv_num kv) in Some (Leaf.mkUpsert None m (Some (rm, mid)))).
Proof.
  intros Hwf Hn Hk Hc Hfull Hs g. rewrite (upsert_absent n kv _ _ _ f); [|by eapply exchange_none|apply Hwf|apply Hwf].
  cbv zeta. assert (index_least0 64 (lbitmap n) = -1) as -> by by rewrite Hfull.
  cbn [Z.eqb Pos.eqb]. eapply sim_bind.
  - apply (split_num_eq (SLeaf.set_control n (Control.encode (touched f))) kv rnode haddr raw (Control.encode g)); [done|done|].
    destruct (Control.run_encode Control.OpBeginSplitting (touched f) (touched_valid _ (wf_valid _ _ _ Hwf))) as [E _].
    cbn [Control.run Control.run_fields lcontrol SLeaf.set_control] in E |- *. rewrite E.
    change (Control.f_splitting (touched f)) with (Control.f_splitting f). by btrue (Control.f_splitting f <? 65535).
  - intros [[[m rm] right] idx] _. cbn [split_num]. change (kc_mid C (high_key_ (leaf_num m))) with (high_num (lhigh m)).
    destruct right; (eapply sim_bind; [by apply insert_slot_num|done]).
Qed.

(** ** [merge] and [remove] *)

Lemma move_all_num n rn :
  prod_map leaf_num leaf_num <$> SLeaf.move_all n rn = Leaf.move_all (leaf_num n) (leaf_num rn).
Proof.
  eapply (sim_bind (sum_map (prod_map leaf_num leaf_num) id)); [|by intros [[]|[]] _].
  apply (for_mask_map (prod_map leaf_num leaf_num)). intros i [m rm]. cbn [prod_map].
  eapply sim_bind_same; [done|]. intros tag. eapply sim_bind_same; [done|]. intros tags.
  eapply sim_bind; [apply exchange_kv_num|]. intros [old rm2] _. cbn [prod_map].
  rewrite <- slot_of_num. eapply sim_bind; [apply (store_kv_num (SLeaf.set_tags m tags))|done].
Qed.

Definition merge_res_num (r : SLeaf.merge_result) : Leaf.merge_result :=
  Leaf.mkMerge (leaf_num (SLeaf.m_this r)) (prod_map id leaf_num <$> SLeaf.m_rnode r) (high_num <$> SLeaf.m_merged r).
Definition mem_num (mem : Z -> option (sleaf V)) (a : Z) : option (leaf (skvpair V)) := leaf_num <$> mem a.

(** the state of [merge] after the sibling is latched *)
Definition merging_num (st : sleaf V * sleaf V * option (option anchor)) : leaf (skvpair V) * leaf (skvpair V) * option Z :=
  let '(n, rn, m) := st in (leaf_num n, leaf_num rn, high_num <$> m).

Lemma merge_num mem this n :
  merge_res_num <$> SLeaf.merge mem this n = Leaf.merge C (mem_num mem) this (leaf_num n).
Proof.
  apply sim_if; [done|intros _|done]. eapply sim_bind_same; [done|]. intros raddr.
  eapply sim_bind; [done|]. intros rn _. apply sim_if; [done|intros _|done].
  eapply sim_bind; [apply on_control_num|]. intros rn1 _. eapply (sim_bind merging_num).
  - apply sim_if; [done|intros _|done]. eapply sim_bind; [apply move_all_num|]. intros [n2 rn2] _.
    cbn [prod_map fst snd]. cbv zeta.
    eapply (sim_bind leaf_num).
    + apply sim_if; [done|intros _|done].
      apply (on_control_num (SLeaf.set_sibling_ (SLeaf.set_high n2 (lhigh rn2)) (lsibling rn2))).
    + intros n3 _. eapply sim_bind; [apply (on_control_num (SLeaf.set_sibling_ rn2 (Some this)))|done].
  - intros [[n2 rn2] m] _. cbn [merging_num]. eapply sim_bind; [apply on_control_num|done].
Qed.

Lemma remove_num mem this n key :
  keys_ok n -> skey_ok key ->
  prod_map opt_num merge_res_num <$> SLeaf.remove mem this n key
  = Leaf.remove C (mem_num mem) this (leaf_num n) (num key).
Proof.
  intros Hn Hk. eapply sim_bind_same; [by apply candidates_num|]. intros mask.
  eapply (sim_bind (sum_map id (prod_map opt_num merge_res_num))); [|by intros [] _].
  apply (for_mask_map id). intros i []. eapply sim_bind; [apply deref_kv_num|].
  intros kv E. rewrite skey_eq by (try done; by eapply deref_key_ok). rewrite bind_Some.
  apply sim_if; [done|intros _|done].
  eapply sim_bind; [apply (exchange_kv_num (SLeaf.set_bitmap (SLeaf.update_version n) (clear_bit (lbitmap n) i)) i SNull)|]. intros [old n2] _. cbn [prod_map].
  eapply sim_bind; [apply merge_num|]. intros r _. eapply sim_bind; [apply clear_order_num|done].
Qed.

(** ** The ordered view *)

Definition taken_num (k : skvpair V * Z) : kvpair (skvpair V) * Z := (kv_num k.1, k.2).

Lemma take_all_num n :
  prod_map (fmap (M := list) taken_num) leaf_num <$> SLeaf.take_all n = Leaf.take_all (leaf_num n).
Proof.
  eapply (sim_bind (sum_map (prod_map (fmap (M := list) taken_num) leaf_num) id)); [|by intros [[]|[]] _].
  etransitivity; [apply (for_mask_map (prod_map (fmap (M := list) taken_num) leaf_num))|reflexivity].
  intros i [keys m]. cbn [prod_map].
  eapply sim_bind; [apply (exchange_kv_num m i SNull)|]. intros [old m2] _. cbn [prod_map].
  eapply sim_bind; [done|]. intros kv _. cbn. by rewrite fmap_app.
Qed.

Lemma put_all_num keys : forall idx tags n,
  prod_map id leaf_num <$> SLeaf.put_all keys idx tags n = Leaf.put_all (taken_num <$> keys) idx tags (leaf_num n).
Proof.
  induction keys as [|[kv pos] keys IH]; intros idx tags n; [done|]. cbn [SLeaf.put_all Leaf.put_all fmap list_fmap taken_num fst snd].
  eapply sim_bind_same; [done|]. intros tag. eapply sim_bind_same; [done|]. intros tags'.
  eapply sim_bind; [apply (store_kv_num n idx (SPtr kv))|]. intros n' _. apply IH.
Qed.

(** the keys taken out are keys of the node *)
Lemma take_all_keys n keys n' :
  keys_ok n -> SLeaf.take_all n = Some (keys, n') -> Forall (fun k => skey_ok (skv_key k.1)) keys.
Proof.
  intros Hn. unfold SLeaf.take_all. destruct (for_mask _ _ _ _) as [[[l m]|[]]|] eqn:E; cbn; [|done].
  intros [= <- <-]. apply (for_mask_post (fun st => Forall (fun k => skey_ok (skv_key k.1)) st.1 /\ keys_ok st.2)) in E;
    [by apply E| |done].
  clear. intros i [l m] [l' m'] [Hl Hm]. unfold SLeaf.exchange_kv.
  destruct (SLeaf.load_kv m i) as [[kv|]|] eqn:E; cbn; [|by destruct (SLeaf.store_kv m i SNull)|done].
  unfold SLeaf.store_kv. destruct (aset (lkvs m) i SNull) as [kvs|] eqn:Es; cbn; [|done]. intros [= <- <-].
  cbn. split; [apply Forall_app; split; [done|apply Forall_singleton; by eapply load_key_ok]|].
  intros j kv'. cbn. apply aset_Some in Es as [Hi ->]. rewrite aget_insert by done.
  destruct (i =? j); [done|apply Hm].
Qed.

Lemma kv_sort_num n raw :
  keys_ok n -> leaf_num <$> SLeaf.kv_sort n raw = Leaf.kv_sort C (leaf_num n) raw.
Proof.
  intros Hn. apply sim_if; [done|intros _|done]. eapply sim_bind; [apply take_all_num|].
  intros [keys n1] E. apply take_all_keys in E; [|done]. cbn [prod_map]. rewrite <- (std_sort_num taken_num (fun k => skv_key k.1)).
  2:{ eapply Forall_impl; [exact E|]. done. }
  eapply sim_bind; [apply put_all_num|]. intros [tags n2] _. cbn [prod_map]. rewrite length_fmap.
  eapply sim_bind_same; [done|]. intros b.
  eapply sim_bind; [apply (on_control_num (SLeaf.set_bitmap (SLeaf.set_tags n2 tags) b))|done].
Qed.

Lemma upper_index_num keys key :
  Forall skey_ok keys -> skey_ok key -> SLeaf.upper_index keys key = Leaf.upper_index (num <$> keys) (num key).
Proof.
  intros Hl Hk. induction Hl as [|k keys Hk' Hl IH]; [done|]. cbn [SLeaf.upper_index Leaf.upper_index fmap list_fmap].
  by rewrite skey_less, IH.
Qed.

Lemma first_keys_num n m :
  keys_ok n ->
  fmap (M := option) (fmap (M := list) num) <$> SLeaf.first_keys n m = Leaf.first_keys (leaf_num n) m
  /\ (forall keys, SLeaf.first_keys n m = Some (Some keys) -> Forall skey_ok keys).
Proof.
  intros Hn. unfold SLeaf.first_keys, Leaf.first_keys.
  assert (forall l acc, Forall skey_ok acc ->
    let r := foldr (fun kid (k : list String -> option (option (list String))) keys =>
      let* o := SLeaf.load_kv n kid in match o with None => Some None | Some kv => k (keys ++ [skv_key kv]) end)
      (fun keys => Some (Some keys)) l acc in
    fmap (M := option) (fmap (M := list) num) <$> r
    = foldr (fun kid (k : list Z -> option (option (list Z))) keys =>
        let* o := Leaf.load_kv (leaf_num n) kid in match o with None => Some None | Some x => k (keys ++ [kv_key x]) end)
        (fun keys => Some (Some keys)) l (num <$> acc)
    /\ (forall keys, r = Some (Some keys) -> Forall skey_ok keys)) as H; [|by apply (H _ [])].
  induction l as [|i l IH]; intros acc Hacc; cbn [foldr]; [split; [done|by intros ? [= <-]]|].
  rewrite <- load_kv_num. destruct (SLeaf.load_kv n i) as [[kv|]|] eqn:E; cbn; [|done..].
  destruct (IH (acc ++ [skv_key kv])) as [IH1 IH2].
  - apply Forall_app. split; [done|]. apply Forall_singleton. by eapply load_key_ok.
  - cbn in IH1. rewrite IH1, fmap_app. done.
Qed.

Lemma bound_num n key upper :
  keys_ok n -> skey_ok key ->
  prod_map opt_num id <$> SLeaf.bound n key upper = Leaf.bound C (leaf_num n) (num key) upper.
Proof.
  intros Hn Hk. eapply sim_bind_same; [by apply candidates_num|]. intros mask.
  eapply (sim_bind (sum_map id (prod_map opt_num id))).
  - apply (for_mask_map id). intros i []. eapply sim_bind; [apply load_kv_num|].
    intros [kv|] E; [|done]. rewrite skey_eq by (try done; by eapply load_key_ok). cbn.
    apply sim_if; [done|intros _|done]. apply sim_if; [done|intros _|done].
    eapply sim_bind; [apply load_kv_num|done].
  - intros [[]|x] _; [|done]. cbn [sum_map]. destruct (first_keys_num n (popcount 64 (lbitmap n)) Hn) as [E Hok].
    eapply sim_bind; [exact E|]. intros [keys|] Ek; [|done]. apply Hok in Ek. cbn [fmap option_fmap option_map].
    rewrite (upper_index_num keys key) by done. apply sim_if; [done|done|intros _].
    eapply sim_bind; [apply load_kv_num|done].
Qed.
End sim.
