(* ===== verification/SLeafSpec.v ===== *)
(** * What the operations of the string leaf do

    The invariant of a leaf with string keys, and the finite map from strings to pairs it
    stands for. The specifications follow from those of the integer leaf ([LeafSpec]) by
    the simulation ([SLeafSim]); what the numbers forget, the addresses of the high keys,
    is followed through the code. *)

From S2P Require Import Prelude Bits Simd Strings Encode Control Rank Leaf LeafSpec SInner SLeaf SLeafSim.

#[local] Opaque for_mask mask_fuel.

(** ** What a program returns, if it does *)

Definition returns {A} (o : option A) (P : A -> Prop) : Prop := forall x, o = Some x -> P x.

Lemma returns_Some {A} (P : A -> Prop) x : P x -> returns (Some x) P.
Proof. by intros H ? [= <-]. Qed.

Lemma returns_bind {A B} (o : option A) (g : A -> option B) (Q : A -> Prop) P :
  returns o Q -> (forall x, Q x -> returns (g x) P) -> returns (o ≫= g) P.
Proof. intros Ho Hg y. destruct o as [x|] eqn:E; [|done]. cbn. by apply Hg, Ho. Qed.

Lemma returns_skip {A B} (o : option A) (g : A -> option B) P :
  (forall x, returns (g x) P) -> returns (o ≫= g) P.
Proof. intros Hg y. destruct o as [x|] eqn:E; [|done]. cbn. by apply Hg. Qed.

Lemma returns_assert {A} (b : bool) (k : option A) P : returns k P -> returns (assert* b in k) P.
Proof. destruct b; [done|]. by intros _ x. Qed.

Lemma returns_weaken {A} (o : option A) (Q P : A -> Prop) : returns o Q -> (forall x, Q x -> P x) -> returns o P.
Proof. intros H HQ x E. by apply HQ, H. Qed.

(** ** The high key through the operations *)

Section high.
Context {V : Type}.
Implicit Types (n rn : sleaf V) (i : Z) (h : option anchor).

(** [n] has the high key [h] *)
Definition high_is h n : Prop := lhigh n = h.

Lemma store_kv_high n i s h : high_is h n -> returns (SLeaf.store_kv n i s) (high_is h).
Proof. intros H n'. unfold SLeaf.store_kv. by destruct (aset _ _ _); intros [= <-]. Qed.

Lemma exchange_kv_high n i s h : high_is h n -> returns (SLeaf.exchange_kv n i s) (fun r => high_is h r.2).
Proof.
  intros H. apply returns_skip. intros o. eapply returns_bind; [by eapply store_kv_high|].
  intros n' H'. by apply returns_Some.
Qed.

Lemma on_control_high n f h : high_is h n -> returns (SLeaf.on_control n f) (high_is h).
Proof. intros H n'. unfold SLeaf.on_control. by destruct (f _); intros [= <-]. Qed.

Lemma insert_slot_high n i kv h : high_is h n -> returns (SLeaf.insert_slot n i kv) (high_is h).
Proof.
  intros H. apply returns_assert. eapply returns_bind; [by eapply store_kv_high|]. intros n' H'.
  do 2 (apply returns_skip; intros ?). by apply returns_Some.
Qed.

Lemma clear_order_high n h : high_is h n ->
  returns (if Control.ordered (lcontrol n) then SLeaf.on_control n Control.clear_order else Some n) (high_is h).
Proof. intros H. destruct (Control.ordered _); [by apply on_control_high|by apply returns_Some]. Qed.

(** a search leaves the loop with what a turn returns *)
Lemma for_mask_returns {R} (body : Z -> unit -> option (unit + R)) fuel mask (P : R -> Prop) :
  (forall i, returns (body i tt) (fun r => forall x, r = inr x -> P x)) ->
  returns (for_mask fuel body mask tt) (fun r => forall x, r = inr x -> P x).
Proof.
  intros Hb. revert mask. induction fuel as [|fuel IH]; intros mask; [by intros ?|]. cbn [for_mask].
  destruct (mask =? 0); [by apply returns_Some|]. eapply returns_bind; [apply Hb|].
  intros [[]|x] Hx; [apply IH|]. apply returns_Some. intros ? [= <-]. by apply Hx.
Qed.

Lemma update_high n kv h : high_is h n -> returns (SLeaf.update n kv) (fun r => high_is h r.2).
Proof.
  intros H. apply returns_skip. intros mask. eapply returns_bind.
  - apply (for_mask_returns _ _ _ (fun r => high_is h r.2)). intros i. apply returns_skip.
    intros [old|]; [|by apply returns_Some]. apply returns_skip. intros []; [|by apply returns_Some].
    eapply returns_bind; [by eapply store_kv_high|]. intros n' H'. apply returns_Some. by intros ? [= <-].
  - intros [|[old n']] Hr; apply returns_Some; [done|]. exact (Hr _ eq_refl).
Qed.

Lemma exchange_existing_high n kv h : high_is h n ->
  returns (SLeaf.exchange_existing n kv) (fun r => forall x, r = Some x -> high_is h x.2).
Proof.
  intros H. apply returns_skip. intros mask. eapply returns_bind.
  - apply (for_mask_returns _ _ _ (fun r => high_is h r.2)). intros i. apply returns_skip.
    intros old. apply returns_skip. intros []; [|by apply returns_Some].
    eapply returns_bind; [by eapply exchange_kv_high|]. intros [o n'] H'. apply returns_Some. by intros ? [= <-].
  - intros [|x] Hr; apply returns_Some; [done|]. intros ? [= <-]. exact (Hr _ eq_refl).
Qed.

(** two nodes, with the high keys [h] and [h'] *)
Definition highs h h' (st : sleaf V * sleaf V) : Prop := high_is h st.1 /\ high_is h' st.2.

Lemma move_half_high keys n rn h h' : highs h h' (n, rn) ->
  returns (SLeaf.move_half keys n rn) (fun '(n, rn, _, _) => highs h h' (n, rn)).
Proof.
  intros H. unfold SLeaf.move_half, for_range. 
  assert (returns (Some (n, rn, 0, 0)) (fun '(n, rn, _, _) => highs h h' (n, rn))) as Hs by by apply returns_Some.
  revert Hs. generalize (Some (n, rn, 0, 0)).
  induction (seqZ 0 _) as [|r l IH]; intros o Ho; [done|]. cbn [foldl]. apply IH.
  eapply returns_bind; [exact Ho|]. intros [[[n1 rn1] m] lid] [H1 H2]. cbn in H1, H2.
  apply returns_skip. intros [k i]. do 2 (apply returns_skip; intros ?).
  eapply returns_bind; [by eapply exchange_kv_high|]. intros [old n2] H3. cbn in H3.
  eapply returns_bind; [by eapply store_kv_high|]. intros rn2 H4. by apply returns_Some.
Qed.

Lemma move_all_high n rn h h' : highs h h' (n, rn) -> returns (SLeaf.move_all n rn) (highs h h').
Proof.
  intros H. unfold SLeaf.move_all. eapply (returns_bind _ _ (fun r => forall st, r = inl st -> highs h h' st)).
  - intros r E st ->. revert E. apply (for_mask_post (highs h h')); [|done].
    intros i [n1 rn1] st' [H1 H2]. cbn in H1, H2. revert st'.
    assert (forall o, returns o (fun r : (sleaf V * sleaf V) + Empty_set => forall st, r = inl st -> highs h h' st) ->
      forall st', o = Some (inl st') -> highs h h' st') as Hr by (intros o Ho st' E; exact (Ho _ E _ eq_refl)).
    apply Hr. do 2 (apply returns_skip; intros ?).
    eapply returns_bind; [by eapply exchange_kv_high|]. intros [old rn2] H3. cbn in H3.
    eapply returns_bind; [by eapply store_kv_high|]. intros n2 H4. apply returns_Some. by intros ? [= <-].
  - intros [[n1 rn1]|[]] Hr. apply returns_Some. exact (Hr _ eq_refl).
Qed.

(** after a merge the node has the high key of its sibling, and returns its own *)
Definition merge_post (mem : Z -> option (sleaf V)) n (r : SLeaf.merge_result) : Prop :=
  match SLeaf.m_merged r with
  | Some m => m = lhigh n /\ exists ra rn, lsibling n = Some ra /\ mem ra = Some rn /\ high_is (lhigh rn) (SLeaf.m_this r)
  | None => high_is (lhigh n) (SLeaf.m_this r)
  end.

Lemma merge_high mem this n :
  returns (SLeaf.merge mem this n) (merge_post mem n).
Proof.
  unfold SLeaf.merge. destruct (Control.has_sibling _); [|by apply returns_Some].
  destruct (lsibling n) as [ra|] eqn:Es; [rewrite bind_Some|by intros ?].
  destruct (mem ra) as [rn|] eqn:Em; [rewrite bind_Some|by intros ?].
  destruct (SLeaf.mergeable n rn); [|by apply returns_Some].
  eapply (returns_bind _ _ (high_is (lhigh rn))).
  { unfold SLeaf.latch_exclusive. by apply on_control_high. }
  intros rn1 H1.
  eapply (returns_bind _ _ (fun '(n', _, m) =>
    match m with Some m => m = lhigh n /\ high_is (lhigh rn) n' | None => high_is (lhigh n) n' end)).
  - destruct (SLeaf.mergeable n rn1); [|by apply returns_Some].
    eapply returns_bind; [by apply (move_all_high n rn1 (lhigh n) (lhigh rn))|]. intros [n2 rn2] [_ H3]. cbn in H3.
    eapply (returns_bind _ _ (high_is (lhigh rn))).
    + destruct (negb _); [by apply on_control_high|by apply returns_Some].
    + intros n3 H4. apply returns_skip. intros rn4. by apply returns_Some.
  - intros [[n2 rn2] [m|]] H2; apply returns_skip; intros rn3; apply returns_Some; unfold merge_post; cbn; [|done].
    destruct H2 as [-> H2]. split; [done|]. by exists ra, rn.
Qed.

Lemma remove_high mem this n key :
  returns (SLeaf.remove mem this n key) (fun x => merge_post mem n x.2).
Proof.
  apply returns_skip. intros mask. eapply returns_bind.
  - apply (for_mask_returns _ _ _ (fun x => merge_post mem n x.2)). intros i. apply returns_skip. intros kv. apply returns_skip. intros []; [|by apply returns_Some].
    cbv zeta. set (n1 := SLeaf.set_bitmap _ _).
    eapply (returns_bind _ _ (fun r => lhigh r.2 = lhigh n /\ lsibling r.2 = lsibling n)).
    { intros [o n2] E. split; [by apply (exchange_kv_high n1 i SNull (lhigh n) eq_refl _ E)|].
      revert E. unfold SLeaf.exchange_kv, SLeaf.store_kv. destruct (SLeaf.load_kv n1 i); [cbn|done].
      destruct (aset _ _ _); [cbn|done]. by intros [= _ <-]. }
    intros [o n2] [H1 H2]. cbn in H1, H2. eapply returns_bind; [apply merge_high|]. intros r Hr. unfold merge_post in *. rewrite H1, H2 in Hr.
    eapply (returns_bind _ _ (high_is (lhigh (SLeaf.m_this r)))); [by apply clear_order_high|].
    intros n3 H3. apply returns_Some. intros ? [= <-]. cbn. unfold high_is in *. by rewrite H3.
  - intros [[]|[o r]] Hr; apply returns_Some; [done|]. exact (Hr _ eq_refl).
Qed.
End high.

(** ** The finite map of a leaf *)

Section pairs.
Context {V : Type}.
Implicit Types (n : sleaf V) (kv : skvpair V) (i : Z).

Definition skv_at n i kv : Prop := aget (lkvs n) i = Some (SPtr kv).
Definition shas n kv : Prop := exists i, Z.testbit (lbitmap n) i = true /\ skv_at n i kv.

Definition sentry_at n i : option (skvpair V) :=
  match aget (lkvs n) i with Some (SPtr kv) => Some kv | _ => None end.

(** the pairs, under the bytes of their keys *)
Definition pairs n : gmap (list Z) (skvpair V) :=
  list_to_map ((fun kv => (str (skv_key kv), kv)) <$> omap (sentry_at n) (set_bits (lbitmap n))).

Lemma sentry_at_Some n i kv : sentry_at n i = Some kv <-> skv_at n i kv.
Proof. unfold sentry_at, skv_at. destruct (aget _ _) as [[]|]; naive_solver. Qed.
End pairs.

Section spec.
Context {V : Type} (N : nat) (HN : Z.of_nat N < 2 ^ 64).
Implicit Types (n rn : sleaf V) (kv : skvpair V) (key : String) (i : Z).
Notation C := (string_code N).
Notation skey_ok := (skey_ok N).
Notation num := (num N).
Notation kv_num := (kv_num N).
Notation leaf_num := (leaf_num N).

Lemma set_new_high_high n haddr key :
  skey_ok key -> returns (SLeaf.set_new_high n haddr key) (high_is (Some (mkAnchor haddr key))).
Proof. intros Hk. destruct (set_new_high_num N n haddr key Hk) as (n' & -> & _ & E & _). by apply returns_Some. Qed.

Definition split_highs haddr (h : option anchor) (st : sleaf V * sleaf V * bool * Z) : Prop :=
  let '(n', rn', _, _) := st in
  (exists s, skey_ok s /\ high_is (Some (mkAnchor haddr s)) n') /\ high_is h rn'.

Lemma split_half_high n rn keys kv rnode haddr :
  (forall i s j, aget keys i = Some (s, j) -> skey_ok s) ->
  returns (SLeaf.split_half n rn keys kv rnode haddr) (split_highs haddr (lhigh n)).
Proof.
  intros Hget. eapply returns_bind; [by apply (move_half_high keys n rn (lhigh n) (lhigh rn))|].
  intros [[[n1 rn1] m] lid] [H1 H2]. cbn in H1, H2. apply returns_skip. intros half. cbv zeta.
  do 2 apply returns_assert. eapply (returns_bind _ _ (fun k => skey_ok k.1)); [by intros [s j] ?%Hget|].
  intros [s j] Hs. cbn in Hs. eapply returns_bind; [by apply set_new_high_high|]. intros n2 H3.
  eapply (returns_bind _ _ (highs (Some (mkAnchor haddr s)) (lhigh n))).
  - destruct (negb _); (eapply returns_bind; [by apply on_control_high|]); intros n3 H4; by apply returns_Some.
  - intros [n3 rn3] [H4 H5]. apply returns_skip. intros []; apply returns_Some; (split; [by exists s|done]).
Qed.

(** the high key of the left node is the new string, the one of the right node the old *)
Lemma split_high n kv rnode haddr raw c :
  keys_ok N n -> Control.begin_splitting (lcontrol n) = Some c ->
  returns (SLeaf.split n kv rnode haddr raw)
    (fun st => exists h, split_highs haddr h st /\ (h = lhigh n \/ h = None /\ Control.has_sibling c = false)).
Proof.
  intros Hn Hc. eapply returns_bind; [exact (proj2 (sorted_keys_num N n Hn))|]. intros keys Hkeys. cbv zeta.
  assert (SLeaf.on_control n Control.begin_splitting = Some (SLeaf.set_control n c)) as ->
    by (unfold SLeaf.on_control; by rewrite Hc).
  rewrite bind_Some.
  assert (forall i s j, aget keys i = Some (s, j) -> skey_ok s) as Hget.
  { intros i s j [_ Hj]%aget_Some. rewrite Forall_lookup in Hkeys. exact (Hkeys _ _ Hj). }
  assert (forall rn, returns (SLeaf.split_half (SLeaf.set_control n c) rn keys kv rnode haddr)
    (fun st => exists h, split_highs haddr h st /\ (h = lhigh n \/ h = None /\ Control.has_sibling c = false))) as Hhalf.
  { intros rn. eapply returns_weaken; [by apply split_half_high|]. intros st H. exists (lhigh n). by split; [|left]. }
  eapply (returns_bind _ _ (fun k => skey_ok k.1)); [by intros [s j] ?%Hget|]. intros [back j] Hb. cbn in Hb.
  cbn [lcontrol SLeaf.set_control]. destruct (Control.has_sibling c) eqn:Ec; cbn [negb]; [rewrite bind_Some; apply Hhalf|].
  apply returns_skip. intros []; [|apply Hhalf].
  eapply returns_bind; [by apply set_new_high_high|]. intros n1 H1.
  eapply returns_bind; [by apply on_control_high|]. intros n2 H2. apply returns_Some.
  exists None. split; [|by right]. split; [by exists back|done].
Qed.

Lemma put_all_high keys : forall idx tags n h, high_is h n ->
  returns (SLeaf.put_all keys idx tags n) (fun r => high_is h r.2).
Proof.
  induction keys as [|[kv pos] keys IH]; intros idx tags n h H; cbn [SLeaf.put_all]; [by apply returns_Some|].
  do 2 (apply returns_skip; intros ?). eapply returns_bind; [by eapply store_kv_high|]. intros n' H'. by apply IH.
Qed.

Lemma take_all_high n h : high_is h n -> returns (SLeaf.take_all n) (fun r => high_is h r.2).
Proof.
  intros H [keys n']. unfold SLeaf.take_all. destruct (for_mask _ _ _ _) as [[[l m]|[]]|] eqn:E; cbn; [|done].
  intros [= <- <-]. apply (for_mask_post (fun st => high_is h st.2)) in E; [exact E| |done].
  clear. intros i [l m] [l' m'] Hm. cbn in Hm. destruct (SLeaf.exchange_kv m i SNull) as [[o m1]|] eqn:E; cbn; [|done].
  destruct o as [kv|]; cbn; [|done]. intros [= _ <-]. exact (exchange_kv_high m i SNull h Hm _ E).
Qed.

Lemma kv_sort_high n raw : returns (SLeaf.kv_sort n raw) (high_is (lhigh n)).
Proof.
  unfold SLeaf.kv_sort. destruct (negb _); [|by apply returns_Some].
  eapply returns_bind; [by apply (take_all_high n (lhigh n))|]. intros [keys n1] H1. cbn in H1. cbv zeta.
  eapply returns_bind; [by eapply put_all_high|]. intros [tags n2] H2. cbn in H2. apply returns_skip. intros b.
  eapply returns_bind; [by apply on_control_high|]. intros n3 H3. by apply returns_Some.
Qed.

(** the word of a full leaf when it is split *)
Definition splitting_fields (f : Control.fields) : Control.fields :=
  Control.with_splitting (touched f) (Control.f_splitting f + 1).

Lemma begin_splitting_eq f : Control.valid f -> Control.f_splitting f < 65535 ->
  Control.begin_splitting (Control.encode (touched f)) = Some (Control.encode (splitting_fields f))
  /\ Control.valid (splitting_fields f).
Proof.
  intros Hv Hs. destruct (Control.run_encode Control.OpBeginSplitting (touched f) (touched_valid _ Hv)) as [E H].
  cbn [Control.run Control.run_fields] in E, H. change (Control.f_splitting (touched f)) with (Control.f_splitting f) in E, H.
  replace (Control.f_splitting f <? 65535) with true in E, H by blia. by split; [|apply H].
Qed.

Definition upsert_highs haddr (f : Control.fields) n (r : SLeaf.upsert_result (V := V)) : Prop :=
  match SLeaf.u_rnode r with
  | None => high_is (lhigh n) (SLeaf.u_this r)
  | Some (rn, mid) =>
      (exists s, skey_ok s /\ lhigh (SLeaf.u_this r) = Some (mkAnchor haddr s) /\ mid = Some (mkAnchor haddr s))
      /\ (lhigh rn = lhigh n \/ lhigh rn = None /\ Control.f_sibling f = false)
  end.

Lemma upsert_high n kv f rnode haddr raw :
  Control.valid f -> lcontrol n = Control.encode f -> keys_ok N n -> Control.f_splitting f < 65535 ->
  returns (SLeaf.upsert n kv rnode haddr raw) (upsert_highs haddr f n).
Proof.
  intros Hv Hc Hn Hs. destruct (SLeaf.exchange_existing n kv) as [[[old n']|]|] eqn:E.
  - unfold SLeaf.upsert. rewrite E, bind_Some. apply returns_Some. exact (exchange_existing_high n kv _ eq_refl _ E _ eq_refl).
  - rewrite (upsert_absent N n kv rnode haddr raw f) by done. cbv zeta. destruct (_ =? -1).
    + destruct (begin_splitting_eq f Hv Hs) as [Eb Hvg].
      eapply returns_bind; [by apply (split_high (SLeaf.set_control n (Control.encode (touched f))))|].
      intros [[[n1 rn1] r] idx] (h & ((s & Hk & H1) & H2) & Hh).
      assert (Control.has_sibling (Control.encode (splitting_fields f)) = Control.f_sibling f) as Ef.
      { by destruct (reads (leaf_num (SLeaf.set_control n (Control.encode (splitting_fields f)))) (splitting_fields f) Hvg eq_refl) as (_ & ? & _). }
      rewrite Ef in Hh. unfold upsert_highs.
      destruct r; (eapply returns_bind; [by eapply insert_slot_high|]); intros m Hm; apply returns_Some; cbn;
        unfold high_is in *; (split; [exists s; split; [done|split; congruence]|]);
        (destruct Hh as [Hh|[Hh ?]]; [left; cbn in Hh; congruence|right; split; [congruence|done]]).
    + eapply returns_bind; [by apply (insert_slot_high (SLeaf.set_control n _) _ _ (lhigh n))|]. intros m Hm. by apply returns_Some.
  - unfold SLeaf.upsert. rewrite E. by intros ?.
Qed.

(** ** The invariant *)

(** read as numbers, a well-formed leaf; every key is a string of at most [N] bytes *)
Record sleaf_wf n (f : Control.fields) : Prop := {
  sw_leaf : leaf_wf C (leaf_num n) f;
  sw_keys kv : shas n kv -> skey_ok (skv_key kv);
  sw_high a : lhigh n = Some a -> skey_ok (an_str a);
  sw_sib : Control.f_sibling f = true -> is_Some (lhigh n);
}.

Lemma kv_at_num n i x : kv_at (leaf_num n) i x <-> exists kv, x = kv_num kv /\ skv_at n i kv.
Proof.
  unfold kv_at, skv_at. cbn [kvs_ SLeafSim.leaf_num]. rewrite <- aget_fmap.
  destruct (aget (lkvs n) i) as [[]|]; cbn; naive_solver.
Qed.

Lemma kv_num_inj kv kv' : kv_num kv = kv_num kv' -> kv = kv'.
Proof. by intros [= _ _ ?]. Qed.

Lemma has_kv n kv : has (leaf_num n) (kv_num kv) <-> shas n kv.
Proof.
  unfold has, shas. setoid_rewrite kv_at_num. split.
  - intros (i & Hu & kv' & ->%kv_num_inj & Hk). by exists i.
  - intros (i & Hu & Hk). exists i. split; [done|]. by exists kv.
Qed.

Lemma has_num n x : has (leaf_num n) x <-> exists kv, x = kv_num kv /\ shas n kv.
Proof.
  split; [|by intros (kv & -> & H); apply has_kv]. intros (i & Hu & (kv & -> & Hk)%kv_at_num). exists kv.
  split; [done|]. by exists i.
Qed.

Lemma shas_content n kv : body_wf C (leaf_num n) -> shas n kv <-> content (leaf_num n) !! num (skv_key kv) = Some (kv_num kv).
Proof. intros Hn. rewrite (content_lookup C), has_kv by exact Hn. naive_solver. Qed.

Section wf.
Context n f (Hwf : sleaf_wf n f).

Lemma swf_body : body_wf C (leaf_num n).
Proof. apply Hwf. Qed.

Lemma swf_keys_ok : keys_ok N n.
Proof.
  intros i kv Hk. apply (sw_keys n f Hwf). exists i. split; [|done].
  destruct (Z.testbit (lbitmap n) i) eqn:E; [done|].
  destruct (wf_free _ _ swf_body i (kv_num kv)); [unfold used; cbn; by rewrite E|]. apply kv_at_num. by exists kv.
Qed.

Lemma swf_unique kv kv' : shas n kv -> shas n kv' -> str (skv_key kv) = str (skv_key kv') -> kv = kv'.
Proof.
  intros H1 H2 E. apply kv_num_inj. apply (has_unique C (leaf_num n)); [exact swf_body|by apply has_kv..|].
  cbn. unfold SLeafSim.num. by rewrite E.
Qed.

Lemma pairs_lookup s kv : pairs n !! s = Some kv <-> str (skv_key kv) = s /\ shas n kv.
Proof.
  assert (forall kv, kv ∈ omap (sentry_at n) (set_bits (lbitmap n)) <-> shas n kv) as He.
  { intros x. rewrite list_elem_of_omap. setoid_rewrite elem_of_set_bits. setoid_rewrite sentry_at_Some.
    split; [intros (i & [_ ?] & ?); by exists i|]. intros (i & Hu & Hk). exists i. split; [|done].
    split; [|done]. apply (used_range (leaf_num n)); [apply swf_body|done]. }
  unfold pairs. split.
  - intros H%elem_of_list_to_map_2. apply list_elem_of_fmap in H as (x & [= -> ->] & H). by rewrite <- He.
  - intros [<- H]. apply elem_of_list_to_map_1'.
    + intros y Hy. apply list_elem_of_fmap in Hy as (x & [= E ->] & Hx). rewrite He in Hx. by apply swf_unique.
    + apply list_elem_of_fmap. exists kv. by rewrite He.
Qed.

Lemma pairs_None s : pairs n !! s = None <-> forall kv, shas n kv -> str (skv_key kv) <> s.
Proof.
  rewrite eq_None_not_Some. unfold is_Some. setoid_rewrite pairs_lookup. naive_solver.
Qed.

Lemma pairs_ext (m : gmap (list Z) (skvpair V)) :
  (forall s kv, m !! s = Some kv <-> str (skv_key kv) = s /\ shas n kv) -> pairs n = m.
Proof. intros H. apply map_eq. intros s. apply option_eq. intros kv. by rewrite pairs_lookup, H. Qed.

(** the map of the numbers is the map of the strings *)
Lemma content_pairs key : skey_ok key -> content (leaf_num n) !! num key = kv_num <$> pairs n !! str key.
Proof.
  intros Hk. apply option_eq. intros x. rewrite (content_lookup C), has_num, fmap_Some by exact swf_body.
  setoid_rewrite pairs_lookup. split.
  - intros [E (kv & -> & H)]. exists kv. split; [|done]. split; [|done].
    apply (num_inj N); [by apply (sw_keys n f Hwf)|done|exact E].
  - intros (kv & [E H] & ->). split; [cbn; unfold SLeafSim.num; by rewrite E|by exists kv].
Qed.

Lemma content_pairs_None key : skey_ok key -> content (leaf_num n) !! num key = None <-> pairs n !! str key = None.
Proof. intros Hk. rewrite content_pairs by done. apply fmap_None. Qed.

Lemma pairs_short s : ~ short_key N s -> pairs n !! s = None.
Proof.
  intros Hs. apply eq_None_not_Some. intros [kv [<- H]%pairs_lookup]. apply Hs. by apply (sw_keys n f Hwf).
Qed.

(** to know the map at the strings that are numbered is to know it *)
Lemma pairs_eq (m : gmap (list Z) (skvpair V)) :
  (forall s, ~ short_key N s -> m !! s = None) ->
  (forall key, skey_ok key -> content (leaf_num n) !! num key = kv_num <$> m !! str key) -> pairs n = m.
Proof.
  intros Hshort H. apply map_eq. intros s. destruct (decide (short_key N s)) as [Hs|Hs].
  - set (key := mkString (Z.of_nat (length s)) s). assert (skey_ok key) as Hk by (split; [reflexivity|exact Hs]).
    specialize (H key Hk). rewrite content_pairs in H by done. change (str key) with s in H.
    destruct (pairs n !! s), (m !! s); cbn in H; try done. apply (inj Some), kv_num_inj in H. by subst.
  - by rewrite pairs_short, Hshort.
Qed.
End wf.

(** ** Changes of the map *)

Lemma num_ne a b : skey_ok a -> skey_ok b -> str a <> str b -> num a <> num b.
Proof. intros Ha Hb Hne E. by apply Hne, (num_inj N). Qed.

(** the keys of a leaf whose map is a known one *)
Lemma keys_from n' (P : skvpair V -> Prop) f' :
  leaf_wf C (leaf_num n') f' ->
  (forall k kv, content (leaf_num n') !! k = Some (kv_num kv) -> P kv) -> forall kv, shas n' kv -> P kv.
Proof. intros Hn H kv Hk. apply shas_content in Hk; [by eapply H|apply Hn]. Qed.

Lemma content_key n f k kv : sleaf_wf n f -> content (leaf_num n) !! k = Some (kv_num kv) -> skey_ok (skv_key kv).
Proof.
  intros Hwf [_ H%has_kv]%(content_lookup C); [by apply (sw_keys n f Hwf)|by eapply swf_body].
Qed.

Lemma insert_wf n f n' f' kv :
  sleaf_wf n f -> skey_ok (skv_key kv) -> leaf_wf C (leaf_num n') f' ->
  content (leaf_num n') = <[num (skv_key kv) := kv_num kv]> (content (leaf_num n)) ->
  lhigh n' = lhigh n -> (Control.f_sibling f' = Control.f_sibling f) ->
  sleaf_wf n' f' /\ pairs n' = <[str (skv_key kv) := kv]> (pairs n).
Proof.
  intros Hwf Hk Hn' Hc Hh Hf. assert (sleaf_wf n' f') as Hwf'.
  { split; [done| | |].
    - apply (keys_from n' _ f' Hn'). intros k x. rewrite Hc, lookup_insert_Some.
      intros [[_ <-%kv_num_inj]|[_ H]]; [done|by eapply content_key].
    - rewrite Hh. apply Hwf.
    - rewrite Hh, Hf. apply Hwf. }
  split; [done|]. apply (pairs_eq n' f' Hwf').
  - intros s Hs. rewrite lookup_insert_ne; [by apply (pairs_short n f)|]. intros <-. by apply Hs, Hk.
  - intros key Hkey. rewrite Hc. destruct (decide (str (skv_key kv) = str key)) as [E|Hne].
    + unfold SLeafSim.num. by rewrite E, !lookup_insert_eq.
    + rewrite !lookup_insert_ne by (try done; by apply num_ne). by eapply content_pairs.
Qed.

Lemma same_wf n f n' f' :
  sleaf_wf n f -> leaf_wf C (leaf_num n') f' -> content (leaf_num n') = content (leaf_num n) ->
  lhigh n' = lhigh n -> (Control.f_sibling f' = Control.f_sibling f) ->
  sleaf_wf n' f' /\ pairs n' = pairs n.
Proof.
  intros Hwf Hn' Hc Hh Hf. assert (sleaf_wf n' f') as Hwf'.
  { split; [done| | |].
    - apply (keys_from n' _ f' Hn'). intros k x. rewrite Hc. by eapply content_key.
    - rewrite Hh. apply Hwf.
    - rewrite Hh, Hf. apply Hwf. }
  split; [done|]. apply (pairs_eq n' f' Hwf').
  - intros s Hs. by apply (pairs_short n f).
  - intros key Hkey. rewrite Hc. by eapply content_pairs.
Qed.

Lemma opt_num_inj (o o' : option (skvpair V)) : opt_num N o = kv_num <$> o' -> o = o'.
Proof. destruct o, o'; cbn; try done. intros H. apply (inj Some), kv_num_inj in H. by subst. Qed.

(** ** [lookup] and [update] *)

Lemma lookup_pairs n f key : sleaf_wf n f -> skey_ok key -> SLeaf.lookup n key = Some (pairs n !! str key).
Proof.
  intros Hwf Hk. pose proof (lookup_num N HN n key (swf_keys_ok n f Hwf) Hk) as E.
  rewrite (lookup_content C), (content_pairs n f) in E by (done || by eapply swf_body).
  destruct (SLeaf.lookup n key) as [o|]; [|done]. apply (inj Some), opt_num_inj in E. by subst.
Qed.

Lemma update_pairs n f kv :
  sleaf_wf n f -> skey_ok (skv_key kv) ->
  exists n', SLeaf.update n kv = Some (pairs n !! str (skv_key kv), n') /\ sleaf_wf n' f
    /\ pairs n' = match pairs n !! str (skv_key kv) with
                  | Some _ => <[str (skv_key kv) := kv]> (pairs n)
                  | None => pairs n
                  end
    /\ lhigh n' = lhigh n /\ lsibling n' = lsibling n.
Proof.
  intros Hwf Hk. pose proof (update_num N HN n kv (swf_keys_ok n f Hwf) Hk) as E.
  destruct (update_content C (leaf_num n) f (kv_num kv) (sw_leaf n f Hwf)) as (m & Em & Hm & Hc & _ & Hsn).
  cbn [SLeafSim.kv_num kv_key] in Em, Hc. rewrite (content_pairs n f) in Em, Hc by done. rewrite Em in E.
  destruct (SLeaf.update n kv) as [[o n']|] eqn:Eu; [|done]. apply (inj Some), pair_equal_spec in E as [E1 E2].
  cbn [fst snd] in E1, E2. apply opt_num_inj in E1 as ->. subst m.
  exists n'. split; [done|]. pose proof (update_high n kv _ eq_refl _ Eu) as Hh. cbn in Hh.
  enough (sleaf_wf n' f /\ pairs n' = match pairs n !! str (skv_key kv) with
    | Some _ => <[str (skv_key kv) := kv]> (pairs n) | None => pairs n end) as [Hwf' Hp] by done.
  destruct (pairs n !! str (skv_key kv)); cbn in Hc; [by apply (insert_wf n f)|by apply (same_wf n f)].
Qed.

(** ** [upsert] *)

Definition below_high key n : Prop := forall a, lhigh n = Some a -> lex_le (str key) (str (an_str a)).

Record supsert_args n f kv (raw_tags : list Z) : Prop := {
  sua_key : skey_ok (skv_key kv);
  sua_high : Control.f_sibling f = true -> below_high (skv_key kv) n;
  sua_raw : length raw_tags = 64%nat /\ Forall is_byte raw_tags;
  sua_splitting : Control.f_splitting f < 65535;
}.

Lemma below_high_num n f key :
  sleaf_wf n f -> skey_ok key -> Control.f_sibling f = true ->
  below_high key n <-> num key <= high_key_ (leaf_num n).
Proof.
  intros Hwf Hk Hs. destruct (sw_sib n f Hwf Hs) as [a Ha]. unfold below_high. cbn [high_key_ SLeafSim.leaf_num].
  rewrite Ha. cbn [high_num]. pose proof (sw_high n f Hwf a Ha) as Hok. unfold SLeafSim.num.
  rewrite (rank_le N) by apply Hk || apply Hok. naive_solver.
Qed.

Lemma upsert_args_num n f kv raw : sleaf_wf n f -> supsert_args n f kv raw -> upsert_args C (leaf_num n) f (kv_num kv) raw.
Proof.
  intros Hwf [Hk Hh Hr _]. split; [by apply (skey_range N)| |done].
  intros Hs. apply (below_high_num n f); [done|done|done|]. by apply Hh.
Qed.

(** no split: the old pair is replaced, or a slot was free *)
Lemma upsert_stay n f kv rnode haddr raw :
  sleaf_wf n f -> supsert_args n f kv raw ->
  (pairs n !! str (skv_key kv) = None -> lbitmap n <> Z.ones 64) ->
  let f' := stored_fields (pairs n !! str (skv_key kv)) f in
  exists n', SLeaf.upsert n kv rnode haddr raw = Some (SLeaf.mkUpsert (pairs n !! str (skv_key kv)) n' None)
    /\ sleaf_wf n' f' /\ Control.f_sibling f' = Control.f_sibling f
    /\ pairs n' = <[str (skv_key kv) := kv]> (pairs n) /\ lhigh n' = lhigh n /\ lsibling n' = lsibling n.
Proof.
  intros Hwf Hargs Hroom f'. pose proof Hargs as [Hk _ _ Hs]. pose proof (sw_leaf n f Hwf) as Hl.
  rewrite <- (content_pairs_None n f) in Hroom by done.
  pose proof (upsert_num N HN n kv f rnode haddr raw Hl (swf_keys_ok n f Hwf) Hk Hroom) as E.
  destruct (upsert_content C (leaf_num n) f (kv_num kv) rnode raw Hl (upsert_args_num n f kv raw Hwf Hargs))
    as (r' & Er & Ho & H). rewrite Er in E.
  destruct (SLeaf.upsert n kv rnode haddr raw) as [[o n' rn]|] eqn:Eu; [|done]. apply (inj Some) in E. subst r'.
  cbn [upsert_res_num Leaf.u_old Leaf.u_this Leaf.u_rnode SLeaf.u_old SLeaf.u_this SLeaf.u_rnode] in *.
  assert (rn = None) as ->.
  { destruct rn as [[rn mid]|]; [|done]. destruct H as (Hfull & Hnone & _). by destruct (Hroom Hnone). }
  destruct (stored_fields_same (pairs n !! str (skv_key kv)) f) as (Hf & _).
  destruct H as (Hn' & Hc & _ & Hsib). cbn [SLeafSim.kv_num kv_key] in Ho, Hc.
  rewrite (content_pairs n f) in Ho by done. apply opt_num_inj in Ho as ->.
  pose proof (upsert_high n kv f rnode haddr raw (wf_valid _ _ _ Hl) (wf_word _ _ _ Hl) (swf_keys_ok n f Hwf) Hs _ Eu) as Hh.
  change (lhigh n' = lhigh n) in Hh.
  exists n'. split; [done|]. assert (leaf_wf C (leaf_num n') f') as Hn2.
  { unfold f'. cbn [kv_key SLeafSim.kv_num] in Hn'. rewrite (content_pairs n f) in Hn' by done. by destruct (pairs n !! _). }
  destruct (insert_wf n f n' f' kv) as [Hwf' Hp]; [done..|]. done.
Qed.

(** a split *)
Lemma upsert_divide n f kv rnode haddr raw :
  sleaf_wf n f -> supsert_args n f kv raw -> pairs n !! str (skv_key kv) = None -> lbitmap n = Z.ones 64 ->
  exists n' rn' s, SLeaf.upsert n kv rnode haddr raw
      = Some (SLeaf.mkUpsert None n' (Some (rn', Some (mkAnchor haddr s))))
    /\ lhigh n' = Some (mkAnchor haddr s) /\ skey_ok s
    /\ (lhigh rn' = lhigh n \/ lhigh rn' = None /\ Control.f_sibling f = false)
    /\ sleaf_wf n' (Control.with_sibling (splitting_fields f) true)
    /\ sleaf_wf rn' (new_fields (Control.f_sibling f))
    /\ (forall x, shas n' x <-> (x = kv \/ shas n x) /\ num (skv_key x) <= num s)
    /\ (forall x, shas rn' x <-> (x = kv \/ shas n x) /\ num s < num (skv_key x))
    /\ lsibling n' = Some rnode /\ (Control.f_sibling f = true -> lsibling rn' = lsibling n)
    /\ (exists x, shas n x /\ num (skv_key x) = num s) /\ (exists x, shas rn' x).
Proof.
  intros Hwf Hargs Hnone Hfull. pose proof Hargs as [Hk _ [Hlr Hbr] Hs]. pose proof (sw_leaf n f Hwf) as Hl.
  rewrite <- (content_pairs_None n f) in Hnone by done. pose proof (upsert_args_num n f kv raw Hwf Hargs) as [Hin Hhigh _].
  pose proof (upsert_split_num N HN n kv f rnode haddr raw Hl (swf_keys_ok n f Hwf) Hk Hnone Hfull Hs) as E.
  cbv zeta in E. fold (splitting_fields f) in E. destruct (begin_splitting_eq f (wf_valid _ _ _ Hl) Hs) as [_ Hv].
  set (g := splitting_fields f) in *. set (m := Leaf.set_control (leaf_num n) (Control.encode g)) in *.
  assert (body_wf C m) as Hm by (by apply set_control_body, Hl).
  destruct (split_spec C m g (kv_num kv) rnode raw Hm Hfull eq_refl Hv (wf_high _ _ _ Hl) Hlr Hbr)
    as (m2 & rm2 & r & idx & Es & Hok).
  rewrite Es, bind_Some in E.
  destruct (split_insert C m g (kv_num kv) rnode m2 rm2 r idx Hm Hv (wf_leaf _ _ _ Hl) eq_refl Hin Hnone)
    as (m' & rm' & Ei & H1 & H2 & Hh1 & Hh2 & Hsib & Hrsib & Hmid & Hne); [|done|].
  { intros x Hfs [->|Hx]; [by apply Hhigh|]. by apply (wf_bounded C (leaf_num n) f Hl). }
  pose proof (eq_trans E Ei) as E'. clear E Ei. rename E' into E. destruct (SLeaf.upsert n kv rnode haddr raw) as [[o n' rn]|] eqn:Eu; [|done]. apply (inj Some) in E.
  pose proof (upsert_high n kv f rnode haddr raw (wf_valid _ _ _ Hl) (wf_word _ _ _ Hl) (swf_keys_ok n f Hwf) Hs _ Eu) as Hh.
  destruct rn as [[rn' mid]|]; [|done]. destruct o as [o|]; [done|]. destruct Hh as ((s & Hsk & Ea & ->) & Har).
  cbn [SLeaf.u_this SLeaf.u_rnode] in Ea, Har.
  assert (leaf_num n' = m') as <- by exact (f_equal Leaf.u_this E).
  assert (Some (leaf_num rn', num s) = Some (rm', kc_mid C (high_key_ (leaf_num n')))) as Er by exact (f_equal Leaf.u_rnode E).
  apply (inj Some), pair_equal_spec in Er as [<- Er].
  assert (high_key_ (leaf_num n') = num s) as Eh by (cbn; by rewrite Ea).
  rewrite Eh in Hh1, Hh2.
  change (Control.f_sibling g) with (Control.f_sibling f) in *. change (has m) with (has (leaf_num n)) in Hh1, Hh2.
  assert (forall x, kv_num x = kv_num kv <-> x = kv) as Hinj by (intros x; split; [apply kv_num_inj|by intros ->]).
  assert (forall x, shas n' x <-> (x = kv \/ shas n x) /\ num (skv_key x) <= num s) as Hn'
    by (intros x; by rewrite <- has_kv, Hh1, Hinj, has_kv).
  assert (forall x, shas rn' x <-> (x = kv \/ shas n x) /\ num s < num (skv_key x)) as Hrn'
    by (intros x; by rewrite <- has_kv, Hh2, Hinj, has_kv).
  assert (forall x, x = kv \/ shas n x -> skey_ok (skv_key x)) as Hkeys.
  { intros x [->|Hx]; [done|by apply (sw_keys n f Hwf)]. }
  exists n', rn', s. do 4 (split; [done|]).
  split; [split; [done|intros x [Hx _]%Hn'; by apply Hkeys|rewrite Ea; by intros a [= <-]|by rewrite Ea]|].
  split; [split; [done|intros x [Hx _]%Hrn'; by apply Hkeys| |]|].
  { destruct Har as [->|[-> _]]; [apply Hwf|done]. }
  { destruct Har as [->|[_ Hf]]; [apply Hwf|cbn; by rewrite Hf]. }
  split; [exact Hn'|]. split; [exact Hrn'|].
  split; [done|]. split; [intros Hf; by destruct (Hrsib Hf)|]. rewrite Eh in Hmid. change (has m) with (has (leaf_num n)) in Hmid.
  split.
  - destruct Hmid as (y & (x & -> & Hx)%has_num & Hy). by exists x.
  - destruct Hne as (y & (x & -> & Hx)%has_num). by exists x.
Qed.

(** the two nodes of a split share the pairs *)
Lemma pairs_split n f n1 f1 n2 f2 kv s :
  sleaf_wf n f -> sleaf_wf n1 f1 -> sleaf_wf n2 f2 -> skey_ok (skv_key kv) -> pairs n !! str (skv_key kv) = None ->
  (forall x, shas n1 x <-> (x = kv \/ shas n x) /\ num (skv_key x) <= num s) ->
  (forall x, shas n2 x <-> (x = kv \/ shas n x) /\ num s < num (skv_key x)) ->
  pairs n1 ∪ pairs n2 = <[str (skv_key kv) := kv]> (pairs n).
Proof.
  intros Hwf H1 H2 Hk Hnone Hh1 Hh2. apply map_eq. intros k. apply option_eq. intros x.
  rewrite lookup_union_Some_raw, lookup_insert_Some, (pairs_lookup n1 f1), (pairs_None n1 f1), (pairs_lookup n2 f2),
    (pairs_lookup n f), Hh1, Hh2 by done.
  pose proof (proj1 (pairs_None n f Hwf (str (skv_key kv))) Hnone) as Hnew. split.
  - intros [(<- & [->|Hx] & _)|(_ & <- & [->|Hx] & _)]; auto; right; split; auto; intros E; by apply (Hnew x Hx).
  - intros Hx. assert (str (skv_key x) = k /\ (x = kv \/ shas n x)) as [<- Hx'] by naive_solver.
    destruct (decide (num (skv_key x) <= num s)) as [Hle|Hgt]; [by left|]. right. split; [|split; [done|split; [done|lia]]].
    intros y [_ Hy]%Hh1 E. apply Hgt. unfold SLeafSim.num in *. by rewrite <- E.
Qed.

(** ** [remove] *)

(** what the memory holds for the right sibling *)
Record ssibling_ok (mem : Z -> option (sleaf V)) n (ra : Z) rn (g : Control.fields) : Prop := {
  ssib_addr : lsibling n = Some ra;
  ssib_mem : mem ra = Some rn;
  ssib_wf : sleaf_wf rn g;
  ssib_unlocked : Control.f_locked g = false;
  ssib_live : Control.f_deleted g = false;
  ssib_above x a : shas rn x -> lhigh n = Some a -> lex_lt (str (an_str a)) (str (skv_key x));
  ssib_high a b : Control.f_sibling g = true -> lhigh n = Some a -> lhigh rn = Some b ->
    lex_le (str (an_str a)) (str (an_str b));
}.

Lemma sibling_ok_num mem n f ra rn g :
  sleaf_wf n f -> Control.f_sibling f = true -> ssibling_ok mem n ra rn g ->
  sibling_ok C (mem_num N mem) (leaf_num n) ra (leaf_num rn) g.
Proof.
  intros Hwf Hs [Ha Hm Hg Hl Hd Habove Hhigh]. destruct (sw_sib n f Hwf Hs) as [a Hna].
  pose proof (sw_high n f Hwf a Hna) as Hak.
  split; [done|unfold mem_num; by rewrite Hm|apply Hg|done|done| |].
  - intros y (x & -> & Hx)%has_num. cbn. rewrite Hna. apply (rank_lt N); [apply Hak|by apply (sw_keys rn g Hg)|].
    by apply Habove.
  - destruct (Control.f_sibling g) eqn:Eg; [left|by right]. destruct (sw_sib rn g Hg Eg) as [b Hb].
    cbn. rewrite Hna, Hb. apply (rank_le N); [apply Hak|by apply (sw_high rn g Hg)|]. by apply Hhigh.
Qed.

(** deleting a key, and joining with the pairs of the sibling (none, if there is no merge) *)
Lemma delete_join_wf n n' (f f' : Control.fields) key (more : gmap (list Z) (skvpair V)) (more' : gmap Z (kvpair (skvpair V))) :
  sleaf_wf n f -> skey_ok key -> leaf_wf C (leaf_num n') f' ->
  content (leaf_num n') = delete (num key) (content (leaf_num n)) ∪ more' ->
  (forall s, ~ short_key N s -> more !! s = None) ->
  (forall k, skey_ok k -> more' !! num k = kv_num <$> more !! str k) ->
  (forall k kv, more' !! k = Some (kv_num kv) -> skey_ok (skv_key kv)) ->
  (forall a, lhigh n' = Some a -> skey_ok (an_str a)) -> (Control.f_sibling f' = true -> is_Some (lhigh n')) ->
  sleaf_wf n' f' /\ pairs n' = delete (str key) (pairs n) ∪ more.
Proof.
  intros Hwf Hk Hn' Hc Hshort Hmore Hkeys Hh Hf. assert (sleaf_wf n' f') as Hwf'.
  { split; [done| |done|done]. apply (keys_from n' _ f' Hn'). intros k x. rewrite Hc, lookup_union_Some_raw.
    intros [[_ H]%lookup_delete_Some|[_ H]]; [by eapply content_key|by eapply Hkeys]. }
  split; [done|]. apply (pairs_eq n' f' Hwf').
  - intros s Hs. rewrite lookup_union_None, lookup_delete_None. split; [right; by apply (pairs_short n f)|by apply Hshort].
  - intros k Hkk. rewrite Hc, !lookup_union, Hmore by done. destruct (decide (str key = str k)) as [E|Hne].
    + unfold SLeafSim.num. rewrite E, !lookup_delete_eq. by destruct (more !! str k).
    + rewrite !lookup_delete_ne by (try done; by apply num_ne). rewrite (content_pairs n f) by done.
      by destruct (pairs n !! str k), (more !! str k).
Qed.

Lemma remove_pairs mem this n f key ra rn g :
  sleaf_wf n f -> skey_ok key -> (Control.f_sibling f = true -> ssibling_ok mem n ra rn g) ->
  exists n' mr merged,
    SLeaf.remove mem this n key = Some (pairs n !! str key, SLeaf.mkMerge n' mr merged)
    /\ (exists f', sleaf_wf n' f' /\ removed_flags f g (bool_decide (is_Some merged)) f')
    /\ if bool_decide (is_Some (pairs n !! str key)) && Control.f_sibling f
          && ((popcount 64 (lbitmap n) - 1 + popcount 64 (lbitmap rn) <=? 32)
              || (popcount 64 (lbitmap n) =? 1))
       then pairs n' = delete (str key) (pairs n) ∪ pairs rn
         /\ lhigh n' = lhigh rn /\ lsibling n' = lsibling rn /\ merged = Some (lhigh n)
         /\ exists rn', mr = Some (ra, rn') /\ lcontrol rn' = Control.encode (Control.merged_fields g)
              /\ (forall x, ~ shas rn' x) /\ lsibling rn' = Some this
       else pairs n' = delete (str key) (pairs n)
         /\ lhigh n' = lhigh n /\ lsibling n' = lsibling n /\ merged = None /\ mr = None.
Proof.
  intros Hwf Hk Hsib. pose proof (sw_leaf n f Hwf) as Hl.
  pose proof (remove_num N HN mem this n key (swf_keys_ok n f Hwf) Hk) as E.
  destruct (remove_content C (mem_num N mem) this (leaf_num n) f (num key) ra (leaf_num rn) g Hl)
    as (m' & mr' & mg' & Em & (f' & Hm' & Hf') & H); [intros Hs; eapply sibling_ok_num; eauto|].
  rewrite Em in E. rewrite (content_pairs n f) in E, H by done.
  destruct (SLeaf.remove mem this n key) as [[o [n' mr mg]]|] eqn:Er; [|done].
  apply (inj Some), pair_equal_spec in E as [E1 E2]. cbn [fst snd] in E1, E2. apply opt_num_inj in E1 as ->.
  pose proof (remove_high mem this n key _ Er) as Hh. cbn [snd] in Hh. unfold merge_post in Hh. cbn [SLeaf.m_merged SLeaf.m_this] in Hh.
  assert (leaf_num n' = m') as <- by exact (f_equal Leaf.m_this E2).
  assert (prod_map id leaf_num <$> mr = mr') as <- by exact (f_equal Leaf.m_rnode E2).
  assert (high_num N <$> mg = mg') as <- by exact (f_equal Leaf.m_merged E2). clear E2 Em.
  exists n', mr, mg. split; [done|].
  replace (bool_decide (is_Some (kv_num <$> pairs n !! str key))) with (bool_decide (is_Some (pairs n !! str key))) in H
    by (apply bool_decide_ext; by rewrite fmap_is_Some).
  cbn [bitmap_ SLeafSim.leaf_num] in H.
  destruct (bool_decide _ && Control.f_sibling f && _) eqn:Hb.
  - destruct H as (Hc & _ & Hsn & Hmg & rm & Hmr & Hrm & Hce & Hsr).
    apply andb_true_iff in Hb as [[_ Hfs]%andb_true_iff _]. specialize (Hsib Hfs). pose proof (ssib_wf _ _ _ _ _ Hsib) as Hg.
    destruct mg as [mg|]; [cbn in Hf'|done]. pose proof Hf' as (_ & _ & _ & Hfs'). destruct Hh as (-> & ra' & rn2 & Ea & Er2 & Hhn). unfold high_is in Hhn.
    rewrite (ssib_addr _ _ _ _ _ Hsib) in Ea. injection Ea as <-. rewrite (ssib_mem _ _ _ _ _ Hsib) in Er2. injection Er2 as <-.
    destruct (delete_join_wf n n' f f' key (pairs rn) (content (leaf_num rn))) as [Hwf' Hp]; try done.
    + by apply (pairs_short rn g).
    + by apply (content_pairs rn g).
    + intros k x. by eapply content_key.
    + rewrite Hhn. apply Hg.
    + rewrite Hfs', Hhn. apply Hg.
    + split; [by exists f'|]. do 4 (split; [done|]).
      destruct mr as [[ra2 rn']|]; [|done]. apply (inj Some), pair_equal_spec in Hmr as [Er1 Er2].
      cbn [fst snd] in Er1, Er2. unfold id in Er1. subst ra2 rm.
      exists rn'. split; [done|]. split; [exact (wf_word _ _ _ Hrm)|]. split; [|done].
      intros x Hx%(shas_content rn'); [|apply Hrm]. by rewrite Hce in Hx.
  - destruct H as (Hc & _ & Hsn & Hmg & Hmr). apply fmap_None in Hmg as ->. apply fmap_None in Hmr as ->. cbn in Hf'.
    pose proof Hf' as (_ & _ & _ & Hfs').
    change (lhigh n' = lhigh n) in Hh.
    destruct (delete_join_wf n n' f f' key ∅ ∅) as [Hwf' Hp]; try done.
    + by rewrite (right_id_L ∅ (∪)).
    + rewrite Hh. apply Hwf.
    + rewrite Hfs', Hh. apply Hwf.
    + rewrite (right_id_L ∅ (∪)) in Hp. split; [by exists f'|]. done.
Qed.

(** ** The ordered view *)

(** the pairs are in the first slots, in the order of their keys *)
Definition sorted_pairs n : Prop :=
  (exists m, 0 <= m <= 64 /\ lbitmap n = Z.ones m)
  /\ (forall i j kv kv', i < j -> Z.testbit (lbitmap n) i = true -> Z.testbit (lbitmap n) j = true ->
        skv_at n i kv -> skv_at n j kv' -> lex_lt (str (skv_key kv)) (str (skv_key kv'))).

Lemma sorted_slots_num n f : sleaf_wf n f -> sorted_slots (leaf_num n) -> sorted_pairs n.
Proof.
  intros Hwf [Hb Hinc]. split; [exact Hb|]. intros i j x y Hij Hi Hj Hx Hy.
  apply (rank_lt N); [apply (sw_keys n f Hwf); by exists i|apply (sw_keys n f Hwf); by exists j|].
  apply (Hinc i j (kv_num x) (kv_num y)); [done|done|done| |]; apply kv_at_num; eauto.
Qed.

Lemma kv_sort_pairs n f raw :
  sleaf_wf n f -> length raw = 64%nat -> Forall is_byte raw ->
  exists n' f', SLeaf.kv_sort n raw = Some n' /\ sleaf_wf n' f' /\ Control.f_ordered f' = true
    /\ sorted_pairs n' /\ pairs n' = pairs n /\ lhigh n' = lhigh n /\ lsibling n' = lsibling n.
Proof.
  intros Hwf Hl Hb. pose proof (kv_sort_num N n raw (swf_keys_ok n f Hwf)) as E.
  destruct (kv_sort_spec C (leaf_num n) f raw (sw_leaf n f Hwf) Hl Hb) as (m & Em & Hm & Hh & _ & Hs).
  rewrite Em in E. destruct (SLeaf.kv_sort n raw) as [n'|] eqn:En; [|done]. apply (inj Some) in E. subst m.
  assert (Control.f_ordered (sorted_fields f) = true /\ Control.f_sibling (sorted_fields f) = Control.f_sibling f) as [Ho Hf]
    by (unfold sorted_fields; by destruct (Control.f_ordered f) eqn:?).
  pose proof (kv_sort_high n raw _ En) as Hhi. unfold high_is in Hhi.
  destruct (same_wf n f n' (sorted_fields f)) as [Hwf' Hp]; try done.
  { apply (content_same C); [apply Hwf|apply Hm|done]. }
  exists n', (sorted_fields f). do 3 (split; [done|]). split; [|done].
  apply (sorted_slots_num n' (sorted_fields f)); [done|]. by apply Hm.
Qed.

Definition sabove (upper : bool) key k : Prop := if upper then lex_lt (str key) (str k) else lex_le (str key) (str k).

(** the least pair at or above the key, if there is one *)
Definition is_sbound n key (upper : bool) (o : option (skvpair V)) : Prop :=
  match o with
  | Some kv => shas n kv /\ sabove upper key (skv_key kv)
      /\ (forall x, shas n x -> sabove upper key (skv_key x) -> lex_le (str (skv_key kv)) (str (skv_key x)))
  | None => forall x, shas n x -> ~ sabove upper key (skv_key x)
  end.

Lemma sabove_num upper a b : skey_ok a -> skey_ok b -> above upper (num a) (num b) <-> sabove upper a b.
Proof. intros [_ Ha] [_ Hb]. destruct upper; cbn; [by apply rank_lt|by apply rank_le]. Qed.

Lemma is_bound_num n f key upper o :
  sleaf_wf n f -> skey_ok key -> is_bound (leaf_num n) (num key) upper (opt_num N o) -> is_sbound n key upper o.
Proof.
  intros Hwf Hk. assert (forall x, shas n x -> skey_ok (skv_key x)) as Hok by apply Hwf. destruct o as [kv|]; cbn.
  - intros (Hh%has_kv & Ha & Hmin). split; [done|]. split; [apply sabove_num; auto|].
    intros x Hx Hax. apply (rank_le N); [apply Hok; done..|]. apply (Hmin (kv_num x)); [by apply has_kv|].
    apply sabove_num; auto.
  - intros H x Hx Hax. apply (H (kv_num x)); [by apply has_kv|]. apply sabove_num; auto.
Qed.

Lemma bound_pairs n f key upper :
  sleaf_wf n f -> Control.f_ordered f = true -> skey_ok key ->
  let last := popcount 64 (lbitmap n) in
  if upper && bool_decide ((fun kv => str (skv_key kv)) <$> sentry_at n (last - 1) = Some (str key)) then
    SLeaf.bound n key upper = (let* next := SLeaf.load_kv n last in Some (next, last))
    /\ is_sbound n key upper None
  else
    exists o pos, SLeaf.bound n key upper = Some (o, pos) /\ is_sbound n key upper o
      /\ (forall kv, o = Some kv -> skv_at n pos kv).
Proof.
  intros Hwf Ho Hk last. pose proof (bound_num N HN n key upper (swf_keys_ok n f Hwf) Hk) as E.
  pose proof (bound_content C (leaf_num n) f (num key) upper (sw_leaf n f Hwf) Ho) as H. cbv zeta in H.
  change (popcount 64 (bitmap_ (leaf_num n))) with last in H.
  assert (entry_at (leaf_num n) (last - 1) = kv_num <$> sentry_at n (last - 1)) as He.
  { unfold entry_at, sentry_at. cbn [kvs_ SLeafSim.leaf_num]. rewrite <- aget_fmap. by destruct (aget _ _) as [[]|]. }
  rewrite He in H. clear He.
  replace (bool_decide (kv_key <$> (kv_num <$> sentry_at n (last - 1)) = Some (num key)))
    with (bool_decide ((fun kv => str (skv_key kv)) <$> sentry_at n (last - 1) = Some (str key))) in H.
  2:{ apply bool_decide_ext. destruct (sentry_at n (last - 1)) as [kv|] eqn:Ese; [cbn|done].
      apply sentry_at_Some, (swf_keys_ok n f Hwf) in Ese. split; intros [= El]; f_equal; [|by apply (num_inj N)].
      unfold SLeafSim.num. by rewrite El. }
  destruct (upper && _).
  - destruct H as [Eb Hb]. rewrite Eb in E. split; [|apply (is_bound_num n f); [done|done|exact Hb]].
    rewrite <- load_kv_num in E. destruct (SLeaf.bound n key upper) as [[o pos]|], (SLeaf.load_kv n last) as [o'|];
      try done. cbn in E |- *. apply (inj Some), pair_equal_spec in E as [E1 E2]. unfold id in E2. subst pos.
    do 2 f_equal. destruct o, o'; try done. apply (inj Some), kv_num_inj in E1. by subst.
  - destruct H as (o' & pos & Eb & Hb & Hat). rewrite Eb in E. destruct (SLeaf.bound n key upper) as [[o pos']|]; [|done].
    apply (inj Some), pair_equal_spec in E as [E1 E2]. cbn [fst snd] in E1, E2. unfold id in E2. subst o' pos'.
    exists o, pos. split; [done|]. split; [by apply (is_bound_num n f)|]. intros kv ->.
    destruct (proj1 (kv_at_num n pos (kv_num kv)) (Hat _ eq_refl)) as (kv' & ->%kv_num_inj & Hk'). done.
Qed.
End spec.
