(* ===== verification/SLeafProps.v ===== *)
(** * Properties of the string leaf

    What [SLeaf] does to the finite map of its pairs, under the bytes of their keys. *)

From S2P Require Import Prelude Bits Simd Strings Encode Control Rank Leaf LeafSpec SInner SLeaf SLeafSim SLeafSpec.
Import SLeaf.

(** C18: A leaf with string keys finds a pair by its fingerprint and the bytes of its key: [lookup] returns the pair stored under the key, for keys of any bytes and lengths, and errs on none. [update] replaces the pair of a present key and returns the old one, and leaves the rest, and a leaf without the key, as it was. *)
Theorem string_leaf_lookup_correct {V} (N : nat) (n : sleaf V) (f : Control.fields) (key : String) (kv : skvpair V) :
  Z.of_nat N < 2 ^ 64 -> sleaf_wf N n f -> skey_ok N key -> skey_ok N (skv_key kv) ->
  lookup n key = Some (pairs n !! str key)
  /\ exists n', update n kv = Some (pairs n !! str (skv_key kv), n') /\ sleaf_wf N n' f
       /\ pairs n' = match pairs n !! str (skv_key kv) with
                     | Some _ => <[str (skv_key kv) := kv]> (pairs n)
                     | None => pairs n
                     end
      /\ lhigh n' = lhigh n /\ lsibling n' = lsibling n.
Proof.
  intros HN Hwf Hk Hkv. split; [by apply (lookup_pairs N HN n f)|by apply (update_pairs N HN n f)].
Qed.

(** C19: [upsert] into a string leaf returns the old pair and stores the new one: in place of the old one, or in a free slot. A full leaf without the key is split into two well-formed leaves, linked to each other, whose maps together are the old one with the pair added; the left leaf gets as high key, and [upsert] returns, a new string at the address given, which is at or above every key on the left and below every key on the right; the right leaf inherits the high key and the link. *)
Theorem string_leaf_upsert_correct {V} (N : nat) (n : sleaf V) (f : Control.fields) (kv : skvpair V)
    (rnode haddr : Z) (raw_tags : list Z) :
  Z.of_nat N < 2 ^ 64 -> sleaf_wf N n f -> supsert_args N n f kv raw_tags ->
  if bool_decide (pairs n !! str (skv_key kv) = None) && bool_decide (lbitmap n = Z.ones 64) then
    exists n' rn' s,
      upsert n kv rnode haddr raw_tags = Some (mkUpsert None n' (Some (rn', Some (mkAnchor haddr s))))
      /\ sleaf_wf N n' (Control.with_sibling (splitting_fields f) true) /\ sleaf_wf N rn' (new_fields (Control.f_sibling f))
      /\ pairs n' ∪ pairs rn' = <[str (skv_key kv) := kv]> (pairs n)
      /\ (forall x, shas n' x -> lex_le (str (skv_key x)) (str s))
      /\ (forall x, shas rn' x -> lex_lt (str s) (str (skv_key x)))
      /\ lhigh n' = Some (mkAnchor haddr s) /\ lsibling n' = Some rnode
      /\ (Control.f_sibling f = true -> lsibling rn' = lsibling n /\ lhigh rn' = lhigh n)
  else
    exists n' f', upsert n kv rnode haddr raw_tags = Some (mkUpsert (pairs n !! str (skv_key kv)) n' None)
      /\ sleaf_wf N n' f' /\ Control.f_sibling f' = Control.f_sibling f
      /\ pairs n' = <[str (skv_key kv) := kv]> (pairs n) /\ lhigh n' = lhigh n /\ lsibling n' = lsibling n.
Proof.
  intros HN Hwf Hargs. pose proof Hargs as [Hk _ _ _].
  destruct (bool_decide (pairs n !! _ = None)) eqn:E1; cbn [andb];
    [destruct (bool_decide (lbitmap n = _)) eqn:E2|]; rewrite ?bool_decide_eq_true, ?bool_decide_eq_false in *.
  2-3: destruct (upsert_stay N HN n f kv rnode haddr raw_tags Hwf Hargs) as (n' & E & H); [naive_solver|by eexists _, _].
  destruct (upsert_divide N HN n f kv rnode haddr raw_tags Hwf Hargs E1 E2)
    as (n' & rn' & s & E & Hh & Hs & Hrh & W1 & W2 & Hn' & Hrn' & Hsn & Hsr & _).
  assert (forall x, x = kv \/ shas n x -> skey_ok N (skv_key x)) as Hok.
  { intros x [->|Hx]; [done|by apply (sw_keys N n f Hwf)]. }
  exists n', rn', s. do 3 (split; [done|]). split; [by eapply pairs_split; [exact Hwf|exact W1|exact W2|..]|].
  split; [intros x [Hx Hle]%Hn'; apply (rank_le N); [by apply Hok|apply Hs|done]|].
  split; [intros x [Hx Hlt]%Hrn'; apply (rank_lt N); [apply Hs|by apply Hok|done]|].
  do 2 (split; [done|]). intros Hf. split; [by apply Hsr|]. destruct Hrh as [?|[_ ?]]; [done|congruence].
Qed.

(** C20: [remove] deletes the pair of a string key and returns it (null if there is none). It merges the right sibling into the leaf exactly when the leaf becomes empty or the two hold at most 32 pairs together; then the leaf has the pairs, the high key and the link of both, the string that was its high key is handed to the caller, and the sibling is left empty, marked deleted, pointing back to the leaf. *)
Theorem string_leaf_remove_correct {V} (N : nat) (mem : Z -> option (sleaf V)) (this : Z) (n : sleaf V)
    (f : Control.fields) (key : String) (ra : Z) (rn : sleaf V) (g : Control.fields) :
  Z.of_nat N < 2 ^ 64 -> sleaf_wf N n f -> skey_ok N key ->
  (Control.f_sibling f = true -> ssibling_ok N mem n ra rn g) ->
  exists n' mr merged,
    remove mem this n key = Some (pairs n !! str key, mkMerge n' mr merged)
    /\ (exists f', sleaf_wf N n' f' /\ removed_flags f g (bool_decide (is_Some merged)) f')
    /\ if bool_decide (is_Some (pairs n !! str key)) && Control.f_sibling f
          && ((popcount 64 (lbitmap n) - 1 + popcount 64 (lbitmap rn) <=? 32)
              || (popcount 64 (lbitmap n) =? 1))
       then pairs n' = delete (str key) (pairs n) ∪ pairs rn
         /\ lhigh n' = lhigh rn /\ lsibling n' = lsibling rn /\ merged = Some (lhigh n)
         /\ exists rn', mr = Some (ra, rn') /\ lcontrol rn' = Control.encode (Control.merged_fields g)
              /\ (forall x, ~ shas rn' x) /\ lsibling rn' = Some this
       else pairs n' = delete (str key) (pairs n)
         /\ lhigh n' = lhigh n /\ lsibling n' = lsibling n /\ merged = None /\ mr = None.
Proof. intros HN. exact (remove_pairs N HN mem this n f key ra rn g). Qed.

(** C21: [kv_sort] puts the pairs of a string leaf into the first slots in lexicographic order and changes none; [bound] then returns the least pair at or above the key, or above it, unless an upper bound of the greatest key is asked for: then line 924 drops the pair it builds, and the code reads the slot after the last one. *)
Theorem string_leaf_order_correct {V} (N : nat) (n : sleaf V) (f : Control.fields) (raw_tags : list Z) :
  Z.of_nat N < 2 ^ 64 -> sleaf_wf N n f -> length raw_tags = 64%nat -> Forall is_byte raw_tags ->
  exists n' f', kv_sort n raw_tags = Some n' /\ sleaf_wf N n' f' /\ Control.f_ordered f' = true
    /\ sorted_pairs n' /\ pairs n' = pairs n /\ lhigh n' = lhigh n /\ lsibling n' = lsibling n
    /\ forall key upper, skey_ok N key ->
         let last := popcount 64 (lbitmap n') in
         if upper && bool_decide ((fun kv => str (skv_key kv)) <$> sentry_at n' (last - 1) = Some (str key)) then
           bound n' key upper = (let* next := load_kv n' last in Some (next, last))
           /\ is_sbound n' key upper None
         else
           exists o pos, bound n' key upper = Some (o, pos) /\ is_sbound n' key upper o
             /\ (forall kv, o = Some kv -> skv_at n' pos kv).
Proof.
  intros HN Hwf Hl Hb. destruct (kv_sort_pairs N n f raw_tags Hwf Hl Hb) as (n' & f' & E & H1 & H2 & H3 & H4 & H5 & H6).
  exists n', f'. do 7 (split; [done|]). intros key upper Hk. by apply (bound_pairs N HN n' f').
Qed.

(** ** The properties at concrete leaves *)

Definition bytes_key (b : list Z) : String := mkString (Z.of_nat (length b)) b.
Definition sex_kv (b : list Z) : skvpair unit := mkSKV (4096 + of_bytes b) (bytes_key b) tt.
Definition sex_upsert (n : sleaf unit) (b : list Z) : sleaf unit :=
  match upsert n (sex_kv b) 0 0 ex_raw with Some r => u_this r | None => n end.
Definition sex_empty : sleaf unit := LeafNode ex_raw.
Definition sex_leaf (a b : list Z) : sleaf unit := sex_upsert (sex_upsert sex_empty a) b.
(** strings of at most four bytes *)
Notation N4 := 4%nat.
Lemma N4_ok : Z.of_nat N4 < 2 ^ 64.
Proof. reflexivity. Qed.

Lemma bytes_key_ok b : short_key N4 b -> skey_ok N4 (bytes_key b).
Proof. by split. Qed.

Lemma sex_empty_ok : sleaf_wf N4 sex_empty (new_fields false) /\ (forall x, ~ shas sex_empty x).
Proof.
  destruct (ex_raw_ok) as [Hl Hb].
  assert (forall x, ~ shas sex_empty x) as Hno by (intros x (i & Hi & _); cbn in Hi; by rewrite Z.bits_0 in Hi).
  split; [|done]. split; [|by intros x ?%Hno|done|done].
  unfold sex_empty. rewrite LeafNode_num. by apply (LeafNode_leaf_wf (string_code N4)).
Qed.

Lemma sex_upsert_ok n f b :
  sleaf_wf N4 n f -> Control.f_sibling f = false -> Z.land (lcontrol n) Control.kSplitMask = 0 -> short_key N4 b ->
  lbitmap n <> Z.ones 64 ->
  exists f', sleaf_wf N4 (sex_upsert n b) f' /\ Control.f_sibling f' = false
    /\ pairs (sex_upsert n b) = <[b := sex_kv b]> (pairs n).
Proof.
  intros Hwf Hs Hp Hb Hbm. destruct (upsert_stay N4 N4_ok n f (sex_kv b) 0 0 ex_raw) as (n' & E & H1 & H2 & H3 & _).
  - done.
  - split; [by apply bytes_key_ok|by rewrite Hs|exact ex_raw_ok|].
    pose proof (sw_leaf _ _ _ Hwf) as Hl. pose proof (wf_word _ _ _ Hl) as Hc. cbn [control_ leaf_num] in Hc.
    rewrite Hc, Control.encode_split in Hp by apply Hl. lia.
  - done.
  - eexists. unfold sex_upsert. rewrite E. cbn [u_this]. split; [done|]. split; [congruence|done].
Qed.

Lemma sex_leaf_ok a b :
  short_key N4 a -> short_key N4 b ->
  Z.land (lcontrol (sex_upsert sex_empty a)) Control.kSplitMask = 0 -> lbitmap (sex_upsert sex_empty a) <> Z.ones 64 ->
  exists f, sleaf_wf N4 (sex_leaf a b) f /\ Control.f_sibling f = false
    /\ pairs (sex_leaf a b) = <[b := sex_kv b]> {[a := sex_kv a]}.
Proof.
  intros Ha Hb Hc Hm. destruct sex_empty_ok as [H0 Hno].
  destruct (sex_upsert_ok sex_empty (new_fields false) a) as (f1 & H1 & Hs1 & E1); [done..|].
  destruct (sex_upsert_ok (sex_upsert sex_empty a) f1 b) as (f2 & H2 & Hs2 & E2); [done..|].
  exists f2. split; [done|]. split; [done|]. unfold sex_leaf. rewrite E2, E1. f_equal.
Qed.

(** "b" and "ab"; "d" and "dd" *)
Definition sex_left : sleaf unit := sex_leaf [98] [97; 98].
Definition sex_right : sleaf unit := sex_leaf [100] [100; 100].

Lemma sex_left_ok : exists f, sleaf_wf N4 sex_left f /\ Control.f_sibling f = false
  /\ pairs sex_left = <[[97; 98] := sex_kv [97; 98]]> {[[98] := sex_kv [98]]}.
Proof. apply sex_leaf_ok; first [by apply (bool_decide_unpack _); vm_compute|by vm_compute]. Qed.

Lemma sex_right_ok : exists f, sleaf_wf N4 sex_right f /\ Control.f_sibling f = false
  /\ pairs sex_right = <[[100; 100] := sex_kv [100; 100]]> {[[100] := sex_kv [100]]}.
Proof. apply sex_leaf_ok; first [by apply (bool_decide_unpack _); vm_compute|by vm_compute]. Qed.

(** a leaf with a high key, and a link to the leaf at [a] *)
Definition slink (n : sleaf unit) (f : Control.fields) (h : anchor) (a : Z) : sleaf unit :=
  set_sibling_ (set_high (set_control n (Control.encode (Control.with_sibling f true))) (Some h)) (Some a).

Lemma slink_ok n f h a :
  sleaf_wf N4 n f -> skey_ok N4 (an_str h) -> (forall x, shas n x -> num N4 (skv_key x) <= num N4 (an_str h)) ->
  sleaf_wf N4 (slink n f h a) (Control.with_sibling f true).
Proof.
  intros Hwf Hh Hle. split; [|apply Hwf|by intros ? [= <-]|done].
  apply (link_leaf_wf (string_code N4) (leaf_num N4 n) f (num N4 (an_str h)) a); [apply Hwf|by apply skey_range|].
  intros y (x & -> & Hx)%has_num. by apply Hle.
Qed.

(** the left leaf with the high key "c", linked to the right one *)
Definition sex_high : anchor := mkAnchor 9000 (bytes_key [99]).
Definition sex_linked : sleaf unit := slink sex_left ex_fields sex_high 2.
Definition sex_mem (a : Z) : option (sleaf unit) := if a =? 2 then Some sex_right else None.

(** the fields of a leaf are those that its word says *)
Lemma fields_of (n : sleaf unit) f g :
  sleaf_wf N4 n f -> Control.valid g -> lcontrol n = Control.encode g -> f = g.
Proof.
  intros Hwf Hg E. pose proof (sw_leaf _ _ _ Hwf) as Hl. pose proof (wf_word _ _ _ Hl) as Hc. cbn [control_ leaf_num] in Hc.
  apply Control.encode_inj; [apply Hl|done|congruence].
Qed.

Lemma ex_fields_valid : Control.valid ex_fields.
Proof. by vm_compute. Qed.

Lemma sex_linked_ok : sleaf_wf N4 sex_linked (Control.with_sibling ex_fields true).
Proof.
  destruct sex_left_ok as (f & Hwf & Hs & Hp).
  assert (f = ex_fields) as -> by (apply (fields_of sex_left); [exact Hwf|exact ex_fields_valid|vm_compute; reflexivity]).
  apply slink_ok; [exact Hwf|apply bytes_key_ok, (bool_decide_unpack _); by vm_compute|].
  intros x Hx. assert (pairs sex_left !! str (skv_key x) = Some x) as Hl by (apply (pairs_lookup N4 sex_left _ Hwf); by split).
  rewrite Hp in Hl. apply lookup_insert_Some in Hl as [[_ <-]|[_ [_ <-]%lookup_singleton_Some]]; by vm_compute.
Qed.

Lemma sex_sibling_ok : exists g, ssibling_ok N4 sex_mem sex_linked 2 sex_right g.
Proof.
  destruct sex_right_ok as (g & Hwf & Hs & Hp). exists g.
  assert (g = ex_fields) as -> by (apply (fields_of sex_right); [exact Hwf|exact ex_fields_valid|vm_compute; reflexivity]).
  split; [reflexivity|reflexivity|exact Hwf|reflexivity|reflexivity| |intros ? ? Hf; discriminate Hf]. intros x a Hx Ea.
  change (Some sex_high = Some a) in Ea. apply (inj Some) in Ea as <-.
  assert (pairs sex_right !! str (skv_key x) = Some x) as Hl by (apply (pairs_lookup N4 sex_right _ Hwf); by split).
  rewrite Hp in Hl. apply lookup_insert_Some in Hl as [[_ <-]|[_ [_ <-]%lookup_singleton_Some]]; done.
Qed.

Lemma string_leaf_lookup_correct_witness :
  lookup sex_left (bytes_key [97; 98]) = Some (Some (sex_kv [97; 98]))
  /\ exists n', update sex_left (mkSKV 77 (bytes_key [98]) tt) = Some (Some (sex_kv [98]), n').
Proof.
  destruct sex_left_ok as (f & Hwf & _ & Hp).
  destruct (string_leaf_lookup_correct N4 sex_left f (bytes_key [97; 98]) (mkSKV 77 (bytes_key [98]) tt) N4_ok Hwf)
    as (E1 & n' & E2 & _).
  - apply bytes_key_ok, (bool_decide_unpack _). by vm_compute.
  - apply bytes_key_ok, (bool_decide_unpack _). by vm_compute.
  - rewrite Hp in E1, E2. split; [rewrite E1; by vm_compute|]. exists n'. rewrite E2. by vm_compute.
Defined.

Lemma string_leaf_upsert_correct_witness :
  exists n', upsert sex_linked (sex_kv [97]) 3 5 ex_raw = Some (mkUpsert None n' None)
    /\ pairs n' !! [97] = Some (sex_kv [97]).
Proof.
  pose proof (string_leaf_upsert_correct N4 sex_linked _ (sex_kv [97]) 3 5 ex_raw N4_ok sex_linked_ok) as H.
  match type of H with _ -> (if ?b then _ else _) => assert (b = false) as Hb by (by vm_compute) end.
  rewrite Hb in H. destruct H as (n' & f' & E & _ & _ & Hp & _).
  - split; [apply bytes_key_ok, (bool_decide_unpack _); by vm_compute|intros _ a Ea; change (Some sex_high = Some a) in Ea; apply (inj Some) in Ea as <-; done|exact ex_raw_ok|done].
  - exists n'. split; [rewrite E; by vm_compute|]. rewrite Hp. by vm_compute.
Defined.

Lemma string_leaf_remove_correct_witness :
  exists n' rn', remove sex_mem 1 sex_linked (bytes_key [98])
    = Some (Some (sex_kv [98]), mkMerge n' (Some (2, rn')) (Some (Some sex_high)))
    /\ pairs n' !! [100; 100] = Some (sex_kv [100; 100]).
Proof.
  destruct sex_sibling_ok as (g & Hg).
  destruct (string_leaf_remove_correct N4 sex_mem 1 sex_linked _ (bytes_key [98]) 2 sex_right g N4_ok sex_linked_ok)
    as (n' & mr & merged & E & _ & H).
  - apply bytes_key_ok, (bool_decide_unpack _). by vm_compute.
  - intros _. exact Hg.
  - assert (bool_decide (is_Some (pairs sex_linked !! str (bytes_key [98])))
      && Control.f_sibling (Control.with_sibling ex_fields true)
      && ((popcount 64 (lbitmap sex_linked) - 1 + popcount 64 (lbitmap sex_right) <=? 32)
          || (popcount 64 (lbitmap sex_linked) =? 1)) = true) as Hb by (by vm_compute).
    rewrite Hb in H. destruct H as (Hp & _ & _ & -> & rn' & -> & _). exists n', rn'.
    split; [rewrite E; by vm_compute|]. rewrite Hp. by vm_compute.
Defined.

Lemma string_leaf_order_correct_witness :
  exists n', kv_sort sex_left ex_raw = Some n' /\ sorted_pairs n'
    /\ bound n' (bytes_key [98]) true = (let* next := load_kv n' (popcount 64 (lbitmap n')) in Some (next, popcount 64 (lbitmap n'))).
Proof.
  destruct sex_left_ok as (f & Hwf & _ & _). destruct ex_raw_ok as [Hl Hb].
  destruct (string_leaf_order_correct N4 sex_left f ex_raw N4_ok Hwf Hl Hb) as (n' & f' & E & _ & _ & H1 & _ & _ & _ & H2).
  exists n'. split; [exact E|]. split; [exact H1|]. specialize (H2 (bytes_key [98]) true). cbv zeta in H2.
  assert (Some n' = kv_sort sex_left ex_raw) as En by (symmetry; exact E).
  assert (true && bool_decide ((fun kv : skvpair unit => str (skv_key kv)) <$> sentry_at n' (popcount 64 (lbitmap n') - 1)
    = Some (str (bytes_key [98]))) = true) as Hc.
  { vm_compute in En. injection En as ->. by vm_compute. }
  rewrite Hc in H2. apply H2. apply bytes_key_ok, (bool_decide_unpack _). by vm_compute.
Defined.
