(* ===== verification/SInnerKind.v ===== *)
(** * The inner nodes of string keys, as a kind of inner nodes

    The keys of the tree are the strings that the search of an inner node is right for
    (see [searchable]): not empty, without a zero byte, and of at most [N] bytes, where
    [N] is at most 224, the bytes of a prefix that a node keeps. A separator, a pointer to
    a string, stands for the number of the string ([Rank]). With that the laws of [Cover]
    are what [SInnerOps] and [SInnerProps] prove; and the search of a node that links to
    a level finds the entry where a key is located. *)

From S2P Require Import Prelude Bits Simd Strings Moves Encode Control Rank Leaf LeafSpec Inner InnerSpec SInner SInnerSpec SInnerOps SInnerProps SLeaf SLeafSim SLeafSpec Levels Growth Words Cover.

(** ** The keys of a tree *)

Section keys.
Context (N : nat).
Abbreviation num := (num N).
Abbreviation skey_ok := (skey_ok N).

Definition tkey (key : String) : Prop := key_ok key /\ str key <> [] /\ (length (str key) <= N)%nat.
(** the numbers of keys *)
Definition is_key (z : Z) : Prop := exists key, tkey key /\ num key = z.

Lemma tkey_skey key : tkey key -> skey_ok key.
Proof.
  intros ([Hs Hb] & _ & Hl). split; [done|]. split; [done|]. eapply Forall_impl; [exact Hb|].
  intros c Hc. unfold is_byte. cbv beta in Hc. lia.
Qed.

Lemma tkey_string key : tkey key -> string_ok key.
Proof. intros (Hk & _). by apply key_string_ok. Qed.

(** the number has the string *)
Lemma num_string a b : skey_ok a -> skey_ok b -> num a = num b -> a = b.
Proof.
  intros Ha Hb E. pose proof (num_inj N a b Ha Hb E) as Es. destruct Ha as [Ha _], Hb as [Hb _].
  unfold str_ok in *. destruct a as [la sa], b as [lb sb]. cbn in *. subst. done.
Qed.

Lemma key_unique key : skey_ok key -> is_key (num key) -> tkey key.
Proof. intros Hk (s & Hs & E). by rewrite <- (num_string s key (tkey_skey s Hs) Hk E). Qed.

Lemma num_lt a b : skey_ok a -> skey_ok b -> num a < num b <-> lex_lt (str a) (str b).
Proof. intros [_ Ha] [_ Hb]. by apply rank_lt. Qed.
End keys.

(** ** The kind *)

Section kind.
Context (N : nat).
Abbreviation num := (num N).

Definition string_inner : ikind := {|
  ik_node := snode; ik_sep := anchor; ik_raw := SInner.raw;
  ik_knum := sknum; ik_route := sroute; ik_next := snext_; ik_word := scontrol; ik_with := SInner.set_control;
  ik_wf := snode_wf;
  ik_stands mid z := tkey N (an_str mid) /\ num (an_str mid) = z;
  ik_key := is_key N;
  ik_raw_ok := sraw_ok; ik_new := SInner.InnerNode;
  ik_insert n mid l r index rnode rw :=
    (fun x => (SInner.i_this x, SInner.i_rnode x)) <$> SInner.insert n mid l r index rnode rw;
  ik_remove mem this n mid index :=
    (fun x => mkRemoval (SInner.d_this x) (SInner.d_rnode x) (SInner.d_merged x) (SInner.d_up x) (SInner.d_key x))
    <$> SInner.remove mem this n mid index;
  ik_update := SInner.anchor_update;
|}.

Lemma sep_anchor_lt a b : sep_lt string_inner a b -> anchor_lt a b.
Proof. intros (u & v & [Ha <-] & [Hb <-] & Hlt). apply (num_lt N); [by apply tkey_skey|by apply tkey_skey|done]. Qed.

Lemma insert_at_string n sa mid index : insert_at string_inner n sa mid index -> sinsert_at n sa mid index.
Proof.
  intros [Hi [z [Hk _]] Hlt Hgt]. split; [done|by apply tkey_string in Hk| |]; intros j Hj; apply sep_anchor_lt; auto.
Qed.

Lemma right_sibling_string mem n k sa ra rn g rsa :
  right_sibling string_inner mem n k sa ra rn g rsa -> sright_sibling mem n k sa ra rn g rsa.
Proof. intros [H1 H2 H3 H4 H5 H6]. split; try done. intros i j Hi Hj. by apply sep_anchor_lt, H6. Qed.

(** the children that are left, when the separator is not the last, and when it is *)
Lemma rest_routes_join n rn index k j :
  0 <= index -> index <= k -> sknum n = k + 1 ->
  rest_routes n rn index j
  = if index =? k then join (sroute n) (k + 1) (fun i => sroute rn (i + 1)) j
    else join (del (sroute n) (index + 1)) k (sroute rn) j.
Proof.
  intros H0 Hi Hk. unfold rest_routes, join, del. rewrite Hk. destruct (Z.eqb_spec index k) as [->|].
  - destruct (Z.ltb_spec j (k + 1)); [done|]. bfalse (j + 1 <? k + 1). f_equal. lia.
  - destruct (Z.ltb_spec j (index + 1)).
    + btrue (j <? k + 1). btrue (j <? k). done.
    + destruct (Z.ltb_spec j k); [by btrue (j + 1 <? k + 1)|]. bfalse (j + 1 <? k + 1). f_equal. lia.
Qed.

#[export] Instance string_inner_ok : IkindOk string_inner.
Proof.
  split; cbn [ik_node ik_sep ik_raw ik_knum ik_route ik_next ik_word ik_with ik_wf ik_stands ik_key ik_raw_ok ik_new
              ik_insert ik_remove ik_update string_inner].
  - intros n f sa [[] _ _ _ _ _]. lia.
  - intros n. unfold sroute. by rewrite Z.eqb_refl.
  - by intros n f sa [].
  - intros n f sa g Hwf Hv Hl. split; [by apply (snode_wf_words n f sa)|done].
  - intros m z [Hk <-]. by eexists.
  - intros rw sa Hrw. split; [by apply sInnerNode_wf|done].
  - intros n f sa l r mid index rnode rw Hwf Hroom Hat%insert_at_string Hrw Hl Hr Hleft.
    destruct (sinsert_room n f sa l r mid index rnode rw Hwf Hroom Hat Hl Hr Hleft) as (n' & -> & H). by exists n'.
  - intros n f sa l r mid index rnode rw Hwf Hfull Hat%insert_at_string Hrw Hl Hr Hleft.
    destruct (sinsert_split n f sa l r mid index rnode rw Hwf Hfull Hat Hrw Hl Hr Hleft) as (n' & rn & c & -> & [Hc]).
    pose proof (split_count_range index) as Hr2. destruct Hat as [Hidx]. rewrite Hfull in Hidx.
    exists n', rn, c. split; [done|]. split; try done; rewrite Hc; by apply Hr2.
  - intros mem this n f sa mid index ra rn g rsa Hwf Hi Hsib.
    destruct (string_remove_middle mem this n f sa mid index ra rn g rsa Hwf Hi) as (r & -> & Hr);
      [intros Hs; by apply right_sibling_string, Hsib|].
    eexists. split; [done|]. unfold removed_inside. cbn [rm_this rm_rnode rm_merged rm_up rm_mid ik_wf ik_knum ik_route string_inner].
    unfold string_removed in Hr. cbn zeta in *. assert ((index =? sknum n - 1) = false) as Ei by lia. rewrite Ei in Hr.
    destruct (Control.f_sibling f && _) eqn:Em.
    + apply andb_true_iff in Em as [Es _]. destruct Hr as (H1 & H2 & H3 & H4 & H5 & H6 & rn' & H7 & _).
      split; [done|]. right. do 3 (split; [done|]). split; [by eexists|]. do 2 (split; [done|]).
      intros j Hj. rewrite H3 by done. rewrite (rest_routes_join n rn index (sknum n - 1)) by lia. by rewrite Ei.
    + rewrite andb_false_r in Hr. destruct Hr as (H1 & H2 & H3 & H4 & H5 & H6 & H7 & H8). split; [done|]. left.
      do 4 (split; [done|]). intros j Hj. destruct (decide (j = sknum n - 1)) as [->|]; [done|]. apply H3. lia.
  - intros mem this n f sa mid index ra rn g rsa Hwf Hi Ei Hsib.
    destruct (string_remove_last mem this n f sa mid index ra rn g rsa Hwf Hi Ei) as (r & -> & Hr).
    { intros Hs. destruct (Hsib Hs) as [H1 H2]. split; [by apply right_sibling_string|done]. }
    eexists. split; [done|]. unfold removed_last. cbn [rm_this rm_rnode rm_merged rm_up rm_mid ik_wf ik_knum ik_route ik_next string_inner].
    unfold string_removed in Hr. cbn zeta in *. rewrite <- Ei, Z.eqb_refl in Hr.
    assert (forall j, 0 <= j < index + 1 -> del (sroute n) (index + 1) j = sroute n j) as Hdel.
    { intros j Hj. unfold del. by btrue (j <? index + 1). }
    destruct (Control.f_sibling f) eqn:Es; cbn [andb] in Hr.
    2:{ destruct Hr as (H1 & H2 & H3 & H4 & H5 & H6 & H7 & H8). left. do 6 (split; [done|]).
        intros j Hj. rewrite <- Hdel by lia. destruct (decide (j = index)) as [->|]; [done|]. apply H3. lia. }
    right. destruct (string_merges index index rn) eqn:Em.
    + left. destruct Hr as (H1 & H2 & H3 & H4 & H5 & H6 & rn' & H7 & _). do 4 (split; [done|]). split; [by eexists|]. do 2 (split; [done|]).
      intros j Hj. rewrite H3 by done. rewrite (rest_routes_join n rn index index) by lia. by rewrite Z.eqb_refl.
    + right. destruct Hr as (H1 & H2 & H3 & H4 & H5 & H6 & H7 & rn' & H8 & H9 & H10 & H11).
      destruct (Hsib eq_refl) as [[_ _ Hrn _ _ _] _]. pose proof (ss_knum _ (sw_shape _ _ _ Hrn)).
      unfold string_merges in Em. rewrite Z.eqb_refl in Em. cbn [andb] in Em. rewrite !orb_false_iff in Em.
      destruct Em as ((E1 & E2) & E3 & E4). split; [done|]. split; [lia|]. split; [lia|]. do 5 (split; [done|]).
      split; [intros j Hj; rewrite H3 by done; apply Hdel; lia|]. split; [done|]. exists rn'. do 3 (split; [done|]). done.
  - intros n f sa mid index Hwf Hi [z [Hk _]] Hlt Hgt.
    destruct (sanchor_update_spec n f sa mid index Hwf Hi) as (n' & E & H); [by apply tkey_string in Hk| | |by exists n'];
      intros j Hj; apply sep_anchor_lt; auto.
Qed.
End kind.

(** ** The search of a node that links to a level *)

Section search.
Context (N : nat) (HN : (N <= 224)%nat) (grown : bool).
Abbreviation num := (num N).
Context n f sa E nx (Hc : covers (string_inner N) grown n f sa E nx) (Ho : ordered (is_key N) E).

(** the node is right about the keys of the tree *)
Lemma covers_searchable key : tkey N key -> searchable n key.
Proof.
  intros (Hk & Hne & Hl). split; [done|done|]. left.
  pose proof (cv_wf _ _ _ _ _ _ _ Hc) as [Hs Hseps Hcont _ _ _].
  destruct (splen_bounds n sa Hs Hcont) as [H0 Hp]. pose proof (ss_knum n Hs).
  destruct (decide (sknum n = 0)) as [Ez|Ez]; [rewrite (sc_empty n sa Hcont Ez); lia|].
  specialize (Hp ltac:(lia)). destruct (cv_sep _ _ _ _ _ _ _ Hc 0) as (e & u & _ & _ & (_ & _ & Ha) & _); [cbn; lia|]. lia.
Qed.

Lemma covers_slinked : slinked n.
Proof.
  destruct (covers_linked _ _ n f sa E nx Hc) as [H1 H2]. split; [|done]. intros j Hj.
  destruct (H1 j) as [a Ha]; [cbn; lia|]. cbn in Ha. unfold sroute in Ha.
  replace (j =? sknum n) with false in Ha by blia. by exists a.
Qed.

(** the place of a key among the separators is its place among the entries *)
Lemma covers_lex_place E1 e E2 key :
  E = E1 ++ e :: E2 -> located E1 e (num key) -> tkey N key ->
  place lex_lt (sknum n) (fun j => str (an_str (sa j))) (str key) (Z.of_nat (length E1)).
Proof.
  intros HE Hloc Hkey. destruct (covers_place _ _ n f sa E nx Hc E1 e E2 (num key) Ho HE Hloc) as (Hk & Hlt & Hge).
  pose proof (tkey_skey N key Hkey) as Hsk. split; [cbn in *; lia|]. split.
  - intros j Hj. destruct (Hlt j Hj) as (u & [Ht <-] & Hu). by apply (num_lt N); [apply tkey_skey| |].
  - intros j Hj. destruct (Hge j Hj) as (u & [Ht <-] & Hu). by rewrite <- (num_lt N) by (done || by apply tkey_skey).
Qed.

Lemma covers_string_next E1 e E2 key :
  Control.f_locked f = false -> E = E1 ++ e :: E2 -> located E1 e (num key) -> tkey N key ->
  SInner.to_next n key = Some (false, Some e.1, Control.load_version (scontrol n)).
Proof.
  intros Hl HE Hloc Hkey.
  destruct (sto_next_spec n f sa key) as (idx & next & Hp & Hr & ->);
    [apply Hc|done|apply Hc|apply covers_slinked|by apply covers_searchable|].
  rewrite (place_unique _ _ _ _ _ _ Hp (covers_lex_place E1 e E2 key HE Hloc Hkey)) in Hr |- *.
  pose proof (covers_child _ _ n f sa E nx Hc E1 e E2 HE) as Hch. cbn in Hch. rewrite Hch.
  rewrite (covers_route _ _ n f sa E nx Hc _ e) in Hr; [by injection Hr as <-|].
  rewrite HE. by apply list_lookup_middle.
Qed.

Lemma covers_string_index E1 e E2 key :
  E = E1 ++ e :: E2 -> located E1 e (num key) -> tkey N key ->
  SInner.index_or_sibling n key = Some (inl (Z.of_nat (length E1))).
Proof.
  intros HE Hloc Hkey.
  destruct (sindex_or_sibling_spec n f sa key) as (idx & Hp & ->);
    [apply Hc|apply Hc|intros _; apply covers_slinked|by apply covers_searchable|].
  rewrite (place_unique _ _ _ _ _ _ Hp (covers_lex_place E1 e E2 key HE Hloc Hkey)).
  pose proof (covers_child _ _ n f sa E nx Hc E1 e E2 HE) as Hch. cbn in Hch. by rewrite Hch.
Qed.
End search.
