(* ===== verification/SFBTree.v ===== *)
(** * The tree: [FBTree<String, V>] of [src/FBTree/fbtree.h], string keys

    The specialisation of [FBTree] for keys of variable length. Keys are compared as they
    are, without an encoding; a separator is the pointer to the string that a leaf has as
    its high key; and a leaf looks at its high key only while it is being split, or when
    the inner node above has changed since it was read: the searches keep that node and
    its version. As in [FBTree], one thread runs the operations and meets no other. *)

From S2P Require Import Prelude Bits Simd Strings Encode Control Leaf SInner SLeaf.

(** what an address of a node points to *)
Inductive tnode {V : Type} := TLeaf (n : sleaf V) | TInner (n : snode).
Arguments tnode V : clear implicits.

Abbreviation sheap V := (gmap Z (tnode V)).

(** [malloc] of a node and what is found there, and [malloc] of a string *)
Class SAllocator (V : Type) := {
  smalloc : sheap V -> Z;
  sfound_tags : Z -> list Z;
  sfound_raw : Z -> SInner.raw;
  smalloc_string : sheap V -> Z;
}.

(** what is given to [epoch_->retire]: a node, or a string *)
Inductive retiree := RNode (p : ptr) | RKey (a : option anchor).

(** FBTree/fbtree.h:491-494 [FBTree] *)
Record stree {V : Type} := mkSTree {
  tmem : sheap V;
  troot : Z;
  tdepth : Z;
  ttrack : list ptr;
  tretired : list retiree;
  tguarded : bool;
}.
Arguments stree V : clear implicits.
Arguments mkSTree {V}.

(** FBTree/fbtree.h:499-513 [iterator] *)
Record siterator {V : Type} := mkSIterator {
  snode_ : ptr;
  sversion_ : Z;
  skv_ : option (skvpair V);
  spos_ : Z;
}.
Arguments siterator V : clear implicits.
Arguments mkSIterator {V}.

Module SFBTree.
Section sfbtree.
Context {V : Type} `{SAllocator V}.
Implicit Types (h : sheap V) (t : stree V) (a : Z) (key : String).

(** FBTree/fbtree.h:488-489 [FBTree]

    a [String] is a length and the bytes behind it *)
Definition kMaxHeight : nat := 13.
Definition sizeof_String : Z := 4.
Definition kBufSize : Z := 256 - sizeof_String.

Definition with_mem t h := mkSTree h (troot t) (tdepth t) (ttrack t) (tretired t) (tguarded t).
Definition with_root t r := mkSTree (tmem t) r (tdepth t) (ttrack t) (tretired t) (tguarded t).
Definition with_depth t d := mkSTree (tmem t) (troot t) d (ttrack t) (tretired t) (tguarded t).
Definition with_track t l := mkSTree (tmem t) (troot t) (tdepth t) l (tretired t) (tguarded t).
Definition retire t (r : retiree) :=
  mkSTree (tmem t) (troot t) (tdepth t) (ttrack t) (tretired t ++ [r]) (tguarded t).

(** FBTree/fbtree.h:561-561 [inner] *)
Definition inner h a : option snode := match h !! a with Some (TInner n) => Some n | _ => None end.
(** FBTree/fbtree.h:563-563 [leaf]

    a node used as what it is not is undefined *)
Definition leaf h a : option (sleaf V) := match h !! a with Some (TLeaf n) => Some n | _ => None end.

(** FBTree/fbtree.h:559-559 [control] *)
Definition control h a : option Z :=
  (fun n => match n with TLeaf n => lcontrol n | TInner n => scontrol n end) <$> h !! a.
Definition set_word h a (w : Z) : option (sheap V) :=
  (fun n => <[a := match n with
                   | TLeaf n => TLeaf (SLeaf.set_control n w)
                   | TInner n => TInner (SInner.set_control n w)
                   end]> h) <$> h !! a.

(** FBTree/fbtree.h:565-565 [is_leaf] *)
Definition is_leaf h a : option bool := Control.is_leaf <$> control h a.
(** FBTree/fbtree.h:567-567 [latch_exclusive] *)
Definition latch_exclusive h a : option (sheap V) :=
  let* c := control h a in
  let* (w, _) := Control.latch_exclusive [(c, c)] in
  set_word h a w.
(** FBTree/fbtree.h:569-569 [unlatch_exclusive] *)
Definition unlatch_exclusive h a : option (sheap V) :=
  let* c := control h a in
  let* w := Control.unlatch_exclusive c in
  set_word h a w.
(** FBTree/fbtree.h:768-768 [upsert] *)
Definition end_splitting h a : option (sheap V) :=
  let* c := control h a in
  let* w := Control.end_splitting c in
  set_word h a w.

Definition begin_read h a : option Z := let* c := control h a in fst <$> Control.begin_read [c].
Definition end_read h a (version : Z) : option bool :=
  let* c := control h a in fst <$> Control.end_read [c] version.

(** the loops that follow pointers visit each node once: the nodes are the fuel *)
Definition node_fuel h : nat := S (size h).

(** where a search got to: the node, the inner node above, and its version when it
    was read *)
Record place := mkPlace { at_node : Z; at_parent : Z; at_pversion : Z }.

(** FBTree/fbtree.h:956-964 [lookup]

    [update] opens with the same loop *)
Fixpoint to_leaf (fuel : nat) h (p : place) key : option place :=
  match fuel with
  | O => None
  | S fuel =>
      let* leaf := is_leaf h (at_node p) in
      if (leaf : bool) then Some p
      else
        let* n := inner h (at_node p) in
        let* (_, next, version) := SInner.to_next n key in
        let* next := next in
        to_leaf fuel h (mkPlace next (at_node p) version) key
  end.

(** FBTree/fbtree.h:705-718 [upsert]

    the same, and the inner nodes left for a child, last first *)
Fixpoint to_leaf_path (fuel : nat) h (p : place) key (path_stack : list Z) : option (place * list Z) :=
  match fuel with
  | O => None
  | S fuel =>
      let* leaf := is_leaf h (at_node p) in
      if (leaf : bool) then Some (p, path_stack)
      else
        let* n := inner h (at_node p) in
        let* (to_sibling, next, version) := SInner.to_next n key in
        let* next := next in
        to_leaf_path fuel h (mkPlace next (at_node p) version) key
          (if (to_sibling : bool) then path_stack else at_node p :: path_stack)
  end.

(** the start of a search *)
Definition start t : place := mkPlace (troot t) (troot t) 0.

(** [leaf(node)->to_sibling(key, next, parent, pversion)] *)
Definition to_sibling h (p : place) key : option ptr :=
  let* n := leaf h (at_node p) in
  let* parent := control h (at_parent p) in
  SLeaf.to_sibling n key parent (at_pversion p).

Definition move (p : place) (next : Z) : place := mkPlace next (at_parent p) (at_pversion p).

(** FBTree/fbtree.h:969-972 [lookup]

    to the right, reading the version of each node *)
Fixpoint read_right (fuel : nat) h (p : place) key : option (place * Z) :=
  match fuel with
  | O => None
  | S fuel =>
      let* version := begin_read h (at_node p) in
      let* next := to_sibling h p key in
      match next with
      | None => Some (p, version)
      | Some next => read_right fuel h (move p next) key
      end
  end.

(** FBTree/fbtree.h:722-727 [upsert]

    to the right, hand over hand: the node is latched at the start and at the end *)
Fixpoint latch_right (fuel : nat) h (p : place) key : option (sheap V * place) :=
  match fuel with
  | O => None
  | S fuel =>
      let* next := to_sibling h p key in
      match next with
      | None => Some (h, p)
      | Some next =>
          let* h := latch_exclusive h next in
          let* h := unlatch_exclusive h (at_node p) in
          latch_right fuel h (move p next) key
      end
  end.

(** FBTree/fbtree.h:758-763 [upsert]

    the inner node, latched, that has the place of [mid], and the place *)
Fixpoint index_right (fuel : nat) h a (mid : anchor) : option (sheap V * Z * Z) :=
  match fuel with
  | O => None
  | S fuel =>
      let* n := inner h a in
      let* r := SInner.index_or_sibling n (an_str mid) in
      match r with
      | inl index => Some (h, a, index)
      | inr next =>
          let* h := latch_exclusive h next in
          let* h := unlatch_exclusive h a in
          index_right fuel h next mid
      end
  end.

(** FBTree/fbtree.h:954-978 [lookup] *)
Definition lookup t key : option (option (skvpair V)) :=
  assert* tguarded t in
  let h := tmem t in
  let* p := to_leaf (node_fuel h) h (start t) key in
  let* (p, version) := read_right (node_fuel h) h p key in
  let* n := leaf h (at_node p) in
  let* kv := SLeaf.lookup n key in
  match kv with
  | Some kv => Some (Some kv)
  | None =>
      let* unchanged := end_read h (at_node p) version in
      if (unchanged : bool) then Some None else None
  end.

(** FBTree/fbtree.h:980-994 [lookup]

    the other overloads copy the key into a [String]: one on the stack if it fits, or
    one that is freed in the end *)
Definition string_of_chars (key : list Z) (l : Z) : option String := make_string key l.
Definition lookup_chars t (key : list Z) (l : Z) : option (option (skvpair V)) :=
  let* s := string_of_chars key l in lookup t s.

(** FBTree/fbtree.h:902-927 [update] *)
Definition update t (kv : skvpair V) : option (option (skvpair V) * stree V) :=
  assert* tguarded t in
  let h := tmem t in
  let key := skv_key kv in
  let* p := to_leaf (node_fuel h) h (start t) key in
  let* (p, version) := read_right (node_fuel h) h p key in
  let* n := leaf h (at_node p) in
  let* (old, n) := SLeaf.update n kv in
  match old with
  | Some old => Some (Some old, with_mem t (<[at_node p := TLeaf n]> h))
  | None =>
      let* unchanged := end_read h (at_node p) version in
      if (unchanged : bool) then Some (None, t) else None
  end.

(** a pair made by [KVPair::make_kv] at [addr] *)
Definition make_pair (addr : Z) (key : list Z) (l : Z) (value : V) : option (skvpair V) :=
  let* s := make_string key l in Some (mkSKV addr s value).

(** FBTree/fbtree.h:928-943 [update]

    the overloads that make the pair: it is freed when the key does not exist *)
Definition update_chars t (addr : Z) (key : list Z) (l : Z) (value : V)
    : option (option (skvpair V) * stree V * bool) :=
  let* kv := make_pair addr key l value in
  let* (ret, t) := update t kv in
  Some (ret, t, bool_decide (ret = None)).

(** FBTree/fbtree.h:640-646 [FBTree] *)
Definition create h : stree V :=
  let a := smalloc h in
  mkSTree (<[a := TLeaf (SLeaf.LeafNode (sfound_tags a))]> h) a 1 (Some a :: replicate 12 None) [] false.

(** util/epoch.h:411-411 [EpochGuard]

    the calling thread makes an [EpochGuard] of the tree's epoch *)
Definition enter t : stree V := mkSTree (tmem t) (troot t) (tdepth t) (ttrack t) (tretired t) true.

(** ** [upsert] *)

(** FBTree/fbtree.h:736-756 [upsert]

    the node above [current], latched: a new root, the one on the path, or the
    leftmost of the level; and the rest of the path *)
Definition parent t (current : Z) (rootid : Z) (path_stack : list Z)
    : option (stree V * Z * list Z) :=
  if current =? troot t then
    let work := smalloc (tmem t) in
    let h := <[work := TInner (SInner.InnerNode (sfound_raw work))]> (tmem t) in
    let* h := latch_exclusive h work in
    let* track := aset (ttrack t) rootid (Some work) in
    let t := with_root (with_track (with_mem t h) track) work in
    Some (with_depth t (tdepth t + 1), work, path_stack)
  else
    match path_stack with
    | work :: path_stack =>
        let* h := latch_exclusive (tmem t) work in
        Some (with_mem t h, work, path_stack)
    | [] =>
        let* work := aget (ttrack t) rootid in
        let* work := work in
        let* h := latch_exclusive (tmem t) work in
        Some (with_mem t h, work, [])
    end.

(** FBTree/fbtree.h:734-770 [upsert]

    [current], latched, was split: [rnode] is the new node, [mid] the separator; a leaf
    is through with splitting when the level above has the new entry *)
Fixpoint propagate (fuel : nat) t (current rnode : Z) (mid : anchor) (rootid : Z) (path_stack : list Z)
    : option (stree V * Z) :=
  match fuel with
  | O => None
  | S fuel =>
      let rootid := rootid + 1 in
      let* (t, work, path_stack) := parent t current rootid path_stack in
      let* (h, work, index) := index_right (node_fuel (tmem t)) (tmem t) work mid in
      let* h := unlatch_exclusive h current in
      let* n := inner h work in
      let a := smalloc h in
      let* r := SInner.insert n mid (Some current) (Some rnode) index a (sfound_raw a) in
      let h := <[work := TInner (SInner.i_this r)]> h in
      let* h := if rootid =? 1 then end_splitting h current else Some h in
      match SInner.i_rnode r with
      | None => Some (with_mem t h, work)
      | Some (rn, mid) =>
          propagate fuel (with_mem t (<[a := TInner rn]> h)) work a mid rootid path_stack
      end
  end.

(** FBTree/fbtree.h:700-774 [upsert] *)
Definition upsert t (kv : skvpair V) : option (option (skvpair V) * stree V) :=
  assert* tguarded t in
  let h := tmem t in
  let key := skv_key kv in
  let* (p, path_stack) := to_leaf_path (node_fuel h) h (start t) key [] in
  let* h := latch_exclusive h (at_node p) in
  let* (h, p) := latch_right (node_fuel h) h p key in
  let current := at_node p in
  let* n := leaf h current in
  let a := smalloc h in
  let* r := SLeaf.upsert n kv a (smalloc_string h) (sfound_tags a) in
  let h := <[current := TLeaf (SLeaf.u_this r)]> h in
  let* (t, current) :=
    match SLeaf.u_rnode r with
    | None => Some (with_mem t h, current)
    | Some (rn, mid) =>
        let* mid := mid in
        let h := <[a := TLeaf rn]> h in
        propagate (S (node_fuel h)) (with_mem t h) current a mid 0 path_stack
    end in
  let* h := unlatch_exclusive (tmem t) current in
  Some (SLeaf.u_old r, with_mem t h).

(** FBTree/fbtree.h:777-787 [upsert]

    the overloads that make the pair *)
Definition upsert_chars t (addr : Z) (key : list Z) (l : Z) (value : V)
    : option (option (skvpair V) * stree V) :=
  let* kv := make_pair addr key l value in upsert t kv.

(** ** [remove] *)

(** FBTree/fbtree.h:834-840 [remove] *)
Definition parent_of_merged t (rootid : Z) (path_stack : list Z) : option (Z * list Z) :=
  match path_stack with
  | work :: path_stack => Some (work, path_stack)
  | [] => let* work := aget (ttrack t) rootid in let* work := work in Some (work, [])
  end.

(** FBTree/fbtree.h:851-852 [remove]

    the inner node gives up the separator of a merged node, or has it replaced: the
    heap, [merged], [up] and [mid] *)
Definition shrink_inner h work (merged : ptr) (mid : anchor) (index : Z)
    : option (sheap V * ptr * bool * anchor) :=
  let* n := inner h work in
  match merged with
  | Some _ =>
      let* r := SInner.remove (inner h) work n mid index in
      let h := <[work := TInner (SInner.d_this r)]> h in
      let h := match SInner.d_rnode r with Some (ra, rn) => <[ra := TInner rn]> h | None => h end in
      let merged := if SInner.d_merged r then fst <$> SInner.d_rnode r else None in
      Some (h, merged, SInner.d_up r, SInner.d_key r)
  | None =>
      let* (n, up) := SInner.anchor_update n mid index in
      Some (<[work := TInner n]> h, None, up, mid)
  end.

(** FBTree/fbtree.h:854-866 [remove]

    the root, latched, may give way to its only child *)
Definition shrink_root t work current : option (stree V) :=
  let* n := inner (tmem t) work in
  let* (n, next) := SInner.root_remove n in
  let t := with_mem t (<[work := TInner n]> (tmem t)) in
  let* t :=
    match next with
    | Some next =>
        let t := with_depth (with_root t next) (tdepth t - 1) in
        let t := retire t (RNode (Some work)) in
        assert* (next =? current) in Some t
    | None => Some t
    end in
  with_mem t <$> unlatch_exclusive (tmem t) current.

(** FBTree/fbtree.h:830-869 [remove] *)
Fixpoint shrink (fuel : nat) t (current : Z) (merged : ptr) (up : bool) (mid : anchor) (rootid : Z)
    (path_stack : list Z) : option (stree V * Z) :=
  if bool_decide (merged = None) && negb up then Some (t, current)
  else
    match fuel with
    | O => None
    | S fuel =>
        let t := retire t (RNode merged) in
        let rootid := rootid + 1 in
        let* (work, path_stack) := parent_of_merged t rootid path_stack in
        let* h := latch_exclusive (tmem t) work in
        let* (h, work, index) := index_right (node_fuel h) h work mid in
        let* h := if negb (work =? troot t) then unlatch_exclusive h current else Some h in
        let* (h, merged, up, mid) := shrink_inner h work merged mid index in
        let t := with_mem t h in
        if work =? troot t then
          let* t := shrink_root t work current in
          shrink fuel t work None false mid rootid path_stack
        else shrink fuel t work merged up mid rootid path_stack
    end.

(** FBTree/fbtree.h:799-873 [remove]

    the string that was the high key of the leaf is retired with the leaf merged into it *)
Definition remove t key : option (option (skvpair V) * stree V) :=
  assert* tguarded t in
  let h := tmem t in
  let* (p, path_stack) := to_leaf_path (node_fuel h) h (start t) key [] in
  let* h := latch_exclusive h (at_node p) in
  let* (h, p) := latch_right (node_fuel h) h p key in
  let current := at_node p in
  let* n := leaf h current in
  let* (kv, m) := SLeaf.remove (leaf h) current n key in
  let h := <[current := TLeaf (SLeaf.m_this m)]> h in
  let h := match SLeaf.m_rnode m with Some (ra, rn) => <[ra := TLeaf rn]> h | None => h end in
  let* (t, current) :=
    match SLeaf.m_merged m with
    | Some mid =>
        let t := retire (with_mem t h) (RKey mid) in
        let* mid := mid in
        shrink (node_fuel h) t current (fst <$> SLeaf.m_rnode m) false mid 0 path_stack
    | None => Some (with_mem t h, current)
    end in
  let* h := unlatch_exclusive (tmem t) current in
  Some (kv, with_mem t h).

(** FBTree/fbtree.h:880-894 [remove] *)
Definition remove_chars t (key : list Z) (l : Z) : option (option (skvpair V) * stree V) :=
  let* s := string_of_chars key l in remove t s.

(** ** Ordered access *)

(** FBTree/fbtree.h:610-623 [bound]

    the leaf is not ordered: sort it under the latch *)
Definition bound_sorted h (p : place) key (upper : bool)
    : option (sheap V * place * option (skvpair V) * Z * Z) :=
  let* h := latch_exclusive h (at_node p) in
  let* (h, p) := latch_right (node_fuel h) h p key in
  let* n := leaf h (at_node p) in
  let* n := SLeaf.kv_sort n (sfound_tags (at_node p)) in
  let* (kv, pos) := SLeaf.bound n key upper in
  let version := Control.load_version (lcontrol n) in
  let* h := unlatch_exclusive (<[at_node p := TLeaf n]> h) (at_node p) in
  Some (h, p, kv, pos, version).

(** FBTree/fbtree.h:594-624 [bound] *)
Definition get_bound h (p : place) key (upper : bool)
    : option (sheap V * place * option (skvpair V) * Z * Z) :=
  let* (p, version) := read_right (node_fuel h) h p key in
  let* n := leaf h (at_node p) in
  if negb (Control.ordered (lcontrol n)) then bound_sorted h p key upper
  else
    let* (kv, pos) := SLeaf.bound n key upper in
    let* unchanged := end_read h (at_node p) version in
    if (unchanged : bool) then Some (h, p, kv, pos, version) else None.

(** FBTree/fbtree.h:626-636 [bound] *)
Fixpoint bound_right (fuel : nat) h (p : place) key (upper : bool) : option (sheap V * siterator V) :=
  match fuel with
  | O => None
  | S fuel =>
      let* (h, p, kv, pos, version) := get_bound h p key upper in
      match kv with
      | Some kv => Some (h, mkSIterator (Some (at_node p)) version (Some kv) pos)
      | None =>
          let* n := leaf h (at_node p) in
          match SLeaf.sibling n with
          | None => Some (h, mkSIterator None version None pos)
          | Some a => bound_right fuel h (move p a) key upper
          end
      end
  end.

(** FBTree/fbtree.h:578-637 [bound]

    [parent] stays the root here, though [pversion] is that of the last inner node *)
Definition bound t key (upper : bool) : option (stree V * siterator V) :=
  assert* tguarded t in
  let h := tmem t in
  let* p := to_leaf (node_fuel h) h (start t) key in
  let p := mkPlace (at_node p) (troot t) (at_pversion p) in
  let* (h, it) := bound_right (node_fuel h) h p key upper in
  Some (with_mem t h, it).

(** FBTree/fbtree.h:1011-1013 [lower_bound] *)
Definition lower_bound t key := bound t key false.
(** FBTree/fbtree.h:1035-1037 [upper_bound] *)
Definition upper_bound t key := bound t key true.
(** FBTree/fbtree.h:1015-1029 [lower_bound] *)
Definition lower_bound_chars t (key : list Z) (l : Z) := let* s := string_of_chars key l in lower_bound t s.
(** FBTree/fbtree.h:1039-1053 [upper_bound] *)
Definition upper_bound_chars t (key : list Z) (l : Z) := let* s := string_of_chars key l in upper_bound t s.

(** [node->access(...)] on the heap *)
Definition access h a (kv : option (skvpair V)) (pos version : Z)
    : option (sheap V * option (skvpair V) * Z * Z) :=
  let* n := leaf h a in
  let* (next, pos, version, n) := SLeaf.access n kv pos version (sfound_tags a) in
  Some (<[a := TLeaf n]> h, next, pos, version).

(** FBTree/fbtree.h:1000-1009 [begin] *)
Definition begin t : option (stree V * siterator V) :=
  assert* tguarded t in
  let* node := aget (ttrack t) 0 in
  let* node := node in
  let* version := begin_read (tmem t) node in
  let* (h, kv, pos, version) := access (tmem t) node None 0 version in
  Some (with_mem t h, mkSIterator (Some node) version kv pos).

(** FBTree/fbtree.h:529-541 [advance]

    [a] is the iterator's node, [cur] the one reached *)
Fixpoint advance_right (fuel : nat) h (a : Z) (version0 : Z) (kv : skvpair V) (cur : Z)
    (next : option (skvpair V)) (pos version : Z)
    : option (sheap V * ptr * option (skvpair V) * Z * Z) :=
  match next with
  | Some _ => Some (h, Some cur, next, pos, version)
  | None =>
      match fuel with
      | O => None
      | S fuel =>
          let* n := leaf h cur in
          match SLeaf.sibling n with
          | None => Some (h, None, None, pos, version)
          | Some cur =>
              let* version := begin_read h cur in
              let* (h, next, pos, version) := access h cur None 0 version in
              let* unchanged := end_read h a version0 in
              if (unchanged : bool) then Some (h, Some cur, next, pos, version)
              else
                let* (h, next, pos, version) := access h cur (Some kv) 0 0 in
                advance_right fuel h a version0 kv cur next pos version
          end
      end
  end.

(** FBTree/fbtree.h:518-545 [advance] *)
Definition advance t (it : siterator V) : option (stree V * siterator V) :=
  let* kv := skv_ it in
  let* a := snode_ it in
  let* (h, next, pos, version) := access (tmem t) a (Some kv) (spos_ it + 1) (sversion_ it) in
  let* (h, node, next, pos, version) :=
    advance_right (node_fuel h) h a (sversion_ it) kv a next pos version in
  Some (with_mem t h, mkSIterator node version next pos).

(** FBTree/fbtree.h:516-516 [end] *)
Definition end_ (it : siterator V) : bool := bool_decide (skv_ it = None).

(** ** The end, and the statistics *)

Definition sibling_of (n : tnode V) : ptr :=
  match n with TLeaf n => SLeaf.sibling n | TInner n => SInner.sibling n end.

(** FBTree/fbtree.h:651-662 [~FBTree]

    one level: what is freed, node by node: the pairs and the high key of a leaf *)
Fixpoint free_level (fuel : nat) h (node : ptr) (freed : list (Z * list (skvpair V) * option anchor))
    : option (sheap V * list (Z * list (skvpair V) * option anchor)) :=
  match node with
  | None => Some (h, freed)
  | Some a =>
      match fuel with
      | O => None
      | S fuel =>
          let* n := h !! a in
          let* (kvs, high) := match n with TLeaf n => SLeaf.destroy n | TInner _ => Some ([], None) end in
          free_level fuel (delete a h) (sibling_of n) (freed ++ [(a, kvs, high)])
      end
  end.

(** FBTree/fbtree.h:649-665 [~FBTree] *)
Definition destroy t : option (sheap V * list (Z * list (skvpair V) * option anchor)) :=
  for_range (fun rid '((h, freed) : sheap V * list (Z * list (skvpair V) * option anchor)) =>
    let* node := aget (ttrack t) rid in
    free_level (node_fuel h) h node freed) 0 (tdepth t) (tmem t, []).

(** FBTree/fbtree.h:673-681 [statistics]

    the sizes of the index and of the anchors, the counts of leaves, pairs and inner
    nodes *)
Fixpoint count_level (sizeof_LeafNode sizeof_InnerNode : Z) (fuel : nat) h (node : ptr)
    (stat : Z * Z * Z * Z * Z) : option (Z * Z * Z * Z * Z) :=
  match node with
  | None => Some stat
  | Some a =>
      match fuel with
      | O => None
      | S fuel =>
          let* n := h !! a in
          let '(size, anchors, leaf_num, kv_num, inner_num) := stat in
          let* stat :=
            match n with
            | TLeaf n =>
                let* s := SLeaf.statistic sizeof_LeafNode sizeof_String n (size, anchors, leaf_num, kv_num) in
                Some (s, inner_num)
            | TInner _ => Some (size + sizeof_InnerNode, anchors, leaf_num, kv_num, SInner.statistic inner_num)
            end in
          count_level sizeof_LeafNode sizeof_InnerNode fuel h (sibling_of n) stat
      end
  end.

(** FBTree/fbtree.h:669-694 [statistics] *)
Definition statistics (sizeof_LeafNode sizeof_InnerNode : Z) t : option (Z * Z * Z * Z * Z) :=
  for_range (fun rid stat =>
    let* node := aget (ttrack t) rid in
    count_level sizeof_LeafNode sizeof_InnerNode (node_fuel (tmem t)) (tmem t) node stat) 0 (tdepth t) (0, 0, 0, 0, 0).
End sfbtree.
End SFBTree.
