(* ===== verification/SFBTreeSpec.v ===== *)
(** * What the tree of string keys is, and how it is searched

    The levels, leaves and bounds of [Levels], [Growth] and [LeafPart], with the keys read
    as their numbers ([Rank]), and inner nodes of the kind [string_inner]. *)

From S2P Require Import Prelude Bits Simd Strings Moves Encode Control Rank Leaf LeafSpec Inner InnerSpec SInner SInnerSpec SInnerOps SLeaf SLeafSim SLeafSpec Levels Growth Words LeafPart Cover SInnerKind SFBTree.

(** what the code relies on [malloc] for: fresh addresses, arrays of the right sizes *)
Class SAllocatorLaws (V : Type) `{SAllocator V} := {
  smalloc_fresh (h : sheap V) : h !! smalloc h = None;
  sfound_tags_ok a : length (sfound_tags a) = 64%nat /\ Forall is_byte (sfound_tags a);
  sfound_raw_ok a : sraw_ok (sfound_raw a);
}.

(** the fields of a tree after assignments *)
Ltac stree_simpl :=
  cbn [tmem troot tdepth ttrack tretired tguarded SFBTree.with_mem SFBTree.with_root SFBTree.with_depth
       SFBTree.with_track SFBTree.retire].

(** ** A leaf and its part of the map

    The map has the numbers of the keys; a pair is stored as [kv_num] makes it, with the
    pair of the code as its value. *)

Section leaf_part.
Context {V : Type} (N : nat) (HN : (N <= 224)%nat).
Abbreviation num := (num N).
Implicit Types (n : sleaf V) (m : gmap Z (kvpair (skvpair V))) (key : String).

Lemma N_small : Z.of_nat N < 2 ^ 64.
Proof. lia. Qed.

(** the map has strings of the tree as keys, under their numbers *)
Definition string_map m : Prop :=
  forall z x, m !! z = Some x -> exists kv, x = kv_num N kv /\ z = num (skv_key kv) /\ tkey N (skv_key kv).

Lemma string_map_keyed m : string_map m -> keyed m.
Proof. intros Hm z x (kv & -> & -> & _)%Hm. done. Qed.

Lemma string_map_insert m kv :
  string_map m -> tkey N (skv_key kv) -> string_map (<[num (skv_key kv) := kv_num N kv]> m).
Proof. intros Hm Hk z x [[<- <-]|[_ H]]%lookup_insert_Some; [by exists kv|by apply Hm]. Qed.

Record sleaf_part n (f : Control.fields) m (C1 : level) (e : entry) (nx : ptr) : Prop := {
  lp_holds : leaf_holds (string_code N) (leaf_num N n) f m C1 e nx;
  lp_wf : sleaf_wf N n f;
  lp_idle : Control.f_splitting f = 0;
}.

Lemma sleaf_part_ext n f m m' C1 C1' e nx :
  (forall k, Forall (below k) C1' <-> Forall (below k) C1) -> (forall k, located C1 e k -> m' !! k = m !! k) ->
  sleaf_part n f m C1 e nx -> sleaf_part n f m' C1' e nx.
Proof. intros Hb Hm [H1 H2 H3]. split; [by eapply leaf_holds_ext|done..]. Qed.

Lemma sleaf_part_lock n f m C1 e nx b :
  sleaf_part n f m C1 e nx ->
  sleaf_part (SLeaf.set_control n (Control.encode (Control.with_locked f b))) (Control.with_locked f b) m C1 e nx.
Proof.
  intros [Hl Hwf Hi]. pose proof (leaf_holds_lock (string_code N) _ _ _ _ _ _ b Hl) as Hl'. split; [exact Hl'| |done].
  destruct Hwf as [_ H1 H2 H3]. split; [apply (lh_wf _ _ _ _ _ _ _ Hl')|exact H1|exact H2|exact H3].
Qed.

(** a key that is not past the bound is not for the sibling, whatever the state of the
    inner node above *)
Lemma sleaf_stays n f m C1 e nx key parent pver :
  sleaf_part n f m C1 e nx -> skey_ok N key -> ~ below (num key) e -> SLeaf.to_sibling n key parent pver = Some None.
Proof.
  intros [Hl Hwf _] Hk Hn. pose proof (lh_wf _ _ _ _ _ _ _ Hl) as [_ Hw Hv _ _ _ _]. cbn [control_ leaf_num] in Hw.
  unfold SLeaf.to_sibling. rewrite Hw. destruct (Control.reads_encode f Hv) as (Hs & Hd & _). rewrite Hs, Hd, (lh_del _ _ _ _ _ _ _ Hl).
  destruct (_ || _); [|done].
  assert ((if Control.f_sibling f then SLeaf.high_below n key else Some false) = Some false) as ->; [|done].
  destruct (Control.f_sibling f) eqn:Es; [|done].
  destruct (sw_sib N n f Hwf Es) as [a Ea]. rewrite (high_below_num N n a key Ea (sw_high N n f Hwf a Ea) Hk).
  pose proof (lh_sib _ _ _ _ _ _ _ Hl) as Hb. rewrite Es in Hb. symmetry in Hb. apply bool_decide_eq_true in Hb as [u Hu].
  destruct (lh_high _ _ _ _ _ _ _ Hl u Hu) as [-> _]. unfold below in Hn. rewrite Hu in Hn. by bfalse (u <? num key).
Qed.

Lemma sleaf_part_content n f m C1 e nx key :
  sleaf_part n f m C1 e nx -> string_map m -> located C1 e (num key) -> content (leaf_num N n) !! num key = m !! num key.
Proof. intros [Hl _ _] Hm%string_map_keyed Hloc. by apply (leaf_holds_content _ _ _ _ _ _ _ _ Hl Hm). Qed.

(** a pair stored in the leaf *)
Lemma sleaf_part_store n f m C1 e nx n' f' kv :
  sleaf_part n f m C1 e nx -> string_map m -> located C1 e (num (skv_key kv)) -> skey_ok N (skv_key kv) ->
  sleaf_wf N n' f' -> pairs n' = <[str (skv_key kv) := kv]> (pairs n) ->
  lhigh n' = lhigh n -> lsibling n' = lsibling n ->
  Control.f_deleted f' = Control.f_deleted f -> Control.f_sibling f' = Control.f_sibling f ->
  Control.f_splitting f' = Control.f_splitting f ->
  sleaf_part n' f' (<[num (skv_key kv) := kv_num N kv]> m) C1 e nx.
Proof.
  intros [Hl Hwf Hi] Hm%string_map_keyed Hloc Hk Hwf' Hp Hh Hs Ed Es Esp. split; [|done|congruence].
  apply (leaf_holds_store (string_code N) (leaf_num N n) _ f f' m C1 e nx (kv_num N kv)); try done.
  - apply Hwf'.
  - cbn. by rewrite Hh.
  - assert (forall x, shas n' x <-> x = kv \/ (shas n x /\ str (skv_key x) <> str (skv_key kv))) as Hx.
    { intros x. pose proof (pairs_lookup N n' f' Hwf' (str (skv_key x)) x) as H1.
      pose proof (pairs_lookup N n f Hwf (str (skv_key x)) x) as H2. rewrite Hp, lookup_insert_Some in H1. naive_solver. }
    assert (forall x, shas n x -> (str (skv_key x) <> str (skv_key kv) <-> num (skv_key x) <> num (skv_key kv))) as Hne.
    { intros x Hx'. pose proof (sw_keys N n f Hwf x Hx') as Hk'. split; [by apply (num_ne N)|].
      intros H E. apply H. unfold SLeafSim.num. by rewrite E. }
    intros y. rewrite !has_num. setoid_rewrite Hx. split.
    + intros (x & -> & [->|[Hx1 Hx2]]); [by left|]. right. split; [by exists x|]. cbn. by apply Hne.
    + intros [->|[(x & -> & Hx1) Hx2]]; [exists kv; auto|]. exists x. split; [done|]. right. split; [done|]. by apply Hne.
Qed.
End leaf_part.

(** ** The heap *)

(** the control word of a node, whatever its kind *)
Definition tword {V} (nd : tnode V) : Z := match nd with TLeaf n => lcontrol n | TInner n => scontrol n end.
Definition with_tword {V} (nd : tnode V) (w : Z) : tnode V :=
  match nd with
  | TLeaf n => TLeaf (SLeaf.set_control n w)
  | TInner n => TInner (SInner.set_control n w)
  end.

(** the node at [a] has the control fields [f] *)
Definition tnode_at {V} (h : sheap V) (a : Z) (nd : tnode V) (f : Control.fields) : Prop := word_is tword h a nd f.

Section words.
Context {V : Type}.
Implicit Types (h : sheap V) (nd : tnode V).

Lemma latch_tnode h a nd f :
  tnode_at h a nd f -> Control.f_locked f = false ->
  SFBTree.latch_exclusive h a = Some (<[a := with_tword nd (Control.encode (Control.with_locked f true))]> h).
Proof. exact (latch_word tword with_tword h a nd f). Qed.

Lemma unlatch_tnode h a nd f :
  tnode_at h a nd f -> Control.f_locked f = true ->
  SFBTree.unlatch_exclusive h a = Some (<[a := with_tword nd (Control.encode (Control.with_locked f false))]> h).
Proof. exact (unlatch_word tword with_tword h a nd f). Qed.

Lemma end_splitting_tnode h a nd f :
  tnode_at h a nd f -> 0 < Control.f_splitting f ->
  SFBTree.end_splitting h a
    = Some (<[a := with_tword nd (Control.encode (Control.with_splitting f (Control.f_splitting f - 1)))]> h).
Proof.
  intros Hn Hs. apply (run_word tword with_tword Control.OpEndSplitting h a nd f); [done|].
  cbn [Control.run_fields]. by btrue (0 <? Control.f_splitting f).
Qed.

Lemma is_leaf_tnode h a nd f : tnode_at h a nd f -> SFBTree.is_leaf h a = Some (Control.f_leaf f).
Proof. exact (is_leaf_word tword h a nd f). Qed.

Lemma read_tnode h a nd f :
  tnode_at h a nd f -> Control.f_locked f = false ->
  SFBTree.begin_read h a = Some (Control.load_version (Control.encode f))
  /\ SFBTree.end_read h a (Control.load_version (Control.encode f)) = Some true.
Proof. exact (read_word tword h a nd f). Qed.

Lemma control_dom h a : is_Some (h !! a) -> is_Some (SFBTree.control h a).
Proof. intros [nd E]. unfold SFBTree.control. rewrite E. by eexists. Qed.
End words.

(** ** The tree *)

Abbreviation sinner_at N grown := (inner_at (string_inner N) TInner grown).

Section tree.
Context {V : Type} (N : nat) (HN : (N <= 224)%nat) (grown : bool).
Abbreviation num := (num N).
Implicit Types (h : sheap V) (m : gmap Z (kvpair (skvpair V))) (C : level) (G : list group) (key : String).

Definition sleaf_at h m (C1 : level) (e : entry) (nx : ptr) : Prop :=
  exists n f, h !! e.1 = Some (TLeaf n) /\ sleaf_part N n f m C1 e nx /\ Control.f_locked f = false.

#[export] Instance sleaf_at_level : LeafLevel sleaf_at.
Proof.
  split.
  - intros h m C1 e nx (n & f & Hh & _). by eexists.
  - intros h h' m m' C1 C1' e nx Eh Hb Hm (n & f & Hh & Hl & Hlk). exists n, f. rewrite Eh.
    split; [done|]. split; [|done]. by eapply sleaf_part_ext.
Qed.

Lemma sinner_node h p n f sa E nx :
  h !! p = Some (TInner n) -> covers (string_inner N) grown n f sa E nx -> tnode_at h p (TInner n) f.
Proof. by apply (covers_node (string_inner N) TInner). Qed.

Lemma sleaf_node h a n f m C1 e nx : h !! a = Some (TLeaf n) -> sleaf_part N n f m C1 e nx -> tnode_at h a (TLeaf n) f.
Proof. intros Hh [Hc _ _]. destruct (lh_wf _ _ _ _ _ _ _ Hc). split; [done|]. by split. Qed.

(** ** Going down *)

(** one turn of the loop *)
Lemma spath_step h p E1 e E2 nx key :
  sinner_at N grown h p (E1 ++ e :: E2) nx -> ordered (is_key N) (E1 ++ e :: E2) ->
  located E1 e (num key) -> tkey N key ->
  exists pv', forall fuel st par pv,
    SFBTree.to_leaf_path (S fuel) h (SFBTree.mkPlace p par pv) key st
    = SFBTree.to_leaf_path fuel h (SFBTree.mkPlace e.1 p pv') key (p :: st).
Proof.
  intros (n & f & sa & Hh & Hc & Hl) Ho Hloc Hk. exists (Control.load_version (scontrol n)). intros fuel st par pv.
  cbn [SFBTree.to_leaf_path SFBTree.at_node].
  rewrite (is_leaf_tnode h p _ f), (sw_inner _ _ _ (cv_wf _ _ _ _ _ _ _ Hc)), bind_Some by by eapply sinner_node.
  unfold SFBTree.inner. rewrite Hh, bind_Some.
  by rewrite (covers_string_next N HN grown n f sa _ nx Hc Ho E1 e E2 key Hl eq_refl Hloc Hk).
Qed.

(** the loop takes the way; it ends at a place below a node of the tree *)
Lemma spath_way h key root frs : forall C1 e C2,
  zip (sinner_at N grown) h C1 e C2 frs root -> takes (is_key N) (num key) e frs -> tkey N key ->
  exists par pv, (par = root \/ is_Some (h !! par))
    /\ forall fuel, SFBTree.to_leaf_path (length frs + fuel) h (SFBTree.mkPlace root root 0) key []
                    = SFBTree.to_leaf_path fuel h (SFBTree.mkPlace e.1 par pv) key (fr_p <$> frs).
Proof.
  induction frs as [|fr frs IH]; intros C1 e C2; cbn [zip takes].
  - intros (_ & _ & ->) _ _. exists root, 0. split; [by left|done].
  - intros (_ & _ & Hi & Hz) (Hloc & Ho & Hway) Hk. destruct (IH _ _ _ Hz Hway Hk) as (par & pv & _ & Hrun).
    pose proof (Hi (fr_G1 fr) (fr_p fr) (fr_E fr e) (fr_G2 fr) eq_refl) as Hat.
    destruct (spath_step h (fr_p fr) (fr_E1 fr) e (fr_E2 fr) (first (fr_G2 fr)) key Hat Ho Hloc Hk) as [pv' Hstep].
    exists (fr_p fr), pv'. split; [right; by apply (at_dom _ _ _ _ Hat)|]. intros fuel. cbn [length].
    replace (S (length frs) + fuel)%nat with (length frs + S fuel)%nat by lia. rewrite Hrun. apply Hstep.
Qed.

(** a lookup takes the same way *)
Lemma sto_leaf_fst h key fuel : forall p st,
  SFBTree.to_leaf fuel h p key = fst <$> SFBTree.to_leaf_path fuel h p key st.
Proof.
  induction fuel as [|fuel IH]; intros p st; [done|]. cbn [SFBTree.to_leaf SFBTree.to_leaf_path].
  destruct (SFBTree.is_leaf h _) as [[]|]; [done| |done]. rewrite !bind_Some.
  destruct (SFBTree.inner h _); [|done]. rewrite !bind_Some.
  destruct (SInner.to_next _ _) as [[[? [next|]] ?]|]; [|done|done]. rewrite !bind_Some. apply IH.
Qed.
End tree.

(** ** The map of a tree *)

Section represents.
Context {V : Type} `{SAllocator V} (N : nat) (HN : (N <= 224)%nat) (grown : bool).
Abbreviation num := (num N).
Implicit Types (h : sheap V) (m : gmap Z (kvpair (skvpair V))) (C : level) (t : stree V) (kv : skvpair V) (key : String).

(** the parts of the object that an operation changes *)
Definition sspine t : spine (tnode V) := mkSpine (tmem t) (troot t) (tdepth t) (ttrack t).

Record srepresents t m C (ups : list (list group)) : Prop := {
  sr_keyed : string_map N m;
  sr_standing : standing (sinner_at N grown) (sleaf_at N) (is_key N) (sspine t) m C ups;
  sr_guarded : tguarded t = true;
}.

(** where a key is, and that the descent ends there *)
Record sfound t m C ups key (frs : list frame) C1 e C2 (n : sleaf V) (f : Control.fields) (par pv : Z) : Prop := {
  sf_split : C = C1 ++ e :: C2;
  sf_located : located C1 e (num key);
  sf_zip : zip (sinner_at N grown) (tmem t) C1 e C2 frs (troot t);
  sf_levels : levels e frs = ups;
  sf_leaf : tmem t !! e.1 = Some (TLeaf n);
  sf_part : sleaf_part N n f m C1 e (first C2);
  sf_unlocked : Control.f_locked f = false;
  sf_parent : is_Some (tmem t !! par);
  sf_path : SFBTree.to_leaf_path (SFBTree.node_fuel (tmem t)) (tmem t) (SFBTree.start t) key []
            = Some (SFBTree.mkPlace e.1 par pv, fr_p <$> frs);
}.

Lemma sfind_leaf t m C ups key :
  srepresents t m C ups -> tkey N key -> exists frs C1 e C2 n f par pv, sfound t m C ups key frs C1 e C2 n f par pv.
Proof.
  intros [_ Hs _] Hk. destruct (standing_fuel _ _ _ _ _ _ _ Hs) as [fuel Ef]. pose proof Hs as [Ho Hl Hch _ _ _].
  cbn [sp_mem sp_root sspine] in *.
  destruct (chain_way (sinner_at N grown) (is_key N) (tmem t) ups C (troot t) (num key) Hch Ho)
    as (frs & C1 & e & C2 & EC & Hloc & Hz & Hlev & Hway).
  destruct (spath_way N HN grown (tmem t) key (troot t) frs C1 e C2 Hz Hway Hk) as (par & pv & Hpar & Hrun).
  destruct (Hl C1 e C2 EC) as (n & f & Hh & Hp & Hlk).
  exists frs, C1, e, C2, n, f, par, pv. split; try done.
  - destruct Hpar as [->|Hd]; [|done]. pose proof (zip_root _ _ _ _ _ _ _ Hz) as Hroot. destruct frs as [|fr frs].
    + rewrite <- Hroot, Hh. by eexists.
    + eapply (chain_dom (sinner_at N grown) (tmem t)); [exact Hch|]. by rewrite <- Hlev.
  - unfold SFBTree.node_fuel, SFBTree.start. rewrite Ef, <- Hlev, length_levels, Hrun. cbn [SFBTree.to_leaf_path SFBTree.at_node].
    rewrite (is_leaf_tnode _ _ (TLeaf n) f), bind_Some by by eapply sleaf_node.
    by rewrite (wf_leaf _ _ _ (lh_wf _ _ _ _ _ _ _ (lp_holds _ _ _ _ _ _ _ Hp))).
Qed.

Section found.
Context t m C ups key frs C1 e C2 n f par pv (Hk : tkey N key) (Hr : srepresents t m C ups)
  (Hf : sfound t m C ups key frs C1 e C2 n f par pv).

Lemma sfound_to_leaf :
  SFBTree.to_leaf (SFBTree.node_fuel (tmem t)) (tmem t) (SFBTree.start t) key = Some (SFBTree.mkPlace e.1 par pv).
Proof. by rewrite (sto_leaf_fst _ _ _ _ []), (sf_path _ _ _ _ _ _ _ _ _ _ _ _ _ Hf). Qed.

(** the key is not for a sibling, latched or not *)
Lemma sfound_stays h n' f' :
  h !! e.1 = Some (TLeaf n') -> sleaf_part N n' f' m C1 e (first C2) -> is_Some (h !! par) ->
  SFBTree.to_sibling h (SFBTree.mkPlace e.1 par pv) key = Some None.
Proof.
  intros Hh Hp Hpar. unfold SFBTree.to_sibling, SFBTree.leaf. cbn [SFBTree.at_node SFBTree.at_parent SFBTree.at_pversion].
  rewrite Hh, bind_Some. destruct (control_dom h par Hpar) as [c ->]. rewrite bind_Some.
  apply (sleaf_stays N HN n' f' m C1 e (first C2)); [done|by apply tkey_skey|apply (sf_located _ _ _ _ _ _ _ _ _ _ _ _ _ Hf)].
Qed.

(** the leaf found is the one to read, and nothing moves meanwhile *)
Lemma sfound_read :
  SFBTree.read_right (SFBTree.node_fuel (tmem t)) (tmem t) (SFBTree.mkPlace e.1 par pv) key
    = Some (SFBTree.mkPlace e.1 par pv, Control.load_version (Control.encode f))
  /\ SFBTree.end_read (tmem t) e.1 (Control.load_version (Control.encode f)) = Some true.
Proof.
  pose proof Hf as [_ _ _ _ Hh Hl Hlk Hpar _]. pose proof (sleaf_node N _ _ _ _ _ _ _ _ Hh Hl) as Hn.
  destruct (read_tnode _ _ _ _ Hn Hlk) as [Hb He]. split; [|done].
  unfold SFBTree.node_fuel. cbn [SFBTree.read_right SFBTree.at_node]. rewrite Hb, bind_Some.
  by rewrite (sfound_stays (tmem t) n f Hh Hl Hpar), bind_Some.
Qed.

Lemma sfound_content : content (leaf_num N n) !! num key = m !! num key.
Proof. eapply sleaf_part_content; [apply (sf_part _ _ _ _ _ _ _ _ _ _ _ _ _ Hf)|apply Hr|apply Hf]. Qed.

(** the leaf replaced, and its part of the map with it *)
Lemma sfound_replace m' n' f' :
  string_map N m' -> (forall k, k <> num key -> m' !! k = m !! k) ->
  sleaf_part N n' f' m' C1 e (first C2) -> Control.f_locked f' = false ->
  srepresents (SFBTree.with_mem t (<[e.1 := TLeaf n']> (tmem t))) m' C ups.
Proof.
  intros Hkey Hm Hp Hlk. destruct Hr as [_ Hs Hg]. split; [done| |done].
  pose proof (sf_split _ _ _ _ _ _ _ _ _ _ _ _ _ Hf) as EC. pose proof (sf_located _ _ _ _ _ _ _ _ _ _ _ _ _ Hf) as [Hl1 Hl2].
  subst C. eapply (standing_leaf _ _ _ (sspine t)); [done| |].
  - intros k Hk'. apply Hm. intros ->. naive_solver.
  - exists n', f'. by rewrite lookup_insert_eq.
Qed.
End found.
End represents.
