(* ===== verification/SFBTreeOps.v ===== *)
(** * What the operations of the tree of string keys do

    [lookup], [update] and [upsert] with its splits, on a tree that [srepresents] a map.
    How a split goes up through the levels is proved in [Growth], and what it does to a
    node in [Cover]; here is the program that takes one step of it. *)

From S2P Require Import Prelude Bits Simd Strings Moves Encode Control Rank Leaf LeafSpec Inner InnerSpec SInner SInnerSpec SInnerOps SLeaf SLeafSim SLeafSpec Levels Growth Words LeafPart Cover SInnerKind SFBTree SFBTreeSpec.

(** ** A split goes up *)

Section propagate.
Context {V : Type} `{SAllocatorLaws V} (N : nat) (HN : (N <= 224)%nat) (grown : bool).
Abbreviation num := (num N).
Implicit Types (h : sheap V) (t : stree V) (nd : tnode V) (mid : anchor).

(** a node with its latch taken, and with the latch given back; a leaf that was split is
    also through with splitting then *)
Definition slatched (k : nat) nd nd' : Prop :=
  match k with
  | O => exists f, Control.valid f /\ tword nd = Control.encode f /\ Control.f_locked f = true
           /\ 0 < Control.f_splitting f
           /\ nd' = with_tword nd (Control.encode (Control.with_splitting (Control.with_locked f false) (Control.f_splitting f - 1)))
  | S _ => latched_word tword with_tword nd nd'
  end.

Lemma with_tword_twice nd w w' : with_tword (with_tword nd w) w' = with_tword nd w'.
Proof. by destruct nd. Qed.
Lemma tword_with nd w : tword (with_tword nd w) = w.
Proof. by destruct nd. Qed.

Lemma slatched_unlatch k h a nd nd' :
  h !! a = Some nd -> slatched (S k) nd nd' -> SFBTree.unlatch_exclusive h a = Some (<[a := nd']> h).
Proof. exact (release_word tword with_tword h a nd nd'). Qed.

(** what the code does to [current] in a turn of the loop: the latch, and the splitting *)
Lemma finish_current k h a nd nd' :
  h !! a = Some nd -> slatched k nd nd' ->
  exists nd1, SFBTree.unlatch_exclusive h a = Some (<[a := nd1]> h)
    /\ forall h', h' !! a = Some nd1 ->
         (if Z.of_nat k + 1 =? 1 then SFBTree.end_splitting h' a else Some h') = Some (<[a := nd']> h').
Proof.
  intros Ha Hl. destruct k as [|k].
  - destruct Hl as (f & Hv & Hw & Hlk & Hs & ->). eexists. split; [by apply (unlatch_tnode h a nd f)|].
    intros h' Ha'. cbn [Z.of_nat Z.add Z.eqb Pos.eqb].
    rewrite (end_splitting_tnode h' a _ (Control.with_locked f false) (conj Ha' (conj Hv (tword_with _ _))) Hs).
    by rewrite with_tword_twice.
  - exists nd'. split; [by apply (slatched_unlatch k h a nd)|]. intros h' Ha'. bfalse (Z.of_nat (S k) + 1 =? 1).
    by rewrite insert_id.
Qed.

Lemma scovers_latched k n f sa E nx :
  covers (string_inner N) grown n f sa E nx -> Control.f_locked f = true ->
  exists n', slatched (S k) (TInner n) (TInner n') /\ links (sinner_at N grown) (TInner n' : tnode V) E nx.
Proof. intros Hc Hl. eexists. by apply (covers_latched (string_inner N) TInner grown tword with_tword) with (1 := fun _ => eq_refl) (2 := fun _ _ => eq_refl) (3 := Hc). Qed.

(** the order of the writes to two nodes *)
Lemma two_nodes {A} (m : gmap Z A) a p x x' y y' :
  a <> p -> <[a := x']> (<[p := y']> (<[a := x]> (<[p := y]> m))) = <[p := y']> (<[a := x']> m).
Proof.
  intros Hap. rewrite (insert_insert_ne _ a p x' y'), insert_insert_eq by done.
  by rewrite (insert_insert_ne _ a p x' y), insert_insert_eq by done.
Qed.

Lemma sindex_right_here h p n f sa E1 e E2 nx fuel mid :
  h !! p = Some (TInner n) -> covers (string_inner N) grown n f sa (E1 ++ e :: E2) nx -> ordered (is_key N) (E1 ++ e :: E2) ->
  located E1 e (num (an_str mid)) -> tkey N (an_str mid) ->
  SFBTree.index_right (S fuel) h p mid = Some (h, p, Z.of_nat (length E1)).
Proof.
  intros Hh Hc Ho Hl Hm. cbn [SFBTree.index_right]. unfold SFBTree.inner. rewrite Hh, bind_Some.
  by rewrite (covers_string_index N HN grown n f sa _ nx Hc Ho E1 e E2 (an_str mid)), bind_Some.
Qed.

(** the search of a new node *)
Lemma snew_index rw (f : Control.fields) mid :
  let n := SInner.set_control (SInner.InnerNode rw) (Control.encode f) in
  snode_wf n f (fun _ => mid) -> Control.f_deleted f = false -> Control.f_sibling f = false -> tkey N (an_str mid) ->
  SInner.index_or_sibling n (an_str mid) = Some (inl 0).
Proof.
  intros n Hwf Hd Hs (Hk & Hne & _).
  destruct (sindex_or_sibling_spec n f (fun _ => mid) (an_str mid) Hwf) as (idx & [Hr _] & ->); [done|congruence| |].
  - split; [done|done|]. left. done.
  - cbn in Hr. replace idx with 0 by lia. by rewrite Hs.
Qed.

Lemma snew_root t k a nd nd' rnode mid fuel :
  troot t = a -> tmem t !! a = Some nd -> slatched k nd nd' -> tkey N (an_str mid) -> length (ttrack t) = 13%nat ->
  tdepth t = Z.of_nat (k + 1) -> tdepth t < 13 ->
  exists t1 w nw nw', SFBTree.propagate (S fuel) t a rnode mid (Z.of_nat k) [] = Some (t1, w)
    /\ tmem t !! w = None /\ slatched (S k) nw nw'
    /\ links (sinner_at N grown) nw' [(a, Some (num (an_str mid))); (rnode, None)] None
    /\ sspine t1 = mkSpine (<[w := nw]> (<[a := nd']> (tmem t))) w (tdepth t + 1) (<[S k := Some w]> (ttrack t))
    /\ tguarded t1 = tguarded t /\ tretired t1 = tretired t.
Proof.
  intros Hroot Ha Hlk Hmid Hlen Hdepth Hd13. cbn [SFBTree.propagate]. unfold SFBTree.parent.
  rewrite Hroot, Z.eqb_refl. set (w := smalloc (tmem t)).
  assert (tmem t !! w = None) as Hw by apply smalloc_fresh. assert (w <> a) as Hwa by congruence.
  rewrite (latch_tnode _ w (TInner (SInner.InnerNode (sfound_raw w))) (Control.inner_fields false)), bind_Some.
  2:{ split; [by rewrite lookup_insert_eq|done]. }
  2:{ done. }
  rewrite insert_insert_eq, aset_in_range, !bind_Some by lia. cbn [with_tword].
  set (n := SInner.set_control _ _). stree_simpl. set (h1 := <[w := TInner n]> (tmem t)).
  assert (h1 !! a = Some nd) as Ha1 by (unfold h1; by rewrite lookup_insert_ne).
  destruct (finish_current k h1 a nd nd' Ha1 Hlk) as (nd1 & Eun & Eend). set (h2 := <[a := nd1]> h1) in *.
  destruct (insert_root (string_inner N) grown a rnode (num (an_str mid)) mid (smalloc h2) (sfound_raw w) (sfound_raw (smalloc h2)))
    as (Hwf & _ & n' & sa' & (r & Hins & [= -> Er])%fmap_Some & Hcov); [apply sfound_raw_ok..|done|].
  pose proof (snew_index _ _ mid Hwf eq_refl eq_refl Hmid) as Hidx.
  unfold SFBTree.node_fuel. cbn [SFBTree.index_right]. unfold SFBTree.inner.
  assert (h1 !! w = Some (TInner n)) as Hw1 by apply lookup_insert_eq. rewrite Hw1, bind_Some.
  fold n in Hidx. rewrite Hidx, !bind_Some, Eun, bind_Some.
  assert (h2 !! w = Some (TInner n)) as Hw2 by (unfold h2; by rewrite lookup_insert_ne by done).
  rewrite Hw2, bind_Some. cbn [ik_with ik_new string_inner] in Hins. fold n in Hins. rewrite Hins, bind_Some, <- Er.
  rewrite Eend, bind_Some by (unfold h2; by rewrite lookup_insert_ne, lookup_insert_eq).
  destruct (scovers_latched k _ _ _ _ _ Hcov eq_refl) as (nw & Hlw & Hlinks).
  eexists _, w, _, _. split; [done|]. split; [done|]. split; [done|]. split; [done|]. split; [|done].
  unfold sspine. stree_simpl. unfold h2, h1. rewrite two_nodes by done.
  by replace (Z.to_nat (Z.of_nat k + 1)) with (S k) by lia.
Qed.

(** one turn of the loop below the root: [p] gets the new separator *)
Lemma sup_one t k a nd nd' rnode u mid p E1 E2 n g sa nx :
  a <> troot t -> tmem t !! a = Some nd -> slatched k nd nd' -> p <> a ->
  tmem t !! p = Some (TInner n) -> covers (string_inner N) grown n g sa (before E1 E2 a u) nx -> Control.f_locked g = false ->
  ordered (is_key N) (before E1 E2 a u) -> ordered (is_key N) (after E1 E2 a rnode u (num (an_str mid))) ->
  tkey N (an_str mid) ->
  exists ra r, tmem t !! ra = None
    /\ (let g := Control.with_locked g true in
        match SInner.i_rnode r with
        | None => exists sa', covers (string_inner N) grown (SInner.i_this r) (Control.bump g) sa' (after E1 E2 a rnode u (num (an_str mid))) nx
        | Some (rn, mid') => exists F1 q v F2 sa1 sa2,
           after E1 E2 a rnode u (num (an_str mid)) = (F1 ++ [(q, Some v)]) ++ F2 /\ F2 <> []
           /\ (tkey N (an_str mid') /\ num (an_str mid') = v)
           /\ covers (string_inner N) grown (SInner.i_this r) (Control.with_sibling (Control.bump g) true) sa1
                (F1 ++ [(q, Some v)]) (Some ra)
           /\ covers (string_inner N) grown rn (Control.inner_fields (Control.f_sibling g)) sa2 F2 nx
        end)
    /\ forall fuel st,
         SFBTree.propagate (S fuel) t a rnode mid (Z.of_nat k) (p :: st)
         = let h := <[p := TInner (SInner.i_this r)]> (<[a := nd']> (tmem t)) in
           match SInner.i_rnode r with
           | None => Some (SFBTree.with_mem t h, p)
           | Some (rn, mid') =>
               SFBTree.propagate fuel (SFBTree.with_mem t (<[ra := TInner rn]> h)) p ra mid' (Z.of_nat (S k)) st
           end.
Proof.
  intros Hroot Ha Hlk Hpa Hp Hc Hg Ho Ho' Hmid. pose proof (sinner_node N grown _ _ _ _ _ _ _ Hp Hc) as Hpn.
  set (n1 := SInner.set_control n (Control.encode (Control.with_locked g true))).
  set (h1 := <[p := TInner n1]> (tmem t)).
  assert (h1 !! a = Some nd) as Ha1 by (unfold h1; by rewrite lookup_insert_ne).
  destruct (finish_current k h1 a nd nd' Ha1 Hlk) as (nd1 & Eun & Eend). set (h2 := <[a := nd1]> h1) in *.
  pose proof (covers_lock (string_inner N) grown _ _ _ _ _ Hc true) as Hc1. cbn [ik_with string_inner] in Hc1. fold n1 in Hc1.
  destruct (insert_covers (string_inner N) grown E1 E2 a rnode u (num (an_str mid)) mid n1 _ sa nx Hc1 Ho' (conj Hmid eq_refl)
    (smalloc h2) (sfound_raw (smalloc h2))) as (n' & rest & (r & Hins & [= -> ->])%fmap_Some & Hr); [apply sfound_raw_ok|].
  exists (smalloc h2), r. split; [|split; [done|]].
  - pose proof (smalloc_fresh h2) as Hfr. unfold h2 at 1 in Hfr. unfold h1 at 1 in Hfr.
    apply lookup_insert_None in Hfr as [Hfr _]. by apply lookup_insert_None in Hfr as [Hfr _].
  - intros fuel st. cbn [SFBTree.propagate]. unfold SFBTree.parent. bfalse (a =? troot t).
    rewrite (latch_tnode _ p _ g Hpn Hg), bind_Some. cbn [with_tword]. fold n1. fold h1. rewrite bind_Some. stree_simpl.
    unfold SFBTree.node_fuel.
    rewrite (sindex_right_here h1 p n1 (Control.with_locked g true) sa E1 (a, u) E2 nx _ mid), bind_Some;
      [|unfold h1; by rewrite lookup_insert_eq|done|done|by apply (after_located E1 E2 a rnode u _ (is_key N))|done].
    rewrite Eun, bind_Some. assert (h2 !! p = Some (TInner n1)) as Hp2.
    { unfold h2, h1. by rewrite lookup_insert_ne, lookup_insert_eq by done. }
    unfold SFBTree.inner. rewrite Hp2, bind_Some, Hins, bind_Some.
    rewrite Eend, bind_Some by (unfold h2; by rewrite lookup_insert_ne, lookup_insert_eq).
    unfold h2, h1. rewrite two_nodes by done. cbv zeta.
    replace (Z.of_nat (S k)) with (Z.of_nat k + 1) by lia. done.
Qed.

Definition same_epoch_s t t' : Prop := tguarded t' = tguarded t /\ tretired t' = tretired t.

(** [propagate] brings splits up; its separators are strings *)
#[export] Instance spropagation : Propagation (sinner_at N grown) (is_key N) sspine same_epoch_s
  (fun mid => num (an_str mid)) (fun mid => tkey N (an_str mid)) slatched
  (fun fuel t a rnode mid k => SFBTree.propagate fuel t a rnode mid (Z.of_nat k)) SFBTree.unlatch_exclusive.
Proof.
  split.
  - split; [done|]. intros t1 t2 t3 [? ?] [? ?]. split; congruence.
  - intros mid Hmid. by exists (an_str mid).
  - intros k h p nd nd' Hp Hl. by apply (slatched_unlatch k h p nd).
  - intros t k a nd nd' rnode mid fuel Hroot Ha Hlk Hmid Hd Hd13 Hlen. by eapply (snew_root t k a nd nd').
  - intros t k a nd nd' rnode u mid p E1 E2 nx Har Ha Hlk Hpa (n & g & sa & Hp & Hc & Hg) Ho Ho' Hmid.
    destruct (sup_one t k a nd nd' rnode u mid p E1 E2 n g sa nx Har Ha Hlk Hpa Hp Hc Hg Ho Ho' Hmid) as (ra & r & Hra & Hr & Hrun).
    cbn zeta in *. destruct (SInner.i_rnode r) as [[rn mid']|].
    + destruct Hr as (F1 & q & v & F2 & sa1 & sa2 & EF & HF2 & [Hmid' <-] & Hc1 & Hc2).
      destruct (scovers_latched k _ _ _ _ _ Hc1 eq_refl) as (n' & Hl1 & Hlinks).
      eexists _, _, (SFBTree.with_mem t _). split; [done|]. split; [done|]. right. exists ra, (TInner rn), mid', F1, q, F2.
      do 5 (split; [done|]). split; [|done]. intros h x Hx. eexists _, _, _. by split.
    + destruct Hr as (sa' & Hr). destruct (scovers_latched k _ _ _ _ _ Hr eq_refl) as (n' & Hl1 & Hlinks).
      eexists _, _, (SFBTree.with_mem t _). split; [done|]. split; [done|]. by left.
Qed.
End propagate.

(** ** [lookup] and [update] *)

Section ops.
Context {V : Type} `{SAllocatorLaws V} (N : nat) (HN : (N <= 224)%nat) (grown : bool).
Abbreviation num := (num N).
Abbreviation kv_num := (kv_num N).
Abbreviation srepresents := (srepresents N grown).
Abbreviation sfound := (sfound N grown).
Implicit Types (h : sheap V) (t : stree V) (m : gmap Z (kvpair (skvpair V))) (kv : skvpair V) (key : String).

(** the map has what the leaf found has *)
Lemma sfound_pairs t m C ups key frs C1 e C2 n f par pv :
  tkey N key -> srepresents t m C ups -> sfound t m C ups key frs C1 e C2 n f par pv ->
  m !! num key = kv_num <$> pairs n !! str key.
Proof.
  intros Hk Hr Hf. rewrite <- (sfound_content N grown _ _ _ _ _ _ _ _ _ _ _ _ _ Hr Hf).
  apply (content_pairs N n f); [apply (sf_part _ _ _ _ _ _ _ _ _ _ _ _ _ _ _ Hf)|by apply tkey_skey].
Qed.

Lemma stree_lookup_spec t m C ups key :
  srepresents t m C ups -> tkey N key ->
  exists o, SFBTree.lookup t key = Some o /\ m !! num key = kv_num <$> o.
Proof.
  intros Hr Hk. destruct (sfind_leaf N HN grown t m C ups key Hr Hk) as (frs & C1 & e & C2 & n & f & par & pv & Hf).
  pose proof (sf_part _ _ _ _ _ _ _ _ _ _ _ _ _ _ _ Hf) as Hp.
  exists (pairs n !! str key). split; [|by eapply sfound_pairs].
  unfold SFBTree.lookup. rewrite (sr_guarded _ _ _ _ _ _ Hr). cbn [asserting].
  rewrite (sfound_to_leaf N grown _ _ _ _ _ _ _ _ _ _ _ _ _ Hf), bind_Some.
  destruct (sfound_read N HN grown _ _ _ _ _ _ _ _ _ _ _ _ _ Hk Hf) as [-> He]. rewrite bind_Some.
  unfold SFBTree.leaf. cbn [SFBTree.at_node]. rewrite (sf_leaf _ _ _ _ _ _ _ _ _ _ _ _ _ _ _ Hf), bind_Some.
  rewrite (lookup_pairs N (N_small N HN) n f), bind_Some by (apply Hp || by apply tkey_skey).
  destruct (pairs n !! str key); [done|]. by rewrite He.
Qed.

(** the leaf of the key replaced by one that holds the pair *)
Lemma sstore_leaf t m C ups frs C1 e C2 n f par pv n' f' kv :
  srepresents t m C ups -> sfound t m C ups (skv_key kv) frs C1 e C2 n f par pv -> tkey N (skv_key kv) ->
  sleaf_part N n' f' (<[num (skv_key kv) := kv_num kv]> m) C1 e (first C2) -> Control.f_locked f' = false ->
  srepresents (SFBTree.with_mem t (<[e.1 := TLeaf n']> (tmem t))) (<[num (skv_key kv) := kv_num kv]> m) C ups.
Proof.
  intros Hr Hf Hk Hn' Hlk'. eapply sfound_replace; [done|done| |intros k Hne; by apply lookup_insert_ne|done|done].
  apply string_map_insert; [apply Hr|done].
Qed.

Lemma stree_update_spec t m C ups kv :
  srepresents t m C ups -> tkey N (skv_key kv) ->
  exists o t', SFBTree.update t kv = Some (o, t') /\ m !! num (skv_key kv) = kv_num <$> o
    /\ srepresents t' (match o with Some _ => <[num (skv_key kv) := kv_num kv]> m | None => m end) C ups
    /\ size (tmem t') = size (tmem t) /\ tretired t' = tretired t.
Proof.
  intros Hr Hk. destruct (sfind_leaf N HN grown t m C ups _ Hr Hk) as (frs & C1 & e & C2 & n & f & par & pv & Hf).
  pose proof (sf_part _ _ _ _ _ _ _ _ _ _ _ _ _ _ _ Hf) as Hp. pose proof (tkey_skey N _ Hk) as Hsk.
  unfold SFBTree.update. rewrite (sr_guarded _ _ _ _ _ _ Hr). cbn [asserting].
  rewrite (sfound_to_leaf N grown _ _ _ _ _ _ _ _ _ _ _ _ _ Hf), bind_Some.
  destruct (sfound_read N HN grown _ _ _ _ _ _ _ _ _ _ _ _ _ Hk Hf) as [-> He]. rewrite bind_Some.
  unfold SFBTree.leaf. cbn [SFBTree.at_node]. rewrite (sf_leaf _ _ _ _ _ _ _ _ _ _ _ _ _ _ _ Hf), bind_Some.
  destruct (update_pairs N (N_small N HN) n f kv) as (n' & -> & Hwf' & Hps & Hh & Hs); [apply Hp|done|]. rewrite bind_Some.
  pose proof (sfound_pairs _ _ _ _ _ _ _ _ _ _ _ _ _ Hk Hr Hf) as Hm.
  destruct (pairs n !! str (skv_key kv)) as [old|].
  - eexists _, _. split; [done|]. split; [done|]. split; [|split; [|done]].
    + eapply sstore_leaf; [done|done|done| |apply (sf_unlocked _ _ _ _ _ _ _ _ _ _ _ _ _ _ _ Hf)].
      eapply sleaf_part_store; [exact Hp|apply Hr|apply Hf|done..].
    + stree_simpl. apply map_size_insert_Some. rewrite (sf_leaf _ _ _ _ _ _ _ _ _ _ _ _ _ _ _ Hf). eauto.
  - rewrite He. cbn. by exists None, t.
Qed.

(** ** [upsert] *)

(** the code up to the insertion in the leaf, which the caller has latched *)
Lemma supsert_begin t m C ups frs C1 e C2 n f par pv kv :
  srepresents t m C ups -> sfound t m C ups (skv_key kv) frs C1 e C2 n f par pv -> tkey N (skv_key kv) ->
  let n1 := SLeaf.set_control n (Control.encode (Control.with_locked f true)) in
  let h1 := <[e.1 := TLeaf n1]> (tmem t) in
  let a := smalloc h1 in
  SFBTree.upsert t kv =
    (let* r := SLeaf.upsert n1 kv a (smalloc_string h1) (sfound_tags a) in
     let h := <[e.1 := TLeaf (SLeaf.u_this r)]> (tmem t) in
     let* (t', current) :=
       match SLeaf.u_rnode r with
       | None => Some (SFBTree.with_mem t h, e.1)
       | Some (rn, mid) =>
           let* mid := mid in
           let h := <[a := TLeaf rn]> h in
           SFBTree.propagate (S (SFBTree.node_fuel h)) (SFBTree.with_mem t h) e.1 a mid 0 (fr_p <$> frs)
       end in
     let* h := SFBTree.unlatch_exclusive (tmem t') current in
     Some (SLeaf.u_old r, SFBTree.with_mem t' h)).
Proof.
  intros Hr Hf Hk n1 h1 a. pose proof Hf as [_ Hloc _ _ Hh Hp Hlk Hpar Hpath].
  unfold SFBTree.upsert. rewrite (sr_guarded _ _ _ _ _ _ Hr). cbn [asserting].
  rewrite Hpath, bind_Some. cbn [SFBTree.at_node].
  rewrite (latch_tnode (tmem t) e.1 (TLeaf n) f), bind_Some; [|by eapply sleaf_node|done].
  cbn [with_tword]. fold n1. fold h1. unfold SFBTree.node_fuel. cbn [SFBTree.latch_right].
  assert (h1 !! e.1 = Some (TLeaf n1)) as Hh1 by apply lookup_insert_eq.
  rewrite (sfound_stays N HN grown _ _ _ _ _ _ _ _ _ _ _ _ _ Hk Hf h1 n1 _ Hh1 (sleaf_part_lock N n f m C1 e _ true Hp)), !bind_Some.
  2:{ apply lookup_insert_is_Some'. by right. }
  cbn [SFBTree.at_node]. unfold SFBTree.leaf. rewrite Hh1, bind_Some. fold a.
  destruct (SLeaf.upsert _ _ _ _ _) as [r|]; [|done]. rewrite !bind_Some.
  assert (<[e.1 := TLeaf (SLeaf.u_this r)]> h1 = <[e.1 := TLeaf (SLeaf.u_this r)]> (tmem t)) as ->
    by (unfold h1; by rewrite insert_insert_eq).
  done.
Qed.

(** the pair stays in its leaf *)
Lemma supsert_in_place t m C ups frs C1 e C2 n f par pv f' kv n' old :
  srepresents t m C ups -> sfound t m C ups (skv_key kv) frs C1 e C2 n f par pv -> tkey N (skv_key kv) ->
  let n1 := SLeaf.set_control n (Control.encode (Control.with_locked f true)) in
  let h1 := <[e.1 := TLeaf n1]> (tmem t) in
  let a := smalloc h1 in
  SLeaf.upsert n1 kv a (smalloc_string h1) (sfound_tags a) = Some (SLeaf.mkUpsert old n' None) ->
  sleaf_part N n' f' (<[num (skv_key kv) := kv_num kv]> m) C1 e (first C2) -> Control.f_locked f' = true ->
  exists t', SFBTree.upsert t kv = Some (old, t') /\ srepresents t' (<[num (skv_key kv) := kv_num kv]> m) C ups
    /\ size (tmem t') = size (tmem t) /\ tretired t' = tretired t.
Proof.
  intros Hr Hf Hk n1 h1 a Hu Hn' Hlk'. rewrite (supsert_begin t m C ups frs C1 e C2 n f par pv kv Hr Hf Hk).
  fold n1. fold h1. fold a. rewrite Hu, bind_Some. cbn [SLeaf.u_rnode SLeaf.u_this SLeaf.u_old]. rewrite bind_Some. stree_simpl.
  rewrite (unlatch_tnode _ e.1 (TLeaf n') f'), bind_Some; [|by eapply sleaf_node; [apply lookup_insert_eq|]|done].
  rewrite insert_insert_eq. cbn [with_tword]. eexists. split; [done|]. split; [|split; [|done]].
  - change (SFBTree.with_mem (SFBTree.with_mem t ?a) ?b) with (SFBTree.with_mem t b).
    eapply sstore_leaf; [done|done|done|by apply sleaf_part_lock|done].
  - stree_simpl. apply map_size_insert_Some. rewrite (sf_leaf _ _ _ _ _ _ _ _ _ _ _ _ _ _ _ Hf). eauto.
Qed.

(** a full leaf is split, and the new leaf goes into the levels above *)
Lemma supsert_up t m C1 a u C2 frs n f par pv kv n' rn' F (mid : anchor) :
  let C := C1 ++ (a, u) :: C2 in let L := levels (a, u) frs in
  srepresents t m C L -> sfound t m C L (skv_key kv) frs C1 (a, u) C2 n f par pv -> tkey N (skv_key kv) -> tdepth t < 13 ->
  let n1 := SLeaf.set_control n (Control.encode (Control.with_locked f true)) in
  let h1 := <[a := TLeaf n1]> (tmem t) in
  let b := smalloc h1 in
  let n2 := SLeaf.set_control n' (Control.encode F) in
  let m' := <[num (skv_key kv) := kv_num kv]> m in
  SLeaf.upsert n1 kv b (smalloc_string h1) (sfound_tags b) = Some (SLeaf.mkUpsert None n' (Some (rn', Some mid))) ->
  (forall w, u = Some w -> num (an_str mid) < w) ->
  slatched 0 (TLeaf n') (TLeaf n2) ->
  sleaf_part N n2 F m' C1 (a, Some (num (an_str mid))) (Some b) -> Control.f_locked F = false ->
  sleaf_part N rn' (new_fields (Control.f_sibling f)) m' (C1 ++ [(a, Some (num (an_str mid)))]) (b, u) (first C2) ->
  ordered (is_key N) (C1 ++ (a, Some (num (an_str mid))) :: (b, u) :: C2) -> tkey N (an_str mid) ->
  exists t' ups', SFBTree.upsert t kv = Some (None, t')
    /\ srepresents t' m' (C1 ++ (a, Some (num (an_str mid))) :: (b, u) :: C2) ups' /\ tretired t' = tretired t
    /\ (length ups' <= S (length L))%nat /\ (size (tmem t') <= size (tmem t) + S (S (length L)))%nat.
Proof.
  intros C L Hr Hf Hk Hd n1 h1 b n2 m' Hu Hmid Hlat Hh' HlF Hhr Ho' Hin.
  assert (tmem t !! a = Some (TLeaf n)) as Ha by apply (sf_leaf _ _ _ _ _ _ _ _ _ _ _ _ _ _ _ Hf).
  assert (tmem t !! b = None) as Hb.
  { pose proof (smalloc_fresh h1) as Hfr. unfold h1 at 1 in Hfr. by apply lookup_insert_None in Hfr as [? _]. }
  assert (a <> b) as Hab by congruence.
  rewrite (supsert_begin t m C L frs C1 (a, u) C2 n f par pv kv Hr Hf Hk). cbn [fst]. fold n1. fold h1. fold b.
  rewrite Hu, bind_Some. cbn [SLeaf.u_rnode SLeaf.u_this SLeaf.u_old]. rewrite bind_Some.
  set (h2 := <[b := TLeaf rn']> (<[a := TLeaf n']> (tmem t))).
  destruct Hr as [Hkey Hs Hg]. destruct (standing_beside _ _ _ _ _ _ _ _ _ Hs) as [HaL _]. cbn in HaL.
  assert (size h2 = S (size (tmem t))) as Esize.
  { unfold h2. rewrite map_size_insert_None, map_size_insert_Some; [done|by eexists|by rewrite lookup_insert_ne]. }
  pose proof (length_levels (a, u) frs) as ELf. fold L in ELf.
  destruct (propagate_grows (Hprog := spropagation N HN grown) frs (SFBTree.with_mem t h2) 0 C1 a u C2 b mid
    (TLeaf n') (TLeaf n2) (S (SFBTree.node_fuel h2)))
    as (t' & cur' & h' & ups' & Hp & Hul & [Hg' Hret] & Hgr); stree_simpl; try done; try apply Hs.
  - apply (zip_frame (sinner_at N grown) (tmem t)); [|apply Hf]. intros x Hx. cbn [sp_mem sspine] in *. stree_simpl. unfold h2.
    rewrite !lookup_insert_ne; [done|by intros <-|]. intros <-. destruct (chain_dom _ _ _ _ _ _ (st_chain _ _ _ _ _ _ _ Hs) Hx) as [y Hy].
    change (tmem t !! b = Some y) in Hy. congruence.
  - cbn [sp_mem sspine]. stree_simpl. unfold h2. by rewrite lookup_insert_ne, lookup_insert_eq.
  - apply NoDup_cons. split; [done|]. pose proof (st_nodup _ _ _ _ _ _ _ Hs) as Hnd. by apply NoDup_app in Hnd as (_ & _ & ?).
  - etrans; [apply (st_depth _ _ _ _ _ _ _ Hs)|by rewrite ELf].
  - pose proof (standing_size _ _ _ _ _ _ _ Hs) as Hsz. rewrite length_app in Hsz. cbn [sp_mem sspine] in Hsz.
    pose proof (chain_levels _ _ _ _ _ (st_chain _ _ _ _ _ _ _ Hs)). unfold SFBTree.node_fuel. lia.
  - change (Z.of_nat 0) with 0 in Hp. cbn [sp_mem sspine] in Hul.
    rewrite Hp, bind_Some, Hul, bind_Some. pose proof (gr_size _ _ _ _ _ _ _ _ _ _ Hgr) as Hsz.
    cbn [sp_mem sspine tmem SFBTree.with_mem] in Hsz. fold L in Hsz.
    eexists _, ups'. split; [done|]. split.
    { split.
      - by apply string_map_insert.
      - eapply (standing_split _ _ _ (sspine t) m _ C1 a u C2 L (num (an_str mid)) b (TLeaf n') (TLeaf n2) (TLeaf rn') h2 (sspine t')); try done.
        + intros k. apply (insert_elsewhere m C1 (a, u) (kv_num kv)). apply Hf.
        + intros h Hh. by exists n2, F.
        + intros h Hh. eexists _, _. split; [done|]. by split.
      - stree_simpl. by rewrite Hg'. }
    split; [done|]. split; [apply (gr_levels _ _ _ _ _ _ _ _ _ _ Hgr)|]. stree_simpl. lia.
Qed.

(** the pairs of a leaf and one more, as far as their numbers are in [P] *)
Lemma has_num_part n n' kv (P : Z -> Prop) :
  (forall x, shas n' x <-> (x = kv \/ shas n x) /\ P (num (skv_key x))) ->
  forall x, has (leaf_num N n') x <-> (x = kv_num kv \/ has (leaf_num N n) x) /\ P (kv_key x).
Proof.
  intros Hn' x. rewrite !has_num. split.
  - intros (y & -> & Hy). apply Hn' in Hy as [[->|Hy] HP]; (split; [|exact HP]); [by left|right; by exists y].
  - intros [[->|(y & -> & Hy)] HP]; [exists kv|exists y]; (split; [done|]); apply Hn'; auto.
Qed.

(** what is known of a leaf when it takes a pair *)
Lemma sleaf_part_args n f m C1 e nx kv raw :
  sleaf_part N n f m C1 e nx -> located C1 e (num (skv_key kv)) -> skey_ok N (skv_key kv) ->
  length raw = 64%nat /\ Forall is_byte raw -> supsert_args N n f kv raw.
Proof.
  intros [Hl Hwf Hi] [_ Hn] Hk Hraw. split; [done| |done|lia]. intros Hs. apply (below_high_num N n f); [done..|].
  pose proof (lh_sib _ _ _ _ _ _ _ Hl) as Hb. rewrite Hs in Hb. symmetry in Hb. apply bool_decide_eq_true in Hb as [u Hu].
  destruct (lh_high _ _ _ _ _ _ _ Hl u Hu) as [-> _]. unfold below in Hn. rewrite Hu in Hn. lia.
Qed.

(** the fields of the left half of a split once [upsert] is through with it *)
Definition half_fields (f : Control.fields) : Control.fields :=
  let g := Control.with_sibling (splitting_fields f) true in
  Control.with_splitting (Control.with_locked g false) (Control.f_splitting g - 1).

(** the two halves of a latched leaf *)
Lemma sleaf_part_divide n f m C1 a u nx kv b haddr raw :
  sleaf_part N n f m C1 (a, u) nx -> string_map N m -> located C1 (a, u) (num (skv_key kv)) ->
  tkey N (skv_key kv) -> m !! num (skv_key kv) = None -> Control.f_locked f = true -> lbitmap n = Z.ones 64 ->
  length raw = 64%nat /\ Forall is_byte raw ->
  let m' := <[num (skv_key kv) := kv_num kv]> m in
  exists n' rn' mid, SLeaf.upsert n kv b haddr raw = Some (SLeaf.mkUpsert None n' (Some (rn', Some mid)))
    /\ let n2 := SLeaf.set_control n' (Control.encode (half_fields f)) in
       let z := num (an_str mid) in
       tkey N (an_str mid) /\ located C1 (a, u) z /\ (forall w, u = Some w -> z < w)
       /\ slatched 0 (TLeaf n') (TLeaf n2)
       /\ sleaf_part N n2 (half_fields f) m' C1 (a, Some z) (Some b)
       /\ sleaf_part N rn' (new_fields (Control.f_sibling f)) m' (C1 ++ [(a, Some z)]) (b, u) nx.
Proof.
  intros Hp Hm Hloc Hk Hnone Hlk Hfull Hraw m'. pose proof Hp as [Hl Hwf Hi]. pose proof (tkey_skey N _ Hk) as Hsk.
  pose proof (sleaf_part_content N n f m C1 (a, u) nx _ Hp Hm Hloc) as Hcont.
  rewrite Hnone, (content_pairs_None N n f) in Hcont by done.
  destruct (upsert_divide N (N_small N HN) n f kv b haddr raw Hwf (sleaf_part_args _ _ _ _ _ _ _ _ Hp Hloc Hsk Hraw) Hcont Hfull)
    as (n' & rn' & s & Hu & Hh & Hs & Hrh & W1 & W2 & Hn' & Hrn' & Hsn & Hsr & (x0 & Hx0 & Ex0) & (y0 & Hy0)).
  pose proof (string_map_keyed N m Hm) as Hkey.
  assert (high_key_ (leaf_num N n') = num s) as Eh by (cbn; by rewrite Hh).
  destruct (split_holds (string_code N) m C1 a u nx (leaf_num N n) (leaf_num N n') (leaf_num N rn') f
    (Control.with_sibling (splitting_fields f) true) (new_fields (Control.f_sibling f)) b (kv_num kv))
    as (Hmid & Hh' & Hhr); try done; try rewrite Eh.
  - apply W1.
  - apply W2.
  - apply (lh_del _ _ _ _ _ _ _ Hl).
  - intros x. rewrite !has_num. setoid_rewrite Hn'. naive_solver.
  - intros x. rewrite !has_num. setoid_rewrite Hrn'. naive_solver.
  - intros Hf. split; [by apply Hsr|]. cbn. destruct Hrh as [->|[_ ?]]; [done|congruence].
  - exists (kv_num y0). by apply has_kv.
  - exists (kv_num x0). apply has_kv, Hn'. split; [by right|lia].
  - rewrite Eh in *. pose proof (proj2 (has_kv N n x0) Hx0) as Hin. apply (lh_has _ _ _ _ _ _ _ Hl) in Hin as [Hin Hloc0].
    cbn [kv_key SLeafSim.kv_num] in Hin, Hloc0. rewrite Ex0 in Hin, Hloc0. destruct (Hm _ _ Hin) as (x & Ex & Es & Htx).
    assert (s = skv_key x) as -> by (apply (num_string N); [done|by apply tkey_skey|done]).
    pose proof (sw_leaf _ _ _ W1) as Wl. destruct (wf_valid _ _ _ Wl) as [Hv1 Hv2].
    assert (Control.valid (half_fields f)) as Hv. { split; [cbn; lia|exact Hv2]. }
    exists n', rn', (mkAnchor haddr (skv_key x)). split; [done|]. cbn zeta. split; [done|]. split; [done|]. split; [done|].
    split; [|split].
    + exists (Control.with_sibling (splitting_fields f) true). split; [done|]. split; [apply (wf_word _ _ _ Wl)|].
      split; [done|]. split; [cbn; lia|done].
    + pose proof (leaf_holds_word (string_code N) _ _ (half_fields f) _ _ _ _ Hh' Hv eq_refl eq_refl eq_refl eq_refl) as Hh2.
      split; [exact Hh2| |cbn; lia]. destruct W1 as [_ H1 H2 H3]. split; [apply (lh_wf _ _ _ _ _ _ _ Hh2)|done..].
    + by split.
Qed.

Lemma stree_upsert_spec t m C ups kv :
  srepresents t m C ups -> tkey N (skv_key kv) -> tdepth t < 13 ->
  exists o t' C' ups', SFBTree.upsert t kv = Some (o, t') /\ m !! num (skv_key kv) = kv_num <$> o
    /\ srepresents t' (<[num (skv_key kv) := kv_num kv]> m) C' ups' /\ tretired t' = tretired t
    /\ (length ups' <= S (length ups))%nat /\ (size (tmem t') <= size (tmem t) + S (S (length ups)))%nat.
Proof.
  intros Hr Hk Hd. destruct (sfind_leaf N HN grown t m C ups _ Hr Hk) as (frs & C1 & e & C2 & n & f & par & pv & Hf).
  pose proof (sfound_pairs _ _ _ _ _ _ _ _ _ _ _ _ _ Hk Hr Hf) as Hm. pose proof (tkey_skey N _ Hk) as Hsk.
  pose proof (sf_part _ _ _ _ _ _ _ _ _ _ _ _ _ _ _ Hf) as Hp.
  pose proof (sf_located _ _ _ _ _ _ _ _ _ _ _ _ _ _ _ Hf) as Hloc.
  set (f1 := Control.with_locked f true). set (n1 := SLeaf.set_control n (Control.encode f1)).
  set (h1 := <[e.1 := TLeaf n1]> (tmem t)). set (b := smalloc h1).
  pose proof (sleaf_part_lock N n f m C1 e _ true Hp) as Hp1. fold f1 in Hp1. fold n1 in Hp1.
  assert (pairs n = pairs n1) as Epairs by done. rewrite Epairs in Hm.
  destruct (decide (pairs n1 !! str (skv_key kv) = None /\ lbitmap n1 = Z.ones 64)) as [[Hnone Hfull]|Hstay].
  - rewrite Hnone in Hm. destruct e as [a u].
    destruct (sleaf_part_divide n1 f1 m C1 a u (first C2) kv b (smalloc_string h1) (sfound_tags b) Hp1
      (sr_keyed _ _ _ _ _ _ Hr) Hloc Hk Hm eq_refl Hfull (sfound_tags_ok b))
      as (n' & rn' & mid & Hu & Hmk & Hml & Hmu & Hlat & Hh' & Hhr).
    pose proof (sf_split _ _ _ _ _ _ _ _ _ _ _ _ _ _ _ Hf) as EC.
    pose proof (sf_levels _ _ _ _ _ _ _ _ _ _ _ _ _ _ _ Hf) as EL. subst C ups.
    assert (ordered (is_key N) (C1 ++ (a, Some (num (an_str mid))) :: (b, u) :: C2)) as Ho'.
    { apply ordered_split; [apply Hr|by exists (an_str mid)|done|apply Hml]. }
    destruct (supsert_up t m C1 a u C2 frs n f par pv kv n' rn' (half_fields f1) mid Hr Hf Hk Hd Hu Hmu Hlat Hh' eq_refl Hhr Ho' Hmk)
      as (t' & ups' & Hrun & Hr' & Hrest).
    by exists None, t', (C1 ++ (a, Some (num (an_str mid))) :: (b, u) :: C2), ups'.
  - destruct (upsert_stay N (N_small N HN) n1 f1 kv b (smalloc_string h1) (sfound_tags b)) as (n' & Hu & Hwf' & _ & Hps & Hh & Hs).
    + apply Hp1.
    + eapply sleaf_part_args; [exact Hp1|done|done|apply sfound_tags_ok].
    + intros Hnone Hfull. by apply Hstay.
    + destruct (stored_fields_same (pairs n1 !! str (skv_key kv)) f1) as (E1 & E2 & E3 & E4).
      destruct (supsert_in_place t m C ups frs C1 e C2 n f par pv (stored_fields (pairs n1 !! str (skv_key kv)) f1) kv n' _ Hr Hf Hk Hu) as (t' & Hrun & Hr' & Hsz & Hret).
      * eapply sleaf_part_store; [exact Hp1|apply Hr|done..].
      * done.
      * exists (pairs n1 !! str (skv_key kv)), t', C, ups. do 3 (split; [done|]). split; [done|]. split; lia.
Qed.
End ops.
