(* ===== verification/SFBTreeScan.v ===== *)
(** * Ordered access to the tree of string keys

    [begin], the bounds and [advance] of [SFBTree], on a tree that [srepresents] a map. A
    string leaf is sorted and read as the integer leaf of its numbers is ([SLeafSim]); how
    an iterator goes through the leaves is proved in [Scan]. *)

From S2P Require Import Prelude Bits Simd Strings Moves Encode Control Rank Leaf LeafSpec Inner InnerSpec SInner SInnerSpec SInnerOps SLeaf SLeafSim SLeafSpec Levels Growth Words LeafPart Scan Cover SInnerKind SFBTree SFBTreeSpec SFBTreeOps.

(** ** One leaf *)

Section leaf.
Context {V : Type} (N : nat) (HN : Z.of_nat N < 2 ^ 64).
Abbreviation C := (string_code N).
Abbreviation num := (num N).
Abbreviation kv_num := (kv_num N).
Abbreviation leaf_num := (leaf_num N).
Implicit Types (n : sleaf V) (kv : skvpair V) (key : String).

Lemma access_pos_num n pos : opt_num N <$> SLeaf.access_pos n pos = Leaf.access_pos C (leaf_num n) pos.
Proof. apply sim_if; [done|done|intros _]. apply sim_if; [done|done|intros _; apply load_kv_num]. Qed.

(** the pair in a slot *)
Lemma saccess_pos_eq n pos :
  body_wf C (leaf_num n) -> exists o, SLeaf.access_pos n pos = Some o /\ kv_num <$> o = entry_at (leaf_num n) pos.
Proof.
  intros Hb. pose proof (access_pos_num n pos) as E. rewrite (access_pos_eq C _ pos Hb) in E.
  destruct (SLeaf.access_pos n pos) as [o|]; [|done]. apply (inj Some) in E. by exists o.
Qed.

(** a leaf read as the same leaf sorted *)
Lemma sorts_swf n f n' f' :
  sleaf_wf N n f -> sorts C (leaf_num n) f (leaf_num n') f' -> lhigh n' = lhigh n -> sleaf_wf N n' f'.
Proof.
  intros Hwf Hs Hh. destruct Hs as [Hw' _ (_ & Es & _) Hx _]. eapply (same_wf N n f); [done|done| |done|done].
  apply (content_same C); [apply Hwf|apply Hw'|done].
Qed.

Lemma ssort_latched n f raw :
  sleaf_wf N n f -> length raw = 64%nat -> Forall is_byte raw ->
  exists n2 f2, SLeaf.kv_sort (SLeaf.set_control n (Control.encode (Control.with_locked f true))) raw = Some n2
    /\ Control.f_locked f2 = true /\ sorts C (leaf_num n) f (leaf_num n2) f2 /\ lhigh n2 = lhigh n.
Proof.
  intros Hwf Hl Hb. set (n1 := SLeaf.set_control n _).
  destruct (sort_latched C (leaf_num n) f raw (sw_leaf N n f Hwf) Hl Hb) as (m2 & f2 & E & Hl2 & Hs).
  assert (keys_ok N n1) as Hk by exact (swf_keys_ok N n f Hwf).
  change (Leaf.set_control (leaf_num n) _) with (leaf_num n1) in E. rewrite <- (kv_sort_num N n1 raw Hk) in E.
  pose proof (kv_sort_high n1 raw) as Hh. destruct (SLeaf.kv_sort n1 raw) as [n2|]; [|done]. apply (inj Some) in E as <-.
  exists n2, f2. do 3 (split; [done|]). exact (Hh n2 eq_refl).
Qed.

Lemma slatch_eq n f :
  Control.valid f -> lcontrol n = Control.encode f -> Control.f_locked f = false ->
  SLeaf.latch_exclusive n = Some (SLeaf.set_control n (Control.encode (Control.with_locked f true))).
Proof.
  intros Hv Hw Hl. unfold SLeaf.latch_exclusive, SLeaf.on_control. by rewrite Hw, Control.latch_exclusive_encode.
Qed.

Lemma sunlatch_eq n f :
  Control.valid f -> lcontrol n = Control.encode f -> Control.f_locked f = true ->
  SLeaf.on_control n Control.unlatch_exclusive = Some (SLeaf.set_control n (Control.encode (Control.with_locked f false))).
Proof.
  intros Hv Hw Hl. unfold SLeaf.on_control. rewrite Hw. destruct (Control.run_encode Control.OpUnlatch f Hv) as [E _].
  cbn in E. by rewrite E, Hl.
Qed.

(** [access] of the first slot sorts the leaf, if it has to *)
Lemma saccess_slot n f raw :
  sleaf_wf N n f -> Control.f_locked f = false -> length raw = 64%nat -> Forall is_byte raw ->
  exists n' f' o, SLeaf.access n None 0 (Control.load_version (Control.encode f)) raw
      = Some (o, 0, Control.load_version (Control.encode f'), n')
    /\ kv_num <$> o = entry_at (leaf_num n') 0 /\ sorts C (leaf_num n) f (leaf_num n') f' /\ lhigh n' = lhigh n
    /\ Control.f_locked f' = false.
Proof.
  intros Hwf Hlk Hl Hr. pose proof (sw_leaf N n f Hwf) as Hlf. pose proof Hlf as [Hb Hw Hv _ _ _ _]. cbn [control_ SLeafSim.leaf_num] in Hw.
  destruct (reads (leaf_num n) f Hv Hw) as (Ho & _). cbn [control_ SLeafSim.leaf_num] in Ho.
  unfold SLeaf.access. rewrite Ho. destruct (Control.f_ordered f) eqn:Eo.
  - destruct (saccess_pos_eq n 0 Hb) as (o & -> & E). rewrite bind_Some, Hw, Control.end_read_encode, bind_Some by done.
    exists n, f, o. do 2 (split; [done|]). split; [by apply sorts_refl|done].
  - rewrite (slatch_eq n f), bind_Some by done. destruct (ssort_latched n f raw Hwf Hl Hr) as (n2 & f2 & -> & Hl2 & Hs2 & Hh2). rewrite bind_Some.
    destruct (so_wf _ _ _ _ _ Hs2) as [Hb2 Hw2 Hv2 _ _ _ _]. cbn [control_ SLeafSim.leaf_num] in Hw2.
    destruct (saccess_pos_eq n2 0 Hb2) as (o & -> & E). rewrite bind_Some.
    rewrite (sunlatch_eq n2 f2), bind_Some by done.
    exists (SLeaf.set_control n2 (Control.encode (Control.with_locked f2 false))), (Control.with_locked f2 false), o.
    split; [by rewrite Hw2, version_locked|]. split; [exact E|]. split; [exact (sorts_unlock C _ _ _ _ Hs2)|done].
Qed.

Lemma saccess_after n f x i raw :
  sleaf_wf N n f -> Control.f_locked f = false -> Control.f_ordered f = true ->
  exists o, SLeaf.access n x i (Control.load_version (Control.encode f)) raw
      = Some (o, i, Control.load_version (Control.encode f), n)
    /\ kv_num <$> o = entry_at (leaf_num n) i.
Proof.
  intros Hwf Hlk Ho. pose proof (sw_leaf N n f Hwf) as [Hb Hw Hv _ _ _ _]. cbn [control_ SLeafSim.leaf_num] in Hw.
  destruct (reads (leaf_num n) f Hv Hw) as (Hr & _). cbn [control_ SLeafSim.leaf_num] in Hr.
  destruct (saccess_pos_eq n i Hb) as (o & E & Eo). exists o. split; [|done].
  unfold SLeaf.access. by rewrite Hr, Ho, E, bind_Some, Hw, Control.end_read_encode, bind_Some.
Qed.

(** [bound] of a sorted leaf *)
Lemma sbound_ok n f key upper :
  sleaf_wf N n f -> Control.f_ordered f = true -> skey_ok N key -> (upper = true -> content (leaf_num n) !! num key = None) ->
  exists o pos, SLeaf.bound n key upper = Some (o, pos) /\ leaf_first (leaf_num n) (above upper (num key)) (kv_num <$> o)
    /\ (forall x, o = Some x -> used (leaf_num n) pos /\ kv_at (leaf_num n) pos (kv_num x)).
Proof.
  intros Hwf Ho Hk Hc. pose proof (bound_num N HN n key upper (swf_keys_ok N n f Hwf) Hk) as E.
  destruct (bound_ok C (leaf_num n) f (num key) upper (sw_leaf N n f Hwf) Ho Hc) as (o' & pos & Eb & Hf & Hat).
  rewrite Eb in E. destruct (SLeaf.bound n key upper) as [[o pos']|]; [|done].
  apply (inj Some), pair_equal_spec in E as [E1 E2]. cbn [fst snd] in E1, E2. unfold id in E2. subst o' pos'.
  exists o, pos. split; [done|]. split; [exact Hf|]. intros x ->. by apply Hat.
Qed.
End leaf.

(** ** The program, as [Scan] sees it *)

Section scanner.
Context {V : Type} `{SAllocatorLaws V} (N : nat) (HN : (N <= 224)%nat).
Abbreviation C := (string_code N).
Abbreviation num := (num N).
Abbreviation kv_num := (kv_num N).
Abbreviation leaf_num := (leaf_num N).
Implicit Types (h : sheap V) (n : sleaf V) (key : String).

Definition string_scanner : scanner (tnode V) (skvpair V) String SFBTree.place (siterator V) := {|
  sn_begin := SFBTree.begin_read; sn_end := SFBTree.end_read;
  sn_sibling h a := SLeaf.sibling <$> SFBTree.leaf h a;
  sn_access := SFBTree.access; sn_advance := SFBTree.advance_right;
  sn_node := SFBTree.at_node; sn_move := SFBTree.move; sn_ok h p := is_Some (h !! SFBTree.at_parent p);
  sn_bound := SFBTree.get_bound; sn_bound_right := SFBTree.bound_right;
  sn_iter := mkSIterator; sn_pair := skv_;
|}.

Definition string_leaf (nd : tnode V) (x : leaf (skvpair V)) (f : Control.fields) : Prop :=
  exists n, nd = TLeaf n /\ x = leaf_num n /\ sleaf_wf N n f /\ Control.f_splitting f = 0.

(** a leaf that is sorted keeps its high key, and its split counts *)
Lemma string_leaf_sorts n f n' f' :
  sleaf_wf N n f -> Control.f_splitting f = 0 -> sorts C (leaf_num n) f (leaf_num n') f' -> lhigh n' = lhigh n ->
  string_leaf (TLeaf n') (leaf_num n') f'.
Proof.
  intros Hwf Hi Hs Hh. exists n'. do 2 (split; [done|]). split; [by eapply sorts_swf|].
  by rewrite (proj2 (proj2 (so_flags _ _ _ _ _ Hs))).
Qed.

Lemma sleaf_word h a n f : h !! a = Some (TLeaf n) -> leaf_wf C (leaf_num n) f -> tnode_at h a (TLeaf n) f.
Proof. intros Hm []. split; [done|]. by split. Qed.

(** a key that is not past the bound of a leaf stays there *)
Lemma leaf_to_sibling h p n f m C1 e nx key :
  h !! SFBTree.at_node p = Some (TLeaf n) -> sleaf_part N n f m C1 e nx -> is_Some (h !! SFBTree.at_parent p) ->
  skey_ok N key -> ~ below (num key) e -> SFBTree.to_sibling h p key = Some None.
Proof.
  intros Hh Hp Hpar Hk Hn. unfold SFBTree.to_sibling, SFBTree.leaf.
  rewrite Hh, bind_Some. destruct (control_dom h _ Hpar) as [c ->]. rewrite bind_Some. by eapply (sleaf_stays N HN).
Qed.

Lemma sget_bound_spec h p n f m C1 e nx key upper :
  SFBTree.at_node p = e.1 -> is_Some (h !! SFBTree.at_parent p) -> h !! e.1 = Some (TLeaf n) -> sleaf_part N n f m C1 e nx ->
  Control.f_locked f = false -> tkey N key -> ~ below (num key) e -> (upper = true -> content (leaf_num n) !! num key = None) ->
  exists n' f' o pos, SFBTree.get_bound h p key upper
      = Some (<[e.1 := TLeaf n']> h, p, o, pos, Control.load_version (Control.encode f'))
    /\ Control.f_locked f' = false /\ Control.f_ordered f' = true /\ sorts C (leaf_num n) f (leaf_num n') f' /\ lhigh n' = lhigh n
    /\ leaf_first (leaf_num n') (above upper (num key)) (kv_num <$> o)
    /\ (forall x, o = Some x -> used (leaf_num n') pos /\ kv_at (leaf_num n') pos (kv_num x)).
Proof.
  intros Ea Hpar Hm Hp Hlk Hk Hn Hup. pose proof (tkey_skey N _ Hk) as Hsk. pose proof Hp as [Hh Hwf _].
  pose proof (N_small N HN) as HNs. pose proof (lh_wf _ _ _ _ _ _ _ Hh) as Hlf. pose proof Hlf as [Hb Hw Hv _ _ _ _]. cbn [control_ SLeafSim.leaf_num] in Hw.
  destruct (reads (leaf_num n) f Hv Hw) as (Hr & _). cbn [control_ SLeafSim.leaf_num] in Hr.
  destruct (read_tnode _ _ _ _ (sleaf_word h e.1 n f Hm Hlf) Hlk) as [Hbr Her].
  unfold SFBTree.get_bound, SFBTree.node_fuel. cbn [SFBTree.read_right]. rewrite Ea, Hbr, bind_Some.
  rewrite (leaf_to_sibling h p n f m C1 e nx key), !bind_Some by (done || by rewrite Ea).
  unfold SFBTree.leaf. rewrite Ea, Hm, bind_Some, Hr. destruct (Control.f_ordered f) eqn:Eo; cbn [negb].
  - destruct (sbound_ok N HNs n f key upper Hwf Eo Hsk Hup) as (o & pos & -> & Hfirst & Hat).
    rewrite bind_Some, Her, bind_Some. exists n, f, o, pos. by rewrite insert_id.
  - unfold SFBTree.bound_sorted. rewrite Ea, (latch_tnode h e.1 (TLeaf n) f), bind_Some by (done || by apply sleaf_word).
    cbn [with_tword]. set (n1 := SLeaf.set_control n _). set (h1 := <[e.1 := TLeaf n1]> h).
    assert (h1 !! e.1 = Some (TLeaf n1)) as Hh1 by apply lookup_insert_eq.
    unfold SFBTree.node_fuel. cbn [SFBTree.latch_right].
    rewrite (leaf_to_sibling h1 p n1 (Control.with_locked f true) m C1 e nx key), !bind_Some;
      [|by rewrite Ea|by apply sleaf_part_lock|apply lookup_insert_is_Some'; by right|done|done].
    unfold SFBTree.leaf. rewrite Ea, Hh1, bind_Some.
    destruct (ssort_latched N n f (sfound_tags e.1) Hwf) as (n2 & f2 & Hsort & Hl2 & Hs2 & Hh2); [apply sfound_tags_ok..|].
    fold n1 in Hsort. rewrite Hsort, bind_Some. pose proof (sorts_swf N n f n2 f2 Hwf Hs2 Hh2) as Hwf2.
    destruct (sbound_ok N HNs n2 f2 key upper Hwf2 (so_ordered _ _ _ _ _ Hs2) Hsk) as (o & pos & -> & Hfirst & Hat).
    { intros Hu. rewrite (content_same C (leaf_num n) (leaf_num n2)); [by apply Hup|done|apply Hs2|apply Hs2]. }
    rewrite bind_Some. unfold h1. rewrite insert_insert_eq.
    rewrite (unlatch_tnode _ e.1 (TLeaf n2) f2), bind_Some, insert_insert_eq; [|apply sleaf_word; [apply lookup_insert_eq|apply Hs2]|done].
    cbn [with_tword]. destruct (so_wf _ _ _ _ _ Hs2) as [_ Hw2 Hv2 _ _ _ _]. cbn [control_ SLeafSim.leaf_num] in Hw2.
    exists (SLeaf.set_control n2 (Control.encode (Control.with_locked f2 false))), (Control.with_locked f2 false), o, pos.
    rewrite version_locked, Hw2 by done. split; [done|]. split; [done|]. split; [apply Hs2|].
    split; [exact (sorts_unlock C _ _ _ _ Hs2)|]. done.
Qed.

#[export] Instance string_scanning : Scanning C kv_num num (tkey N) string_leaf string_scanner.
Proof.
  split; cbn [sn_begin sn_end sn_sibling sn_access sn_advance sn_node sn_move sn_ok sn_bound sn_bound_right sn_iter sn_pair string_scanner]; try done.
  - intros h a nd x f Hm (n & -> & -> & Hwf & Hi) _ Hlk. by apply (read_tnode h a (TLeaf n) f); [apply sleaf_word; [|apply Hwf]|].
  - intros h a nd x f Hm (n & -> & -> & _). unfold SFBTree.leaf. by rewrite Hm.
  - intros h a nd x f Hm (n & -> & -> & Hwf & Hi) _ Hlk.
    destruct (saccess_slot N n f (sfound_tags a) Hwf Hlk) as (n' & f' & o & Hacc & Eo & Hs & Hh & Hl'); [apply sfound_tags_ok..|].
    exists (TLeaf n'), (leaf_num n'), f', o. unfold SFBTree.access, SFBTree.leaf. rewrite Hm, bind_Some, Hacc, bind_Some.
    split; [done|]. split; [by eapply string_leaf_sorts|done].
  - intros h a nd x f y i Hm (n & -> & -> & Hwf & Hi) _ Hlk Ho.
    destruct (saccess_after N n f (Some y) i (sfound_tags a) Hwf Hlk Ho) as (o & Hacc & Eo). exists o.
    unfold SFBTree.access, SFBTree.leaf. by rewrite Hm, bind_Some, Hacc, bind_Some, insert_id.
  - intros fuel h a v0 x cur next pos v. cbn [SFBTree.advance_right]. destruct next; [done|].
    by destruct (SFBTree.leaf h cur).
  - intros h a nd p b Hp. split; [|exact Hp]. apply lookup_insert_is_Some'. by right.
  - intros h p nd x f m C1 e nx key upper Ha Hpar Hm (n & -> & -> & Hwf & Hi) Hh Hlk Hk Hn Hup.
    destruct (sget_bound_spec h p n f m C1 e nx key upper Ha Hpar Hm) as (n' & f' & o & pos & -> & Hl' & Ho & Hs & Hhigh & Hf & Hat); try done.
    exists (TLeaf n'), (leaf_num n'), f', o, pos. split; [done|]. split; [by eapply string_leaf_sorts|done].
  - intros fuel h p key upper. cbn [SFBTree.bound_right]. destruct (SFBTree.get_bound _ _ _ _) as [[[[[h1 p1] o] pos] v]|]; [|done].
    rewrite !bind_Some. destruct o; [done|]. by destruct (SFBTree.leaf h1 _).
Qed.
End scanner.

(** ** The operations *)

Section scan.
Context {V : Type} `{SAllocatorLaws V} (N : nat) (HN : (N <= 224)%nat) (grown : bool).
Abbreviation num := (num N).
Abbreviation kv_num := (kv_num N).
Implicit Types (m : gmap Z (kvpair (skvpair V))) (C : level) (t : stree V) (it : siterator V) (key : String).
Abbreviation srepresents := (srepresents N grown).
Abbreviation siter_ok t := (iter_ok (string_code N) kv_num (string_leaf N) string_scanner (tmem t)).

#[local] Instance program_scanning : Scanning (string_code N) kv_num num (tkey N) (string_leaf (V := V) N) string_scanner.
Proof. exact (string_scanning N HN). Qed.

Lemma sleaf_at_string h m C1 e nx :
  sleaf_at N h m C1 e nx <->
  exists nd x f, h !! e.1 = Some nd /\ string_leaf N nd x f /\ leaf_holds (string_code N) x f m C1 e nx /\ Control.f_locked f = false.
Proof.
  split.
  - intros (n & f & Hm & [Hh Hwf Hi] & Hlk). exists (TLeaf n), (leaf_num N n), f. split; [done|]. split; [by exists n|done].
  - intros (nd & x & f & Hm & (n & -> & -> & Hwf & Hi) & Hh & Hlk). exists n, f. by do 2 (split; [done|]).
Qed.

(** the heap after a part of a scan *)
Lemma srepresents_heap t m C ups h :
  srepresents t m C ups -> standing (sinner_at N grown) (sleaf_at N) (is_key N) (set_mem (sspine t) h) m C ups ->
  srepresents (SFBTree.with_mem t h) m C ups.
Proof. by intros [Hk _ Hg] Hs. Qed.

Lemma sbegin_spec t m C ups :
  srepresents t m C ups ->
  exists t' it, SFBTree.begin t = Some (t', it) /\ srepresents t' m C ups /\ siter_ok t' m C it
    /\ first_of m (fun _ => True) (kv_num <$> skv_ it).
Proof.
  intros Hr. pose proof Hr as [Hkey%string_map_keyed Hs Hg].
  pose proof (chain_nonempty _ _ _ _ _ (st_chain _ _ _ _ _ _ _ Hs)) as Hne. destruct C as [|e C2]; [done|].
  destruct (first_spec (string_code N) kv_num num (tkey N) (string_leaf N) string_scanner (sinner_at N grown) (sleaf_at N) (is_key N) sleaf_at_string
    (sspine t) m [] e C2 ups (fun _ => True) Hs Hkey) as (v & h' & o & v' & Hb & Hacc & _ & Hs' & Hit & Hf); [done|done|].
  cbn [sn_begin sn_access string_scanner sp_mem sspine] in *. unfold SFBTree.begin. rewrite Hg. cbn [asserting].
  destruct (st_track _ _ _ _ _ _ _ Hs) as (_ & Ht & _). change (aget (ttrack t) 0) with (ttrack t !! 0%nat).
  cbn [sp_track sspine] in Ht. rewrite Ht, bind_Some. cbn [first head fmap option_fmap option_map].
  rewrite bind_Some, Hb, bind_Some, Hacc, bind_Some.
  eexists _, _. split; [done|]. split; [by apply srepresents_heap|]. by split; [exact Hit|].
Qed.

Lemma sadvance_next t m C ups it kv :
  srepresents t m C ups -> siter_ok t m C it -> skv_ it = Some kv ->
  exists t' it', SFBTree.advance t it = Some (t', it') /\ (srepresents t' m C ups /\ siter_ok t' m C it')
    /\ first_of m (fun k => num (skv_key kv) < k) (kv_num <$> skv_ it').
Proof.
  intros Hr Hit Ekv. pose proof Hr as [Hkey%string_map_keyed Hs Hg]. unfold Scan.iter_ok in Hit. cbn [sn_pair string_scanner] in Hit. rewrite Ekv in Hit.
  destruct (advance_spec (string_code N) kv_num num (tkey N) (string_leaf N) string_scanner (sinner_at N grown) (sleaf_at N) (is_key N) sleaf_at_string
    (sspine t) m C ups it kv Hs Hkey Hit) as (a & v & i & h' & it' & -> & Hrun & Hs' & Hit' & Hf).
  revert Hrun. unfold scan_next. cbn [sn_access sn_advance sn_iter sn_pair string_scanner sp_mem sspine] in *.
  unfold SFBTree.advance. cbn [skv_ snode_ spos_ sversion_]. rewrite !bind_Some.
  destruct (SFBTree.access _ _ _ _ _) as [[[[h1 o] pos] v1]|]; [|done]. rewrite !bind_Some. unfold SFBTree.node_fuel.
  destruct (SFBTree.advance_right _ _ _ _ _ _ _ _ _) as [[[[[h2 nx] o2] pos2] v2]|]; [|done]. intros [= -> <-]. rewrite bind_Some.
  eexists _, _. split; [done|]. by split; [split; [by apply srepresents_heap|exact Hit']|].
Qed.

Lemma sfound_root t m C ups key frs C1 e C2 n f par pv :
  srepresents t m C ups -> sfound N grown t m C ups key frs C1 e C2 n f par pv -> is_Some (tmem t !! troot t).
Proof.
  intros [_ Hs _] [_ _ Hz Hlev Hh _ _ _ _]. pose proof (zip_root _ _ _ _ _ _ _ Hz) as Hroot.
  destruct frs as [|fr frs]; [rewrite <- Hroot, Hh; by eexists|].
  eapply (chain_dom (sinner_at N grown) (tmem t)); [apply (st_chain _ _ _ _ _ _ _ Hs)|]. by rewrite <- Hlev.
Qed.

Lemma sbound_spec t m C ups key upper :
  srepresents t m C ups -> tkey N key -> (upper = true -> m !! num key = None) ->
  exists t' it, SFBTree.bound t key upper = Some (t', it) /\ srepresents t' m C ups /\ siter_ok t' m C it
    /\ first_of m (above upper (num key)) (kv_num <$> skv_ it).
Proof.
  intros Hr Hk Hup. pose proof Hr as [Hkey%string_map_keyed Hs Hg].
  destruct (sfind_leaf N HN grown t m C ups key Hr Hk) as (frs & C1 & e & C2 & n & f & par & pv & Hf).
  pose proof (sfound_root _ _ _ _ _ _ _ _ _ _ _ _ _ Hr Hf) as Hroot.
  pose proof (sf_split _ _ _ _ _ _ _ _ _ _ _ _ _ _ _ Hf) as ->.
  pose proof (sf_located _ _ _ _ _ _ _ _ _ _ _ _ _ _ _ Hf) as [Hf1 Hn].
  unfold SFBTree.bound. rewrite Hg. cbn [asserting].
  rewrite (sfound_to_leaf N grown _ _ _ _ _ _ _ _ _ _ _ _ _ Hf), bind_Some. cbn [SFBTree.at_node SFBTree.at_pversion].
  destruct (bound_right_spec (string_code N) kv_num num (tkey N) (string_leaf N) string_scanner (sinner_at N grown) (sleaf_at N) (is_key N) sleaf_at_string
    C2 (sspine t) m ups C1 e (SFBTree.mkPlace e.1 (troot t) pv) key upper (SFBTree.node_fuel (tmem t)) Hs Hkey) as (h' & it & Hrun & Hs' & Hit & Hfo); try done.
  - pose proof (standing_size _ _ _ _ _ _ _ Hs) as Hsz. rewrite length_app, length_fmap, length_app in Hsz.
    unfold SFBTree.node_fuel. cbn in Hsz. lia.
  - intros k x _ Hab. eapply Forall_impl; [exact Hf1|]. intros c Hc. unfold below in *. destruct c.2; [|done].
    destruct upper; cbn in Hab; lia.
  - cbn [sn_bound_right string_scanner sp_mem sspine] in Hrun. rewrite Hrun, bind_Some.
    exists (SFBTree.with_mem t h'), it. split; [done|]. split; [by apply srepresents_heap|]. by split; [exact Hit|].
Qed.

(** a scan from an iterator at the first pair of an upward closed set *)
Lemma sscan_from (P : Z -> Prop) `{!forall k, Decision (P k)} t m C ups it fuel :
  srepresents t m C ups -> siter_ok t m C it -> first_of m P (kv_num <$> skv_ it) ->
  (forall j k, P j -> j < k -> P k) -> (size m <= fuel)%nat ->
  exists l t', walk SFBTree.advance skv_ fuel t it = Some (l, t')
    /\ kv_num <$> l = filter (fun kv => P (kv_key kv)) (Scan.sorted_pairs m) /\ srepresents t' m C ups.
Proof.
  intros Hr Hit Hf HP Hfuel. set (J := fun t it => srepresents t m C ups /\ siter_ok t m C it).
  assert (forall t it x, J t it -> skv_ it = Some x ->
    exists t' it', SFBTree.advance t it = Some (t', it') /\ J t' it'
      /\ first_of m (fun k => kv_key (kv_num x) < k) (kv_num <$> skv_ it')) as Hnext.
  { intros t1 it1 x [Hr1 Hit1] Ex. by apply (sadvance_next t1 m C ups). }
  destruct (walk_from SFBTree.advance skv_ kv_num m (string_map_keyed N m (sr_keyed _ _ _ _ _ _ Hr)) J Hnext P t it fuel)
    as (l & t' & it' & E & El & [Hr' _]); [done..|]. by exists l, t'.
Qed.
End scan.
