(* ===== verification/SFBTreeRemove.v ===== *)
(** * Removal from the tree of string keys

    [remove] on a tree that [srepresents] a map. What it does to a node is proved in
    [Cover], and how a merge goes up through the levels in [Shrink]; here is the program
    that takes the turns, and the level of the leaves. *)

From S2P Require Import Prelude Bits Simd Strings Moves Encode Control Rank Leaf LeafSpec Inner InnerSpec SInner SInnerSpec SInnerOps SLeaf SLeafSim SLeafSpec Levels Growth Words LeafPart Cover Shrink SInnerKind SFBTree SFBTreeSpec SFBTreeOps.

(** ** A merge goes up *)

Definition sproj {V} (nd : tnode V) : option snode := match nd with TInner n => Some n | TLeaf _ => None end.

Section shrink.
Context {V : Type} `{SAllocatorLaws V} (N : nat) (HN : (N <= 224)%nat).
Abbreviation num := (num N).
Implicit Types (h : sheap V) (t : stree V) (nd : tnode V) (mid : anchor).
Abbreviation covers := (covers (string_inner N) false).
Abbreviation latched := (latched_word tword with_tword).

(** the program, as [Shrink] sees it *)
Definition smachine : machine (tnode V) (stree V) retiree (ik_sep (string_inner N)) := {|
  mc_spine := sspine; mc_log := tretired; mc_item p := RNode p; mc_live := tguarded;
  mc_put := SFBTree.with_mem; mc_retire t p := SFBTree.retire t (RNode p);
  mc_shrink fuel t a merged up mid k st := SFBTree.shrink fuel t a merged up mid (Z.of_nat k) st;
  mc_shrink_root := SFBTree.shrink_root;
|}.

Lemma slatched_release h a nd nd' :
  h !! a = Some nd -> latched nd nd' -> SFBTree.unlatch_exclusive h a = Some (<[a := nd']> h).
Proof. exact (release_word tword with_tword h a nd nd'). Qed.

(** one turn of the loop *)
Lemma sshrink_turn t (k : nat) a nd nd' p n g sa E1 u E2 nx merged up mid :
  bool_decide (merged = None) && negb up = false ->
  tmem t !! a = Some nd -> latched nd nd' -> p <> a ->
  tmem t !! p = Some (TInner n) -> covers n g sa (E1 ++ (a, u) :: E2) nx -> Control.f_locked g = false ->
  ordered (is_key N) (E1 ++ (a, u) :: E2) -> tkey N (an_str mid) -> located E1 (a, u) (num (an_str mid)) ->
  let h1 := <[p := TInner (SInner.set_control n (Control.encode (Control.with_locked g true)))]> (tmem t) in
  let h := if p =? troot t then h1 else <[a := nd']> h1 in
  forall fuel st,
    SFBTree.shrink (S fuel) t a merged up mid (Z.of_nat k) (p :: st)
    = (let* (h', merged', up', mid') := SFBTree.shrink_inner h p merged mid (Z.of_nat (length E1)) in
       let t := SFBTree.with_mem (SFBTree.retire t (RNode merged)) h' in
       if p =? troot t
       then (let* t := SFBTree.shrink_root t p a in SFBTree.shrink fuel t p None false mid' (Z.of_nat (S k)) st)
       else SFBTree.shrink fuel t p merged' up' mid' (Z.of_nat (S k)) st).
Proof.
  intros Hgo Ha Hlk Hpa Hp Hc Hg Ho Hmid Hloc h1 h fuel st. pose proof (sinner_node N false _ _ _ _ _ _ _ Hp Hc) as Hpn.
  pose proof (covers_lock (string_inner N) false _ _ _ _ _ Hc true) as Hc1.
  cbn [SFBTree.shrink]. rewrite Hgo. unfold SFBTree.parent_of_merged. rewrite bind_Some. stree_simpl.
  rewrite (latch_tnode _ p _ g Hpn Hg), bind_Some. cbn [with_tword]. fold h1. unfold SFBTree.node_fuel.
  rewrite (sindex_right_here N HN false h1 p _ (Control.with_locked g true) sa E1 (a, u) E2 nx _ mid (lookup_insert_eq _ _ _) Hc1 Ho Hloc Hmid), bind_Some.
  unfold h. replace (Z.of_nat (S k)) with (Z.of_nat k + 1) by lia. destruct (p =? troot t); cbn [negb].
  - rewrite bind_Some. by destruct (SFBTree.shrink_inner _ _ _ _ _) as [[[[? ?] ?] ?]|].
  - rewrite (slatched_release h1 a nd nd'), bind_Some by (done || (unfold h1; by rewrite lookup_insert_ne)).
    by destruct (SFBTree.shrink_inner _ _ _ _ _) as [[[[? ?] ?] ?]|].
Qed.

(** the root *)
Section root.
Context t (a : Z) nd nd' (p : Z) n g sa E (Ha : tmem t !! a = Some nd) (Hlk : latched nd nd') (Hpa : p <> a)
  (Hp : tmem t !! p = Some (TInner n)) (Hc : covers n g sa E None) (Hub : ub E = None).

Lemma sroot_knum : sknum n = Z.of_nat (length E) - 1.
Proof. pose proof (cv_knum _ _ _ _ _ _ _ Hc) as Hk. rewrite (cv_sib _ _ _ _ _ _ _ Hc), Hub in Hk. exact Hk. Qed.

Lemma sshrink_root_more :
  (2 <= length E)%nat -> SFBTree.shrink_root t p a = Some (SFBTree.with_mem t (<[a := nd']> (tmem t))).
Proof.
  intros H2. unfold SFBTree.shrink_root, SFBTree.inner. rewrite Hp, bind_Some.
  rewrite (sroot_remove_spec n g sa) by apply Hc. pose proof sroot_knum as Hk. rewrite (proj2 (Z.eqb_neq _ _)), !bind_Some by lia.
  stree_simpl. rewrite (insert_id (tmem t)) by done. by rewrite (slatched_release _ a nd nd').
Qed.

Lemma sshrink_root_only w :
  E = [(a, w)] -> Control.f_locked g = true ->
  exists t1 n2 n2', SFBTree.shrink_root t p a = Some t1 /\ latched (TInner n2 : tnode V) n2'
    /\ sspine t1 = mkSpine (<[a := nd']> (<[p := TInner n2]> (tmem t))) a (tdepth t - 1) (ttrack t)
    /\ tretired t1 = tretired t ++ [RNode (Some p)] /\ tguarded t1 = tguarded t.
Proof.
  intros HE Hg. pose proof sroot_knum as Hk. rewrite HE in Hk.
  change (sknum n = 0) in Hk.
  pose proof (covers_route _ _ _ _ _ _ _ Hc 0%nat (a, w)) as Hroute. rewrite HE in Hroute. specialize (Hroute eq_refl).
  cbn [ik_route string_inner] in Hroute. unfold sroute in Hroute. rewrite Hk in Hroute. injection Hroute as Hn.
  unfold SFBTree.shrink_root, SFBTree.inner. rewrite Hp, bind_Some. pose proof (cv_wf _ _ _ _ _ _ _ Hc) as Hwf.
  rewrite (sroot_remove_spec n g sa Hwf (cv_del _ _ _ _ _ _ _ Hc)), Hk, Z.eqb_refl, bind_Some, Hn.
  cbn [fst]. rewrite Z.eqb_refl. cbn [asserting]. rewrite bind_Some. stree_simpl. set (n2 := SInner.set_control n _).
  rewrite (slatched_release _ a nd nd') by (done || by rewrite lookup_insert_ne).
  cbn [fmap option_fmap option_map]. eexists _, n2, _. split; [done|]. split; [|done].
  exists (Control.with_deleted g true). split; [exact (sw_valid _ _ _ Hwf)|done].
Qed.
End root.

Lemma sshrink_inner_node h p merged mid index :
  shrink_node (string_inner N) TInner sproj h p merged mid index = SFBTree.shrink_inner h p merged mid index.
Proof.
  unfold shrink_node, SFBTree.shrink_inner.
  change (inner_node (string_inner N) (sproj (V := V)) h) with (SFBTree.inner h).
  cbn [ik_remove ik_update string_inner]. destruct (SFBTree.inner h p) as [n|]; [|done]. rewrite !bind_Some.
  destruct merged; [|done]. by destruct (SInner.remove _ _ _ _ _).
Qed.

#[export] Instance scontraction : Contraction (string_inner N) TInner sproj tword with_tword smachine.
Proof.
  split; try done.
  - intros fuel t a mid k st. by destruct fuel.
  - intros t k a nd nd' p n g sa E1 u E2 nx merged up mid key Hgo Ha Hlk Hpa Hp Hc Hg Ho [Hmid <-] Hloc h1 h fuel st.
    rewrite sshrink_inner_node. by apply (sshrink_turn t k a nd nd' p n g sa E1 u E2 nx).
  - intros t a nd nd' p n g sa E Ha Hlk Hpa Hp Hc Hub H2. by apply (sshrink_root_more t a nd nd' p n g sa E).
  - intros t a nd nd' p n g sa w Ha Hlk Hpa Hp Hc Hw Hg.
    apply (sshrink_root_only t a nd nd' p n g sa [(a, w)] Ha Hlk Hpa Hp Hc) with (w := w); done.
Qed.
End shrink.

(** ** The level of the leaves *)

Section leaves.
Context {V : Type} (N : nat) (HN : (N <= 224)%nat).
Abbreviation num := (num N).
Abbreviation kv_num := (kv_num N).
Implicit Types (n rn : sleaf V) (f g : Control.fields) (m : gmap Z (kvpair (skvpair V))) (kv : skvpair V) (key : String).

(** a pair less, and the pairs of another leaf *)
Lemma shas_joined n f n' f' key (more : gmap (list Z) (skvpair V)) x :
  sleaf_wf N n f -> sleaf_wf N n' f' -> pairs n' = delete (str key) (pairs n) ∪ more ->
  (forall y, shas n y -> more !! str (skv_key y) = None) ->
  shas n' x <-> (shas n x /\ str (skv_key x) <> str key) \/ more !! str (skv_key x) = Some x.
Proof.
  intros Hwf Hwf' Hp Hdis. pose proof (pairs_lookup N n' f' Hwf' (str (skv_key x)) x) as H1.
  rewrite Hp, lookup_union_Some_raw, lookup_delete_Some, (pairs_lookup N n f Hwf) in H1.
  assert (more !! str (skv_key x) = Some x -> delete (str key) (pairs n) !! str (skv_key x) = None) as H2.
  { intros Hx. apply lookup_delete_None. right. apply eq_None_not_Some. intros [y [Ey Hy]%(pairs_lookup N n f Hwf)].
    specialize (Hdis y Hy). rewrite Ey in Hdis. congruence. }
  naive_solver.
Qed.

Lemma str_num_ne a b : skey_ok N a -> skey_ok N b -> str a <> str b <-> num a <> num b.
Proof. intros Ha Hb. split; [by apply (num_ne N)|]. intros Hn E. apply Hn. unfold SLeafSim.num. by rewrite E. Qed.

(** the same, of the pairs with their numbers *)
Lemma has_joined n f n' f' key (more : gmap (list Z) (skvpair V)) (Q : kvpair (skvpair V) -> Prop) :
  sleaf_wf N n f -> sleaf_wf N n' f' -> skey_ok N key -> pairs n' = delete (str key) (pairs n) ∪ more ->
  (forall y, shas n y -> more !! str (skv_key y) = None) ->
  (forall y, Q y <-> exists x, y = kv_num x /\ more !! str (skv_key x) = Some x) ->
  forall y, has (leaf_num N n') y <-> (has (leaf_num N n) y /\ kv_key y <> num key) \/ Q y.
Proof.
  intros Hwf Hwf' Hk Hp Hdis HQ y. rewrite !has_num, HQ.
  setoid_rewrite (fun x => shas_joined n f n' f' key more x Hwf Hwf' Hp Hdis).
  assert (forall x, shas n x -> (str (skv_key x) <> str key <-> kv_key (kv_num x) <> num key)) as Hne.
  { intros x Hx. apply str_num_ne; [by apply (sw_keys N n f Hwf)|done]. }
  split.
  - intros (x & -> & [[Hx Hs]|Hx]); [left|right; by exists x]. split; [by exists x|]. by apply Hne.
  - intros [[(x & -> & Hx) Hs]|(x & -> & Hx)]; exists x; (split; [done|]); [left|by right]. split; [done|]. by apply Hne.
Qed.

Lemma sleaf_part_delete n f m C1 e nx n' f' g key :
  sleaf_part N n f m C1 e nx -> located C1 e (num key) -> skey_ok N key ->
  sleaf_wf N n' f' -> removed_flags f g false f' -> pairs n' = delete (str key) (pairs n) ->
  lhigh n' = lhigh n -> lsibling n' = lsibling n -> (is_Some e.2 -> exists x, shas n' x) ->
  sleaf_part N n' f' (delete (num key) m) C1 e nx.
Proof.
  intros [Hl Hwf Hi] Hloc Hk Hwf' (Ed & _ & Esp & Es) Hp Hh Hs Hne. split; [|done|congruence].
  apply (leaf_holds_delete (string_code N) (leaf_num N n) _ f f' m C1 e nx (num key)); try done.
  - apply Hwf'.
  - cbn. by rewrite Hh.
  - intros y. rewrite (has_joined n f n' f' key ∅ (fun _ => False)); try done; [naive_solver|by rewrite (right_id_L ∅ (∪))|].
    intros z. split; [done|]. by intros (x & _ & E).
  - intros He. destruct (Hne He) as [x Hx]. exists (kv_num x). by apply has_kv.
Qed.

(** the high key of a leaf that has a bound *)
Lemma sleaf_high n f m C1 a u nx :
  sleaf_part N n f m C1 (a, Some u) nx -> exists c, lhigh n = Some c /\ num (an_str c) = u /\ skey_ok N (an_str c).
Proof.
  intros [Hl Hwf _]. assert (Control.f_sibling f = true) as Hs by (by rewrite (lh_sib _ _ _ _ _ _ _ Hl)).
  destruct (sw_sib N n f Hwf Hs) as [c Hc]. exists c. split; [done|]. split; [|by apply (sw_high N n f Hwf)].
  destruct (lh_high _ _ _ _ _ _ _ Hl u eq_refl) as [<- _]. cbn. by rewrite Hc.
Qed.

(** the leaf to the right *)
Section sibling.
Context n f rn g m C1 (a u b : Z) (w : option Z) nx (Hp : sleaf_part N n f m C1 (a, Some u) (Some b))
  (Hpr : sleaf_part N rn g m (C1 ++ [(a, Some u)]) (b, w) nx).

Lemma sibling_above x y : shas n x -> shas rn y -> num (skv_key x) <= u < num (skv_key y).
Proof.
  intros Hx Hy. apply (has_kv N) in Hx, Hy.
  apply (lh_has _ _ _ _ _ _ _ (lp_holds _ _ _ _ _ _ _ Hp)) in Hx as [_ [_ Hx]].
  apply (lh_has _ _ _ _ _ _ _ (lp_holds _ _ _ _ _ _ _ Hpr)) in Hy as [_ [Hy _]].
  rewrite Forall_app, Forall_singleton in Hy. destruct Hy as [_ Hy]. unfold below in *. cbn in *. lia.
Qed.

Lemma sleaf_part_sibling mem :
  mem b = Some rn -> Control.f_locked g = false -> (forall v, w = Some v -> u < v) -> ssibling_ok N mem n b rn g.
Proof.
  intros Hb Hlk Huw. pose proof Hp as [Hl Hwf _]. pose proof Hpr as [Hlr Hwfr _].
  destruct (lh_high _ _ _ _ _ _ _ Hl u eq_refl) as (_ & Esib & _).
  destruct (sleaf_high n f m C1 a u (Some b) Hp) as (c0 & Ec & Eu & Hok). split; [done|done|done|done|apply Hlr| |].
  - intros y c Hy Hc. assert (c0 = c) as -> by congruence. apply (num_lt N); [done|by apply (sw_keys N rn g Hwfr)|].
    rewrite Eu. apply (has_kv N) in Hy. apply (lh_has _ _ _ _ _ _ _ Hlr) in Hy as [_ [Hy _]].
    rewrite Forall_app, Forall_singleton in Hy. apply Hy.
  - intros c d Hg Hc Hd. assert (c0 = c) as -> by congruence. apply (rank_le N); [apply Hok|apply (sw_high N rn g Hwfr d Hd)|].
    change (num (an_str c) <= num (an_str d)). rewrite Eu. pose proof (lh_sib _ _ _ _ _ _ _ Hlr) as Hw. rewrite Hg in Hw.
    symmetry in Hw. apply bool_decide_eq_true in Hw as [v Hv]. cbn in Hv. specialize (Huw v Hv).
    destruct (lh_high _ _ _ _ _ _ _ Hlr v Hv) as [Ev _]. cbn in Ev. rewrite Hd in Ev. cbn in Ev. lia.
Qed.

(** the two leaves in one, but for one pair *)
Lemma sleaf_part_join n' f' key :
  located C1 (a, Some u) (num key) -> skey_ok N key -> (forall v, w = Some v -> u < v) ->
  sleaf_wf N n' f' -> removed_flags f g true f' -> pairs n' = delete (str key) (pairs n) ∪ pairs rn ->
  lhigh n' = lhigh rn -> lsibling n' = lsibling rn ->
  sleaf_part N n' f' (delete (num key) m) C1 (a, w) nx.
Proof.
  intros Hloc Hk Huw Hwf' (Ed & _ & Esp & Es) Hps Hh Hs. pose proof Hp as [Hl Hwf Hi]. pose proof Hpr as [Hlr Hwfr _].
  split; [|done|congruence].
  apply (leaf_holds_join (string_code N) (leaf_num N n) _ (leaf_num N rn) f f' g m C1 a u b w nx (num key)); try done.
  - apply Hwf'.
  - rewrite Ed. apply Hl.
  - cbn. by rewrite Hh.
  - apply (has_joined n f n' f' key (pairs rn)); try done.
    + intros x Hx. apply eq_None_not_Some. intros [y [Ey Hy]%(pairs_lookup N rn g Hwfr)].
      pose proof (sibling_above x y Hx Hy) as Hxy. unfold SLeafSim.num in Hxy. rewrite Ey in Hxy. lia.
    + intros y. rewrite has_num. split; intros (x & -> & Hx); exists x; (split; [done|]).
      * by apply (pairs_lookup N rn g Hwfr).
      * by apply (pairs_lookup N rn g Hwfr) in Hx as [_ Hx].
Qed.
End sibling.
End leaves.

(** ** [remove] *)

Section remove.
Context {V : Type} `{SAllocatorLaws V} (N : nat) (HN : (N <= 224)%nat).
Abbreviation num := (num N).
Abbreviation kv_num := (kv_num N).
Implicit Types (h : sheap V) (t : stree V) (m : gmap Z (kvpair (skvpair V))) (C : level) (kv : skvpair V) (key : String).

(** to have nodes removed they need not stay half full *)
Lemma srepresents_shrinkable grown t m C ups : srepresents N grown t m C ups -> srepresents N false t m C ups.
Proof.
  intros [Hk Hs Hg]. split; [done| |done]. by apply (standing_weaken (string_inner N) TInner grown).
Qed.

(** the code up to the removal from the leaf, which the caller has latched *)
Lemma sremove_begin t m C ups frs C1 e C2 n f par pv key :
  srepresents N false t m C ups -> sfound N false t m C ups key frs C1 e C2 n f par pv -> tkey N key ->
  let n1 := SLeaf.set_control n (Control.encode (Control.with_locked f true)) in
  let h1 := <[e.1 := TLeaf n1]> (tmem t) in
  SFBTree.remove t key =
    (let* (kv, mg) := SLeaf.remove (SFBTree.leaf h1) e.1 n1 key in
     let h := <[e.1 := TLeaf (SLeaf.m_this mg)]> (tmem t) in
     let h := match SLeaf.m_rnode mg with Some (ra, rn) => <[ra := TLeaf rn]> h | None => h end in
     let* (t', current) :=
       match SLeaf.m_merged mg with
       | Some mid =>
           let t' := SFBTree.retire (SFBTree.with_mem t h) (RKey mid) in
           let* mid := mid in
           SFBTree.shrink (SFBTree.node_fuel h) t' e.1 (fst <$> SLeaf.m_rnode mg) false mid 0 (fr_p <$> frs)
       | None => Some (SFBTree.with_mem t h, e.1)
       end in
     let* h := SFBTree.unlatch_exclusive (tmem t') current in
     Some (kv, SFBTree.with_mem t' h)).
Proof.
  intros Hr Hf Hk n1 h1. pose proof Hf as [_ Hloc _ _ Hh Hp Hlk Hpar Hpath].
  unfold SFBTree.remove. rewrite (sr_guarded _ _ _ _ _ _ Hr). cbn [asserting].
  rewrite Hpath, bind_Some. cbn [SFBTree.at_node].
  rewrite (latch_tnode (tmem t) e.1 (TLeaf n) f), bind_Some; [|by eapply sleaf_node|done].
  cbn [with_tword]. fold n1. fold h1. unfold SFBTree.node_fuel. cbn [SFBTree.latch_right].
  assert (h1 !! e.1 = Some (TLeaf n1)) as Hh1 by apply lookup_insert_eq.
  rewrite (sfound_stays N HN false _ _ _ _ _ _ _ _ _ _ _ _ _ Hk Hf h1 n1 _ Hh1 (sleaf_part_lock N n f m C1 e _ true Hp)), !bind_Some.
  2:{ apply lookup_insert_is_Some'. by right. }
  cbn [SFBTree.at_node].
  assert (SFBTree.leaf h1 e.1 = Some n1) as -> by (unfold SFBTree.leaf; by rewrite Hh1). rewrite bind_Some.
  destruct (SLeaf.remove _ _ _ _) as [[kv mg]|]; [|done]. rewrite !bind_Some.
  assert (<[e.1 := TLeaf (SLeaf.m_this mg)]> h1 = <[e.1 := TLeaf (SLeaf.m_this mg)]> (tmem t)) as ->
    by (unfold h1; by rewrite insert_insert_eq).
  done.
Qed.

(** no leaf is merged: the levels above stay *)
Lemma sremove_in_place t m C ups frs C1 e C2 n f par pv f' key n' old :
  srepresents N false t m C ups -> sfound N false t m C ups key frs C1 e C2 n f par pv -> tkey N key ->
  let n1 := SLeaf.set_control n (Control.encode (Control.with_locked f true)) in
  let h1 := <[e.1 := TLeaf n1]> (tmem t) in
  SLeaf.remove (SFBTree.leaf h1) e.1 n1 key = Some (old, SLeaf.mkMerge n' None None) ->
  sleaf_part N n' f' (delete (num key) m) C1 e (first C2) -> Control.f_locked f' = true ->
  exists t', SFBTree.remove t key = Some (old, t') /\ srepresents N false t' (delete (num key) m) C ups
    /\ tretired t' = tretired t.
Proof.
  intros Hr Hf Hk n1 h1 Hu Hn' Hlk'. rewrite (sremove_begin t m C ups frs C1 e C2 n f par pv key Hr Hf Hk). fold n1. fold h1.
  rewrite Hu, bind_Some. cbn [SLeaf.m_rnode SLeaf.m_this SLeaf.m_merged]. rewrite bind_Some. stree_simpl.
  rewrite (unlatch_tnode _ e.1 (TLeaf n') f'), bind_Some; [|by eapply sleaf_node; [apply lookup_insert_eq|]|done].
  rewrite insert_insert_eq. cbn [with_tword]. eexists. split; [done|]. split; [|done].
  change (SFBTree.with_mem (SFBTree.with_mem t ?a) ?b) with (SFBTree.with_mem t b).
  eapply sfound_replace; [done|done| | |by apply sleaf_part_lock|done].
  - intros z x [_ Hx]%lookup_delete_Some. by apply (sr_keyed _ _ _ _ _ _ Hr).
  - intros k Hne. by apply lookup_delete_ne.
Qed.

(** what left the tree is what was retired: nodes, and bounds that were the high keys of
    leaves *)
Definition sgone t t' C C' ups ups' (ks : list (option anchor)) (l : list ptr) : Prop :=
  C.*1 ++ addrs ups ≡ₚ (C'.*1 ++ addrs ups') ++ omap id l
  /\ C.*2 ≡ₚ C'.*2 ++ ((fun k : option anchor => (fun a => num (an_str a)) <$> k) <$> ks)
  /\ tretired t' = tretired t ++ (RKey <$> ks) ++ (RNode <$> l).

(** the leaf [b] is merged into the one to its left *)
Lemma sremove_up t m C1 (a u b : Z) w C2 frs n f par pv f' key n' rn' old mid :
  let C := C1 ++ (a, Some u) :: (b, w) :: C2 in
  let L := levels (a, Some u) frs in
  srepresents N false t m C L -> sfound N false t m C L key frs C1 (a, Some u) ((b, w) :: C2) n f par pv -> tkey N key ->
  Forall no_lone_pair L ->
  let n1 := SLeaf.set_control n (Control.encode (Control.with_locked f true)) in
  let h1 := <[a := TLeaf n1]> (tmem t) in
  SLeaf.remove (SFBTree.leaf h1) a n1 key = Some (old, SLeaf.mkMerge n' (Some (b, rn')) (Some (Some mid))) ->
  tkey N (an_str mid) /\ num (an_str mid) = u ->
  sleaf_part N n' f' (delete (num key) m) C1 (a, w) (first C2) -> Control.f_locked f' = true ->
  exists t' ups' l, SFBTree.remove t key = Some (old, t')
    /\ srepresents N false t' (delete (num key) m) (C1 ++ (a, w) :: C2) ups'
    /\ sgone t t' C (C1 ++ (a, w) :: C2) L ups' [Some mid] l /\ (length ups' <= length L)%nat.
Proof.
  intros C L Hr Hf Hk Hlone n1 h1 Hrem Hmid Hn' Hlk'. rewrite (sremove_begin t m C L frs C1 (a, Some u) _ n f par pv key Hr Hf Hk).
  cbn [fst]. fold n1. fold h1. rewrite Hrem, bind_Some. cbn [SLeaf.m_rnode SLeaf.m_this SLeaf.m_merged fst fmap option_fmap option_map].
  set (h2 := <[b := TLeaf rn']> (<[a := TLeaf n']> (tmem t))). rewrite bind_Some.
  set (t1 := SFBTree.retire (SFBTree.with_mem t h2) (RKey (Some mid))).
  pose proof (sf_split _ _ _ _ _ _ _ _ _ _ _ _ _ _ _ Hf) as _. destruct Hr as [Hkey Hs Hg].
  set (n2 := TLeaf (SLeaf.set_control n' (Control.encode (Control.with_locked f' false)))).
  destruct (merge_goes_up (string_inner N) TInner sproj tword with_tword (smachine N) (HP := scontraction N HN) (sleaf_at N) (sspine t) m
    (delete (num key) m) C1 C2 a u b w L Hs (TLeaf n') n2 (TLeaf rn') t1 eq_refl)
    with (frs := frs) (mid := mid) (fuel := SFBTree.node_fuel h2)
    as (t' & cur & h' & ups' & l & Hrun & Hul & Hst & Hperm & Hlog & Hlive & Hlen); try done.
  - intros k Hk'. apply (delete_elsewhere m C1 (a, Some u)); [apply Hf|done].
  - intros h Hh. eexists _, (Control.with_locked f' false). split; [done|]. split; [by apply sleaf_part_lock|done].
  - apply Hf.
  - exists f'. destruct (sleaf_node N _ a n' f' (delete (num key) m) C1 (a, w) (first C2) (lookup_insert_eq (tmem t) a _) Hn') as (_ & ? & ?).
    by split_and!.
  - unfold SFBTree.node_fuel, h2. cbn [sp_mem sspine]. lia.
  - cbn [mc_shrink smachine] in Hrun. change (Z.of_nat 0) with 0 in Hrun. rewrite Hrun, bind_Some.
    change (SFBTree.unlatch_exclusive (tmem t') cur = Some h') in Hul. rewrite Hul, bind_Some.
    exists (SFBTree.with_mem t' h'), ups', (Some b :: l). split; [done|]. split; [|split; [|done]].
    + split; [|done|exact (eq_trans Hlive Hg)]. intros z x [_ Hx]%lookup_delete_Some. by apply Hkey.
    + split; [done|]. split.
      * unfold C. rewrite !fmap_app. cbn. destruct Hmid as [_ ->]. rewrite <- app_assoc. apply Permutation_app_head.
        cbn. rewrite (Permutation_app_comm C2.*2). cbn. apply perm_swap.
      * cbn [mc_log smachine] in Hlog. stree_simpl. rewrite Hlog. unfold t1. stree_simpl. by rewrite <- app_assoc.
Qed.

(** a leaf that keeps its sibling keeps a pair *)
Lemma sleaf_left n f m C1 e nx key :
  sleaf_part N n f m C1 e nx -> is_Some e.2 -> skey_ok N key ->
  (is_Some (pairs n !! str key) -> popcount 64 (lbitmap n) <> 1) -> exists x, shas n x /\ str (skv_key x) <> str key.
Proof.
  intros [Hl Hwf _] He Hk Hp. destruct (pairs n !! str key) as [kv|] eqn:Ek.
  - apply (pairs_lookup N n f Hwf) in Ek as [Es Hkv].
    destruct (has_another (string_code N) (leaf_num N n) (kv_num kv)) as (y & Hy & Hne);
      [apply Hl|by apply has_kv|by apply Hp|]. apply has_num in Hy as (x & -> & Hx). exists x. split; [done|].
    rewrite <- Es. apply (str_num_ne N); [by apply (sw_keys N n f Hwf)|by apply (sw_keys N n f Hwf)|done].
  - destruct (lh_filled _ _ _ _ _ _ _ Hl He) as [y (x & -> & Hx)%has_num]. exists x. split; [done|]. intros E.
    pose proof (proj1 (pairs_None N n f Hwf (str key)) Ek x Hx). done.
Qed.

Lemma stree_remove_spec grown t m C ups key :
  srepresents N grown t m C ups -> tkey N key -> Forall no_lone_pair ups ->
  exists o t' C' ups' ks l, SFBTree.remove t key = Some (o, t') /\ m !! num key = kv_num <$> o
    /\ srepresents N false t' (delete (num key) m) C' ups' /\ sgone t t' C C' ups ups' ks l /\ (length ups' <= length ups)%nat.
Proof.
  intros Hr0 Hk Hlone. pose proof (srepresents_shrinkable grown t m C ups Hr0) as Hr. pose proof (tkey_skey N _ Hk) as Hsk.
  destruct (sfind_leaf N HN false t m C ups _ Hr Hk) as (frs & C1 & e & C2 & n & f & par & pv & Hf).
  pose proof (sfound_pairs N false _ _ _ _ _ _ _ _ _ _ _ _ _ Hk Hr Hf) as Hm.
  pose proof (sf_part _ _ _ _ _ _ _ _ _ _ _ _ _ _ _ Hf) as Hp. pose proof (sf_located _ _ _ _ _ _ _ _ _ _ _ _ _ _ _ Hf) as Hloc.
  set (f1 := Control.with_locked f true). set (n1 := SLeaf.set_control n (Control.encode f1)).
  set (h1 := <[e.1 := TLeaf n1]> (tmem t)).
  pose proof (sleaf_part_lock N n f m C1 e _ true Hp) as Hp1. fold f1 in Hp1. fold n1 in Hp1.
  pose proof (lp_wf _ _ _ _ _ _ _ Hp1) as Hwf1. assert (pairs n = pairs n1) as Epairs by done. rewrite Epairs in Hm.
  pose proof (sf_split _ _ _ _ _ _ _ _ _ _ _ _ _ _ _ Hf) as EC. pose proof (sf_levels _ _ _ _ _ _ _ _ _ _ _ _ _ _ _ Hf) as EL.
  assert (forall n' f' g, SLeaf.remove (SFBTree.leaf h1) e.1 n1 key = Some (pairs n1 !! str key, SLeaf.mkMerge n' None None) ->
    sleaf_wf N n' f' -> removed_flags f1 g false f' -> pairs n' = delete (str key) (pairs n1) ->
    lhigh n' = lhigh n1 -> lsibling n' = lsibling n1 ->
    (is_Some e.2 -> is_Some (pairs n1 !! str key) -> popcount 64 (lbitmap n1) <> 1) ->
    exists o t' C' ups' ks l, SFBTree.remove t key = Some (o, t') /\ m !! num key = kv_num <$> o
      /\ srepresents N false t' (delete (num key) m) C' ups' /\ sgone t t' C C' ups ups' ks l
      /\ (length ups' <= length ups)%nat) as Hstay.
  { intros n' f' g Hrem Hwf' Hfl Hps Hh Hs Hpc.
    destruct (sremove_in_place t m C ups frs C1 e C2 n f par pv f' key n' _ Hr Hf Hk Hrem) as (t' & Hrun & Hr' & Hret).
    - apply (sleaf_part_delete N n1 f1 m C1 e _ n' f' g key); try done.
      intros He. destruct (sleaf_left n1 f1 m C1 e _ key Hp1 He Hsk (Hpc He)) as (x & Hx & Hne). exists x.
      apply (shas_joined N n1 f1 n' f' key ∅); [done|done|by rewrite (right_id_L ∅ (∪))|done|by left].
    - by apply Hfl.
    - exists (pairs n1 !! str key), t', C, ups, [], []. do 3 (split; [done|]). split; [|done].
      unfold sgone. rewrite Hret. cbn. by rewrite !app_nil_r. }
  destruct e as [a [u|]]; cbn [fst snd] in *.
  - (* a leaf to the right *)
    destruct (lh_high _ _ _ _ _ _ _ (lp_holds _ _ _ _ _ _ _ Hp1) u eq_refl) as (_ & _ & [b' Hb']).
    destruct C2 as [|[b w] C2]; [done|]. cbn [first head fmap option_fmap option_map fst] in Hp1.
    pose proof (sr_standing _ _ _ _ _ _ Hr) as Hst. rewrite EC in Hst. pose proof (st_ordered _ _ _ _ _ _ _ Hst) as Ho.
    destruct (st_leaves _ _ _ _ _ _ _ Hst (C1 ++ [(a, Some u)]) (b, w) C2) as (rn & g & Hb & Hpr & Hlk); [by rewrite <- app_assoc|].
    assert (b <> a) as Hba.
    { destruct (standing_beside _ _ _ _ _ _ _ _ _ Hst) as [_ Hne]. apply (Hne b). cbn. set_solver. }
    assert (forall v, w = Some v -> u < v) as Huw.
    { intros v ->. apply ordered_app in Ho as (_ & Ho & _). apply ordered_cons in Ho as (_ & _ & Hlt). apply (Hlt (b, Some v)). by left. }
    assert (ssibling_ok N (SFBTree.leaf h1) n1 b rn g) as Hok.
    { eapply sleaf_part_sibling; [exact HN|exact Hp1|exact Hpr| |done|done]. unfold SFBTree.leaf, h1.
      rewrite lookup_insert_ne by done. cbn in Hb. by rewrite Hb. }
    assert (Control.f_sibling f1 = true) as Hs1 by (by rewrite (lh_sib _ _ _ _ _ _ _ (lp_holds _ _ _ _ _ _ _ Hp1))).
    destruct (remove_pairs N (N_small N HN) (SFBTree.leaf h1) a n1 f1 key b rn g Hwf1 Hsk (fun _ => Hok))
      as (n' & mr & merged & Hrem & (f' & Hwf' & Hfl) & Hres). rewrite Hs1, andb_true_r in Hres.
    destruct (bool_decide _ && _) eqn:Hcase.
    + destruct Hres as (Hps & Hh & Hs & -> & rn' & -> & _).
      destruct (sleaf_high N n1 f1 m C1 a u (Some b) Hp1) as (c & Ec & Eu & Hcok). rewrite Ec in Hrem. subst C ups.
      assert (tkey N (an_str c)) as Hck.
      { apply (key_unique N); [done|]. rewrite Eu. apply ordered_app in Ho as (_ & Ho & _). apply ordered_cons in Ho as (Ho & _). by apply Ho. }
      destruct (sremove_up t m C1 a u b w C2 frs n f par pv f' key n' rn' _ c Hr Hf Hk Hlone Hrem (conj Hck Eu))
        as (t' & ups' & l & Hrun & Hrest).
      * eapply (sleaf_part_join N HN n1 f1 rn g); try done.
      * by apply Hfl.
      * by exists (pairs n1 !! str key), t', (C1 ++ (a, w) :: C2), ups', [Some c], l.
    + destruct Hres as (Hps & Hh & Hs & -> & ->). apply (Hstay n' f' g); try done.
      intros _ Hpres. rewrite bool_decide_true in Hcase by done. apply orb_false_iff in Hcase as [_ Hcase]. blia.
  - destruct (remove_pairs N (N_small N HN) (SFBTree.leaf h1) a n1 f1 key 0 n1 f1 Hwf1 Hsk)
      as (n' & mr & merged & Hrem & (f' & Hwf' & Hfl) & Hres).
    { intros Hs. by rewrite (lh_sib _ _ _ _ _ _ _ (lp_holds _ _ _ _ _ _ _ Hp1)) in Hs. }
    assert (Control.f_sibling f1 = false) as Hs1 by (by rewrite (lh_sib _ _ _ _ _ _ _ (lp_holds _ _ _ _ _ _ _ Hp1))).
    rewrite Hs1, andb_false_r in Hres. cbn [andb] in Hres. destruct Hres as (Hps & Hh & Hs & -> & ->).
    apply (Hstay n' f' f1); try done.
Qed.
End remove.
