(* ===== verification/SFBTreeProps.v ===== *)
(** * The tree of string keys is a map

    The properties of [SFBTree]: [lookup], [update] and [upsert], and any sequence of
    them from the empty tree, do what they do to a finite map from strings to pairs; the
    height stays below the bound the code has for it. [remove] takes a key out of the map,
    and what it takes out of the levels goes to the reclaimer. A scan meets the pairs of
    the map in the order of their keys. *)

From S2P Require Import Prelude Bits Simd Strings Encode Control Rank Leaf LeafSpec Inner InnerSpec SInner SInnerSpec SInnerProps SLeaf SLeafSim SLeafSpec SLeafProps Levels Growth Words LeafPart Scan Cover Shrink SInnerKind SFBTree SFBTreeSpec SFBTreeOps SFBTreeScan SFBTreeRemove.

(** ** The map of strings *)

Section numbers.
Context {V : Type} (N : nat) (HN : (N <= 224)%nat).
Abbreviation num := (num N).
Abbreviation kv_num := (kv_num N).
Implicit Types (M : gmap (list Z) (skvpair V)) (m : gmap Z (kvpair (skvpair V))) (kv : skvpair V) (key : String).

(** [m] is the map [M], with the strings read as numbers *)
Record numbers M m : Prop := {
  nu_key s kv : M !! s = Some kv -> str (skv_key kv) = s /\ tkey N (skv_key kv);
  nu_pair z x : m !! z = Some x <-> exists kv, x = kv_num kv /\ z = num (skv_key kv) /\ M !! str (skv_key kv) = Some kv;
}.

Lemma numbers_empty : numbers ∅ ∅.
Proof.
  split; [done|]. intros z x. rewrite lookup_empty. split; [done|]. intros (kv & _ & _ & E). by rewrite lookup_empty in E.
Qed.

Lemma numbers_lookup M m key : numbers M m -> tkey N key -> m !! num key = kv_num <$> M !! str key.
Proof.
  intros [Hk Hp] Ht. apply option_eq. intros x. rewrite Hp, fmap_Some. split.
  - intros (kv & -> & E & HM). destruct (Hk _ _ HM) as [_ Hkv]. exists kv. split; [|done].
    by rewrite (num_string N key (skv_key kv) (tkey_skey N _ Ht) (tkey_skey N _ Hkv) E).
  - intros (kv & HM & ->). destruct (Hk _ _ HM) as [E _]. exists kv. split; [done|]. rewrite E. split; [|done].
    unfold SLeafSim.num. by rewrite E.
Qed.

(** a program that returns what [m] has returns what [M] has *)
Lemma numbers_result M m key o : numbers M m -> tkey N key -> m !! num key = kv_num <$> o -> o = M !! str key.
Proof. intros HM Hk E. rewrite (numbers_lookup M m key HM Hk) in E. symmetry. by apply (opt_num_inj N). Qed.

Lemma numbers_insert M m kv :
  numbers M m -> tkey N (skv_key kv) -> numbers (<[str (skv_key kv) := kv]> M) (<[num (skv_key kv) := kv_num kv]> m).
Proof.
  intros [Hk Hp] Ht.
  assert (forall x, M !! str (skv_key x) = Some x -> str (skv_key kv) <> str (skv_key x) <-> num (skv_key kv) <> num (skv_key x)) as Hne.
  { intros x [_ Hx]%Hk. split; [by apply (num_ne N); apply tkey_skey|]. intros Hn E. apply Hn. unfold SLeafSim.num. by rewrite E. }
  split.
  - intros s x [[<- <-]|[_ H]]%lookup_insert_Some; [done|by apply Hk].
  - intros z x. rewrite lookup_insert_Some. split.
    + intros [[<- <-]|[Hz (y & -> & -> & Hy)%Hp]]; [exists kv; by rewrite lookup_insert_eq|].
      exists y. rewrite lookup_insert_ne by by apply Hne. done.
    + intros (y & -> & -> & [[E <-]|[Hs Hy]]%lookup_insert_Some); [by left|]. right. split; [by apply Hne|]. apply Hp. by exists y.
Qed.

Lemma numbers_delete M m key : numbers M m -> tkey N key -> numbers (delete (str key) M) (delete (num key) m).
Proof.
  intros [Hk Hp] Ht.
  assert (forall x, M !! str (skv_key x) = Some x -> str key <> str (skv_key x) <-> num key <> num (skv_key x)) as Hne.
  { intros x [_ Hx]%Hk. split; [by apply (num_ne N); apply tkey_skey|]. intros Hn E. apply Hn. unfold SLeafSim.num. by rewrite E. }
  split; [by intros s x [_ H]%lookup_delete_Some; apply Hk|].
  intros z x. rewrite lookup_delete_Some. split.
  - intros [Hz (y & -> & -> & Hy)%Hp]. exists y. rewrite lookup_delete_ne by by apply Hne. done.
  - intros (y & -> & -> & [Hs Hy]%lookup_delete_Some). split; [by apply Hne|]. apply Hp. by exists y.
Qed.

Lemma numbers_keyed M m : numbers M m -> keyed m.
Proof. intros [_ Hp] z x (kv & -> & -> & _)%Hp. done. Qed.

(** no two strings have one number *)
Lemma numbers_size M m : numbers M m -> (size m <= size M)%nat.
Proof.
  intros [Hk Hp]. rewrite <- !length_map_to_list, <- (length_fmap fst (map_to_list m)).
  rewrite <- (length_fmap (fun p => rank N p.1) (map_to_list M)). apply submseteq_length, NoDup_submseteq; [apply NoDup_fst_map_to_list|].
  intros z ([z' x] & -> & (kv & -> & -> & E)%elem_of_map_to_list%Hp)%list_elem_of_fmap. cbn [fst].
  apply list_elem_of_fmap. exists (str (skv_key kv), kv). split; [done|]. by apply elem_of_map_to_list.
Qed.

(** the pairs by increasing number are the pairs in the order of their strings *)
Lemma numbers_sorted M m (P : Z -> Prop) `{!forall z, Decision (P z)} (Q : String -> Prop) l :
  numbers M m -> (forall j k, P j -> j < k -> P k) -> (forall key, tkey N key -> P (num key) <-> Q key) ->
  kv_num <$> l = filter (fun x => P (kv_key x)) (Scan.sorted_pairs m) ->
  StronglySorted (fun x y => lex_lt (str (skv_key x)) (str (skv_key y))) l
  /\ (forall kv, kv ∈ l <-> M !! str (skv_key kv) = Some kv /\ Q (skv_key kv)).
Proof.
  intros HM HP HQ El. pose proof HM as [Hk Hp]. pose proof (numbers_keyed M m HM) as Hm.
  assert (forall kv, kv ∈ l <-> M !! str (skv_key kv) = Some kv /\ Q (skv_key kv)) as Hin.
  { intros kv. transitivity (kv_num kv ∈ kv_num <$> l).
    { rewrite list_elem_of_fmap. split; [by exists kv|]. by intros (x & ->%kv_num_inj & ?). }
    rewrite El, list_elem_of_filter, elem_sorted_pairs by done. cbn [kv_key SLeafSim.kv_num]. split.
    - intros [HPk (y & ->%kv_num_inj & _ & Hy)%Hp]. split; [done|]. apply HQ; [by eapply Hk|done].
    - intros [Hy HQk]. split; [apply HQ; [by eapply Hk|done]|]. apply Hp. by exists kv. }
  split; [|done]. assert (StronglySorted (fun x y => kv_key x < kv_key y) (kv_num <$> l)) as Hs.
  { pose proof (sorted_pairs_increasing m Hm) as Hs.
    destruct (filter_suffix (fun x => P (kv_key x)) _ Hs (fun x y => HP _ _)) as (l1 & E & _).
    rewrite E in Hs. rewrite El. by apply StronglySorted_app_1_r in Hs. }
  assert (forall kv, kv ∈ l -> skey_ok N (skv_key kv)) as Hok by (intros kv [E _]%Hin; apply tkey_skey; by eapply Hk).
  clear El Hin. induction l as [|x l IH]; [constructor|]. rewrite fmap_cons in Hs. apply StronglySorted_inv in Hs as [Hs Hall]. constructor.
  - apply IH; [done|]. intros kv Hkv. apply Hok. by right.
  - rewrite Forall_fmap in Hall. rewrite Forall_forall in Hall |- *. intros y Hy.
    apply (rank_lt N); [apply Hok; by left|apply Hok; by right|]. exact (Hall y Hy).
Qed.
End numbers.

(** ** What a tree stands for *)

Section tree.
Context {V : Type} `{SAllocatorLaws V} (N : nat) (HN : (N <= 224)%nat).
Implicit Types (h : sheap V) (t : stree V) (M : gmap (list Z) (skvpair V)) (kv : skvpair V) (key : String).

Definition simplements (grown : bool) t M : Prop := exists m C ups, srepresents N grown t m C ups /\ numbers N M m.

Lemma screate_implements grown h : simplements grown (SFBTree.enter (SFBTree.create h)) ∅.
Proof.
  destruct (sfound_tags_ok (V := V) (smalloc h)) as [Hl Hb].
  exists ∅, [(smalloc h, None)], []. split; [|apply numbers_empty]. split; [done| |done].
  assert (leaf_wf (string_code N) (leaf_num N (SLeaf.LeafNode (sfound_tags (smalloc h)) : sleaf V)) (new_fields false)) as Hwf
    by by apply (LeafNode_leaf_wf (string_code N)).
  assert (forall x, ~ shas (SLeaf.LeafNode (sfound_tags (smalloc h)) : sleaf V) x) as Hno
    by (intros x (i & Hi & _); cbn in Hi; by rewrite Z.bits_0 in Hi).
  split; cbn [sspine SFBTree.create sp_mem sp_root sp_depth sp_track tmem troot tdepth ttrack]; try done.
  - split; [by repeat constructor|]. by apply Forall_singleton.
  - intros C1 e C2 E. destruct C1 as [|? C1]; [|by destruct C1]. injection E as <- <-.
    exists (SLeaf.LeafNode (sfound_tags (smalloc h))), (new_fields false).
    split; [apply lookup_insert_eq|]. split; [|done]. split; [|by split; [|intros x ?%Hno|..]|done].
    split; try done; [|by intros []]. intros y. rewrite lookup_empty. split; [|by intros [? _]].
    intros (x & _ & ?%Hno)%has_num. done.
  - apply NoDup_singleton.
Qed.

Lemma sdepth_bound t m C ups :
  srepresents N true t m C ups -> Z.of_nat (size (tmem t)) <= 2 ^ 55 -> (length ups <= 11)%nat.
Proof.
  intros Hr. exact (standing_height (sinner_at N true) (sleaf_at N) (is_key N) (inner_at_wide (string_inner N) TInner) (sspine t) m C ups (sr_standing _ _ _ _ _ _ Hr)).
Qed.

Lemma srep_depth grown t m C ups : srepresents N grown t m C ups -> tdepth t = Z.of_nat (S (length ups)).
Proof. intros Hr. exact (st_depth _ _ _ _ _ _ _ (sr_standing _ _ _ _ _ _ Hr)). Qed.

(** no node of a tree that nothing was removed from has only one child *)
Lemma sgrown_no_lone t m C ups : srepresents N true t m C ups -> Forall no_lone_pair ups.
Proof.
  intros [_ Hs _]. exact (chain_no_lone (string_inner N) TInner _ _ _ _ (st_chain _ _ _ _ _ _ _ Hs)).
Qed.
End tree.

(** ** Sequences of operations *)

Inductive sop {V : Type} := SOpLookup (key : String) | SOpUpdate (kv : skvpair V) | SOpUpsert (kv : skvpair V).
Arguments sop V : clear implicits.
Arguments SOpLookup {V}.

Definition sop_key {V} (o : sop V) : String :=
  match o with SOpLookup key => key | SOpUpdate kv | SOpUpsert kv => skv_key kv end.

Section run.
Context {V : Type} `{SAllocatorLaws V} (N : nat) (HN : (N <= 224)%nat).
Implicit Types (t : stree V) (M : gmap (list Z) (skvpair V)).

(** the tree, and the map that is its specification *)
Definition sstep t (o : sop V) : option (option (skvpair V) * stree V) :=
  match o with
  | SOpLookup key => let* r := SFBTree.lookup t key in Some (r, t)
  | SOpUpdate kv => SFBTree.update t kv
  | SOpUpsert kv => SFBTree.upsert t kv
  end.

Definition smap_step M (o : sop V) : option (skvpair V) * gmap (list Z) (skvpair V) :=
  (M !! str (sop_key o),
   match o with
   | SOpLookup _ => M
   | SOpUpdate kv => match M !! str (skv_key kv) with Some _ => <[str (skv_key kv) := kv]> M | None => M end
   | SOpUpsert kv => <[str (skv_key kv) := kv]> M
   end).

Fixpoint srun t (ops : list (sop V)) : option (list (option (skvpair V)) * stree V) :=
  match ops with
  | [] => Some ([], t)
  | o :: ops => let* (r, t) := sstep t o in let* (rs, t) := srun t ops in Some (r :: rs, t)
  end.

Fixpoint smap_run M (ops : list (sop V)) : list (option (skvpair V)) * gmap (list Z) (skvpair V) :=
  match ops with
  | [] => ([], M)
  | o :: ops => let '(r, M) := smap_step M o in let '(rs, M) := smap_run M ops in (r :: rs, M)
  end.

Lemma sstep_spec t M o :
  simplements N true t M -> tkey N (sop_key o) -> Z.of_nat (size (tmem t)) <= 2 ^ 55 ->
  exists t', sstep t o = Some ((smap_step M o).1, t') /\ simplements N true t' (smap_step M o).2
    /\ (size (tmem t') <= size (tmem t) + 13)%nat.
Proof.
  intros (m & C & ups & Hr & Hm) Hk Hs. pose proof (sdepth_bound N t m C ups Hr Hs) as Hd. destruct o as [key|kv|kv]; cbn in *.
  - destruct (stree_lookup_spec N HN true t m C ups key Hr Hk) as (o & -> & E). rewrite bind_Some.
    rewrite (numbers_result N M m key o Hm Hk E). exists t. split; [done|]. split; [by exists m, C, ups|lia].
  - destruct (stree_update_spec N HN true t m C ups kv Hr Hk) as (o & t' & -> & E & Hr' & Hsz & _).
    rewrite (numbers_result N M m _ o Hm Hk E) in Hr' |- *. exists t'. split; [done|]. split; [|lia].
    destruct (M !! str (skv_key kv)); [|by exists m, C, ups]. eexists _, C, ups. split; [done|]. by apply numbers_insert.
  - destruct (stree_upsert_spec N HN true t m C ups kv Hr Hk) as (o & t' & C' & ups' & -> & E & Hr' & _ & _ & Hsz).
    { rewrite (srep_depth N true t m C ups Hr). lia. }
    rewrite (numbers_result N M m _ o Hm Hk E). exists t'. split; [done|]. split; [|lia].
    eexists _, C', ups'. split; [done|]. by apply numbers_insert.
Qed.

Lemma srun_spec (ops : list (sop V)) : forall k t M,
  Forall (fun o => tkey N (sop_key o)) ops -> simplements N true t M ->
  Z.of_nat (size (tmem t)) <= k -> k + 13 * Z.of_nat (length ops) <= 2 ^ 55 ->
  exists t', srun t ops = Some ((smap_run M ops).1, t') /\ simplements N true t' (smap_run M ops).2
    /\ Z.of_nat (size (tmem t')) <= 2 ^ 55.
Proof.
  induction ops as [|o ops IH]; intros k t M Hops Hi Hs Hmem.
  - exists t. split; [done|]. split; [done|lia].
  - apply Forall_cons in Hops as [Ho Hops]. cbn [length] in Hmem.
    destruct (sstep_spec t M o Hi Ho ltac:(lia)) as (t1 & E & Hi1 & Hs1).
    cbn [srun smap_run]. rewrite E, bind_Some. destruct (smap_step M o) as [r M1]. cbn [fst snd] in *.
    destruct (IH (k + 13) t1 M1 Hops Hi1 ltac:(lia) ltac:(lia)) as (t2 & -> & Hi2). rewrite bind_Some.
    destruct (smap_run M1 ops) as [rs M2]. by exists t2.
Qed.

Lemma screate_size (h : sheap V) : Z.of_nat (size (tmem (SFBTree.enter (SFBTree.create h)))) <= Z.of_nat (size h) + 1.
Proof. cbn. rewrite map_size_insert. destruct (_ !! _); cbn; lia. Qed.
End run.

(** ** The properties *)

(** C3: A tree of string keys that starts empty refines the map from strings to pairs: any sequence of lookups, updates and upserts that fits the memory, with keys of at most [N] bytes ([N] at most 224) that are not empty and have no zero byte, runs to its end, returns at every step what the map returns, and leaves a tree that stands for the map, of less than [kMaxHeight] levels. *)
Theorem string_tree_refines_map {V} `{SAllocatorLaws V} (N : nat) (h : sheap V) (ops : list (sop V)) :
  (N <= 224)%nat -> Forall (fun o => tkey N (sop_key o)) ops ->
  Z.of_nat (size h) + 1 + 13 * Z.of_nat (length ops) <= 2 ^ 55 ->
  exists t, srun (SFBTree.enter (SFBTree.create h)) ops = Some ((smap_run ∅ ops).1, t)
    /\ simplements N true t (smap_run ∅ ops).2 /\ 1 <= tdepth t < Z.of_nat SFBTree.kMaxHeight.
Proof.
  intros HN Hops Hmem.
  destruct (srun_spec N HN ops _ _ ∅ Hops (screate_implements N true h) (screate_size N HN h) Hmem) as (t & E & Hi & Hs).
  exists t. split; [done|]. split; [done|]. destruct Hi as (m & C & ups & Hr & _).
  pose proof (sdepth_bound N t m C ups Hr Hs). rewrite (srep_depth N true t m C ups Hr).
  change (Z.of_nat SFBTree.kMaxHeight) with 13. lia.
Qed.

(** C4: [upsert] of a string key of at most [N] bytes ([N] at most 224) that is not empty and has no zero byte, in a tree of such keys of less than [kMaxHeight] levels, returns the old pair and stores the new one, through splits of the leaf, of the inner nodes and of the root, on every level. The levels it leaves are again ordered, linked and covered, with every latch and every mark of a split taken back; no node is retired, and at most one level is added. *)
Theorem string_tree_upsert_correct {V} `{SAllocatorLaws V} (N : nat) (grown : bool) (t : stree V)
    (M : gmap (list Z) (skvpair V)) (kv : skvpair V) :
  (N <= 224)%nat -> simplements N grown t M -> tkey N (skv_key kv) -> tdepth t < Z.of_nat SFBTree.kMaxHeight ->
  exists t', SFBTree.upsert t kv = Some (M !! str (skv_key kv), t')
    /\ simplements N grown t' (<[str (skv_key kv) := kv]> M)
    /\ tdepth t' <= tdepth t + 1 /\ tretired t' = tretired t.
Proof.
  intros HN (m & C & ups & Hr & Hm) Hk Hd.
  destruct (stree_upsert_spec N HN grown t m C ups kv Hr Hk Hd) as (o & t' & C' & ups' & -> & E & Hr' & Hret & Hl & _).
  rewrite (numbers_result N M m _ o Hm Hk E). exists t'. split; [done|].
  split; [eexists _, C', ups'; split; [done|by apply numbers_insert]|].
  rewrite (srep_depth N grown t m C ups Hr), (srep_depth N grown t' _ C' ups' Hr'). split; [lia|done].
Qed.

(** C5: [remove] of a string key of at most [N] bytes ([N] at most 224) that is not empty and has no zero byte, in a tree of such keys whose levels have no two neighbours with one child each: it returns the pair of the key, if there is one, and the tree stands for the map without the key; the levels are again ordered, linked and covered. A leaf that was merged away, or a child that went to the sibling, changes the level above, up to a root that may give way to its only child. The nodes that left the tree are exactly those that were given to the reclaimer, each once, and, when a leaf is merged into its left neighbour, the string that was the high key of that neighbour; the tree gets no higher. *)
Theorem string_tree_remove_correct {V} `{SAllocatorLaws V} (N : nat) (grown : bool) (t : stree V)
    (M : gmap (list Z) (skvpair V)) (m : gmap Z (kvpair (skvpair V))) (C : level) (ups : list (list group)) (key : String) :
  (N <= 224)%nat -> srepresents N grown t m C ups -> numbers N M m -> tkey N key -> Forall no_lone_pair ups ->
  exists t' m' C' ups' ks l, SFBTree.remove t key = Some (M !! str key, t')
    /\ srepresents N false t' m' C' ups' /\ numbers N (delete (str key) M) m'
    /\ sgone N t t' C C' ups ups' ks l /\ tdepth t' <= tdepth t.
Proof.
  intros HN Hr Hm Hk Hlone.
  destruct (stree_remove_spec N HN grown t m C ups key Hr Hk Hlone) as (o & t' & C' & ups' & ks & l & -> & E & Hr' & Hgone & Hl).
  rewrite (numbers_result N M m key o Hm Hk E). exists t', (delete (SLeafSim.num N key) m), C', ups', ks, l. split; [done|]. split; [exact Hr'|].
  split; [by apply numbers_delete|]. split; [done|].
  rewrite (srep_depth N grown t m C ups Hr), (srep_depth N false t' _ C' ups' Hr'). lia.
Qed.

(** C6: In a tree of string keys of at most [N] bytes ([N] at most 224) that are not empty and have no zero byte, and for a bound that is such a key, an iterator goes through the pairs in the lexicographic order of their keys. From [begin] it meets every pair of the map once; from [lower_bound], those whose key is not below the key; from [upper_bound] of a key the tree does not have, those above it. A scan sorts the leaves it reads, gives every latch back, ends, and leaves the tree standing for the same map. *)
Theorem string_tree_scan_correct {V} `{SAllocatorLaws V} (N : nat) (grown : bool) (t : stree V)
    (M : gmap (list Z) (skvpair V)) (key : String) (fuel : nat) :
  (N <= 224)%nat -> simplements N grown t M -> tkey N key -> (size M <= fuel)%nat ->
  let scan (start : option (stree V * siterator V)) (Q : String -> Prop) :=
    exists l t', (let* (t, it) := start in walk SFBTree.advance skv_ fuel t it) = Some (l, t')
      /\ simplements N grown t' M
      /\ StronglySorted (fun x y => lex_lt (str (skv_key x)) (str (skv_key y))) l
      /\ (forall kv, kv ∈ l <-> M !! str (skv_key kv) = Some kv /\ Q (skv_key kv)) in
  scan (SFBTree.begin t) (fun _ => True)
  /\ scan (SFBTree.lower_bound t key) (fun k => lex_le (str key) (str k))
  /\ (M !! str key = None -> scan (SFBTree.upper_bound t key) (fun k => lex_lt (str key) (str k))).
Proof.
  intros HN (m & C & ups & Hr & HM) Hk Hfuel scan.
  assert (size m <= fuel)%nat as Hfuel' by (pose proof (numbers_size N M m HM); lia).
  assert (forall (P : Z -> Prop) `{!forall k, Decision (P k)} (Q : String -> Prop) start, (exists t1 it, start = Some (t1, it) /\ srepresents N grown t1 m C ups
    /\ iter_ok (string_code N) (kv_num N) (string_leaf N) string_scanner (tmem t1) m C it /\ first_of m P (kv_num N <$> skv_ it)) ->
    (forall j k, P j -> j < k -> P k) -> (forall key, tkey N key -> P (num N key) <-> Q key) -> scan start Q) as Hscan.
  { intros P HP Q start (t1 & it & -> & Hr1 & Hit & Hfirst) Hup HQ. unfold scan. rewrite bind_Some.
    destruct (sscan_from N HN grown P t1 m C ups it fuel Hr1 Hit Hfirst Hup Hfuel') as (l & t2 & -> & El & Hr2).
    exists l, t2. split; [done|]. split; [by exists m, C, ups|]. by apply (numbers_sorted N M m P). }
  assert (forall upper k, tkey N k -> above upper (num N key) (num N k) <-> sabove upper key k) as Hab
    by (intros upper k Ht; apply sabove_num; by apply tkey_skey).
  split; [|split].
  - by apply (Hscan (fun _ => True) _ _ _ (sbegin_spec N HN grown t m C ups Hr)).
  - apply (Hscan (fun k => num N key <= k) _); [|lia|exact (Hab false)].
    by apply (sbound_spec N HN grown t m C ups key false Hr Hk).
  - intros Hnone. apply (Hscan (fun k => num N key < k) _); [|lia|exact (Hab true)].
    apply (sbound_spec N HN grown t m C ups key true Hr Hk). intros _. by rewrite (numbers_lookup N M m key), Hnone.
Qed.

(** ** The properties at a concrete allocator *)

#[local] Instance sex_allocator : SAllocator unit := {
  smalloc h := fresh (dom h);
  sfound_tags _ := replicate 64 7;
  sfound_raw _ := ex_sraw;
  smalloc_string _ := 9000;
}.

#[local] Instance sex_allocator_laws : SAllocatorLaws unit.
Proof.
  split.
  - intros h. cbn. apply not_elem_of_dom, is_fresh.
  - intros a. split; [done|]. by apply Forall_replicate.
  - intros a. apply ex_sraw_ok.
Qed.

(** "b", "ab" and "b" again *)
Definition sex_ops : list (sop unit) :=
  [SOpUpsert (sex_kv [98]); SOpUpsert (sex_kv [97; 98]); SOpLookup (bytes_key [97; 98]);
   SOpUpdate (mkSKV 77 (bytes_key [98]) tt); SOpLookup (bytes_key [97])].

Lemma sex_tkey b : b <> [] -> short_key N4 b -> Forall (fun c => 0 < c < 256) b -> tkey N4 (bytes_key b).
Proof. by intros Hne [Hl _] Hb. Qed.

Lemma string_tree_refines_map_witness :
  exists t, srun (SFBTree.enter (SFBTree.create (∅ : sheap unit))) sex_ops
            = Some ([None; None; Some (sex_kv [97; 98]); Some (sex_kv [98]); None], t).
Proof.
  destruct (string_tree_refines_map N4 (∅ : sheap unit) sex_ops) as (t & E & _).
  - lia.
  - repeat constructor; cbn; try lia; done.
  - done.
  - exists t. exact E.
Defined.

Lemma string_tree_upsert_correct_witness :
  exists t', SFBTree.upsert (SFBTree.enter (SFBTree.create (∅ : sheap unit))) (sex_kv [97; 98]) = Some (None, t').
Proof.
  destruct (string_tree_upsert_correct N4 true (SFBTree.enter (SFBTree.create (∅ : sheap unit))) ∅ (sex_kv [97; 98])) as (t' & E & _).
  - lia.
  - apply screate_implements.
  - repeat constructor; cbn; try lia; done.
  - done.
  - exists t'. exact E.
Defined.

(** "b" is taken out of the tree that [sex_ops] leaves *)
Lemma string_tree_remove_correct_witness :
  exists t t' : stree unit, SFBTree.remove t (bytes_key [98]) = Some (Some (mkSKV 77 (bytes_key [98]) tt), t').
Proof.
  destruct (srun_spec N4 ltac:(lia) sex_ops 1 (SFBTree.enter (SFBTree.create (∅ : sheap unit))) ∅) as (t & _ & (m & C & ups & Hr & Hm) & _).
  - repeat constructor; cbn; try lia; done.
  - apply screate_implements.
  - done.
  - done.
  - exists t. destruct (string_tree_remove_correct N4 true t (smap_run ∅ sex_ops).2 m C ups (bytes_key [98]) ltac:(lia) Hr Hm)
      as (t' & _ & _ & _ & _ & _ & Hrun & _).
    + repeat constructor; cbn; try lia; done.
    + by eapply sgrown_no_lone.
    + exists t'. exact Hrun.
Defined.

(** the tree that [sex_ops] leaves, from its first pair, and from "b" on *)
Lemma string_tree_scan_correct_witness :
  exists (t t1 t2 : stree unit) (l1 l2 : list (skvpair unit)),
    (let* (t, it) := SFBTree.begin t in walk SFBTree.advance skv_ 2 t it) = Some (l1, t1)
    /\ sex_kv [97; 98] ∈ l1 /\ mkSKV 77 (bytes_key [98]) tt ∈ l1
    /\ (let* (t, it) := SFBTree.lower_bound t (bytes_key [98]) in walk SFBTree.advance skv_ 2 t it) = Some (l2, t2)
    /\ sex_kv [97; 98] ∉ l2.
Proof.
  destruct (srun_spec N4 ltac:(lia) sex_ops 1 (SFBTree.enter (SFBTree.create (∅ : sheap unit))) ∅) as (t & _ & Hi & _).
  - repeat constructor; cbn; try lia; done.
  - apply screate_implements.
  - done.
  - done.
  - exists t. destruct (string_tree_scan_correct N4 true t (smap_run ∅ sex_ops).2 (bytes_key [98]) 2 ltac:(lia) Hi)
      as ((l1 & t1 & E1 & _ & _ & H1) & (l2 & t2 & E2 & _ & _ & H2) & _).
    + repeat constructor; cbn; try lia; done.
    + vm_compute. lia.
    + exists t1, t2, l1, l2. split; [exact E1|]. split; [apply H1; by vm_compute|]. split; [apply H1; by vm_compute|].
      split; [exact E2|]. intros [_ Hle]%H2. vm_compute in Hle. by apply Hle.
Defined.
