(* ===== verification/Epoch.v ===== *)
(** * Epoch-based reclamation: [src/util/epoch.h]

    A [LimboList] per thread keeps what the thread retired in bags; a bag is given back
    when the global epoch has moved far enough past its own. The lists [retired] and
    [empty] of a [bags] are the linked lists of the code, from their heads. [startop] is
    cut at its accesses of what threads share ([gepoch_], [thread_epoch], the end of
    [limbo_lists_], which is where a new thread puts its list); what lies between them is
    the thread's own, so [exec] runs it in one step. *)

From S2P Require Import Prelude Control.

Module Epoch.
(** util/epoch.h:21-26 [EpochConfig] *)
Definition kEpochIncrement : Z := 2.
Definition kOpThreshold : Z := 10.
Definition kBagSize : Z := 13.

(** util/epoch.h:29-29 [is_quiescent] *)
Definition is_quiescent (epoch : Z) : bool := Control.nonzero (Z.land epoch 1).
(** util/epoch.h:31-31 [with_quiescent] *)
Definition with_quiescent (epoch : Z) : Z := Z.lor epoch 1.
(** util/epoch.h:33-33 [real_epoch] *)
Definition real_epoch (epoch : Z) : Z := Z.land epoch (w64 (Z.lnot 1)).

(** util/epoch.h:35-53 [LimboBag]

    [LimboBag] and [TypeLimboBag] differ in what they hold; a cell that was never
    written is [None] *)
Record bag {A : Type} := mkBag { epoch : Z; count : Z; freed : Z; pointers : list (option A) }.
Arguments bag A : clear implicits.
Arguments mkBag {A}.

(** the retired bags, head first, and the empty ones *)
Record bags {A : Type} := mkBags { retired : list (bag A); empty : list (bag A) }.
Arguments bags A : clear implicits.
Arguments mkBags {A}.

Section bags.
Context {A : Type}.
Implicit Types (b : bag A) (l : bags A).

(** what [malloc] returns: [epoch] is written before it is read *)
Definition found_bag : bag A := mkBag 0 0 0 (replicate 13 None).

(** util/epoch.h:149-164 [add]

    the bag to write to is the last one *)
Definition open_bag l : option (bags A) :=
  let full := match last (retired l) with None => true | Some limbo => count limbo =? kBagSize end in
  if (full : bool) then
    let '(limbo, empty) := match empty l with [] => (found_bag, []) | limbo :: empty => (limbo, empty) end in
    Some (mkBags (retired l ++ [mkBag (epoch limbo) 0 0 (pointers limbo)]) empty)
  else Some l.

(** util/epoch.h:148-169 [add]

    both overloads, on their lists *)
Definition push l (p : A) (local_epoch : Z) : option (bags A) :=
  let* l := open_bag l in
  let* limbo := last (retired l) in
  let* ps := aset (pointers limbo) (count limbo) (Some p) in
  let limbo := mkBag local_epoch (count limbo + 1) (freed limbo) ps in
  Some (mkBags (<[pred (length (retired l)) := limbo]> (retired l)) (empty l)).

(** util/epoch.h:202-205 [free] *)
Fixpoint free_some (nfree : nat) b (out : list A) : option (bag A * list A) :=
  match nfree with
  | O => Some (b, out)
  | S nfree =>
      if freed b <? count b then
        let* p := aget (pointers b) (freed b) in
        let* p := p in
        free_some nfree (mkBag (epoch b) (count b) (freed b + 1) (pointers b)) (out ++ [p])
      else Some (b, out)
  end.

(** util/epoch.h:196-212 [free]

    the token, the list, and what is given back *)
Definition reclaim (token : bool) l (gepoch nfree : Z) : option (bool * bags A * list A) :=
  assert* (0 <? nfree) && (nfree <=? kBagSize) in
  match retired l with
  | cur_bag :: (next :: _) as rest =>
      if token && (2 * kEpochIncrement <? w64 (gepoch - epoch cur_bag)) then
        let* (cur_bag, out) := free_some (Z.to_nat nfree) cur_bag [] in
        if count cur_bag <=? freed cur_bag
        then Some (token, mkBags (tail (retired l)) (cur_bag :: empty l), out)
        else Some (token, mkBags (cur_bag :: tail (retired l)) (empty l), out)
      else Some (false, l, [])
  | _ => Some (false, l, [])
  end.

(** util/epoch.h:104-121 [~LimboList]

    what is given back *)
Fixpoint drain (l : list (bag A)) (out : list A) : option (list A) :=
  match l with
  | [] => Some out
  | b :: l => let* (_, out) := free_some (Z.to_nat (count b - freed b)) b out in drain l out
  end.
End bags.

(** util/epoch.h:77-95 [LimboList] *)
Record LimboList := mkLimbo {
  free_token : bool;
  type_token : bool;
  opcount : Z;
  thread_epoch : Z;
  local_epoch : Z;
  blocks : bags Z;
  funcs : bags Z;          (** the closures, by a number *)
  checked_it : option nat; (** [None] before it is assigned *)
}.

(** util/epoch.h:99-102 [LimboList] *)
Definition LimboList_new : LimboList :=
  mkLimbo false false 0 (with_quiescent 0) (with_quiescent 0) (mkBags [] []) (mkBags [] []) None.

(** util/epoch.h:104-142 [~LimboList]

    the blocks freed and the closures run, in order *)
Definition LimboList_destroy (l : LimboList) : option (list Z * list Z) :=
  let* ps := drain (retired (blocks l)) [] in
  let* fs := drain (retired (funcs l)) [] in
  Some (ps, fs).

Definition with_blocks l token bs :=
  mkLimbo token (type_token l) (opcount l) (thread_epoch l) (local_epoch l) bs (funcs l) (checked_it l).
Definition with_funcs l token fs :=
  mkLimbo (free_token l) token (opcount l) (thread_epoch l) (local_epoch l) (blocks l) fs (checked_it l).
Definition with_local l e :=
  mkLimbo (free_token l) (type_token l) (opcount l) (thread_epoch l) e (blocks l) (funcs l) (checked_it l).
Definition with_thread l e :=
  mkLimbo (free_token l) (type_token l) (opcount l) e (local_epoch l) (blocks l) (funcs l) (checked_it l).
Definition with_opcount l n :=
  mkLimbo (free_token l) (type_token l) n (thread_epoch l) (local_epoch l) (blocks l) (funcs l) (checked_it l).
Definition with_checked l it :=
  mkLimbo (free_token l) (type_token l) (opcount l) (thread_epoch l) (local_epoch l) (blocks l) (funcs l) it.

(** util/epoch.h:148-169 [add] *)
Definition add l (p : Z) : option LimboList :=
  let* bs := push (blocks l) p (local_epoch l) in Some (with_blocks l (free_token l) bs).
(** util/epoch.h:171-193 [add] *)
Definition add_func l (f : Z) : option LimboList :=
  let* fs := push (funcs l) f (local_epoch l) in Some (with_funcs l (type_token l) fs).
(** util/epoch.h:195-213 [free] *)
Definition free l (gepoch nfree : Z) : option (LimboList * list Z) :=
  let* (token, bs, out) := reclaim (free_token l) (blocks l) gepoch nfree in
  Some (with_blocks l token bs, out).
(** util/epoch.h:215-233 [type_free] *)
Definition type_free l (gepoch nfree : Z) : option (LimboList * list Z) :=
  let* (token, fs, out) := reclaim (type_token l) (funcs l) gepoch nfree in
  Some (with_funcs l token fs, out).

(** where a thread is: outside an operation, in [startop] after each of its shared
    accesses, or inside the operation *)
Inductive pc := Quiet | Loaded | Announced | Scanning | Scanned | Raising | Active.

#[global] Instance pc_eq_dec : EqDecision pc.
Proof. solve_decision. Defined.

(** util/epoch.h:240-243 [EpochDetail]

    one list per thread that has come; [given_back] and [ran] are all blocks freed and
    closures run so far *)
Record state := mkState {
  gepoch_ : Z;
  limbo_lists_ : list LimboList;
  pcs : list pc;
  given_back : list Z;
  ran : list Z;
}.

(** util/epoch.h:261-261 [EpochDetail] *)
Definition EpochDetail : state := mkState 0 [] [] [] [].

Definition set_thread s i l p :=
  mkState (gepoch_ s) (<[i := l]> (limbo_lists_ s)) (<[i := p]> (pcs s)) (given_back s) (ran s).

Implicit Types (s : state) (l : LimboList) (i : nat).

(** [limbo_lists_.local()], as the documentation of [tbb::enumerable_thread_specific] has it:
    the element of this thread, made by the default constructor when it first comes, at the
    end of what a traversal goes through; [mine] is where it is *)
Definition local s (mine : option nat) : state * nat :=
  match mine with
  | Some i => (s, i)
  | None => (mkState (gepoch_ s) (limbo_lists_ s ++ [LimboList_new]) (pcs s ++ [Quiet]) (given_back s) (ran s),
             length (limbo_lists_ s))
  end.

(** util/epoch.h:245-258 [limbo_list]

    [cache] is the thread's [local], the object and the list it last used *)
Definition limbo_list (this : Z) (cache : option (Z * nat)) (mine : option nat) s : option (Z * nat) * state * nat :=
  match cache with
  | Some (epoch, limbo) =>
      if negb (epoch =? this) then let '(s, limbo) := local s mine in (Some (this, limbo), s, limbo)
      else (cache, s, limbo)
  | None => let '(s, limbo) := local s mine in (Some (this, limbo), s, limbo)
  end.

(** util/epoch.h:272-287 [startop]

    up to the announcement: the load of the global epoch, and the reclamation *)
Definition startop_load s i (nfree : Z) : option state :=
  let* l := limbo_lists_ s !! i in
  let gepoch := gepoch_ s in
  let lepoch := local_epoch l in
  let l := with_local l gepoch in
  let l := if negb (gepoch =? lepoch)
           then with_funcs (with_blocks (with_checked l (Some 0%nat)) true (blocks l)) true (funcs l) else l in
  let* (l, ps) := free l gepoch nfree in
  let* (l, fs) := type_free l gepoch nfree in
  let s := set_thread s i l Loaded in
  Some (mkState (gepoch_ s) (limbo_lists_ s) (pcs s) (given_back s ++ ps) (ran s ++ fs)).

(** util/epoch.h:289-293 [startop]

    the announcement; the variable [gepoch] has the value of [local_epoch] *)
Definition startop_announce s i : option state :=
  let* l := limbo_lists_ s !! i in
  Some (set_thread s i (with_thread l (local_epoch l)) Announced).

(** util/epoch.h:295-300 [startop]

    every tenth time there is a list to look at, unless the end is reached *)
Definition startop_count s i : option state :=
  let* l := limbo_lists_ s !! i in
  let l := with_opcount l (opcount l + 1) in
  if opcount l =? kOpThreshold then
    let l := with_opcount l 0 in
    let* it := checked_it l in
    Some (set_thread s i l (if bool_decide (it = length (limbo_lists_ s)) then Active else Scanning))
  else Some (set_thread s i l Active).

(** util/epoch.h:302-305 [startop]

    one list is looked at *)
Definition startop_scan s i : option state :=
  let* l := limbo_lists_ s !! i in
  let gepoch := local_epoch l in
  let* it := checked_it l in
  let* olimbo := limbo_lists_ s !! it in
  let tepoch := thread_epoch olimbo in
  if (real_epoch tepoch =? gepoch) || is_quiescent tepoch
  then Some (set_thread s i (with_checked l (Some (S it))) Scanned)
  else Some (set_thread s i l Active).

(** util/epoch.h:306-306 [startop]

    was it the last one? *)
Definition startop_last s i : option state :=
  let* l := limbo_lists_ s !! i in
  let* it := checked_it l in
  Some (set_thread s i l (if bool_decide (it = length (limbo_lists_ s)) then Raising else Active)).

(** util/epoch.h:307-307 [startop]

    [compare_exchange_strong] *)
Definition startop_raise s i : option state :=
  let* l := limbo_lists_ s !! i in
  let gepoch := local_epoch l in
  let s := set_thread s i l Active in
  if gepoch_ s =? gepoch
  then Some (mkState (w64 (gepoch + kEpochIncrement)) (limbo_lists_ s) (pcs s) (given_back s) (ran s))
  else Some s.

(** util/epoch.h:271-311 [startop]

    the whole of it, by a thread that meets no other *)
Definition startop s i (nfree : Z) : option state :=
  let* s := startop_load s i nfree in
  let* s := startop_announce s i in
  let* s := startop_count s i in
  let* s := if bool_decide (pcs s !! i = Some Scanning) then startop_scan s i else Some s in
  let* s := if bool_decide (pcs s !! i = Some Scanned) then startop_last s i else Some s in
  if bool_decide (pcs s !! i = Some Raising) then startop_raise s i else Some s.

(** util/epoch.h:314-317 [retire] *)
Definition retire s i (p : option Z) : option state :=
  let* l := limbo_lists_ s !! i in
  match p with
  | Some p => let* l := add l p in Some (set_thread s i l Active)
  | None => Some s
  end.
(** util/epoch.h:321-324 [retire] *)
Definition retire_func s i (f : Z) : option state :=
  let* l := limbo_lists_ s !! i in let* l := add_func l f in Some (set_thread s i l Active).
(** util/epoch.h:326-329 [guarded] *)
Definition guarded s i : option bool :=
  let* l := limbo_lists_ s !! i in Some (negb (is_quiescent (thread_epoch l))).
(** util/epoch.h:331-335 [endop] *)
Definition endop s i : option state :=
  let* l := limbo_lists_ s !! i in
  Some (set_thread s i (with_thread l (with_quiescent (local_epoch l))) Quiet).

(** util/epoch.h:399-421 [EpochGuard]

    the scope of a guard: what its body does, between its constructor and destructor *)
Definition guard s i (nfree : Z) (body : state -> option state) : option state :=
  let* s := startop s i nfree in
  let* s := body s in
  endop s i.

(** util/epoch.h:337-340 [clear]

    the lists are destroyed *)
Definition clear s : option state :=
  let* (ps, fs) := foldl (fun acc l =>
    let* (ps, fs) := acc in
    let* (p, f) := LimboList_destroy l in
    Some (ps ++ p, fs ++ f)) (Some (given_back s, ran s)) (limbo_lists_ s) in
  Some (mkState 0 [] [] ps fs).

(** util/epoch.h:362-376 [Epoch]

    the addresses that [new] returns, one after the other, until one is not in
    [epochs]; and the ones discarded *)
Fixpoint Epoch_new (news : list Z) (epochs : gset Z) (discards : list Z) : option (Z * gset Z * list Z) :=
  match news with
  | [] => None
  | epoch_ :: news =>
      if bool_decide (epoch_ ∈ epochs) then Epoch_new news epochs (discards ++ [epoch_])
      else Some (epoch_, {[epoch_]} ∪ epochs, discards)
  end.

(** ** Threads *)

Inductive event :=
  | Come
  | Load (i : nat) (nfree : Z)
  | Announce (i : nat)
  | Count (i : nat)
  | Scan (i : nat)
  | Last (i : nat)
  | Raise (i : nat)
  | Retire (i : nat) (p : option Z)
  | RetireFunc (i : nat) (f : Z)
  | End (i : nat).

(** one step of one thread, at the place its program is *)
Definition exec s (e : event) : option state :=
  match e with
  | Come => Some (fst (local s None))
  | Load i nfree => assert* bool_decide (pcs s !! i = Some Quiet) in startop_load s i nfree
  | Announce i => assert* bool_decide (pcs s !! i = Some Loaded) in startop_announce s i
  | Count i => assert* bool_decide (pcs s !! i = Some Announced) in startop_count s i
  | Scan i => assert* bool_decide (pcs s !! i = Some Scanning) in startop_scan s i
  | Last i => assert* bool_decide (pcs s !! i = Some Scanned) in startop_last s i
  | Raise i => assert* bool_decide (pcs s !! i = Some Raising) in startop_raise s i
  | Retire i p => assert* bool_decide (pcs s !! i = Some Active) in retire s i p
  | RetireFunc i f => assert* bool_decide (pcs s !! i = Some Active) in retire_func s i f
  | End i => assert* bool_decide (pcs s !! i = Some Active) in endop s i
  end.
End Epoch.
