(* ===== verification/EpochSpec.v ===== *)
(** * What the reclamation guarantees

    The bags are a queue; nothing is given back while an operation that may still use
    it goes on, provided that no thread is stopped for long inside [startop]. *)

From S2P Require Import Prelude Control Epoch.
Import Epoch.

(** ** The bags are a queue *)

Section queue.
Context {A : Type}.
Implicit Types (b : bag A) (l : bags A) (x : A).

(** what a bag still holds *)
Definition rest b : list (option A) :=
  take (Z.to_nat (count b - freed b)) (drop (Z.to_nat (freed b)) (pointers b)).

Record bag_wf b : Prop := {
  bw_counts : 0 <= freed b <= count b /\ count b <= 13;
  bw_length : length (pointers b) = 13%nat;
  bw_written k : 0 <= k < count b -> exists x, aget (pointers b) k = Some (Some x);
}.

Record bags_wf l : Prop := {
  bs_retired : Forall bag_wf (retired l);
  bs_empty : Forall (fun b => length (pointers b) = 13%nat) (empty l);
}.

(** the items of the queue, first in first *)
Definition items l : list A := omap id (mjoin (rest <$> retired l)).

(** a bag after some items were taken from it *)
Definition advance b (k : Z) : bag A := mkBag (epoch b) (count b) (freed b + k) (pointers b).

Lemma rest_cons b x :
  bag_wf b -> freed b < count b -> aget (pointers b) (freed b) = Some (Some x) ->
  rest b = Some x :: rest (advance b 1).
Proof.
  intros [[H1 H2] Hl _] Hlt [_ Hx]%aget_Some. unfold rest, advance. cbn [count freed pointers].
  rewrite (drop_S _ (Some x)) by done.
  replace (Z.to_nat (freed b + 1)) with (S (Z.to_nat (freed b))) by lia.
  replace (Z.to_nat (count b - freed b)) with (S (Z.to_nat (count b - (freed b + 1)))) by lia. done.
Qed.

Lemma advance_wf b k : bag_wf b -> 0 <= k -> freed b + k <= count b -> bag_wf (advance b k).
Proof. intros [H1 Hl Hw] Hk Hle. split; cbn; [lia|done|done]. Qed.

(** the loop of [free] takes items from the front *)
Lemma free_some_spec n b out :
  bag_wf b ->
  exists k xs, 0 <= k /\ k = Z.min (Z.of_nat n) (count b - freed b)
    /\ free_some n b out = Some (advance b k, out ++ xs)
    /\ rest b = (Some <$> xs) ++ rest (advance b k).
Proof.
  revert b out. induction n as [|n IH]; intros b out Hb; pose proof (bw_counts b Hb) as Hc; cbn [free_some].
  - exists 0, []. rewrite app_nil_r. unfold advance. rewrite Z.add_0_r. destruct b. cbn in *. split; [done|].
    split; [lia|done].
  - destruct (Z.ltb_spec (freed b) (count b)) as [Hlt|Hge].
    + destruct (bw_written b Hb (freed b)) as [x Hx]; [lia|]. rewrite Hx, !bind_Some.
      destruct (IH (advance b 1) (out ++ [x])) as (k & xs & Hk & Ek & E & Hr).
      { apply advance_wf; [done|lia|lia]. }
      cbn [count freed advance] in Ek.
      assert (advance (advance b 1) k = advance b (k + 1)) as Ea by (unfold advance; cbn; f_equal; lia).
      rewrite Ea in *. exists (k + 1), (x :: xs). split; [lia|]. split; [lia|]. split.
      * change (mkBag _ _ _ _) with (advance b 1). by rewrite E, <- app_assoc.
      * rewrite (rest_cons b x), Hr by done. done.
    + exists 0, []. rewrite app_nil_r. unfold advance. rewrite Z.add_0_r. destruct b. cbn in *. split; [done|].
      split; [lia|done].
Qed.

Lemma rest_empty b : count b <= freed b -> rest b = [].
Proof. intros Hle. unfold rest. by replace (Z.to_nat (count b - freed b)) with 0%nat by lia. Qed.

Lemma omap_Some (xs : list A) : omap id (Some <$> xs) = xs.
Proof. induction xs as [|x xs IH]; [done|]. cbn. by rewrite IH. Qed.

Lemma items_cons b r e : items (mkBags (b :: r) e) = omap id (rest b) ++ items (mkBags r e).
Proof. unfold items. cbn. by rewrite omap_app. Qed.

Lemma items_snoc r b e : items (mkBags (r ++ [b]) e) = items (mkBags r e) ++ omap id (rest b).
Proof. unfold items. cbn [retired]. rewrite fmap_app, join_app, omap_app. cbn. by rewrite app_nil_r. Qed.

Lemma items_spare r e e' : items (mkBags r e) = items (mkBags r e').
Proof. done. Qed.

(** giving back takes from the front of the queue; what it takes is from the first
    bag, whose epoch is far enough behind *)
Lemma reclaim_spec token l gepoch nfree :
  bags_wf l -> 0 < nfree <= kBagSize ->
  exists token' l' out, reclaim token l gepoch nfree = Some (token', l', out)
    /\ bags_wf l' /\ items l = out ++ items l'
    /\ (forall b, b ∈ retired l' -> exists b0, b0 ∈ retired l /\ epoch b0 = epoch b
          /\ forall x, Some x ∈ rest b -> Some x ∈ rest b0)
    /\ (forall x, x ∈ out -> exists b0, b0 ∈ retired l /\ Some x ∈ rest b0
          /\ 2 * kEpochIncrement < w64 (gepoch - epoch b0)).
Proof.
  intros [Hr He] Hn. destruct l as [r e]. cbn [retired empty] in *. unfold reclaim. cbn [retired empty].
  assert (forall (t : bool), exists token' l' out, Some (t, mkBags r e, @nil A) = Some (token', l', out)
    /\ bags_wf l' /\ items (mkBags r e) = out ++ items l'
    /\ (forall b, b ∈ retired l' -> exists b0, b0 ∈ r /\ epoch b0 = epoch b
          /\ forall x, Some x ∈ rest b -> Some x ∈ rest b0)
    /\ (forall x, x ∈ out -> exists b0, b0 ∈ r /\ Some x ∈ rest b0
          /\ 2 * kEpochIncrement < w64 (gepoch - epoch b0))) as Hsame.
  { intros t. exists t, (mkBags r e), []. split; [done|]. split; [done|]. split; [done|]. split; [by eauto|].
    intros x Hx. by apply not_elem_of_nil in Hx. }
  btrue ((0 <? nfree) && (nfree <=? kBagSize)). cbn [asserting].
  destruct r as [|cur [|next r]]; [apply Hsame|apply Hsame|].
  destruct (token && (2 * kEpochIncrement <? w64 (gepoch - epoch cur))) eqn:Ec; [|apply Hsame].
  clear Hsame. apply andb_true_iff in Ec as [_ Ec%Z.ltb_lt].
  apply Forall_cons in Hr as [Hcur Hr].
  destruct (free_some_spec (Z.to_nat nfree) cur [] Hcur) as (k & xs & Hk & Ek & -> & Hrest). rewrite bind_Some.
  cbn [app]. pose proof (bw_counts cur Hcur) as Hcnt.
  assert (forall x, x ∈ xs -> Some x ∈ rest cur) as Hxs.
  { intros x Hx. rewrite Hrest. apply elem_of_app. left. by apply list_elem_of_fmap_2. }
  assert (forall x, Some x ∈ rest (advance cur k) -> Some x ∈ rest cur) as Hadv.
  { intros x Hx. rewrite Hrest. apply elem_of_app. by right. }
  assert (items (mkBags (cur :: next :: r) e) = xs ++ omap id (rest (advance cur k)) ++ items (mkBags (next :: r) e)) as Hit.
  { by rewrite items_cons, Hrest, omap_app, omap_Some, <- app_assoc. }
  cbn [tail]. destruct (Z.leb_spec (count (advance cur k)) (freed (advance cur k))) as [Hle|Hlt].
  - exists token, (mkBags (next :: r) (advance cur k :: e)), xs. split; [done|]. split; [|split; [|split]].
    + split; [done|]. apply Forall_cons. split; [apply Hcur|done].
    + rewrite Hit, rest_empty by done. done.
    + intros b Hb. exists b. split; [by right|]. split; [done|]. by intros x.
    + intros x Hx. exists cur. split; [by left|]. split; [by apply Hxs|done].
  - exists token, (mkBags (advance cur k :: next :: r) e), xs. split; [done|]. split; [|split; [|split]].
    + split; [|done]. apply Forall_cons. split; [|done]. apply advance_wf; [done|done|lia].
    + by rewrite Hit, (items_cons (advance cur k)).
    + intros b [->|Hb]%elem_of_cons.
      * exists cur. split; [by left|]. by split.
      * exists b. split; [by right|]. split; [done|]. by intros x.
    + intros x Hx. exists cur. split; [by left|]. split; [by apply Hxs|done].
Qed.

(** the bag to write to is the last one, and has room *)
Lemma open_bag_spec l :
  bags_wf l ->
  exists r b e, open_bag l = Some (mkBags (r ++ [b]) e) /\ bags_wf (mkBags (r ++ [b]) e) /\ count b < 13
    /\ items (mkBags (r ++ [b]) e) = items l /\ (forall b', b' ∈ r ++ [b] -> b' ∈ retired l \/ rest b' = []).
Proof.
  intros [Hr He]. destruct l as [r e]. unfold open_bag. cbn [retired empty] in *.
  assert (forall limbo e', length (pointers limbo) = 13%nat -> Forall (fun b => length (pointers b) = 13%nat) e' ->
    let b := mkBag (epoch limbo) 0 0 (pointers limbo) in
    exists r0 b0 e0, Some (mkBags (r ++ [b]) e') = Some (mkBags (r0 ++ [b0]) e0)
      /\ bags_wf (mkBags (r0 ++ [b0]) e0) /\ count b0 < 13
      /\ items (mkBags (r0 ++ [b0]) e0) = items (mkBags r e) /\ (forall b', b' ∈ r0 ++ [b0] -> b' ∈ r \/ rest b' = [])) as Hnew.
  { intros limbo e' Hl He' b. exists r, b, e'. split; [done|]. split; [split; [|done]|split; [done|split]].
    - apply Forall_app. split; [done|]. apply Forall_singleton. split; [cbn; lia|done|cbn; lia].
    - rewrite items_snoc, rest_empty by done. by rewrite app_nil_r.
    - intros b' [?| ->%list_elem_of_singleton]%elem_of_app; [by left|]. right. by apply rest_empty. }
  assert (exists r0 b0 e0,
    (let '(limbo, e1) := match e with [] => (found_bag, []) | limbo :: e1 => (limbo, e1) end in
     Some (mkBags (r ++ [mkBag (epoch limbo) 0 0 (pointers limbo)]) e1)) = Some (mkBags (r0 ++ [b0]) e0)
      /\ bags_wf (mkBags (r0 ++ [b0]) e0) /\ count b0 < 13
      /\ items (mkBags (r0 ++ [b0]) e0) = items (mkBags r e) /\ (forall b', b' ∈ r0 ++ [b0] -> b' ∈ r \/ rest b' = [])) as Hopen.
  { destruct e as [|limbo e]; [by apply Hnew|]. apply Forall_cons in He as [? ?]. by apply Hnew. }
  clear Hnew. destruct (last r) as [b|] eqn:El; [|apply Hopen].
  destruct (Z.eqb_spec (count b) kBagSize) as [Eb|Hne]; [apply Hopen|].
  apply last_Some in El as [r' ->]. exists r', b, e. split; [done|]. split; [done|]. split; [|split; [done|by left]].
  apply Forall_app in Hr as [_ Hb]. rewrite Forall_singleton in Hb. pose proof (bw_counts b Hb). unfold kBagSize in Hne. lia.
Qed.

(** a bag with one more item *)
Lemma rest_push b ps p ep :
  bag_wf b -> aset (pointers b) (count b) (Some p) = Some ps ->
  rest (mkBag ep (count b + 1) (freed b) ps) = rest b ++ [Some p].
Proof.
  intros Hb [Hc ->]%aset_Some. pose proof (bw_counts b Hb). unfold rest. cbn [count freed pointers].
  replace (Z.to_nat (count b + 1 - freed b)) with (S (Z.to_nat (count b - freed b))) by lia.
  rewrite drop_insert_ge by lia. replace (Z.to_nat (count b) - Z.to_nat (freed b))%nat with (Z.to_nat (count b - freed b)) by lia.
  rewrite (take_S_r _ _ (Some p)), take_insert_ge by (done || (apply list_lookup_insert_eq; rewrite length_drop; lia)).
  done.
Qed.

Lemma push_spec l p ep :
  bags_wf l ->
  exists l', push l p ep = Some l' /\ bags_wf l' /\ items l' = items l ++ [p]
    /\ forall b x, b ∈ retired l' -> Some x ∈ rest b ->
         (x = p /\ epoch b = ep)
         \/ exists b0, b0 ∈ retired l /\ Some x ∈ rest b0 /\ (epoch b = epoch b0 \/ epoch b = ep).
Proof.
  intros Hl. destruct (open_bag_spec l Hl) as (r & b & e & Eo & [Hr He] & Hc & Hi & Hold).
  cbn [retired empty] in *. apply Forall_app in Hr as [Hr Hb]. rewrite Forall_singleton in Hb.
  pose proof (bw_counts b Hb) as Hcnt. pose proof (bw_length b Hb) as Hlen.
  unfold push. rewrite Eo, bind_Some. cbn [retired empty]. rewrite last_snoc, bind_Some.
  rewrite aset_in_range, bind_Some by lia. set (ps := <[Z.to_nat (count b) := Some p]> (pointers b)).
  assert (aset (pointers b) (count b) (Some p) = Some ps) as Eps by (rewrite aset_in_range by lia; done).
  set (b' := mkBag ep (count b + 1) (freed b) ps).
  pose proof (rest_push b ps p ep Hb Eps) as Hrest. fold b' in Hrest.
  rewrite length_app, Nat.add_1_r. cbn [pred]. rewrite insert_app_r_alt, Nat.sub_diag by done. cbn [insert list_insert].
  exists (mkBags (r ++ [b']) e). split; [done|]. split; [|split].
  - split; [|done]. apply Forall_app. split; [done|]. apply Forall_singleton. split; cbn; [lia| |].
    + unfold ps. by rewrite length_insert.
    + intros k Hk. unfold ps. rewrite aget_insert by lia. destruct (Z.eqb_spec (count b) k); [by eexists|].
      apply (bw_written b Hb). lia.
  - rewrite items_snoc, Hrest, omap_app, app_assoc. cbn. f_equal. by rewrite <- Hi, items_snoc.
  - intros b0 x Hb0 Hx. cbn [retired] in Hb0. apply elem_of_app in Hb0 as [Hb0| ->%list_elem_of_singleton].
    + right. exists b0. destruct (Hold b0) as [?|E]; [apply elem_of_app; by left|by eauto|].
      rewrite E in Hx. by apply not_elem_of_nil in Hx.
    + rewrite Hrest in Hx. apply elem_of_app in Hx as [Hx|Hx%list_elem_of_singleton]; [|left; split; [congruence|done]].
      right. exists b. destruct (Hold b) as [?|E]; [apply elem_of_app; right; by apply list_elem_of_singleton| |].
      * split; [done|]. split; [done|]. by right.
      * rewrite E in Hx. by apply not_elem_of_nil in Hx.
Qed.

(** destroying the list gives back the rest *)
Lemma drain_spec r out e :
  Forall bag_wf r -> drain r out = Some (out ++ items (mkBags r e)).
Proof.
  intros Hr. revert out. induction Hr as [|b r Hb _ IH]; intros out; [by rewrite app_nil_r|].
  cbn [drain]. destruct (free_some_spec (Z.to_nat (count b - freed b)) b out Hb) as (k & xs & Hk & Ek & -> & Hrest).
  pose proof (bw_counts b Hb). rewrite bind_Some, IH, items_cons, Hrest, omap_app, omap_Some.
  rewrite rest_empty by (cbn; lia). cbn. by rewrite app_nil_r, app_assoc.
Qed.
End queue.

(** ** One list *)

(** a block, or a closure *)
Abbreviation item := (Z + Z)%type.

Implicit Types (l : LimboList) (s : state) (x : item) (i j : nat).

(** [l] holds [x] in a bag of epoch [e] *)
Definition in_bag l x (e : Z) : Prop :=
  match x with
  | inl p => exists b, b ∈ retired (blocks l) /\ Some p ∈ rest b /\ epoch b = e
  | inr f => exists b, b ∈ retired (funcs l) /\ Some f ∈ rest b /\ epoch b = e
  end.

Definition limbo_wf l : Prop := bags_wf (blocks l) /\ bags_wf (funcs l).

(** the other fields *)
Definition same_words l l' : Prop :=
  opcount l' = opcount l /\ thread_epoch l' = thread_epoch l /\ local_epoch l' = local_epoch l
  /\ checked_it l' = checked_it l.

Lemma limbo_new_wf : limbo_wf LimboList_new.
Proof. by repeat constructor. Qed.

(** what retiring [x] does to the bags *)
Definition added l l' x : Prop :=
  limbo_wf l' /\ same_words l l'
  /\ forall y e, in_bag l' y e -> (y = x /\ e = local_epoch l)
       \/ exists e0, in_bag l y e0 /\ (e = e0 \/ e = local_epoch l).

Lemma add_spec l p : limbo_wf l -> exists l', add l p = Some l' /\ added l l' (inl p).
Proof.
  intros [Hb Hf]. unfold add. destruct (push_spec (blocks l) p (local_epoch l) Hb) as (bs & -> & Hbs & _ & Hin).
  rewrite bind_Some. eexists. split; [done|]. split; [done|]. split; [done|]. intros [q|f] e; cbn.
  - intros (b & Hbr & Hq & <-). destruct (Hin b q Hbr Hq) as [[-> ?]|(b0 & ? & ? & ?)]; [by left|right].
    exists (epoch b0). split; [by exists b0|done].
  - intros Hx. right. exists e. split; [done|]. by left.
Qed.

Lemma add_func_spec l f : limbo_wf l -> exists l', add_func l f = Some l' /\ added l l' (inr f).
Proof.
  intros [Hb Hf]. unfold add_func. destruct (push_spec (funcs l) f (local_epoch l) Hf) as (bs & -> & Hbs & _ & Hin).
  rewrite bind_Some. eexists. split; [done|]. split; [done|]. split; [done|]. intros [q|g] e; cbn.
  - intros Hx. right. exists e. split; [done|]. by left.
  - intros (b & Hbr & Hq & <-). destruct (Hin b g Hbr Hq) as [[-> ?]|(b0 & ? & ? & ?)]; [by left|right].
    exists (epoch b0). split; [by exists b0|done].
Qed.

(** what giving back [ps] and [fs] does to the bags *)
Definition freed_from l l' (gepoch : Z) (ps fs : list Z) : Prop :=
  limbo_wf l' /\ same_words l l' /\ (forall y e, in_bag l' y e -> in_bag l y e)
  /\ (forall p, p ∈ ps -> exists e, in_bag l (inl p) e /\ 4 < w64 (gepoch - e))
  /\ (forall f, f ∈ fs -> exists e, in_bag l (inr f) e /\ 4 < w64 (gepoch - e)).

Lemma free_spec l gepoch nfree :
  limbo_wf l -> 0 < nfree <= kBagSize ->
  exists l' ps, free l gepoch nfree = Some (l', ps) /\ freed_from l l' gepoch ps [].
Proof.
  intros [Hb Hf] Hn. unfold free.
  destruct (reclaim_spec (free_token l) (blocks l) gepoch nfree Hb Hn) as (tk & bs & ps & -> & Hbs & _ & Hin & Hout).
  rewrite bind_Some. eexists _, _. split; [done|]. split; [done|]. split; [done|]. split; [|split].
  - intros [q|g] e; cbn; [|done]. intros (b & Hbr & Hq & <-). destruct (Hin b Hbr) as (b0 & ? & <- & Hx).
    exists b0. split; [done|]. split; [by apply Hx|done].
  - intros p Hp. destruct (Hout p Hp) as (b0 & ? & ? & ?). exists (epoch b0). split; [by exists b0|done].
  - intros f Hx. by apply not_elem_of_nil in Hx.
Qed.

Lemma type_free_spec l gepoch nfree :
  limbo_wf l -> 0 < nfree <= kBagSize ->
  exists l' fs, type_free l gepoch nfree = Some (l', fs) /\ freed_from l l' gepoch [] fs.
Proof.
  intros [Hb Hf] Hn. unfold type_free.
  destruct (reclaim_spec (type_token l) (funcs l) gepoch nfree Hf Hn) as (tk & bs & ps & -> & Hbs & _ & Hin & Hout).
  rewrite bind_Some. eexists _, _. split; [done|]. split; [done|]. split; [done|]. split; [|split].
  - intros [q|g] e; cbn; [done|]. intros (b & Hbr & Hq & <-). destruct (Hin b Hbr) as (b0 & ? & <- & Hx).
    exists b0. split; [done|]. split; [by apply Hx|done].
  - intros f Hx. by apply not_elem_of_nil in Hx.
  - intros p Hp. destruct (Hout p Hp) as (b0 & ? & ? & ?). exists (epoch b0). split; [by exists b0|done].
Qed.

(** ** The quiescent bit *)

Lemma quiescent_even k : is_quiescent (2 * k) = false.
Proof.
  unfold is_quiescent, Control.nonzero. change 1 with (Z.ones 1). rewrite Z.land_ones by lia.
  rewrite Z.mul_comm, Z_mod_mult. done.
Qed.

Lemma quiescent_with e : is_quiescent (with_quiescent e) = true.
Proof.
  unfold is_quiescent, with_quiescent, Control.nonzero.
  destruct (Z.eqb_spec (Z.land (Z.lor e 1) 1) 0) as [E|]; [|done]. exfalso.
  assert (Z.testbit (Z.land (Z.lor e 1) 1) 0 = true) as Ht by (rewrite Z.land_spec, Z.lor_spec; cbn; by rewrite orb_true_r).
  by rewrite E, Z.testbit_0_l in Ht.
Qed.

Lemma real_epoch_even k : 0 <= 2 * k < 2 ^ 64 -> real_epoch (2 * k) = 2 * k.
Proof.
  intros Hk. unfold real_epoch. apply Z.bits_inj'. intros n Hn. rewrite Z.land_spec.
  destruct (decide (n < 64)).
  - rewrite wrap_testbit, Z.lnot_spec by done. btrue (n <? 64). destruct (decide (n = 0)) as [->|].
    + rewrite Z.testbit_even_0. done.
    + replace (Z.testbit 1 n) with false; [by rewrite andb_true_r|].
      symmetry. apply Z.bits_above_log2; [done|]. cbn. lia.
  - rewrite (testbit_above (2 * k) 64) by lia. done.
Qed.
