(* ===== verification/EpochProps.v ===== *)
(** * Reclamation by several threads: progress, safety, and what safety needs

    Runs are sequences of the steps of [Epoch.exec]; a ghost list says which retired
    block or closure may still be in use by which operation. *)

From S2P Require Import Prelude Control Epoch EpochSpec.
Import Epoch.

Implicit Types (l : LimboList) (s : state) (x : item) (i j : nat) (p : pc) (e : event).

(** ** Runs *)

(** inside an operation, for the others *)
Definition announced p : bool :=
  match p with Announced | Scanning | Scanned | Raising | Active => true | Quiet | Loaded => false end.

(** what waits to be given back *)
Definition waiting s x : bool :=
  existsb (fun l => match x with
                    | inl q => bool_decide (q ∈ items (blocks l))
                    | inr f => bool_decide (f ∈ items (funcs l))
                    end) (limbo_lists_ s).

Definition at_pc s i p : bool := bool_decide (pcs s !! i = Some p).

(** what the threads may do: each at its place, a block retired once, and if [prompt]
    the announcement made before the global epoch moves on *)
Definition allowed (prompt : bool) s e : bool :=
  match e with
  | Come => true
  | Load i nfree => at_pc s i Quiet && (0 <? nfree) && (nfree <=? kBagSize)
  | Announce i =>
      at_pc s i Loaded && (negb prompt || bool_decide (local_epoch <$> limbo_lists_ s !! i = Some (gepoch_ s)))
  | Count i => at_pc s i Announced
  | Scan i => at_pc s i Scanning
  | Last i => at_pc s i Scanned
  | Raise i => at_pc s i Raising
  | Retire i None => at_pc s i Active
  | Retire i (Some q) => at_pc s i Active && negb (waiting s (inl q))
  | RetireFunc i f => at_pc s i Active && negb (waiting s (inr f))
  | End i => at_pc s i Active
  end.

(** the operations that go on *)
Definition user s j : bool := match pcs s !! j with Some p => announced p | None => false end.
Definition users s : list nat := filter (fun j => user s j = true) (seq 0 (length (pcs s))).

(** who may still use what: whoever is inside an operation when it is retired, until
    that operation ends *)
Definition protect s e (prot : list (nat * item)) : list (nat * item) :=
  match e with
  | Retire i (Some q) => ((fun j => (j, inl q)) <$> users s) ++ prot
  | RetireFunc i f => ((fun j => (j, inr f)) <$> users s) ++ prot
  | End i => filter (fun jx => fst jx <> i) prot
  | _ => prot
  end.

Fixpoint run (prompt : bool) (tr : list event) s (prot : list (nat * item)) : option (state * list (nat * item)) :=
  match tr with
  | [] => Some (s, prot)
  | e :: tr => assert* allowed prompt s e in let* s' := exec s e in run prompt tr s' (protect s e prot)
  end.

(** ** The invariant *)

(** thread [i] of [s] *)
Definition thread_at s i l p : Prop := limbo_lists_ s !! i = Some l /\ pcs s !! i = Some p.

Record thread_ok (G : Z) (n : nat) l p : Prop := {
  to_limbo : limbo_wf l;
  to_bags x ep : in_bag l x ep -> 0 <= ep <= G;
  to_local : (local_epoch l = 1 /\ p = Quiet)
    \/ exists k it, local_epoch l = 2 * k /\ 0 <= 2 * k <= G /\ checked_it l = Some it /\ (it <= n)%nat;
  to_announced : announced p = true -> thread_epoch l = local_epoch l /\ G <= local_epoch l + 2;
  to_quiet : announced p = false -> is_quiescent (thread_epoch l) = true;
  to_scanning it : p = Scanning -> checked_it l = Some it -> (it < n)%nat;
}.

Record inv (steps : Z) s (prot : list (nat * item)) : Prop := {
  iv_len : length (pcs s) = length (limbo_lists_ s);
  iv_epoch : exists k, gepoch_ s = 2 * k /\ 0 <= k <= steps;
  iv_thread i l p : thread_at s i l p -> thread_ok (gepoch_ s) (length (limbo_lists_ s)) l p;
  iv_scan i l p it j l' p' : thread_at s i l p -> local_epoch l = gepoch_ s -> checked_it l = Some it -> (j < it)%nat ->
    thread_at s j l' p' -> announced p' = true -> local_epoch l' = gepoch_ s;
  iv_raise i l j l' p' : thread_at s i l Raising -> local_epoch l = gepoch_ s ->
    thread_at s j l' p' -> announced p' = true -> local_epoch l' = gepoch_ s;
  iv_prot j x : (j, x) ∈ prot -> exists l p, thread_at s j l p /\ announced p = true
    /\ forall i l' p' ep, thread_at s i l' p' -> in_bag l' x ep -> local_epoch l <= ep + 2;
}.

(** one thread moves *)
Lemma set_thread_at s i l p j l' p' :
  thread_at (set_thread s i l p) j l' p' -> (j = i /\ l' = l /\ p' = p) \/ (j <> i /\ thread_at s j l' p').
Proof.
  unfold thread_at, set_thread. cbn. intros [Hl Hp].
  apply list_lookup_insert_Some in Hl as [(-> & -> & _)|[Hne Hl]].
  - left. apply list_lookup_insert_Some in Hp as [(_ & -> & _)|[? _]]; done.
  - right. rewrite list_lookup_insert_ne in Hp by done. done.
Qed.

Lemma set_thread_at_same s i l0 p0 l p : thread_at s i l0 p0 -> thread_at (set_thread s i l p) i l p.
Proof.
  intros [Hl Hp]. split; cbn; apply list_lookup_insert_eq; [by apply lookup_lt_Some in Hl|by apply lookup_lt_Some in Hp].
Qed.

Lemma set_thread_at_other s i l p j l' p' : j <> i -> thread_at s j l' p' -> thread_at (set_thread s i l p) j l' p'.
Proof. intros Hne [Hl Hp]. split; cbn; by rewrite list_lookup_insert_ne. Qed.

Lemma thread_at_fun s i l p l' p' : thread_at s i l p -> thread_at s i l' p' -> l' = l /\ p' = p.
Proof. intros [? ?] [? ?]. split; congruence. Qed.

Lemma inv_set steps s prot prot' i l p l' p' :
  inv steps s prot -> thread_at s i l p ->
  thread_ok (gepoch_ s) (length (limbo_lists_ s)) l' p' ->
  (announced p' = true -> local_epoch l' = gepoch_ s \/ (announced p = true /\ local_epoch l' = local_epoch l)) ->
  (forall it j l2 p2, local_epoch l' = gepoch_ s -> checked_it l' = Some it -> (j < it)%nat -> j <> i ->
     thread_at s j l2 p2 -> announced p2 = true -> local_epoch l2 = gepoch_ s) ->
  (forall j l2 p2, p' = Raising -> local_epoch l' = gepoch_ s -> j <> i ->
     thread_at s j l2 p2 -> announced p2 = true -> local_epoch l2 = gepoch_ s) ->
  (forall j x, (j, x) ∈ prot' -> exists l2 p2, thread_at (set_thread s i l' p') j l2 p2 /\ announced p2 = true
     /\ forall k l3 p3 ep, thread_at (set_thread s i l' p') k l3 p3 -> in_bag l3 x ep -> local_epoch l2 <= ep + 2) ->
  inv (steps + 1) (set_thread s i l' p') prot'.
Proof.
  intros [Hlen (k & Hk & Hks) Hth Hsc Hra Hpr] Hi Hok Hann Hscan Hraise Hprot. split.
  - cbn. by rewrite !length_insert.
  - exists k. cbn. split; [done|lia].
  - cbn. rewrite length_insert. intros j l2 p2 [(-> & -> & ->)|[_ ?]]%set_thread_at; [done|by eapply Hth].
  - cbn. intros j l2 p2 it j3 l3 p3 H2 Hloc Hit Hlt H3 Ha.
    apply set_thread_at in H2 as [(-> & -> & ->)|[Hne2 H2]]; apply set_thread_at in H3 as [(-> & -> & ->)|[Hne3 H3]].
    + done.
    + by apply (Hscan it j3 l3 p3).
    + destruct (Hann Ha) as [?|[Hap E]]; [done|]. rewrite E. exact (Hsc _ _ _ _ _ _ _ H2 Hloc Hit Hlt Hi Hap).
    + exact (Hsc _ _ _ _ _ _ _ H2 Hloc Hit Hlt H3 Ha).
  - cbn. intros j l2 j3 l3 p3 H2 Hloc H3 Ha.
    apply set_thread_at in H2 as [(-> & -> & <-)|[Hne2 H2]]; apply set_thread_at in H3 as [(-> & -> & ->)|[Hne3 H3]].
    + done.
    + by apply (Hraise j3 l3 p3).
    + destruct (Hann Ha) as [?|[Hap E]]; [done|]. rewrite E. exact (Hra _ _ _ _ _ H2 Hloc Hi Hap).
    + exact (Hra _ _ _ _ _ H2 Hloc H3 Ha).
  - done.
Qed.

(** the protections that remain, when the thread retires nothing *)
Lemma prot_same steps s prot (prot' : list (nat * item)) i l p l' p' :
  inv steps s prot -> thread_at s i l p ->
  (forall x ep, in_bag l' x ep -> in_bag l x ep) ->
  (forall jx, jx ∈ prot' -> jx ∈ prot) ->
  (forall x, (i, x) ∈ prot' -> announced p = true -> announced p' = true /\ local_epoch l' = local_epoch l) ->
  forall j x, (j, x) ∈ prot' -> exists l2 p2, thread_at (set_thread s i l' p') j l2 p2 /\ announced p2 = true
     /\ forall k l3 p3 ep, thread_at (set_thread s i l' p') k l3 p3 -> in_bag l3 x ep -> local_epoch l2 <= ep + 2.
Proof.
  intros Hinv Hi Hbag Hsub Hself j x Hjx.
  destruct (iv_prot _ _ _ Hinv j x) as (lj & pj & Hj & Ha & Hall); [by apply Hsub|].
  assert (forall k l3 p3 ep, thread_at (set_thread s i l' p') k l3 p3 -> in_bag l3 x ep -> local_epoch lj <= ep + 2) as Hb.
  { intros k l3 p3 ep [(-> & -> & ->)|[_ Hk]]%set_thread_at Hx; [by apply (Hall i l p); [|apply Hbag]|by eapply Hall]. }
  destruct (decide (j = i)) as [->|Hne].
  - destruct (thread_at_fun _ _ _ _ _ _ Hi Hj) as [-> ->]. destruct (Hself x Hjx Ha) as [? E].
    exists l', p'. rewrite E. split; [by eapply set_thread_at_same|]. done.
  - exists lj, pj. split; [by apply set_thread_at_other|]. done.
Qed.

(** only what threads share and own matters *)
Lemma inv_out steps s prot ps fs :
  inv steps s prot -> inv steps (mkState (gepoch_ s) (limbo_lists_ s) (pcs s) ps fs) prot.
Proof. by intros [? ? ? ? ? ?]. Qed.

Lemma at_pc_thread steps s prot i p : inv steps s prot -> at_pc s i p = true -> exists l, thread_at s i l p.
Proof.
  intros Hinv Hp%bool_decide_eq_true_1. destruct (lookup_lt_is_Some_2 (limbo_lists_ s) i) as [l Hl]; [|by exists l].
  rewrite <- (iv_len _ _ _ Hinv). by eapply lookup_lt_Some.
Qed.

(** an operation that goes on saw the global epoch, or the one before *)
Lemma announced_epoch steps s prot i l p :
  inv steps s prot -> thread_at s i l p -> announced p = true ->
  0 <= local_epoch l <= gepoch_ s /\ gepoch_ s <= local_epoch l + 2
  /\ (exists k, local_epoch l = 2 * k) /\ thread_epoch l = local_epoch l.
Proof.
  intros Hinv Hi Ha. destruct (iv_thread _ _ _ Hinv _ _ _ Hi) as [_ _ Hloc Han _ _]. destruct (Han Ha) as [? ?].
  destruct Hloc as [[_ ->]|(k & it & ? & ? & _)]; [done|]. split; [lia|]. split; [done|]. split; [by exists k|done].
Qed.

(** ** The steps *)

(** what a step gives back is used by nobody *)
Definition gives_back s s' (prot : list (nat * item)) : Prop :=
  exists ps fs, given_back s' = given_back s ++ ps /\ ran s' = ran s ++ fs
    /\ (forall q j, q ∈ ps -> (j, inl q) ∉ prot) /\ (forall f j, f ∈ fs -> (j, inr f) ∉ prot).

Lemma gives_nothing s s' prot : given_back s' = given_back s -> ran s' = ran s -> gives_back s s' prot.
Proof.
  intros E1 E2. exists [], []. rewrite E1, E2, !app_nil_r. split; [done|]. split; [done|].
  split; intros ? ? Hx; by apply not_elem_of_nil in Hx.
Qed.

Definition step_good (steps : Z) s e (prot : list (nat * item)) : Prop :=
  exists s', exec s e = Some s' /\ inv (steps + 1) s' (protect s e prot) /\ gives_back s s' prot.

Lemma come_good steps s prot : inv steps s prot -> step_good steps s Come prot.
Proof.
  intros [Hlen (k & Hk & Hks) Hth Hsc Hra Hpr]. eexists. split; [done|]. split; [|by apply gives_nothing].
  assert (forall j l p, thread_at (fst (local s None)) j l p ->
    thread_at s j l p \/ (l = LimboList_new /\ p = Quiet)) as Hold.
  { intros j l p [Hl Hp]. cbn in *. apply lookup_app_Some in Hl as [Hl|[Hj Hl]].
    - left. split; [done|]. rewrite lookup_app_l in Hp; [done|]. rewrite Hlen. by eapply lookup_lt_Some.
    - right. apply list_lookup_singleton_Some in Hl as [_ <-]. rewrite lookup_app_r in Hp by lia.
      by apply list_lookup_singleton_Some in Hp as [_ <-]. }
  split; cbn.
  - rewrite !length_app. cbn. lia.
  - exists k. split; [done|lia].
  - intros j l p [Hj|[-> ->]]%Hold.
    + destruct (Hth _ _ _ Hj) as [? ? Hloc ? ? Hs]. rewrite length_app. split; [done|done| |done|done|].
      * destruct Hloc as [?|(k' & it & ? & ? & ? & ?)]; [by left|]. right. exists k', it. cbn. repeat split; [done|lia|lia|done|lia].
      * intros it Ep Hit. specialize (Hs it Ep Hit). cbn. lia.
    + split; [apply limbo_new_wf| |by left|done|done|done].
      intros [q|f] ep; intros (b & Hb & _); cbn in Hb; by apply not_elem_of_nil in Hb.
  - intros i l p it j l' p' Hi Hloc Hit Hlt Hj Ha. apply Hold in Hj as [Hj|[-> ->]]; [|done].
    apply Hold in Hi as [Hi|[-> ->]]; [|done]. exact (Hsc _ _ _ _ _ _ _ Hi Hloc Hit Hlt Hj Ha).
  - intros i l j l' p' Hi Hloc Hj Ha. apply Hold in Hj as [Hj|[-> ->]]; [|done].
    apply Hold in Hi as [Hi|[_ Hp]]; [|done]. exact (Hra _ _ _ _ _ Hi Hloc Hj Ha).
  - intros j x Hjx. destruct (Hpr j x Hjx) as (l & p & [Hl Hp] & Ha & Hall). exists l, p.
    split; [split; cbn; by apply lookup_app_l_Some|]. split; [done|].
    intros i l' p' ep [Hi|[-> ->]]%Hold Hx; [by eapply Hall|].
    destruct x; destruct Hx as (b & Hb & _); cbn in Hb; by apply not_elem_of_nil in Hb.
Qed.

(** giving back is far behind the announced epochs *)
Lemma far_unprotected steps s prot i l p x j ep :
  inv steps s prot -> steps < 2 ^ 62 -> thread_at s i l p -> in_bag l x ep -> 4 < w64 (gepoch_ s - ep) ->
  (j, x) ∉ prot.
Proof.
  intros Hinv Hst Hi Hx Hfar Hjx. destruct (iv_prot _ _ _ Hinv j x Hjx) as (lj & pj & Hj & Ha & Hall).
  specialize (Hall i l p ep Hi Hx). destruct (announced_epoch _ _ _ _ _ _ Hinv Hj Ha) as (? & ? & _).
  destruct (iv_epoch _ _ _ Hinv) as (k & ? & ?). destruct (iv_thread _ _ _ Hinv _ _ _ Hi) as [_ Hb _ _ _ _].
  specialize (Hb x ep Hx). rewrite wrap_small in Hfar by lia. lia.
Qed.

Lemma load_good steps s prot i nfree :
  inv steps s prot -> steps < 2 ^ 62 -> allowed true s (Load i nfree) = true -> step_good steps s (Load i nfree) prot.
Proof.
  intros Hinv Hst Hal. cbn [allowed] in Hal. apply andb_true_iff in Hal as [[Hpc Hn1]%andb_true_iff Hn2].
  apply Z.ltb_lt in Hn1. apply Z.leb_le in Hn2.
  destruct (at_pc_thread _ _ _ _ _ Hinv Hpc) as [l Hi]. pose proof (iv_thread _ _ _ Hinv _ _ _ Hi) as Hok.
  destruct (iv_epoch _ _ _ Hinv) as (k & Hk & Hks).
  unfold step_good, exec. unfold at_pc in Hpc. rewrite Hpc. cbn [asserting].
  unfold startop_load. rewrite (proj1 Hi), bind_Some.
  set (l1 := if negb (gepoch_ s =? local_epoch l) then _ else _).
  assert (forall x ep, in_bag l1 x ep <-> in_bag l x ep) as Hb1.
  { intros x ep. unfold l1. by destruct (negb _), x. }
  assert (limbo_wf l1) as Hwf1 by (unfold l1; destruct (negb _); apply (to_limbo _ _ _ _ Hok)).
  assert (thread_epoch l1 = thread_epoch l /\ local_epoch l1 = gepoch_ s) as [Ht1 Hl1] by (unfold l1; by destruct (negb _)).
  assert (exists it, checked_it l1 = Some it /\ (it <= length (limbo_lists_ s))%nat
    /\ (it = 0%nat \/ (local_epoch l = gepoch_ s /\ checked_it l = Some it))) as (it & Hit & Hitn & Hit0).
  { unfold l1. destruct (Z.eqb_spec (gepoch_ s) (local_epoch l)) as [E|E]; cbn.
    - destruct (to_local _ _ _ _ Hok) as [[? _]|(k' & it & ? & ? & ? & ?)]; [lia|]. exists it. split; [done|]. split; [done|]. by right.
    - exists 0%nat. split; [done|]. split; [lia|]. by left. }
  clearbody l1.
  destruct (free_spec l1 (gepoch_ s) nfree Hwf1) as (l2 & ps & -> & Hwf2 & Hw2 & Hb2 & Hps & _); [done|].
  rewrite bind_Some.
  destruct (type_free_spec l2 (gepoch_ s) nfree Hwf2) as (l3 & fs & -> & Hwf3 & Hw3 & Hb3 & _ & Hfs); [done|].
  rewrite bind_Some. destruct Hw2 as (_ & Ht2 & Hl2 & Hc2). destruct Hw3 as (_ & Ht3 & Hl3 & Hc3).
  assert (forall x ep, in_bag l3 x ep -> in_bag l x ep) as Hbag by (intros x ep Hx; by apply Hb1, Hb2, Hb3).
  assert (thread_epoch l3 = thread_epoch l /\ local_epoch l3 = gepoch_ s /\ checked_it l3 = Some it) as (Et & El & Ec).
  { rewrite Ht3, Ht2, Ht1, Hl3, Hl2, Hl1, Hc3, Hc2. done. }
  eexists. split; [done|]. split.
  - apply (inv_out _ (set_thread s i l3 Loaded)). apply (inv_set _ _ prot _ i l Quiet); [done|done| |done| |done|].
    + split.
      * done.
      * intros x ep Hx. by apply (to_bags _ _ _ _ Hok x), Hbag.
      * right. exists k, it. rewrite El. split; [done|]. split; [lia|]. done.
      * done.
      * intros _. rewrite Et. by apply (to_quiet _ _ _ _ Hok).
      * done.
    + intros it' j l2' p2 _ Hc' Hlt Hne Hj Ha. rewrite Ec in Hc'. injection Hc' as <-.
      destruct Hit0 as [->|[E E']]; [lia|]. exact (iv_scan _ _ _ Hinv _ _ _ _ _ _ _ Hi E E' Hlt Hj Ha).
    + apply (prot_same steps _ prot _ _ l Quiet); done.
  - exists ps, fs. cbn. split; [done|]. split; [done|]. split.
    + intros q j Hq. destruct (Hps q Hq) as (ep & Hx & Hfar). apply (far_unprotected steps s _ i l Quiet _ _ ep); [done|done|done| |done].
      by apply Hb1.
    + intros f j Hf. destruct (Hfs f Hf) as (ep & Hx & Hfar). apply (far_unprotected steps s _ i l Quiet _ _ ep); [done|done|done| |done].
      by apply Hb1, Hb2.
Qed.

(** a thread announces the current epoch *)
Lemma announce_good steps s prot i :
  inv steps s prot -> allowed true s (Announce i) = true -> step_good steps s (Announce i) prot.
Proof.
  intros Hinv Hal. cbn [allowed] in Hal. apply andb_true_iff in Hal as [Hpc Hp]. cbn in Hp. apply bool_decide_eq_true_1 in Hp.
  destruct (at_pc_thread _ _ _ _ _ Hinv Hpc) as [l Hi]. pose proof (iv_thread _ _ _ Hinv _ _ _ Hi) as Hok.
  rewrite (proj1 Hi) in Hp. injection Hp as Hp. destruct (iv_epoch _ _ _ Hinv) as (k & Hk & Hks).
  destruct (to_local _ _ _ _ Hok) as [[? _]|(k' & it & Hl & Hl' & Hit & Hn)]; [lia|].
  unfold step_good, exec. unfold at_pc in Hpc. rewrite Hpc. cbn [asserting].
  unfold startop_announce. rewrite (proj1 Hi), bind_Some.
  eexists. split; [done|]. split; [|by apply gives_nothing].
  apply (inv_set _ _ prot _ i l Loaded); [done|done| | | |done|].
  - split; cbn; [apply (to_limbo _ _ _ _ Hok)| | | |done|done].
    + intros x ep Hx. apply (to_bags _ _ _ _ Hok x). by destruct x.
    + right. by exists k', it.
    + intros _. split; [done|lia].
  - by left.
  - intros it' j l2 p2 E Hit' Hlt Hne Hj Ha. exact (iv_scan _ _ _ Hinv _ _ _ _ _ _ _ Hi E Hit' Hlt Hj Ha).
  - apply (prot_same steps _ prot _ _ l Loaded); [done|done| |done|done].
    intros x ep Hx. by destruct x.
Qed.

(** a thread that is announced goes on to [p'], its bags, epochs and iterator as they were *)
Lemma go_on steps s prot i l p l' p' :
  inv steps s prot -> thread_at s i l p -> announced p = true -> announced p' = true -> p' <> Raising ->
  (forall x ep, in_bag l' x ep -> in_bag l x ep) -> limbo_wf l' ->
  thread_epoch l' = thread_epoch l -> local_epoch l' = local_epoch l -> checked_it l' = checked_it l ->
  (forall it, p' = Scanning -> checked_it l = Some it -> (it < length (limbo_lists_ s))%nat) ->
  inv (steps + 1) (set_thread s i l' p') prot.
Proof.
  intros Hinv Hi Ha Ha' Hnr Hbag Hwf Ht El Ec Hscan. pose proof (iv_thread _ _ _ Hinv _ _ _ Hi) as [_ Hb Hloc Han _ _].
  apply (inv_set _ _ prot _ i l p); [done|done| | | |by intros|].
  - split; rewrite ?Ht, ?El, ?Ec; [done| | |by intros _; apply Han|congruence|].
    + intros x ep Hx. by apply (Hb x), Hbag.
    + destruct Hloc as [[_ ->]|?]; [done|by right].
    + intros it Ep. by apply Hscan.
  - intros _. right. done.
  - rewrite El, Ec. intros it' j l2 p2 E Hit' Hj Hne H2 Ha2. exact (iv_scan _ _ _ Hinv _ _ _ _ _ _ _ Hi E Hit' Hj H2 Ha2).
  - by apply (prot_same steps _ prot _ _ l p).
Qed.

Lemma count_good steps s prot i :
  inv steps s prot -> allowed true s (Count i) = true -> step_good steps s (Count i) prot.
Proof.
  intros Hinv Hpc. cbn [allowed] in Hpc. destruct (at_pc_thread _ _ _ _ _ Hinv Hpc) as [l Hi].
  pose proof (iv_thread _ _ _ Hinv _ _ _ Hi) as Hok.
  destruct (to_local _ _ _ _ Hok) as [[_ ?]|(_ & it & _ & _ & Hit & Hn)]; [done|].
  unfold step_good, exec. unfold at_pc in Hpc. rewrite Hpc. cbn [asserting].
  unfold startop_count. rewrite (proj1 Hi), bind_Some.
  assert (forall n p', (p' = Active \/ (p' = Scanning /\ (it < length (limbo_lists_ s))%nat)) ->
    inv (steps + 1) (set_thread s i (with_opcount l n) p') prot) as Hset.
  { intros n p' Hp'. apply (go_on _ _ _ _ l Announced); try done; try by destruct Hp' as [->|[-> _]].
    - apply (to_limbo _ _ _ _ Hok).
    - intros it' -> Hit'. rewrite Hit in Hit'. injection Hit' as <-. by destruct Hp' as [?|[_ ?]]. }
  cbn zeta. destruct (opcount (with_opcount l (opcount l + 1)) =? kOpThreshold).
  - cbn [with_opcount checked_it]. rewrite Hit, bind_Some.
    eexists. split; [done|]. split; [|by apply gives_nothing]. apply (Hset 0).
    destruct (bool_decide (it = length (limbo_lists_ s))) eqn:Hlen; [by left|right].
    split; [done|]. apply bool_decide_eq_false_1 in Hlen. lia.
  - eexists. split; [done|]. split; [|by apply gives_nothing]. apply Hset. by left.
Qed.

Lemma scan_good steps s prot i :
  inv steps s prot -> steps < 2 ^ 62 -> allowed true s (Scan i) = true -> step_good steps s (Scan i) prot.
Proof.
  intros Hinv Hst Hpc. cbn [allowed] in Hpc. destruct (at_pc_thread _ _ _ _ _ Hinv Hpc) as [l Hi].
  pose proof (iv_thread _ _ _ Hinv _ _ _ Hi) as Hok.
  destruct (announced_epoch _ _ _ _ _ _ Hinv Hi eq_refl) as (Hr1 & Hr2 & (k & Hk) & Ht).
  destruct (iv_epoch _ _ _ Hinv) as (kg & Hkg & Hks).
  destruct (to_local _ _ _ _ Hok) as [[? _]|(_ & it & _ & _ & Hit & _)]; [lia|].
  pose proof (to_scanning _ _ _ _ Hok it eq_refl Hit) as Hlt.
  unfold step_good, exec. unfold at_pc in Hpc. rewrite Hpc. cbn [asserting].
  unfold startop_scan. rewrite (proj1 Hi), bind_Some, Hit, bind_Some.
  destruct (lookup_lt_is_Some_2 _ _ Hlt) as [lo Hlo]. rewrite Hlo, bind_Some.
  destruct (lookup_lt_is_Some_2 (pcs s) it) as [po Hpo]; [by rewrite (iv_len _ _ _ Hinv)|].
  assert (thread_at s it lo po) as Ho by done. cbn zeta.
  destruct ((real_epoch (thread_epoch lo) =? local_epoch l) || is_quiescent (thread_epoch lo)) eqn:Etest;
    (eexists; split; [done|]; split; [|by apply gives_nothing]).
  - apply (inv_set _ _ prot _ i l Scanning); [done|done| |by right| |done|].
    + split; cbn; [apply (to_limbo _ _ _ _ Hok)| | |intros _; split; [done|lia]|done|done].
      * intros x ep Hx. apply (to_bags _ _ _ _ Hok x). by destruct x.
      * right. exists k, (S it). split; [done|]. split; [lia|]. split; [done|lia].
    + cbn. intros it' j l2 p2 E [= <-] Hj Hne H2 Ha. destruct (decide (j = it)) as [->|Hne'].
      * destruct (thread_at_fun _ _ _ _ _ _ Ho H2) as [-> ->].
        destruct (announced_epoch _ _ _ _ _ _ Hinv Ho Ha) as (? & ? & (k2 & Hk2) & Ht2).
        rewrite Ht2, Hk2, quiescent_even, orb_false_r, real_epoch_even in Etest by lia. apply Z.eqb_eq in Etest. lia.
      * refine (iv_scan _ _ _ Hinv _ _ _ _ _ _ _ Hi E Hit _ H2 Ha). lia.
    + apply (prot_same steps _ prot _ _ l Scanning); [done|done| |done|done].
      intros x ep Hx. by destruct x.
  - by apply (go_on _ _ _ _ l Scanning); try apply (to_limbo _ _ _ _ Hok).
Qed.

(** the last list was looked at: every operation that goes on saw the global epoch *)
Lemma last_good steps s prot i :
  inv steps s prot -> allowed true s (Last i) = true -> step_good steps s (Last i) prot.
Proof.
  intros Hinv Hpc. cbn [allowed] in Hpc. destruct (at_pc_thread _ _ _ _ _ Hinv Hpc) as [l Hi].
  pose proof (iv_thread _ _ _ Hinv _ _ _ Hi) as Hok.
  destruct (to_local _ _ _ _ Hok) as [[_ ?]|(k & it & Hl & Hl' & Hit & Hn)]; [done|].
  unfold step_good, exec. unfold at_pc in Hpc. rewrite Hpc. cbn [asserting].
  unfold startop_last. rewrite (proj1 Hi), bind_Some, Hit, bind_Some.
  eexists. split; [done|]. split; [|by apply gives_nothing].
  destruct (bool_decide (it = length (limbo_lists_ s))) eqn:Hlen.
  - apply bool_decide_eq_true_1 in Hlen. destruct Hok as [Hwf Hb Hloc Han Hq Hs].
    apply (inv_set _ _ prot _ i l Scanned); [done|done| |by right| | |].
    + split; [done|done| |by intros _; apply Han|done|done]. right. by exists k, it.
    + intros it' j l2 p2 E Hit' Hj Hne H2 Ha. exact (iv_scan _ _ _ Hinv _ _ _ _ _ _ _ Hi E Hit' Hj H2 Ha).
    + intros j l2 p2 _ E Hne H2 Ha. refine (iv_scan _ _ _ Hinv _ _ _ _ _ _ _ Hi E Hit _ H2 Ha).
      rewrite Hlen. apply (lookup_lt_Some _ _ _ (proj1 H2)).
    + by apply (prot_same steps _ prot _ _ l Scanned).
  - by apply (go_on _ _ _ _ l Scanned); try apply (to_limbo _ _ _ _ Hok).
Qed.

(** the global epoch moves on when every operation that goes on saw it *)
Lemma raise_inv steps s prot :
  inv (steps + 1) s prot -> gepoch_ s <= 2 * steps -> steps < 2 ^ 62 ->
  (forall j l p, thread_at s j l p -> announced p = true -> local_epoch l = gepoch_ s) ->
  inv (steps + 1)
    (mkState (w64 (gepoch_ s + kEpochIncrement)) (limbo_lists_ s) (pcs s) (given_back s) (ran s)) prot.
Proof.
  intros Hinv HG Hst Hall. destruct (iv_epoch _ _ _ Hinv) as (k & Hk & Hks).
  pose proof (fun i l p => iv_thread _ _ _ Hinv i l p) as Hth. destruct Hinv as [Hlen _ _ _ _ Hpr].
  assert (w64 (gepoch_ s + kEpochIncrement) = gepoch_ s + 2) as Ew.
  { unfold kEpochIncrement. apply wrap_small. lia. }
  rewrite Ew. assert (forall i l p, thread_at s i l p -> local_epoch l <= gepoch_ s \/ (local_epoch l = 1 /\ p = Quiet)) as Hle.
  { intros i l p Hi. destruct (to_local _ _ _ _ (Hth _ _ _ Hi)) as [?|(? & ? & ? & ? & _)]; [by right|]. left. lia. }
  assert (forall i l p, thread_at s i l p -> local_epoch l <> gepoch_ s + 2) as Hne.
  { intros i l p Hi E. destruct (Hle _ _ _ Hi) as [?|[? _]]; lia. }
  split; cbn.
  - done.
  - exists (k + 1). split; lia.
  - intros i l p Hi. change (thread_at s i l p) in Hi. destruct (Hth _ _ _ Hi) as [? Hb Hl Ha ? ?]. split; [done| | | |done|done].
    + intros x ep Hx. specialize (Hb x ep Hx). lia.
    + destruct Hl as [?|(k' & it & ? & ? & ? & ?)]; [by left|]. right. exists k', it. split; [done|]. split; [lia|done].
    + intros Hp. destruct (Ha Hp) as [? _]. split; [done|]. rewrite (Hall i l p Hi Hp). lia.
  - intros i l p it j l' p' Hi E. by destruct (Hne i l p Hi).
  - intros i l j l' p' Hi E. by destruct (Hne i l _ Hi).
  - done.
Qed.

(** only the place in the program changes *)
Lemma to_active steps s prot i l p :
  inv steps s prot -> thread_at s i l p -> announced p = true -> inv (steps + 1) (set_thread s i l Active) prot.
Proof.
  intros Hinv Hi Ha. pose proof (iv_thread _ _ _ Hinv _ _ _ Hi) as Hok.
  by apply (go_on _ _ _ _ l p); try apply (to_limbo _ _ _ _ Hok).
Qed.

Lemma raise_good steps s prot i :
  inv steps s prot -> steps < 2 ^ 62 -> allowed true s (Raise i) = true -> step_good steps s (Raise i) prot.
Proof.
  intros Hinv Hst Hpc. cbn [allowed] in Hpc. destruct (at_pc_thread _ _ _ _ _ Hinv Hpc) as [l Hi].
  destruct (iv_epoch _ _ _ Hinv) as (kg & Hkg & Hks).
  pose proof (to_active _ _ _ _ _ _ Hinv Hi eq_refl) as Hact.
  unfold step_good, exec. unfold at_pc in Hpc. rewrite Hpc. cbn [asserting].
  unfold startop_raise. rewrite (proj1 Hi), bind_Some. cbn [gepoch_ set_thread].
  destruct (Z.eqb_spec (gepoch_ s) (local_epoch l)) as [E|_].
  - eexists. split; [done|]. split; [|by apply gives_nothing]. rewrite <- E.
    apply (raise_inv steps (set_thread s i l Active) prot Hact); [cbn; lia|done|].
    cbn. intros j l2 p2 [(-> & -> & _)|[_ H2]]%set_thread_at Ha; [done|].
    by apply (iv_raise _ _ _ Hinv _ _ _ _ _ Hi (eq_sym E) H2).
  - eexists. split; [done|]. split; [|by apply gives_nothing]. done.
Qed.

Lemma in_bag_waiting s i l p x ep : thread_at s i l p -> in_bag l x ep -> waiting s x = true.
Proof.
  intros [Hl _] Hx. apply existsb_exists. exists l. split; [by eapply list_elem_of_In, list_elem_of_lookup_2|].
  assert (forall (bs : bags Z) (q : Z), (exists b, b ∈ retired bs /\ Some q ∈ rest b /\ epoch b = ep) -> q ∈ items bs) as Hin.
  { intros bs q (b & Hb & Hq & _). unfold items. apply list_elem_of_omap. exists (Some q). split; [|done].
    apply list_elem_of_join. exists (rest b). split; [done|]. by apply list_elem_of_fmap_2. }
  destruct x; apply bool_decide_eq_true_2; by apply Hin.
Qed.

Lemma user_thread steps s prot j : inv steps s prot -> j ∈ users s -> exists l p, thread_at s j l p /\ announced p = true.
Proof.
  intros Hinv [Hu _]%list_elem_of_filter. unfold user in Hu. destruct (pcs s !! j) as [p|] eqn:Hp; [|done].
  destruct (lookup_lt_is_Some_2 (limbo_lists_ s) j) as [l Hl].
  { rewrite <- (iv_len _ _ _ Hinv). by eapply lookup_lt_Some. }
  by exists l, p.
Qed.

(** retiring [x], which does not wait to be given back *)
Lemma retire_inv steps s prot i l l' x :
  inv steps s prot -> thread_at s i l Active -> waiting s x = false -> added l l' x ->
  inv (steps + 1) (set_thread s i l' Active) (((fun j => (j, x)) <$> users s) ++ prot).
Proof.
  intros Hinv Hi Hw (Hwf & (_ & Ht & El & Ec) & Hin). pose proof (iv_thread _ _ _ Hinv _ _ _ Hi) as Hok.
  destruct (announced_epoch _ _ _ _ _ _ Hinv Hi eq_refl) as (Hr1 & Hr2 & _ & _).
  assert (forall k lk pk ep, thread_at s k lk pk -> in_bag lk x ep -> False) as Hfresh.
  { intros k lk pk ep Hk Hx. by rewrite (in_bag_waiting _ _ _ _ _ _ Hk Hx) in Hw. }
  apply (inv_set _ _ prot _ i l Active); [done|done| | | |done|].
  - destruct Hok as [_ Hb Hloc Han Hq Hs]. split; rewrite ?El, ?Ec, ?Ht; [done| |done|done|done|done].
    intros y ep [[_ ->]|(e0 & Hy & [->| ->])]%Hin; [lia| |lia]. by apply (Hb y).
  - intros _. right. by rewrite El.
  - intros it j l2 p2 E Hit Hlt Hne H2 Ha. rewrite El in E. rewrite Ec in Hit.
    exact (iv_scan _ _ _ Hinv _ _ _ _ _ _ _ Hi E Hit Hlt H2 Ha).
  - assert (forall j y, (j, y) ∈ ((fun j => (j, x)) <$> users s) ++ prot ->
      exists l2 p2, thread_at s j l2 p2 /\ announced p2 = true
        /\ forall k l3 p3 ep, thread_at s k l3 p3 -> in_bag l3 y ep -> local_epoch l2 <= ep + 2) as Hpr.
    { intros j y [Hjy|Hjy]%elem_of_app; [|by apply (iv_prot _ _ _ Hinv)].
      apply list_elem_of_fmap in Hjy as (j' & [= <- ->] & Hu).
      destruct (user_thread _ _ _ _ Hinv Hu) as (l2 & p2 & H2 & Ha). exists l2, p2. split; [done|]. split; [done|].
      intros k l3 p3 ep H3 Hx. by destruct (Hfresh _ _ _ _ H3 Hx). }
    intros j y Hjy. destruct (Hpr j y Hjy) as (l2 & p2 & H2 & Ha & Hall).
    destruct (announced_epoch _ _ _ _ _ _ Hinv H2 Ha) as (Hr & _ & _).
    assert (forall k l3 p3 ep, thread_at (set_thread s i l' Active) k l3 p3 -> in_bag l3 y ep -> local_epoch l2 <= ep + 2) as Hb.
    { intros k l3 p3 ep [(-> & -> & ->)|[_ H3]]%set_thread_at Hy; [|by apply (Hall k l3 p3)].
      apply Hin in Hy as [[_ ->]|(e0 & Hy & [->| ->])]; [lia| |lia]. by apply (Hall i l Active). }
    destruct (decide (j = i)) as [->|Hne].
    + destruct (thread_at_fun _ _ _ _ _ _ Hi H2) as [-> ->]. exists l', Active. rewrite El.
      split; [by eapply set_thread_at_same|]. done.
    + exists l2, p2. split; [by apply set_thread_at_other|]. done.
Qed.

Lemma retire_good steps s prot i q :
  inv steps s prot -> allowed true s (Retire i q) = true -> step_good steps s (Retire i q) prot.
Proof.
  intros Hinv Hal.
  assert (at_pc s i Active = true) as Hpc by (destruct q; cbn in Hal; [by apply andb_true_iff in Hal as [? _]|done]).
  destruct (at_pc_thread _ _ _ _ _ Hinv Hpc) as [l Hi]. pose proof (iv_thread _ _ _ Hinv _ _ _ Hi) as Hok.
  unfold step_good, exec. pose proof Hpc as Hpc'. unfold at_pc in Hpc'. rewrite Hpc'. cbn [asserting].
  unfold retire. rewrite (proj1 Hi), bind_Some. destruct q as [q|].
  - cbn in Hal. apply andb_true_iff in Hal as [_ Hw%negb_true_iff].
    destruct (add_spec l q (to_limbo _ _ _ _ Hok)) as (l' & -> & Hadd). rewrite bind_Some.
    eexists. split; [done|]. split; [|by apply gives_nothing]. by apply (retire_inv _ _ _ _ l).
  - eexists. split; [done|]. split; [|by apply gives_nothing].
    pose proof (to_active _ _ _ _ _ _ Hinv Hi eq_refl) as Hact. unfold set_thread in Hact.
    rewrite !list_insert_id in Hact by apply Hi. by destruct s.
Qed.

Lemma retire_func_good steps s prot i f :
  inv steps s prot -> allowed true s (RetireFunc i f) = true -> step_good steps s (RetireFunc i f) prot.
Proof.
  intros Hinv Hal. cbn [allowed] in Hal. apply andb_true_iff in Hal as [Hpc Hw%negb_true_iff].
  destruct (at_pc_thread _ _ _ _ _ Hinv Hpc) as [l Hi]. pose proof (iv_thread _ _ _ Hinv _ _ _ Hi) as Hok.
  unfold step_good, exec. unfold at_pc in Hpc. rewrite Hpc. cbn [asserting].
  unfold retire_func. rewrite (proj1 Hi), bind_Some.
  destruct (add_func_spec l f (to_limbo _ _ _ _ Hok)) as (l' & -> & Hadd). rewrite bind_Some.
  eexists. split; [done|]. split; [|by apply gives_nothing]. by apply (retire_inv _ _ _ _ l).
Qed.

Lemma end_good steps s prot i :
  inv steps s prot -> allowed true s (End i) = true -> step_good steps s (End i) prot.
Proof.
  intros Hinv Hpc. cbn [allowed] in Hpc. destruct (at_pc_thread _ _ _ _ _ Hinv Hpc) as [l Hi].
  destruct (iv_thread _ _ _ Hinv _ _ _ Hi) as [Hwf Hb Hl Han Hq Hs].
  unfold step_good, exec. unfold at_pc in Hpc. rewrite Hpc. cbn [asserting].
  unfold endop. rewrite (proj1 Hi), bind_Some. eexists. split; [done|]. split; [|by apply gives_nothing].
  apply (inv_set _ _ prot _ i l Active); [done|done| |done| |done|].
  - split; cbn; [done| | |done| |done].
    + intros x ep Hx. apply (Hb x). by destruct x.
    + destruct Hl as [[_ ?]|?]; [done|]. by right.
    + intros _. apply quiescent_with.
  - intros it j l2 p2 E Hit Hlt Hne H2 Ha. exact (iv_scan _ _ _ Hinv _ _ _ _ _ _ _ Hi E Hit Hlt H2 Ha).
  - apply (prot_same steps _ prot _ _ l Active); [done|done| | |].
    + intros x ep Hx. by destruct x.
    + cbn. by intros jx [_ ?]%list_elem_of_filter.
    + cbn. intros x [Hne _]%list_elem_of_filter. done.
Qed.

(** every step that a thread may take succeeds, keeps the invariant, and gives back
    nothing that is in use *)
Lemma exec_good steps s prot e :
  inv steps s prot -> steps < 2 ^ 62 -> allowed true s e = true -> step_good steps s e prot.
Proof.
  intros Hinv Hst Hal. destruct e.
  - by apply come_good.
  - by apply load_good.
  - by apply announce_good.
  - by apply count_good.
  - by apply scan_good.
  - by apply last_good.
  - by apply raise_good.
  - by apply retire_good.
  - by apply retire_func_good.
  - by apply end_good.
Qed.

Lemma inv_init : inv 0 EpochDetail [].
Proof.
  split; cbn.
  - done.
  - by exists 0.
  - by intros i l p [? _].
  - by intros i l p it j l' p' [? _].
  - by intros i l j l' p' [? _].
  - intros j x Hx. by apply not_elem_of_nil in Hx.
Qed.

Lemma run_inv tr steps s prot s' prot' :
  inv steps s prot -> steps + Z.of_nat (length tr) < 2 ^ 62 -> run true tr s prot = Some (s', prot') ->
  inv (steps + Z.of_nat (length tr)) s' prot'.
Proof.
  revert steps s prot. induction tr as [|e tr IH]; intros steps s prot Hinv Hst Hrun; cbn [run length] in *.
  - injection Hrun as <- <-. by rewrite Z.add_0_r.
  - apply asserting_Some in Hrun as [Hal Hrun].
    destruct (exec_good steps s prot e Hinv) as (s1 & E & Hinv1 & _); [lia|done|].
    rewrite E, bind_Some in Hrun. replace (steps + _) with ((steps + 1) + Z.of_nat (length tr)) by lia.
    apply (IH _ s1 (protect s e prot)); [done|lia|done].
Qed.

(** ** A whole operation, whatever the others did before

    Without promptness the epochs may be anything, but nothing gets stuck. *)

Record thread_sane (n : nat) l p : Prop := {
  ts_limbo : limbo_wf l;
  ts_local : (local_epoch l = 1 /\ p = Quiet)
    \/ exists k it, local_epoch l = 2 * k /\ checked_it l = Some it /\ (it <= n)%nat;
  ts_announced : announced p = true -> thread_epoch l = local_epoch l;
  ts_scanning it : p = Scanning -> checked_it l = Some it -> (it < n)%nat;
}.

Record sane s : Prop := {
  sn_len : length (pcs s) = length (limbo_lists_ s);
  sn_epoch : exists k, gepoch_ s = 2 * k;
  sn_thread i l p : thread_at s i l p -> thread_sane (length (limbo_lists_ s)) l p;
}.

Lemma sane_init : sane EpochDetail.
Proof. split; [done|by exists 0|by intros i l p [? _]]. Qed.

Lemma sane_set s i l p : sane s -> thread_sane (length (limbo_lists_ s)) l p -> sane (set_thread s i l p).
Proof.
  intros [Hlen Hk Hth] Hok. split; cbn; [by rewrite !length_insert|done|].
  rewrite length_insert. intros j l2 p2 [(-> & -> & ->)|[_ ?]]%set_thread_at; [done|by eapply Hth].
Qed.

(** a thread at its place *)
Lemma sane_at s i p : sane s -> at_pc s i p = true ->
  exists l, limbo_lists_ s !! i = Some l /\ thread_sane (length (limbo_lists_ s)) l p.
Proof.
  intros Hs Hp%bool_decide_eq_true_1. destruct (lookup_lt_is_Some_2 (limbo_lists_ s) i) as [l Hl].
  { rewrite <- (sn_len _ Hs). by eapply lookup_lt_Some. }
  exists l. split; [done|]. by apply (sn_thread _ Hs i).
Qed.

Lemma sane_started n l p :
  thread_sane n l p -> p <> Quiet -> exists k it, local_epoch l = 2 * k /\ checked_it l = Some it /\ (it <= n)%nat.
Proof. intros [_ [[_ ?]|?] _ _] Hp; done. Qed.

Lemma set_thread_pc s i l p q : at_pc s i q = true -> at_pc (set_thread s i l p) i p = true.
Proof. intros Hi%bool_decide_eq_true_1%lookup_lt_Some. apply bool_decide_eq_true_2. cbn. by apply list_lookup_insert_eq. Qed.

Lemma sane_load s i nfree :
  sane s -> at_pc s i Quiet = true -> 0 < nfree <= kBagSize ->
  exists s', startop_load s i nfree = Some s' /\ sane s' /\ at_pc s' i Loaded = true.
Proof.
  intros Hs Hpc Hn. destruct (sane_at _ _ _ Hs Hpc) as (l & Hl & [Hwf Hloc Han Hsc]). destruct (sn_epoch _ Hs) as [k Hk].
  unfold startop_load. rewrite Hl, bind_Some. set (l1 := if negb (gepoch_ s =? local_epoch l) then _ else _).
  assert (limbo_wf l1 /\ local_epoch l1 = gepoch_ s /\ exists it, checked_it l1 = Some it /\ (it <= length (limbo_lists_ s))%nat)
    as (Hwf1 & Hl1 & it & Hit & Hle).
  { unfold l1. destruct (Z.eqb_spec (gepoch_ s) (local_epoch l)) as [E|E]; cbn; (split; [done|]); (split; [done|]).
    - destruct Hloc as [[? _]|(k' & it & ? & ? & ?)]; [lia|by exists it].
    - exists 0%nat. split; [done|lia]. }
  clearbody l1. destruct (free_spec l1 (gepoch_ s) nfree Hwf1 Hn) as (l2 & ps & -> & Hwf2 & (_ & _ & Hl2 & Hc2) & _). rewrite bind_Some.
  destruct (type_free_spec l2 (gepoch_ s) nfree Hwf2 Hn) as (l3 & fs & -> & Hwf3 & (_ & _ & Hl3 & Hc3) & _). rewrite bind_Some.
  eexists. split; [done|]. split; [|by apply (set_thread_pc s i l3 Loaded Quiet)].
  assert (sane (set_thread s i l3 Loaded)) as [? ? ?]; [|by split]. apply sane_set; [done|]. split; [done| |done|done].
  right. exists k, it. rewrite Hl3, Hl2, Hl1, Hc3, Hc2. done.
Qed.

Lemma sane_announce s i :
  sane s -> at_pc s i Loaded = true ->
  exists s', startop_announce s i = Some s' /\ sane s' /\ at_pc s' i Announced = true.
Proof.
  intros Hs Hpc. destruct (sane_at _ _ _ Hs Hpc) as (l & Hl & Hok). unfold startop_announce. rewrite Hl, bind_Some.
  eexists. split; [done|]. split; [|by eapply set_thread_pc]. apply sane_set; [done|].
  pose proof (sane_started _ _ _ Hok) as Hst. destruct Hok. split; [done|by right; apply Hst|done|done].
Qed.

Lemma sane_count s i :
  sane s -> at_pc s i Announced = true ->
  exists s', startop_count s i = Some s' /\ sane s' /\ (at_pc s' i Active = true \/ at_pc s' i Scanning = true).
Proof.
  intros Hs Hpc. destruct (sane_at _ _ _ Hs Hpc) as (l & Hl & Hok). unfold startop_count. rewrite Hl, bind_Some.
  destruct (sane_started _ _ _ Hok) as (k & it & Hk & Hit & Hle); [done|]. destruct Hok as [Hwf _ Han _].
  assert (forall n p', (p' = Active \/ (p' = Scanning /\ (it < length (limbo_lists_ s))%nat)) ->
    sane (set_thread s i (with_opcount l n) p')) as Hset.
  { intros n p' Hp'. apply sane_set; [done|]. split; cbn; [done|by right; exists k, it|by intros _; apply Han|].
    intros it' Ep. rewrite Hit. intros [= <-]. destruct Hp' as [?|[_ ?]]; [congruence|done]. }
  cbn zeta. destruct (opcount (with_opcount l (opcount l + 1)) =? kOpThreshold).
  - cbn [with_opcount checked_it]. rewrite Hit, bind_Some. eexists. split; [done|]. split.
    + apply (Hset 0). case_bool_decide; [by left|right; split; [done|lia]].
    + case_bool_decide; [left|right]; by eapply set_thread_pc.
  - eexists. split; [done|]. split; [by apply Hset; left|left; by eapply set_thread_pc].
Qed.

Lemma sane_scan s i :
  sane s -> at_pc s i Scanning = true ->
  exists s', startop_scan s i = Some s' /\ sane s' /\ (at_pc s' i Active = true \/ at_pc s' i Scanned = true).
Proof.
  intros Hs Hpc. destruct (sane_at _ _ _ Hs Hpc) as (l & Hl & Hok). unfold startop_scan. rewrite Hl, bind_Some.
  destruct (sane_started _ _ _ Hok) as (k & it & Hk & Hit & Hle); [done|]. destruct Hok as [Hwf _ Han Hsc].
  rewrite Hit, bind_Some. pose proof (Hsc it eq_refl Hit) as Hlt. destruct (lookup_lt_is_Some_2 _ _ Hlt) as [lo ->]. rewrite bind_Some.
  cbn zeta. destruct (_ || _); (eexists; split; [done|]; split; [apply sane_set; [done|]; split|]); try done.
  - right. exists k, (S it). split; [done|]. split; [done|lia].
  - right. by eapply set_thread_pc.
  - right. by exists k, it.
  - left. by eapply set_thread_pc.
Qed.

Lemma sane_last s i :
  sane s -> at_pc s i Scanned = true ->
  exists s', startop_last s i = Some s' /\ sane s' /\ (at_pc s' i Active = true \/ at_pc s' i Raising = true).
Proof.
  intros Hs Hpc. destruct (sane_at _ _ _ Hs Hpc) as (l & Hl & Hok). unfold startop_last. rewrite Hl, bind_Some.
  destruct (sane_started _ _ _ Hok) as (k & it & Hk & Hit & Hle); [done|]. destruct Hok as [Hwf _ Han Hsc].
  rewrite Hit, bind_Some. eexists. split; [done|]. split.
  - apply sane_set; [done|]. split; [done|by right; exists k, it|by intros _; apply Han|by case_bool_decide].
  - case_bool_decide; [right|left]; by eapply set_thread_pc.
Qed.

Lemma sane_raise s i :
  sane s -> at_pc s i Raising = true ->
  exists s', startop_raise s i = Some s' /\ sane s' /\ at_pc s' i Active = true.
Proof.
  intros Hs Hpc. destruct (sane_at _ _ _ Hs Hpc) as (l & Hl & Hok). unfold startop_raise. rewrite Hl, bind_Some.
  destruct (sane_started _ _ _ Hok) as (k & it & Hk & Hit & Hle); [done|].
  assert (sane (set_thread s i l Active)) as Hs'.
  { apply sane_set; [done|]. destruct Hok as [Hwf _ Han Hsc]. split; [done|by right; exists k, it|by intros _; apply Han|done]. }
  cbn zeta. destruct (_ =? _); (eexists; split; [done|]); (split; [|by apply (set_thread_pc s i l Active Raising)]); [|done].
  destruct Hs' as [H1 _ H3]. split; [done| |done]. exists ((k + 1) mod 2 ^ 63). cbn [gepoch_]. rewrite Hk. unfold wrap, kEpochIncrement.
  replace (2 * k + 2) with (2 * (k + 1)) by lia. by rewrite <- Z.mul_mod_distr_l.
Qed.

(** one step of any thread *)
Lemma sane_exec s e s' : sane s -> allowed false s e = true -> exec s e = Some s' -> sane s'.
Proof.
  intros Hs Hal He. destruct e as [|i nfree|i|i|i|i|i|i q|i f|i]; cbn [exec allowed] in *;
    try apply asserting_Some in He as [Hpc He].
  - injection He as <-. destruct Hs as [Hlen Hk Hth]. split; cbn; [rewrite !length_app; cbn; lia|done|].
    intros j l p [Hl Hp]. rewrite length_app. cbn in *. apply lookup_app_Some in Hl as [Hl|[Hj Hl]].
    + rewrite lookup_app_l in Hp by (rewrite Hlen; by eapply lookup_lt_Some). destruct (Hth j l p (conj Hl Hp)) as [? Hloc ? Hsc].
      split; [done| |done|]; [|intros it Ep Hit; specialize (Hsc it Ep Hit); lia].
      destruct Hloc as [?|(k & it & ? & ? & ?)]; [by left|]. right. exists k, it. split; [done|]. split; [done|lia].
    + apply list_lookup_singleton_Some in Hl as [_ <-]. rewrite lookup_app_r in Hp by lia.
      apply list_lookup_singleton_Some in Hp as [_ <-]. split; [apply limbo_new_wf|by left|done|done].
  - apply andb_true_iff in Hal as [[_ Hn1%Z.ltb_lt]%andb_true_iff Hn2%Z.leb_le].
    destruct (sane_load s i nfree Hs Hpc) as (s1 & E & ? & _); [done|congruence].
  - destruct (sane_announce s i Hs Hpc) as (s1 & E & ? & _). congruence.
  - destruct (sane_count s i Hs Hpc) as (s1 & E & ? & _). congruence.
  - destruct (sane_scan s i Hs Hpc) as (s1 & E & ? & _). congruence.
  - destruct (sane_last s i Hs Hpc) as (s1 & E & ? & _). congruence.
  - destruct (sane_raise s i Hs Hpc) as (s1 & E & ? & _). congruence.
  - destruct (sane_at _ _ _ Hs Hpc) as (l & Hl & [Hwf Hloc Han Hsc]). unfold retire in He. rewrite Hl, bind_Some in He.
    destruct q as [q|]; [|by injection He as <-]. destruct (add_spec l q Hwf) as (l' & E & Hwf' & (_ & Ht & El & Ec) & _).
    rewrite E, bind_Some in He. injection He as <-. apply sane_set; [done|]. by split; rewrite ?El, ?Ec, ?Ht.
  - destruct (sane_at _ _ _ Hs Hpc) as (l & Hl & [Hwf Hloc Han Hsc]). unfold retire_func in He. rewrite Hl, bind_Some in He.
    destruct (add_func_spec l f Hwf) as (l' & E & Hwf' & (_ & Ht & El & Ec) & _).
    rewrite E, bind_Some in He. injection He as <-. apply sane_set; [done|]. by split; rewrite ?El, ?Ec, ?Ht.
  - destruct (sane_at _ _ _ Hs Hpc) as (l & Hl & Hok). unfold endop in He. rewrite Hl, bind_Some in He. injection He as <-.
    apply sane_set; [done|]. pose proof (sane_started _ _ _ Hok) as Hst. destruct Hok. split; [done|by right; apply Hst|done|done].
Qed.

Lemma run_sane prompt tr s prot s' prot' : sane s -> run prompt tr s prot = Some (s', prot') -> sane s'.
Proof.
  revert s prot. induction tr as [|e tr IH]; intros s prot Hs Hrun; cbn [run] in Hrun; [by injection Hrun as <- <-|].
  apply asserting_Some in Hrun as [Hal Hrun]. apply stdpp.option.bind_Some in Hrun as (s1 & E & Hrun).
  apply (IH s1 (protect s e prot)); [|done]. eapply sane_exec; [done| |done].
  destruct prompt, e; cbn [allowed] in *; try done. by apply andb_true_iff in Hal as [-> _].
Qed.

Lemma at_pc_inj s i p q : at_pc s i p = true -> at_pc s i q = true -> p = q.
Proof. unfold at_pc. intros H1%bool_decide_eq_true_1 H2%bool_decide_eq_true_1. congruence. Qed.

(** a turn that only a thread at [q] takes *)
Lemma sane_turn s i q (turn : state -> option state) (P : pc -> Prop) :
  sane s -> (at_pc s i Active = true \/ at_pc s i q = true) -> P Active ->
  (at_pc s i q = true -> exists s', turn s = Some s' /\ sane s' /\ exists p, at_pc s' i p = true /\ P p) ->
  exists s', (if bool_decide (pcs s !! i = Some q) then turn s else Some s) = Some s' /\ sane s'
    /\ exists p, at_pc s' i p = true /\ P p.
Proof.
  intros Hs Hpc HP Hturn. change (bool_decide (pcs s !! i = Some q)) with (at_pc s i q).
  destruct (at_pc s i q) eqn:E; [by apply Hturn|]. destruct Hpc as [Hpc|?]; [|done]. exists s. by eauto.
Qed.

Lemma startop_sane s i nfree :
  sane s -> at_pc s i Quiet = true -> 0 < nfree <= kBagSize ->
  exists s', startop s i nfree = Some s' /\ sane s' /\ at_pc s' i Active = true.
Proof.
  intros Hs Hpc Hn. unfold startop. destruct (sane_load _ _ _ Hs Hpc Hn) as (s1 & -> & Hs1 & Hpc1). rewrite bind_Some.
  destruct (sane_announce _ _ Hs1 Hpc1) as (s2 & -> & Hs2 & Hpc2). rewrite bind_Some.
  destruct (sane_count _ _ Hs2 Hpc2) as (s3 & -> & Hs3 & Hpc3). rewrite bind_Some.
  destruct (sane_turn s3 i Scanning (fun s => startop_scan s i) (fun p => p = Active \/ p = Scanned) Hs3 Hpc3)
    as (s4 & -> & Hs4 & p4 & Hpc4 & Hp4); [by left| |].
  { intros Hq. destruct (sane_scan _ _ Hs3 Hq) as (s' & -> & ? & [?|?]); eauto 10. }
  rewrite bind_Some.
  destruct (sane_turn s4 i Scanned (fun s => startop_last s i) (fun p => p = Active \/ p = Raising) Hs4)
    as (s5 & -> & Hs5 & p5 & Hpc5 & Hp5); [by destruct Hp4 as [->| ->]; auto|by left| |].
  { intros Hq. destruct (sane_last _ _ Hs4 Hq) as (s' & -> & ? & [?|?]); eauto 10. }
  rewrite bind_Some.
  destruct (sane_turn s5 i Raising (fun s => startop_raise s i) (fun p => p = Active) Hs5)
    as (s6 & -> & Hs6 & p6 & Hpc6 & ->); [by destruct Hp5 as [->| ->]; auto|done| |by exists s6].
  intros Hq. destruct (sane_raise _ _ Hs5 Hq) as (s' & -> & ? & ?); eauto 10.
Qed.

(** ** The bags as a queue *)

Inductive bag_op := Push (q ep : Z) | Take (token : bool) (gepoch nfree : Z).

(** a list of bags and what it gave back *)
Definition bag_step (o : bag_op) (st : bags Z * list Z) : option (bags Z * list Z) :=
  let '(bs, out) := st in
  match o with
  | Push q ep => let* bs := push bs q ep in Some (bs, out)
  | Take token gepoch nfree => let* (_, bs, ps) := reclaim token bs gepoch nfree in Some (bs, out ++ ps)
  end.

Definition bag_steps (ops : list bag_op) (st : bags Z * list Z) : option (bags Z * list Z) :=
  foldl (fun st o => let* st := st in bag_step o st) (Some st) ops.

(** what was retired, in order *)
Definition pushed (ops : list bag_op) : list Z :=
  omap (fun o => match o with Push q _ => Some q | Take _ _ _ => None end) ops.

Definition takes_ok (o : bag_op) : bool :=
  match o with Push _ _ => true | Take _ _ nfree => (0 <? nfree) && (nfree <=? kBagSize) end.

(** a proof by the operations done last *)
Lemma bag_steps_inv ops :
  forallb takes_ok ops = true ->
  exists bs out, bag_steps ops (mkBags [] [], []) = Some (bs, out) /\ bags_wf bs /\ pushed ops = out ++ items bs.
Proof.
  induction ops as [|o ops IH] using rev_ind; intros Hok.
  - exists (mkBags [] []), []. by repeat constructor.
  - rewrite forallb_app in Hok. apply andb_true_iff in Hok as [Hok Ho]. cbn in Ho. rewrite andb_true_r in Ho.
    destruct (IH Hok) as (bs & out & E & Hwf & Hp). unfold bag_steps in *. rewrite foldl_app, E. cbn [foldl].
    unfold pushed in *. rewrite omap_app, Hp, bind_Some. cbn [omap list_omap]. destruct o as [q ep|tk g nf]; unfold bag_step.
    + destruct (push_spec bs q ep Hwf) as (bs' & -> & Hwf' & Hi & _). rewrite bind_Some.
      exists bs', out. split; [done|]. split; [done|]. by rewrite Hi, app_assoc.
    + apply andb_true_iff in Ho as [Hn1%Z.ltb_lt Hn2%Z.leb_le].
      destruct (reclaim_spec tk bs g nf Hwf) as (tk' & bs' & ps & -> & Hwf' & Hi & _); [done|]. rewrite bind_Some.
      exists bs', (out ++ ps). split; [done|]. split; [done|]. by rewrite app_nil_r, Hi, app_assoc.
Qed.

(** ** Properties *)

(** C30: Whatever is retired to a thread's bags is given back exactly once and in the order of retiring: after any sequence of add and free with a legal batch size, what was given back followed by what destroying the list gives back is exactly what was retired; no operation reads an unwritten slot of a bag. *)
Theorem epoch_bags_fifo ops :
  forallb takes_ok ops = true ->
  exists bs out last, bag_steps ops (mkBags [] [], []) = Some (bs, out)
    /\ drain (retired bs) [] = Some last /\ out ++ last = pushed ops.
Proof.
  intros Hok. destruct (bag_steps_inv ops Hok) as (bs & out & E & Hwf & Hp).
  exists bs, out, (items bs). split; [done|]. split; [|done].
  rewrite (drain_spec _ [] (empty bs)) by apply Hwf. by destruct bs.
Qed.

Definition sample_ops : list bag_op :=
  ((fun k => Push (Z.of_nat k) 0) <$> seq 0 30) ++ [Take true 6 5; Take true 6 13; Push 99 6; Take true 8 13].

Lemma epoch_bags_fifo_witness :
  forallb takes_ok sample_ops = true
  /\ exists bs out last, bag_steps sample_ops (mkBags [] [], []) = Some (bs, out)
       /\ drain (retired bs) [] = Some last /\ out ++ last = pushed sample_ops.
Proof. split; [by vm_compute|]. apply epoch_bags_fifo. by vm_compute. Defined.

(** C10: No thread gets stuck, and reclamation is safe: from the initial state, along any interleaving of fewer than 2^62 of the threads' steps (new threads coming, the parts of startop, retire, endop) in which each block is retired once and every announcement is made before the global epoch moves on, any next step that the threads may take has a defined result, and no block or closure that it gives back is one that an operation still going on could have reached, that is, one retired while that operation was announced. *)
Theorem epoch_reclaim_safe tr s prot e :
  Z.of_nat (length tr) < 2 ^ 62 -> run true tr EpochDetail [] = Some (s, prot) -> allowed true s e = true ->
  exists s', exec s e = Some s' /\ gives_back s s' prot.
Proof.
  intros Hlen Hrun Hal. pose proof (run_inv tr 0 _ _ _ _ inv_init Hlen Hrun) as Hinv.
  destruct (exec_good _ _ _ e Hinv Hlen Hal) as (s' & ? & _ & ?). by exists s'.
Qed.

(** an operation of thread [i] without its end: plain, with a scan, with a raise *)
Definition enter i : list event := [Load i 13; Announce i; Count i].
Definition plain i : list event := enter i ++ [End i].

(** a thread alone, with [n] threads that are quiet or at the current epoch, moves the
    global epoch on *)
Definition advance_epoch i (n : nat) : list event :=
  concat ((fun k => concat (replicate 9 (plain i)) ++ enter i ++ [Scan i; Last i] ++ (if (k =? n - 1)%nat then [Raise i] else []) ++ [End i])
            <$> seq 0 n).

Definition retire_many i (n : nat) : list event := (fun k => Retire i (Some (100 + Z.of_nat k))) <$> seq 0 n.

(** thread 1 retires fourteen blocks while thread 0 is inside an operation; thread 2
    moves the epoch on, three times, and retires a block; then thread 1 starts an
    operation *)
Definition fair_trace : list event :=
  [Come; Come; Come] ++ enter 0%nat ++ enter 1%nat ++ retire_many 1%nat 14 ++ [End 1%nat; End 0%nat]
  ++ advance_epoch 2%nat 3 ++ advance_epoch 2%nat 3 ++ advance_epoch 2%nat 3
  ++ enter 0%nat ++ enter 2%nat ++ [Retire 2%nat (Some 500)].

Definition after (prompt : bool) (tr : list event) : state * list (nat * item) :=
  default (EpochDetail, []) (run prompt tr EpochDetail []).

Lemma epoch_reclaim_safe_witness :
  (Z.of_nat (length fair_trace) < 2 ^ 62 /\ run true fair_trace EpochDetail [] = Some (after true fair_trace)
   /\ allowed true (fst (after true fair_trace)) (Load 1%nat 13) = true)
  /\ exists s', exec (fst (after true fair_trace)) (Load 1%nat 13) = Some s'
       /\ gives_back (fst (after true fair_trace)) s' (snd (after true fair_trace)).
Proof.
  split; [split; [|split]; by vm_compute|]. apply (epoch_reclaim_safe fair_trace).
  - by vm_compute.
  - by vm_compute.
  - by vm_compute.
Defined.

(** thread 1 loads the global epoch and is stopped before it announces it; thread 2 moves
    the epoch on, three times; thread 0 starts an operation; thread 1 announces the old
    epoch, retires fourteen blocks and ends *)
Definition stale_trace : list event :=
  [Come; Come; Come] ++ [Load 1%nat 13] ++ advance_epoch 2%nat 3 ++ advance_epoch 2%nat 3 ++ advance_epoch 2%nat 3
  ++ enter 0%nat ++ [Announce 1%nat; Count 1%nat] ++ retire_many 1%nat 14 ++ [End 1%nat].

(** C31: The announcement in startop must come before the global epoch moves on: without that, there is a run of three threads, each at its place and retiring blocks once, after which the next startop of a thread gives back a block that was retired while another operation was announced, and that operation has not ended. *)
Theorem epoch_stale_announcement :
  exists s prot s' q, run false stale_trace EpochDetail [] = Some (s, prot)
    /\ exec s (Load 1%nat 13) = Some s' /\ q ∈ given_back s' /\ (0%nat, inl q) ∈ prot /\ at_pc s 0 Active = true
    /\ guarded s' 0 = Some true.
Proof.
  eexists _, _, _, 100. split; [by vm_compute|]. split; [by vm_compute|].
  split; [|split; [|by vm_compute]]; by apply (bool_decide_unpack _); vm_compute.
Qed.

(** C32: The scope of an EpochGuard: from any state that the threads reach, in any order of their steps (also one in which an announcement is late) with legal batch sizes and no block retired again while it waits, a thread that is outside an operation and meets no other until the guard ends has a defined result, with any legal batch size: it does not get stuck, [guarded] says true inside the scope, and after it false. *)
Theorem epoch_guard_scope tr s prot i nfree :
  run false tr EpochDetail [] = Some (s, prot) -> allowed false s (Load i nfree) = true ->
  exists s', guard s i nfree (fun s => let* b := guarded s i in assert* b in Some s) = Some s'
    /\ guarded s' i = Some false.
Proof.
  intros Hrun Hal. apply andb_true_iff in Hal as [[Hpc Hn1%Z.ltb_lt]%andb_true_iff Hn2%Z.leb_le].
  destruct (startop_sane s i nfree (run_sane _ _ _ _ _ _ sane_init Hrun) Hpc) as (s' & E & Hs' & Hpc'); [done|].
  destruct (sane_at _ _ _ Hs' Hpc') as (l & Hl & Hok). destruct (sane_started _ _ _ Hok) as (k & _ & Hk & _); [done|].
  eexists. unfold guard, guarded, endop. rewrite E, bind_Some, Hl, !bind_Some, (ts_announced _ _ _ Hok eq_refl), Hk, quiescent_even.
  cbn [negb asserting]. rewrite bind_Some, Hl, bind_Some. split; [done|]. cbn [limbo_lists_ set_thread].
  rewrite list_lookup_insert_eq, bind_Some; [|by eapply lookup_lt_Some]. cbn [thread_epoch with_thread].
  by rewrite quiescent_with.
Qed.

(** after a run with a late announcement *)
Lemma epoch_guard_scope_witness :
  (run false stale_trace EpochDetail [] = Some (after false stale_trace)
   /\ allowed false (fst (after false stale_trace)) (Load 1%nat 13) = true)
  /\ exists s', guard (fst (after false stale_trace)) 1 13 (fun s => let* b := guarded s 1 in assert* b in Some s) = Some s'
       /\ guarded s' 1 = Some false.
Proof.
  split; [split; by vm_compute|].
  apply (epoch_guard_scope stale_trace (fst (after false stale_trace)) (snd (after false stale_trace))).
  - by vm_compute.
  - by vm_compute.
Defined.
