(* ===== verification/BLinkNode.v ===== *)
(** * The nodes of the B-link tree: [src/BLinkTree/b_link_node.h]

    The two arrays of a node are lists as long as they were allocated; an access
    outside them, or a failed [assert], is [None]. The split thresholds are doubles,
    compared as the code does, in binary64 ([SpecFloat]). A split returns the new node,
    at the address [ra] that its caller got from [new]. Keys are integers. The copy
    constructor and the assignment dereference the latch, so no program can use them. *)

From S2P Require Import Prelude.
From Stdlib Require Import Floats.SpecFloat.

Module BLinkNode.

(** BLinkTree/b_link_node.h:25-28 [BLinkNode]

    the union *)
Inductive slots {V : Type} := Values (values_ : list V) | Children (children_ : list ptr).
Arguments slots V : clear implicits.

(** BLinkTree/b_link_node.h:15-30 [BLinkNode]

    the latch is kept apart, with the tree *)
Record node {V : Type} := mkNode {
  is_leaf_ : bool;
  node_size_ : Z;
  item_cnt_ : Z;
  sibling_ptr_ : ptr;
  upper_level_ : ptr;
  keys_ : list Z;
  slots_ : slots V;
}.
Arguments node V : clear implicits.
Arguments mkNode {V}.

(** a value of type [double] from an [int] *)
Definition double_of_int (z : Z) : spec_float := binary_normalize 53 1024 z 0 false.

(** BLinkTree/b_link_node.h:180-180 [InnerInsert]

    [double(item_cnt_ + 1) / node_size_ < threshold]; [LeafInsert] has the same test *)
Definition safe (item_cnt node_size : Z) (threshold : spec_float) : bool :=
  SFltb (SFdiv 53 1024 (double_of_int (item_cnt + 1)) (double_of_int node_size)) threshold.

Section node.
Context {V : Type} `{!Inhabited V}.
Implicit Types (n : node V) (key : Z).

(** BLinkTree/b_link_node.h:33-41 [BLinkNode]

    the elements are value-initialised *)
Definition BLinkNode (node_size : Z) (is_leaf : bool) : node V :=
  mkNode is_leaf node_size 0 None None (replicate (Z.to_nat node_size) 0)
    (if is_leaf then Values (replicate (Z.to_nat node_size) inhabitant)
     else Children (replicate (Z.to_nat (node_size + 1)) None)).

Definition with_sibling n p := mkNode (is_leaf_ n) (node_size_ n) (item_cnt_ n) p (upper_level_ n) (keys_ n) (slots_ n).
Definition with_upper n p := mkNode (is_leaf_ n) (node_size_ n) (item_cnt_ n) (sibling_ptr_ n) p (keys_ n) (slots_ n).
Definition with_items n cnt keys (sl : slots V) := mkNode (is_leaf_ n) (node_size_ n) cnt (sibling_ptr_ n) (upper_level_ n) keys sl.

(** the array of the union that the node has *)
Definition values_of n : option (list V) := match slots_ n with Values vs => Some vs | Children _ => None end.
Definition children_of n : option (list ptr) := match slots_ n with Children cs => Some cs | Values _ => None end.

(** BLinkTree/b_link_node.h:116-118 [is_leaf] *)
Definition is_leaf n : bool := is_leaf_ n.
(** BLinkTree/b_link_node.h:120-120 [size] *)
Definition size n : Z := item_cnt_ n.
(** BLinkTree/b_link_node.h:122-122 [sibling] *)
Definition sibling n : ptr := sibling_ptr_ n.
(** BLinkTree/b_link_node.h:125-125 [upper_level] *)
Definition upper_level n : ptr := upper_level_ n.
(** BLinkTree/b_link_node.h:127-129 [high_key] *)
Definition high_key n : option Z := aget (keys_ n) (item_cnt_ n - 1).

(** BLinkTree/b_link_node.h:131-134 [key] *)
Definition key_at n (index : Z) : option Z :=
  assert* (0 <=? index) && (index <? item_cnt_ n) in aget (keys_ n) index.

(** BLinkTree/b_link_node.h:136-139 [value]

    read, and assigned *)
Definition value n (index : Z) : option V :=
  assert* (0 <=? index) && (index <? item_cnt_ n) in
  let* vs := values_of n in aget vs index.
Definition set_value n (index : Z) (v : V) : option (node V) :=
  assert* (0 <=? index) && (index <? item_cnt_ n) in
  let* vs := values_of n in
  let* vs := aset vs index v in
  Some (with_items n (item_cnt_ n) (keys_ n) (Values vs)).

(** BLinkTree/b_link_node.h:141-146 [child] *)
Definition child n (index : Z) : option ptr :=
  assert* negb (is_leaf_ n) in
  assert* (0 <=? index)
          && ((index <? item_cnt_ n) || ((index =? item_cnt_ n) && bool_decide (sibling_ptr_ n = None))) in
  let* cs := children_of n in aget cs index.

(** BLinkTree/b_link_node.h:160-170 [NodeScan]

    the interval halves: its length is enough fuel *)
Fixpoint scan_loop (fuel : nat) (keys : list Z) key (low high : Z) : option Z :=
  match fuel with
  | O => None
  | S fuel =>
      if low <? high then
        let mid := (low + high) / 2 in
        let* k := aget keys mid in
        if key <? k then scan_loop fuel keys key low mid
        else if key =? k then Some mid
        else scan_loop fuel keys key (mid + 1) high
      else assert* low =? high in Some high
  end.

(** BLinkTree/b_link_node.h:153-171 [NodeScan] *)
Definition NodeScan n key : option Z :=
  let high := item_cnt_ n - 1 in
  if high =? -1 then Some (high + 1)
  else
    let* k := aget (keys_ n) high in
    if k <? key then Some (high + 1) else scan_loop (S (Z.to_nat high)) (keys_ n) key 0 high.

(** BLinkTree/b_link_node.h:181-186 [InnerInsert]

    [for(int i = hi; i > lo; i--) { keys_[i] = keys_[i - 1]; slots[i + e] = slots[i + e - 1]; }],
    with [e = 1] for children, and [e = 0] for the values in [LeafInsert] *)
Definition shift_up {S} (e lo hi : Z) (ks : list Z) (ss : list S) : option (list Z * list S) :=
  for_range (fun j acc =>
    let '(ks, ss) := acc in
    let i := hi - j in
    let* k := aget ks (i - 1) in
    let* ks := aset ks i k in
    let* s := aget ss (i + e - 1) in
    let* ss := aset ss (i + e) s in
    Some (ks, ss)) 0 (hi - lo) (ks, ss).

(** BLinkTree/b_link_node.h:204-207 [InnerInsert]

    [for(int i = lo; i < lo + n; i++) { new_keys[i] = keys_[i + ko]; new_slots[i + d] = slots[i + so]; }] *)
Definition copy_run {S} (ks : list Z) (ss : list S) (ko so d lo n : Z) (nks : list Z) (nss : list S)
    : option (list Z * list S) :=
  for_range (fun i acc =>
    let '(nks, nss) := acc in
    let* k := aget ks (i + ko) in
    let* nks := aset nks i k in
    let* s := aget ss (i + so) in
    let* nss := aset nss (i + d) s in
    Some (nks, nss)) lo n (nks, nss).

(** BLinkTree/b_link_node.h:201-225 [InnerInsert]

    the left key goes to the old node *)
Definition inner_split_left n (index left_key : Z) (right_node : ptr) (new_node : node V) : option (node V * node V) :=
  let* cs := children_of n in
  let* ncs := children_of new_node in
  let cnt := item_cnt_ n in
  let mid := cnt / 2 in
  let* (nks, ncs) := copy_run (keys_ n) cs mid mid 0 0 (cnt - mid) (keys_ new_node) ncs in
  let* c := aget cs cnt in
  let* ncs := aset ncs (cnt - mid) c in
  assert* 0 <? cnt - mid in
  let* (ks, cs) := shift_up 1 index mid (keys_ n) cs in
  let* ks := aset ks index left_key in
  let* (cs, ncs) :=
    if index <? mid then let* cs := aset cs (index + 1) right_node in Some (cs, ncs)
    else let* ncs := aset ncs 0 right_node in Some (cs, ncs) in
  assert* 0 <? mid + 1 in
  Some (with_items n (mid + 1) ks (Children cs), with_items new_node (cnt - mid) nks (Children ncs)).

(** BLinkTree/b_link_node.h:226-246 [InnerInsert]

    the left key goes to the new node *)
Definition inner_split_right n (index left_key : Z) (right_node : ptr) (new_node : node V) : option (node V * node V) :=
  let* cs := children_of n in
  let* ncs := children_of new_node in
  let cnt := item_cnt_ n in
  let mid := cnt / 2 + 1 in
  let* (nks, ncs) := copy_run (keys_ n) cs mid mid 0 0 (index - mid) (keys_ new_node) ncs in
  let i := index - mid in
  let* c := aget cs (mid + i) in
  let* ncs := aset ncs i c in
  let* nks := aset nks i left_key in
  let i := i + 1 in
  let* ncs := aset ncs i right_node in
  let* (nks, ncs) := copy_run (keys_ n) cs (mid - 1) mid 1 i (cnt - mid + 1 - i) nks ncs in
  assert* 0 <? cnt - mid + 1 in
  assert* 0 <? mid in
  Some (with_items n mid (keys_ n) (Children cs), with_items new_node (cnt - mid + 1) nks (Children ncs)).

(** BLinkTree/b_link_node.h:174-252 [InnerInsert]

    the node, and the new one if it was split *)
Definition InnerInsert n (left_key : Z) (left_node right_node : ptr) (threshold : spec_float) (ra : Z)
    : option (node V * option (node V)) :=
  assert* negb (is_leaf_ n) in
  let* index := NodeScan n left_key in
  assert* (0 <=? index)
          && ((index <? item_cnt_ n) || ((index =? item_cnt_ n) && bool_decide (sibling_ptr_ n = None))) in
  if safe (item_cnt_ n) (node_size_ n) threshold then
    let* cs := children_of n in
    let* (ks, cs) := shift_up 1 index (item_cnt_ n) (keys_ n) cs in
    let* cs := if item_cnt_ n =? 0 then aset cs index left_node else Some cs in
    let* ks := aset ks index left_key in
    let* cs := aset cs (index + 1) right_node in
    Some (with_items n (item_cnt_ n + 1) ks (Children cs), None)
  else
    let new_node := with_upper (with_sibling (BLinkNode (node_size_ n) false) (sibling_ptr_ n)) (upper_level_ n) in
    let* (n, new_node) := if index <=? item_cnt_ n / 2 then inner_split_left n index left_key right_node new_node
                          else inner_split_right n index left_key right_node new_node in
    Some (with_sibling n (Some ra), Some new_node).

(** BLinkTree/b_link_node.h:278-296 [LeafInsert] *)
Definition leaf_split_left n (index key : Z) (v : V) (new_node : node V) : option (node V * node V) :=
  let* vs := values_of n in
  let* nvs := values_of new_node in
  let cnt := item_cnt_ n in
  let mid := cnt / 2 in
  let* (nks, nvs) := copy_run (keys_ n) vs mid mid 0 0 (cnt - mid) (keys_ new_node) nvs in
  assert* 0 <? cnt - mid in
  let* (ks, vs) := shift_up 0 index mid (keys_ n) vs in
  let* ks := aset ks index key in
  let* vs := aset vs index v in
  assert* 0 <? mid + 1 in
  Some (with_items n (mid + 1) ks (Values vs), with_items new_node (cnt - mid) nks (Values nvs)).

(** BLinkTree/b_link_node.h:297-315 [LeafInsert] *)
Definition leaf_split_right n (index key : Z) (v : V) (new_node : node V) : option (node V * node V) :=
  let* vs := values_of n in
  let* nvs := values_of new_node in
  let cnt := item_cnt_ n in
  let mid := cnt / 2 + 1 in
  let* (nks, nvs) := copy_run (keys_ n) vs mid mid 0 0 (index - mid) (keys_ new_node) nvs in
  let i := index - mid in
  let* nks := aset nks i key in
  let* nvs := aset nvs i v in
  let i := i + 1 in
  let* (nks, nvs) := copy_run (keys_ n) vs (mid - 1) (mid - 1) 0 i (cnt - mid + 1 - i) nks nvs in
  assert* 0 <? cnt - mid + 1 in
  assert* 0 <? mid in
  Some (with_items n mid (keys_ n) (Values vs), with_items new_node (cnt - mid + 1) nks (Values nvs)).

(** BLinkTree/b_link_node.h:255-321 [LeafInsert] *)
Definition LeafInsert n key (v : V) (index : Z) (threshold : spec_float) (ra : Z)
    : option (node V * option (node V)) :=
  assert* is_leaf_ n in
  let* ordered := if index =? 0 then Some true else let* k := aget (keys_ n) (index - 1) in Some (k <? key) in
  assert* ordered in
  if safe (item_cnt_ n) (node_size_ n) threshold then
    let* vs := values_of n in
    let* (ks, vs) := shift_up 0 index (item_cnt_ n) (keys_ n) vs in
    let* ks := aset ks index key in
    let* vs := aset vs index v in
    Some (with_items n (item_cnt_ n + 1) ks (Values vs), None)
  else
    let new_node := with_upper (with_sibling (BLinkNode (node_size_ n) true) (sibling_ptr_ n)) (upper_level_ n) in
    let* (n, new_node) := if index <=? item_cnt_ n / 2 then leaf_split_left n index key v new_node
                          else leaf_split_right n index key v new_node in
    Some (with_sibling n (Some ra), Some new_node).
End node.
End BLinkNode.
