(* ===== verification/BLinkSpec.v ===== *)
(** * What the nodes of the B-link tree hold, and what their operations do

    A leaf holds a list of pairs, an inner node the entries of a level ([Levels]). An
    insertion puts one element in the list; when the node is not safe the list is cut
    in two. *)

From S2P Require Import Prelude Encode Levels BLinkNode.
From Stdlib Require Import Floats.SpecFloat.
Import BLinkNode.

(** ** The used part of an array *)

Section starts.
Context {A : Type}.
Implicit Types (l X : list A).

Definition starts l X : Prop :=
  (length X <= length l)%nat /\ forall j, 0 <= j < Z.of_nat (length X) -> aget l j = aget X j.

Definition ins_at (i : Z) (x : A) X : list A := take (Z.to_nat i) X ++ x :: drop (Z.to_nat i) X.

Lemma length_ins_at i x X : length (ins_at i x X) = S (length X).
Proof. unfold ins_at. rewrite length_app. cbn. rewrite <- Nat.add_succ_comm, length_take, length_drop. lia. Qed.

Lemma aget_ins_at i x X j :
  0 <= i <= Z.of_nat (length X) -> 0 <= j ->
  aget (ins_at i x X) j = if j <? i then aget X j else if j =? i then Some x else aget X (j - 1).
Proof.
  intros Hi Hj. unfold ins_at, aget. bfalse (j <? 0).
  assert (length (take (Z.to_nat i) X) = Z.to_nat i) as Hl by (rewrite length_take; lia).
  destruct (Z.ltb_spec j i); [rewrite lookup_app_l by lia; by rewrite lookup_take_lt by lia|].
  rewrite lookup_app_r, Hl by lia. destruct (Z.eqb_spec j i) as [->|]; [by rewrite Nat.sub_diag|].
  bfalse (j - 1 <? 0). replace (Z.to_nat j - Z.to_nat i)%nat with (S (Z.to_nat j - Z.to_nat i - 1)) by lia.
  change (drop (Z.to_nat i) X !! (Z.to_nat j - Z.to_nat i - 1)%nat = X !! Z.to_nat (j - 1)). rewrite lookup_drop. f_equal. lia.
Qed.

Lemma aget_take c X j : 0 <= j < c -> aget (take (Z.to_nat c) X) j = aget X j.
Proof. intros Hj. unfold aget. bfalse (j <? 0). by rewrite lookup_take_lt by lia. Qed.

Lemma aget_drop c X j : 0 <= c -> 0 <= j -> aget (drop (Z.to_nat c) X) j = aget X (j + c).
Proof. intros Hc Hj. unfold aget. bfalse (j <? 0). bfalse (j + c <? 0). rewrite lookup_drop. f_equal. lia. Qed.

Lemma starts_take c l X : 0 <= c -> starts l X -> starts l (take (Z.to_nat c) X).
Proof.
  intros Hc [Hl Hx]. split; [rewrite length_take; lia|]. intros j. rewrite length_take. intros Hj.
  rewrite aget_take by lia. apply Hx. lia.
Qed.

(** reading the used part *)
Lemma starts_get l X (i : nat) x : starts l X -> X !! i = Some x -> aget l (Z.of_nat i) = Some x.
Proof. intros [_ Hx] Hi. pose proof (lookup_lt_Some _ _ _ Hi). rewrite Hx by lia. by rewrite aget_nat. Qed.
End starts.

(** cases on the comparisons of a goal about indices *)
Ltac index_cases :=
  repeat match goal with
  | |- context [?a <? ?b] => destruct (Z.ltb_spec a b)
  | |- context [?a <=? ?b] => destruct (Z.leb_spec a b)
  | |- context [?a =? ?b] => destruct (Z.eqb_spec a b)
  end; cbn [andb]; try lia.

Ltac same_index := try done; try (f_equal; lia).

(** ** The loops *)

Section loops.
Context {S : Type}.
Implicit Types (ks : list Z) (ss : list S).

Lemma shift_up_spec e lo hi ks ss :
  0 <= lo <= hi -> hi < Z.of_nat (length ks) -> 0 <= e -> hi + e < Z.of_nat (length ss) ->
  exists ks' ss', shift_up e lo hi ks ss = Some (ks', ss') /\ length ks' = length ks /\ length ss' = length ss
    /\ (forall j, 0 <= j -> aget ks' j = if (lo <? j) && (j <=? hi) then aget ks (j - 1) else aget ks j)
    /\ (forall j, 0 <= j -> aget ss' j = if (lo + e <? j) && (j <=? hi + e) then aget ss (j - 1) else aget ss j).
Proof.
  intros Hlo Hhi He Hs. unfold shift_up.
  set (P := fun (x : Z) (acc : list Z * list S) =>
    length acc.1 = length ks /\ length acc.2 = length ss
    /\ (forall j, 0 <= j -> aget acc.1 j = if (hi - x <? j) && (j <=? hi) then aget ks (j - 1) else aget ks j)
    /\ (forall j, 0 <= j -> aget acc.2 j = if (hi - x + e <? j) && (j <=? hi + e) then aget ss (j - 1) else aget ss j)).
  edestruct (for_range_inv P) as ([ks' ss'] & E & HP); [| | |exists ks', ss'; split; [exact E|]].
  - lia.
  - split; [done|]. split; [done|]. split; intros j Hj; cbn; index_cases; done.
  - intros x [ks1 ss1] Hx (H1 & H2 & H3 & H4). cbn [fst snd] in *.
    assert (hi - x - 1 < hi) as Hd by lia.
    destruct (aget_in_range ks1 (hi - x - 1)) as [k Hk]; [lia|]. rewrite Hk, bind_Some.
    rewrite aset_in_range, bind_Some by lia.
    destruct (aget_in_range ss1 (hi - x + e - 1)) as [s Hss]; [lia|]. rewrite Hss, bind_Some.
    rewrite aset_in_range, bind_Some by lia. eexists. split; [done|]. unfold P. cbn [fst snd].
    split; [by rewrite length_insert|]. split; [by rewrite length_insert|]. split; intros j Hj.
    + rewrite aget_insert by lia. rewrite H3 in Hk by lia. rewrite H3 by done. revert Hk.
      index_cases; intros Hk; same_index. rewrite <- Hk. same_index.
    + rewrite aget_insert by lia. rewrite H4 in Hss by lia. rewrite H4 by done. revert Hss.
      index_cases; intros Hss; same_index. rewrite <- Hss. same_index.
  - destruct HP as (H1 & H2 & H3 & H4). cbn [fst snd] in *. split; [done|]. split; [done|].
    replace (hi - (0 + (hi - lo))) with lo in * by lia. done.
Qed.

Lemma copy_run_spec ks ss ko so d lo n nks nss :
  0 <= n -> 0 <= lo -> 0 <= d ->
  0 <= lo + ko -> lo + n + ko <= Z.of_nat (length ks) -> 0 <= lo + so -> lo + n + so <= Z.of_nat (length ss) ->
  lo + n <= Z.of_nat (length nks) -> lo + n + d <= Z.of_nat (length nss) ->
  exists nks' nss', copy_run ks ss ko so d lo n nks nss = Some (nks', nss')
    /\ length nks' = length nks /\ length nss' = length nss
    /\ (forall j, 0 <= j -> aget nks' j = if (lo <=? j) && (j <? lo + n) then aget ks (j + ko) else aget nks j)
    /\ (forall j, 0 <= j -> aget nss' j = if (lo + d <=? j) && (j <? lo + n + d) then aget ss (j - d + so) else aget nss j).
Proof.
  intros Hn Hlo Hd Hk0 Hk Hs0 Hs Hnk Hns. unfold copy_run.
  set (P := fun (x : Z) (acc : list Z * list S) =>
    length acc.1 = length nks /\ length acc.2 = length nss
    /\ (forall j, 0 <= j -> aget acc.1 j = if (lo <=? j) && (j <? x) then aget ks (j + ko) else aget nks j)
    /\ (forall j, 0 <= j -> aget acc.2 j = if (lo + d <=? j) && (j <? x + d) then aget ss (j - d + so) else aget nss j)).
  edestruct (for_range_inv P) as ([ks' ss'] & E & HP); [| | |exists ks', ss'; split; [exact E|done]].
  - lia.
  - split; [done|]. split; [done|]. split; intros j Hj; cbn; index_cases; done.
  - intros x [ks1 ss1] Hx (H1 & H2 & H3 & H4). cbn [fst snd] in *.
    destruct (aget_in_range ks (x + ko)) as [k Hxk]; [lia|]. rewrite Hxk, bind_Some.
    rewrite aset_in_range, bind_Some by lia.
    destruct (aget_in_range ss (x + so)) as [s Hss]; [lia|]. rewrite Hss, bind_Some.
    rewrite aset_in_range, bind_Some by lia. eexists. split; [done|]. unfold P. cbn [fst snd].
    split; [by rewrite length_insert|]. split; [by rewrite length_insert|]. split; intros j Hj.
    + rewrite aget_insert by lia. rewrite H3 by done. index_cases; same_index. rewrite <- Hxk. same_index.
    + rewrite aget_insert by lia. rewrite H4 by done. index_cases; same_index. rewrite <- Hss. same_index.
Qed.
End loops.

(** the new element in the place made for it, up to [hi] *)
Lemma insert_shifted {S} e index hi ks (ss : list S) K X key x :
  starts ks K -> starts ss X -> 0 <= index <= hi -> hi <= Z.of_nat (length K) -> hi < Z.of_nat (length ks) ->
  0 <= e -> hi + e < Z.of_nat (length ss) -> index + e <= Z.of_nat (length X) ->
  exists ks1 ss1, shift_up e index hi ks ss = Some (ks1, ss1)
    /\ exists ks2 ss2, aset ks1 index key = Some ks2 /\ aset ss1 (index + e) x = Some ss2
    /\ length ks2 = length ks /\ length ss2 = length ss
    /\ (forall j, 0 <= j <= hi -> aget ks2 j = aget (ins_at index key K) j)
    /\ (forall j, 0 <= j <= hi + e -> j <= Z.of_nat (length X) -> aget ss2 j = aget (ins_at (index + e) x X) j).
Proof.
  intros [Hkl Hk] [Hsl Hs] Hi HhK Hhk He Hhs HiX.
  destruct (shift_up_spec e index hi ks ss) as (ks1 & ss1 & E & H1 & H2 & H3 & H4); [lia|lia|lia|lia|].
  exists ks1, ss1. split; [done|]. rewrite !aset_in_range by lia. eexists _, _. split; [done|]. split; [done|].
  rewrite !length_insert. split; [done|]. split; [done|]. split.
  - intros j Hj. rewrite aget_insert, aget_ins_at, H3 by lia. index_cases; try done; apply Hk; lia.
  - intros j Hj HjX. rewrite aget_insert, aget_ins_at, H4 by lia. index_cases; try done; apply Hs; lia.
Qed.

(** ** [NodeScan] *)

(** where [key] is, or goes, in the sorted keys [K] *)
Definition lower (K : list Z) key (i : Z) : Prop :=
  0 <= i <= Z.of_nat (length K)
  /\ (forall j k, 0 <= j < i -> aget K j = Some k -> k < key)
  /\ (forall j k, i <= j -> aget K j = Some k -> key <= k).

Definition sorted (K : list Z) : Prop :=
  forall i j a b, 0 <= i < j -> aget K i = Some a -> aget K j = Some b -> a < b.

Lemma sorted_strongly K : StronglySorted Z.lt K -> sorted K.
Proof.
  intros Hs i j a b Hij [_ Ha]%aget_Some [_ Hb]%aget_Some.
  rewrite <- (take_drop (Z.to_nat j) K) in Hs. apply (StronglySorted_app_1_elem_of _ _ _ _ _ Hs).
  - apply (list_elem_of_lookup_2 _ (Z.to_nat i)). by rewrite lookup_take_lt by lia.
  - apply (list_elem_of_lookup_2 _ 0%nat). by rewrite lookup_drop, Nat.add_0_r.
Qed.

Lemma lower_unique K key i j : lower K key i -> lower K key j -> i = j.
Proof.
  intros (Hi & Hi1 & Hi2) (Hj & Hj1 & Hj2). destruct (Z.lt_trichotomy i j) as [H|[H|H]]; [|done|].
  - destruct (aget_in_range K i) as [k Hk]; [lia|]. pose proof (Hi2 i k ltac:(lia) Hk). pose proof (Hj1 i k ltac:(lia) Hk). lia.
  - destruct (aget_in_range K j) as [k Hk]; [lia|]. pose proof (Hj2 j k ltac:(lia) Hk). pose proof (Hi1 j k ltac:(lia) Hk). lia.
Qed.

Lemma scan_loop_spec K key (fuel : nat) ks : forall low high,
  starts ks K -> sorted K -> 0 <= low <= high -> high < Z.of_nat (length K) -> high - low < Z.of_nat fuel ->
  (forall j k, 0 <= j < low -> aget K j = Some k -> k < key) ->
  (forall k, aget K high = Some k -> key <= k) ->
  exists i, scan_loop fuel ks key low high = Some i /\ lower K key i.
Proof.
  induction fuel as [|fuel IH]; intros low high Hst Hs Hl Hh Hf Hlow Hhigh; [lia|]. cbn [scan_loop].
  assert (forall m k, 0 <= m -> aget K m = Some k -> key <= k -> forall j k', m <= j -> aget K j = Some k' -> key <= k') as Hup.
  { intros m k Hm Hk Hle j k' Hj Hk'. destruct (decide (j = m)) as [->|]; [congruence|].
    assert (k < k') by (apply (Hs m j); [lia|done|done]). lia. }
  destruct (Z.ltb_spec low high) as [Hlt|Hge].
  - set (mid := (low + high) / 2). assert (low <= mid < high) as Hm by (unfold mid; Z.to_euclidean_division_equations; lia).
    destruct (aget_in_range K mid) as [k Hk]; [lia|].
    pose proof (proj2 Hst mid ltac:(lia)) as E. rewrite Hk in E. rewrite E, bind_Some.
    destruct (Z.ltb_spec key k) as [Hkk|Hkk]; [|destruct (Z.eqb_spec key k) as [->|Hne]].
    + apply IH; try done; [lia|lia|lia|]. intros k' Hk'. assert (k' = k) as -> by congruence. lia.
    + exists mid. split; [done|]. split; [lia|]. split.
      * intros j k' Hj Hk'. apply (Hs j mid); [lia|done|done].
      * apply (Hup mid k); [lia|done|lia].
    + apply IH; try done; [lia|lia|]. intros j k' Hj Hk'. destruct (decide (j = mid)) as [->|].
      * assert (k' = k) as -> by congruence. lia.
      * assert (k' < k) by (apply (Hs j mid); [lia|done|done]). lia.
  - assert (low = high) as -> by lia. rewrite Z.eqb_refl. exists high. split; [done|]. split; [lia|]. split; [done|].
    intros j k Hj Hk. destruct (aget_in_range K high) as [kh Hkh]; [lia|].
    by apply (Hup high kh ltac:(lia) Hkh (Hhigh _ Hkh) j).
Qed.

Lemma NodeScan_spec {V} (n : node V) K key :
  starts (keys_ n) K -> item_cnt_ n = Z.of_nat (length K) -> sorted K ->
  exists i, NodeScan n key = Some i /\ lower K key i.
Proof.
  intros Hst Hc Hs. unfold NodeScan. rewrite Hc. destruct (Z.eqb_spec (Z.of_nat (length K) - 1) (-1)) as [E|Hne].
  - eexists. split; [done|]. rewrite E. split; [lia|]. split.
    + intros j k Hj. lia.
    + intros j k Hj Hk. apply aget_range in Hk. lia.
  - set (h := Z.of_nat (length K) - 1) in *. destruct (aget_in_range K h) as [k Hk]; [lia|].
    pose proof (proj2 Hst h ltac:(lia)) as E. rewrite Hk in E. rewrite E, bind_Some.
    destruct (Z.ltb_spec k key) as [Hlt|Hge].
    + eexists. split; [done|]. split; [lia|]. split.
      * intros j k' Hj Hk'. destruct (decide (j = h)) as [->|]; [congruence|].
        assert (k' < k) by (apply (Hs j h); [lia|done|done]). lia.
      * intros j k' Hj Hk'. apply aget_range in Hk'. lia.
    + apply scan_loop_spec; try done; [lia|lia|lia| |].
      * intros j k' Hj. lia.
      * intros k' Hk'. assert (k' = k) as -> by congruence. done.
Qed.

(** ** Leaves *)

Section leaf.
Context {V : Type} `{!Inhabited V}.
Implicit Types (n : node V) (kvs : list (Z * V)).

(** [n], of the size [sz], holds [kvs], and [nx] is to its right *)
Record leaf_node (sz : Z) n kvs (nx : ptr) : Prop := {
  ln_leaf : is_leaf_ n = true;
  ln_size : node_size_ n = sz;
  ln_cnt : item_cnt_ n = Z.of_nat (length kvs);
  ln_max : Z.of_nat (length kvs) <= sz;
  ln_keys : Z.of_nat (length (keys_ n)) = sz /\ starts (keys_ n) kvs.*1;
  ln_values : exists vs, slots_ n = Values vs /\ Z.of_nat (length vs) = sz /\ starts vs kvs.*2;
  ln_sibling : sibling_ptr_ n = nx;
}.

Lemma starts_intro {A} (l X : list A) :
  (length X <= length l)%nat -> (forall j, 0 <= j < Z.of_nat (length X) -> aget l j = aget X j) -> starts l X.
Proof. done. Qed.

Lemma fmap_ins_at {A B} (g : A -> B) i x (X : list A) : g <$> ins_at i x X = ins_at i (g x) (g <$> X).
Proof. unfold ins_at. by rewrite fmap_app, fmap_cons, fmap_take, fmap_drop. Qed.

Lemma new_leaf sz : 0 <= sz -> leaf_node sz (BLinkNode sz true) [] None.
Proof.
  intros Hs. split; cbn; try done.
  - rewrite length_replicate. split; [lia|]. split; cbn; lia.
  - eexists. split; [done|]. rewrite length_replicate. split; [lia|]. split; cbn; lia.
Qed.

(** the new node of a split: the elements above the new one ... *)
Lemma copied_above {A} (l src X : list A) mid i x :
  starts src X -> 0 <= i <= mid -> mid <= Z.of_nat (length X) -> Z.of_nat (length X) - mid <= Z.of_nat (length l) ->
  (forall j, 0 <= j < Z.of_nat (length X) - mid -> aget l j = aget src (j + mid)) ->
  starts l (drop (Z.to_nat (mid + 1)) (ins_at i x X)).
Proof.
  intros [_ Hs] Hi Hm Hlen Hc. apply starts_intro; [rewrite length_drop, length_ins_at; lia|].
  intros j. rewrite length_drop, length_ins_at. intros Hj. rewrite Hc, aget_drop, aget_ins_at by lia.
  index_cases. rewrite Hs by lia. f_equal. lia.
Qed.

(** ... or the new one among them *)
Lemma copied_around {A} (l src X : list A) mid i x :
  starts src X -> 0 <= mid <= i -> i <= Z.of_nat (length X) -> Z.of_nat (length X) + 1 - mid <= Z.of_nat (length l) ->
  (forall j, 0 <= j < Z.of_nat (length X) + 1 - mid ->
     aget l j = if j + mid <? i then aget src (j + mid) else if j + mid =? i then Some x else aget src (j + mid - 1)) ->
  starts l (drop (Z.to_nat mid) (ins_at i x X)).
Proof.
  intros [_ Hs] Hi Hm Hlen Hc. apply starts_intro; [rewrite length_drop, length_ins_at; lia|].
  intros j. rewrite length_drop, length_ins_at. intros Hj. rewrite Hc, aget_drop, aget_ins_at by lia.
  index_cases; try done; rewrite Hs by lia; f_equal; lia.
Qed.

(** the old node keeps what is below the cut *)
Lemma kept_below {A} (l X : list A) c i x :
  0 <= c <= Z.of_nat (length l) -> 0 <= i -> c <= Z.of_nat (length X) + 1 ->
  (forall j, 0 <= j < c -> aget l j = aget (ins_at i x X) j) -> starts l (take (Z.to_nat c) (ins_at i x X)).
Proof.
  intros Hc Hi Hx Hl. apply starts_intro; [rewrite length_take; lia|].
  intros j. rewrite length_take, length_ins_at. intros Hj. rewrite aget_take by lia. apply Hl. lia.
Qed.

(** ... which is unchanged, below the place of the new element *)
Lemma kept_before {A} (l X : list A) c i x :
  starts l X -> 0 <= c <= i -> i <= Z.of_nat (length X) -> starts l (take (Z.to_nat c) (ins_at i x X)).
Proof.
  intros [Hlen Hl] Hc Hi. apply kept_below; [lia|lia|lia|]. intros j Hj. rewrite aget_ins_at by lia. index_cases. apply Hl. lia.
Qed.

Section insert.
Context (sz : Z) n kvs (nx : ptr) (Hn : leaf_node sz n kvs nx) (key : Z) (v : V) (index : Z) (threshold : spec_float) (ra : Z).
Context (Hlow : lower kvs.*1 key index) (Hnew : key ∉ kvs.*1).

Lemma leaf_insert_ordered :
  (let* ordered := if index =? 0 then Some true else let* k := aget (keys_ n) (index - 1) in Some (k <? key) in
   Some ordered) = Some true.
Proof.
  destruct Hlow as (Hi & Hb & _). rewrite length_fmap in Hi. destruct (Z.eqb_spec index 0) as [->|Hne]; [done|].
  destruct (ln_keys _ _ _ _ Hn) as [_ [_ Hk]]. rewrite Hk by (rewrite length_fmap; lia).
  destruct (aget_in_range kvs.*1 (index - 1)) as [k Ek]; [rewrite length_fmap; lia|]. rewrite Ek, bind_Some.
  apply Hb in Ek; [|lia]. by btrue (k <? key).
Qed.

Lemma LeafInsert_safe :
  safe (item_cnt_ n) (node_size_ n) threshold = true -> Z.of_nat (length kvs) < sz ->
  exists n', LeafInsert n key v index threshold ra = Some (n', None)
    /\ leaf_node sz n' (ins_at index (key, v) kvs) nx /\ upper_level_ n' = upper_level_ n.
Proof.
  intros Hsafe Hroom. pose proof leaf_insert_ordered as Hord. destruct Hlow as (Hi & _). rewrite length_fmap in Hi.
  destruct Hn as [Hl Hsz Hcnt Hmax [Hkl Hk] (vs & Hvs & Hvl & Hv) Hsib].
  unfold LeafInsert. rewrite Hl. cbn [asserting].
  destruct (if index =? 0 then _ else _) as [o|]; [|done]. rewrite !bind_Some in Hord. injection Hord as ->.
  rewrite bind_Some. cbn [asserting]. rewrite Hsafe. unfold values_of. rewrite Hvs, bind_Some, Hcnt.
  destruct (insert_shifted 0 index (Z.of_nat (length kvs)) (keys_ n) vs _ _ key v Hk Hv)
    as (ks1 & vs1 & E1 & ks2 & vs2 & E2 & E3 & L1 & L2 & H1 & H2); rewrite ?length_fmap; [lia|lia|lia|lia|lia|lia|].
  rewrite E1, bind_Some, E2, bind_Some. rewrite (Z.add_0_r index) in *. rewrite E3, bind_Some.
  eexists. split; [done|]. split; [|done].
  assert (length (ins_at index (key, v) kvs) = S (length kvs)) as Hlen by apply length_ins_at.
  split; cbn; try done; [lia|lia| |].
  - split; [lia|]. rewrite fmap_ins_at. apply starts_intro; rewrite length_ins_at, length_fmap; [lia|]. intros j Hj. apply H1. lia.
  - exists vs2. split; [done|]. split; [lia|]. rewrite fmap_ins_at. apply starts_intro; rewrite length_ins_at, length_fmap; [lia|].
    intros j Hj. rewrite length_fmap in H2. apply H2; lia.
Qed.

(** where a full leaf is cut: the left one has a half of the pairs, and one *)
Definition leaf_cut : Z := Z.of_nat (length kvs) / 2 + 1.

Lemma LeafInsert_split :
  safe (item_cnt_ n) (node_size_ n) threshold = false -> kvs <> [] ->
  exists n' rn', LeafInsert n key v index threshold ra = Some (n', Some rn')
    /\ leaf_node sz n' (take (Z.to_nat leaf_cut) (ins_at index (key, v) kvs)) (Some ra)
    /\ leaf_node sz rn' (drop (Z.to_nat leaf_cut) (ins_at index (key, v) kvs)) nx.
Proof.
  intros Hsafe Hne. pose proof leaf_insert_ordered as Hord. destruct Hlow as (Hi & _). rewrite length_fmap in Hi.
  destruct Hn as [Hl Hsz Hcnt Hmax [Hkl Hk] (vs & Hvs & Hvl & Hv) Hsib].
  assert (0 < Z.of_nat (length kvs)) as Hpos by (destruct kvs; [done|cbn; lia]).
  unfold LeafInsert. rewrite Hl. cbn [asserting].
  destruct (if index =? 0 then _ else _) as [o|]; [|done]. rewrite !bind_Some in Hord. injection Hord as ->.
  rewrite bind_Some. cbn [asserting]. rewrite Hsafe, Hsz, Hcnt. unfold leaf_cut.
  set (cnt := Z.of_nat (length kvs)) in *. remember (cnt / 2) as mid eqn:Emid.
  assert (0 <= mid < cnt) as Hmid by (Z.to_euclidean_division_equations; lia).
  assert (cnt <= 2 * mid + 1) as Hhalf by (Z.to_euclidean_division_equations; lia).
  assert (values_of n = Some vs) as Evs by (unfold values_of; by rewrite Hvs).
  set (nn := with_upper _ _).
  assert (Z.of_nat (length (keys_ nn)) = sz) as Hnk by (cbn; rewrite length_replicate; lia).
  assert (length (ins_at index (key, v) kvs) = S (length kvs)) as Hlen by apply length_ins_at.
  assert (length kvs.*1 = length kvs) as Lk by apply length_fmap. assert (length kvs.*2 = length kvs) as Lv by apply length_fmap.
  set (nvs := replicate (Z.to_nat sz) inhabitant : list V).
  assert (values_of nn = Some nvs) as Env by done.
  assert (Z.of_nat (length nvs) = sz) as Hnv by (unfold nvs; rewrite length_replicate; lia).
  destruct (Z.leb_spec index mid) as [Hleft|Hright].
  - unfold leaf_split_left. rewrite Env, Evs, !bind_Some, Hcnt, <- Emid.
    destruct (copy_run_spec (keys_ n) vs mid mid 0 0 (cnt - mid) (keys_ nn) nvs) as (nks' & nvs' & -> & N1 & N2 & N3 & N4);
      [lia..|]. rewrite bind_Some. btrue (0 <? cnt - mid). cbn [asserting].
    destruct (insert_shifted 0 index mid (keys_ n) vs _ _ key v Hk Hv)
      as (ks1 & vs1 & E1 & ks2 & vs2 & E2 & E3 & L1 & L2 & H1 & H2); [lia..|].
    rewrite E1, bind_Some, E2, bind_Some. rewrite (Z.add_0_r index) in *. rewrite E3, bind_Some.
    btrue (0 <? mid + 1). cbn [asserting]. rewrite bind_Some. eexists _, _. split; [done|].
    split; split; cbn; try done.
    + rewrite length_take. lia.
    + rewrite length_take. lia.
    + split; [lia|]. rewrite fmap_take, fmap_ins_at. apply kept_below; cbn; [lia..|]. intros j Hj. apply H1. lia.
    + exists vs2. split; [done|]. split; [lia|]. rewrite fmap_take, fmap_ins_at. apply kept_below; cbn; [lia..|].
      intros j Hj. apply H2; lia.
    + rewrite length_drop. lia.
    + rewrite length_drop. lia.
    + split; [lia|]. rewrite fmap_drop, fmap_ins_at. apply (copied_above _ (keys_ n)); cbn; [done|lia..|].
      intros j Hj. rewrite N3 by lia. index_cases. done.
    + exists nvs'. split; [done|]. split; [lia|]. rewrite fmap_drop, fmap_ins_at. apply (copied_above _ vs); cbn; [done|lia..|].
      intros j Hj. rewrite N4 by lia. index_cases. f_equal. lia.
  - unfold leaf_split_right. rewrite Env, Evs, !bind_Some, Hcnt, <- Emid.
    set (m1 := mid + 1) in *.
    destruct (copy_run_spec (keys_ n) vs m1 m1 0 0 (index - m1) (keys_ nn) nvs) as (nks' & nvs' & -> & N1 & N2 & N3 & N4);
      [lia..|]. rewrite bind_Some. rewrite !aset_in_range, !bind_Some by lia.
    destruct (copy_run_spec (keys_ n) vs (m1 - 1) (m1 - 1) 0 (index - m1 + 1) (cnt - m1 + 1 - (index - m1 + 1))
      (<[Z.to_nat (index - m1) := key]> nks') (<[Z.to_nat (index - m1) := v]> nvs'))
      as (nks2 & nvs2 & -> & M1 & M2 & M3 & M4); rewrite ?length_insert; [lia..|].
    rewrite bind_Some. btrue (0 <? cnt - m1 + 1). btrue (0 <? m1). cbn [asserting]. rewrite bind_Some.
    rewrite !length_insert in *. eexists _, _. split; [done|].
    split; split; cbn; try done.
    + rewrite length_take. lia.
    + rewrite length_take. lia.
    + split; [done|]. rewrite fmap_take, fmap_ins_at. apply kept_before; cbn; [done|lia..].
    + exists vs. split; [done|]. split; [lia|]. rewrite fmap_take, fmap_ins_at. apply kept_before; cbn; [done|lia..].
    + rewrite length_drop. lia.
    + rewrite length_drop. lia.
    + split; [lia|]. rewrite fmap_drop, fmap_ins_at. apply (copied_around _ (keys_ n)); cbn; [done|lia..|].
      intros j Hj. rewrite M3, aget_insert, N3 by lia. index_cases; same_index.
    + exists nvs2. split; [done|]. split; [lia|]. rewrite fmap_drop, fmap_ins_at. apply (copied_around _ vs); cbn; [done|lia..|].
      intros j Hj. rewrite M4, aget_insert, N4 by lia. index_cases; same_index.
Qed.
End insert.
End leaf.

(** ** Inner nodes *)

(** the keys of a node: the bounds of its entries *)
Definition bounds (E : level) : list Z := omap snd E.

Section bounds.
Context (T : ktype).
Implicit Types (E : level).

Lemma bounds_app E1 E2 : bounds (E1 ++ E2) = bounds E1 ++ bounds E2.
Proof. apply omap_app. Qed.

Lemma elem_of_bounds E k : k ∈ bounds E <-> exists e, e ∈ E /\ e.2 = Some k.
Proof. unfold bounds. by rewrite list_elem_of_omap. Qed.

Lemma length_bounds E : (forall e, e ∈ E -> is_Some e.2) -> length (bounds E) = length E.
Proof.
  induction E as [|[p u] E IH]; intros H; [done|]. destruct (H (p, u) ltac:(left)) as [v E']. cbn in E'. subst u.
  unfold bounds in *. cbn. rewrite IH; [done|]. intros e He. apply H. by right.
Qed.

(** the keys of an ordered level: all of it, or all but the last *)
Lemma bounds_before E1 e E2 : ordered (in_range T) (E1 ++ e :: E2) -> length (bounds E1) = length E1.
Proof.
  intros Ho. apply length_bounds. intros x (l1 & l2 & ->)%list_elem_of_split.
  rewrite <- app_assoc in Ho. apply (ordered_bound (in_range T) l1 x (l2 ++ e :: E2)); [done|]. by destruct l2.
Qed.

Lemma bounds_last E : ordered (in_range T) E -> E <> [] ->
  length E = (length (bounds E) + if bool_decide (is_Some (ub E)) then 0 else 1)%nat.
Proof.
  intros Ho Hne. destruct (exists_last Hne) as (E' & [p u] & ->). pose proof (bounds_before _ _ _ Ho) as Hl.
  rewrite bounds_app, !length_app, Hl, ub_snoc. cbn. unfold bounds. destruct u; cbn; lia.
Qed.

Lemma sorted_bounds E : ordered (in_range T) E -> sorted (bounds E).
Proof.
  intros [Hs _]. assert (StronglySorted Z.lt (bounds E)) as Hb.
  { induction Hs as [|[p u] E Hs IH Hall]; [constructor|]. unfold bounds in *. cbn. destruct u as [w|]; [|done].
    constructor; [done|]. apply Forall_forall. intros k (e & He & Ek)%elem_of_bounds.
    rewrite Forall_forall in Hall. specialize (Hall e He). unfold entry_lt in Hall. by rewrite Ek in Hall. }
  by apply sorted_strongly.
Qed.

(** the place of a key located at an entry *)
Lemma lower_located E1 e E2 key : ordered (in_range T) (E1 ++ e :: E2) -> located E1 e key -> lower (bounds (E1 ++ e :: E2)) key (Z.of_nat (length E1)).
Proof.
  intros Ho [Hf Hn]. pose proof (bounds_before _ _ _ Ho) as Hl. rewrite bounds_app. split; [|split].
  - rewrite length_app. lia.
  - intros j k Hj [_ Hk]%aget_Some. rewrite lookup_app_l in Hk by lia.
    apply list_elem_of_lookup_2, elem_of_bounds in Hk as (x & Hx & Ex). rewrite Forall_forall in Hf.
    specialize (Hf x Hx). unfold below in Hf. by rewrite Ex in Hf.
  - intros j k Hj [_ Hk]%aget_Some. rewrite lookup_app_r in Hk by lia.
    apply list_elem_of_lookup_2, elem_of_bounds in Hk as (x & Hx & Ex).
    assert (~ below key x) as Hb.
    { apply elem_of_cons in Hx as [->|Hx]; [done|]. intros Hb. apply Hn, (below_mono key e x); [|done].
      apply ordered_app in Ho as (_ & (_ & _ & Hlt)%ordered_cons & _). by apply Hlt. }
    unfold below in Hb. rewrite Ex in Hb. lia.
Qed.
End bounds.

Section inner.
Context {V : Type} `{!Inhabited V} (T : ktype).
Implicit Types (n : node V) (E : level).

Definition kids E : list ptr := Some <$> E.*1.

(** [n], of the size [sz], links to [E], and [nx] is to its right *)
Record inner_node (sz : Z) n E (nx : ptr) : Prop := {
  in_inner : is_leaf_ n = false;
  in_size : node_size_ n = sz;
  in_cnt : item_cnt_ n = Z.of_nat (length (bounds E));
  in_max : Z.of_nat (length (bounds E)) <= sz;
  in_some : bounds E <> [];
  in_keys : Z.of_nat (length (keys_ n)) = sz /\ starts (keys_ n) (bounds E);
  in_kids : exists cs, slots_ n = Children cs /\ Z.of_nat (length cs) = sz + 1 /\ starts cs (kids E);
  in_sibling : sibling_ptr_ n = nx;
  in_last : ub E = None -> nx = None;
}.

Lemma inner_nonempty sz n E nx : inner_node sz n E nx -> E <> [].
Proof. intros Hn ->. by apply (in_some _ _ _ _ Hn). Qed.

(** the entry of a key is the child to go to *)
Lemma inner_child sz n E1 e E2 nx key :
  inner_node sz n (E1 ++ e :: E2) nx -> ordered (in_range T) (E1 ++ e :: E2) -> located E1 e key ->
  NodeScan n key = Some (Z.of_nat (length E1)) /\ child n (Z.of_nat (length E1)) = Some (Some e.1)
  /\ (Z.of_nat (length E1) < item_cnt_ n \/ (Z.of_nat (length E1) = item_cnt_ n /\ sibling_ptr_ n = None)).
Proof.
  intros [Hl Hsz Hcnt Hmax Hsome [Hkl Hk] (cs & Hcs & Hcl & Hc) Hsib Hlast] Ho Hloc.
  destruct (NodeScan_spec n (bounds (E1 ++ e :: E2)) key Hk Hcnt (sorted_bounds T _ Ho)) as (i & Hi & Hlow).
  rewrite (lower_unique _ _ _ _ Hlow (lower_located T E1 e E2 key Ho Hloc)) in Hi.
  assert (E1 ++ e :: E2 <> []) as Hne by (by destruct E1).
  pose proof (bounds_last T _ Ho Hne) as Hb. rewrite length_app in Hb. cbn [length] in Hb.
  assert (Z.of_nat (length E1) < item_cnt_ n \/ (Z.of_nat (length E1) = item_cnt_ n /\ sibling_ptr_ n = None)) as Hidx.
  { rewrite Hcnt. case_bool_decide as Hu; [left; lia|].
    destruct (decide (Z.of_nat (length E1) = Z.of_nat (length (bounds (E1 ++ e :: E2))))) as [|]; [right|left; lia].
    split; [done|]. rewrite Hsib. apply Hlast. destruct (ub _); [|done]. destruct Hu. by eexists. }
  split; [done|]. split; [|done]. unfold child. rewrite Hl. cbn [negb asserting].
  replace (_ && _) with true.
  - unfold children_of. cbn [asserting]. rewrite Hcs, bind_Some. apply (starts_get _ _ _ _ Hc).
    unfold kids. rewrite !list_lookup_fmap, list_lookup_middle; done.
  - symmetry. apply andb_true_iff. split; [lia|]. destruct Hidx as [?|[-> ->]]; [blia|]. by rewrite Z.eqb_refl, orb_true_r.
Qed.

(** a located key is not for the sibling *)
Lemma inner_stays sz n E1 e E2 nx key :
  inner_node sz n (E1 ++ e :: E2) nx -> ordered (in_range T) (E1 ++ e :: E2) -> located E1 e key ->
  sibling_ptr_ n = None \/ exists k, high_key n = Some k /\ key <= k.
Proof.
  intros [Hl Hsz Hcnt Hmax Hsome [Hkl Hk] _ Hsib Hlast] Ho Hloc.
  destruct (sibling_ptr_ n) as [s|] eqn:Es; [right|by left].
  pose proof (lower_located T E1 e E2 key Ho Hloc) as (Hr & _ & Hup).
  assert (E1 ++ e :: E2 <> []) as Hne by (by destruct E1).
  pose proof (bounds_last T _ Ho Hne) as Hb. rewrite length_app in Hb. cbn [length] in Hb.
  rewrite bool_decide_true in Hb.
  2:{ destruct (ub _); [by eexists|]. specialize (Hlast eq_refl). congruence. }
  set (B := bounds (E1 ++ e :: E2)) in *. assert (0 < length B)%nat by (destruct B; [done|cbn; lia]).
  destruct (aget_in_range B (Z.of_nat (length B) - 1)) as [k Ek]; [lia|].
  exists k. split; [unfold high_key; rewrite Hcnt, (proj2 Hk) by lia; done|]. apply (Hup (Z.of_nat (length B) - 1)); [lia|done].
Qed.

(** ** [InnerInsert]: the child [a] was split, [r] is the new one *)

Section inner_insert.
Context (E1 E2 : level) (a r : Z) (u : option Z) (mid : Z).
Abbreviation before := (Levels.before E1 E2 a u).
Abbreviation after := (Levels.after E1 E2 a r u mid).
Context (Ho : ordered (in_range T) before) (Ho' : ordered (in_range T) after).

Lemma bounds_after : bounds after = ins_at (Z.of_nat (length E1)) mid (bounds before).
Proof.
  unfold Levels.after, Levels.before, ins_at. rewrite !bounds_app, Nat2Z.id.
  pose proof (bounds_before T _ _ _ Ho) as Hl. rewrite take_app_length', drop_app_length' by done. done.
Qed.

Lemma kids_after : kids after = ins_at (Z.of_nat (length E1) + 1) (Some r) (kids before).
Proof.
  unfold Levels.after, Levels.before, ins_at, kids. rewrite !fmap_app.
  replace (Z.to_nat (Z.of_nat (length E1) + 1)) with (length E1 + 1)%nat by lia. cbn [fmap list_fmap fst].
  change (Some a :: ?x) with ([Some a] ++ x). rewrite !(app_assoc _ [Some a]).
  rewrite take_app_length', drop_app_length' by (rewrite length_app, !length_fmap; done). by rewrite <- app_assoc.
Qed.

Context (sz : Z) n nx (Hn : inner_node sz n before nx) (threshold : spec_float) (ra : Z).
Abbreviation cnt := (Z.of_nat (length (bounds before))).
Abbreviation index := (Z.of_nat (length E1)).

Lemma inner_index :
  NodeScan n mid = Some index
  /\ (0 <=? index) && ((index <? item_cnt_ n) || ((index =? item_cnt_ n) && bool_decide (sibling_ptr_ n = None))) = true
  /\ index <= cnt.
Proof.
  destruct (inner_child sz n E1 (a, u) E2 nx mid Hn Ho) as (Hs & _ & Hi).
  { by apply (after_located E1 E2 a r u mid (in_range T)). }
  split; [done|]. rewrite <- (in_cnt _ _ _ _ Hn). split; [|lia].
  apply andb_true_iff. split; [lia|]. destruct Hi as [?|[-> ->]]; [blia|]. by rewrite Z.eqb_refl, orb_true_r.
Qed.

Lemma length_kids E : length (kids E) = length E.
Proof. unfold kids. by rewrite !length_fmap. Qed.

Lemma before_count : length before = (length (bounds before) + if bool_decide (is_Some (ub before)) then 0 else 1)%nat.
Proof. apply (bounds_last T); [done|]. by eapply inner_nonempty. Qed.

Lemma InnerInsert_safe :
  safe (item_cnt_ n) (node_size_ n) threshold = true -> cnt < sz ->
  exists n', InnerInsert n mid (Some a) (Some r) threshold ra = Some (n', None) /\ inner_node sz n' after nx.
Proof.
  intros Hsafe Hroom. destruct inner_index as (Hs & Hi & Hle). pose proof before_count as Hb.
  pose proof (in_some _ _ _ _ Hn) as Hsome.
  destruct Hn as [Hl Hsz Hcnt Hmax _ [Hkl Hk] (cs & Hcs & Hcl & Hc) Hsib Hlast].
  assert (0 < length (bounds before))%nat by (destruct (bounds before); [done|cbn; lia]).
  unfold InnerInsert. rewrite Hl, Hs, bind_Some, Hi, Hsafe. cbn [negb asserting]. unfold children_of.
  rewrite Hcs, bind_Some, Hcnt.
  assert (length before = (length E1 + S (length E2))%nat) as Lb by (unfold Levels.before; by rewrite length_app).
  destruct (insert_shifted 1 index cnt (keys_ n) cs _ _ mid (Some r) Hk Hc)
    as (ks1 & cs1 & E1' & ks2 & cs2 & E2' & E3' & L1 & L2 & H1 & H2); rewrite ?length_kids; [lia|lia|lia|lia|lia|lia|].
  rewrite E1', bind_Some. bfalse (cnt =? 0). rewrite bind_Some, E2', bind_Some, E3', bind_Some.
  eexists. split; [done|]. rewrite length_kids in H2.
  assert (length (bounds after) = S (length (bounds before))) as Lba by (rewrite bounds_after; apply length_ins_at).
  split; cbn; try done; [lia|lia| | | |].
  - intros E. by rewrite E in Lba.
  - split; [lia|]. apply starts_intro; rewrite Lba; [lia|]. intros j Hj. rewrite bounds_after. apply H1. lia.
  - exists cs2. split; [done|]. split; [lia|]. rewrite kids_after. apply starts_intro; rewrite length_ins_at, length_kids; [case_bool_decide; lia|].
    intros j Hj. apply H2; [case_bool_decide; lia|lia].
  - rewrite ub_after. done.
Qed.

(** where a full node is cut *)
Definition inner_cut : Z := cnt / 2 + 1.

Lemma bounds_cut E (c : Z) : ordered (in_range T) E -> 0 <= c < Z.of_nat (length E) ->
  bounds (take (Z.to_nat c) E) = take (Z.to_nat c) (bounds E)
  /\ bounds (drop (Z.to_nat c) E) = drop (Z.to_nat c) (bounds E).
Proof.
  intros HoE Hc. set (l1 := take (Z.to_nat c) E). destruct (drop (Z.to_nat c) E) as [|e l2] eqn:Ed.
  { apply (f_equal length) in Ed. rewrite length_drop in Ed. cbn in Ed. lia. }
  assert (E = l1 ++ e :: l2) as EE by (unfold l1; by rewrite <- Ed, take_drop).
  assert (length (bounds l1) = Z.to_nat c) as Hl.
  { rewrite (bounds_before T l1 e l2) by (by rewrite <- EE). unfold l1. rewrite length_take. lia. }
  rewrite EE, (bounds_app l1 (e :: l2)), take_app_length', drop_app_length' by done. done.
Qed.

Lemma kids_cut E (c : nat) : kids (take c E) = take c (kids E) /\ kids (drop c E) = drop c (kids E).
Proof. unfold kids. by rewrite <- !fmap_take, <- !fmap_drop. Qed.

(** the arrays of the two nodes: enough for them to be inner nodes *)
Lemma inner_halves ks cs ncs nks (up nup : ptr) :
  Z.of_nat (length ks) = sz -> Z.of_nat (length cs) = sz + 1 -> Z.of_nat (length nks) = sz -> Z.of_nat (length ncs) = sz + 1 ->
  starts ks (take (Z.to_nat inner_cut) (ins_at index mid (bounds before))) ->
  starts cs (take (Z.to_nat inner_cut) (ins_at (index + 1) (Some r) (kids before))) ->
  starts nks (drop (Z.to_nat inner_cut) (ins_at index mid (bounds before))) ->
  starts ncs (drop (Z.to_nat inner_cut) (ins_at (index + 1) (Some r) (kids before))) ->
  inner_node sz (mkNode false sz inner_cut (Some ra) up ks (Children cs)) (take (Z.to_nat inner_cut) after) (Some ra)
  /\ inner_node sz (mkNode false sz (cnt + 1 - inner_cut) nx nup nks (Children ncs)) (drop (Z.to_nat inner_cut) after) nx.
Proof.
  intros L1 L2 L3 L4 H1 H2 H3 H4. pose proof before_count as Hb. pose proof (in_some _ _ _ _ Hn) as Hsome.
  pose proof (in_max _ _ _ _ Hn) as Hmax. pose proof (in_last _ _ _ _ Hn) as Hlast.
  assert (0 < length (bounds before))%nat by (destruct (bounds before); [done|cbn; lia]).
  assert (0 < inner_cut <= cnt) as Hcut by (unfold inner_cut; Z.to_euclidean_division_equations; lia).
  assert (length (bounds after) = S (length (bounds before))) as Lba by (rewrite bounds_after; apply length_ins_at).
  assert (length after = S (length before)) as La by apply length_after.
  assert (inner_cut < Z.of_nat (length after)) as Hc by lia.
  destruct (bounds_cut after inner_cut Ho') as [B1 B2]; [lia|]. destruct (kids_cut after (Z.to_nat inner_cut)) as [K1 K2].
  rewrite <- bounds_after in H1, H3. rewrite <- kids_after in H2, H4.
  split; split; cbn; try done; rewrite ?B1, ?B2, ?K1, ?K2, ?length_take, ?length_drop; try lia.
  - intros E. apply (f_equal length) in E. rewrite length_take in E. cbn in E. lia.
  - done.
  - by exists cs.
  - intros Hu. assert (take (Z.to_nat inner_cut) after <> []) as Hne.
    { intros Et. apply (f_equal length) in Et. rewrite length_take in Et. cbn in Et. lia. }
    destruct (exists_last Hne) as (l & e & Et). rewrite Et, ub_snoc in Hu. destruct (drop (Z.to_nat inner_cut) after) as [|e2 l2] eqn:Ed.
    { apply (f_equal length) in Ed. rewrite length_drop in Ed. cbn in Ed. lia. }
    pose proof Ho' as Ho2. rewrite <- (take_drop (Z.to_nat inner_cut) after), Et, Ed, <- app_assoc in Ho2.
    apply (ordered_bound (in_range T) l e (e2 :: l2)) in Ho2 as [? ?]; [congruence|done].
  - intros E. apply (f_equal length) in E. rewrite length_drop in E. cbn in E. lia.
  - done.
  - by exists ncs.
  - intros Hu. apply Hlast. rewrite <- (ub_after E1 E2 a r u mid).
    rewrite <- (take_drop (Z.to_nat inner_cut) after), ub_app; [done|]. intros E.
    apply (f_equal length) in E. rewrite length_drop in E. cbn in E. lia.
Qed.

Lemma InnerInsert_split :
  safe (item_cnt_ n) (node_size_ n) threshold = false ->
  exists n' rn', InnerInsert n mid (Some a) (Some r) threshold ra = Some (n', Some rn')
    /\ inner_node sz n' (take (Z.to_nat inner_cut) after) (Some ra)
    /\ inner_node sz rn' (drop (Z.to_nat inner_cut) after) nx.
Proof.
  intros Hsafe. pose proof inner_halves as Hhalves. destruct inner_index as (Hs & Hi & Hle). pose proof before_count as Hb.
  pose proof (in_some _ _ _ _ Hn) as Hsome.
  destruct Hn as [Hl Hsz Hcnt Hmax _ [Hkl Hk] (cs & Hcs & Hcl & Hc) Hsib Hlast].
  assert (0 < length (bounds before))%nat by (destruct (bounds before); [done|cbn; lia]).
  unfold InnerInsert. rewrite Hl, Hs, bind_Some, Hi, Hsafe, Hsz, Hsib, Hcnt. cbn [negb asserting].
  set (nn := with_upper _ _). unfold inner_cut in *.
  assert (length before = (length E1 + S (length E2))%nat) as Lb by (unfold Levels.before; by rewrite length_app).
  remember (cnt / 2) as m eqn:Em.
  assert (0 <= m < cnt) as Hm by (Z.to_euclidean_division_equations; lia).
  assert (cnt <= 2 * m + 1) as Hhalf by (Z.to_euclidean_division_equations; lia).
  assert (children_of n = Some cs) as Ecs by (unfold children_of; by rewrite Hcs).
  set (nks0 := replicate (Z.to_nat sz) 0). set (ncs0 := replicate (Z.to_nat (sz + 1)) None : list ptr).
  assert (children_of nn = Some ncs0) as Encs by done. assert (keys_ nn = nks0) as Enks by done.
  assert (Z.of_nat (length nks0) = sz) as Hnk by (unfold nks0; rewrite length_replicate; lia).
  assert (Z.of_nat (length ncs0) = sz + 1) as Hnc by (unfold ncs0; rewrite length_replicate; lia).
  pose proof (length_kids before) as Lkb.
  assert (cnt <= Z.of_nat (length (kids before)) <= cnt + 1) as Hkb by (case_bool_decide; lia).
  destruct (Z.leb_spec index m) as [Hleft|Hright].
  - unfold inner_split_left. rewrite Encs, Ecs, !bind_Some, Hcnt, <- Em, Enks.
    destruct (copy_run_spec (keys_ n) cs m m 0 0 (cnt - m) nks0 ncs0) as (nks' & ncs' & -> & N1 & N2 & N3 & N4); [lia..|].
    rewrite bind_Some. destruct (aget_in_range cs cnt) as [c Ec]; [lia|]. rewrite Ec, bind_Some, aset_in_range, bind_Some by lia.
    btrue (0 <? cnt - m). cbn [asserting].
    set (ncs2 := <[Z.to_nat (cnt - m) := c]> ncs').
    assert (length ncs2 = length ncs') as Ln2 by (unfold ncs2; apply length_insert).
    assert (forall j, 0 <= j <= cnt - m -> aget ncs2 j = aget cs (j + m)) as Hncs2.
    { intros j Hj. unfold ncs2. rewrite aget_insert, N4 by lia. index_cases; try rewrite <- Ec; same_index. }
    destruct (Z.ltb_spec index m) as [Hlt|Hge].
    + destruct (insert_shifted 1 index m (keys_ n) cs _ _ mid (Some r) Hk Hc)
        as (ks1 & cs1 & E1' & ks2 & cs2 & E2' & E3' & L1 & L2 & H1 & H2); [lia..|].
      rewrite E1', bind_Some, E2', bind_Some, E3', !bind_Some. btrue (0 <? m + 1). cbn [asserting]. rewrite bind_Some.
      eexists _, _. split; [done|]. unfold with_sibling, with_items. cbn.
      replace (cnt - m) with (cnt + 1 - (m + 1)) by lia. rewrite Hl, Hsz. apply Hhalves; [lia..| | | |].
      * apply kept_below; [lia..|]. intros j Hj. apply H1. lia.
      * apply kept_below; [lia..|]. intros j Hj. apply H2; lia.
      * apply (copied_above _ (keys_ n)); [done|lia..|]. intros j Hj. rewrite N3 by lia. index_cases. done.
      * apply (copied_above _ cs); [done|lia..|]. intros j Hj. apply Hncs2. lia.
    + assert (index = m) as Eim by lia.
      destruct (shift_up_spec 1 index m (keys_ n) cs) as (ks1 & cs1 & E1' & L1 & L2 & H1 & H2); [lia..|].
      rewrite E1', bind_Some, aset_in_range, bind_Some by lia. rewrite aset_in_range, !bind_Some by lia.
      btrue (0 <? m + 1). cbn [asserting]. rewrite bind_Some.
      eexists _, _. split; [done|]. unfold with_sibling, with_items. cbn.
      replace (cnt - m) with (cnt + 1 - (m + 1)) by lia. rewrite Hl, Hsz.
      apply Hhalves; rewrite ?length_insert; [lia..| | | |].
      * apply kept_below; rewrite ?length_insert; [lia..|]. intros j Hj. rewrite aget_insert, aget_ins_at, H1 by lia.
        index_cases; try done. apply Hk. lia.
      * apply kept_below; [lia..|]. intros j Hj. rewrite aget_ins_at, H2 by lia. index_cases. apply Hc. lia.
      * apply (copied_above _ (keys_ n)); [done|lia..|]. intros j Hj. rewrite N3 by lia. index_cases. done.
      * apply (copied_around _ cs); rewrite ?length_insert; [done|lia..|]. intros j Hj.
        rewrite aget_insert by lia. index_cases; [done|]. rewrite Hncs2 by lia. f_equal. lia.
  - unfold inner_split_right. rewrite Encs, Ecs, !bind_Some, Hcnt, <- Em, Enks. set (m1 := m + 1) in *.
    destruct (copy_run_spec (keys_ n) cs m1 m1 0 0 (index - m1) nks0 ncs0) as (nks' & ncs' & -> & N1 & N2 & N3 & N4); [lia..|].
    rewrite bind_Some. destruct (aget_in_range cs (m1 + (index - m1))) as [c Ec]; [lia|]. rewrite Ec, bind_Some.
    rewrite !aset_in_range, !bind_Some by (rewrite ?length_insert; lia). rewrite aset_in_range, bind_Some by (rewrite length_insert; lia).
    set (ncs2 := <[Z.to_nat (index - m1 + 1) := Some r]> _). set (nks2 := <[Z.to_nat (index - m1) := mid]> nks').
    assert (length ncs2 = length ncs0) as Ln2 by (unfold ncs2; by rewrite !length_insert).
    assert (length nks2 = length nks0) as Lk2 by (unfold nks2; by rewrite length_insert).
    destruct (copy_run_spec (keys_ n) cs (m1 - 1) m1 1 (index - m1 + 1) (cnt - m1 + 1 - (index - m1 + 1)) nks2 ncs2)
      as (nks3 & ncs3 & -> & M1 & M2 & M3 & M4); [lia..|].
    rewrite bind_Some. btrue (0 <? cnt - m1 + 1). btrue (0 <? m1). cbn [asserting]. rewrite bind_Some.
    eexists _, _. split; [done|]. unfold with_sibling, with_items. cbn.
    replace (cnt - m1 + 1) with (cnt + 1 - m1) by lia. rewrite Hl, Hsz. apply Hhalves; [lia..| | | |].
    + apply kept_before; [done|lia..].
    + apply kept_before; [done|lia..].
    + apply (copied_around _ (keys_ n)); [done|lia..|]. intros j Hj. rewrite M3 by lia. unfold nks2.
      rewrite aget_insert, N3 by lia. index_cases; same_index.
    + apply (copied_around _ cs); [done|lia..|]. intros j Hj. rewrite M4 by lia. unfold ncs2.
      rewrite aget_insert by (rewrite length_insert; lia). rewrite aget_insert, N4 by lia.
      index_cases; try rewrite <- Ec; same_index.
Qed.
End inner_insert.

(** the new root *)
Lemma InnerInsert_root sz a r mid threshold ra :
  1 <= sz -> safe 0 sz threshold = true ->
  exists n', InnerInsert (BLinkNode sz false) mid (Some a) (Some r) threshold ra = Some (n', None)
    /\ inner_node sz n' [(a, Some mid); (r, None)] None.
Proof.
  intros Hsz Hsafe. unfold InnerInsert. cbn [is_leaf_ BLinkNode negb asserting].
  unfold NodeScan. cbn [item_cnt_ BLinkNode]. change (0 - 1 =? -1) with true. cbn iota. rewrite bind_Some.
  change (0 - 1 + 1) with 0. cbn [sibling_ptr_ node_size_]. cbn [Z.leb Z.ltb Z.eqb andb orb asserting Z.compare].
  change (bool_decide (sibling_ptr_ (BLinkNode (V := V) sz false) = None)) with true. cbn [andb asserting].
  change (node_size_ (BLinkNode (V := V) sz false)) with sz. rewrite Hsafe.
  change (children_of (BLinkNode (V := V) sz false)) with (Some (replicate (Z.to_nat (sz + 1)) (@None Z))).
  change (keys_ (BLinkNode (V := V) sz false)) with (replicate (Z.to_nat sz) 0). rewrite bind_Some.
  change (shift_up 1 0 0 ?k ?c) with (Some (k, c)). rewrite bind_Some.
  assert (Z.of_nat (length (replicate (Z.to_nat sz) 0)) = sz) as Hk by (rewrite length_replicate; lia).
  assert (Z.of_nat (length (replicate (Z.to_nat (sz + 1)) (@None Z))) = sz + 1) as Hc by (rewrite length_replicate; lia).
  cbn [asserting]. rewrite !aset_in_range by lia. rewrite !bind_Some.
  rewrite aset_in_range, bind_Some by (rewrite length_insert; lia). eexists. split; [done|].
  split; cbn; try done.
  - rewrite length_insert. split; [done|]. apply starts_intro; [rewrite length_insert; cbn; lia|]. cbn. intros j Hj.
    assert (j = 0) as -> by lia. by rewrite (aget_insert _ 0) by lia.
  - eexists. split; [done|]. rewrite !length_insert. split; [done|].
    apply starts_intro; [rewrite !length_insert; cbn; lia|]. cbn. intros j Hj.
    rewrite (aget_insert _ 1), (aget_insert _ 0) by (rewrite ?length_insert; lia).
    assert (j = 0 \/ j = 1) as [->| ->] by lia; done.
Qed.
End inner.
