(* ===== verification/BLinkTree.v ===== *)
(** * The B-link tree: [BLinkTree] of [src/BLinkTree/b_link_tree.h], and the parameters of [b_tree.h]

    The nodes live in a heap, their latches in a map of their own (no entry: free).
    The operations are run by one thread that meets no other: taking a latch that is
    held, or giving back one that is not, is [None]. Following pointers takes the
    nodes of the heap as fuel. *)

From S2P Require Import Prelude BLinkNode.
From Stdlib Require Import Floats.SpecFloat.

(** the address that [new] returns *)
Class NodeAllocator (V : Type) := new_node : gmap Z (BLinkNode.node V) -> Z.

Module BLinkTree.
Import BLinkNode.

(** BLinkTree/b_tree.h:13-29 [BTree] *)
Record BTree := mkBTree {
  inner_node_size_ : Z;
  leaf_node_size_ : Z;
  inner_split_threshold_ : spec_float;
  inner_merge_threshold_ : spec_float;
  leaf_split_threshold_ : spec_float;
  leaf_merge_threshold_ : spec_float;
}.

(** the doubles 0.75 and 0.25 *)
Definition three_quarters : spec_float := binary_normalize 53 1024 3 (-2) false.
Definition one_quarter : spec_float := binary_normalize 53 1024 1 (-2) false.

(** BLinkTree/b_tree.h:25-29 [BTree]

    the default arguments *)
Definition BTree_default : BTree := mkBTree 4096 4096 three_quarters one_quarter three_quarters one_quarter.

(** a latch that is held: by readers, or by a writer *)
Inductive held := Shared (readers : positive) | Exclusive.
#[global] Instance held_eq_dec : EqDecision held.
Proof. solve_decision. Defined.
Abbreviation latches := (gmap Z held).

(** BLinkTree/b_link_tree.h:20-27 [BLinkTree] *)
Record tree {V : Type} := mkTree {
  base : BTree;
  nodes : gmap Z (node V);
  latched : latches;
  root_ : Z;
  leaves_ : Z;
  tree_depth_ : Z;
}.
Arguments tree V : clear implicits.
Arguments mkTree {V}.

Section tree.
Context {V : Type} `{!Inhabited V} `{!NodeAllocator V}.
Implicit Types (t : tree V) (ns : gmap Z (node V)) (ls : latches) (n : node V) (key : Z).

Definition with_nodes t ns := mkTree (base t) ns (latched t) (root_ t) (leaves_ t) (tree_depth_ t).
Definition with_latched t ls := mkTree (base t) (nodes t) ls (root_ t) (leaves_ t) (tree_depth_ t).
Definition with_root t r := mkTree (base t) (nodes t) (latched t) r (leaves_ t) (tree_depth_ t).
Definition with_depth t d := mkTree (base t) (nodes t) (latched t) (root_ t) (leaves_ t) d.

(** BLinkTree/b_link_node.h:100-102 [latch_shared] *)
Definition latch_shared ls (a : Z) : option latches :=
  match ls !! a with
  | None => Some (<[a := Shared 1]> ls)
  | Some (Shared r) => Some (<[a := Shared (r + 1)]> ls)
  | Some Exclusive => None
  end.
(** BLinkTree/b_link_node.h:104-106 [unlatch_shared] *)
Definition unlatch_shared ls (a : Z) : option latches :=
  match ls !! a with
  | Some (Shared r) => Some (if (r =? 1)%positive then delete a ls else <[a := Shared (r - 1)]> ls)
  | _ => None
  end.
(** BLinkTree/b_link_node.h:108-110 [latch_exclusive] *)
Definition latch_exclusive ls (a : Z) : option latches :=
  match ls !! a with None => Some (<[a := Exclusive]> ls) | Some _ => None end.
(** BLinkTree/b_link_node.h:112-114 [unlatch_exclusive] *)
Definition unlatch_exclusive ls (a : Z) : option latches :=
  match ls !! a with Some Exclusive => Some (delete a ls) | _ => None end.

Definition node_fuel ns : nat := S (stdpp.base.size ns).

(** BLinkTree/b_link_tree.h:35-35 [TraverseInner]

    [sibling() != nullptr && high_key() < key]: the test before every move to the right *)
Definition beyond n key : option bool :=
  if bool_decide (sibling n = None) then Some false
  else let* k := high_key n in Some (k <? key).

(** BLinkTree/b_link_tree.h:30-45 [TraverseInner]

    the leaf, and the latches *)
Fixpoint TraverseInner (fuel : nat) ns ls (current key : Z) : option (latches * Z) :=
  match fuel with
  | O => None
  | S fuel =>
      let* n := ns !! current in
      if is_leaf n then Some (ls, current)
      else
        let work := current in
        let* ls := latch_shared ls work in
        let* moves := beyond n key in
        let* next := if (moves : bool) then Some (sibling n)
                     else let* index := NodeScan n key in child n index in
        let* ls := unlatch_shared ls work in
        let* current := next in
        TraverseInner fuel ns ls current key
  end.

(** BLinkTree/b_link_tree.h:48-61 [BLinkTree] *)
Definition BLinkTree (b : BTree) ns : tree V :=
  let root := new_node ns in
  mkTree b (<[root := BLinkNode (leaf_node_size_ b) true]> ns) ∅ root root 1.

(** BLinkTree/b_link_tree.h:66-72 [~BLinkTree]

    the nodes to the right of one are deleted; [deleted] lists the nodes *)
Fixpoint delete_right (fuel : nat) ns (current : ptr) (deleted : list Z) : option (gmap Z (node V) * list Z) :=
  match fuel with
  | O => None
  | S fuel =>
      match current with
      | None => Some (ns, deleted)
      | Some current =>
          let* n := ns !! current in
          delete_right fuel (delete current ns) (sibling n) (deleted ++ [current])
      end
  end.

(** BLinkTree/b_link_tree.h:63-83 [~BLinkTree] *)
Fixpoint delete_levels (fuel : nat) ns (left : Z) (deleted : list Z) : option (gmap Z (node V) * list Z) :=
  match fuel with
  | O => None
  | S fuel =>
      let* n := ns !! left in
      let* (ns, deleted) := delete_right (node_fuel ns) ns (sibling n) deleted in
      let current := left in
      let* n := ns !! current in
      if negb (is_leaf n) then
        let* left := child n 0 in
        let* left := left in
        delete_levels fuel (delete current ns) left (deleted ++ [current])
      else Some (delete current ns, deleted ++ [current])
  end.
Definition destroy t : option (gmap Z (node V) * list Z) := delete_levels (node_fuel (nodes t)) (nodes t) (root_ t) [].

(** BLinkTree/b_link_tree.h:90-115 [Insert]

    the leaf and the inner nodes left for a child, last first; or nothing, when the key
    is in an inner node *)
Fixpoint insert_down (fuel : nat) ns ls (current key : Z) (path_stack : list Z) : option (latches * option (Z * list Z)) :=
  match fuel with
  | O => None
  | S fuel =>
      let* n := ns !! current in
      if is_leaf n then Some (ls, Some (current, path_stack))
      else
        let work := current in
        let* ls := latch_shared ls work in
        let* is_sibling := beyond n key in
        if (is_sibling : bool) then
          let* ls := unlatch_shared ls work in
          let* current := sibling n in
          insert_down fuel ns ls current key path_stack
        else
          let* index := NodeScan n key in
          let* present := if index <? size n then let* k := key_at n index in Some (k =? key) else Some false in
          if (present : bool) then let* ls := unlatch_shared ls work in Some (ls, None)
          else
            let* next := child n index in
            let* ls := unlatch_shared ls work in
            let* current := next in
            insert_down fuel ns ls current key (work :: path_stack)
  end.

(** BLinkTree/b_link_tree.h:119-126 [Insert]

    to the right, hand over hand; also of the inner nodes, at 162-169 *)
Fixpoint right_coupled (fuel : nat) ns ls (current key : Z) : option (latches * Z) :=
  match fuel with
  | O => None
  | S fuel =>
      let* n := ns !! current in
      let* moves := beyond n key in
      if (moves : bool) then
        let* work := sibling n in
        let* ls := latch_exclusive ls work in
        let* ls := unlatch_exclusive ls current in
        right_coupled fuel ns ls work key
      else Some (ls, current)
  end.

(** BLinkTree/b_link_tree.h:140-174 [Insert]

    [current] is latched; the result is the node that is, at the end of the loop *)
Fixpoint split_loop (fuel : nat) t (current : Z) (new_node_ : ptr) (path_stack : list Z) : option (tree V * Z) :=
  match fuel with
  | O => None
  | S fuel =>
      match new_node_ with
      | None => Some (t, current)
      | Some new_a =>
          let* new_n := nodes t !! new_a in
          let* cur_n := nodes t !! current in
          let* right_max_key := key_at new_n (size new_n - 1) in
          let* left_max_key := key_at cur_n (size cur_n - 1) in
          let* (t, work, path_stack) :=
            if current =? root_ t then
              let work := new_node (nodes t) in
              let ns := <[work := BLinkNode (inner_node_size_ (base t)) false]> (nodes t) in
              let ns := <[current := with_upper cur_n (Some work)]> ns in
              let ns := <[new_a := with_upper new_n (Some work)]> ns in
              Some (with_depth (with_nodes t ns) (tree_depth_ t + 1), work, path_stack)
            else
              match path_stack with
              | work :: path_stack => Some (t, work, path_stack)
              | [] => let* work := upper_level cur_n in Some (t, work, [])
              end in
          let* ls := latch_exclusive (latched t) work in
          let t := with_latched t ls in
          let t := if current =? root_ t then with_root t work else t in
          let* (ls, work) := right_coupled (node_fuel (nodes t)) (nodes t) (latched t) work right_max_key in
          let* ls := unlatch_exclusive ls current in
          let* work_n := nodes t !! work in
          let ra := new_node (nodes t) in
          let* (work_n, rn_) :=
            InnerInsert work_n left_max_key (Some current) (Some new_a) (inner_split_threshold_ (base t)) ra in
          let ns := <[work := work_n]> (nodes t) in
          match rn_ with
          | None => split_loop fuel (with_latched (with_nodes t ns) ls) work None path_stack
          | Some rn => split_loop fuel (with_latched (with_nodes t (<[ra := rn]> ns)) ls) work (Some ra) path_stack
          end
      end
  end.

(** BLinkTree/b_link_tree.h:85-178 [Insert] *)
Definition Insert t key (v : V) : option (bool * tree V) :=
  let ns := nodes t in
  let* (ls, down) := insert_down (node_fuel ns) ns (latched t) (root_ t) key [] in
  match down with
  | None => Some (false, with_latched t ls)
  | Some (current, path_stack) =>
      let* ls := latch_exclusive ls current in
      let* (ls, current) := right_coupled (node_fuel ns) ns ls current key in
      let* n := ns !! current in
      let* index := NodeScan n key in
      let* present := if index <? size n then let* k := key_at n index in Some (k =? key) else Some false in
      if (present : bool) then
        let* ls := unlatch_exclusive ls current in Some (false, with_latched t ls)
      else
        let ra := new_node ns in
        let* (n, rn_) := LeafInsert n key v index (leaf_split_threshold_ (base t)) ra in
        let ns := <[current := n]> ns in
        let '(ns, rp) := match rn_ with None => (ns, None) | Some rn => (<[ra := rn]> ns, Some ra) end in
        let* (t, work) := split_loop (S (S (node_fuel ns))) (with_latched (with_nodes t ns) ls) current rp path_stack in
        let* ls := unlatch_exclusive (latched t) work in
        Some (true, with_latched t ls)
  end.

(** BLinkTree/b_link_tree.h:186-194 [Update]

    to the right, one latch at a time *)
Fixpoint right_exclusive (fuel : nat) ns ls (current key : Z) : option (latches * Z) :=
  match fuel with
  | O => None
  | S fuel =>
      let* n := ns !! current in
      let* moves := beyond n key in
      if (moves : bool) then
        let* work := sibling n in
        let* ls := unlatch_exclusive ls current in
        let* ls := latch_exclusive ls work in
        right_exclusive fuel ns ls work key
      else Some (ls, current)
  end.

(** BLinkTree/b_link_tree.h:180-207 [Update] *)
Definition Update t key (v : V) : option (bool * tree V) :=
  let ns := nodes t in
  let* (ls, current) := TraverseInner (node_fuel ns) ns (latched t) (root_ t) key in
  let* ls := latch_exclusive ls current in
  let* (ls, current) := right_exclusive (node_fuel ns) ns ls current key in
  let* n := ns !! current in
  let* index := NodeScan n key in
  let* absent := if index =? size n then Some true else let* k := key_at n index in Some (negb (k =? key)) in
  if (absent : bool) then
    let* ls := unlatch_exclusive ls current in Some (false, with_latched t ls)
  else
    let* n := set_value n index v in
    let* ls := unlatch_exclusive ls current in
    Some (true, with_latched (with_nodes t (<[current := n]> ns)) ls).

(** BLinkTree/b_link_tree.h:214-223 [Search]

    also of the scans, at 281-290 and 338-347 *)
Fixpoint right_shared (fuel : nat) ns ls (current key : Z) : option (latches * Z) :=
  match fuel with
  | O => None
  | S fuel =>
      let* n := ns !! current in
      let* moves := beyond n key in
      if (moves : bool) then
        let* work := sibling n in
        let* ls := unlatch_shared ls current in
        let* ls := latch_shared ls work in
        right_shared fuel ns ls work key
      else Some (ls, current)
  end.

(** BLinkTree/b_link_tree.h:209-236 [Search]

    the value, when there is one *)
Definition Search t key : option (option V * tree V) :=
  let ns := nodes t in
  let* (ls, current) := TraverseInner (node_fuel ns) ns (latched t) (root_ t) key in
  let* ls := latch_shared ls current in
  let* (ls, current) := right_shared (node_fuel ns) ns ls current key in
  let* n := ns !! current in
  let* index := NodeScan n key in
  let* absent := if index =? size n then Some true else let* k := key_at n index in Some (negb (k =? key)) in
  if (absent : bool) then
    let* ls := unlatch_shared ls current in Some (None, with_latched t ls)
  else
    let* v := value n index in
    let* ls := unlatch_shared ls current in
    Some (Some v, with_latched t ls).

(** BLinkTree/b_link_tree.h:239-250 [SearchUnsafe]

    a move to the right fails the [assert] *)
Fixpoint unsafe_down (fuel : nat) ns (current key : Z) : option Z :=
  match fuel with
  | O => None
  | S fuel =>
      let* n := ns !! current in
      if is_leaf n then Some current
      else
        let* moves := beyond n key in
        assert* negb moves in
        let* index := NodeScan n key in
        let* next := child n index in
        let* current := next in
        unsafe_down fuel ns current key
  end.

(** BLinkTree/b_link_tree.h:238-269 [SearchUnsafe] *)
Definition SearchUnsafe t key : option (option V) :=
  let ns := nodes t in
  let* current := unsafe_down (node_fuel ns) ns (root_ t) key in
  let* n := ns !! current in
  let* moves := beyond n key in
  assert* negb moves in
  let* index := NodeScan n key in
  let* absent := if index =? size n then Some true else let* k := key_at n index in Some (negb (k =? key)) in
  if (absent : bool) then Some None
  else let* v := value n index in Some (Some v).

(** BLinkTree/b_link_tree.h:271-273 [Delete]

    to be implemented *)
Definition Delete t key : bool * tree V := (false, t).

(** BLinkTree/b_link_tree.h:322-327 [ScanFixed]

    the last latched first; also of [ScanRange], at 377-382 *)
Fixpoint release (ls : latches) (scan_stack : list Z) : option latches :=
  match scan_stack with
  | [] => Some ls
  | a :: scan_stack => let* ls := unlatch_shared ls a in release ls scan_stack
  end.

(** BLinkTree/b_link_tree.h:304-311 [ScanFixed]

    one node; the flag: the latches are to be released *)
Fixpoint fixed_node (fuel : nat) n (index scan_index scan_sz : Z) (kv_pairs : list (Z * V))
    : option (bool * Z * list (Z * V)) :=
  match fuel with
  | O => None
  | S fuel =>
      if index <? size n then
        let* k := key_at n index in
        let* v := value n index in
        let kv_pairs := kv_pairs ++ [(k, v)] in
        if scan_sz <=? scan_index + 1 then Some (true, scan_index + 1, kv_pairs)
        else fixed_node fuel n (index + 1) (scan_index + 1) scan_sz kv_pairs
      else Some (false, scan_index, kv_pairs)
  end.

(** BLinkTree/b_link_tree.h:302-320 [ScanFixed] *)
Fixpoint fixed_loop (fuel : nat) ns ls (current index scan_index scan_sz : Z) (scan_stack : list Z)
    (kv_pairs : list (Z * V)) : option (latches * list Z * list (Z * V)) :=
  match fuel with
  | O => None
  | S fuel =>
      if scan_index <? scan_sz then
        let* n := ns !! current in
        let* (stop, scan_index, kv_pairs) :=
          fixed_node (S (Z.to_nat (size n))) n index scan_index scan_sz kv_pairs in
        if (stop : bool) then Some (ls, scan_stack, kv_pairs)
        else
          match sibling n with
          | None => Some (ls, scan_stack, kv_pairs)
          | Some current =>
              let* ls := latch_shared ls current in
              fixed_loop fuel ns ls current 0 scan_index scan_sz (current :: scan_stack) kv_pairs
          end
      else Some (ls, scan_stack, kv_pairs)
  end.

(** BLinkTree/b_link_tree.h:275-330 [ScanFixed] *)
Definition ScanFixed t (left_key scan_sz : Z) (kv_pairs : list (Z * V)) : option (bool * list (Z * V) * tree V) :=
  let ns := nodes t in
  let* (ls, current) := TraverseInner (node_fuel ns) ns (latched t) (root_ t) left_key in
  let* ls := latch_shared ls current in
  let* (ls, current) := right_shared (node_fuel ns) ns ls current left_key in
  let* n := ns !! current in
  let* index := NodeScan n left_key in
  if index =? size n then
    let* ls := unlatch_shared ls current in Some (false, kv_pairs, with_latched t ls)
  else
    let* (ls, scan_stack, kv_pairs) :=
      fixed_loop (node_fuel ns) ns ls current index 0 scan_sz [current] kv_pairs in
    let* ls := release ls scan_stack in
    Some (true, kv_pairs, with_latched t ls).

(** BLinkTree/b_link_tree.h:359-366 [ScanRange] *)
Fixpoint range_node (fuel : nat) n (index right_key : Z) (kv_pairs : list (Z * V)) : option (bool * list (Z * V)) :=
  match fuel with
  | O => None
  | S fuel =>
      if index <? size n then
        let* k := key_at n index in
        if right_key <=? k then Some (true, kv_pairs)
        else
          let* v := value n index in
          range_node fuel n (index + 1) right_key (kv_pairs ++ [(k, v)])
      else Some (false, kv_pairs)
  end.

(** BLinkTree/b_link_tree.h:358-375 [ScanRange] *)
Fixpoint range_loop (fuel : nat) ns ls (current index right_key : Z) (scan_stack : list Z)
    (kv_pairs : list (Z * V)) : option (latches * list Z * list (Z * V)) :=
  match fuel with
  | O => None
  | S fuel =>
      let* n := ns !! current in
      let* (stop, kv_pairs) := range_node (S (Z.to_nat (size n))) n index right_key kv_pairs in
      if (stop : bool) then Some (ls, scan_stack, kv_pairs)
      else
        match sibling n with
        | None => Some (ls, scan_stack, kv_pairs)
        | Some current =>
            let* ls := latch_shared ls current in
            range_loop fuel ns ls current 0 right_key (current :: scan_stack) kv_pairs
        end
  end.

(** BLinkTree/b_link_tree.h:332-386 [ScanRange] *)
Definition ScanRange t (left_key right_key : Z) (kv_pairs : list (Z * V)) : option (bool * list (Z * V) * tree V) :=
  let ns := nodes t in
  let* (ls, current) := TraverseInner (node_fuel ns) ns (latched t) (root_ t) left_key in
  let* ls := latch_shared ls current in
  let* (ls, current) := right_shared (node_fuel ns) ns ls current left_key in
  let* n := ns !! current in
  let* index := NodeScan n left_key in
  if index =? size n then
    let* ls := unlatch_shared ls current in Some (false, kv_pairs, with_latched t ls)
  else
    let* (ls, scan_stack, kv_pairs) := range_loop (node_fuel ns) ns ls current index right_key [current] kv_pairs in
    let* ls := release ls scan_stack in
    Some (true, kv_pairs, with_latched t ls).

(** BLinkTree/b_link_tree.h:391-393 [ScanLeaf] *)
Definition leaf_pairs n (kv_pairs : list (Z * V)) : option (list (Z * V)) :=
  for_range (fun i kv_pairs =>
    let* k := key_at n i in
    let* v := value n i in
    Some (kv_pairs ++ [(k, v)])) 0 (size n) kv_pairs.

(** BLinkTree/b_link_tree.h:389-395 [ScanLeaf] *)
Fixpoint leaves_loop (fuel : nat) ns (work : ptr) (kv_pairs : list (Z * V)) : option (list (Z * V)) :=
  match fuel with
  | O => None
  | S fuel =>
      match work with
      | None => Some kv_pairs
      | Some work =>
          let* n := ns !! work in
          let* kv_pairs := leaf_pairs n kv_pairs in
          leaves_loop fuel ns (sibling n) kv_pairs
      end
  end.

(** BLinkTree/b_link_tree.h:388-396 [ScanLeaf] *)
Definition ScanLeaf t (kv_pairs : list (Z * V)) : option (list (Z * V)) :=
  leaves_loop (node_fuel (nodes t)) (nodes t) (Some (leaves_ t)) kv_pairs.

(** BLinkTree/b_link_tree.h:398-400 [GetTreeDepth] *)
Definition GetTreeDepth t : Z := tree_depth_ t.
End tree.
End BLinkTree.
