(* ===== verification/BLinkTreeSpec.v ===== *)
(** * What a B-link tree stands for, and what its searches and scans find

    The leaves hold a sorted list of pairs, cut into pieces; the levels above are a
    chain ([Levels]) over the bounds of the leaves. All latches are free between two
    operations. *)

From S2P Require Import Prelude Encode Levels BLinkNode BLinkSpec BLinkTree.
From Stdlib Require Import Floats.SpecFloat.
Import BLinkNode BLinkTree.

(** what the code relies on [new] for *)
Class NodeAllocatorLaws (V : Type) `{!NodeAllocator V} :=
  new_node_fresh (ns : gmap Z (node V)) : ns !! new_node ns = None.

(** the sizes and the split thresholds leave room for a pair, and do not split an
    empty node *)
Record params_ok (b : BTree) : Prop := {
  pk_leaf : 1 <= leaf_node_size_ b;
  pk_inner : 1 <= inner_node_size_ b;
  pk_leaf_room c : 0 <= c <= leaf_node_size_ b ->
    safe c (leaf_node_size_ b) (leaf_split_threshold_ b) = true -> c < leaf_node_size_ b;
  pk_inner_room c : 0 <= c <= inner_node_size_ b ->
    safe c (inner_node_size_ b) (inner_split_threshold_ b) = true -> c < inner_node_size_ b;
  pk_leaf_first : safe 0 (leaf_node_size_ b) (leaf_split_threshold_ b) = true;
  pk_inner_first : safe 0 (inner_node_size_ b) (inner_split_threshold_ b) = true;
}.

(** checked for every count up to the size *)
Definition params_check (b : BTree) : bool :=
  let check size th := forallb (fun c => negb (safe c size th) || (c <? size)) (seqZ 0 (size + 1)) in
  (1 <=? leaf_node_size_ b) && (1 <=? inner_node_size_ b)
  && check (leaf_node_size_ b) (leaf_split_threshold_ b) && check (inner_node_size_ b) (inner_split_threshold_ b)
  && safe 0 (leaf_node_size_ b) (leaf_split_threshold_ b) && safe 0 (inner_node_size_ b) (inner_split_threshold_ b).

Lemma params_check_ok b : params_check b = true -> params_ok b.
Proof.
  unfold params_check. rewrite !andb_true_iff, !forallb_forall. intros [[[[[H1 H2] H3] H4] H5] H6].
  split; [lia|lia| | |done|done]; intros c Hc Hs;
    [specialize (H3 c)|specialize (H4 c)]; rewrite <- list_elem_of_In, elem_of_seqZ, Hs in *; cbn in *; lia.
Qed.

Lemma default_params_ok : params_ok BTree_default.
Proof. apply params_check_ok. by vm_compute. Qed.

(** ** The pairs in the leaves *)

Section pairs.
Context {V : Type}.
Abbreviation pieces := (list (Z * list (Z * V))).
Implicit Types (P : pieces) (kvs l : list (Z * V)) (m : gmap Z V).

Definition all P : list (Z * V) := mjoin P.*2.

(** the bound of a leaf: its last key, if there is a leaf to its right *)
Definition piece_bound kvs P2 : option Z := match P2 with [] => None | _ => fst <$> last kvs end.
Fixpoint entries P : level :=
  match P with
  | [] => []
  | (a, kvs) :: P2 => (a, piece_bound kvs P2) :: entries P2
  end.
Definition closed P : level := (fun x => (x.1, fst <$> last x.2)) <$> P.

Lemma all_app P1 P2 : all (P1 ++ P2) = all P1 ++ all P2.
Proof. unfold all. by rewrite fmap_app, join_app. Qed.

Lemma all_cons a kvs P : all ((a, kvs) :: P) = kvs ++ all P.
Proof. done. Qed.

Lemma entries_app P1 P2 : P2 <> [] -> entries (P1 ++ P2) = closed P1 ++ entries P2.
Proof.
  intros Hne. induction P1 as [|[a kvs] P1 IH]; [done|]. cbn. rewrite IH. f_equal. f_equal.
  unfold piece_bound. destruct (P1 ++ P2) eqn:E; [|done]. by apply app_eq_nil in E as [_ ?].
Qed.

Lemma entries_inv P : forall C1 e C2, entries P = C1 ++ e :: C2 ->
  exists P1 kvs P2, P = P1 ++ (e.1, kvs) :: P2 /\ C1 = closed P1 /\ e.2 = piece_bound kvs P2 /\ C2 = entries P2.
Proof.
  induction P as [|[a kvs] P IH]; intros C1 e C2 E; [by destruct C1|]. destruct C1 as [|c C1]; cbn in E; injection E as <- E.
  - exists [], kvs, P. done.
  - destruct (IH C1 e C2 E) as (P1 & kvs' & P2 & -> & -> & Hb & ->). exists ((a, kvs) :: P1), kvs', P2.
    split; [done|]. split; [|done]. cbn. f_equal. f_equal. unfold piece_bound. by destruct P1.
Qed.

Lemma entries_fst P : (entries P).*1 = P.*1.
Proof. induction P as [|[a kvs] P IH]; [done|]. cbn. by rewrite IH. Qed.

(** the pairs of a map, in the order of the keys *)
Definition key_le : relation (Z * V) := fun x y => x.1 <= y.1.
#[global] Instance key_le_dec x y : Decision (key_le x y).
Proof. unfold key_le. apply _. Defined.
#[global] Instance key_le_trans : Transitive key_le.
Proof. intros x y z. unfold key_le. lia. Qed.
#[global] Instance key_le_total : Total key_le.
Proof. intros x y. unfold key_le. lia. Qed.

Definition elems m : list (Z * V) := merge_sort key_le (map_to_list m).

Abbreviation sorted_pairs l := (StronglySorted Z.lt l.*1).

Lemma sorted_nodup (K : list Z) : StronglySorted Z.lt K -> NoDup K.
Proof.
  induction 1 as [|k K _ IH Hall]; constructor; [|done]. intros Hin. rewrite Forall_forall in Hall.
  specialize (Hall k Hin). lia.
Qed.

Lemma sorted_pairs_le l : sorted_pairs l -> StronglySorted key_le l.
Proof.
  induction l as [|[k v] l IH]; intros Hs; [constructor|]. cbn in Hs. apply StronglySorted_inv in Hs as [Hs Hall].
  constructor; [by apply IH|]. apply Forall_forall. intros [k' v'] Hin. rewrite Forall_forall in Hall.
  unfold key_le. cbn. specialize (Hall k'). apply (list_elem_of_fmap_2 fst) in Hin. specialize (Hall Hin). lia.
Qed.

Lemma elems_unique l m : sorted_pairs l -> list_to_map l = m -> elems m = l.
Proof.
  intros Hs <-. pose proof (sorted_nodup _ Hs) as Hnd. unfold elems.
  assert (merge_sort key_le (map_to_list (list_to_map (M := gmap Z V) l)) ≡ₚ l) as Hp.
  { etransitivity; [apply merge_sort_Permutation|]. by apply map_to_list_to_map. }
  apply (StronglySorted_unique_strong key_le).
  - intros [k1 v1] [k2 v2] H1 H2 Hle Hle'. unfold key_le in *. cbn in *.
    rewrite Hp in H1. assert (k1 = k2) as <- by lia. f_equal.
    apply (elem_of_list_to_map (M := gmap Z) l k1) in H1; [|done]. apply (elem_of_list_to_map (M := gmap Z) l k1) in H2; [|done].
    congruence.
  - apply (StronglySorted_merge_sort key_le).
  - by apply sorted_pairs_le.
  - done.
Qed.

Lemma sorted_app l1 l2 : sorted_pairs (l1 ++ l2) <->
  sorted_pairs l1 /\ sorted_pairs l2 /\ (forall x y, x ∈ l1.*1 -> y ∈ l2.*1 -> x < y).
Proof. rewrite fmap_app, StronglySorted_app. naive_solver. Qed.

(** the pairs before and after a place *)
Lemma last_greatest l k v : sorted_pairs l -> last l = Some (k, v) -> forall x, x ∈ l.*1 -> x <= k.
Proof.
  intros Hs [l' ->]%last_Some x Hx. rewrite sorted_app in Hs. destruct Hs as (_ & _ & Hlt).
  rewrite fmap_app in Hx. apply elem_of_app in Hx as [Hx|Hx].
  - specialize (Hlt x k Hx). cbn in Hlt. specialize (Hlt ltac:(left)). lia.
  - apply list_elem_of_singleton in Hx as ->. done.
Qed.

Lemma elem_pieces P x : x ∈ (all P).*1 -> exists p kvs, (p, kvs) ∈ P /\ x ∈ kvs.*1.
Proof.
  intros ([k v] & -> & (kvs & Hk & Hkvs)%list_elem_of_join)%list_elem_of_fmap.
  apply list_elem_of_fmap in Hkvs as ([p kvs'] & -> & Hp). exists p, kvs'. split; [done|].
  apply list_elem_of_fmap. by exists (k, v).
Qed.

Lemma all_piece P p kvs x : (p, kvs) ∈ P -> x ∈ kvs.*1 -> x ∈ (all P).*1.
Proof.
  intros Hp ([k v] & -> & Hk)%list_elem_of_fmap. apply list_elem_of_fmap. exists (k, v). split; [done|].
  apply list_elem_of_join. exists kvs. split; [done|]. apply list_elem_of_fmap. by exists (p, kvs).
Qed.
End pairs.

Abbreviation pieces V := (list (Z * list (Z * V))).

(** ** The tree *)

Section tree.
Context {V : Type} `{!Inhabited V} (T : ktype) (b : BTree).
Implicit Types (ns : gmap Z (node V)) (n : node V) (t : tree V) (P : pieces V) (kvs : list (Z * V)) (m : gmap Z V).

Definition inner_at ns (p : Z) (E : level) (nx : ptr) : Prop :=
  exists n, ns !! p = Some n /\ inner_node (inner_node_size_ b) n E nx.
Definition leaf_at ns (a : Z) kvs (nx : ptr) : Prop :=
  exists n, ns !! a = Some n /\ leaf_node (leaf_node_size_ b) n kvs nx.

#[export] Instance inner_at_linked : Linked inner_at.
Proof.
  split.
  - intros ns p E nx (n & Hn & _). by eexists.
  - intros ns p E nx (n & _ & Hn). by eapply inner_nonempty.
  - intros ns ns' p E nx Eh (n & Hn & ?). exists n. by rewrite Eh.
Qed.

(** only the leaf of an empty tree is empty *)
Definition leaves ns P : Prop := forall P1 a kvs P2, P = P1 ++ (a, kvs) :: P2 ->
  leaf_at ns a kvs (first P2) /\ (kvs = [] -> P1 = [] /\ P2 = []).

(** a leaf and its place in the sorted pairs *)
Section place.
Context P1 a kvs P2 (Hs : StronglySorted Z.lt (all (P1 ++ (a, kvs) :: P2)).*1)
  (Hne : forall P1' a' kvs' P2', P1 ++ (a, kvs) :: P2 = P1' ++ (a', kvs') :: P2' -> kvs' = [] -> P1' = [] /\ P2' = []).

Lemma place_sorted :
  StronglySorted Z.lt (all P1).*1 /\ StronglySorted Z.lt kvs.*1 /\ StronglySorted Z.lt (all P2).*1
  /\ (forall x y, x ∈ (all P1).*1 -> y ∈ kvs.*1 -> x < y)
  /\ (forall x y, x ∈ kvs.*1 -> y ∈ (all P2).*1 -> x < y).
Proof.
  rewrite all_app, all_cons in Hs. rewrite sorted_app in Hs. destruct Hs as (H1 & H23 & H123).
  rewrite sorted_app in H23. destruct H23 as (H2 & H3 & H23). split; [done|]. split; [done|]. split; [done|].
  split; [|done]. intros x y Hx Hy. apply H123; [done|]. rewrite fmap_app. apply elem_of_app. by left.
Qed.

(** a piece before the last has a last pair *)
Lemma piece_last p kvs' : (p, kvs') ∈ P1 \/ (p = a /\ kvs' = kvs /\ P2 <> []) -> is_Some (last kvs').
Proof.
  intros H. apply last_is_Some. intros ->. destruct H as [(l1 & l2 & ->)%list_elem_of_split|(-> & <- & H)].
  - destruct (Hne l1 p [] (l2 ++ (a, kvs) :: P2)) as [_ H]; [by rewrite <- app_assoc|done|]. by destruct l2.
  - destruct (Hne P1 a [] P2) as [_ ?]; done.
Qed.

Context (key : Z) (Hloc : located (closed P1) (a, piece_bound kvs P2) key).

Lemma place_before x : x ∈ (all P1).*1 -> x < key.
Proof.
  intros (p & kvs' & Hp & Hx)%elem_pieces. destruct (piece_last p kvs') as [[k v] Hk]; [by left|].
  destruct Hloc as [Hf _]. rewrite Forall_forall in Hf. specialize (Hf (p, Some k)).
  unfold below in Hf. cbn in Hf. assert (k < key) as Hkey.
  { apply Hf, list_elem_of_fmap. exists (p, kvs'). cbn. by rewrite Hk. }
  destruct place_sorted as (H1 & _). enough (x <= k) by lia.
  apply (last_greatest kvs' k v); [|done|done].
  apply list_elem_of_split in Hp as (l1 & l2 & ->). rewrite all_app, all_cons, sorted_app in H1.
  destruct H1 as (_ & H1 & _). rewrite sorted_app in H1. apply H1.
Qed.

Lemma place_bound : P2 <> [] -> exists k v, last kvs = Some (k, v) /\ key <= k.
Proof.
  intros H. destruct (piece_last a kvs) as [[k v] Hk]; [by right|]. exists k, v. split; [done|].
  destruct Hloc as [_ Hn]. unfold below in Hn. cbn in Hn. unfold piece_bound in Hn. rewrite Hk in Hn.
  destruct P2; [done|]. cbn in Hn. lia.
Qed.

Lemma place_after x : x ∈ (all P2).*1 -> key < x.
Proof.
  intros Hx. destruct place_bound as (k & v & Hk & Hle).
  { intros ->. by apply not_elem_of_nil in Hx. }
  destruct place_sorted as (_ & _ & _ & _ & H). enough (k < x) by lia. apply H; [|done].
  apply last_Some in Hk as [l ->]. rewrite fmap_app. apply elem_of_app. right. by left.
Qed.

(** the map, at a located key, is what the leaf holds *)
Lemma place_lookup v : list_to_map (M := gmap Z V) (all (P1 ++ (a, kvs) :: P2)) !! key = Some v <-> (key, v) ∈ kvs.
Proof.
  rewrite <- elem_of_list_to_map by (by apply sorted_nodup). rewrite all_app, all_cons, !elem_of_app.
  split; [|naive_solver]. intros [H|[H|H]]; [|done|]; apply (list_elem_of_fmap_2 fst) in H; cbn in H.
  - apply place_before in H. lia.
  - apply place_after in H. lia.
Qed.
End place.

(** the state of a tree that stands for [m]: the leaves hold [P], the levels are [ups] *)
Record represents (t : tree V) m P (ups : list (list group)) : Prop := {
  bp_sorted : StronglySorted Z.lt (all P).*1;
  bp_range : Forall (in_range T) (all P).*1;
  bp_map : list_to_map (all P) = m;
  bp_leaves : leaves (nodes t) P;
  bp_chain : chain inner_at (nodes t) (entries P) ups (root_ t);
  bp_nodup : NoDup (P.*1 ++ addrs ups);
  bp_depth : tree_depth_ t = Z.of_nat (S (length ups));
  bp_first : first P = Some (leaves_ t);
  bp_free : latched t = ∅;
  bp_base : base t = b;
}.

Lemma leaves_nonempty ns P : leaves ns P ->
  forall P1 a kvs P2, P = P1 ++ (a, kvs) :: P2 -> kvs = [] -> P1 = [] /\ P2 = [].
Proof. intros Hl P1 a kvs P2 E. by destruct (Hl P1 a kvs P2 E). Qed.

(** the bounds of the leaves are in order *)
Lemma ordered_entries P :
  StronglySorted Z.lt (all P).*1 -> Forall (in_range T) (all P).*1 ->
  (forall P1 a kvs P2, P = P1 ++ (a, kvs) :: P2 -> kvs = [] -> P1 = [] /\ P2 = []) -> ordered (in_range T) (entries P).
Proof.
  induction P as [|[a kvs] P IH]; intros Hs Hr Hne; [split; constructor|]. cbn [entries].
  rewrite all_cons in Hs, Hr. rewrite sorted_app in Hs. destruct Hs as (Hs1 & Hs2 & Hlt).
  rewrite fmap_app, Forall_app in Hr. destruct Hr as [Hr1 Hr2].
  assert (forall u, piece_bound kvs P = Some u -> u ∈ kvs.*1) as Hin.
  { intros u. unfold piece_bound. destruct P; [done|]. intros ([k v] & (l & ->)%last_Some & ->)%fmap_Some.
    rewrite fmap_app. apply elem_of_app. right. by left. }
  apply ordered_cons. split; [|split].
  - intros u Hu. cbn in Hu. rewrite Forall_forall in Hr1. by apply Hr1, Hin.
  - apply IH; [done|done|]. intros P1 a' kvs' P2 -> E. destruct (Hne ((a, kvs) :: P1) a' kvs' P2) as [? _]; done.
  - intros e2 (l1 & l2 & El)%list_elem_of_split. apply entries_inv in El as (P1 & kvs2 & P2 & -> & _ & Hb & _).
    unfold entry_lt. cbn [snd]. destruct (piece_bound kvs _) as [u|] eqn:Eu.
    + rewrite Hb. destruct (piece_bound kvs2 P2) as [w|] eqn:Ew; [|done]. apply Hlt; [by apply Hin|].
      rewrite all_app, all_cons, !fmap_app. apply elem_of_app. right. apply elem_of_app. left.
      unfold piece_bound in Ew. destruct P2; [done|]. apply fmap_Some in Ew as ([k v] & (l & ->)%last_Some & ->).
      rewrite fmap_app. apply elem_of_app. right. by left.
    + unfold piece_bound in Eu. destruct (P1 ++ (e2.1, kvs2) :: P2) eqn:EP; [by destruct P1|].
      apply fmap_None, last_None in Eu as ->. destruct (Hne [] a [] (p :: l)) as [_ ?]; [by rewrite <- EP|done|done].
Qed.

(** where a key is *)
Record found t m P ups key (frs : list frame) P1 a kvs P2 (n : node V) : Prop := {
  fo_split : P = P1 ++ (a, kvs) :: P2;
  fo_located : located (closed P1) (a, piece_bound kvs P2) key;
  fo_zip : zip inner_at (nodes t) (closed P1) (a, piece_bound kvs P2) (entries P2) frs (root_ t);
  fo_levels : levels (a, piece_bound kvs P2) frs = ups;
  fo_takes : takes (in_range T) key (a, piece_bound kvs P2) frs;
  fo_node : nodes t !! a = Some n;
  fo_leaf : leaf_node (leaf_node_size_ b) n kvs (first P2);
}.

Lemma blink_find_leaf t m P ups key :
  represents t m P ups -> exists frs P1 a kvs P2 n, found t m P ups key frs P1 a kvs P2 n.
Proof.
  intros [Hs Hr _ Hl Hch _ _ _ _ _]. pose proof (ordered_entries P Hs Hr (leaves_nonempty _ _ Hl)) as Ho.
  destruct (chain_way inner_at (in_range T) (nodes t) ups (entries P) (root_ t) key Hch Ho)
    as (frs & C1 & [a u] & C2 & EC & Hloc & Hz & Hlev & Hway).
  apply entries_inv in EC as (P1 & kvs & P2 & EP & -> & Eu & ->). cbn [fst snd] in *. subst u.
  destruct (Hl P1 a kvs P2 EP) as [(n & Hn & Hleaf) _]. exists frs, P1, a, kvs, P2, n. by split.
Qed.

(** ** Searching *)

Lemma latch_shared_free ls a :
  ls !! a = None ->
  latch_shared ls a = Some (<[a := Shared 1]> ls) /\ unlatch_shared (<[a := Shared 1]> ls) a = Some ls.
Proof.
  intros Ha. unfold latch_shared, unlatch_shared. rewrite Ha, lookup_insert_eq. cbn. split; [done|].
  by rewrite delete_insert_id.
Qed.

Lemma latch_exclusive_free ls a :
  ls !! a = None ->
  latch_exclusive ls a = Some (<[a := Exclusive]> ls) /\ unlatch_exclusive (<[a := Exclusive]> ls) a = Some ls.
Proof.
  intros Ha. unfold latch_exclusive, unlatch_exclusive. rewrite Ha, lookup_insert_eq. split; [done|].
  by rewrite delete_insert_id.
Qed.

Lemma inner_beyond n E1 e E2 nx key :
  inner_node (inner_node_size_ b) n (E1 ++ e :: E2) nx -> ordered (in_range T) (E1 ++ e :: E2) -> located E1 e key ->
  beyond n key = Some false.
Proof.
  intros Hn Ho Hl. unfold beyond, sibling. destruct (inner_stays T _ n E1 e E2 nx key Hn Ho Hl) as [->|(k & -> & Hle)].
  - done.
  - destruct (bool_decide _); [done|]. rewrite bind_Some. by bfalse (k <? key).
Qed.

Lemma leaf_beyond n kvs P1 a P2 key :
  leaf_node (leaf_node_size_ b) n kvs (first P2) ->
  (P2 <> [] -> exists k v, last kvs = Some (k, v) /\ key <= k) -> located (closed P1) (a, piece_bound kvs P2) key ->
  beyond n key = Some false.
Proof.
  intros [_ _ Hcnt _ [_ [_ Hk]] _ Hsib] Hb Hl. unfold beyond, sibling. rewrite Hsib. destruct P2 as [|[p x] P2]; [done|].
  rewrite bool_decide_false by done. destruct Hb as (k & v & Hlast & Hle); [done|]. unfold high_key. rewrite Hcnt.
  apply last_Some in Hlast as [l ->]. rewrite length_app in *. cbn [length] in *.
  rewrite Hk by (rewrite length_fmap, length_app; cbn; lia). rewrite fmap_app.
  replace (Z.of_nat (length l + 1) - 1) with (Z.of_nat (length l)) by lia. rewrite aget_nat, lookup_app_r by (by rewrite length_fmap).
  rewrite length_fmap, Nat.sub_diag. cbn. by bfalse (k <? key).
Qed.

Section found.
Context t m P ups key frs P1 a kvs P2 n (Hr : represents t m P ups) (Hf : found t m P ups key frs P1 a kvs P2 n).

Lemma found_sorted : StronglySorted Z.lt (all (P1 ++ (a, kvs) :: P2)).*1.
Proof. rewrite <- (fo_split _ _ _ _ _ _ _ _ _ _ _ Hf). apply Hr. Qed.

Lemma found_nonempty P1' a' kvs' P2' : P1 ++ (a, kvs) :: P2 = P1' ++ (a', kvs') :: P2' -> kvs' = [] -> P1' = [] /\ P2' = [].
Proof.
  rewrite <- (fo_split _ _ _ _ _ _ _ _ _ _ _ Hf). intros E. eapply (leaves_nonempty (nodes t) P); [apply Hr|done].
Qed.

Lemma found_bound : P2 <> [] -> exists k v, last kvs = Some (k, v) /\ key <= k.
Proof. apply (place_bound P1 a kvs P2 found_sorted found_nonempty key). apply Hf. Qed.

Lemma found_before x : x ∈ (all P1).*1 -> x < key.
Proof. apply (place_before P1 a kvs P2 found_sorted found_nonempty key). apply Hf. Qed.

Lemma found_after x : x ∈ (all P2).*1 -> key < x.
Proof. apply (place_after P1 a kvs P2 found_sorted found_nonempty key). apply Hf. Qed.

Lemma found_lookup v : m !! key = Some v <-> (key, v) ∈ kvs.
Proof.
  rewrite <- (bp_map _ _ _ _ Hr), (fo_split _ _ _ _ _ _ _ _ _ _ _ Hf).
  apply (place_lookup P1 a kvs P2 found_sorted found_nonempty key). apply Hf.
Qed.

Lemma found_kvs : StronglySorted Z.lt kvs.*1.
Proof. apply (place_sorted P1 a kvs P2 found_sorted). Qed.

Lemma found_beyond : beyond n key = Some false.
Proof. apply (leaf_beyond n kvs P1 a P2); [apply Hf|apply found_bound|apply Hf]. Qed.

(** the scan of the leaf says whether the key is there *)
Lemma found_scan : exists i, NodeScan n key = Some i /\ lower kvs.*1 key i /\ size n = Z.of_nat (length kvs)
  /\ match m !! key with
     | Some v => i < Z.of_nat (length kvs) /\ kvs !! Z.to_nat i = Some (key, v)
     | None => key ∉ kvs.*1
     end.
Proof.
  pose proof (fo_leaf _ _ _ _ _ _ _ _ _ _ _ Hf) as Hleaf. destruct Hleaf as [Hl Hsz Hcnt Hmax [Hkl Hk] _ _].
  destruct (NodeScan_spec n kvs.*1 key Hk) as (i & Hi & Hlow).
  - by rewrite length_fmap.
  - apply sorted_strongly, found_kvs.
  - exists i. split; [done|]. split; [done|]. split; [done|]. destruct (m !! key) as [v|] eqn:Em.
    + apply found_lookup, list_elem_of_lookup in Em as [j Hj].
      enough (i = Z.of_nat j) as -> by (apply lookup_lt_Some in Hj as ?; rewrite Nat2Z.id; split; [lia|done]).
      apply (lower_unique kvs.*1 key); [done|].
      assert (aget kvs.*1 (Z.of_nat j) = Some key) as Hkey by (rewrite aget_nat, list_lookup_fmap, Hj; done).
      pose proof (sorted_strongly _ found_kvs) as Hsort. pose proof (aget_range _ _ _ Hkey). split; [lia|]. split.
      * intros x k Hx Hk'. by apply (Hsort x (Z.of_nat j)).
      * intros x k Hx Hk'. destruct (decide (x = Z.of_nat j)) as [->|]; [rewrite Hkey in Hk'; by injection Hk' as <-|].
        enough (key < k) by lia. apply (Hsort (Z.of_nat j) x); [lia|done|done].
    + intros ([k v] & Ek & Hin)%list_elem_of_fmap. cbn in Ek. rewrite <- Ek in Hin. apply found_lookup in Hin. congruence.
Qed.

(** the tests of the code at the place *)
Lemma found_key_at i k v : 0 <= i -> kvs !! Z.to_nat i = Some (k, v) ->
  key_at n i = Some k /\ value n i = Some v.
Proof.
  intros Hi Hkv. destruct (fo_leaf _ _ _ _ _ _ _ _ _ _ _ Hf) as [Hl Hsz Hcnt Hmax [Hkl Hk] (vs & Hvs & Hvl & Hv) _].
  pose proof (lookup_lt_Some _ _ _ Hkv). unfold key_at, value, values_of. rewrite Hcnt, Hvs.
  btrue ((0 <=? i) && (i <? Z.of_nat (length kvs))). cbn [asserting]. rewrite bind_Some. split.
  - rewrite <- (Z2Nat.id i) by done. apply (starts_get _ _ _ _ Hk). by rewrite list_lookup_fmap, Hkv.
  - rewrite <- (Z2Nat.id i) by done. apply (starts_get _ _ _ _ Hv). by rewrite list_lookup_fmap, Hkv.
Qed.
End found.

(** ** Going down *)

Lemma inner_step ns p E1 e E2 nx key :
  inner_at ns p (E1 ++ e :: E2) nx -> ordered (in_range T) (E1 ++ e :: E2) -> located E1 e key ->
  exists n, ns !! p = Some n /\ is_leaf n = false /\ beyond n key = Some false
    /\ NodeScan n key = Some (Z.of_nat (length E1)) /\ child n (Z.of_nat (length E1)) = Some (Some e.1)
    /\ (if Z.of_nat (length E1) <? size n then let* k := key_at n (Z.of_nat (length E1)) in Some (k =? key) else Some false)
       = Some (bool_decide (e.2 = Some key)).
Proof.
  intros (n & Hn & Hin) Ho Hloc. exists n. split; [done|]. split; [apply Hin|].
  split; [by eapply inner_beyond|]. destruct (inner_child T _ n E1 e E2 nx key Hin Ho Hloc) as (Hs & Hc & Hi).
  split; [done|]. split; [done|]. destruct Hin as [_ _ Hcnt _ _ [_ Hk] _ _ _]. unfold size, key_at.
  pose proof (bounds_before T _ _ _ Ho) as Hl.
  assert (forall u, e.2 = Some u -> bounds (E1 ++ e :: E2) !! length E1 = Some u) as Hat.
  { intros u Eu. rewrite bounds_app, lookup_app_r, Hl, Nat.sub_diag by lia. unfold bounds. cbn. by rewrite Eu. }
  destruct (Z.ltb_spec (Z.of_nat (length E1)) (item_cnt_ n)) as [Hlt|Hge].
  - assert (is_Some e.2) as [u Eu].
    { destruct e.2 as [u|] eqn:Eu; [by eexists|]. rewrite Hcnt, bounds_app, length_app, Hl in Hlt.
      destruct E2 as [|e2 E2].
      - unfold bounds in Hlt. cbn in Hlt. rewrite Eu in Hlt. cbn in Hlt. lia.
      - destruct (ordered_bound (in_range T) E1 e (e2 :: E2)) as [w Hw]; [done|done|congruence]. }
    btrue (0 <=? Z.of_nat (length E1)). cbn [andb asserting].
    rewrite (starts_get _ _ _ _ Hk (Hat u Eu)), bind_Some, Eu. f_equal.
    destruct (Z.eqb_spec u key) as [->|]; [by rewrite bool_decide_true|]. rewrite bool_decide_false by congruence. done.
  - rewrite bool_decide_false; [done|]. intros Eu. specialize (Hat key Eu). apply lookup_lt_Some in Hat. lia.
Qed.

Lemma traverse_way ns ls key frs : forall C1 e C2 root,
  zip inner_at ns C1 e C2 frs root -> takes (in_range T) key e frs -> (forall x, x ∈ fr_p <$> frs -> ls !! x = None) ->
  forall fuel, TraverseInner (length frs + fuel) ns ls root key = TraverseInner fuel ns ls e.1 key.
Proof.
  induction frs as [|fr frs IH]; intros C1 e C2 root; cbn [zip takes]; [by intros (_ & _ & ->)|].
  intros (_ & _ & Hi & Hz) (Hloc & Ho & Hway) Hls fuel. cbn [length].
  replace (S (length frs) + fuel)%nat with (length frs + S fuel)%nat by lia.
  rewrite (IH _ _ _ _ Hz Hway); [|intros x Hx; apply Hls; by right]. cbn [fst TraverseInner].
  destruct (inner_step ns (fr_p fr) (fr_E1 fr) e (fr_E2 fr) (first (fr_G2 fr)) key) as (n & -> & Hn & Hb & Hs & Hc & _);
    [by apply (Hi (fr_G1 fr))|done|done|].
  rewrite bind_Some, Hn. destruct (latch_shared_free ls (fr_p fr)) as [-> El]; [apply Hls; by left|].
  by rewrite bind_Some, Hb, bind_Some, Hs, bind_Some, Hc, bind_Some, El, !bind_Some.
Qed.

Lemma unsafe_way ns key frs : forall C1 e C2 root,
  zip inner_at ns C1 e C2 frs root -> takes (in_range T) key e frs ->
  forall fuel, unsafe_down (length frs + fuel) ns root key = unsafe_down fuel ns e.1 key.
Proof.
  induction frs as [|fr frs IH]; intros C1 e C2 root; cbn [zip takes]; [by intros (_ & _ & ->)|].
  intros (_ & _ & Hi & Hz) (Hloc & Ho & Hway) fuel. cbn [length].
  replace (S (length frs) + fuel)%nat with (length frs + S fuel)%nat by lia.
  rewrite (IH _ _ _ _ Hz Hway). cbn [fst unsafe_down].
  destruct (inner_step ns (fr_p fr) (fr_E1 fr) e (fr_E2 fr) (first (fr_G2 fr)) key) as (n & -> & Hn & Hb & Hs & Hc & _);
    [by apply (Hi (fr_G1 fr))|done|done|].
  rewrite bind_Some, Hn, Hb, bind_Some. cbn [negb asserting]. by rewrite Hs, bind_Some, Hc, !bind_Some.
Qed.

(** the bound of a node is one of its children *)
Lemma bounds_up G k : k ∈ bounds (ents G) -> k ∈ bounds (subs G).
Proof.
  rewrite !elem_of_bounds. intros (e & (g & -> & Hg)%list_elem_of_fmap & Ek). cbn in Ek. unfold ub in Ek.
  destruct (last g.2) as [x|] eqn:El; [|done]. exists x. split; [|done].
  apply list_elem_of_join. exists g.2. split; [apply last_Some in El as [l ->]; apply elem_of_app; right; by left|].
  by apply list_elem_of_fmap_2.
Qed.

(** [Insert] may find the key on the way *)
Lemma insert_way ns ls key frs : forall C1 e C2 root,
  zip inner_at ns C1 e C2 frs root -> takes (in_range T) key e frs -> (forall x, x ∈ fr_p <$> frs -> ls !! x = None) ->
  forall fuel, insert_down (length frs + fuel) ns ls root key [] = insert_down fuel ns ls e.1 key (fr_p <$> frs)
    \/ (insert_down (length frs + fuel) ns ls root key [] = Some (ls, None) /\ key ∈ bounds (C1 ++ e :: C2)).
Proof.
  induction frs as [|fr frs IH]; intros C1 e C2 root; cbn [zip takes]; [intros (_ & _ & ->); by left|].
  intros (-> & -> & Hi & Hz) (Hloc & Ho & Hway) Hls fuel. cbn [length].
  replace (S (length frs) + fuel)%nat with (length frs + S fuel)%nat by lia.
  assert (bounds ((subs (fr_G1 fr) ++ fr_E1 fr) ++ e :: fr_E2 fr ++ subs (fr_G2 fr)) = bounds (subs (fr_level fr e))) as Eb
    by (by rewrite subs_level).
  destruct (IH _ _ _ _ Hz Hway) with (fuel := S fuel) as [->|[-> Hk]]; [intros x Hx; apply Hls; by right| |].
  - cbn [fst insert_down fmap list_fmap].
    destruct (inner_step ns (fr_p fr) (fr_E1 fr) e (fr_E2 fr) (first (fr_G2 fr)) key) as (n & -> & Hn & Hb & Hs & Hc & Hp);
      [by apply (Hi (fr_G1 fr))|done|done|].
    rewrite bind_Some, Hn. destruct (latch_shared_free ls (fr_p fr)) as [-> El]; [apply Hls; by left|].
    rewrite bind_Some, Hb, bind_Some, Hs, bind_Some, Hp, bind_Some, El, !bind_Some.
    case_bool_decide as Ek; [right|left; by rewrite Hc, !bind_Some]. split; [done|].
    apply elem_of_bounds. exists e. split; [|done]. apply elem_of_app. right. by left.
  - right. split; [done|]. rewrite Eb. apply bounds_up. unfold fr_level. by rewrite ents_app, ents_cons.
Qed.

Lemma blink_leaves_dom ns P x : leaves ns P -> x ∈ P.*1 -> is_Some (ns !! x).
Proof.
  intros Hl ([a kvs] & -> & (P1 & P2 & ->)%list_elem_of_split)%list_elem_of_fmap.
  destruct (Hl P1 a kvs P2 eq_refl) as [(n & Hn & _) _]. by exists n.
Qed.

Lemma blink_fuel t m P ups :
  represents t m P ups ->
  (length ups + length P < node_fuel (nodes t))%nat /\ P <> [].
Proof.
  intros Hr. assert (length (P.*1 ++ addrs ups) <= base.size (nodes t))%nat as Hs.
  { apply addresses_size; [apply Hr|]. intros x [Hx|Hx]%elem_of_app.
    - eapply blink_leaves_dom; [apply Hr|done].
    - eapply (chain_dom _ (nodes t)); [apply Hr|done]. }
  rewrite length_app, length_fmap in Hs. pose proof (chain_levels _ _ _ _ _ (bp_chain _ _ _ _ Hr)) as Hl.
  pose proof (chain_nonempty _ _ _ _ _ (bp_chain _ _ _ _ Hr)) as Hne.
  split; [unfold node_fuel; lia|]. by intros ->.
Qed.
End tree.
