(* ===== verification/BLinkTreeOps.v ===== *)
(** * What the operations of the B-link tree do

    Search, update, the scans, and insertion with its splits, on a tree that
    [represents] a map. *)

From S2P Require Import Prelude Encode Levels BLinkNode BLinkSpec BLinkTree BLinkTreeSpec.
From Stdlib Require Import Floats.SpecFloat.
Import BLinkNode BLinkTree.

Section ops.
Context {V : Type} `{!Inhabited V} (T : ktype) (b : BTree).
Implicit Types (ns : gmap Z (node V)) (n : node V) (t : tree V) (P : pieces V) (kvs : list (Z * V)) (m : gmap Z V).

Abbreviation represents := (represents T b).
Abbreviation found := (found T b).

Lemma with_latched_free t m P ups : represents t m P ups -> with_latched t ∅ = t.
Proof. intros Hr. rewrite <- (bp_free _ _ _ _ _ _ Hr). by destruct t. Qed.

(** ** Leaves changed *)

(** one leaf replaced by [D], whose leaves hold something *)
Lemma blink_leaves_replace ns ns' P1 a kvs P2 (D : pieces V) :
  leaves b ns (P1 ++ (a, kvs) :: P2) -> first D = Some a ->
  (forall x, x ∈ P1.*1 ++ P2.*1 -> ns' !! x = ns !! x) ->
  (forall D1 p x D2, D = D1 ++ (p, x) :: D2 -> leaf_at b ns' p x (first (D2 ++ P2)) /\ x <> []) ->
  leaves b ns' (P1 ++ D ++ P2).
Proof.
  intros Hl HD Hx HDl.
  assert (forall Q1 p x (Q2 Q2' : pieces V), P1 ++ (a, kvs) :: P2 = Q1 ++ (p, x) :: Q2' -> p ∈ P1.*1 ++ P2.*1 -> (Q1 <> [] \/ Q2' <> []) ->
    first Q2 = first Q2' -> leaf_at b ns' p x (first Q2) /\ x <> []) as Helse.
  { intros Q1 p x Q2 Q2' EQ Hp Hne ->. destruct (Hl Q1 p x Q2' EQ) as [(n & Hn & Hleaf) Hemp]. split.
    - exists n. by rewrite Hx.
    - intros E. destruct (Hemp E). by destruct Hne. }
  enough (forall Q1 p x Q2, P1 ++ D ++ P2 = Q1 ++ (p, x) :: Q2 -> leaf_at b ns' p x (first Q2) /\ x <> []) as H.
  { intros Q1 p x Q2 EQ. destruct (H Q1 p x Q2 EQ). by split. }
  intros Q1 p x Q2 [(k & -> & ->)|(k & -> & EX)]%app_cut.
  - apply (Helse Q1 p x _ (k ++ (a, kvs) :: P2)); [by rewrite <- app_assoc| |right; by destruct k|].
    + rewrite fmap_app. apply elem_of_app. left. apply elem_of_app. right. by left.
    + apply first_app. destruct D as [|[r D0] D]; [done|]. cbn in HD. injection HD as ->. done.
  - apply app_cut in EX as [(k2 & ED & ->)|(k2 & -> & ->)].
    + by apply (HDl k p x k2).
    + apply (Helse (P1 ++ (a, kvs) :: k2) p x Q2 Q2); [by rewrite <- app_assoc| |left; by destruct P1|done].
      rewrite !fmap_app. apply elem_of_app. right. apply elem_of_app. right. by left.
Qed.

Lemma replace_leaf t m P1 a kvs kvs' P2 ups n' :
  represents t m (P1 ++ (a, kvs) :: P2) ups ->
  leaf_node (leaf_node_size_ b) n' kvs' (first P2) -> kvs' <> [] -> piece_bound kvs' P2 = piece_bound kvs P2 ->
  StronglySorted Z.lt (all (P1 ++ (a, kvs') :: P2)).*1 -> Forall (in_range T) (all (P1 ++ (a, kvs') :: P2)).*1 ->
  represents (with_nodes t (<[a := n']> (nodes t))) (list_to_map (all (P1 ++ (a, kvs') :: P2)))
    (P1 ++ (a, kvs') :: P2) ups.
Proof.
  intros [Hs Hr Hm Hl Hch Hnd Hd Hf Hfree Hb] Hn' Hne Hbound Hs' Hr'.
  rewrite fmap_app in Hnd. cbn in Hnd. apply NoDup_app in Hnd as (Hnd1 & Hnd2 & Hnd3).
  assert (entries (P1 ++ (a, kvs') :: P2) = entries (P1 ++ (a, kvs) :: P2)) as Ee.
  { rewrite !entries_app by done. cbn. by rewrite Hbound. }
  split; cbn; try done.
  - apply (blink_leaves_replace (nodes t) _ P1 a kvs P2 [(a, kvs')]); [done|done| |].
    + intros x Hx. apply lookup_insert_ne. intros <-. apply NoDup_app in Hnd1 as (_ & H1 & [H2 _]%NoDup_cons).
      apply elem_of_app in Hx as [Hx|Hx]; [|done]. apply (H1 a Hx). by left.
    + intros D1 p x D2 ED. destruct D1 as [|? D1]; [|by destruct D1]. injection ED as <- <- <-.
      split; [|done]. exists n'. by rewrite lookup_insert_eq.
  - rewrite Ee. apply (chain_frame _ (nodes t)); [|done]. intros x Hx. apply lookup_insert_ne. intros ->.
    apply (Hnd2 x); [|done]. apply elem_of_app. right. by left.
  - rewrite fmap_app. cbn. by apply NoDup_app.
  - rewrite <- Hf. by destruct P1.
Qed.

(** ** Searching *)

Section at_leaf.
Context t m P ups key frs P1 a kvs P2 n (Hr : represents t m P ups) (Hf : found t m P ups key frs P1 a kvs P2 n).

Lemma reach_fuel : exists k, node_fuel (nodes t) = (length frs + S (S k))%nat.
Proof.
  destruct (blink_fuel T b t m P ups Hr) as [Hfu Hne]. exists (node_fuel (nodes t) - length frs - 2)%nat.
  rewrite <- (fo_levels _ _ _ _ _ _ _ _ _ _ _ _ _ Hf), length_levels in Hfu.
  destruct P; [done|]. cbn in Hfu. lia.
Qed.

Lemma reach_leaf : TraverseInner (node_fuel (nodes t)) (nodes t) (latched t) (root_ t) key = Some (∅, a).
Proof.
  destruct reach_fuel as [k ->]. rewrite (bp_free _ _ _ _ _ _ Hr).
  rewrite (traverse_way T b (nodes t) ∅ key frs _ _ _ _ (fo_zip _ _ _ _ _ _ _ _ _ _ _ _ _ Hf)); [|apply Hf|done].
  cbn [TraverseInner fst]. rewrite (fo_node _ _ _ _ _ _ _ _ _ _ _ _ _ Hf), bind_Some. unfold is_leaf.
  by rewrite (ln_leaf _ _ _ _ (fo_leaf _ _ _ _ _ _ _ _ _ _ _ _ _ Hf)).
Qed.

(** the leaf reached is the one to read *)
Lemma stay_shared ls : right_shared (node_fuel (nodes t)) (nodes t) ls a key = Some (ls, a).
Proof.
  destruct reach_fuel as [k Ek]. rewrite Ek, Nat.add_succ_r. cbn [right_shared].
  rewrite (fo_node _ _ _ _ _ _ _ _ _ _ _ _ _ Hf), bind_Some. by rewrite (found_beyond T b t m P ups key frs P1 a kvs P2 n Hr Hf), bind_Some.
Qed.

Lemma stay_exclusive ls : right_exclusive (node_fuel (nodes t)) (nodes t) ls a key = Some (ls, a).
Proof.
  destruct reach_fuel as [k Ek]. rewrite Ek, Nat.add_succ_r. cbn [right_exclusive].
  rewrite (fo_node _ _ _ _ _ _ _ _ _ _ _ _ _ Hf), bind_Some. by rewrite (found_beyond T b t m P ups key frs P1 a kvs P2 n Hr Hf), bind_Some.
Qed.

Lemma stay_coupled ls : right_coupled (node_fuel (nodes t)) (nodes t) ls a key = Some (ls, a).
Proof.
  destruct reach_fuel as [k Ek]. rewrite Ek, Nat.add_succ_r. cbn [right_coupled].
  rewrite (fo_node _ _ _ _ _ _ _ _ _ _ _ _ _ Hf), bind_Some. by rewrite (found_beyond T b t m P ups key frs P1 a kvs P2 n Hr Hf), bind_Some.
Qed.

(** the test after the scan: the key is not there *)
Lemma leaf_absent : exists i, NodeScan n key = Some i /\ lower kvs.*1 key i
  /\ (if i =? size n then Some true else let* k := key_at n i in Some (negb (k =? key)))
     = Some (bool_decide (m !! key = None))
  /\ (if i <? size n then let* k := key_at n i in Some (k =? key) else Some false) = Some (bool_decide (is_Some (m !! key)))
  /\ match m !! key with
     | Some v => 0 <= i < Z.of_nat (length kvs) /\ kvs !! Z.to_nat i = Some (key, v) /\ value n i = Some v
     | None => key ∉ kvs.*1
     end.
Proof.
  destruct (found_scan T b t m P ups key frs P1 a kvs P2 n Hr Hf) as (i & Hi & Hlow & Hsz & Hm).
  exists i. split; [done|]. split; [done|]. rewrite Hsz. pose proof (proj1 (proj1 Hlow)) as H0.
  pose proof (proj2 (proj1 Hlow)) as H1. rewrite length_fmap in H1.
  assert (forall k v, kvs !! Z.to_nat i = Some (k, v) -> key_at n i = Some k /\ value n i = Some v) as Hk.
  { intros k v. by apply (found_key_at T b t m P ups key frs P1 a kvs P2 n Hf). }
  destruct (m !! key) as [v|] eqn:Em.
  - destruct Hm as [Hlt Hkv]. destruct (Hk _ _ Hkv) as [-> ->]. bfalse (i =? Z.of_nat (length kvs)).
    btrue (i <? Z.of_nat (length kvs)). rewrite !bind_Some, Z.eqb_refl. split; [done|]. split; [done|].
    split; [lia|done].
  - destruct (Z.eqb_spec i (Z.of_nat (length kvs))) as [E|Hne].
    + bfalse (i <? Z.of_nat (length kvs)). done.
    + btrue (i <? Z.of_nat (length kvs)).
      destruct (lookup_lt_is_Some_2 kvs (Z.to_nat i)) as [[k v] Hkv]; [lia|]. destruct (Hk _ _ Hkv) as [-> _].
      rewrite !bind_Some. destruct (Z.eqb_spec k key) as [->|]; [|done]. destruct Hm.
      apply list_elem_of_lookup_2 in Hkv. by apply (list_elem_of_fmap_2 fst) in Hkv.
Qed.
End at_leaf.

Lemma Search_spec t m P ups key : represents t m P ups -> Search t key = Some (m !! key, t).
Proof.
  intros Hr. destruct (blink_find_leaf T b t m P ups key Hr) as (frs & P1 & a & kvs & P2 & n & Hf).
  unfold Search. rewrite (reach_leaf t m P ups key frs P1 a kvs P2 n Hr Hf), bind_Some.
  destruct (latch_shared_free ∅ a) as [-> El]; [done|].
  rewrite bind_Some, (stay_shared t m P ups key frs P1 a kvs P2 n Hr Hf), bind_Some.
  rewrite (fo_node _ _ _ _ _ _ _ _ _ _ _ _ _ Hf), bind_Some.
  destruct (leaf_absent t m P ups key frs P1 a kvs P2 n Hr Hf) as (i & -> & _ & Ha & _ & Hm). rewrite bind_Some, Ha, bind_Some.
  destruct (m !! key) as [v|]; cbn; [destruct Hm as (_ & _ & ->); rewrite bind_Some|];
    rewrite El, bind_Some, (with_latched_free t m P ups) by done; done.
Qed.

Lemma SearchUnsafe_spec t m P ups key : represents t m P ups -> SearchUnsafe t key = Some (m !! key).
Proof.
  intros Hr. destruct (blink_find_leaf T b t m P ups key Hr) as (frs & P1 & a & kvs & P2 & n & Hf).
  unfold SearchUnsafe. destruct (reach_fuel t m P ups key frs P1 a kvs P2 n Hr Hf) as [k ->].
  rewrite (unsafe_way T b (nodes t) key frs _ _ _ _ (fo_zip _ _ _ _ _ _ _ _ _ _ _ _ _ Hf)) by apply Hf.
  cbn [unsafe_down fst]. rewrite (fo_node _ _ _ _ _ _ _ _ _ _ _ _ _ Hf), bind_Some. unfold is_leaf.
  rewrite (ln_leaf _ _ _ _ (fo_leaf _ _ _ _ _ _ _ _ _ _ _ _ _ Hf)), bind_Some.
  rewrite (fo_node _ _ _ _ _ _ _ _ _ _ _ _ _ Hf), bind_Some.
  rewrite (found_beyond T b t m P ups key frs P1 a kvs P2 n Hr Hf), bind_Some. cbn [negb asserting].
  destruct (leaf_absent t m P ups key frs P1 a kvs P2 n Hr Hf) as (i & -> & _ & Ha & _ & Hm). rewrite bind_Some, Ha, bind_Some.
  destruct (m !! key) as [v|]; cbn; [by destruct Hm as (_ & _ & ->)|done].
Qed.

(** a pair in the place of another with its key *)
Lemma set_sorted l1 l2 (key : Z) (v w : V) : (l1 ++ (key, w) :: l2).*1 = (l1 ++ (key, v) :: l2).*1.
Proof. by rewrite !fmap_app. Qed.

Lemma map_set (l1 l2 : list (Z * V)) key v w :
  NoDup (l1 ++ (key, w) :: l2).*1 ->
  list_to_map (M := gmap Z V) (l1 ++ (key, v) :: l2) = <[key := v]> (list_to_map (l1 ++ (key, w) :: l2)).
Proof.
  intros Hnd. assert (forall x, list_to_map (M := gmap Z V) (l1 ++ (key, x) :: l2) = <[key := x]> (list_to_map (l1 ++ l2))) as E.
  { intros x. rewrite (list_to_map_proper (l1 ++ (key, x) :: l2) ((key, x) :: l1 ++ l2)); [done| |].
    - by rewrite (set_sorted l1 l2 key w x).
    - by rewrite Permutation_middle. }
  by rewrite !E, insert_insert_eq.
Qed.

Lemma set_value_leaf n kvs nx i key v w :
  leaf_node (leaf_node_size_ b) n kvs nx -> 0 <= i < Z.of_nat (length kvs) -> kvs !! Z.to_nat i = Some (key, w) ->
  exists n', set_value n i v = Some n' /\ leaf_node (leaf_node_size_ b) n' (<[Z.to_nat i := (key, v)]> kvs) nx.
Proof.
  intros [Hl Hsz Hcnt Hmax [Hkl Hk] (vs & Hvs & Hvl & Hv) Hsib] Hi Hkv. unfold set_value, values_of. rewrite Hcnt, Hvs.
  btrue ((0 <=? i) && (i <? Z.of_nat (length kvs))). cbn [asserting]. rewrite bind_Some, aset_in_range, bind_Some by lia.
  eexists. split; [done|]. assert (length kvs.*2 = length kvs) as Lv by apply length_fmap.
  split; cbn; rewrite ?length_insert; try done.
  - split; [done|]. rewrite list_fmap_insert. cbn. rewrite list_insert_id; [done|]. by rewrite list_lookup_fmap, Hkv.
  - eexists. split; [done|]. rewrite length_insert. split; [done|]. rewrite list_fmap_insert. cbn.
    destruct Hv as [Hvl' Hv]. apply starts_intro; rewrite !length_insert; [done|]. intros j Hj.
    rewrite !aget_insert by lia. destruct (i =? j); [done|]. apply Hv. lia.
Qed.

Lemma Update_spec t m P ups key v :
  represents t m P ups ->
  exists t' P', Update t key v = Some (bool_decide (is_Some (m !! key)), t')
    /\ represents t' (if bool_decide (is_Some (m !! key)) then <[key := v]> m else m) P' ups.
Proof.
  intros Hr. destruct (blink_find_leaf T b t m P ups key Hr) as (frs & P1 & a & kvs & P2 & n & Hf).
  unfold Update. rewrite (reach_leaf t m P ups key frs P1 a kvs P2 n Hr Hf), bind_Some.
  destruct (latch_exclusive_free ∅ a) as [-> El]; [done|].
  rewrite bind_Some, (stay_exclusive t m P ups key frs P1 a kvs P2 n Hr Hf), bind_Some.
  rewrite (fo_node _ _ _ _ _ _ _ _ _ _ _ _ _ Hf), bind_Some.
  destruct (leaf_absent t m P ups key frs P1 a kvs P2 n Hr Hf) as (i & -> & _ & Ha & _ & Hm). rewrite bind_Some, Ha, bind_Some.
  destruct (m !! key) as [w|] eqn:Em; cbn.
  - destruct Hm as (Hi & Hkv & _). pose proof (fo_leaf _ _ _ _ _ _ _ _ _ _ _ _ _ Hf) as Hleaf.
    destruct (set_value_leaf n kvs _ i key v w Hleaf Hi Hkv) as (n' & -> & Hn'). rewrite bind_Some, El, bind_Some.
    set (kvs' := <[Z.to_nat i := (key, v)]> kvs) in *. exists (with_nodes t (<[a := n']> (nodes t))), (P1 ++ (a, kvs') :: P2).
    split.
    { do 2 f_equal. pose proof (bp_free _ _ _ _ _ _ Hr) as Hfree. destruct t. cbn in *. by subst. }
    pose proof (fo_split _ _ _ _ _ _ _ _ _ _ _ _ _ Hf) as EP. subst P.
    assert (exists l1 l2, kvs = l1 ++ (key, w) :: l2 /\ kvs' = l1 ++ (key, v) :: l2) as (l1 & l2 & Ek & Ek').
    { exists (take (Z.to_nat i) kvs), (drop (S (Z.to_nat i)) kvs). split; [by rewrite take_drop_middle|].
      unfold kvs'. apply insert_take_drop. lia. }
    assert (all (P1 ++ (a, kvs) :: P2) = (all P1 ++ l1) ++ (key, w) :: l2 ++ all P2) as E1
      by (rewrite all_app, all_cons, Ek, <- !app_assoc; done).
    assert (all (P1 ++ (a, kvs') :: P2) = (all P1 ++ l1) ++ (key, v) :: l2 ++ all P2) as E2
      by (rewrite all_app, all_cons, Ek', <- !app_assoc; done).
    assert ((all (P1 ++ (a, kvs') :: P2)).*1 = (all (P1 ++ (a, kvs) :: P2)).*1) as Ekeys by (rewrite E1, E2; apply set_sorted).
    replace (<[key := v]> m) with (list_to_map (M := gmap Z V) (all (P1 ++ (a, kvs') :: P2))).
    + apply (replace_leaf t m P1 a kvs); [done|done| | | |].
      * rewrite Ek'. by destruct l1.
      * unfold piece_bound. destruct P2; [done|]. rewrite Ek, Ek', !last_app, !last_cons. by destruct (last l2).
      * rewrite Ekeys. apply Hr.
      * rewrite Ekeys. apply Hr.
    + rewrite E2, (map_set _ _ key v w), <- E1; [by rewrite (bp_map _ _ _ _ _ _ Hr)|].
      rewrite <- E1. apply sorted_nodup, Hr.
  - rewrite El, bind_Some, (with_latched_free t m P ups) by done. by exists t, P.
Qed.

(** ** Scanning *)

Lemma leaf_get n kvs nx i k v :
  leaf_node (leaf_node_size_ b) n kvs nx -> 0 <= i -> kvs !! Z.to_nat i = Some (k, v) ->
  key_at n i = Some k /\ value n i = Some v.
Proof.
  intros [Hl Hsz Hcnt Hmax [Hkl Hk] (vs & Hvs & Hvl & Hv) _] Hi Hkv.
  pose proof (lookup_lt_Some _ _ _ Hkv). unfold key_at, value, values_of. rewrite Hcnt, Hvs.
  btrue ((0 <=? i) && (i <? Z.of_nat (length kvs))). cbn [asserting]. rewrite bind_Some.
  rewrite <- (Z2Nat.id i) by done. split; [apply (starts_get _ _ _ _ Hk)|apply (starts_get _ _ _ _ Hv)];
    by rewrite list_lookup_fmap, Hkv.
Qed.

(** what is left of a leaf, from a place *)
Lemma drop_next kvs i : 0 <= i < Z.of_nat (length kvs) ->
  exists k v, kvs !! Z.to_nat i = Some (k, v) /\ drop (Z.to_nat i) kvs = (k, v) :: drop (Z.to_nat (i + 1)) kvs.
Proof.
  intros Hi. destruct (lookup_lt_is_Some_2 kvs (Z.to_nat i)) as [[k v] Hkv]; [lia|]. exists k, v. split; [done|].
  rewrite (drop_S _ _ _ Hkv). do 2 f_equal. lia.
Qed.

Lemma fixed_node_spec n kvs nx sz fuel : forall index si kv,
  leaf_node (leaf_node_size_ b) n kvs nx -> 0 <= index <= Z.of_nat (length kvs) -> si < sz ->
  Z.of_nat (length kvs) - index < Z.of_nat fuel ->
  fixed_node fuel n index si sz kv =
    let R := drop (Z.to_nat index) kvs in
    if sz - si <=? Z.of_nat (length R) then Some (true, sz, kv ++ take (Z.to_nat (sz - si)) R)
    else Some (false, si + Z.of_nat (length R), kv ++ R).
Proof.
  induction fuel as [|fuel IH]; intros index si kv Hn Hi Hsi Hf; [lia|]. cbn [fixed_node]. unfold size.
  rewrite (ln_cnt _ _ _ _ Hn). cbv zeta. destruct (Z.ltb_spec index (Z.of_nat (length kvs))) as [Hlt|Hge].
  - destruct (drop_next kvs index) as (k & v & Hkv & ->); [lia|].
    destruct (leaf_get n kvs nx index k v Hn) as [-> ->]; [lia|done|]. rewrite !bind_Some. cbn [length].
    set (R := drop (Z.to_nat (index + 1)) kvs). destruct (Z.leb_spec sz (si + 1)) as [Hle|Hgt].
    + btrue (sz - si <=? Z.of_nat (S (length R))). replace (si + 1) with sz by lia.
      by replace (Z.to_nat (sz - si)) with 1%nat by lia.
    + rewrite IH by (done || lia). cbv zeta. fold R.
      destruct (Z.leb_spec (sz - (si + 1)) (Z.of_nat (length R))).
      * btrue (sz - si <=? Z.of_nat (S (length R))). replace (Z.to_nat (sz - si)) with (S (Z.to_nat (sz - (si + 1)))) by lia.
        by rewrite <- app_assoc.
      * bfalse (sz - si <=? Z.of_nat (S (length R))). rewrite <- app_assoc. do 3 f_equal. lia.
  - rewrite drop_ge by lia. cbn [length]. bfalse (sz - si <=? Z.of_nat 0). rewrite app_nil_r. do 3 f_equal. lia.
Qed.

(** the leaves from one on *)
Definition leaf_chain ns (Q : pieces V) : Prop :=
  forall Q1 p x Q2, Q = Q1 ++ (p, x) :: Q2 -> leaf_at b ns p x (first Q2).

Lemma leaf_chain_tail ns p x Q : leaf_chain ns ((p, x) :: Q) -> leaf_chain ns Q.
Proof. intros H Q1 p' x' Q2 ->. by apply (H ((p, x) :: Q1)). Qed.

(** one more latch to release *)
Lemma release_latched ls a scan_stack :
  ls !! a = None -> release ls scan_stack = Some ∅ ->
  latch_shared ls a = Some (<[a := Shared 1]> ls) /\ release (<[a := Shared 1]> ls) (a :: scan_stack) = Some ∅.
Proof. intros Ha Hr. destruct (latch_shared_free ls a Ha) as [-> E]. split; [done|]. cbn [release]. by rewrite E, bind_Some. Qed.

Lemma fixed_loop_spec ns sz P2 : forall fuel a kvs ls index si scan_stack kv,
  leaf_chain ns ((a, kvs) :: P2) -> 0 <= index <= Z.of_nat (length kvs) -> (length P2 < fuel)%nat ->
  NoDup P2.*1 -> (forall x, x ∈ P2.*1 -> ls !! x = None) -> release ls scan_stack = Some ∅ ->
  exists ls' scan_stack', fixed_loop fuel ns ls a index si sz scan_stack kv
      = Some (ls', scan_stack', kv ++ take (Z.to_nat (sz - si)) (drop (Z.to_nat index) kvs ++ all P2))
    /\ release ls' scan_stack' = Some ∅.
Proof.
  induction P2 as [|[p x] P2 IH]; intros fuel a kvs ls index si scan_stack kv Hch Hi Hf Hnd Hls Hrel;
    (destruct fuel as [|fuel]; [lia|]); cbn [fixed_loop];
    (destruct (Z.ltb_spec si sz) as [Hlt|Hge];
      [|exists ls, scan_stack; replace (Z.to_nat (sz - si)) with 0%nat by lia; by rewrite app_nil_r]);
    (destruct (Hch [] a kvs _ eq_refl) as (n & -> & Hn)); rewrite bind_Some;
    (rewrite (fixed_node_spec n kvs _ sz _ _ _ _ Hn Hi Hlt) by (unfold size; rewrite (ln_cnt _ _ _ _ Hn); lia));
    cbv zeta; set (R := drop (Z.to_nat index) kvs); (destruct (Z.leb_spec (sz - si) (Z.of_nat (length R))) as [Hle|Hgt];
      [rewrite bind_Some; exists ls, scan_stack; rewrite take_app_le by lia; done|]);
    rewrite bind_Some; unfold sibling; rewrite (ln_sibling _ _ _ _ Hn); cbn [first fmap option_fmap option_map head fst].
  - exists ls, scan_stack. unfold all. cbn. rewrite app_nil_r, take_ge by (fold R; lia). done.
  - cbn in Hnd. apply NoDup_cons in Hnd as [Hp Hnd].
    destruct (release_latched ls p scan_stack) as [-> Hrel']; [apply Hls; by left|done|]. rewrite bind_Some.
    destruct (IH fuel p x (<[p := Shared 1]> ls) 0 (si + Z.of_nat (length R)) (p :: scan_stack) (kv ++ R))
      as (ls' & st' & -> & Hrel2); try done.
    + by apply leaf_chain_tail in Hch.
    + lia.
    + cbn in Hf. lia.
    + intros y Hy. rewrite lookup_insert_ne by (intros ->; done). apply Hls. by right.
    + exists ls', st'. split; [|done]. rewrite all_cons. change (drop (Z.to_nat 0) x) with x.
      rewrite (take_app_ge R) by lia. rewrite <- app_assoc.
      by replace (Z.to_nat (sz - (si + Z.of_nat (length R)))) with (Z.to_nat (sz - si) - length R)%nat by lia.
Qed.

(** a sorted list, from where it reaches [k] *)
Lemma above_none (right_key : Z) (l : list (Z * V)) : (forall k v, (k, v) ∈ l -> right_key <= k) -> filter (fun x => x.1 < right_key) l = [].
Proof.
  intros H. induction l as [|[k v] l IH]; [done|]. rewrite filter_cons_False.
  - apply IH. intros k' v' Hin. apply (H k' v'). by right.
  - cbn. specialize (H k v ltac:(left)). lia.
Qed.

Lemma sorted_above (right_key k : Z) (v : V) l :
  StronglySorted Z.lt ((k, v) :: l).*1 -> right_key <= k -> filter (fun x => x.1 < right_key) ((k, v) :: l) = [].
Proof.
  intros [_ Hall]%StronglySorted_inv Hle. rewrite Forall_forall in Hall. apply above_none.
  intros k' v' [[= -> ->]|Hin]%elem_of_cons; [done|]. apply (list_elem_of_fmap_2 fst) in Hin. specialize (Hall k' Hin).
  cbn in Hall. lia.
Qed.

Lemma range_node_spec n kvs nx right_key rest fuel : forall index kv,
  leaf_node (leaf_node_size_ b) n kvs nx -> 0 <= index <= Z.of_nat (length kvs) ->
  Z.of_nat (length kvs) - index < Z.of_nat fuel ->
  StronglySorted Z.lt (drop (Z.to_nat index) kvs ++ rest).*1 ->
  exists stop, range_node fuel n index right_key kv = Some (stop, kv ++ filter (fun x => x.1 < right_key) (drop (Z.to_nat index) kvs))
    /\ (stop = true -> filter (fun x => x.1 < right_key) rest = []).
Proof.
  induction fuel as [|fuel IH]; intros index kv Hn Hi Hf Hs; [lia|]. cbn [range_node]. unfold size.
  rewrite (ln_cnt _ _ _ _ Hn). destruct (Z.ltb_spec index (Z.of_nat (length kvs))) as [Hlt|Hge].
  - destruct (drop_next kvs index) as (k & v & Hkv & Ed); [lia|]. rewrite Ed in *.
    destruct (leaf_get n kvs nx index k v Hn) as [-> ->]; [lia|done|]. rewrite bind_Some.
    set (R := drop (Z.to_nat (index + 1)) kvs) in *. destruct (Z.leb_spec right_key k) as [Hle|Hgt].
    + pose proof (sorted_above right_key k v (R ++ rest) Hs Hle) as Hnone. change ((k, v) :: R ++ rest) with (((k, v) :: R) ++ rest) in Hnone.
      rewrite filter_app in Hnone. apply app_eq_nil in Hnone as [-> Hrest]. exists true. rewrite app_nil_r. done.
    + rewrite bind_Some. destruct (IH (index + 1) (kv ++ [(k, v)]) Hn) as (stop & -> & Hstop); [lia|lia| |].
      * fold R. cbn in Hs. by apply StronglySorted_inv in Hs as [? _].
      * exists stop. split; [|done]. fold R. rewrite filter_cons_True by done. by rewrite <- app_assoc.
  - rewrite drop_ge by lia. exists false. rewrite app_nil_r. done.
Qed.

Lemma range_loop_spec ns right_key P2 : forall fuel a kvs ls index scan_stack kv,
  leaf_chain ns ((a, kvs) :: P2) -> 0 <= index <= Z.of_nat (length kvs) -> (length P2 < fuel)%nat ->
  NoDup P2.*1 -> (forall x, x ∈ P2.*1 -> ls !! x = None) -> release ls scan_stack = Some ∅ ->
  StronglySorted Z.lt (drop (Z.to_nat index) kvs ++ all P2).*1 ->
  exists ls' scan_stack', range_loop fuel ns ls a index right_key scan_stack kv
      = Some (ls', scan_stack', kv ++ filter (fun x => x.1 < right_key) (drop (Z.to_nat index) kvs ++ all P2))
    /\ release ls' scan_stack' = Some ∅.
Proof.
  induction P2 as [|[p x] P2 IH]; intros fuel a kvs ls index scan_stack kv Hch Hi Hf Hnd Hls Hrel Hs;
    (destruct fuel as [|fuel]; [lia|]); cbn [range_loop];
    (destruct (Hch [] a kvs _ eq_refl) as (n & -> & Hn)); rewrite bind_Some;
    (assert (Z.of_nat (length kvs) - index < Z.of_nat (S (Z.to_nat (size n)))) as Hfu
       by (unfold size; rewrite (ln_cnt _ _ _ _ Hn); lia));
    (destruct (range_node_spec n kvs _ right_key _ _ index kv Hn Hi Hfu Hs) as (stop & -> & Hstop));
    rewrite bind_Some; rewrite filter_app; (destruct stop; [rewrite Hstop by done; rewrite app_nil_r; by exists ls, scan_stack|]);
    unfold sibling; rewrite (ln_sibling _ _ _ _ Hn); cbn [first fmap option_fmap option_map head fst].
  - exists ls, scan_stack. change (filter (fun x => x.1 < right_key) (all [])) with (@nil (Z * V)). by rewrite app_nil_r.
  - cbn in Hnd. apply NoDup_cons in Hnd as [Hp Hnd].
    destruct (release_latched ls p scan_stack) as [-> Hrel']; [apply Hls; by left|done|]. rewrite bind_Some.
    destruct (IH fuel p x (<[p := Shared 1]> ls) 0 (p :: scan_stack) (kv ++ filter (fun x => x.1 < right_key) (drop (Z.to_nat index) kvs)))
      as (ls' & st' & -> & Hrel2); try done.
    + by apply leaf_chain_tail in Hch.
    + lia.
    + cbn in Hf. lia.
    + intros y Hy. rewrite lookup_insert_ne by (intros ->; done). apply Hls. by right.
    + rewrite all_cons in Hs. rewrite sorted_app in Hs. by destruct Hs as (_ & ? & _).
    + exists ls', st'. split; [|done]. rewrite all_cons. change (drop (Z.to_nat 0) x) with x. by rewrite <- app_assoc.
Qed.

(** the pairs from a key on, and before one *)
Definition from_key (left_key : Z) : list (Z * V) -> list (Z * V) := filter (fun x => left_key <= x.1).
Definition before_key (right_key : Z) : list (Z * V) -> list (Z * V) := filter (fun x => x.1 < right_key).

Lemma from_key_none left_key (l : list (Z * V)) : (forall k, k ∈ l.*1 -> k < left_key) -> from_key left_key l = [].
Proof.
  unfold from_key. induction l as [|[k v] l IH]; intros H; [done|]. rewrite filter_cons_False.
  - apply IH. intros k' Hk. apply H. by right.
  - cbn. specialize (H k ltac:(left)). lia.
Qed.

Lemma from_key_all left_key (l : list (Z * V)) : (forall k, k ∈ l.*1 -> left_key <= k) -> from_key left_key l = l.
Proof.
  unfold from_key. induction l as [|[k v] l IH]; intros H; [done|]. rewrite filter_cons_True.
  - f_equal. apply IH. intros k' Hk. apply H. by right.
  - cbn. apply H. by left.
Qed.

Section scans.
Context t m P ups key frs P1 a kvs P2 n (Hr : represents t m P ups) (Hf : found t m P ups key frs P1 a kvs P2 n).

Lemma elems_all : elems m = all P.
Proof. apply elems_unique; [apply Hr|apply (bp_map _ _ _ _ _ _ Hr)]. Qed.

Lemma from_place i : lower kvs.*1 key i -> from_key key (elems m) = drop (Z.to_nat i) kvs ++ all P2.
Proof.
  intros (Hi & Hb & Ha). rewrite length_fmap in Hi. rewrite elems_all, (fo_split _ _ _ _ _ _ _ _ _ _ _ _ _ Hf), all_app, all_cons.
  rewrite <- (take_drop (Z.to_nat i) kvs) at 1. unfold from_key. rewrite !filter_app. fold (from_key key).
  rewrite (from_key_none key (all P1)) by (intros k; apply (found_before T b t m P ups key frs P1 a kvs P2 n Hr Hf)).
  rewrite (from_key_none key (take (Z.to_nat i) kvs)).
  2:{ intros k Hk. rewrite fmap_take in Hk. apply list_elem_of_lookup in Hk as [j Hj].
      pose proof (lookup_lt_Some _ _ _ Hj) as Hlt. rewrite length_take, length_fmap in Hlt.
      rewrite lookup_take_lt in Hj by lia. apply (Hb (Z.of_nat j)); [lia|]. by rewrite aget_nat. }
  rewrite (from_key_all key (drop (Z.to_nat i) kvs)).
  2:{ intros k Hk. rewrite fmap_drop in Hk. apply list_elem_of_lookup in Hk as [j Hj]. rewrite lookup_drop in Hj.
      apply (Ha (Z.of_nat (Z.to_nat i + j))); [lia|]. by rewrite aget_nat. }
  rewrite (from_key_all key (all P2)); [done|]. intros k Hk.
  pose proof (found_after T b t m P ups key frs P1 a kvs P2 n Hr Hf k Hk). lia.
Qed.

(** the test for an empty result *)
Lemma from_place_empty i : lower kvs.*1 key i -> (i =? size n) = bool_decide (from_key key (elems m) = []).
Proof.
  intros Hlow. rewrite (from_place i Hlow). unfold size.
  rewrite (ln_cnt _ _ _ _ (fo_leaf _ _ _ _ _ _ _ _ _ _ _ _ _ Hf)). destruct Hlow as (Hi & Hb & Ha). rewrite length_fmap in Hi.
  destruct (Z.eqb_spec i (Z.of_nat (length kvs))) as [E|Hne].
  - rewrite drop_ge by lia. symmetry. apply bool_decide_eq_true. destruct P2 as [|[p x] P2'] eqn:EP2; [done|].
    destruct (found_bound T b t m P ups key frs P1 a kvs ((p, x) :: P2') n Hr Hf) as (k & v & Hlast & Hle); [done|].
    apply last_Some in Hlast as [l El]. subst kvs. rewrite length_app in *. cbn in *.
    enough (k < key) by lia. apply (Hb (Z.of_nat (length l))); [lia|].
    rewrite aget_nat, fmap_app, lookup_app_r by (by rewrite length_fmap). by rewrite length_fmap, Nat.sub_diag.
  - symmetry. apply bool_decide_eq_false. intros [E _]%app_eq_nil. apply (f_equal length) in E.
    rewrite length_drop in E. cbn in E. lia.
Qed.

Lemma place_chain : leaf_chain (nodes t) ((a, kvs) :: P2).
Proof.
  intros Q1 p x Q2 EQ. pose proof (bp_leaves _ _ _ _ _ _ Hr) as Hl. rewrite (fo_split _ _ _ _ _ _ _ _ _ _ _ _ _ Hf) in Hl.
  apply (Hl (P1 ++ Q1) p x Q2). by rewrite <- app_assoc, EQ.
Qed.

Lemma place_nodup : NoDup (a :: P2.*1).
Proof.
  pose proof (bp_nodup _ _ _ _ _ _ Hr) as Hnd. rewrite (fo_split _ _ _ _ _ _ _ _ _ _ _ _ _ Hf), fmap_app in Hnd.
  apply NoDup_app in Hnd as (Hnd & _). by apply NoDup_app in Hnd as (_ & _ & ?).
Qed.

Lemma place_fuel : (length P2 < node_fuel (nodes t))%nat.
Proof.
  destruct (blink_fuel T b t m P ups Hr) as [Hfu _]. rewrite (fo_split _ _ _ _ _ _ _ _ _ _ _ _ _ Hf), length_app in Hfu.
  cbn in Hfu. lia.
Qed.

(** the latch of the first leaf of a scan *)
Lemma first_latch :
  latch_shared ∅ a = Some {[a := Shared 1]} /\ unlatch_shared {[a := Shared 1]} a = Some ∅
  /\ release {[a := Shared 1]} [a] = Some ∅ /\ forall x, x ∈ P2.*1 -> ({[a := Shared 1]} : latches) !! x = None.
Proof.
  destruct (latch_shared_free ∅ a) as [E1 E2]; [done|]. rewrite insert_empty in E1, E2. split; [done|]. split; [done|].
  split; [cbn; by rewrite E2|]. intros x Hx. apply lookup_singleton_ne. intros <-.
  pose proof place_nodup as Hnd. by apply NoDup_cons in Hnd as [? _].
Qed.
End scans.

Lemma ScanFixed_spec t m P ups left_key scan_sz kv :
  represents t m P ups ->
  let R := from_key left_key (elems m) in
  ScanFixed t left_key scan_sz kv =
    Some (if bool_decide (R = []) then (false, kv, t) else (true, kv ++ take (Z.to_nat scan_sz) R, t)).
Proof.
  intros Hr R. destruct (blink_find_leaf T b t m P ups left_key Hr) as (frs & P1 & a & kvs & P2 & n & Hf).
  unfold ScanFixed. rewrite (reach_leaf t m P ups left_key frs P1 a kvs P2 n Hr Hf), bind_Some.
  destruct (first_latch t m P ups left_key frs P1 a kvs P2 n Hr Hf) as (-> & El & Hrel & Hls).
  rewrite bind_Some, (stay_shared t m P ups left_key frs P1 a kvs P2 n Hr Hf), bind_Some.
  rewrite (fo_node _ _ _ _ _ _ _ _ _ _ _ _ _ Hf), bind_Some.
  destruct (leaf_absent t m P ups left_key frs P1 a kvs P2 n Hr Hf) as (i & -> & Hlow & _). rewrite bind_Some.
  rewrite (from_place_empty t m P ups left_key frs P1 a kvs P2 n Hr Hf i Hlow). fold R.
  destruct (bool_decide (R = [])); [by rewrite El, bind_Some, (with_latched_free t m P ups)|].
  destruct (fixed_loop_spec (nodes t) scan_sz P2 (node_fuel (nodes t)) a kvs {[a := Shared 1]} i 0 [a] kv) as (ls' & st' & -> & Hrel').
  - by apply (place_chain t m P ups left_key frs P1 a kvs P2 n).
  - destruct Hlow as [Hi _]. by rewrite length_fmap in Hi.
  - by apply (place_fuel t m P ups left_key frs P1 a kvs P2 n).
  - pose proof (place_nodup t m P ups left_key frs P1 a kvs P2 n Hr Hf) as Hnd. by apply NoDup_cons in Hnd as [_ ?].
  - done.
  - done.
  - rewrite bind_Some, Hrel', bind_Some, (with_latched_free t m P ups) by done.
    unfold R. rewrite (from_place t m P ups left_key frs P1 a kvs P2 n Hr Hf i Hlow). by rewrite Z.sub_0_r.
Qed.

Lemma ScanRange_spec t m P ups left_key right_key kv :
  represents t m P ups ->
  let R := from_key left_key (elems m) in
  ScanRange t left_key right_key kv =
    Some (if bool_decide (R = []) then (false, kv, t) else (true, kv ++ before_key right_key R, t)).
Proof.
  intros Hr R. destruct (blink_find_leaf T b t m P ups left_key Hr) as (frs & P1 & a & kvs & P2 & n & Hf).
  unfold ScanRange. rewrite (reach_leaf t m P ups left_key frs P1 a kvs P2 n Hr Hf), bind_Some.
  destruct (first_latch t m P ups left_key frs P1 a kvs P2 n Hr Hf) as (-> & El & Hrel & Hls).
  rewrite bind_Some, (stay_shared t m P ups left_key frs P1 a kvs P2 n Hr Hf), bind_Some.
  rewrite (fo_node _ _ _ _ _ _ _ _ _ _ _ _ _ Hf), bind_Some.
  destruct (leaf_absent t m P ups left_key frs P1 a kvs P2 n Hr Hf) as (i & -> & Hlow & _). rewrite bind_Some.
  rewrite (from_place_empty t m P ups left_key frs P1 a kvs P2 n Hr Hf i Hlow). fold R.
  destruct (bool_decide (R = [])); [by rewrite El, bind_Some, (with_latched_free t m P ups)|].
  destruct (range_loop_spec (nodes t) right_key P2 (node_fuel (nodes t)) a kvs {[a := Shared 1]} i [a] kv) as (ls' & st' & -> & Hrel').
  - by apply (place_chain t m P ups left_key frs P1 a kvs P2 n).
  - destruct Hlow as [Hi _]. by rewrite length_fmap in Hi.
  - by apply (place_fuel t m P ups left_key frs P1 a kvs P2 n).
  - pose proof (place_nodup t m P ups left_key frs P1 a kvs P2 n Hr Hf) as Hnd. by apply NoDup_cons in Hnd as [_ ?].
  - done.
  - done.
  - pose proof (bp_sorted _ _ _ _ _ _ Hr) as Hs. rewrite (fo_split _ _ _ _ _ _ _ _ _ _ _ _ _ Hf), all_app, all_cons in Hs.
    rewrite sorted_app in Hs. destruct Hs as (_ & Hs & _). rewrite <- (take_drop (Z.to_nat i) kvs), <- app_assoc in Hs.
    rewrite sorted_app in Hs. apply Hs.
  - rewrite bind_Some, Hrel', bind_Some, (with_latched_free t m P ups) by done.
    unfold R, before_key. by rewrite (from_place t m P ups left_key frs P1 a kvs P2 n Hr Hf i Hlow).
Qed.

(** the loop over the leaves *)
Lemma leaf_pairs_spec n kvs nx kv : leaf_node (leaf_node_size_ b) n kvs nx -> leaf_pairs n kv = Some (kv ++ kvs).
Proof.
  intros Hn. unfold leaf_pairs, size. rewrite (ln_cnt _ _ _ _ Hn).
  edestruct (for_range_inv (fun i acc => acc = kv ++ take (Z.to_nat i) kvs)) as (r & -> & Hr); [| | |].
  - lia.
  - by rewrite app_nil_r.
  - intros i s Hi ->. destruct (lookup_lt_is_Some_2 kvs (Z.to_nat i)) as [[k v] Hkv]; [lia|].
    destruct (leaf_get n kvs nx i k v Hn) as [-> ->]; [lia|done|]. rewrite !bind_Some. eexists. split; [done|].
    replace (Z.to_nat (i + 1)) with (S (Z.to_nat i)) by lia. by rewrite (take_S_r _ _ _ Hkv), app_assoc.
  - rewrite Hr, take_ge by lia. done.
Qed.

Lemma leaves_loop_spec ns P : forall fuel kv,
  leaf_chain ns P -> (length P < fuel)%nat -> leaves_loop fuel ns (first P) kv = Some (kv ++ all P).
Proof.
  induction P as [|[p x] P IH]; intros fuel kv Hch Hf; (destruct fuel as [|fuel]; [lia|]); cbn [leaves_loop first fmap option_fmap option_map head fst].
  - unfold all. cbn. by rewrite app_nil_r.
  - destruct (Hch [] p x P eq_refl) as (n & -> & Hn). rewrite bind_Some, (leaf_pairs_spec n x _ kv Hn), bind_Some.
    unfold sibling. rewrite (ln_sibling _ _ _ _ Hn), IH; [|by apply leaf_chain_tail in Hch|cbn in Hf; lia].
    by rewrite all_cons, app_assoc.
Qed.

Lemma ScanLeaf_spec t m P ups kv : represents t m P ups -> ScanLeaf t kv = Some (kv ++ elems m).
Proof.
  intros Hr. unfold ScanLeaf. rewrite <- (bp_first _ _ _ _ _ _ Hr), (elems_all t m P ups Hr). apply leaves_loop_spec.
  - intros Q1 p x Q2 EQ. by apply (bp_leaves _ _ _ _ _ _ Hr Q1).
  - destruct (blink_fuel T b t m P ups Hr) as [Hfu _]. lia.
Qed.
End ops.
