(* ===== verification/BLinkInsert.v ===== *)
(** * Insertion in the B-link tree

    The leaf that has room, the leaf that is split, and the split that goes up the
    path, up to a new root. *)

From S2P Require Import Prelude Encode Levels BLinkNode BLinkSpec BLinkTree BLinkTreeSpec BLinkTreeOps.
From Stdlib Require Import Floats.SpecFloat.
Import BLinkNode BLinkTree.

Section insert.
Context {V : Type} `{!Inhabited V} `{!NodeAllocator V} `{!NodeAllocatorLaws V} (T : ktype) (b : BTree) (Hb : params_ok b).
Implicit Types (ns : gmap Z (node V)) (n : node V) (t : tree V) (P : pieces V) (kvs : list (Z * V)) (m : gmap Z V).

Abbreviation represents := (represents T b).
Abbreviation found := (found T b).
Abbreviation inner_at := (inner_at b).

(** what matters of a node besides [upper_level_] *)
Definition upto n n' : Prop := exists p, n' = with_upper n p.

Lemma upto_refl n : upto n n.
Proof. exists (upper_level_ n). by destruct n. Qed.

Lemma upto_leaf n n' sz kvs nx : upto n n' -> leaf_node sz n kvs nx -> leaf_node sz n' kvs nx.
Proof. intros [p ->] [? ? ? ? ? ? ?]. by split. Qed.

Lemma upto_inner n n' sz E nx : upto n n' -> inner_node sz n E nx -> inner_node sz n' E nx.
Proof. intros [p ->] [? ? ? ? ? ? ? ? ?]. by split. Qed.

(** the greatest key of a node *)
Definition max_key n : option Z := key_at n (size n - 1).

Lemma max_key_leaf sz n l k v nx : leaf_node sz n (l ++ [(k, v)]) nx -> max_key n = Some k.
Proof.
  intros [_ _ Hcnt _ [_ Hk] _ _]. unfold max_key, key_at, size. rewrite Hcnt, length_app. cbn [length].
  replace (Z.of_nat (length l + 1) - 1) with (Z.of_nat (length l)) by lia.
  btrue ((0 <=? Z.of_nat (length l)) && (Z.of_nat (length l) <? Z.of_nat (length l + 1))). cbn [asserting].
  apply (starts_get _ _ _ _ Hk). rewrite fmap_app, lookup_app_r by (by rewrite length_fmap). by rewrite length_fmap, Nat.sub_diag.
Qed.

Lemma max_key_inner sz n E nx k : inner_node sz n E nx -> last (bounds E) = Some k -> max_key n = Some k.
Proof.
  intros [_ _ Hcnt _ _ [_ Hk] _ _ _] [l El]%last_Some. unfold max_key, key_at, size. rewrite Hcnt, El, length_app. cbn [length].
  replace (Z.of_nat (length l + 1) - 1) with (Z.of_nat (length l)) by lia.
  btrue ((0 <=? Z.of_nat (length l)) && (Z.of_nat (length l) <? Z.of_nat (length l + 1))). cbn [asserting].
  apply (starts_get _ _ _ _ Hk). by rewrite El, lookup_app_r, Nat.sub_diag by lia.
Qed.

(** what the loop makes of a tree whose levels above node [a] were [L]; [r] is the new
    node to its right, [w] the one that stays latched *)
Record raised t (a r : Z) (L : list (list group)) (C : level) (k : nat) t' ups' (w : Z) : Prop := {
  ra_chain : chain inner_at (nodes t') C ups' (root_ t');
  ra_frame x : is_Some (nodes t !! x) -> x <> a -> x <> r -> x ∉ addrs L -> nodes t' !! x = nodes t !! x;
  ra_old x n : x = a \/ x = r -> nodes t !! x = Some n -> exists n', nodes t' !! x = Some n' /\ upto n n';
  ra_nodup : NoDup (addrs ups');
  ra_new x : x ∈ addrs ups' -> x ∈ addrs L \/ nodes t !! x = None;
  ra_depth : tree_depth_ t' = Z.of_nat (k + S (length ups'));
  ra_latched : latched t' = {[w := Exclusive]};
  ra_same : base t' = base t /\ leaves_ t' = leaves_ t;
}.

Lemma unlatch_first (a w : Z) : a <> w ->
  latch_exclusive {[a := Exclusive]} w = Some (<[w := Exclusive]> {[a := Exclusive]})
  /\ unlatch_exclusive (<[w := Exclusive]> {[a := Exclusive]}) a = Some {[w := Exclusive]}.
Proof.
  intros Hne. unfold latch_exclusive, unlatch_exclusive. rewrite lookup_singleton_ne by done. split; [done|].
  rewrite lookup_insert_ne, lookup_singleton_eq by done. f_equal.
  rewrite delete_insert_ne by done. by rewrite delete_singleton_eq, insert_empty.
Qed.

(** the root was split *)
Lemma raised_root t k a r n nr mid rmax fuel :
  root_ t = a -> base t = b -> latched t = {[a := Exclusive]} -> a <> r ->
  nodes t !! a = Some n -> nodes t !! r = Some nr -> max_key n = Some mid -> max_key nr = Some rmax ->
  tree_depth_ t = Z.of_nat (k + 1) ->
  exists t' ups' w, split_loop (S (S fuel)) t a (Some r) [] = Some (t', w)
    /\ raised t a r [] [(a, Some mid); (r, None)] k t' ups' w.
Proof.
  intros Hroot Hbase Hlat Har Ha Hr Hmid Hrm Hd. remember (S fuel) as fuel' eqn:Efuel. cbn [split_loop].
  rewrite Hr, bind_Some, Ha, bind_Some. unfold max_key in Hmid, Hrm. rewrite Hrm, bind_Some, Hmid, bind_Some.
  rewrite Hroot, Z.eqb_refl. set (w := new_node (nodes t)).
  assert (nodes t !! w = None) as Hw by apply new_node_fresh.
  assert (a <> w /\ r <> w) as [Haw Hrw] by (split; congruence).
  rewrite bind_Some. cbn [latched with_depth with_nodes]. rewrite Hlat. destruct (unlatch_first a w Haw) as [-> Hun].
  rewrite bind_Some. cbn [root_ with_latched with_depth with_nodes]. rewrite Hroot, Z.eqb_refl.
  set (h := <[r := _]> _). cbn [nodes with_root with_latched with_depth with_nodes latched base].
  assert (h !! w = Some (BLinkNode (inner_node_size_ (base t)) false)) as Hhw.
  { unfold h. rewrite !lookup_insert_ne by done. by rewrite lookup_insert_eq. }
  unfold node_fuel at 1. cbn [right_coupled]. rewrite Hhw, bind_Some. cbn [beyond sibling BLinkNode sibling_ptr_].
  change (beyond (BLinkNode (V := V) (inner_node_size_ (base t)) false) rmax) with (Some false). rewrite !bind_Some, Hun, bind_Some, Hhw, bind_Some.
  rewrite Hbase. destruct (InnerInsert_root (V := V) (inner_node_size_ b) a r mid (inner_split_threshold_ b) (new_node h))
    as (n' & -> & Hn'); [apply Hb|apply Hb|].
  rewrite bind_Some, Efuel. cbn [split_loop].
  eexists _, [[(w, [(a, Some mid); (r, None)])]], w. split; [done|].
  split; cbn [nodes with_root with_latched with_depth with_nodes latched base root_ tree_depth_ leaves_].
  - cbn [chain]. split; [done|]. split; [|done]. intros G1 p E G2 EG. destruct G1 as [|? G1]; [|by destruct G1].
    injection EG as <- <- <-. exists n'. by rewrite lookup_insert_eq.
  - intros x [y Hx] Hxa Hxr _. rewrite lookup_insert_ne by congruence. unfold h.
    by rewrite !lookup_insert_ne by congruence.
  - intros x y Hx Hy. rewrite lookup_insert_ne by (destruct Hx; congruence). unfold h.
    destruct Hx as [->| ->].
    + rewrite lookup_insert_ne, lookup_insert_eq by congruence. eexists. split; [done|]. exists (Some w). congruence.
    + rewrite lookup_insert_eq. eexists. split; [done|]. exists (Some w). congruence.
  - apply NoDup_singleton.
  - intros x Hx. right. cbn in Hx. apply list_elem_of_singleton in Hx as ->. done.
  - rewrite Hd. cbn [length]. lia.
  - done.
  - done.
Qed.

(** the two halves of a full node *)
Lemma after_cut (sz : Z) E1 E2 a r u mid n n' rn nx (ra : Z) :
  let A := Levels.after E1 E2 a r u mid in let c := Z.to_nat (inner_cut E1 E2 a u) in
  inner_node sz n (Levels.before E1 E2 a u) nx -> ordered (in_range T) A ->
  inner_node sz n' (take c A) (Some ra) -> inner_node sz rn (drop c A) nx ->
  exists F1 q v F2 w, A = (F1 ++ [(q, Some v)]) ++ F2 /\ F2 <> []
    /\ inner_node sz n' (F1 ++ [(q, Some v)]) (Some ra) /\ inner_node sz rn F2 nx
    /\ max_key n' = Some v /\ max_key rn = Some w /\ v < w
    /\ (forall w', ub (Levels.before E1 E2 a u) = Some w' -> w <= w').
Proof.
  intros A c Hn Ho Hn' Hrn. pose proof (inner_nonempty _ _ _ _ Hrn) as HF2.
  pose proof (inner_nonempty _ _ _ _ Hn') as HF1. destruct (exists_last HF1) as (F1 & [q x] & EF1).
  remember (drop c A) as F2 eqn:EF2.
  assert (A = (F1 ++ [(q, x)]) ++ F2) as EA by (rewrite EF2, <- EF1; by rewrite take_drop).
  rewrite EF1 in Hn'. assert (is_Some x) as [v ->].
  { rewrite EA, <- app_assoc in Ho. by apply (ordered_bound (in_range T) F1 (q, x) F2) in Ho. }
  destruct (last (bounds F2)) as [w|] eqn:Ew; [|apply last_None in Ew; by destruct (in_some _ _ _ _ Hrn)].
  exists F1, q, v, F2, w. split; [done|]. split; [done|]. split; [done|]. split; [done|].
  split; [|split; [by eapply max_key_inner|split]].
  - eapply max_key_inner; [done|]. rewrite bounds_app. apply last_snoc.
  - assert (w ∈ bounds F2) as (e & He & Ee)%elem_of_bounds.
    { apply last_Some in Ew as [l ->]. apply elem_of_app. right. by left. }
    rewrite EA, ordered_app in Ho. destruct Ho as (_ & _ & Hlt).
    specialize (Hlt (q, Some v) e). unfold entry_lt in Hlt. rewrite Ee in Hlt. apply Hlt; [|done].
    apply elem_of_app. right. by left.
  - intros w' Hw'. rewrite <- (ub_after E1 E2 a r u mid) in Hw'. fold A in Hw'. rewrite EA, ub_app in Hw' by done.
    destruct (exists_last HF2) as (F3 & [q' x'] & EF3). rewrite EF3, ub_snoc in Hw'. cbn in Hw'. subst x'.
    rewrite EF3, bounds_app in Ew. change (bounds [(q', Some w')]) with [w'] in Ew. rewrite last_snoc in Ew. by injection Ew as <-.
Qed.

(** one turn of the loop below the root *)
Lemma raise_one t a r n nr mid rmax p E1 E2 u np nx :
  a <> root_ t -> base t = b -> latched t = {[a := Exclusive]} -> p <> a ->
  nodes t !! a = Some n -> nodes t !! r = Some nr -> max_key n = Some mid -> max_key nr = Some rmax ->
  nodes t !! p = Some np -> inner_node (inner_node_size_ b) np (Levels.before E1 E2 a u) nx ->
  ordered (in_range T) (Levels.before E1 E2 a u) -> ordered (in_range T) (Levels.after E1 E2 a r u mid) ->
  mid < rmax -> (forall w, u = Some w -> rmax <= w) ->
  exists np' rn_,
    match rn_ with
    | None => inner_node (inner_node_size_ b) np' (Levels.after E1 E2 a r u mid) nx
    | Some rn => exists F1 q v F2 w, Levels.after E1 E2 a r u mid = (F1 ++ [(q, Some v)]) ++ F2 /\ F2 <> []
        /\ inner_node (inner_node_size_ b) np' (F1 ++ [(q, Some v)]) (Some (new_node (nodes t)))
        /\ inner_node (inner_node_size_ b) rn F2 nx
        /\ max_key np' = Some v /\ max_key rn = Some w /\ v < w
        /\ (forall w', ub (Levels.before E1 E2 a u) = Some w' -> w <= w')
    end
    /\ forall fuel st, split_loop (S fuel) t a (Some r) (p :: st) =
         let ns := <[p := np']> (nodes t) in
         match rn_ with
         | None => split_loop fuel (with_latched (with_nodes t ns) {[p := Exclusive]}) p None st
         | Some rn => split_loop fuel (with_latched (with_nodes t (<[new_node (nodes t) := rn]> ns)) {[p := Exclusive]}) p
                        (Some (new_node (nodes t))) st
         end.
Proof.
  intros Hroot Hbase Hlat Hpa Ha Hr Hmid Hrm Hp Hnp Ho Ho' Hlt Hu. set (ra := new_node (nodes t)).
  destruct (after_located E1 E2 a r u mid (in_range T) Ho Ho') as [Hl1 Hl2].
  assert (beyond np rmax = Some false) as Hbey.
  { eapply (inner_beyond T b np E1 (a, u) E2); [exact Hnp|exact Ho|]. split.
    - eapply Forall_impl; [exact Hl1|]. intros e. unfold below. destruct e.2; [lia|done].
    - unfold below. cbn. destruct u as [w|]; [|by intros []]. specialize (Hu w eq_refl). lia. }
  assert (exists np' rn_, InnerInsert np mid (Some a) (Some r) (inner_split_threshold_ b) ra = Some (np', rn_)
    /\ match rn_ with
       | None => inner_node (inner_node_size_ b) np' (Levels.after E1 E2 a r u mid) nx
       | Some rn => inner_node (inner_node_size_ b) np' (take (Z.to_nat (inner_cut E1 E2 a u)) (Levels.after E1 E2 a r u mid)) (Some ra)
           /\ inner_node (inner_node_size_ b) rn (drop (Z.to_nat (inner_cut E1 E2 a u)) (Levels.after E1 E2 a r u mid)) nx
       end) as (np' & rn_ & Hins & Hnp').
  { destruct (safe (item_cnt_ np) (node_size_ np) (inner_split_threshold_ b)) eqn:Es.
    - destruct (InnerInsert_safe T E1 E2 a r u mid Ho Ho' (inner_node_size_ b) np nx Hnp (inner_split_threshold_ b) ra Es)
        as (np' & E & ?); [|by exists np', None].
      rewrite <- (in_cnt _ _ _ _ Hnp). rewrite (in_size _ _ _ _ Hnp) in Es. apply (pk_inner_room _ Hb _); [|done].
      rewrite (in_cnt _ _ _ _ Hnp). pose proof (in_max _ _ _ _ Hnp). lia.
    - destruct (InnerInsert_split T E1 E2 a r u mid Ho Ho' (inner_node_size_ b) np nx Hnp (inner_split_threshold_ b) ra Es)
        as (np' & rn & E & ? & ?). by exists np', (Some rn). }
  exists np', rn_. split.
  - destruct rn_ as [rn|]; [|done]. destruct Hnp' as [H1 H2]. by eapply after_cut.
  - intros fuel st. cbn [split_loop]. unfold max_key in Hmid, Hrm.
    rewrite Hr, bind_Some, Ha, bind_Some, Hrm, bind_Some, Hmid, bind_Some. bfalse (a =? root_ t). rewrite bind_Some.
    rewrite Hlat. destruct (unlatch_first a p) as [-> Hun]; [done|]. rewrite bind_Some.
    cbn [root_ with_latched]. bfalse (a =? root_ t). unfold node_fuel at 1. cbn [right_coupled nodes with_latched latched base].
    rewrite Hp, bind_Some, Hbey, !bind_Some, Hun, bind_Some, Hp, bind_Some, Hbase. fold ra. rewrite Hins, bind_Some.
    by destruct rn_.
Qed.

(** the level of [p], which gets the new entry *)
Section level.
Context t (a r : Z) (G1 G2 : list group) (p : Z) (E1 E2 : level) (u : option Z) (mid : Z) (L : list (list group)).
Abbreviation E := (Levels.before E1 E2 a u).
Context (Hi : inners inner_at (nodes t) (G1 ++ (p, E) :: G2)) (Hnd : NoDup (a :: addrs ((G1 ++ (p, E) :: G2) :: L)))
  (Hdom : forall x, x ∈ addrs L -> is_Some (nodes t !! x))
  (Har : a <> r) (HrL : r ∉ addrs ((G1 ++ (p, E) :: G2) :: L)) (Hr : is_Some (nodes t !! r)) (Ha : is_Some (nodes t !! a)).

Lemma level_mem x : x ∈ addrs ((G1 ++ (p, E) :: G2) :: L) <-> x = p \/ x ∈ G1.*1 ++ G2.*1 \/ x ∈ addrs L.
Proof. rewrite addrs_cons, fmap_app. cbn. rewrite !elem_of_app, elem_of_cons. naive_solver. Qed.

Lemma level_r : r <> p /\ r ∉ G1.*1 ++ G2.*1 /\ r ∉ addrs L.
Proof.
  split; [|split]; [intros ->|intros Hx|intros Hx]; apply HrL, level_mem; [by left|right; by left|right; by right].
Qed.

(** no split *)
Lemma raised_stop k np nx C1 C2 frs t' :
  C1 = subs G1 ++ E1 -> C2 = E2 ++ subs G2 -> nx = first G2 ->
  inner_node (inner_node_size_ b) np (Levels.after E1 E2 a r u mid) nx ->
  zip inner_at (nodes t) (ents G1) (p, ub E) (ents G2) frs (root_ t) -> L = levels (p, ub E) frs ->
  tree_depth_ t = Z.of_nat (k + S (S (length frs))) ->
  t' = with_latched (with_nodes t (<[p := np]> (nodes t))) {[p := Exclusive]} ->
  raised t a r ((G1 ++ (p, E) :: G2) :: L) (C1 ++ (a, Some mid) :: (r, u) :: C2) k t'
    ((G1 ++ (p, Levels.after E1 E2 a r u mid) :: G2) :: L) p.
Proof.
  intros -> -> -> Hnp Hz EL Hd ->. destruct (level_p inner_at (nodes t) a G1 G2 p E L Hi Hnd) as (Hpd & Hpa & HpL).
  destruct level_r as (Hrp & HrG & HrL').
  assert (forall x, x <> p -> <[p := np]> (nodes t) !! x = nodes t !! x) as Hfr by (intros; by apply lookup_insert_ne).
  split; cbn [nodes latched root_ tree_depth_ base leaves_ with_latched with_nodes].
  - cbn [chain]. split; [|split].
    + rewrite subs_app, subs_cons. unfold Levels.after. by rewrite <- !app_assoc.
    + apply (inners_replace inner_at (nodes t) _ G1 p E G2 [(p, Levels.after E1 E2 a r u mid)]); [done|done| |].
      * intros x Hx. destruct (level_other inner_at (nodes t) a G1 G2 p E L Hi Hnd x Hx) as (_ & _ & ? & _). by apply Hfr.
      * intros D1 q F D2 ED. destruct D1 as [|? D1]; [|by destruct D1]. injection ED as <- <- <-.
        exists np. by rewrite lookup_insert_eq.
    + apply zip_chain in Hz. rewrite <- EL in Hz. rewrite ents_app, ents_cons, ub_after.
      apply (chain_frame inner_at (nodes t)); [|done]. intros x Hx. apply Hfr. by intros ->.
  - intros x _ _ _ HxL. apply Hfr. intros ->. apply HxL, level_mem. by left.
  - intros x y Hx Hy. rewrite Hfr by (destruct Hx as [->| ->]; congruence). exists y. split; [done|apply upto_refl].
  - apply NoDup_cons in Hnd as [_ Hn]. rewrite addrs_cons, fmap_app in Hn |- *. done.
  - intros x Hx. left. rewrite addrs_cons, fmap_app in Hx |- *. done.
  - rewrite Hd, EL. cbn [length]. by rewrite length_levels.
  - done.
  - done.
Qed.

(** [p] was split, and the levels above have been raised *)
Lemma raised_step k np rn F1 q v F2 C1 C2 ra t' t4 ups' w :
  C1 = subs G1 ++ E1 -> C2 = E2 ++ subs G2 ->
  Levels.after E1 E2 a r u mid = (F1 ++ [(q, Some v)]) ++ F2 -> F2 <> [] ->
  inner_node (inner_node_size_ b) np (F1 ++ [(q, Some v)]) (Some ra) ->
  inner_node (inner_node_size_ b) rn F2 (first G2) -> nodes t !! ra = None ->
  nodes t4 = <[ra := rn]> (<[p := np]> (nodes t)) -> base t4 = base t -> leaves_ t4 = leaves_ t ->
  raised t4 p ra L (ents G1 ++ (p, Some v) :: (ra, ub E) :: ents G2) (S k) t' ups' w ->
  raised t a r ((G1 ++ (p, E) :: G2) :: L) (C1 ++ (a, Some mid) :: (r, u) :: C2) k t'
    ((G1 ++ (p, F1 ++ [(q, Some v)]) :: (ra, F2) :: G2) :: ups') w.
Proof.
  intros -> -> EF HF2 Hnp Hrn Hra E4 Eb4 El4 [Rc Rf Ro Rnd Rnew Rd Rl [Rb Rlv]].
  destruct (level_p inner_at (nodes t) a G1 G2 p E L Hi Hnd) as (Hpd & Hpa & HpL). destruct level_r as (Hrp & HrG & HrL').
  assert (ra <> p /\ ra <> a /\ ra <> r) as (Hrap & Hraa & Hrar).
  { destruct Hpd, Ha, Hr. split; [|split]; congruence. }
  assert (ra ∉ addrs L) as HraL. { intros Hx. destruct (Hdom ra Hx). congruence. }
  assert (forall x, is_Some (nodes t !! x) -> x <> p -> x ∉ addrs L -> nodes t' !! x = nodes t !! x) as Hfr.
  { intros x [y Hx] Hxp HxL. assert (x <> ra) by congruence.
    assert (nodes t4 !! x = nodes t !! x) as E'. { rewrite E4. by rewrite !lookup_insert_ne by done. }
    rewrite Rf; [done|rewrite E'; eauto|done|done|done]. }
  assert (nodes t4 !! p = Some np) as H4p by (rewrite E4, lookup_insert_ne by done; apply lookup_insert_eq).
  assert (nodes t4 !! ra = Some rn) as H4ra by (rewrite E4; apply lookup_insert_eq).
  assert (ub F2 = ub E) as HubE.
  { rewrite <- (ub_after E1 E2 a r u mid), EF. by rewrite ub_app. }
  assert (forall x, x ∈ G1.*1 ++ G2.*1 -> nodes t' !! x = nodes t !! x /\ x ∉ addrs L /\ x <> ra /\ is_Some (nodes t !! x)) as Hoth.
  { intros x Hx. destruct (level_other inner_at (nodes t) a G1 G2 p E L Hi Hnd x Hx) as ([z Hz] & ? & ? & ?).
    split; [by apply Hfr; eauto|]. split; [done|]. split; [congruence|eauto]. }
  split.
  - cbn [chain]. split; [|split].
    + rewrite subs_app, !subs_cons, (app_assoc _ F2), <- EF. unfold Levels.after. by rewrite <- !app_assoc.
    + apply (inners_replace inner_at (nodes t) _ G1 p E G2 [(p, F1 ++ [(q, Some v)]); (ra, F2)]); [done|done| |].
      * intros x Hx. apply (Hoth x Hx).
      * intros D1 y F D2 ED. destruct D1 as [|d D1]; [|destruct D1 as [|? D1]; [|by destruct D1]].
        -- injection ED as <- <- <-. destruct (Ro p np (or_introl eq_refl) H4p) as (n' & Hn' & Hup).
           exists n'. split; [done|]. by eapply upto_inner.
        -- injection ED as _ <- <- <-. destruct (Ro ra rn (or_intror eq_refl) H4ra) as (n' & Hn' & Hup).
           exists n'. split; [done|]. by eapply upto_inner.
    + rewrite ents_app, !ents_cons, ub_snoc, HubE. done.
  - intros x Hx Hxa Hxr HxL. apply Hfr; [done| |]; [intros ->|intros Hx']; apply HxL, level_mem; [by left|right; by right].
  - intros x y Hx Hy. exists y. split; [|apply upto_refl]. rewrite Hfr; [done|by eauto| |];
      destruct Hx as [-> | ->]; try done.
    apply (level_a a G1 G2 p E L Hnd).
  - rewrite addrs_cons, fmap_app. cbn. apply nodup_beside; [by apply (level_self a G1 G2 p E L Hnd)| |done|done|].
    + intros Hx. by destruct (Hoth ra Hx) as (_ & _ & ? & _).
    + intros x Hx Hx'. enough (is_Some (nodes t4 !! x) /\ x ∉ addrs L) as [[z Hz] HxL].
      { destruct (Rnew x Hx'); [done|congruence]. }
      assert (forall x, x ∈ G1.*1 ++ G2.*1 -> is_Some (nodes t4 !! x) /\ x ∉ addrs L) as Hside.
      { intros y Hy. destruct (Hoth y Hy) as (_ & ? & ? & [z Hz]). split; [|done].
        destruct (decide (y = p)) as [->|]; [eauto|]. rewrite E4, !lookup_insert_ne by done. eauto. }
      apply elem_of_app in Hx as [Hx|[-> |[-> |Hx]%elem_of_cons]%elem_of_cons].
      * apply Hside, elem_of_app. by left.
      * rewrite H4p. eauto.
      * rewrite H4ra. eauto.
      * apply Hside, elem_of_app. by right.
  - intros x Hx. rewrite addrs_cons, fmap_app in Hx. cbn in Hx.
    assert (x = ra \/ x ∈ addrs ups' \/ x = p \/ x ∈ G1.*1 ++ G2.*1) as [->|[Hx'|Hx']].
    { clear - Hx. rewrite !elem_of_app, !elem_of_cons in *. naive_solver. }
    + by right.
    + destruct (Rnew x Hx') as [?|Hn]; [left; apply level_mem; right; by right|]. right.
      rewrite E4 in Hn. apply lookup_insert_None in Hn as [Hn _]. by apply lookup_insert_None in Hn as [Hn _].
    + left. apply level_mem. destruct Hx' as [?|?]; [by left|right; by left].
  - rewrite Rd. cbn [length]. lia.
  - done.
  - rewrite Rb, Rlv. done.
Qed.
End level.

(** a split goes up *)
Lemma split_loop_spec frs : forall t k C1 a u C2 r mid rmax n nr fuel,
  zip inner_at (nodes t) C1 (a, u) C2 frs (root_ t) ->
  ordered (in_range T) (C1 ++ (a, u) :: C2) -> ordered (in_range T) (C1 ++ (a, Some mid) :: (r, u) :: C2) ->
  base t = b -> latched t = {[a := Exclusive]} -> a <> r -> r ∉ addrs (levels (a, u) frs) ->
  nodes t !! a = Some n -> nodes t !! r = Some nr -> max_key n = Some mid -> max_key nr = Some rmax ->
  mid < rmax -> (forall w, u = Some w -> rmax <= w) -> NoDup (a :: addrs (levels (a, u) frs)) ->
  tree_depth_ t = Z.of_nat (k + S (length frs)) -> (S (length frs) < fuel)%nat ->
  exists t' ups' w, split_loop fuel t a (Some r) (fr_p <$> frs) = Some (t', w)
    /\ raised t a r (levels (a, u) frs) (C1 ++ (a, Some mid) :: (r, u) :: C2) k t' ups' w.
Proof.
  induction frs as [|[G1 p E1 E2 G2] frs IH];
    intros t k C1 a u C2 r mid rmax n nr fuel Hz Ho Ho' Hb' Hlat Har HrL Ha Hr Hmid Hrm Hlt Hu Hdup Hd Hfuel.
  { destruct fuel as [|[|fuel]]; [cbn in Hfuel; lia..|].
    destruct Hz as (-> & -> & [= Ea ->]). cbn [fmap list_fmap levels]. by eapply (raised_root t k a r n nr mid rmax). }
  destruct fuel as [|fuel]; [lia|].
  pose proof (zip_root inner_at _ _ _ _ _ _ Hz) as Hroot. destruct Hz as (-> & -> & Hi & Hz).
  cbn [fmap list_fmap levels] in *. unfold fr_level, fr_E in *. cbn [fr_G1 fr_p fr_E1 fr_E2 fr_G2] in *.
  change (E1 ++ (a, u) :: E2) with (Levels.before E1 E2 a u) in *.
  set (L := levels (p, ub (Levels.before E1 E2 a u)) frs) in *.
  assert (forall x, x ∈ addrs L -> is_Some (nodes t !! x)) as Hdom.
  { intros x. eapply (chain_dom _ (nodes t)). apply zip_chain. exact Hz. }
  destruct (level_p inner_at (nodes t) a G1 G2 p _ L Hi Hdup) as (Hpd & Hpa & HpL).
  destruct (Hi G1 p _ G2 eq_refl) as (np & Hp & Hnp).
  assert (a <> root_ t) as Harr. { intros ->. by apply NoDup_cons in Hdup as [Hdup _]. }
  assert (subs (G1 ++ (p, Levels.after E1 E2 a r u mid) :: G2)
          = (subs G1 ++ E1) ++ (a, Some mid) :: (r, u) :: E2 ++ subs G2) as Esubs.
  { rewrite subs_app, subs_cons. unfold Levels.after. by rewrite <- !app_assoc. }
  assert (subs (G1 ++ (p, Levels.before E1 E2 a u) :: G2) = (subs G1 ++ E1) ++ (a, u) :: E2 ++ subs G2) as Esubs0.
  { rewrite subs_app, subs_cons. unfold Levels.before. by rewrite <- !app_assoc. }
  rewrite <- Esubs in Ho'. rewrite <- Esubs0 in Ho.
  pose proof (ordered_sub (in_range T) _ _ _ _ Ho) as HoE. pose proof (ordered_sub (in_range T) _ _ _ _ Ho') as HoE'.
  pose proof (inners_nonempty inner_at _ _ Hi) as Hne.
  destruct (raise_one t a r n nr mid rmax p E1 E2 u np (first G2) Harr Hb' Hlat Hpa Ha Hr Hmid Hrm Hp Hnp HoE HoE' Hlt Hu)
    as (np' & rn_ & Hnp' & Hloop).
  rewrite Hloop. clear Hloop. cbn zeta. destruct rn_ as [rn|].
  - destruct Hnp' as (F1 & q & v & F2 & w & EF & HF2 & Hnp' & Hrn & Hv & Hw & Hvw & Hwu).
    set (ra := new_node (nodes t)) in *. assert (nodes t !! ra = None) as Hra by apply new_node_fresh.
    destruct (ordered_up (in_range T) G1 p E1 E2 a r u mid F1 q v F2 G2 Ho' Hne EF HF2 ra) as [Hup _].
    set (t4 := with_latched _ _).
    destruct (IH t4 (S k) (ents G1) p (ub (Levels.before E1 E2 a u)) (ents G2) ra v w np' rn fuel)
      as (t' & ups' & w' & Hrun & Hra'); try done.
    + apply (zip_frame inner_at (nodes t)); [|done]. intros x Hx. unfold t4. cbn.
      rewrite !lookup_insert_ne; [done| |].
      * intros E'. by rewrite E' in HpL.
      * intros E'. destruct (Hdom x Hx). congruence.
    + rewrite <- ents_cons, <- ents_app. by apply ordered_ents.
    + intros ->. destruct Hpd. congruence.
    + intros Hx. destruct (Hdom ra Hx). congruence.
    + unfold t4. cbn. rewrite lookup_insert_ne by (intros ->; destruct Hpd; congruence). apply lookup_insert_eq.
    + unfold t4. cbn. apply lookup_insert_eq.
    + by apply (level_upper inner_at (nodes t) a G1 G2 p (Levels.before E1 E2 a u) L).
    + unfold t4. cbn. cbn in Hd. lia.
    + cbn in Hfuel. lia.
    + eexists t', _, w'. split; [done|]. eapply (raised_step t a r G1 G2 p E1 E2 u mid L Hi Hdup Hdom Har HrL) with (t4 := t4) (rn := rn); try done; by eexists.
  - destruct fuel as [|fuel]; [cbn in Hfuel; lia|]. cbn [split_loop]. eexists _, _, p. split; [done|].
    eapply (raised_stop t a r G1 G2 p E1 E2 u mid L Hi Hdup Har HrL) with (np := np'); try done; by eexists.
Qed.

(** ** A pair put in its place *)

Lemma ins_at_lower (kvs : list (Z * V)) key v i :
  lower kvs.*1 key i -> key ∉ kvs.*1 ->
  exists l1 l2, kvs = l1 ++ l2 /\ ins_at i (key, v) kvs = l1 ++ (key, v) :: l2
    /\ (forall x, x ∈ l1.*1 -> x < key) /\ (forall x, x ∈ l2.*1 -> key < x).
Proof.
  intros (Hi & Hbe & Ha) Hnew. exists (take (Z.to_nat i) kvs), (drop (Z.to_nat i) kvs).
  split; [by rewrite take_drop|]. split; [done|]. rewrite length_fmap in Hi. split; intros x Hx.
  - rewrite fmap_take in Hx. apply list_elem_of_lookup in Hx as [j Hj]. pose proof (lookup_lt_Some _ _ _ Hj) as Hlt.
    rewrite length_take, length_fmap in Hlt. rewrite lookup_take_lt in Hj by lia.
    apply (Hbe (Z.of_nat j)); [lia|]. by rewrite aget_nat.
  - assert (x <> key). { intros ->. apply Hnew. rewrite <- (take_drop (Z.to_nat i) kvs), fmap_app. apply elem_of_app. by right. }
    rewrite fmap_drop in Hx. apply list_elem_of_lookup in Hx as [j Hj]. rewrite lookup_drop in Hj.
    enough (key <= x) by lia. apply (Ha (Z.of_nat (Z.to_nat i + j))); [lia|]. by rewrite aget_nat.
Qed.

Lemma map_insert_middle (l1 l2 : list (Z * V)) key v :
  NoDup (l1 ++ (key, v) :: l2).*1 ->
  list_to_map (M := gmap Z V) (l1 ++ (key, v) :: l2) = <[key := v]> (list_to_map (l1 ++ l2)).
Proof.
  intros Hnd. rewrite (list_to_map_proper (l1 ++ (key, v) :: l2) ((key, v) :: l1 ++ l2)); [done|done|].
  by rewrite Permutation_middle.
Qed.

(** the bounds of the leaves are keys of the tree *)
Lemma bounds_entries P k : k ∈ bounds (entries P) -> k ∈ (all P).*1.
Proof.
  intros ([a u] & (l1 & l2 & El)%list_elem_of_split & Eu)%elem_of_bounds. cbn in Eu.
  apply entries_inv in El as (P1 & kvs & P2 & -> & _ & Eb & _). cbn in Eb. rewrite Eu in Eb.
  unfold piece_bound in Eb. destruct P2; [done|]. symmetry in Eb.
  apply fmap_Some in Eb as ([k' v] & (l & ->)%last_Some & ->). cbn [fst].
  apply (all_piece _ a (l ++ [(k', v)])); [apply elem_of_app; right; by left|].
  rewrite fmap_app. apply elem_of_app. right. by left.
Qed.

Section at_leaf.
Context t m P ups key frs P1 a kvs P2 n (Hr : represents t m P ups) (Hf : found t m P ups key frs P1 a kvs P2 n).
Context (v : V) (i : Z) (Hin : in_range T key) (Habs : m !! key = None) (Hlow : lower kvs.*1 key i) (Hnew : key ∉ kvs.*1).
Abbreviation kvs' := (ins_at i (key, v) kvs).

Lemma insert_all :
  StronglySorted Z.lt (all (P1 ++ (a, kvs') :: P2)).*1 /\ Forall (in_range T) (all (P1 ++ (a, kvs') :: P2)).*1
  /\ list_to_map (all (P1 ++ (a, kvs') :: P2)) = <[key := v]> m
  /\ (P2 <> [] -> last kvs' = last kvs) /\ kvs' <> [].
Proof.
  destruct (ins_at_lower kvs key v i Hlow Hnew) as (l1 & l2 & Ek & -> & H1 & H2).
  pose proof (bp_sorted _ _ _ _ _ _ Hr) as Hs. pose proof (bp_range _ _ _ _ _ _ Hr) as Hra. pose proof (bp_map _ _ _ _ _ _ Hr) as Hm.
  pose proof (found_before T b t m P ups key frs P1 a kvs P2 n Hr Hf) as Hbef.
  pose proof (found_after T b t m P ups key frs P1 a kvs P2 n Hr Hf) as Haft.
  pose proof (found_bound T b t m P ups key frs P1 a kvs P2 n Hr Hf) as Hbound.
  rewrite (fo_split _ _ _ _ _ _ _ _ _ _ _ _ _ Hf), all_app, all_cons, Ek in Hs, Hra, Hm.
  assert (all P1 ++ (l1 ++ l2) ++ all P2 = (all P1 ++ l1) ++ l2 ++ all P2) as E0 by by rewrite <- !app_assoc.
  assert (all (P1 ++ (a, l1 ++ (key, v) :: l2) :: P2) = (all P1 ++ l1) ++ (key, v) :: l2 ++ all P2) as ->
    by (rewrite all_app, all_cons, <- !app_assoc; done).
  rewrite E0 in Hs, Hra, Hm.
  assert (StronglySorted Z.lt ((all P1 ++ l1) ++ (key, v) :: l2 ++ all P2).*1) as Hs'.
  { rewrite sorted_app in Hs |- *. destruct Hs as (Hs1 & Hs2 & Hs12). split; [done|]. split.
    - cbn. constructor; [done|]. apply Forall_forall. intros x. rewrite fmap_app, elem_of_app. intros [Hx|Hx]; [by apply H2|by apply Haft].
    - intros x y Hx Hy. cbn in Hy. apply elem_of_cons in Hy as [->|Hy]; [|by apply Hs12].
      rewrite fmap_app, elem_of_app in Hx. destruct Hx as [Hx|Hx]; [by apply Hbef|by apply H1]. }
  split; [done|]. split; [|split; [|split]].
  - rewrite fmap_app, Forall_app in Hra |- *. destruct Hra as [Hra1 Hra2]. split; [done|]. by constructor.
  - rewrite map_insert_middle by (by apply sorted_nodup). by rewrite Hm.
  - intros Hne. destruct (Hbound Hne) as (k & w & Hlast & Hle). rewrite Ek, !last_app, last_cons in *.
    destruct (last l2) as [x|] eqn:E2; [done|]. apply last_None in E2 as ->. cbn in Hlast.
    apply last_Some in Hlast as [l ->]. specialize (H1 k). rewrite fmap_app in H1. cbn in H1.
    enough (k < key) by lia. apply H1, elem_of_app. right. by left.
  - by destruct l1.
Qed.

(** the leaf has room *)
Lemma leaf_gains n' :
  leaf_node (leaf_node_size_ b) n' kvs' (first P2) ->
  represents (with_nodes t (<[a := n']> (nodes t))) (<[key := v]> m) (P1 ++ (a, kvs') :: P2) ups.
Proof.
  intros Hn'. destruct insert_all as (Hs & Hra & <- & Hlast & Hne). pose proof Hr as Hr0.
  rewrite (fo_split _ _ _ _ _ _ _ _ _ _ _ _ _ Hf) in Hr0. apply (replace_leaf T b t m P1 a kvs); try done.
  unfold piece_bound. destruct P2; [done|]. by rewrite Hlast.
Qed.

(** the nodes beside the leaf *)
Lemma leaf_apart :
  a ∉ addrs ups /\ forall x, x ∈ P1.*1 ++ P2.*1 -> x <> a /\ x ∉ addrs ups /\ is_Some (nodes t !! x).
Proof.
  destruct Hr as [_ _ _ Hl _ Hnd _ _ _ _]. pose proof (fo_split _ _ _ _ _ _ _ _ _ _ _ _ _ Hf) as EP.
  rewrite EP, fmap_app in Hnd. cbn in Hnd. apply NoDup_app in Hnd as (Hnd1 & Hnd2 & _). split.
  - apply Hnd2, elem_of_app. right. by left.
  - intros x Hx. assert (x ∈ P1.*1 ++ a :: P2.*1) as Hx'.
    { apply elem_of_app in Hx as [?|?]; apply elem_of_app; [by left|right; by right]. }
    split; [|split; [by apply Hnd2|]].
    + intros ->. apply NoDup_app in Hnd1 as (_ & H1 & [H2 _]%NoDup_cons).
      apply elem_of_app in Hx as [Hx|Hx]; [|done]. apply (H1 a Hx). by left.
    + apply (blink_leaves_dom b _ P); [done|]. by rewrite EP, fmap_app.
Qed.

Section cut.
Context (r : Z) (c : nat) (Hc : (0 < c < length kvs')%nat).
Abbreviation P' := (P1 ++ [(a, take c kvs'); (r, drop c kvs')] ++ P2).

Lemma cut_all : all P' = all (P1 ++ (a, kvs') :: P2).
Proof.
  rewrite !all_app, !all_cons. f_equal. change (all []) with (@nil (Z * V)). by rewrite app_nil_r, take_drop.
Qed.

(** the last pairs of the two leaves *)
Lemma cut_last : exists l1 mid vm l2 rmax vr,
  take c kvs' = l1 ++ [(mid, vm)] /\ drop c kvs' = l2 ++ [(rmax, vr)] /\ mid < rmax
  /\ (forall w, piece_bound kvs P2 = Some w -> rmax <= w)
  /\ entries P' = closed P1 ++ (a, Some mid) :: (r, piece_bound kvs P2) :: entries P2.
Proof.
  destruct insert_all as (Hs & _ & _ & Hlast & _).
  destruct (exists_last (l := take c kvs')) as (l1 & [mid vm] & Ex).
  { intros E. apply (f_equal length) in E. rewrite length_take in E. cbn in E. lia. }
  destruct (exists_last (l := drop c kvs')) as (l2 & [rmax vr] & Ey).
  { intros E. apply (f_equal length) in E. rewrite length_drop in E. cbn in E. lia. }
  exists l1, mid, vm, l2, rmax, vr. split; [done|]. split; [done|].
  assert (P2 <> [] -> last kvs = Some (rmax, vr)) as Hl.
  { intros Hne. rewrite <- Hlast by done. pose proof (take_drop c kvs') as E. rewrite Ey, app_assoc in E.
    rewrite <- E. apply last_snoc. }
  split; [|split].
  - rewrite all_app, all_cons in Hs. rewrite !sorted_app in Hs. destruct Hs as (_ & (Hs & _) & _).
    rewrite <- (take_drop c kvs') in Hs. rewrite Ex, Ey, sorted_app in Hs. destruct Hs as (_ & _ & Hlt).
    apply Hlt; rewrite fmap_app; apply elem_of_app; right; by left.
  - unfold piece_bound. destruct P2 as [|y P3]; [done|]. rewrite Hl by done. intros w [= <-]. cbn. lia.
  - rewrite entries_app by done. cbn. rewrite Ex, last_snoc. cbn. do 4 f_equal.
    unfold piece_bound. destruct P2 as [|y P3]; [done|]. by rewrite Hl, Ey, last_snoc.
Qed.

Lemma cut_nonempty Q1 q x Q2 : P' = Q1 ++ (q, x) :: Q2 -> x = [] -> Q1 = [] /\ Q2 = [].
Proof.
  intros EQ ->. exfalso. assert ((q, []) ∈ P') as Hin' by (rewrite EQ; apply elem_of_app; right; by left).
  destruct cut_last as (l1 & mid & vm & l2 & rmax & vr & Ex & Ey & _).
  pose proof (found_nonempty T b t m P ups key frs P1 a kvs P2 n Hr Hf) as Hne.
  rewrite !elem_of_app in Hin'. destruct Hin' as [H|[[H|H%list_elem_of_singleton]%elem_of_cons|H]].
  - apply list_elem_of_split in H as (k1 & k2 & EP). destruct (Hne k1 q [] (k2 ++ (a, kvs) :: P2)) as [_ H]; [by rewrite EP, <- app_assoc|done|].
    by destruct k2.
  - injection H as _ H. rewrite Ex in H. by destruct l1.
  - injection H as _ H. rewrite Ey in H. by destruct l2.
  - apply list_elem_of_split in H as (k1 & k2 & EP). destruct (Hne (P1 ++ (a, kvs) :: k1) q [] k2) as [H _]; [by rewrite EP, <- app_assoc|done|].
    by destruct P1.
Qed.

Lemma cut_ordered : ordered (in_range T) (entries P').
Proof.
  destruct insert_all as (Hs & Hra & _). apply ordered_entries; [by rewrite cut_all|by rewrite cut_all|apply cut_nonempty].
Qed.

(** the tree left by the loop *)
Lemma cut_represents n' rn t0 t' ups' w :
  nodes t !! r = None -> nodes t0 = <[r := rn]> (<[a := n']> (nodes t)) -> base t0 = base t -> leaves_ t0 = leaves_ t ->
  leaf_node (leaf_node_size_ b) n' (take c kvs') (Some r) -> leaf_node (leaf_node_size_ b) rn (drop c kvs') (first P2) ->
  raised t0 a r ups (entries P') 0 t' ups' w ->
  represents (with_latched t' ∅) (<[key := v]> m) P' ups'.
Proof.
  intros Hfresh E0 Eb0 El0 Hn' Hrn [Rc Rf Ro Rnd Rnew Rd Rl [Rb Rlv]].
  destruct insert_all as (Hs & Hra & Hm & _). destruct leaf_apart as [HaL Hside].
  pose proof (fo_split _ _ _ _ _ _ _ _ _ _ _ _ _ Hf) as EP. pose proof (fo_node _ _ _ _ _ _ _ _ _ _ _ _ _ Hf) as Ha.
  destruct Hr as [_ _ _ Hl _ Hnd _ Hfi _ Hbase]. assert (a <> r) as Har by congruence.
  assert (nodes t0 !! a = Some n') as H0a by (rewrite E0, lookup_insert_ne by done; apply lookup_insert_eq).
  assert (nodes t0 !! r = Some rn) as H0r by (rewrite E0; apply lookup_insert_eq).
  assert (forall x, x ∈ P1.*1 ++ P2.*1 -> x <> r /\ nodes t0 !! x = nodes t !! x) as Hside0.
  { intros x Hx. destruct (Hside x Hx) as (? & _ & [z Hz]). assert (x <> r) by congruence. split; [done|].
    rewrite E0. by rewrite !lookup_insert_ne by done. }
  split; cbn [nodes latched root_ tree_depth_ base leaves_ with_latched].
  - by rewrite cut_all.
  - by rewrite cut_all.
  - by rewrite cut_all.
  - rewrite EP in Hl. apply (blink_leaves_replace b (nodes t) _ P1 a kvs P2); [done|done| |].
    + intros x Hx. destruct (Hside0 x Hx) as [? <-]. destruct (Hside x Hx) as (? & ? & [z Hz]).
      destruct (Hside0 x Hx) as [_ E]. apply Rf; [rewrite E; eauto|done..].
    + destruct cut_last as (l1 & mid & vm & l2 & rmax & vr & Ex & Ey & _).
      intros D1 p x D2 ED. destruct D1 as [|d D1]; [|destruct D1 as [|? D1]; [|by destruct D1]].
      * injection ED as <- <- <-. split; [|rewrite Ex; by destruct l1].
        destruct (Ro a n' (or_introl eq_refl) H0a) as (n'' & Hn'' & Hup). exists n''. split; [done|]. by eapply upto_leaf.
      * injection ED as _ <- <- <-. split; [|rewrite Ey; by destruct l2].
        destruct (Ro r rn (or_intror eq_refl) H0r) as (n'' & Hn'' & Hup). exists n''. split; [done|]. by eapply upto_leaf.
  - done.
  - rewrite fmap_app. cbn. apply nodup_beside; [| |done|done|].
    + rewrite EP, fmap_app in Hnd. by apply NoDup_app in Hnd as (? & _ & _).
    + intros Hx. by destruct (Hside0 r Hx).
    + intros x Hx Hx'. enough (is_Some (nodes t0 !! x) /\ x ∉ addrs ups) as [[z Hz] HxL].
      { destruct (Rnew x Hx'); [done|congruence]. }
      assert (x ∈ P1.*1 ++ P2.*1 \/ x = a \/ x = r) as [Hx1|[-> | ->]].
      { clear - Hx. rewrite !elem_of_app, !elem_of_cons in *. naive_solver. }
      * destruct (Hside x Hx1) as (_ & ? & ?). destruct (Hside0 x Hx1) as [_ ->]. done.
      * rewrite H0a. eauto.
      * rewrite H0r. split; [eauto|]. intros HrL.
        destruct (chain_dom inner_at (nodes t) ups _ _ r (bp_chain _ _ _ _ _ _ Hr) HrL). congruence.
  - rewrite Rd. done.
  - rewrite Rlv, El0, <- Hfi, EP. by destruct P1.
  - done.
  - by rewrite Rb, Eb0.
Qed.
End cut.

(** the leaf is split; the levels above are raised *)
Lemma leaf_splits n' rn c :
  let r := new_node (nodes t) in
  let t0 := with_latched (with_nodes t (<[r := rn]> (<[a := n']> (nodes t)))) {[a := Exclusive]} in
  (0 < c < length kvs')%nat ->
  leaf_node (leaf_node_size_ b) n' (take c kvs') (Some r) -> leaf_node (leaf_node_size_ b) rn (drop c kvs') (first P2) ->
  exists t' ups' w, split_loop (S (S (node_fuel (nodes t0)))) t0 a (Some r) (fr_p <$> frs) = Some (t', w)
    /\ unlatch_exclusive (latched t') w = Some ∅
    /\ represents (with_latched t' ∅) (<[key := v]> m) (P1 ++ [(a, take c kvs'); (r, drop c kvs')] ++ P2) ups'.
Proof.
  intros r t0 Hc Hn' Hrn. assert (nodes t !! r = None) as Hfresh by apply new_node_fresh.
  destruct (cut_last r c Hc) as (l1 & mid & vm & l2 & rmax & vr & Ex & Ey & Hlt & Hbound & Eent).
  pose proof (fo_split _ _ _ _ _ _ _ _ _ _ _ _ _ Hf) as EP. pose proof (fo_levels _ _ _ _ _ _ _ _ _ _ _ _ _ Hf) as Elev.
  pose proof (fo_node _ _ _ _ _ _ _ _ _ _ _ _ _ Hf) as Ha. destruct leaf_apart as [HaL _].
  assert (a <> r) as Har by congruence.
  assert (forall x, x ∈ addrs ups -> is_Some (nodes t !! x)) as Hdom
    by (intros x; eapply (chain_dom inner_at (nodes t)); apply Hr).
  assert (r ∉ addrs ups) as HrL. { intros Hx. destruct (Hdom r Hx). congruence. }
  assert (entries P = closed P1 ++ (a, piece_bound kvs P2) :: entries P2) as Eent0 by (rewrite EP; by rewrite entries_app).
  destruct (split_loop_spec frs t0 0 (closed P1) a (piece_bound kvs P2) (entries P2) r mid rmax n' rn (S (S (node_fuel (nodes t0)))))
    as (t' & ups' & w & Hrun & Hrai); rewrite ?Elev; try done.
  - apply (zip_frame inner_at (nodes t)); [|apply Hf]. rewrite Elev. intros x Hx. cbn.
    rewrite !lookup_insert_ne; [done|by intros ->|]. intros E. rewrite E in HrL. done.
  - rewrite <- Eent0. apply ordered_entries; [apply Hr|apply Hr|eapply leaves_nonempty, Hr].
  - rewrite <- Eent. by apply cut_ordered.
  - apply Hr.
  - cbn. rewrite lookup_insert_ne by done. apply lookup_insert_eq.
  - apply lookup_insert_eq.
  - rewrite Ex in Hn'. by eapply max_key_leaf.
  - rewrite Ey in Hrn. by eapply max_key_leaf.
  - apply NoDup_cons. split; [done|]. pose proof (bp_nodup _ _ _ _ _ _ Hr) as Hnd. by apply NoDup_app in Hnd as (_ & _ & ?).
  - cbn. rewrite (bp_depth _ _ _ _ _ _ Hr), <- Elev, length_levels. done.
  - destruct (reach_fuel T b t m P ups key frs P1 a kvs P2 n Hr Hf) as [k Ek].
    assert (node_fuel (nodes t) <= node_fuel (nodes t0))%nat; [|lia]. unfold node_fuel. cbn.
    rewrite map_size_insert_None; [rewrite map_size_insert_Some by (rewrite Ha; eauto); lia|].
    rewrite lookup_insert_ne by done. done.
  - exists t', ups', w. split; [done|]. rewrite Elev in Hrai. rewrite <- Eent in Hrai. split.
    + rewrite (ra_latched _ _ _ _ _ _ _ _ _ Hrai). unfold unlatch_exclusive. rewrite lookup_singleton_eq. by rewrite delete_singleton_eq.
    + by eapply (cut_represents r c Hc n' rn t0).
Qed.
End at_leaf.

(** ** [Insert] *)

(** up to the insertion in the leaf *)
Lemma insert_begin t m P ups key frs P1 a kvs P2 n v i :
  represents t m P ups -> found t m P ups key frs P1 a kvs P2 n -> m !! key = None -> NodeScan n key = Some i ->
  (if i <? size n then let* k := key_at n i in Some (k =? key) else Some false) = Some false ->
  Insert t key v =
    (let ra := new_node (nodes t) in
     let* (n, rn_) := LeafInsert n key v i (leaf_split_threshold_ b) ra in
     let ns := <[a := n]> (nodes t) in
     let '(ns, rp) := match rn_ with None => (ns, None) | Some rn => (<[ra := rn]> ns, Some ra) end in
     let* (t, work) := split_loop (S (S (node_fuel ns))) (with_latched (with_nodes t ns) {[a := Exclusive]}) a rp (fr_p <$> frs) in
     let* ls := unlatch_exclusive (latched t) work in
     Some (true, with_latched t ls)).
Proof.
  intros Hr Hf Habs Hscan Hpres. pose proof (bp_free _ _ _ _ _ _ Hr) as Hfree.
  unfold Insert. destruct (reach_fuel T b t m P ups key frs P1 a kvs P2 n Hr Hf) as [k Ek]. rewrite Ek, Hfree.
  destruct (insert_way T b (nodes t) ∅ key frs _ _ _ _ (fo_zip _ _ _ _ _ _ _ _ _ _ _ _ _ Hf)) with (fuel := S (S k)) as [->|[_ Hk]];
    [apply Hf|done| |].
  - cbn [insert_down fst]. rewrite (fo_node _ _ _ _ _ _ _ _ _ _ _ _ _ Hf), bind_Some. unfold is_leaf.
    rewrite (ln_leaf _ _ _ _ (fo_leaf _ _ _ _ _ _ _ _ _ _ _ _ _ Hf)), bind_Some.
    change (latch_exclusive ∅ a) with (Some {[a := Exclusive]} : option latches). rewrite bind_Some.
    rewrite <- Ek, (stay_coupled T b t m P ups key frs P1 a kvs P2 n Hr Hf), bind_Some.
    rewrite (fo_node _ _ _ _ _ _ _ _ _ _ _ _ _ Hf), bind_Some, Hscan, bind_Some, Hpres, bind_Some.
    by rewrite (bp_base _ _ _ _ _ _ Hr).
  - exfalso. change ((a, piece_bound kvs P2) :: entries P2) with (entries ((a, kvs) :: P2)) in Hk.
    rewrite <- entries_app in Hk by done. apply bounds_entries, list_elem_of_fmap in Hk as ([k' v'] & -> & Hk).
    assert (m !! k' = Some v'); [|cbn in *; congruence]. rewrite <- (bp_map _ _ _ _ _ _ Hr).
    apply elem_of_list_to_map; [apply sorted_nodup, Hr|]. by rewrite (fo_split _ _ _ _ _ _ _ _ _ _ _ _ _ Hf).
Qed.

(** the key is there *)
Lemma insert_present t m P ups key frs P1 a kvs P2 n v :
  represents t m P ups -> found t m P ups key frs P1 a kvs P2 n -> is_Some (m !! key) -> Insert t key v = Some (false, t).
Proof.
  intros Hr Hf Hpres. pose proof (bp_free _ _ _ _ _ _ Hr) as Hfree.
  unfold Insert. destruct (reach_fuel T b t m P ups key frs P1 a kvs P2 n Hr Hf) as [k Ek]. rewrite Ek, Hfree.
  destruct (insert_way T b (nodes t) ∅ key frs _ _ _ _ (fo_zip _ _ _ _ _ _ _ _ _ _ _ _ _ Hf)) with (fuel := S (S k)) as [->|[-> _]];
    [apply Hf|done| |by rewrite bind_Some, (with_latched_free T b t m P ups Hr)].
  cbn [insert_down fst]. rewrite (fo_node _ _ _ _ _ _ _ _ _ _ _ _ _ Hf), bind_Some. unfold is_leaf.
  rewrite (ln_leaf _ _ _ _ (fo_leaf _ _ _ _ _ _ _ _ _ _ _ _ _ Hf)), bind_Some.
  destruct (latch_exclusive_free ∅ a) as [-> El]; [done|]. rewrite bind_Some.
  rewrite <- Ek, (stay_coupled T b t m P ups key frs P1 a kvs P2 n Hr Hf), bind_Some.
  rewrite (fo_node _ _ _ _ _ _ _ _ _ _ _ _ _ Hf), bind_Some.
  destruct (leaf_absent T b t m P ups key frs P1 a kvs P2 n Hr Hf) as (i & -> & _ & _ & Hp & _).
  rewrite bind_Some, Hp, bind_Some, bool_decide_true by done. by rewrite El, bind_Some, (with_latched_free T b t m P ups Hr).
Qed.

Lemma Insert_spec t m P ups key v :
  represents t m P ups -> in_range T key ->
  exists t' P' ups', Insert t key v = Some (bool_decide (m !! key = None), t')
    /\ represents t' (if bool_decide (m !! key = None) then <[key := v]> m else m) P' ups'.
Proof.
  intros Hr Hin. destruct (blink_find_leaf T b t m P ups key Hr) as (frs & P1 & a & kvs & P2 & n & Hf).
  destruct (decide (m !! key = None)) as [Habs|Hpres].
  2:{ rewrite bool_decide_false by done. exists t, P, ups. split; [|done].
      eapply insert_present; [done|done|]. by apply not_eq_None_Some. }
  rewrite bool_decide_true by done.
  destruct (leaf_absent T b t m P ups key frs P1 a kvs P2 n Hr Hf) as (i & Hscan & Hlow & _ & Hp & Hnew).
  rewrite Habs in Hp, Hnew. rewrite (insert_begin t m P ups key frs P1 a kvs P2 n v i Hr Hf Habs Hscan) by done.
  pose proof (fo_leaf _ _ _ _ _ _ _ _ _ _ _ _ _ Hf) as Hleaf. cbv zeta.
  destruct (safe (item_cnt_ n) (node_size_ n) (leaf_split_threshold_ b)) eqn:Es.
  - destruct (LeafInsert_safe (leaf_node_size_ b) n kvs _ Hleaf key v i (leaf_split_threshold_ b) (new_node (nodes t)) Hlow Es)
      as (n' & -> & Hn' & _).
    { rewrite <- (ln_cnt _ _ _ _ Hleaf). rewrite (ln_size _ _ _ _ Hleaf) in Es. apply (pk_leaf_room _ Hb); [|done].
      rewrite (ln_cnt _ _ _ _ Hleaf). pose proof (ln_max _ _ _ _ Hleaf). lia. }
    rewrite bind_Some. cbn [split_loop]. rewrite bind_Some. cbn [latched with_latched with_nodes].
    unfold unlatch_exclusive. rewrite lookup_singleton_eq, bind_Some, delete_singleton_eq.
    eexists _, _, _. split; [done|].
    pose proof (leaf_gains t m P ups key frs P1 a kvs P2 n Hr Hf v i Hin Hlow Hnew n' Hn') as Hr'.
    change (with_latched (with_latched ?x _) ∅) with (with_latched x ∅). by rewrite (with_latched_free T b _ _ _ _ Hr').
  - assert (kvs <> []) as Hne.
    { intros ->. rewrite (ln_cnt _ _ _ _ Hleaf), (ln_size _ _ _ _ Hleaf) in Es. change (Z.of_nat (length [])) with 0 in Es.
      by rewrite (pk_leaf_first _ Hb) in Es. }
    destruct (LeafInsert_split (leaf_node_size_ b) n kvs _ Hleaf key v i (leaf_split_threshold_ b) (new_node (nodes t)) Hlow Hnew Es Hne)
      as (n' & rn & -> & Hn' & Hrn). rewrite bind_Some.
    destruct (leaf_splits t m P ups key frs P1 a kvs P2 n Hr Hf v i Hin Hlow Hnew n' rn (Z.to_nat (leaf_cut kvs)))
      as (t' & ups' & w & Hrun & Hul & Hr'); [|done|done|].
    { rewrite length_ins_at. unfold leaf_cut. assert (0 < length kvs)%nat by (destruct kvs; [done|cbn; lia]).
      Z.to_euclidean_division_equations. lia. }
    change (nodes (with_latched (with_nodes t ?x) _)) with x in Hrun. rewrite Hrun, bind_Some, Hul, bind_Some.
    by eexists _, _, _.
Qed.
End insert.
