(* ===== verification/BLinkProps.v ===== *)
(** * The B-link tree is a map

    Any sequence of operations from the empty tree does what it does to a finite map
    and leaves every latch free; the scans; the destruction of a tree, which deletes
    each node once; the insertions in a node. *)

From S2P Require Import Prelude Encode Levels BLinkNode BLinkSpec BLinkTree BLinkTreeSpec BLinkTreeOps BLinkInsert.
From Stdlib Require Import Floats.SpecFloat.
Import BLinkNode BLinkTree.

(** [t] stands for [m], and all its latches are free *)
Definition blink_implements {V} `{!Inhabited V} (T : ktype) (b : BTree) (t : tree V) (m : gmap Z V) : Prop :=
  exists P ups, represents T b t m P ups.

(** ** The empty tree *)

Section create.
Context {V : Type} `{!Inhabited V} `{!NodeAllocator V} (T : ktype) (b : BTree) (Hb : params_ok b).

Lemma blink_create (ns : gmap Z (node V)) : blink_implements T b (BLinkTree b ns) ∅.
Proof.
  exists [(new_node ns, [])], []. split; cbn; try done; [constructor| |apply NoDup_singleton].
  intros P1 a kvs P2 E. destruct P1 as [|? P1]; [|by destruct P1]. injection E as <- <- <-. split; [|done].
  eexists. split; [apply lookup_insert_eq|]. apply new_leaf. pose proof (pk_leaf _ Hb). lia.
Qed.
End create.

(** ** Sequences of operations *)

Inductive blink_op {V : Type} :=
  | OpInsert (key : Z) (v : V) | OpUpdate (key : Z) (v : V) | OpSearch (key : Z) | OpSearchUnsafe (key : Z)
  | OpDelete (key : Z) | OpScanFixed (left_key scan_sz : Z) | OpScanRange (left_key right_key : Z) | OpScanLeaf.
Arguments blink_op V : clear implicits.

(** what an operation returns *)
Inductive answer {V : Type} :=
  | Done (changed : bool) | Value (v : option V) | Pairs (found : bool) (kvs : list (Z * V)).
Arguments answer V : clear implicits.

Definition blink_key {V} (o : blink_op V) : option Z := match o with OpInsert key _ => Some key | _ => None end.

Section run.
Context {V : Type} `{!Inhabited V} `{!NodeAllocator V}.
Implicit Types (t : tree V) (m : gmap Z V) (o : blink_op V).

(** the tree ... *)
Definition blink_step t o : option (answer V * tree V) :=
  match o with
  | OpInsert key v => let* (r, t) := Insert t key v in Some (Done r, t)
  | OpUpdate key v => let* (r, t) := Update t key v in Some (Done r, t)
  | OpSearch key => let* (r, t) := Search t key in Some (Value r, t)
  | OpSearchUnsafe key => let* r := SearchUnsafe t key in Some (Value r, t)
  | OpDelete key => let '(r, t) := Delete t key in Some (Done r, t)
  | OpScanFixed left_key scan_sz => let* (r, kvs, t) := ScanFixed t left_key scan_sz [] in Some (Pairs r kvs, t)
  | OpScanRange left_key right_key => let* (r, kvs, t) := ScanRange t left_key right_key [] in Some (Pairs r kvs, t)
  | OpScanLeaf => let* kvs := ScanLeaf t [] in Some (Pairs true kvs, t)
  end.

(** ... and the map that is its specification: [Insert] keeps the value of a key that is
    there, [Delete] does nothing *)
Definition blink_map_step m o : answer V * gmap Z V :=
  match o with
  | OpInsert key v => (Done (bool_decide (m !! key = None)), if bool_decide (m !! key = None) then <[key := v]> m else m)
  | OpUpdate key v =>
      (Done (bool_decide (is_Some (m !! key))), if bool_decide (is_Some (m !! key)) then <[key := v]> m else m)
  | OpSearch key | OpSearchUnsafe key => (Value (m !! key), m)
  | OpDelete _ => (Done false, m)
  | OpScanFixed left_key scan_sz =>
      let R := from_key left_key (elems m) in
      (Pairs (negb (bool_decide (R = []))) (take (Z.to_nat scan_sz) R), m)
  | OpScanRange left_key right_key =>
      let R := from_key left_key (elems m) in (Pairs (negb (bool_decide (R = []))) (before_key right_key R), m)
  | OpScanLeaf => (Pairs true (elems m), m)
  end.

Fixpoint blink_run t (ops : list (blink_op V)) : option (list (answer V) * tree V) :=
  match ops with
  | [] => Some ([], t)
  | o :: ops => let* (r, t) := blink_step t o in let* (rs, t) := blink_run t ops in Some (r :: rs, t)
  end.

Fixpoint blink_map_run m (ops : list (blink_op V)) : list (answer V) * gmap Z V :=
  match ops with
  | [] => ([], m)
  | o :: ops => let '(r, m) := blink_map_step m o in let '(rs, m) := blink_map_run m ops in (r :: rs, m)
  end.

Lemma blink_step_spec `{!NodeAllocatorLaws V} (T : ktype) (b : BTree) (Hb : params_ok b) t m o :
  blink_implements T b t m -> (forall key, blink_key o = Some key -> in_range T key) ->
  exists t', blink_step t o = Some ((blink_map_step m o).1, t') /\ blink_implements T b t' (blink_map_step m o).2.
Proof.
  intros (P & ups & Hr) Hk. destruct o as [key v|key v|key|key|key|left_key scan_sz|left_key right_key|];
    cbn [blink_step blink_map_step fst snd]; try cbv zeta.
  - destruct (Insert_spec T b Hb t m P ups key v Hr) as (t' & P' & ups' & -> & Hr'); [by apply Hk|].
    exists t'. split; [done|]. by exists P', ups'.
  - destruct (Update_spec T b t m P ups key v Hr) as (t' & P' & -> & Hr'). exists t'. split; [done|]. by exists P', ups.
  - rewrite (Search_spec T b t m P ups key Hr). exists t. split; [done|]. by exists P, ups.
  - rewrite (SearchUnsafe_spec T b t m P ups key Hr). exists t. split; [done|]. by exists P, ups.
  - exists t. split; [done|]. by exists P, ups.
  - rewrite (ScanFixed_spec T b t m P ups left_key scan_sz [] Hr). exists t.
    case_bool_decide as E; [rewrite E, take_nil|]; (split; [done|]; by exists P, ups).
  - rewrite (ScanRange_spec T b t m P ups left_key right_key [] Hr). exists t.
    case_bool_decide as E; [rewrite E|]; (split; [done|]; by exists P, ups).
  - rewrite (ScanLeaf_spec T b t m P ups [] Hr). exists t. split; [done|]. by exists P, ups.
Qed.
End run.

(** ** The destructor *)

Section destroy.
Context {V : Type} `{!Inhabited V} (T : ktype) (b : BTree).
Implicit Types (ns : gmap Z (node V)) (n : node V) (t : tree V) (P : pieces V) (m : gmap Z V).

(** the nodes [l] are no more *)
Definition without ns (l : list Z) : gmap Z (node V) := foldl (fun ns a => delete a ns) ns l.

Lemma without_app ns l1 l2 : without ns (l1 ++ l2) = without (without ns l1) l2.
Proof. unfold without. by rewrite foldl_app. Qed.

Lemma lookup_without ns l x : x ∉ l -> without ns l !! x = ns !! x.
Proof.
  revert ns. induction l as [|a l IH]; intros ns Hx; [done|]. cbn. rewrite not_elem_of_cons in Hx. destruct Hx as [Hxa Hx].
  change (foldl _ ?m l) with (without m l). rewrite IH by done. by rewrite lookup_delete_ne.
Qed.

Lemma lookup_without_gone ns l x : x ∈ l -> without ns l !! x = None.
Proof.
  revert ns. induction l as [|a l IH]; intros ns; [by intros ?%not_elem_of_nil|]. cbn.
  change (foldl _ ?m l) with (without m l). intros Hx. destruct (decide (x ∈ l)) as [Hl|Hl]; [by apply IH|].
  apply elem_of_cons in Hx as [->|Hx]; [|done]. rewrite lookup_without by done. by rewrite lookup_delete_eq.
Qed.

(** a list of nodes linked by [sibling] *)
Fixpoint linked ns (l : list Z) : Prop :=
  match l with
  | [] => True
  | a :: l => (exists n, ns !! a = Some n /\ sibling n = head l) /\ linked ns l
  end.

Lemma linked_frame ns ns' l : (forall x, x ∈ l -> ns' !! x = ns !! x) -> linked ns l -> linked ns' l.
Proof.
  induction l as [|a l IH]; [done|]. intros Hx [(n & Hn & Hs) Hl]. split.
  - exists n. split; [|done]. rewrite Hx; [done|by left].
  - apply IH; [|done]. intros x ?. apply Hx. by right.
Qed.

Lemma linked_size ns l : NoDup l -> linked ns l -> (length l <= stdpp.base.size ns)%nat.
Proof.
  intros Hnd Hl. apply addresses_size; [done|]. clear Hnd. induction l as [|a l IH]; intros x Hx; [by apply not_elem_of_nil in Hx|].
  destruct Hl as [(n & Hn & _) Hl]. apply elem_of_cons in Hx as [->|Hx]; [by exists n|by apply IH].
Qed.

Lemma delete_right_spec l : forall fuel ns deleted,
  linked ns l -> NoDup l -> (length l < fuel)%nat ->
  delete_right fuel ns (head l) deleted = Some (without ns l, deleted ++ l).
Proof.
  induction l as [|a l IH]; intros fuel ns deleted Hl Hnd Hf; (destruct fuel as [|fuel]; [lia|]); cbn [delete_right head].
  - by rewrite app_nil_r.
  - destruct Hl as [(n & -> & Hs) Hl]. rewrite bind_Some. cbn in Hf. apply NoDup_cons in Hnd as [Ha Hnd].
    rewrite Hs, IH; [|apply (linked_frame ns); [|done]|done|lia].
    + by rewrite <- app_assoc.
    + intros x Hx. rewrite lookup_delete_ne; [done|]. by intros ->.
Qed.

(** the leaves, and a level of inner nodes, are linked *)
Lemma first_head {A} (l : list (Z * A)) : first l = head l.*1.
Proof. by destruct l. Qed.

Lemma leaves_linked ns P : leaf_chain b ns P -> linked ns P.*1.
Proof.
  induction P as [|[a x] P IH]; [done|]. intros Hl. split.
  - destruct (Hl [] a x P eq_refl) as (n & Hn & Hleaf). exists n. split; [done|].
    unfold sibling. by rewrite (ln_sibling _ _ _ _ Hleaf), first_head.
  - apply IH. by eapply leaf_chain_tail.
Qed.

Lemma inners_linked ns G : inners (inner_at b) ns G -> linked ns G.*1.
Proof.
  induction G as [|[p E] G IH]; [done|]. intros Hi. split.
  - destruct (Hi [] p E G eq_refl) as (n & Hn & Hin). exists n. split; [done|].
    unfold sibling. by rewrite (in_sibling _ _ _ _ Hin), first_head.
  - apply IH. intros G1 q F G2 ->. by apply (Hi ((p, E) :: G1)).
Qed.

(** one level *)
Lemma delete_level fuel ns a l deleted :
  linked ns (a :: l) -> NoDup (a :: l) ->
  exists n, ns !! a = Some n /\
    delete_levels (S fuel) ns a deleted =
      if is_leaf n then Some (without ns (l ++ [a]), deleted ++ l ++ [a])
      else let* c := child n 0 in let* c := c in
           delete_levels fuel (without ns (l ++ [a])) c (deleted ++ l ++ [a]).
Proof.
  intros [(n & Hn & Hs) Hl] Hnd. exists n. split; [done|]. cbn [delete_levels]. rewrite Hn, bind_Some, Hs.
  apply NoDup_cons in Hnd as [Ha Hnd].
  rewrite delete_right_spec; [|done|done|unfold node_fuel; pose proof (linked_size ns l Hnd Hl); lia].
  rewrite bind_Some, lookup_without, Hn, bind_Some by done. rewrite without_app, app_assoc. by destruct (is_leaf n).
Qed.

Lemma first_child n E nx : inner_node (inner_node_size_ b) n E nx -> child n 0 = Some (first E).
Proof.
  intros [Hl _ Hcnt _ Hsome _ (cs & Hcs & _ & Hc) _ _]. unfold child. rewrite Hl, Hcnt. cbn [negb asserting].
  assert (0 < length (bounds E))%nat by (destruct (bounds E); [done|cbn; lia]).
  btrue (0 <? Z.of_nat (length (bounds E))). cbn [Z.leb Z.compare andb orb asserting]. unfold children_of. rewrite Hcs, bind_Some.
  destruct E as [|[a u] E]; [done|]. by apply (starts_get _ _ 0 _ Hc).
Qed.

(** the inner levels *)
Lemma delete_inners ups : forall ns C root fuel deleted,
  chain (inner_at b) ns C ups root -> NoDup (addrs ups) ->
  exists l fst_, first C = Some fst_ /\ l ≡ₚ addrs ups
    /\ delete_levels (length ups + fuel) ns root deleted = delete_levels fuel (without ns l) fst_ (deleted ++ l).
Proof.
  induction ups as [|G ups IH]; intros ns C root fuel deleted; cbn [chain].
  - intros -> _. exists [], root. cbn. by rewrite app_nil_r.
  - intros (-> & Hi & Hch) Hnd. rewrite addrs_cons in Hnd. apply NoDup_app in Hnd as (Hnd1 & Hnd2 & Hnd3).
    destruct (IH ns (ents G) root (S fuel) deleted Hch Hnd3) as (l & lm & Hleft & Hl & E). rewrite Nat.add_succ_r in E.
    cbn [length Nat.add]. rewrite E. clear E.
    destruct G as [|[p E] G]; [done|]. injection Hleft as <-.
    pose proof (inners_linked ns _ Hi) as Hlink. cbn in Hlink, Hnd1.
    assert (forall x, x ∈ p :: G.*1 -> without ns l !! x = ns !! x) as Hfr.
    { intros x Hx. apply lookup_without. rewrite Hl. by apply Hnd2. }
    destruct (delete_level fuel (without ns l) p G.*1 (deleted ++ l)) as (n & Hn & ->);
      [by apply (linked_frame ns)|done|].
    destruct (Hi [] p E G eq_refl) as (n' & Hn' & Hin). rewrite Hfr, Hn' in Hn by (by left). injection Hn as <-.
    unfold is_leaf. rewrite (in_inner _ _ _ _ Hin), (first_child n' E _ Hin), bind_Some.
    pose proof (inner_nonempty _ _ _ _ Hin) as HE. destruct E as [|[q u] E]; [done|].
    cbn [first head fmap option_fmap option_map fst]. rewrite bind_Some.
    exists (l ++ G.*1 ++ [p]), q. split; [done|]. split.
    + rewrite addrs_cons, Hl. cbn. by rewrite (Permutation_app_comm (addrs ups)), <- Permutation_cons_append.
    + by rewrite <- without_app, <- app_assoc.
Qed.

Lemma destroy_spec t m P ups :
  represents T b t m P ups ->
  exists l, destroy t = Some (without (nodes t) l, l) /\ l ≡ₚ P.*1 ++ addrs ups.
Proof.
  intros Hr. destruct (blink_fuel T b t m P ups Hr) as [Hfu Hne]. unfold destroy.
  pose proof (bp_nodup _ _ _ _ _ _ Hr) as Hnd. apply NoDup_app in Hnd as (Hnd1 & Hnd2 & Hnd3).
  replace (node_fuel (nodes t)) with (length ups + S (node_fuel (nodes t) - length ups - 1))%nat by lia.
  destruct (delete_inners ups (nodes t) (entries P) (root_ t) (S (node_fuel (nodes t) - length ups - 1)) [])
    as (l & lm & Hleft & Hl & ->); [apply Hr|done|].
  destruct P as [|[a kvs] P]; [done|]. injection Hleft as <-. cbn in Hnd1, Hnd2.
  assert (forall x, x ∈ a :: P.*1 -> without (nodes t) l !! x = nodes t !! x) as Hfr.
  { intros x Hx. apply lookup_without. rewrite Hl. by apply Hnd2. }
  destruct (delete_level (node_fuel (nodes t) - length ups - 1) (without (nodes t) l) a P.*1 ([] ++ l)) as (n & Hn & ->); [|done|].
  - apply (linked_frame (nodes t)); [done|]. apply (leaves_linked _ ((a, kvs) :: P)).
    intros P1 p x P2 EP. by apply (bp_leaves _ _ _ _ _ _ Hr P1).
  - destruct (bp_leaves _ _ _ _ _ _ Hr [] a kvs P eq_refl) as [(n' & Hn' & Hleaf) _].
    rewrite Hfr, Hn' in Hn by (by left). injection Hn as <-. unfold is_leaf. rewrite (ln_leaf _ _ _ _ Hleaf).
    eexists. rewrite <- without_app. split; [done|]. cbn. by rewrite Hl, (Permutation_app_comm (addrs ups)), <- Permutation_cons_append.
Qed.

(** ** The nodes of a tree *)

(** what the pointers of the tree lead to, from its root *)
Inductive node_of t : Z -> Prop :=
  | node_root : node_of t (root_ t)
  | node_right x n y : node_of t x -> nodes t !! x = Some n -> sibling n = Some y -> node_of t y
  | node_down x n i y : node_of t x -> nodes t !! x = Some n -> child n i = Some (Some y) -> node_of t y.

Lemma linked_nodes t l : forall a, linked (nodes t) (a :: l) -> node_of t a -> forall x, x ∈ a :: l -> node_of t x.
Proof.
  induction l as [|c l IH]; intros a [(n & Hn & Hs) Hl] Ha x; [by intros ->%list_elem_of_singleton|].
  intros [->|Hx]%elem_of_cons; [done|]. apply (IH c); [done| |done]. by apply (node_right _ a n).
Qed.

Lemma chain_nodes t ups : forall C,
  chain (inner_at b) (nodes t) C ups (root_ t) ->
  (forall x, x ∈ addrs ups -> node_of t x) /\ (forall x, first C = Some x -> node_of t x).
Proof.
  induction ups as [|G ups IH]; intros C; cbn [chain].
  - intros ->. split; [by intros x ?%not_elem_of_nil|]. intros x [= <-]. apply node_root.
  - intros (-> & Hi & Hch). destruct (IH _ Hch) as [Hup Hfirst]. rewrite addrs_cons.
    destruct G as [|[p E] G]; [by apply (chain_nonempty (inner_at b)) in Hch|]. assert (node_of t p) as Hp by by apply Hfirst.
    split.
    + intros x [Hx|Hx]%elem_of_app; [|by apply Hup]. by apply (linked_nodes t G.*1 p); [apply (inners_linked _ ((p, E) :: G))| |].
    + intros x Hx. destruct (Hi [] p E G eq_refl) as (n & Hn & Hin). pose proof (inner_nonempty _ _ _ _ Hin) as HE.
      destruct E as [|[q u] E]; [done|]. injection Hx as <-. apply (node_down _ p n 0); [done..|]. by apply (first_child n _ _ Hin).
Qed.

(** a level ends without a bound *)
Lemma chain_open ns ups : forall C root, chain (inner_at b) ns C ups root -> ub C = None.
Proof.
  induction ups as [|G ups IH]; intros C root; cbn [chain]; [by intros ->|]. intros (-> & Hi & Hch).
  pose proof (chain_nonempty _ _ _ _ _ Hch) as Hne. pose proof (inners_nonempty _ _ _ Hi) as HG. apply IH in Hch.
  destruct G as [|g G] using rev_ind; [done|]. clear IHG. rewrite Forall_app, Forall_singleton in HG. destruct HG as [_ Hg].
  destruct g as [p E]. rewrite ents_app, ub_app in Hch by done.
  assert (subs [(p, E)] = E) as Es by apply app_nil_r. rewrite subs_app, Es, ub_app by exact Hg. exact Hch.
Qed.

Lemma bounds_length (E : level) : (length (bounds E) <= length E)%nat.
Proof. unfold bounds. induction E as [|[p [u|]] E IH]; cbn; lia. Qed.

(** the children of an inner node *)
Lemma child_entry n E nx i y :
  inner_node (inner_node_size_ b) n E nx -> (nx = None -> ub E = None) -> child n i = Some (Some y) -> y ∈ E.*1.
Proof.
  intros Hin Hnx Hc. pose proof (inner_nonempty _ _ _ _ Hin) as Hne. destruct Hin as [Hl _ Hcnt _ _ _ (cs & Hcs & _ & Hst) Hs _].
  unfold child in Hc. rewrite Hl, Hcnt, Hs in Hc. cbn [negb asserting] in Hc. apply asserting_Some in Hc as [Hi Hc].
  assert (length (bounds E) <= length E)%nat as Hle by apply bounds_length.
  assert (0 <= i < Z.of_nat (length E)) as Hr.
  { apply andb_true_iff in Hi as [Hi0 Hi]. apply orb_true_iff in Hi as [Hi|[Hi Hn%bool_decide_eq_true]%andb_true_iff]; [blia|].
    destruct (exists_last Hne) as (E' & [p u] & ->). specialize (Hnx Hn). rewrite ub_snoc in Hnx. cbn in Hnx. subst u.
    rewrite bounds_app, app_nil_r in Hi. pose proof (bounds_length E'). rewrite length_app. cbn in *. blia. }
  unfold children_of in Hc. rewrite Hcs, bind_Some in Hc. destruct Hst as [_ Hst]. rewrite Hst in Hc by (rewrite length_kids; lia).
  rewrite <- (Z2Nat.id i) in Hc by lia. rewrite aget_nat in Hc. unfold kids in Hc. apply list_elem_of_lookup_2 in Hc.
  by apply list_elem_of_fmap in Hc as (? & [= <-] & ?).
Qed.

(** where the pointers of an inner node lead *)
Lemma chain_pointers ns ups : forall C root x n,
  chain (inner_at b) ns C ups root -> x ∈ addrs ups -> ns !! x = Some n ->
  (forall y, sibling n = Some y -> y ∈ addrs ups) /\ (forall i y, child n i = Some (Some y) -> y ∈ C.*1 ++ addrs ups).
Proof.
  induction ups as [|G ups IH]; intros C root x n; cbn [chain]; [by intros _ ?%not_elem_of_nil|].
  intros (-> & Hi & Hch). rewrite addrs_cons. intros [Hx|Hx]%elem_of_app Hn.
  - apply list_elem_of_fmap in Hx as ([p E] & -> & (G1 & G2 & ->)%list_elem_of_split). cbn [fst] in Hn.
    destruct (Hi G1 p E G2 eq_refl) as (n' & Hn' & Hin). rewrite Hn in Hn'. injection Hn' as <-. split.
    + intros y Hy. unfold sibling in Hy. rewrite (in_sibling _ _ _ _ Hin) in Hy. destruct G2 as [|[q F] G2]; [done|]. injection Hy as <-.
      rewrite !fmap_app. set_solver.
    + intros i y Hy. apply elem_of_app. left. rewrite subs_app, subs_cons, !fmap_app.
      apply elem_of_app. right. apply elem_of_app. left. eapply child_entry; [exact Hin| |exact Hy].
      intros EG. apply chain_open in Hch. rewrite ents_app, ub_app in Hch by done. by destruct G2.
  - destruct (IH _ _ x n Hch Hx Hn) as [Hs Hc]. split.
    + intros y Hy%Hs. apply elem_of_app. by right.
    + intros i y Hy%Hc. assert ((ents G).*1 = G.*1) as EG by (unfold ents; by rewrite <- list_fmap_compose).
      rewrite EG in Hy. apply elem_of_app. by right.
Qed.

Lemma represents_nodes t m P ups x : represents T b t m P ups -> x ∈ P.*1 ++ addrs ups <-> node_of t x.
Proof.
  intros Hr. pose proof (bp_chain _ _ _ _ _ _ Hr) as Hch. split.
  - destruct (chain_nodes t ups _ Hch) as [Hup Hfirst]. intros [Hx|Hx]%elem_of_app; [|by apply Hup].
    destruct P as [|[a kvs] P]; [by apply not_elem_of_nil in Hx|].
    apply (linked_nodes t P.*1 a); [|by apply Hfirst|done]. apply (leaves_linked _ ((a, kvs) :: P)).
    intros P1 p y P2 EP. by apply (bp_leaves _ _ _ _ _ _ Hr P1).
  - assert (forall x n, x ∈ P.*1 -> nodes t !! x = Some n -> is_leaf_ n = true /\ forall y, sibling n = Some y -> y ∈ P.*1) as Hleaf.
    { intros x' n Hx Hn. apply list_elem_of_fmap in Hx as ([a kvs] & -> & (P1 & P2 & EP)%list_elem_of_split).
      destruct (bp_leaves _ _ _ _ _ _ Hr P1 a kvs P2 EP) as [(n' & Hn' & Hl) _]. cbn [fst] in Hn. rewrite Hn in Hn'. injection Hn' as <-.
      split; [apply Hl|]. intros y Hy. unfold sibling in Hy. rewrite (ln_sibling _ _ _ _ Hl) in Hy.
      destruct P2 as [|[c kvs2] P2]; [done|]. injection Hy as <-. rewrite EP, !fmap_app. set_solver. }
    induction 1 as [|x n y _ IH Hn Hy|x n i y _ IH Hn Hy].
    + pose proof (bp_chain _ _ _ _ _ _ Hr) as Hc. apply elem_of_app.
      destruct (chain_way (inner_at b) (in_range T) (nodes t) ups (entries P) (root_ t) 0 Hc) as (frs & C1 & e & C2 & EC & _ & Hz & <- & _).
      { apply ordered_entries; [apply Hr|apply Hr|eapply leaves_nonempty, Hr]. }
      apply (zip_root (inner_at b)) in Hz. destruct frs as [|fr frs]; [left|by right]. rewrite <- Hz, <- entries_fst, EC, fmap_app.
      apply elem_of_app. right. by left.
    + apply elem_of_app in IH as [Hx|Hx]; apply elem_of_app; [left; by apply (Hleaf x n)|right].
      by apply (chain_pointers (nodes t) ups _ _ x n Hch Hx Hn).
    + apply elem_of_app in IH as [Hx|Hx]; [destruct (Hleaf x n Hx Hn) as [El _]; unfold child in Hy; by rewrite El in Hy|].
      rewrite <- entries_fst. by apply (proj2 (chain_pointers (nodes t) ups _ _ x n Hch Hx Hn) i).
Qed.
End destroy.

(** ** The properties *)

(** C9: Any sequence of insertions, updates, searches, deletions and scans, run by one thread from an empty B-link tree whose parameters leave room in its nodes, ends and returns what the same operations return on a finite map (an insertion keeps the value of a key that is there, a deletion does nothing and returns false), and leaves a tree that stands for the final map, with every latch free. *)
Theorem blink_refines_map {V} `{!Inhabited V} `{!NodeAllocator V} `{!NodeAllocatorLaws V} (T : ktype) (b : BTree)
    (ns : gmap Z (node V)) (ops : list (blink_op V)) :
  params_ok b -> Forall (fun o => forall key, blink_key o = Some key -> in_range T key) ops ->
  exists t, blink_run (BLinkTree b ns) ops = Some ((blink_map_run ∅ ops).1, t)
    /\ blink_implements T b t (blink_map_run ∅ ops).2.
Proof.
  intros Hb Hops. pose proof (blink_create T b Hb ns) as Hi. revert Hi.
  generalize (BLinkTree b ns) as t, (∅ : gmap Z V) as m. induction Hops as [|o ops Ho _ IH]; intros t m Hi.
  - by exists t.
  - destruct (blink_step_spec T b Hb t m o Hi Ho) as (t1 & E & Hi1). cbn [blink_run blink_map_run]. rewrite E, bind_Some.
    destruct (blink_map_step m o) as [r m1]. destruct (IH t1 m1 Hi1) as (t2 & -> & Hi2). rewrite bind_Some.
    destruct (blink_map_run m1 ops) as [rs m2]. by exists t2.
Qed.

(** C28: The scans of a tree that stands for [m] append to the caller's vector, in the order of the keys and without repetition: ScanFixed the first scan_sz pairs with a key at least left_key, ScanRange those with a key below right_key too, ScanLeaf all the pairs; the first two return false and append nothing when no pair has such a key. All give back the latches they took. *)
Theorem blink_scans_correct {V} `{!Inhabited V} (T : ktype) (b : BTree) (t : tree V) (m : gmap Z V)
    (left_key right_key scan_sz : Z) (kv : list (Z * V)) :
  blink_implements T b t m ->
  StronglySorted Z.lt (elems m).*1 /\ list_to_map (elems m) = m
  /\ let R := from_key left_key (elems m) in
     ScanFixed t left_key scan_sz kv =
       Some (if bool_decide (R = []) then (false, kv, t) else (true, kv ++ take (Z.to_nat scan_sz) R, t))
     /\ ScanRange t left_key right_key kv =
       Some (if bool_decide (R = []) then (false, kv, t) else (true, kv ++ before_key right_key R, t))
     /\ ScanLeaf t kv = Some (kv ++ elems m).
Proof.
  intros (P & ups & Hr). pose proof (elems_all T b t m P ups Hr) as E. split; [|split].
  - rewrite E. apply Hr.
  - rewrite E. apply Hr.
  - cbv zeta. split; [by apply (ScanFixed_spec T b t m P ups)|]. split; [by apply (ScanRange_spec T b t m P ups)|].
    by apply (ScanLeaf_spec T b t m P ups).
Qed.

(** C29: The destructor of a tree ends, and deletes each node of the tree once: the list of the deleted addresses has no repetition and is exactly the nodes that the pointers of the tree lead to from its root, through siblings and children; all of them held nodes, which are gone afterwards, and the rest of the heap is unchanged. *)
Theorem blink_destroy_correct {V} `{!Inhabited V} (T : ktype) (b : BTree) (t : tree V) (m : gmap Z V) :
  blink_implements T b t m ->
  exists ns l, destroy t = Some (ns, l) /\ NoDup l /\ (forall x, x ∈ l <-> node_of t x)
    /\ (forall x, x ∈ l -> is_Some (nodes t !! x) /\ ns !! x = None)
    /\ (forall x, x ∉ l -> ns !! x = nodes t !! x) /\ leaves_ t ∈ l.
Proof.
  intros (P & ups & Hr). destruct (destroy_spec T b t m P ups Hr) as (l & E & Hl). eexists _, l. split; [exact E|].
  split; [rewrite Hl; apply Hr|]. split; [intros x; rewrite Hl; by apply (represents_nodes T b t m P ups)|]. split; [|split].
  - intros x Hx. split; [|by apply lookup_without_gone]. rewrite Hl in Hx. apply elem_of_app in Hx as [Hx|Hx].
    + eapply blink_leaves_dom; [apply Hr|done].
    + eapply (chain_dom _ (nodes t)); [apply Hr|done].
  - intros x Hx. by apply lookup_without.
  - rewrite Hl. apply elem_of_app. left. pose proof (bp_first _ _ _ _ _ _ Hr) as Hfi. rewrite first_head in Hfi.
    destruct P.*1; [done|]. injection Hfi as ->. by left.
Qed.

(** LeafInsert, called as Insert does with the place NodeScan found for an absent key of a sorted leaf, keeps the pairs sorted: the node has the new pair in its place or, when the threshold says to split, both nodes hold something, the old one the lower part and a link to the new one, the new one the rest and the old link. *)
Theorem blink_leaf_insert_correct {V} `{!Inhabited V} (sz : Z) (n : node V) (kvs : list (Z * V)) (nx : ptr) (key : Z) (v : V)
    (threshold : spec_float) (ra : Z) :
  leaf_node sz n kvs nx -> StronglySorted Z.lt kvs.*1 -> key ∉ kvs.*1 ->
  (safe (Z.of_nat (length kvs)) sz threshold = true -> Z.of_nat (length kvs) < sz) ->
  (safe (Z.of_nat (length kvs)) sz threshold = false -> kvs <> []) ->
  exists i r, NodeScan n key = Some i /\ LeafInsert n key v i threshold ra = Some r
    /\ StronglySorted Z.lt (ins_at i (key, v) kvs).*1 /\ ins_at i (key, v) kvs ≡ₚ (key, v) :: kvs
    /\ match r with
       | (n', None) => leaf_node sz n' (ins_at i (key, v) kvs) nx
       | (n', Some rn) => exists l1 l2, l1 ++ l2 = ins_at i (key, v) kvs /\ l1 <> [] /\ l2 <> []
           /\ leaf_node sz n' l1 (Some ra) /\ leaf_node sz rn l2 nx
       end.
Proof.
  intros Hn Hs Hnew Hroom Hne. destruct (NodeScan_spec n kvs.*1 key) as (i & Hi & Hlow).
  { apply Hn. }
  { rewrite length_fmap. apply Hn. }
  { by apply sorted_strongly. }
  destruct (ins_at_lower kvs key v i Hlow Hnew) as (l1 & l2 & Ek & Ei & H1 & H2).
  assert (StronglySorted Z.lt (ins_at i (key, v) kvs).*1 /\ ins_at i (key, v) kvs ≡ₚ (key, v) :: kvs) as [Hsort Hperm].
  { rewrite Ei. rewrite Ek in Hs. rewrite sorted_app in Hs |- *. destruct Hs as (Hs1 & Hs2 & Hs12). split.
    - split; [done|]. split; [cbn; constructor; [done|by apply Forall_forall]|].
      intros x y Hx [->|Hy]%elem_of_cons; [by apply H1|by apply Hs12].
    - rewrite Ek. by rewrite Permutation_middle. }
  rewrite <- (ln_cnt _ _ _ _ Hn), <- (ln_size _ _ _ _ Hn) in Hroom, Hne.
  destruct (safe (item_cnt_ n) (node_size_ n) threshold) eqn:Es.
  - specialize (Hroom eq_refl). rewrite (ln_cnt _ _ _ _ Hn), (ln_size _ _ _ _ Hn) in Hroom.
    destruct (LeafInsert_safe sz n kvs nx Hn key v i threshold ra Hlow Es Hroom) as (n' & E & Hn' & _).
    exists i, (n', None). done.
  - specialize (Hne eq_refl). destruct (LeafInsert_split sz n kvs nx Hn key v i threshold ra Hlow Hnew Es Hne) as (n' & rn & E & Hn' & Hrn).
    exists i, (n', Some rn). split; [done|]. split; [done|]. split; [done|]. split; [done|].
    eexists _, _. split; [apply take_drop|]. assert (0 < length kvs)%nat by (destruct kvs; [done|cbn; lia]).
    split; [|split; [|by split]]; intros E0; apply (f_equal length) in E0; revert E0;
      rewrite ?length_take, ?length_drop, length_ins_at; unfold leaf_cut; cbn [length]; Z.to_euclidean_division_equations; lia.
Qed.

(** InnerInsert, called as Insert does when the child [a] of an inner node was split at [mid], links the node to the new child [r] right after [a], which keeps the keys up to [mid]; or, when the threshold says to split, shares the children so linked between the node and a new one to its right, whose keys are above the greatest key the old one keeps. *)
Theorem blink_inner_insert_correct {V} `{!Inhabited V} (T : ktype) (sz : Z) (n : node V) (E1 E2 : level) (a r : Z) (u : option Z) (mid : Z) (nx : ptr)
    (threshold : spec_float) (ra : Z) :
  inner_node sz n (E1 ++ (a, u) :: E2) nx -> ordered (in_range T) (E1 ++ (a, u) :: E2) -> ordered (in_range T) (E1 ++ (a, Some mid) :: (r, u) :: E2) ->
  (safe (item_cnt_ n) sz threshold = true -> item_cnt_ n < sz) ->
  exists res, InnerInsert n mid (Some a) (Some r) threshold ra = Some res
    /\ match res with
       | (n', None) => inner_node sz n' (E1 ++ (a, Some mid) :: (r, u) :: E2) nx
       | (n', Some rn) => exists F1 q v F2, (F1 ++ [(q, Some v)]) ++ F2 = E1 ++ (a, Some mid) :: (r, u) :: E2
           /\ inner_node sz n' (F1 ++ [(q, Some v)]) (Some ra) /\ high_key n' = Some v
           /\ inner_node sz rn F2 nx /\ (forall k, k ∈ bounds F2 -> v < k)
       end.
Proof.
  intros Hn Ho Ho' Hroom. rewrite <- (in_size _ _ _ _ Hn) in Hroom.
  destruct (safe (item_cnt_ n) (node_size_ n) threshold) eqn:Es.
  - specialize (Hroom eq_refl). rewrite (in_cnt _ _ _ _ Hn), (in_size _ _ _ _ Hn) in Hroom.
    destruct (InnerInsert_safe T E1 E2 a r u mid Ho Ho' sz n nx Hn threshold ra Es Hroom) as (n' & E & Hn').
    by exists (n', None).
  - destruct (InnerInsert_split T E1 E2 a r u mid Ho Ho' sz n nx Hn threshold ra Es) as (n' & rn & E & Hn' & Hrn).
    exists (n', Some rn). split; [done|].
    destruct (after_cut T sz E1 E2 a r u mid n n' rn nx ra Hn Ho' Hn' Hrn) as (F1 & q & v & F2 & w & EF & HF2 & Hn1 & Hrn1 & Hv & _).
    exists F1, q, v, F2. split; [done|]. split; [done|]. split; [|split; [done|]].
    + unfold max_key, key_at, size in Hv. unfold high_key. destruct (_ && _); done.
    + intros k (e & He & Ee)%elem_of_bounds. unfold Levels.after in EF. rewrite EF, ordered_app in Ho'.
      destruct Ho' as (_ & _ & Hlt). specialize (Hlt (q, Some v) e). unfold entry_lt in Hlt. rewrite Ee in Hlt.
      apply Hlt; [|done]. apply elem_of_app. right. by left.
Qed.

(** ** The properties at a small tree *)

(** nodes of four keys *)
Definition ex_params : BTree := mkBTree 4 4 three_quarters one_quarter three_quarters one_quarter.

Lemma ex_params_ok : params_ok ex_params.
Proof. apply params_check_ok. by vm_compute. Qed.

#[local] Instance ex_nodes : NodeAllocator Z := fun ns => fresh (dom ns : gset Z).
#[local] Instance ex_nodes_laws : NodeAllocatorLaws Z.
Proof. intros ns. apply (not_elem_of_dom (D := gset Z)). exact (is_fresh (dom ns : gset Z)). Qed.

Definition ex_blink_ops : list (blink_op Z) :=
  [OpInsert 5 50; OpInsert 9 90; OpInsert 5 51; OpInsert 1 10; OpInsert 7 70; OpUpdate 9 91; OpSearch 9; OpScanFixed 4 2; OpDelete 5; OpScanLeaf].
Definition ex_answers : list (answer Z) :=
  [Done true; Done true; Done false; Done true; Done true; Done true; Value (Some 91); Pairs true [(5, 50); (7, 70)];
   Done false; Pairs true [(1, 10); (5, 50); (7, 70); (9, 91)]].

Lemma ex_blink : exists t : tree Z, blink_implements KU64 ex_params t {[5 := 50]}.
Proof.
  destruct (blink_step_spec KU64 ex_params ex_params_ok (BLinkTree ex_params (∅ : gmap Z (node Z))) ∅ (OpInsert 5 50)) as (t & _ & Hi).
  - apply blink_create, ex_params_ok.
  - by intros key [= <-].
  - by exists t.
Qed.

Lemma blink_refines_map_witness :
  exists t, blink_run (BLinkTree ex_params (∅ : gmap Z (node Z))) ex_blink_ops = Some (ex_answers, t).
Proof.
  destruct (blink_refines_map KU64 ex_params (∅ : gmap Z (node Z)) ex_blink_ops) as (t & E & _).
  - apply ex_params_ok.
  - repeat (apply Forall_cons; split; [by intros key [= <-]|]). apply Forall_nil. exact I.
  - exists t. rewrite E. vm_compute. reflexivity.
Defined.

Lemma blink_scans_correct_witness : exists t : tree Z, ScanRange t 2 9 [(0, 0)] = Some (true, [(0, 0); (5, 50)], t).
Proof.
  destruct ex_blink as [t Hi]. exists t.
  destruct (blink_scans_correct KU64 ex_params t {[5 := 50]} 2 9 0 [(0, 0)] Hi) as (_ & _ & _ & E & _). exact E.
Defined.

Lemma blink_destroy_correct_witness : exists (t : tree Z) ns l, destroy t = Some (ns, l) /\ NoDup l /\ root_ t ∈ l.
Proof.
  destruct ex_blink as [t Hi]. exists t.
  destruct (blink_destroy_correct KU64 ex_params t {[5 := 50]} Hi) as (ns & l & E & Hnd & Hl & _).
  exists ns, l. split; [exact E|]. split; [exact Hnd|]. apply Hl, node_root.
Defined.

(** a leaf that splits *)
Definition ex_leaf : node Z := mkNode true 4 3 None None [1; 5; 9; 0] (Values [10; 50; 90; 0]).

Lemma ex_starts {A} (l X : list A) : take (length X) l = X -> starts l X.
Proof.
  intros E. assert (length X <= length l)%nat as Hl by (rewrite <- E, length_take; lia). apply starts_intro; [done|].
  intros j Hj. rewrite <- E. rewrite <- (Z2Nat.id j) by lia. rewrite !aget_nat. by rewrite lookup_take_lt by lia.
Qed.

Lemma ex_leaf_node : leaf_node 4 ex_leaf [(1, 10); (5, 50); (9, 90)] None.
Proof.
  split; try done.
  - split; [done|]. by apply ex_starts.
  - exists [10; 50; 90; 0]. split; [done|]. split; [done|]. by apply ex_starts.
Qed.

Lemma blink_leaf_insert_correct_witness :
  exists i r, NodeScan ex_leaf 7 = Some i /\ LeafInsert ex_leaf 7 70 i three_quarters 33 = Some r.
Proof.
  destruct (blink_leaf_insert_correct 4 ex_leaf [(1, 10); (5, 50); (9, 90)] None 7 70 three_quarters 33) as (i & r & E1 & E2 & _).
  - apply ex_leaf_node.
  - repeat constructor.
  - apply (bool_decide_unpack _). by vm_compute.
  - done.
  - done.
  - by exists i, r.
Defined.

(** an inner node whose first child was split *)
Definition ex_inner : node Z := mkNode false 4 1 None None [5; 0; 0; 0] (Children [Some 10; Some 11; None; None; None]).

Lemma ex_inner_node : inner_node 4 ex_inner [(10, Some 5); (11, None)] None.
Proof.
  split; try done.
  - split; [done|]. by apply ex_starts.
  - eexists. split; [done|]. split; [done|]. by apply ex_starts.
Qed.

Lemma ex_two (a c u : Z) (w : option Z) : in_range KU64 u -> entry_ok (in_range KU64) (c, w) -> w = None \/ (exists k, w = Some k /\ u < k) ->
  ordered (in_range KU64) [(a, Some u); (c, w)].
Proof.
  intros Hu Hw H. rewrite !ordered_cons. split; [by intros k [= <-]|]. split; [split; [done|split; [split; constructor|]]|].
  - intros e He. by apply not_elem_of_nil in He.
  - intros e He. apply list_elem_of_singleton in He as ->. destruct H as [->|(k & -> & ?)]; done.
Qed.

Lemma blink_inner_insert_correct_witness :
  exists res, InnerInsert ex_inner 3 (Some 10) (Some 12) three_quarters 33 = Some res.
Proof.
  destruct (blink_inner_insert_correct KU64 4 ex_inner [] [(11, None)] 10 12 (Some 5) 3 None three_quarters 33) as (res & E & _).
  - apply ex_inner_node.
  - apply ex_two; [done|done|by left].
  - apply ordered_cons. split; [by intros w [= <-]|]. split; [apply ex_two; [done|done|by left]|].
    intros e [->|[->|H]%elem_of_cons]%elem_of_cons; [done|done|by apply not_elem_of_nil in H].
  - done.
  - by exists res.
Defined.
